(* ===== verification/_CoqProject ===== *)
-Q . S2P
Kubezun.v
Prelude.v
GoStd.v
GoNet.v
K8s.v
NetpolTranslate.v
NetpolRuleSet.v
NetpolNeutron.v
NetpolReconciler.v
NetpolMigrate.v
ZunCapsule.v
ZunStatus.v
ZunTemplate.v
VirtualNode.v
ProviderStreams.v
ProviderState.v
ProviderCapsules.v
ProviderPods.v
ProviderSync.v
ProviderOrphans.v
ProviderTokens.v
ProviderMetrics.v
ProviderSessions.v
Vknode.v
Tenant.v
LoadBalancing.v
ServiceOctavia.v
ServiceMembers.v
ServiceReconciler.v
ServiceGC.v
IngressTuning.v
IngressPlan.v
IngressOctavia.v
IngressPolicies.v
IngressFIP.v
IngressBarbican.v
IngressOwn.v
IngressListener.v
IngressReconciler.v
IngressController.v
Storage.v
VolumeBackend.v
VolumePlan.v
VolumeExpand.v
VolumeReconciler.v
NodeRun.v
NodeSet.v
ControllerLoop.v
ServiceEvents.v
IngressEvents.v
VolumeEvents.v
NetpolEvents.v
ProbeCommand.v
CommandLine.v
