(* ===== verification/Kubezun.v ===== *)
(** * kubezun: a virtual node whose pods are OpenStack Zun capsules

    kubezun registers a Kubernetes node that has no machine.  A pod scheduled
    onto it becomes a capsule in the OpenStack project of the tenant its
    namespace belongs to; NetworkPolicies become Neutron security groups on the
    capsules' ports; Services of type LoadBalancer and Ingresses become Octavia
    load balancers.  This library is a shallow embedding of that program (the Go
    sources under src/) and the theorems that make it correct.

    ** How the parts interact

    A namespace watch (pkg/vknode) keeps the set of namespaces the process
    serves; every cache and every authorization follows that set.  A tenant
    resolver (pkg/tenant) turns a namespace into a binding -- a project and its
    credential -- and that into a session; the capsule APIs (pkg/zun/resolved.go)
    and the reconcilers (cmd/virtual-kubelet/multitenant.go) are kept per
    project and per tenant on top of it.  The provider (pkg/provider) answers
    the node controller: it keeps the record of pods, builds templates
    (pkg/zun/template.go) and makes, adopts and deletes capsules; a status cycle
    brings capsule state back into pod status, and an orphan sweep deletes
    capsules nothing needs.  The netpol controller (pkg/netpol) keeps the groups
    of each policy and, separately, the groups of each pod's port.  The service
    controller (pkg/service) keeps a load balancer per Service, with its members
    found through EndpointSlices and the capsules behind them, and the ingress
    controller (pkg/ingress) one per Ingress, with an L7 policy per path, a pool
    per backend -- its members found by the Service controller's code -- and the
    TLS Secrets mirrored in the key manager.  The volume controller (pkg/volume)
    turns claims into Cinder volumes and Manila shares, grows them, and answers
    the provider what a pod's claim is to be mounted from.

    ** The files

    - Prelude: the result type, the state-and-error monad [M], the triple
      [runs view s m Q E] (started where [view] shows [s], [m] ends in [Q] or
      fails in [E]), loops over lists, and shared lemmas, hints and tactics.
    - GoStd, GoNet, K8s: what the source uses of Go's standard library, and the fields
      of the Kubernetes objects it reads.  Label selectors, whose code is the
      apimachinery library's, are the class [LabelsAPI].
    - NetpolTranslate (translate.go), NetpolRuleSet (ruleset.go): a
      NetworkPolicy reduced to rules Neutron can hold; the Kubernetes meaning of
      a policy, and what translated rules allow.
    - NetpolNeutron (neutron.go, client.go): baseline groups, rule sets, address
      groups and their sweep, over [NeutronAPI].
    - NetpolReconciler (reconciler.go, controller.go): which groups a port
      carries, the peer sets, the queue handlers.  NetpolMigrate (migrate.go):
      the two phases that move a tenant onto policy-decided groups.
    - ZunCapsule, ZunStatus, ZunTemplate (pkg/zun): ownership labels and
      listings, capsule state as pod status, pods as templates with probes,
      files and security contexts.
    - VirtualNode (pkg/node, nodehealth.go, nodespec.go): the node object, its
      health, its command line form.
    - ProviderState (provider.go, files.go, capsules.go): the record [Prov] and
      the handlers; ProviderCapsules: the interface [CapsulesAPI] and its laws;
      ProviderPods: what the handlers promise; ProviderSync (sync.go),
      ProviderOrphans (orphans.go), ProviderTokens (satoken.go),
      ProviderStreams and ProviderMetrics (logfollow.go, stats.go, logs.go),
      ProviderSessions (interactive.go, both packages).
    - Vknode (namespaces.go, scoped.go), Tenant (pkg/tenant, resolved.go,
      multitenant.go).
    - NodeRun (vknode.go: runHTTP, run, Run, WaitReady): the goroutines of a set
      of nodes as a step relation [set_step], the program's steps [set_own] apart
      from those of the controllers and callers.  NodeSet (vknode.go: the set and
      AddNode; listers.go, objects.go, certs.go).
    - ProbeCommand (cmd/probe): the helper a network probe becomes an exec of.
    - CommandLine (cmd/virtual-kubelet/main.go): the nodes the flags give, and
      the functions by which one component is handed to another.
    - LoadBalancing: Octavia, floating addresses, the clock and the Service API
      as classes with laws over [LBState]; ServiceOctavia (octavia.go,
      floatingip.go), ServiceMembers (members.go, subnet.go), ServiceReconciler
      (reconciler.go), ServiceGC (gc.go, controller.go).
    - Over the same [LBState], with classes for L7 policies and listener
      settings, floating addresses by description, Ingresses and the key
      manager: IngressTuning (tuning.go), IngressPlan (l7.go: backends and
      policies as data, and what Octavia and Kubernetes each make of a request),
      IngressOctavia and IngressListener (octavia.go: listeners and pools),
      IngressPolicies (l7.go: the policies of a listener), IngressFIP (fip.go),
      IngressBarbican (barbican.go, ensureTLS), IngressOwn (whose Ingress is
      whose), IngressReconciler (reconciler.go, members), IngressController
      (tear-down, controller.go).
    - Storage: quantities, Cinder, Manila, claims and volumes, the filesystems
      of capsules and events as classes with laws over [StState]; VolumeBackend
      (backend.go, expand.go), VolumePlan (reconciler.go: classes, sizes,
      placement), VolumeExpand (growing a claim), VolumeReconciler (the pass, the
      sweep, mounts, controller.go).
    - ControllerLoop: what the controllers share -- caches that change and leave
      notes, handlers, the work queue, its workers -- as a step relation
      [loop_step] over an [EventSource], the class of what a controller supplies,
      and a [WorkQueue].  ServiceEvents, IngressEvents and VolumeEvents are its
      instances with one worker (NewController, processNext and reconcile of each
      controller.go), and NetpolEvents has two, a queue of pods and one of
      policies, with any number of workers, and the copies of the reconciler a
      multi-tenant process keeps.

    ** How the code is modelled

    A Go function that returns an error returns a [result]; one that also talks
    to a service or changes its receiver is in [M W], where [W] is the state of
    everything it can reach; a receiver's fields are a Record passed along.
    Definitions keep the source's names; a loop body that the proofs need alone
    has a name of its own ([sync_pod], [endpoint_step], [wait_loop]).  A service
    the process calls is a class of operations, and what is documented of it a
    second class of laws over a [view] of the world: the theorems hold for every
    service that keeps the laws, and each interface has a reference instance
    ([RefNeutron], [RefCapsules], [RefOctavia], ...) that keeps them, on which
    the witnesses evaluate the program.  A failing call has an arbitrary error
    and, where the laws allow it, may have taken effect.  Where Go ranges over a
    map, the order is a parameter the theorems quantify over.  64-bit integers
    wrap where the code can overflow (CPU rates, sums, exit codes).

    ** What the theorems show

    - Policies: the groups a port carries allow nothing Kubernetes would not,
      and exactly what it would when no part was refused
      ([GroupsFor_enforces], [policy_never_wider], [policy_exact]), of policies
      the API accepts none of whose pod selectors prints as "all"
      ([no_all_selector]; [SelectorKey_collision] is what happens to one that
      does) and while the groups hold what was written to them; a pass leaves
      no stale rule and two passes leave exactly the wanted ones; peer sets are
      exact; no event that matters is dropped; the sweep takes only what nothing
      refers to; migration never takes a group away in its attach phase.
    - Pods: a create makes one capsule or adopts the one there; a delete removes
      that pod's capsule alone; the status cycle settles each pod by what was
      listed and touches nothing when a listing fails; the orphan sweep never
      deletes a live pod's capsule; templates carry the pod faithfully and
      honour runAsNonRoot; labels bring back the pod; token renewal, log
      following, terminals and rates are as promised.
    - Tenants: whatever was asked before, a reconciler handed out for a
      namespace works on its tenant's session alone; bindings agree with what
      was recorded, or are refused.
    - Load balancers: a pass puts a Service in place and touches no other;
      taking one down gives its address back first; the sweep deletes only what
      it can name and the cache says is gone; members are whole or refused; the
      wait ends.
    - Ingresses: a pass leaves listener, pools, members, policies, certificates
      and status as the Ingress asks ([Ingress_reconciled]); the policies send a
      request where Kubernetes' rules say -- hosts, wildcard ones too, before
      paths, an Exact path before a Prefix one and a longer before a shorter
      ([k8s_routes]) -- for a request and rules on which the code's order agrees
      with that ([policies_route_as_kubernetes]; the file shows it does not on
      wildcard hosts, rules without a host, parts of an element and Exact paths
      listed late); an Ingress that is gone is taken down whole; taking down and
      sweeping touch only what carries the Ingress's name; annotations that
      cannot be read are errors.
    - Claims: storage is made once, of the size, kind and place asked for, and
      what loses the race for its volume is given back ([Claim_provisioned]); a
      claim never says more than there is, where the reconciler can reach the
      capsules ([Claim_grows], [growth_without_capsules]); only released storage
      is removed; what was made is what is mounted.
    - Nodes: whatever the interleaving, a node is registered only with its pods
      handled and its API up behind the authorizer, and ends with nothing left
      ([virtual_nodes_safe], [virtual_nodes_end]); every pod has the one node it
      names ([one_node_per_pod]); a volume admits the node its pod was put on
      ([volume_reaches_its_node]); a tenant's conversion waits to be confirmed.
    - Events: whatever the order of changes, deliveries and passes, what is not as
      the last content pass read it is on its way to another, and once a
      controller is quiet everything it heard of had a successful pass over the
      caches as they are ([service_events_not_lost], [ingress_events_not_lost],
      [claim_events_not_lost], [policy_events_not_lost], [pod_events_not_lost]),
      but for what no handler is told of: what a slice was relabelled away from
      ([ca_left], [ci_left]), and the slices of Ingresses the process's own
      reconciler does not look out for ([unheard]); no two workers have one key.  A pass that keeps failing keeps its key pending:
      that it ends is not claimed.
    - Probes: the command a probe is rewritten to passes exactly where the
      kubelet's check would ([probe_means_the_same]), of a plain probe
      ([plain_http]) and a container that answers both alike ([answers_alike]).
      The kubelet's check is described apart ([kubelet_passes]).
    - Failures: where a theorem says what is given back or cleaned up by a call
      whose failure the code ignores, it says so of a call that cannot fail
      ([cannot_fail]).
    - What modelling showed: each component's file ends with the theorems that
      pin down where the code does not do what it means to.

    ** Bounds and fuel

    Loops over lists are structural.  [wait_loop] takes a number of polls:
    [polls] is 152, one more than the five-minute deadline admits at two seconds
    a poll, and [WaitActive_terminates] shows it never runs out; [await_loop] is
    given [extend_polls] of them, one every three seconds of two minutes, and
    [Expand_terminates] shows the same.  Parsers over
    strings recurse on the string.  Log following is a sequence of polls given
    as a list.  The run of a set of nodes has no fuel: [virtual_nodes_end]
    bounds its steps by a measure.

    ** Not modelled, and why

    - HTTP and websocket transport, URL building, paging, JSON decoding of
      times: the client libraries' work; what crosses them is a class here.
    - Locks, tickers and the inside of informers: operations are sequential steps,
      and where staleness matters (a cycle's snapshot, a cached Service, a cached
      binding) the stale value is an explicit argument.  Goroutines are steps of a
      relation in NodeRun and ControllerLoop; elsewhere the code starts them
      around operations that lock.  In ControllerLoop a pass reads the caches as
      they are when it starts, an object keeps its namespace and name, and the
      served namespaces stay as they are: a namespace that
      begins to be served brings its objects as new ones (Vknode).  The two queues
      of the netpol controller are two runs of it: to either, what the other does
      is the world changing and a key being added.
    - Logging and the texts of events, except where an event is the outcome.
    - The rest of cmd/virtual-kubelet/main.go: declaring and reading flags,
      building clients and starting the controllers; cmd/nptest, which calls the
      packages by hand; fractions in the durations cmd/probe reads; pkg/service/client.go, which builds
      clients of the OpenStack library from a session. *)
