(* ===== verification/Prelude.v ===== *)
(** * The prelude: results, stateful code, loops, and shared lemmas

    The result type and the state-and-error monad the components are written
    in, triples over it, the views through which a service is observed, and
    the list and option lemmas, hints and tactics the components share. *)

From stdpp Require Export base option list gmap strings sorting pretty.
From stdpp Require Import tactics.

(** ** Results and errors

    Go's [error] values are told apart in the source by identity
    ([err == ErrNotFound]), by type ([errors.As]) and by the HTTP status an
    OpenStack call answered with.  [gerror] keeps those distinctions;
    [ErrWrap] is [fmt.Errorf("...: %w", err)], whose cause stays reachable. *)
Inductive gerror : Type :=
  | ErrMsg (msg : string)
  | ErrNotFound
  | ErrPolicyPending (policy : string)
  | ErrResponse (code : Z) (body : string)
  | ErrK8sNotFound
  | ErrK8sAlreadyExists
  | ErrInvalidInput (field why : string)
  | ErrWrap (msg : string) (cause : gerror).

#[export] Instance gerror_eq_dec : EqDecision gerror.
Proof. solve_decision. Defined.

(** [err.Error()]; of an answer with a status code, [body] is the text. *)
Fixpoint error_string (e : gerror) : string :=
  match e with
  | ErrMsg m => m
  | ErrWrap m c => m +:+ ": " +:+ error_string c
  | ErrNotFound => "not found"
  | ErrPolicyPending p =>
      "policy " +:+ p +:+ " has not been prepared yet; the pod will be retried"
  | ErrInvalidInput f w =>
      "pod field " +:+ f +:+ " is not supported on a KNaaS virtual node: " +:+ w
  | ErrResponse code body => body
  | ErrK8sNotFound => "not found"
  | ErrK8sAlreadyExists => "already exists"
  end.

Inductive result (A : Type) : Type :=
  | Ok (a : A)
  | Err (e : gerror).
Arguments Ok {A} a.
Arguments Err {A} e.

#[export] Instance result_eq_dec {A} `{EqDecision A} : EqDecision (result A).
Proof. solve_decision. Defined.

#[export] Instance result_ret : MRet result := @Ok.
#[export] Instance result_bind : MBind result := λ A B f r,
  match r with Ok a => f a | Err e => Err e end.
#[export] Instance result_fmap : FMap result := λ A B f r,
  match r with Ok a => Ok (f a) | Err e => Err e end.

Definition is_ok {A} (r : result A) : bool :=
  match r with Ok _ => true | Err _ => false end.

(** [errors.As] walks the chain of wrapped causes. *)
Fixpoint root_cause (e : gerror) : gerror :=
  match e with ErrWrap _ c => root_cause c | _ => e end.

(** ** Stateful, fallible code

    A method that talks to a service is a function of the world [W] it talks
    to: it returns what the Go method returns together with the world it
    leaves behind.  An error does not undo what was already done. *)
Definition M (W A : Type) : Type := W → result A * W.

#[export] Instance M_ret {W} : MRet (M W) := λ A a w, (Ok a, w).
#[export] Instance M_bind {W} : MBind (M W) := λ A B f m w,
  match m w with
  | (Ok a, w') => f a w'
  | (Err e, w') => (Err e, w')
  end.

Definition fail {W A} (e : gerror) : M W A := λ w, (Err e, w).
(** [try m]: run [m] and hand its error back as a value, for code that looks
    at [err] instead of returning it. *)
Definition try {W A} (m : M W A) : M W (result A) := λ w,
  let '(r, w') := m w in (Ok r, w').
Definition lift_result {W A} (r : result A) : M W A := λ w, (r, w).
(** [wrap msg m] is [if err != nil { return fmt.Errorf(msg + ": %w", err) }]. *)
Definition wrap {W A} (msg : string) (m : M W A) : M W A := λ w,
  match m w with
  | (Ok a, w') => (Ok a, w')
  | (Err e, w') => (Err (ErrWrap msg e), w')
  end.

(** [for _, x := range l { ... }] whose body may return an error. *)
Fixpoint for_each {W A} (l : list A) (f : A → M W ()) : M W () :=
  match l with
  | [] => mret ()
  | x :: l' => f x ≫= λ _, for_each l' f
  end.

(** The same with an accumulator threaded through. *)
Fixpoint fold_each {W A B} (f : B → A → M W B) (b : B) (l : list A) : M W B :=
  match l with
  | [] => mret b
  | x :: l' => f b x ≫= λ b', fold_each f b' l'
  end.

(** A pure loop that may return early with an error. *)
Fixpoint fold_result {A B} (f : B → A → result B) (b : B) (l : list A) : result B :=
  match l with
  | [] => Ok b
  | x :: l' => f b x ≫= λ b', fold_result f b' l'
  end.

(** A loop that only checks. *)
Fixpoint check_each {A} (f : A → result ()) (l : list A) : result () :=
  match l with
  | [] => Ok ()
  | x :: l' => f x ≫= λ _, check_each f l'
  end.

(** A loop that builds one thing per element. *)
Fixpoint map_result {A B} (f : A → result B) (l : list A) : result (list B) :=
  match l with
  | [] => Ok []
  | x :: l' => y ← f x; ys ← map_result f l'; Ok (y :: ys)
  end.

Lemma check_each_ok {A} (f : A → result ()) l :
  check_each f l = Ok () ↔ ∀ x, x ∈ l → f x = Ok ().
Proof.
  induction l as [|x l IH]; simpl; [split; [by intros _ x ?%elem_of_nil|done]|].
  unfold mbind, result_bind in *. setoid_rewrite elem_of_cons.
  destruct (f x) as [[]|] eqn:Hf; [rewrite IH|]; split.
  - intros H y [->|Hy]; auto.
  - auto.
  - done.
  - intros H. specialize (H x (or_introl eq_refl)). congruence.
Qed.

Lemma map_result_Forall2 {A B} (f : A → result B) l ys :
  map_result f l = Ok ys → Forall2 (λ x y, f x = Ok y) l ys.
Proof.
  revert ys. induction l as [|x l IH]; intros ys; simpl; [intros [= <-]; constructor|].
  unfold mbind, result_bind in *. destruct (f x) as [y|] eqn:Hf; [|done].
  destruct (map_result f l) as [ys'|]; [|done]. intros [= <-].
  constructor; [done|by apply IH].
Qed.
Lemma Forall2_map_result {A B} (f : A → result B) l ys :
  Forall2 (λ x y, f x = Ok y) l ys → map_result f l = Ok ys.
Proof. induction 1 as [|x y l ys Hf _ IH]; [done|]. simpl. by rewrite Hf, IH. Qed.

(** ** Triples over [M] *)
Definition triple {W A} (P : W → Prop) (m : M W A)
    (Q : A → W → Prop) (E : gerror → W → Prop) : Prop :=
  ∀ w, P w →
    match m w with
    | (Ok a, w') => Q a w'
    | (Err e, w') => E e w'
    end.

Section triples.
Context {W : Type}.
Implicit Types P : W → Prop.

Lemma triple_ret {A} P (a : A) (Q : A → W → Prop) E :
  (∀ w, P w → Q a w) → triple P (mret a) Q E.
Proof. intros HQ w Hw. exact (HQ w Hw). Qed.

Lemma triple_fail {A} P e (Q : A → W → Prop) (E : gerror → W → Prop) :
  (∀ w, P w → E e w) → triple P (fail e) Q E.
Proof. intros HE w Hw. exact (HE w Hw). Qed.

Lemma triple_bind {A B} P (m : M W A) (f : A → M W B)
    (R : A → W → Prop) (Q : B → W → Prop) E :
  triple P m R E →
  (∀ a, triple (R a) (f a) Q E) →
  triple P (m ≫= f) Q E.
Proof.
  intros Hm Hf w Hw. specialize (Hm w Hw). unfold mbind, M_bind.
  destruct (m w) as [[a|e] w']; [exact (Hf a w' Hm)|exact Hm].
Qed.

Lemma triple_conseq {A} P P' (m : M W A) (Q Q' : A → W → Prop)
    (E E' : gerror → W → Prop) :
  triple P' m Q' E' →
  (∀ w, P w → P' w) → (∀ a w, Q' a w → Q a w) → (∀ e w, E' e w → E e w) →
  triple P m Q E.
Proof.
  intros Hm HP HQ HE w Hw. specialize (Hm w (HP w Hw)).
  destruct (m w) as [[a|e] w']; auto.
Qed.

Lemma triple_try {A} P (m : M W A) (Q : result A → W → Prop) E :
  triple P m (λ a w, Q (Ok a) w) (λ e w, Q (Err e) w) → triple P (try m) Q E.
Proof.
  intros Hm w Hw. specialize (Hm w Hw). unfold try.
  by destruct (m w) as [[a|e] w'].
Qed.

Lemma triple_wrap {A} P msg (m : M W A) (Q : A → W → Prop) E :
  triple P m Q (λ e w, E (ErrWrap msg e) w) → triple P (wrap msg m) Q E.
Proof.
  intros Hm w Hw. specialize (Hm w Hw). unfold wrap.
  by destruct (m w) as [[a|e] w'].
Qed.

Lemma triple_for_each {A} (I : W → Prop) (l : list A) (f : A → M W ()) E :
  (∀ x, x ∈ l → triple I (f x) (λ _, I) E) →
  triple I (for_each l f) (λ _, I) E.
Proof.
  induction l as [|x l IH]; intros Hf; simpl.
  - by apply triple_ret.
  - apply triple_bind with (λ _, I).
    + apply Hf. by left.
    + intros _. apply IH. intros y Hy. apply Hf. by right.
Qed.

(** The loop rule with the processed prefix in the invariant. *)
Lemma triple_for_each_prefix {A} (I : list A → W → Prop) (l : list A)
    (f : A → M W ()) E :
  (∀ pre x post, l = pre ++ x :: post →
    triple (I pre) (f x) (λ _, I (pre ++ [x])) E) →
  triple (I []) (for_each l f) (λ _, I l) E.
Proof.
  intros Hf.
  enough (∀ l2 l1, l = l1 ++ l2 →
    triple (I l1) (for_each l2 f) (λ _, I l) E) as H by (by apply (H l [])).
  induction l2 as [|x l2 IH]; intros l1 Hl; simpl.
  - apply triple_ret. rewrite app_nil_r in Hl. by subst.
  - apply triple_bind with (λ _, I (l1 ++ [x])).
    + by apply (Hf l1 x l2).
    + intros _. apply IH. by rewrite <-app_assoc.
Qed.
End triples.

(** Errors a caller treats as agreement: [if err != nil && !p(err)]. *)
Definition ignoring {W A} (p : gerror → bool) (m : M W A) : M W () := λ w,
  match m w with
  | (Ok _, w') => (Ok (), w')
  | (Err e, w') => if p e then (Ok (), w') else (Err e, w')
  end.

(** ** Triples through a view

    A service's laws speak of what can be observed of it: [view w].  [runs
    view s m Q E] says what [m] does from any world that looks like [s]. *)
Definition runs {W S A} (view : W → S) (s : S) (m : M W A)
    (Q : A → S → Prop) (E : gerror → S → Prop) : Prop :=
  ∀ w, view w = s →
    match m w with
    | (Ok a, w') => Q a (view w')
    | (Err e, w') => E e (view w')
    end.

(** A call that succeeds in every world that looks like [s]. *)
Definition cannot_fail {W S A} (view : W → S) (m : M W A) (s : S) : Prop :=
  ∀ w, view w = s → is_ok (m w).1 = true.

Section runs.
Context {W S : Type} (view : W → S).

(** What failed could have failed. *)
Lemma runs_can_fail {A} s (m : M W A) (Q : A → S → Prop) (E : gerror → S → Prop) :
  runs view s m Q E → runs view s m Q (λ e s', E e s' ∧ ¬ cannot_fail view m s).
Proof.
  intros Hm w Hw. specialize (Hm w Hw). destruct (m w) as [[a|e] w'] eqn:He; [done|].
  split; [done|]. intros Hs. specialize (Hs w Hw). by rewrite He in Hs.
Qed.

Lemma runs_ret {A} s (a : A) (Q : A → S → Prop) E : Q a s → runs view s (mret a) Q E.
Proof. intros HQ w <-. exact HQ. Qed.

Lemma runs_fail {A} s e (Q : A → S → Prop) (E : gerror → S → Prop) :
  E e s → runs view s (fail e) Q E.
Proof. intros HE w <-. exact HE. Qed.

Lemma runs_lift {A} s (r : result A) (Q : A → S → Prop) (E : gerror → S → Prop) :
  match r with Ok a => Q a s | Err e => E e s end → runs view s (lift_result r) Q E.
Proof. intros H w <-. unfold lift_result. by destruct r. Qed.

Lemma runs_bind {A B} s (m : M W A) (f : A → M W B) (R : A → S → Prop)
    (Q : B → S → Prop) (E' E : gerror → S → Prop) :
  runs view s m R E' → (∀ e s', E' e s' → E e s') →
  (∀ a s', R a s' → runs view s' (f a) Q E) →
  runs view s (m ≫= f) Q E.
Proof.
  intros Hm HE Hf w Hw. specialize (Hm w Hw). unfold mbind, M_bind.
  destruct (m w) as [[a|e] w']; [by apply (Hf a (view w') Hm w')|by apply HE].
Qed.

Lemma runs_conseq {A} s (m : M W A) (Q Q' : A → S → Prop) (E E' : gerror → S → Prop) :
  runs view s m Q' E' → (∀ a s', Q' a s' → Q a s') → (∀ e s', E' e s' → E e s') →
  runs view s m Q E.
Proof.
  intros Hm HQ HE w Hw. specialize (Hm w Hw).
  destruct (m w) as [[a|e] w']; auto.
Qed.

Lemma runs_try {A} s (m : M W A) (Q : result A → S → Prop) E :
  runs view s m (λ a s', Q (Ok a) s') (λ e s', Q (Err e) s') → runs view s (try m) Q E.
Proof.
  intros Hm w Hw. specialize (Hm w Hw). unfold try.
  by destruct (m w) as [[a|e] w'].
Qed.

Lemma runs_wrap {A} s msg (m : M W A) (Q : A → S → Prop) (E : gerror → S → Prop) :
  runs view s m Q (λ e s', E (ErrWrap msg e) s') → runs view s (wrap msg m) Q E.
Proof.
  intros Hm w Hw. specialize (Hm w Hw). unfold wrap.
  by destruct (m w) as [[a|e] w'].
Qed.

Lemma runs_bind_wrap {A B} s msg (m : M W A) (f : A → M W B) (R : A → S → Prop)
    (Q : B → S → Prop) (E' E : gerror → S → Prop) :
  runs view s m R E' → (∀ e s', E' e s' → E (ErrWrap msg e) s') →
  (∀ a s', R a s' → runs view s' (f a) Q E) →
  runs view s (wrap msg m ≫= f) Q E.
Proof.
  intros Hm HE Hf. eapply runs_bind; [|exact (λ e s' H, H)|exact Hf].
  apply runs_wrap. by eapply runs_conseq.
Qed.

Lemma runs_try_bind {A B} s (m : M W A) (f : result A → M W B) (R : A → S → Prop)
    (E' : gerror → S → Prop) (Q : B → S → Prop) (E : gerror → S → Prop) :
  runs view s m R E' →
  (∀ a s', R a s' → runs view s' (f (Ok a)) Q E) →
  (∀ e s', E' e s' → runs view s' (f (Err e)) Q E) →
  runs view s (try m ≫= f) Q E.
Proof.
  intros Hm Hok Herr w Hw. specialize (Hm w Hw). unfold mbind, M_bind, try.
  destruct (m w) as [[a|e] w']; [by apply (Hok a (view w') Hm)|by apply (Herr e (view w') Hm)].
Qed.

Lemma runs_ignoring {A} s p (m : M W A) (Q : () → S → Prop) (E : gerror → S → Prop) :
  runs view s m (λ _ s', Q () s') (λ e s', if p e : bool then Q () s' else E e s') →
  runs view s (ignoring p m) Q E.
Proof.
  intros Hm w Hw. specialize (Hm w Hw). unfold ignoring.
  destruct (m w) as [[a|e] w']; [done|]. by destruct (p e).
Qed.

Lemma runs_and {A} s (m : M W A) (Q1 Q2 : A → S → Prop) (E1 E2 : gerror → S → Prop) :
  runs view s m Q1 E1 → runs view s m Q2 E2 →
  runs view s m (λ a s', Q1 a s' ∧ Q2 a s') (λ e s', E1 e s' ∧ E2 e s').
Proof.
  intros H1 H2 w Hw. specialize (H1 w Hw). specialize (H2 w Hw). by destruct (m w) as [[a|e] w'].
Qed.

(** A run that is known to succeed. *)
Lemma runs_ok {A} w (m : M W A) (Q : A → S → Prop) (E : gerror → S → Prop) :
  runs view (view w) m Q E → is_ok (m w).1 = true →
  ∃ a, (m w).1 = Ok a ∧ Q a (view (m w).2).
Proof.
  intros Hm Hok. specialize (Hm w eq_refl).
  destruct (m w) as [[a|e] w']; [by exists a|done].
Qed.

(** The loop rule, with the processed prefix in the invariant. *)
Lemma runs_for_each {A} (I : list A → S → Prop) (l : list A) (f : A → M W ()) E s :
  I [] s →
  (∀ pre x post s, l = pre ++ x :: post → I pre s →
    runs view s (f x) (λ _ s', I (pre ++ [x]) s') E) →
  runs view s (for_each l f) (λ _ s', I l s') E.
Proof.
  intros H0 Hf.
  enough (∀ l2 l1 s, l = l1 ++ l2 → I l1 s →
    runs view s (for_each l2 f) (λ _ s', I l s') E) as H by (by apply (H l [])).
  induction l2 as [|x l2 IH]; intros l1 s' Hl HI; simpl.
  - apply runs_ret. rewrite app_nil_r in Hl. by subst.
  - eapply runs_bind; [by apply (Hf l1 x l2)|done|].
    intros u s'' HI'. apply (IH (l1 ++ [x])); [by rewrite <-app_assoc|done].
Qed.

Lemma runs_fold_each {A B} (I : list A → B → S → Prop) (l : list A)
    (f : B → A → M W B) E b s :
  I [] b s →
  (∀ pre x post b s, l = pre ++ x :: post → I pre b s →
    runs view s (f b x) (λ b' s', I (pre ++ [x]) b' s') E) →
  runs view s (fold_each f b l) (λ b' s', I l b' s') E.
Proof.
  intros H0 Hf.
  enough (∀ l2 l1 b s, l = l1 ++ l2 → I l1 b s →
    runs view s (fold_each f b l2) (λ b' s', I l b' s') E) as H by (by apply (H l [])).
  induction l2 as [|x l2 IH]; intros l1 b' s' Hl HI; simpl.
  - apply runs_ret. rewrite app_nil_r in Hl. by subst.
  - eapply runs_bind; [by apply (Hf l1 x l2)|done|].
    intros b'' s'' HI'. apply (IH (l1 ++ [x])); [by rewrite <-app_assoc|done].
Qed.
End runs.

(** A call that failed left things alone or took place all the same (a reply
    that was lost). *)
Definition maybe {S} (s : S) (P : S → Prop) (s' : S) : Prop := s' = s ∨ P s'.

(** [gophercloud.ResponseCodeIs]. *)
Definition ResponseCodeIs (e : gerror) (code : Z) : bool :=
  match root_cause e with
  | ErrResponse c _ => bool_decide (c = code)
  | _ => false
  end.

(** *** What a listing answers

    [l] is the rows of [m] that satisfy [P], each once, under their ids. *)
Definition lists {A R} (id : A → string) (row : A → R) (m : gmap string R) (P : R → Prop)
    (l : list A) : Prop :=
  NoDup (id <$> l) ∧ ∀ i r, (∃ a, a ∈ l ∧ id a = i ∧ row a = r) ↔ m !! i = Some r ∧ P r.

Definition listing {A R} (mk : string → R → A) (p : R → bool) (m : gmap string R) : list A :=
  (λ ir, mk ir.1 ir.2) <$> filter (λ ir : string * R, p ir.2 = true) (map_to_list m).

Lemma listing_lists {A R} (id : A → string) (row : A → R) (mk : string → R → A) p (m : gmap string R) P :
  (∀ i r, id (mk i r) = i) → (∀ i r, row (mk i r) = r) → (∀ r, p r = true ↔ P r) →
  lists id row m P (listing mk p m).
Proof.
  intros Hid Hrow Hp. unfold listing. split.
  - rewrite <-list_fmap_compose. apply NoDup_fmap_2_strong; [|apply (stdpp.list_relations.list.NoDup_filter _), NoDup_map_to_list].
    intros [i r] [j r'] [_ Hi]%list_elem_of_filter [_ Hj]%list_elem_of_filter. simpl.
    rewrite !Hid. intros ->. apply elem_of_map_to_list in Hi, Hj. by rewrite Hi in Hj; simplify_eq.
  - intros i r. setoid_rewrite list_elem_of_fmap. setoid_rewrite list_elem_of_filter.
    setoid_rewrite elem_of_map_to_list'. rewrite <-Hp. split.
    + intros (a & ([i' r'] & -> & Hp' & Hm) & <- & <-). simpl in *. by rewrite Hid, Hrow.
    + intros [Hm Hpr]. exists (mk i r). split; [by exists (i, r)|by rewrite Hid, Hrow].
Qed.

(** ** The clock

    What the source asks of time: the current time and to be woken later; a
    [sleep] ends in an error when the context is cancelled. *)
Class Clock (W : Type) := {
  now : W → Z;
  sleep : Z → M W ();
}.
Definition time_now {W} `{!Clock W} : M W Z := λ w, (Ok (now w), w).

Lemma time_now_step {W S B} `{!Clock W} (view : W → S) s (f : Z → M W B) Q E :
  (∀ t, runs view s (f t) Q E) → runs view s (time_now ≫= f) Q E.
Proof. intros Hf w Hw. exact (Hf (now w) w Hw). Qed.

(** ** Reference worlds

    A service whose whole state is the one observed, with a clock: what the
    witnesses evaluate the program on. *)
Record Ref (S : Type) := mkRef { rw_state : S; rw_clock : Z }.
Arguments mkRef {S} _ _.
Arguments rw_state {S} _.
Arguments rw_clock {S} _.

Definition ref_read {S A} (f : S → result A) : M (Ref S) A := λ w, (f (rw_state w), w).
Definition ref_write {S A} (f : S → result (A * S)) : M (Ref S) A := λ w,
  match f (rw_state w) with
  | Ok (a, s') => (Ok a, mkRef s' (rw_clock w))
  | Err e => (Err e, w)
  end.

Lemma ref_read_runs {S A} (f : S → result A) s (Q : A → S → Prop) (E : gerror → S → Prop) :
  match f s with Ok a => Q a s | Err e => E e s end → runs rw_state s (ref_read f) Q E.
Proof. intros H w <-. unfold ref_read. by destruct (f (rw_state w)). Qed.

Lemma ref_write_runs {S A} (f : S → result (A * S)) s (Q : A → S → Prop) (E : gerror → S → Prop) :
  match f s with Ok (a, s') => Q a s' | Err e => E e s end → runs rw_state s (ref_write f) Q E.
Proof. intros H w <-. unfold ref_write. by destruct (f (rw_state w)) as [[a s']|e]. Qed.

(** Reading takes no time; sleeping takes what was asked. *)
Definition RefClockOf {S} : Clock (Ref S) := {|
  now := rw_clock;
  sleep d w := (Ok (), mkRef (rw_state w) (rw_clock w + d)) |}.

(** ** A component's own fields beside the service it talks to

    The fields of a struct and the world behind its clients are two halves of
    the state: [on_service] runs a call of the service, [own_get] and
    [own_modify] read and write the fields. *)
Section own.
Context {S W : Type}.

Definition on_service {A} (m : M W A) : M (S * W) A := λ sw,
  let '(r, w') := m sw.2 in (r, (sw.1, w')).
Definition own_get : M (S * W) S := λ sw, (Ok sw.1, sw).
Definition own_modify (f : S → S) : M (S * W) () := λ sw, (Ok (), (f sw.1, sw.2)).

Context {V : Type} (view : W → V).
Definition beside (sw : S * W) : S * V := (sw.1, view sw.2).

Lemma on_service_step {A B} r s (m : M W A) (f : A → M (S * W) B) (R : A → V → Prop)
    (E1 : gerror → V → Prop) (Q : B → S * V → Prop) (E : gerror → S * V → Prop) :
  runs view s m R E1 → (∀ e s', E1 e s' → E e (r, s')) →
  (∀ a s', R a s' → runs beside (r, s') (f a) Q E) →
  runs beside (r, s) (on_service m ≫= f) Q E.
Proof.
  intros Hm HE Hf [r' w] Hw. unfold beside in Hw. simpl in Hw. injection Hw as -> Hw.
  specialize (Hm w Hw). unfold mbind, M_bind, on_service. simpl.
  destruct (m w) as [[a|e] w']; [|by apply HE].
  by apply (Hf a (view w') Hm (r, w')).
Qed.

Lemma on_service_last {A} r s (m : M W A) (R : A → V → Prop) (E1 : gerror → V → Prop)
    (Q : A → S * V → Prop) (E : gerror → S * V → Prop) :
  runs view s m R E1 → (∀ a s', R a s' → Q a (r, s')) → (∀ e s', E1 e s' → E e (r, s')) →
  runs beside (r, s) (on_service m) Q E.
Proof.
  intros Hm HQ HE [r' w] Hw. unfold beside in Hw. simpl in Hw. injection Hw as -> Hw.
  specialize (Hm w Hw). unfold on_service. simpl.
  destruct (m w) as [[a|e] w']; [by apply HQ|by apply HE].
Qed.

Lemma own_get_step {B} r s (f : S → M (S * W) B) (Q : B → S * V → Prop) E :
  runs beside (r, s) (f r) Q E → runs beside (r, s) (own_get ≫= f) Q E.
Proof.
  intros Hf [r' w] Hw. pose proof (Hf _ Hw) as H. unfold beside in Hw. simpl in Hw.
  injection Hw as -> Hw. exact H.
Qed.

Lemma own_modify_step {B} r s g (f : () → M (S * W) B) (Q : B → S * V → Prop) E :
  runs beside (g r, s) (f ()) Q E → runs beside (r, s) (own_modify g ≫= f) Q E.
Proof.
  intros Hf [r' w] Hw. unfold beside in Hw. simpl in Hw. injection Hw as -> Hw.
  apply (Hf (g r, w)). unfold beside. simpl. by rewrite Hw.
Qed.

Lemma own_modify_last r s g (Q : () → S * V → Prop) E :
  Q () (g r, s) → runs beside (r, s) (own_modify g) Q E.
Proof.
  intros HQ [r' w] Hw. unfold beside in *. simpl in *. by injection Hw as -> <-.
Qed.
End own.

(** ** Shared list and option lemmas *)

Definition opt_or {A} (d : A) (o : option A) : A :=
  match o with Some a => a | None => d end.

Lemma fold_result_app {A B} (f : B → A → result B) b l1 l2 :
  fold_result f b (l1 ++ l2) = fold_result f b l1 ≫= λ b', fold_result f b' l2.
Proof.
  revert b. induction l1 as [|x l1 IH]; intros b; simpl; [done|].
  unfold mbind, result_bind in *. destruct (f b x); [apply IH|done].
Qed.

(** An accumulator that only ever grows keeps what it has. *)
Lemma fold_left_inv {A B} (I : B → Prop) (f : B → A → B) l b :
  I b → (∀ b x, x ∈ l → I b → I (f b x)) → I (fold_left f l b).
Proof.
  revert b. induction l as [|x l IH]; intros b Hb Hf; simpl; [done|].
  apply IH; [apply Hf; [by left|done]|].
  intros b' y Hy. apply Hf. by right.
Qed.

Lemma fold_left_ext {A B} (f g : B → A → B) l b :
  (∀ b x, f b x = g b x) → fold_left f l b = fold_left g l b.
Proof. intros H. revert b. induction l as [|x l IH]; intros b; simpl; [done|]. by rewrite H. Qed.

Lemma filter_ext_in {A} (P Q : A → Prop) `{∀ x, Decision (P x), ∀ x, Decision (Q x)} (l : list A) :
  (∀ x, x ∈ l → P x ↔ Q x) → filter P l = filter Q l.
Proof.
  induction l as [|x l IH]; intros HPQ; [done|]. rewrite !filter_cons.
  rewrite IH by (intros y Hy; apply HPQ; by right).
  assert (P x ↔ Q x) as Hx by (apply HPQ; by left). repeat case_decide; tauto.
Qed.

Lemma existsb_In {A} (f : A → bool) l :
  existsb f l = true ↔ ∃ x, x ∈ l ∧ f x = true.
Proof. rewrite existsb_exists. by setoid_rewrite list_elem_of_In. Qed.

Lemma forallb_In {A} (f : A → bool) l :
  forallb f l = true ↔ ∀ x, x ∈ l → f x = true.
Proof. rewrite forallb_forall. by setoid_rewrite list_elem_of_In. Qed.

(** What holds of corresponding elements may use that they are elements. *)
Lemma Forall2_elem_l {A B} (P : A → B → Prop) l k :
  Forall2 P l k → Forall2 (λ x y, x ∈ l ∧ P x y) l k.
Proof.
  induction 1 as [|x y l k Hxy _ IH]; constructor; [by split; [left|]|].
  eapply Forall2_impl; [|exact IH]. intros a b [Ha Hab]. split; [by right|done].
Qed.

(** ** Automation

    [by_law l]: run a service call by its law [l]; [step_law l] does so and
    goes on with what follows the call. *)
Ltac by_law l := eapply runs_conseq; [apply l; try tc_solve| |]; cbv beta.
Ltac step_law l := eapply runs_bind; [apply l; try tc_solve| |]; cbv beta.
Ltac step_wrap l := eapply runs_bind_wrap; [apply l; try tc_solve| |]; cbv beta.

(** [kz] collects the routine facts of the development; [go_cases] splits the
    matches and boolean tests a handler's body is made of. *)
Create HintDb kz.
Create Rewrite HintDb kz.
#[export] Hint Resolve triple_ret triple_fail : kz.

Ltac go_cases :=
  repeat (case_match || case_decide || simplify_eq/=).
