(* ===== verification/GoStd.v ===== *)
(** * The part of Go's standard library the source uses

    Byte strings are [string]; [strings.HasPrefix], [TrimPrefix], [Cut],
    [Contains], [ToLower], [Join], [sort.Strings] and the [%d] and [%q] verbs
    are executable functions with the lemmas the components share.  Case
    mapping and [%q] follow Go on ASCII, which is what the source feeds them. *)

From S2P Require Import Prelude.
From Stdlib Require Import Ascii.

Local Open Scope string_scope.
#[local] Arguments String.append : simpl nomatch.

(** ** Prefixes and suffixes *)

Fixpoint drop_prefix (p s : string) : option string :=
  match p, s with
  | EmptyString, _ => Some s
  | String c p', String d s' => if decide (c = d) then drop_prefix p' s' else None
  | String _ _, EmptyString => None
  end.

Fixpoint drop_suffix (suf s : string) : option string :=
  if decide (s = suf) then Some ""
  else match s with
       | EmptyString => None
       | String c s' => String c <$> drop_suffix suf s'
       end.

Definition has_prefix (s p : string) : bool := bool_decide (is_Some (drop_prefix p s)).
Definition has_suffix (s p : string) : bool := bool_decide (is_Some (drop_suffix p s)).
Definition trim_prefix (s p : string) : string := default s (drop_prefix p s).
Definition trim_suffix (s p : string) : string := default s (drop_suffix p s).

(** [strings.Contains] *)
Fixpoint contains (s sub : string) : bool :=
  has_prefix s sub ||
  match s with EmptyString => false | String _ s' => contains s' sub end.

(** [strings.Cut]: what is before and after the first [sep]. *)
Fixpoint cut (s sep : string) : option (string * string) :=
  match drop_prefix sep s with
  | Some r => Some ("", r)
  | None => match s with
            | EmptyString => None
            | String c s' => (λ ab : string * string, (String c ab.1, ab.2)) <$> cut s' sep
            end
  end.

Lemma string_app_assoc (a b c : string) : (a +:+ b) +:+ c = a +:+ b +:+ c.
Proof. induction a as [|x a IH]; simpl; [done|by rewrite IH]. Qed.

Lemma string_app_nil_r (a : string) : a +:+ "" = a.
Proof. induction a as [|x a IH]; simpl; [done|by rewrite IH]. Qed.

Lemma string_length_app (a b : string) :
  String.length (a +:+ b) = String.length a + String.length b.
Proof. induction a as [|x a IH]; simpl; [done|by rewrite IH]. Qed.

Lemma string_app_inj_r (a b c : string) : a +:+ c = b +:+ c → a = b.
Proof.
  intros H. assert (String.length a = String.length b) as Hl.
  { apply (f_equal String.length) in H. rewrite !string_length_app in H. lia. }
  revert b H Hl. induction a as [|x a IH]; intros [|y b] H Hl; simplify_eq/=; [done|].
  f_equal. by apply IH.
Qed.

Lemma drop_prefix_Some p s r : drop_prefix p s = Some r ↔ s = p +:+ r.
Proof.
  revert s. induction p as [|c p IH]; intros s; simpl; [naive_solver|].
  destruct s as [|d s]; [naive_solver|].
  case_decide; [rewrite IH; naive_solver|naive_solver].
Qed.

Lemma drop_suffix_Some suf s r : drop_suffix suf s = Some r ↔ s = r +:+ suf.
Proof.
  revert r. induction s as [|c s IH]; intros r.
  - simpl. case_decide as H; subst.
    + split; [naive_solver|]. intros H. destruct r; simplify_eq/=; done.
    + split; [done|]. intros Hr. destruct r; simplify_eq/=; congruence.
  - simpl. case_decide as H.
    + rewrite H. split; [naive_solver|]. intros Hr.
      by rewrite (string_app_inj_r "" r suf).
    + rewrite fmap_Some. setoid_rewrite IH. split.
      * by intros (r' & -> & ->).
      * destruct r as [|d r]; simpl; [congruence|]. intros [= -> ->]. by exists r.
Qed.

Lemma has_prefix_spec s p : has_prefix s p = true ↔ ∃ r, s = p +:+ r.
Proof.
  unfold has_prefix. rewrite bool_decide_eq_true. unfold is_Some.
  by setoid_rewrite drop_prefix_Some.
Qed.

Lemma has_suffix_spec s p : has_suffix s p = true ↔ ∃ r, s = r +:+ p.
Proof.
  unfold has_suffix. rewrite bool_decide_eq_true. unfold is_Some.
  by setoid_rewrite drop_suffix_Some.
Qed.

Lemma trim_prefix_app p r : trim_prefix (p +:+ r) p = r.
Proof.
  unfold trim_prefix. by replace (drop_prefix p (p +:+ r)) with (Some r)
    by (symmetry; by apply drop_prefix_Some).
Qed.

Lemma trim_suffix_app r p : trim_suffix (r +:+ p) p = r.
Proof.
  unfold trim_suffix. by replace (drop_suffix p (r +:+ p)) with (Some r)
    by (symmetry; by apply drop_suffix_Some).
Qed.

Lemma has_prefix_app p r : has_prefix (p +:+ r) p = true.
Proof. apply has_prefix_spec. eauto. Qed.

Lemma has_suffix_app r p : has_suffix (r +:+ p) p = true.
Proof. apply has_suffix_spec. eauto. Qed.

(** A string longer than each of a set: a new identifier. *)
Definition fresh_id (X : gset string) : string :=
  String "i" (foldr String.append "" (elements X)).

Lemma fresh_id_long X x : x ∈ X → (String.length x < String.length (fresh_id X))%nat.
Proof.
  intros Hin%elem_of_elements.
  assert (∀ (l : list string) x, x ∈ l → String.length x ≤ String.length (foldr String.append "" l))%nat as Hle.
  { induction l as [|y l IH]; intros z; [by intros ?%elem_of_nil|].
    simpl. rewrite string_length_app. intros [->|Hx%IH]%elem_of_cons; lia. }
  apply Hle in Hin. unfold fresh_id. simpl. lia.
Qed.

Lemma fresh_id_spec X : fresh_id X ∉ X.
Proof. intros Hin%fresh_id_long. lia. Qed.

(** ** Strings without a separator character *)

Fixpoint no_char (c : ascii) (s : string) : bool :=
  match s with
  | EmptyString => true
  | String d s' => negb (bool_decide (d = c)) && no_char c s'
  end.

Lemma no_char_app c a b : no_char c (a +:+ b) = no_char c a && no_char c b.
Proof. induction a as [|x a IH]; simpl; [done|]. by rewrite IH, andb_assoc. Qed.

(** Two fields joined by a character neither of them holds come apart only one
    way. *)
Lemma sep_inj c a b r1 r2 :
  no_char c a = true → no_char c b = true →
  a +:+ String c r1 = b +:+ String c r2 → a = b ∧ r1 = r2.
Proof.
  revert b. induction a as [|x a IH]; intros [|y b]; simpl; intros Ha Hb Heq.
  - by injection Heq.
  - injection Heq as -> _. by rewrite bool_decide_true in Hb.
  - injection Heq as -> _. by rewrite bool_decide_true in Ha.
  - injection Heq as -> Heq.
    apply andb_true_iff in Ha as [_ Ha]. apply andb_true_iff in Hb as [_ Hb].
    by destruct (IH b Ha Hb Heq) as [-> ->].
Qed.

Lemma cut_char_app c a b :
  no_char c a = true → cut (a +:+ String c b) (String c "") = Some (a, b).
Proof.
  induction a as [|x a IH]; intros Ha; simpl.
  - by rewrite decide_True.
  - simpl in Ha. apply andb_true_iff in Ha as [Hx Ha].
    apply negb_true_iff, bool_decide_eq_false in Hx.
    rewrite decide_False by congruence. by rewrite (IH Ha).
Qed.

Lemma cut_char_Some c s a b :
  cut s (String c "") = Some (a, b) → s = a +:+ String c b ∧ no_char c a = true.
Proof.
  revert a. induction s as [|x s IH]; intros a; simpl; [done|].
  case_decide as Hx; simplify_eq/=.
  - intros [= <- <-]. done.
  - rewrite fmap_Some. intros ([a' b'] & Hc & [= -> ->]).
    destruct (IH a' Hc) as [-> Hn]. simpl. split; [done|].
    rewrite Hn, andb_true_r. apply negb_true_iff, bool_decide_eq_false. congruence.
Qed.

Lemma cut_char_None c s : cut s (String c "") = None ↔ no_char c s = true.
Proof.
  induction s as [|x s IH]; simpl; [done|].
  case_decide as Hx; simplify_eq/=.
  - rewrite bool_decide_true by done. naive_solver.
  - rewrite fmap_None, IH, (bool_decide_false (x = c)) by congruence. done.
Qed.

(** ** Numbers *)

Lemma no_char_pretty_N_go c x s :
  (∀ y, pretty_N_char y ≠ c) → no_char c s = true → no_char c (pretty_N_go x s) = true.
Proof.
  intros Hc. revert s. induction (N.lt_wf_0 x) as [x _ IH]; intros s Hs.
  destruct (decide (0 < x)%N) as [Hx|Hx].
  - rewrite pretty_N_go_step by done. apply IH; [by apply N.div_lt|].
    simpl. rewrite Hs, andb_true_r. apply negb_true_iff, bool_decide_eq_false, Hc.
  - assert (x = 0%N) as -> by lia. done.
Qed.

(** [%d] never prints a character that is neither a digit nor a minus sign. *)
Lemma no_char_pretty_Z c (z : Z) :
  (∀ y, pretty_N_char y ≠ c) → ("-"%char ≠ c) → no_char c (pretty z) = true.
Proof.
  intros Hc Hm. pose proof (Hc 0%N) as H0. simpl in H0.
  destruct z as [|p|p]; unfold pretty, pretty_Z, pretty, pretty_positive, pretty, pretty_N; simpl.
  - rewrite bool_decide_false by done. done.
  - by apply no_char_pretty_N_go.
  - rewrite (bool_decide_false (_ = c)) by done. simpl. by apply no_char_pretty_N_go.
Qed.

Lemma pretty_bar (z : Z) : no_char "|" (pretty z) = true.
Proof. apply no_char_pretty_Z; [intros y|]; [|done]. unfold pretty_N_char. by repeat case_match. Qed.

(** [strconv.ParseInt(s, 10, bits)]: an optional sign and at least one digit,
    nothing else, and a value that fits. *)
Definition digit_val (c : ascii) : option Z :=
  let n := nat_of_ascii c in
  if (48 <=? n)%nat && (n <=? 57)%nat then Some (Z.of_nat n - 48)%Z else None.
Fixpoint parse_digits (acc : Z) (s : string) : option Z :=
  match s with
  | EmptyString => Some acc
  | String c s' => match digit_val c with
                   | Some d => parse_digits (10 * acc + d) s'
                   | None => None
                   end
  end.
Definition parse_nat (s : string) : option Z :=
  match s with EmptyString => None | _ => parse_digits 0 s end.
Definition ParseInt (bits : Z) (s : string) : option Z :=
  let v := match s with
           | String "-" s' => Z.opp <$> parse_nat s'
           | String "+" s' => parse_nat s'
           | _ => parse_nat s
           end in
  match v with
  | Some n => if decide (- 2 ^ (bits - 1) ≤ n < 2 ^ (bits - 1))%Z then Some n else None
  | None => None
  end.

Definition all_digits (s : string) : bool := bool_decide (is_Some (parse_digits 0 s)).

Lemma parse_digits_pretty_go x s acc :
  parse_digits acc (pretty_N_go x s) =
  match x with
  | 0%N => parse_digits acc s
  | _ => parse_digits (acc * 10 ^ Z.of_nat (String.length (pretty_N_go x "")) + Z.of_N x) s
  end.
Proof.
  revert s acc. induction (N.lt_wf_0 x) as [x _ IH]; intros s acc.
  destruct (decide (0 < x)%N) as [Hx|Hx]; [|by assert (x = 0%N) as -> by lia].
  rewrite !pretty_N_go_step by done.
  pose proof (N.div_lt x 10 Hx ltac:(lia)) as Hlt.
  assert (∀ d, (d < 10)%N → digit_val (pretty_N_char d) = Some (Z.of_N d)) as Hdig.
  { intros d Hd. assert (d = 0 ∨ d = 1 ∨ d = 2 ∨ d = 3 ∨ d = 4 ∨ d = 5 ∨ d = 6 ∨ d = 7 ∨
      d = 8 ∨ d = 9)%N as H by lia. by destruct_or! H; subst. }
  pose proof (N.mod_lt x 10 ltac:(lia)) as Hmod.
  pose proof (N.div_mod x 10 ltac:(lia)) as Hdm.
  assert (∀ y t, String.length (pretty_N_go y t) =
    String.length (pretty_N_go y "") + String.length t)%nat as Hlen.
  { intros y. induction (N.lt_wf_0 y) as [y _ IHy]; intros t.
    destruct (decide (0 < y)%N) as [Hy|Hy]; [|by assert (y = 0%N) as -> by lia].
    rewrite !(pretty_N_go_step y) by done.
    pose proof (N.div_lt y 10 Hy ltac:(lia)).
    rewrite (IHy _ ltac:(done) (String _ t)), (IHy _ ltac:(done) (String _ "")). simpl. lia. }
  rewrite IH by done. destruct x as [|p]; [lia|].
  rewrite (pretty_N_go_step (N.pos p)) by done. rewrite (Hlen _ (String _ "")). simpl String.length.
  destruct (N.pos p `div` 10)%N as [|q] eqn:Hq; simpl parse_digits; rewrite Hdig by done.
  - f_equal. simpl. rewrite Z.pow_1_r. lia.
  - f_equal. rewrite Nat2Z.inj_add, Z.pow_add_r by lia.
    change (Z.of_nat 1) with 1%Z. rewrite Z.pow_1_r. lia.
Qed.

Lemma parse_nat_pretty (n : N) : parse_nat (pretty n) = Some (Z.of_N n).
Proof.
  unfold pretty, pretty_N. case_decide as Hn; [by subst|].
  pose proof (parse_digits_pretty_go n "" 0) as H. simpl in H.
  assert (pretty_N_go n "" ≠ "") as Hne.
  { rewrite pretty_N_go_step by lia. intros Hc.
    assert (∀ y t, t ≠ "" → pretty_N_go y t ≠ "") as Hg; [|by eapply Hg, Hc].
    clear. intros y. induction (N.lt_wf_0 y) as [y _ IHy]; intros t Ht.
    destruct (decide (0 < y)%N) as [Hy|Hy]; [|by assert (y = 0%N) as -> by lia].
    rewrite pretty_N_go_step by done. apply IHy; [by apply N.div_lt|done]. }
  unfold parse_nat. destruct (pretty_N_go n "") eqn:He; [done|]. rewrite H.
  destruct n; [done|]. by rewrite Z.mul_0_l, Z.add_0_l.
Qed.

Lemma ParseInt_pretty bits z :
  (- 2 ^ (bits - 1) ≤ z < 2 ^ (bits - 1))%Z → ParseInt bits (pretty z) = Some z.
Proof.
  intros Hz. unfold ParseInt.
  assert (∀ (n : N), match (pretty n : string) with
           | String "-" s' => Z.opp <$> parse_nat s'
           | String "+" s' => parse_nat s'
           | _ => parse_nat (pretty n)
           end = Some (Z.of_N n)) as Hpos.
  { intros n. pose proof (parse_nat_pretty n) as H.
    destruct (pretty n : string) as [|c s]; [done|].
    assert (is_Some (digit_val c)) as [d Hd].
    { simpl in H. destruct (digit_val c); [by eexists|done]. }
    destruct c as [[] [] [] [] [] [] [] []]; try exact H; done. }
  destruct z as [|p|p].
  - change (pretty 0%Z) with ("0" : string). simpl. by rewrite decide_True.
  - change (pretty (Z.pos p)) with (pretty (N.pos p)).
    rewrite Hpos. by rewrite decide_True.
  - change (pretty (Z.neg p)) with (String "-" (pretty (N.pos p))).
    cbv beta iota. pose proof (parse_nat_pretty (N.pos p)) as H. rewrite H. simpl.
    by rewrite decide_True.
Qed.

(** ** ASCII case mapping *)

Definition ascii_lower (c : ascii) : ascii :=
  let n := nat_of_ascii c in
  if (65 <=? n)%nat && (n <=? 90)%nat then ascii_of_nat (n + 32) else c.
Definition ascii_upper (c : ascii) : ascii :=
  let n := nat_of_ascii c in
  if (97 <=? n)%nat && (n <=? 122)%nat then ascii_of_nat (n - 32) else c.

Fixpoint string_map (f : ascii → ascii) (s : string) : string :=
  match s with EmptyString => "" | String c s' => String (f c) (string_map f s') end.
Definition to_lower : string → string := string_map ascii_lower.
Definition to_upper : string → string := string_map ascii_upper.

Lemma no_char_string_map c f s :
  (∀ x, f x = c → x = c) → no_char c s = true → no_char c (string_map f s) = true.
Proof.
  intros Hf. induction s as [|x s IH]; simpl; [done|].
  rewrite !andb_true_iff, !negb_true_iff, !bool_decide_eq_false.
  intros [Hx Hs]. split; [|by apply IH]. intros H. by apply Hx, Hf.
Qed.

Lemma ascii_lower_bar x : ascii_lower x = "|"%char → x = "|"%char.
Proof. by destruct x as [[] [] [] [] [] [] [] []]; vm_compute. Qed.

Lemma no_char_to_lower s : no_char "|" s = true → no_char "|" (to_lower s) = true.
Proof. apply no_char_string_map, ascii_lower_bar. Qed.

(** ** Quoting, joining *)

Definition dquote : string := String (ascii_of_nat 34) "".

Definition hex_digit (n : nat) : ascii :=
  if (n <? 10)%nat then ascii_of_nat (48 + n) else ascii_of_nat (87 + n).

Definition quote_char (c : ascii) : string :=
  let n := nat_of_ascii c in
  if (n =? 34)%nat then "\" +:+ dquote
  else if (n =? 92)%nat then "\\"
  else if (n =? 7)%nat then "\a" else if (n =? 8)%nat then "\b"
  else if (n =? 12)%nat then "\f" else if (n =? 10)%nat then "\n"
  else if (n =? 13)%nat then "\r" else if (n =? 9)%nat then "\t"
  else if (n =? 11)%nat then "\v"
  else if (n <? 32)%nat || (n =? 127)%nat
  then "\x" +:+ String (hex_digit (n / 16)) (String (hex_digit (n mod 16)) "")
  else String c "".

Fixpoint quote_body (s : string) : string :=
  match s with EmptyString => "" | String c s' => quote_char c +:+ quote_body s' end.
(** The [%q] verb on a string. *)
Definition go_quote (s : string) : string := dquote +:+ quote_body s +:+ dquote.

Fixpoint join (sep : string) (l : list string) : string :=
  match l with
  | [] => ""
  | [x] => x
  | x :: l' => x +:+ sep +:+ join sep l'
  end.

(** ** [path.Clean] and [path.Join] *)
Fixpoint split_char (c : ascii) (s : string) : list string :=
  match s with
  | EmptyString => [""]
  | String d s' =>
      if decide (d = c) then "" :: split_char c s'
      else match split_char c s' with
           | [] => [String d ""]
           | x :: l => String d x :: l
           end
  end.

Lemma split_char_none c s : no_char c s = true → split_char c s = [s].
Proof.
  induction s as [|d s IH]; simpl; [done|]. rewrite andb_true_iff, negb_true_iff.
  intros [Hd Hs]. apply bool_decide_eq_false in Hd. rewrite decide_False by done.
  by rewrite IH.
Qed.

Lemma split_char_app c a b :
  no_char c a = true → split_char c (a +:+ String c b) = a :: split_char c b.
Proof.
  induction a as [|d a IH]; simpl; [by rewrite decide_True|].
  rewrite andb_true_iff, negb_true_iff. intros [Hd Ha]. apply bool_decide_eq_false in Hd.
  rewrite decide_False by done. by rewrite IH.
Qed.

(** The components kept so far, last first. *)
Definition clean_step (rooted : bool) (out : list string) (comp : string) : list string :=
  if decide (comp = "" ∨ comp = ".") then out
  else if decide (comp = "..") then
    match out with
    | x :: out' => if decide (x = "..") then comp :: out else out'
    | [] => if rooted then [] else [comp]
    end
  else comp :: out.

Definition path_Clean (s : string) : string :=
  let rooted := has_prefix s "/" in
  let out := join "/" (rev (fold_left (clean_step rooted) (split_char "/" s) [])) in
  if rooted then "/" +:+ out else if decide (out = "") then "." else out.

Definition path_Join (elems : list string) : string :=
  match filter (λ e, e ≠ "") elems with
  | [] => ""
  | es => path_Clean (join "/" es)
  end.

(** ** [base64.StdEncoding] *)
Definition b64_char (n : nat) : ascii :=
  if (n <? 26)%nat then ascii_of_nat (65 + n)
  else if (n <? 52)%nat then ascii_of_nat (71 + n)
  else if (n <? 62)%nat then ascii_of_nat (n - 4)
  else if (n =? 62)%nat then "+" else "/".

Fixpoint b64_encode (s : string) : string :=
  match s with
  | EmptyString => ""
  | String a EmptyString =>
      let a := nat_of_ascii a in
      String (b64_char (a / 4)) (String (b64_char (a mod 4 * 16)) "==")
  | String a (String b EmptyString) =>
      let a := nat_of_ascii a in let b := nat_of_ascii b in
      String (b64_char (a / 4)) (String (b64_char (a mod 4 * 16 + b / 16))
        (String (b64_char (b mod 16 * 4)) "="))
  | String a (String b (String c s')) =>
      let a := nat_of_ascii a in let b := nat_of_ascii b in let c := nat_of_ascii c in
      String (b64_char (a / 4)) (String (b64_char (a mod 4 * 16 + b / 16))
        (String (b64_char (b mod 16 * 4 + c / 64)) (String (b64_char (c mod 64))
          (b64_encode s'))))
  end.

(** ** [strings.TrimSpace], on ASCII *)
Definition is_space (c : ascii) : bool :=
  let n := nat_of_ascii c in
  (n =? 32)%nat || ((9 <=? n)%nat && (n <=? 13)%nat).
Fixpoint trim_left (s : string) : string :=
  match s with
  | EmptyString => ""
  | String c s' => if is_space c then trim_left s' else s
  end.
Fixpoint trim_right (s : string) : string :=
  match s with
  | EmptyString => ""
  | String c s' =>
      let t := trim_right s' in
      if decide (t = "") then if is_space c then "" else String c "" else String c t
  end.
Definition trim_space (s : string) : string := trim_right (trim_left s).

Definition lead_ok (s : string) : Prop :=
  match s with String c _ => is_space c = false | _ => True end.

Lemma trim_left_id s : lead_ok s → trim_left s = s.
Proof. destruct s; simpl; [done|]. by intros ->. Qed.
Lemma trim_left_lead s : lead_ok (trim_left s).
Proof. induction s as [|c s IH]; simpl; [done|]. by destruct (is_space c) eqn:H. Qed.
Lemma trim_right_lead s : lead_ok s → lead_ok (trim_right s).
Proof. destruct s as [|c s]; simpl; [done|]. intros H. by repeat case_decide; rewrite ?H. Qed.
Lemma trim_right_app a t : trim_right t = t → t ≠ "" → trim_right (a +:+ t) = a +:+ t.
Proof.
  intros Ht Hne. induction a as [|c a IH]; [done|].
  change (String c a +:+ t) with (String c (a +:+ t)). simpl. rewrite IH.
  case_decide as H; [|done]. by destruct a, t.
Qed.
Lemma trim_right_idemp s : trim_right (trim_right s) = trim_right s.
Proof.
  induction s as [|c s IH]; simpl; [done|].
  case_decide; [destruct (is_space c) eqn:Hc; simpl; by rewrite ?Hc|].
  simpl. rewrite IH. by rewrite decide_False.
Qed.

Lemma trim_space_idemp s : trim_space (trim_space s) = trim_space s.
Proof.
  unfold trim_space. rewrite trim_left_id by apply trim_right_lead, trim_left_lead.
  apply trim_right_idemp.
Qed.
Lemma trim_space_app s t :
  trim_space s ≠ "" → trim_right t = t → t ≠ "" →
  trim_space (trim_space s +:+ t) = trim_space s +:+ t.
Proof.
  intros Hs Ht Hne. unfold trim_space at 1. rewrite trim_left_id.
  - by apply trim_right_app.
  - pose proof (trim_right_lead _ (trim_left_lead s)) as Hl. unfold trim_space in *.
    by destruct (trim_right (trim_left s)).
Qed.

(** ** Sorting *)

Definition sort_strings (l : list string) : list string := merge_sort String.le l.

Lemma sort_strings_perm l : sort_strings l ≡ₚ l.
Proof. apply merge_sort_Permutation. Qed.

Lemma sort_strings_sorted l : StronglySorted String.le (sort_strings l).
Proof. apply StronglySorted_merge_sort; apply _. Qed.

Lemma elem_of_sort_strings x l : x ∈ sort_strings l ↔ x ∈ l.
Proof. by rewrite sort_strings_perm. Qed.

(** Sorting a permutation gives the same list: this is what lets a map be
    ranged over in any order before its keys are sorted. *)
Lemma sort_strings_unique l1 l2 :
  l1 ≡ₚ l2 → sort_strings l1 = sort_strings l2.
Proof.
  intros H. apply (StronglySorted_unique String.le);
    [apply sort_strings_sorted..|]. by rewrite !sort_strings_perm.
Qed.

#[export] Instance sort_strings_proper : Proper ((≡ₚ) ==> (=)) sort_strings.
Proof. intros l1 l2 H. by apply sort_strings_unique. Qed.

Lemma sort_strings_idemp l : sort_strings (sort_strings l) = sort_strings l.
Proof. by rewrite (sort_strings_unique _ l) by apply sort_strings_perm. Qed.

Lemma length_sort_strings l : length (sort_strings l) = length l.
Proof. by rewrite sort_strings_perm. Qed.

#[export] Hint Rewrite elem_of_sort_strings sort_strings_idemp
  length_sort_strings trim_prefix_app trim_suffix_app has_prefix_app
  has_suffix_app : kz.
#[export] Hint Resolve pretty_bar no_char_to_lower : kz.
