(* ===== verification/GoNet.v ===== *)
(** * The part of Go's net and net/netip the source uses

    [net.ParseCIDR], of which the source uses whether it succeeds: the address
    and the mask are kept, the network is not computed. *)

From S2P Require Import Prelude GoStd.
From Stdlib Require Import Ascii.

Local Open Scope string_scope.
Local Open Scope list_scope.

(** ** netip.ParseAddr *)

(** A decimal field of an IPv4 address: no leading zero, at most 255. *)
Definition ipv4_field (s : string) : bool :=
  match s with
  | "" => false
  | String c rest =>
      match parse_nat s with
      | Some v => bool_decide (v ≤ 255)%Z && (bool_decide (rest = "") || negb (bool_decide (c = "0"%char)))
      | None => false
      end
  end.
Definition parseIPv4 (s : string) : bool :=
  let fields := split_char "."%char s in
  bool_decide (length fields = 4%nat) && forallb ipv4_field fields.

Definition hex_val (c : ascii) : bool :=
  let n := nat_of_ascii c in
  ((48 <=? n) && (n <=? 57) || (97 <=? n) && (n <=? 102) || (65 <=? n) && (n <=? 70))%nat.
(** The leading hex digits of a string, and what follows them. *)
Fixpoint hex_run (s : string) : nat * string :=
  match s with
  | String c s' => if hex_val c then let '(n, r) := hex_run s' in (S n, r) else (0%nat, s)
  | EmptyString => (0%nat, "")
  end.

(** The loop over 16-bit groups: [i] bytes are filled, [ellipsis] says whether
    "::" was seen.  The result is the bytes filled and whether it was seen. *)
Fixpoint ipv6_groups (fuel : nat) (i : Z) (ellipsis : bool) (s : string) : option (Z * bool) :=
  match fuel with
  | O => if decide (s = "") then Some (i, ellipsis) else None
  | S fuel =>
      let '(off, rest) := hex_run s in
      if decide (off = 0 ∨ 4 < off)%nat then None
      else match rest with
      | String "." _ =>
          if decide ((ellipsis = false ∧ i ≠ 12%Z) ∨ (16 < i + 4)%Z) then None
          else if parseIPv4 s then Some ((i + 4)%Z, ellipsis) else None
      | EmptyString => Some ((i + 2)%Z, ellipsis)
      | String ":" s1 =>
          match s1 with
          | EmptyString => None
          | String ":" s2 =>
              if ellipsis then None
              else if decide (s2 = "") then Some ((i + 2)%Z, true)
              else ipv6_groups fuel (i + 2) true s2
          | _ => ipv6_groups fuel (i + 2) ellipsis s1
          end
      | _ => None
      end
  end.
Definition parseIPv6 (s : string) : bool :=
  let '(ellipsis, s) := match drop_prefix "::" s with Some r => (true, r) | None => (false, s) end in
  if ellipsis && bool_decide (s = "") then true
  else match ipv6_groups 8 0 ellipsis s with
  | Some (i, seen) => if decide (i < 16)%Z then seen else negb seen
  | None => false
  end.

(** The bits of an address, [None] where it is none.  The first of '.', ':' and
    '%' decides what it is read as; one with a zone is refused by the caller. *)
Fixpoint address_kind (s : string) : option ascii :=
  match s with
  | EmptyString => None
  | String c s' => if bool_decide (c = "."%char) || bool_decide (c = ":"%char) || bool_decide (c = "%"%char)
                   then Some c else address_kind s'
  end.
Definition address_bits (s : string) : option Z :=
  match address_kind s with
  | Some "."%char => if parseIPv4 s then Some 32%Z else None
  | Some ":"%char => if parseIPv6 s then Some 128%Z else None
  | _ => None
  end.

(** ** net.ParseCIDR *)
Definition ParseCIDR (s : string) : option (string * Z) :=
  match cut s "/" with
  | None => None
  | Some (addr, mask) =>
      match address_bits addr, parse_nat mask with
      | Some bits, Some n => if decide (n ≤ bits)%Z then Some (addr, n) else None
      | _, _ => None
      end
  end.

Example ParseCIDR_v4 : ParseCIDR "192.168.0.0/16" = Some ("192.168.0.0", 16%Z).
Proof. reflexivity. Qed.
Example ParseCIDR_v6 : ParseCIDR "2001:db8::/32" = Some ("2001:db8::", 32%Z).
Proof. reflexivity. Qed.
Example ParseCIDR_refused :
  map ParseCIDR ["10.0.0.0"; "10.0.0/8"; "10.0.0.0/33"; "010.0.0.0/8"; "::1::/64"; "1:2:3:4:5:6:7:8:9/64"; "fe80::1%eth0/64"]
  = [None; None; None; None; None; None; None].
Proof. reflexivity. Qed.

(** ** net.SplitHostPort

    The port starts after the last colon; a host in brackets may hold colons,
    and no bracket may stand anywhere else. *)
Fixpoint cut_last (c : ascii) (s : string) : option (string * string) :=
  match s with
  | "" => None
  | String x s' =>
      match cut_last c s' with
      | Some (a, b) => Some (String x a, b)
      | None => if decide (x = c) then Some ("", s') else None
      end
  end.

Definition SplitHostPort (hostport : string) : option (string * string) :=
  match hostport with
  | String "["%char rest =>
      match cut rest "]" with
      | Some (host, String ":"%char port) =>
          if no_char ":"%char port && no_char "["%char host && no_char "["%char port && no_char "]"%char port
          then Some (host, port) else None
      | _ => None
      end
  | _ =>
      match cut_last ":"%char hostport with
      | Some (host, port) =>
          if no_char ":"%char host && no_char "["%char hostport && no_char "]"%char hostport
          then Some (host, port) else None
      | None => None
      end
  end.

Lemma cut_last_none c b : no_char c b = true → cut_last c b = None.
Proof.
  induction b as [|y b IH]; [done|]. intros Hb. simpl in Hb. apply andb_true_iff in Hb as [Hy Hb].
  cbn [cut_last]. rewrite IH by done. rewrite decide_False; [done|]. intros ->.
  by rewrite bool_decide_eq_true_2 in Hy.
Qed.
Lemma cut_last_app c a b : no_char c b = true → cut_last c (a +:+ String c b) = Some (a, b).
Proof.
  intros Hb. induction a as [|x a IH].
  - change (cut_last c (String c b) = Some ("", b)). cbn [cut_last]. by rewrite cut_last_none, decide_True.
  - change (cut_last c (String x (a +:+ String c b)) = Some (String x a, b)). cbn [cut_last]. by rewrite IH.
Qed.

Example SplitHostPort_ok :
  map SplitHostPort [":10250"; "[::1]:80"; "host:443"; "::1"; "host"; "[::1]"; "[::1]:1:2"; "a[b:1"]
  = [Some ("", "10250"); Some ("::1", "80"); Some ("host", "443"); None; None; None; None; None].
Proof. reflexivity. Qed.
