(* ===== verification/K8s.v ===== *)
(** * The Kubernetes objects the source reads

    The API types are not under src/: only the fields the source reads or
    writes appear here, under the API's own names, each pointer as an option.
    What the apimachinery library computes from them -- parsing a label
    selector, matching it, printing it -- is the class [LabelsAPI]; the source
    only calls it. *)

From S2P Require Import Prelude GoStd.
From Stdlib Require Import Ascii.

(** ** Times

    [time.Time] in nanoseconds; [None] is the zero time, which sorts before
    every other. *)
Abbreviation Time := (option Z).

Definition after (a b : Time) : bool :=
  match a, b with
  | Some x, Some y => (y <? x)%Z
  | Some _, None => true
  | None, _ => false
  end.

Definition second : Z := 1000000000.
Definition minute : Z := 60 * second.

(** ** Work queues (k8s.io/client-go): a key taken apart, and what a worker says
    of it when it is done with it *)
Definition SplitMetaNamespaceKey (key : string) : option (string * string) :=
  match split_char "/"%char key with
  | [name] => Some ("", name)
  | [namespace; name] => Some (namespace, name)
  | _ => None
  end.
Inductive Verdict : Type := Forgotten | Requeued.

(** ** Label selectors (k8s.io/apimachinery) *)
Class LabelsAPI := {
  LabelSelector : Type;
  Selector : Type;
  LabelSelectorAsSelector : LabelSelector → result Selector;
  Matches : Selector → gmap string string → bool;
  SelectorString : Selector → string;
  Everything : Selector;
}.

(** Documented: [labels.Everything] matches all labels. *)
Class LabelsLaws (L : LabelsAPI) := {
  Everything_matches m : Matches Everything m = true;
}.

(** A concrete selector to evaluate the definitions on: requirements that a
    label has a value, or only that it exists, printed the way the library
    documents ([k=v] and [k]); [None] stands for a selector it refuses. *)
Definition eq_matches (sel : list (string * option string)) (m : gmap string string) : bool :=
  forallb (λ kv : string * option string,
    match kv.2 with
    | Some v => bool_decide (m !! kv.1 = Some v)
    | None => bool_decide (is_Some (m !! kv.1))
    end) sel.

Definition eq_string (sel : list (string * option string)) : string :=
  join "," (map (λ kv : string * option string,
    match kv.2 with Some v => kv.1 +:+ "=" +:+ v | None => kv.1 end) sel).

Definition EqLabels : LabelsAPI := {|
  LabelSelector := option (list (string * option string));
  Selector := list (string * option string);
  LabelSelectorAsSelector o :=
    match o with Some l => Ok l | None => Err (ErrMsg "invalid selector") end;
  Matches := eq_matches;
  SelectorString := eq_string;
  Everything := [];
|}.

Lemma EqLabels_laws : LabelsLaws EqLabels.
Proof. by constructor. Qed.

(** Documented of a selector's canonical string, and of what validation lets
    into one: label keys and values hold no semicolon. *)
Class SelectorStringLaws (L : LabelsAPI) := {
  SelectorString_canonical s1 s2 :
    SelectorString s1 = SelectorString s2 → ∀ m, Matches s1 m = Matches s2 m;
  SelectorString_plain l s :
    LabelSelectorAsSelector l = Ok s → no_char ";"%char (SelectorString s) = true;
}.

(** A smaller concrete instance, for which both classes of laws hold: the
    selector that asks for one label key, the empty key asking for nothing. *)
Definition ExistsLabels : LabelsAPI := {|
  LabelSelector := string;
  Selector := string;
  LabelSelectorAsSelector s :=
    if no_char ";"%char s then Ok s else Err (ErrMsg "invalid label key");
  Matches s m := bool_decide (s = "") || bool_decide (is_Some (m !! s));
  SelectorString s := s;
  Everything := "";
|}.

Lemma ExistsLabels_laws : LabelsLaws ExistsLabels.
Proof. by constructor. Qed.

Lemma ExistsLabels_string_laws : SelectorStringLaws ExistsLabels.
Proof.
  constructor; simpl; [by intros s1 s2 -> m|].
  intros l s. destruct (no_char _ l) eqn:H; [by intros [= <-]|done].
Qed.

(** ** Shared field types *)

Definition TypeInt : Z := 0.
Definition TypeString : Z := 1.
Record IntOrString := mkIntOrString {
  Type_ : Z; IntVal : Z; StrVal : string }.

Definition ProtocolTCP : string := "TCP".
Definition ProtocolUDP : string := "UDP".
Definition ProtocolSCTP : string := "SCTP".

(** ** Probes *)
Record HTTPGetAction := mkHTTPGet {
  hg_Path : string; hg_Port : IntOrString; hg_Host : string; hg_Scheme : string;
  hg_HTTPHeaders : list (string * string) }.
Record TCPSocketAction := mkTCPSocket { ts_Port : IntOrString; ts_Host : string }.
Record GRPCAction := mkGRPC { gr_Port : Z; gr_Service : option string }.

Record Probe := mkProbe {
  p_Exec : option (list string);
  p_HTTPGet : option HTTPGetAction;
  p_TCPSocket : option TCPSocketAction;
  p_GRPC : option GRPCAction;
  p_InitialDelaySeconds : Z;
  p_TimeoutSeconds : Z;
  p_PeriodSeconds : Z;
  p_SuccessThreshold : Z;
  p_FailureThreshold : Z }.

(** ** Containers *)
Record SecurityContext := mkSecurityContext {
  sc_Privileged : option bool;
  sc_RunAsUser : option Z;
  sc_RunAsGroup : option Z;
  sc_RunAsNonRoot : option bool;
  sc_ReadOnlyRootFilesystem : option bool;
  sc_AllowPrivilegeEscalation : option bool;
  sc_Capabilities : option (list string * list string);
  sc_SeccompProfile : option string }.

Record PodSecurityContext := mkPodSecurityContext {
  ps_RunAsUser : option Z;
  ps_RunAsGroup : option Z;
  ps_RunAsNonRoot : option bool;
  ps_FSGroup : option Z;
  ps_SeccompProfile : option string }.

Record ContainerPort := mkContainerPort {
  cp_Name : string; cp_ContainerPort : Z; cp_Protocol : string }.
Record EnvVar := mkEnvVar {
  ev_Name : string; ev_Value : string; ev_ValueFrom : option () }.
Record VolumeMount := mkVolumeMount {
  vm_Name : string; vm_MountPath : string; vm_SubPath : string; vm_SubPathExpr : string }.

(** A resource list by name; CPU in millicores, memory in bytes. *)
Record ResourceRequirements := mkResources {
  rr_Limits : gmap string Z; rr_Requests : gmap string Z }.

Record Container := mkContainer {
  c_Name : string;
  c_Image : string;
  c_Command : list string;
  c_Args : list string;
  c_WorkingDir : string;
  c_Env : list EnvVar;
  c_Ports : list ContainerPort;
  c_Resources : ResourceRequirements;
  c_VolumeMounts : list VolumeMount;
  c_LivenessProbe : option Probe;
  c_ReadinessProbe : option Probe;
  c_StartupProbe : option Probe;
  c_SecurityContext : option SecurityContext }.

(** ** Volumes *)
Record EmptyDir := mkEmptyDir { ed_Medium : string; ed_SizeLimit : option Z }.
(** The ConfigMap or Secret behind a volume: its name, whether it may be
    missing, and the keys chosen with the paths they get. *)
Record ObjectSource := mkSource {
  os_Name : string; os_Optional : option bool; os_Items : list (string * string) }.
Record Volume := mkVolume {
  v_Name : string;
  v_HostPath : option string;
  v_ConfigMap : option ObjectSource;
  v_Secret : option ObjectSource;
  v_EmptyDir : option EmptyDir;
  v_PersistentVolumeClaim : option string;
  v_Projected : option () }.

(** ** Pods *)
Record PodDNSConfig := mkPodDNSConfig {
  dc_Searches : list string; dc_Nameservers : list string }.
Record OwnerReference := mkOwner { or_UID : string; or_Controller : option bool }.

Record PodSpec := mkPodSpec {
  HostNetwork : bool;
  HostPID : bool;
  HostIPC : bool;
  NodeName : string;
  SchedulerName : string;
  RestartPolicy : string;
  RuntimeClassName : option string;
  AutomountServiceAccountToken : option bool;
  PodSecurity : option PodSecurityContext;
  DNSPolicy : string;
  DNSConfig : option PodDNSConfig;
  Volumes : list Volume;
  ServiceAccountName : string;
  InitContainers : list Container;
  Containers : list Container }.

(** At most one member of a [ContainerState] is set; [CSNone] is none. *)
Inductive ContainerState : Type :=
  | CSNone
  | CSWaiting (reason message : string)
  | CSRunning (startedAt : Time)
  | CSTerminated (exitCode : Z) (reason message : string) (startedAt finishedAt : Time).

Record ContainerStatus := mkContainerStatus {
  cs_Name : string;
  cs_Image : string;
  cs_State : ContainerState;
  cs_Ready : bool;
  cs_RestartCount : Z;
  cs_ContainerID : string }.

Record PodCondition := mkCondition {
  pc_Type : string; pc_Status : string; pc_Reason : string; pc_LastTransition : Time }.

Record PodStatus := mkPodStatus {
  Phase : string;
  Reason : string;
  PodIP : string;
  HostIP : string;
  StartTime : option Time;
  Conditions : list PodCondition;
  ContainerStatuses : list ContainerStatus }.

Record Pod := mkPod {
  Namespace : string;
  Name : string;
  UID : string;
  Labels : gmap string string;
  Owners : list OwnerReference;
  DeletionTimestamp : option Time;
  Spec : PodSpec;
  Status : PodStatus }.

#[export] Instance ContainerState_eq_dec : EqDecision ContainerState.
Proof. solve_decision. Defined.
#[export] Instance ContainerStatus_eq_dec : EqDecision ContainerStatus.
Proof. solve_decision. Defined.
#[export] Instance PodCondition_eq_dec : EqDecision PodCondition.
Proof. solve_decision. Defined.
#[export] Instance PodStatus_eq_dec : EqDecision PodStatus.
Proof. solve_decision. Defined.

Definition PodPending : string := "Pending".
Definition PodRunning : string := "Running".
Definition PodSucceeded : string := "Succeeded".
Definition PodFailed : string := "Failed".
Definition PodUnknown : string := "Unknown".

(** [pod.DeepCopy()] followed by writes to its status. *)
Definition with_status (p : Pod) (s : PodStatus) : Pod :=
  mkPod (Namespace p) (Name p) (UID p) (Labels p) (Owners p)
    (DeletionTimestamp p) (Spec p) s.

(** ** Empty objects, to build examples from *)
Definition no_resources : ResourceRequirements := mkResources ∅ ∅.
Definition empty_container (name : string) : Container :=
  mkContainer name "" [] [] "" [] [] no_resources [] None None None None.
Definition empty_spec : PodSpec :=
  mkPodSpec false false false "" "default-scheduler" "" None None None "" None [] "" [] [].
Definition empty_status : PodStatus := mkPodStatus "" "" "" "" None [] [].
Definition empty_pod (ns name uid : string) : Pod :=
  mkPod ns name uid ∅ [] None empty_spec empty_status.
