(* ===== verification/NetpolTranslate.v ===== *)
(** * pkg/netpol/translate.go: a NetworkPolicy reduced to what Neutron carries

    [Translate] and its helpers as the source has them, then the Kubernetes
    meaning of a policy rule and of a translated rule, and the theorems that
    the second is never wider than the first, and equal to it when nothing was
    refused. *)

From S2P Require Import Prelude GoStd K8s.

Local Open Scope string_scope.
Local Open Scope list_scope.

(** ** The NetworkPolicy object *)
Section policy_types.
Context {L : LabelsAPI}.

Record IPBlock := mkIPBlock { ib_CIDR : string; ib_Except : list string }.
Record NetworkPolicyPeer := mkNPPeer {
  np_PodSelector : option LabelSelector;
  np_NamespaceSelector : option LabelSelector;
  np_IPBlock : option IPBlock }.
Record NetworkPolicyPort := mkNPPort {
  np_Protocol : option string;
  np_Port : option IntOrString;
  np_EndPort : option Z }.
(** An ingress rule's [From] and an egress rule's [To] have one shape. *)
Record NetworkPolicyRule := mkNPRule {
  nr_Peers : list NetworkPolicyPeer;
  nr_Ports : list NetworkPolicyPort }.
Record NetworkPolicy := mkNetworkPolicy {
  pol_Namespace : string;
  pol_Name : string;
  pol_PodSelector : LabelSelector;
  pol_PolicyTypes : list string;
  pol_Ingress : list NetworkPolicyRule;
  pol_Egress : list NetworkPolicyRule }.
End policy_types.

Definition PolicyTypeIngress : string := "Ingress".
Definition PolicyTypeEgress : string := "Egress".

(** ** What a policy is reduced to *)
Inductive Direction := Ingress | Egress.
#[export] Instance Direction_eq_dec : EqDecision Direction.
Proof. solve_decision. Defined.
#[export] Instance Direction_countable : Countable Direction.
Proof.
  refine (inj_countable' (λ d, match d with Ingress => true | Egress => false end)
    (λ b : bool, if b then Ingress else Egress) _).
  by intros [].
Defined.

(** The constant's string value. *)
Definition dir_string (d : Direction) : string :=
  match d with Ingress => "ingress" | Egress => "egress" end.

Section translate.
Context {L : LabelsAPI}.

(** [Namespaces] and [Pods] are interfaces in Go: [None] is nil. *)
Record PeerSelector := mkPeerSelector {
  sel_Namespace : string;
  sel_Namespaces : option Selector;
  sel_Pods : option Selector }.
Definition zero_PeerSelector : PeerSelector := mkPeerSelector "" None None.

Record Peer := mkPeer {
  peer_CIDR : string; peer_SelectorKey : string; peer_Selector : PeerSelector }.
Record Port := mkPort { port_Protocol : string; port_Min : Z; port_Max : Z }.
Record Rule := mkRule {
  rule_Direction : Direction; rule_Peers : list Peer; rule_Ports : list Port }.
Record Refusal := mkRefusal { ref_Field : string; ref_Reason : string }.
Record Translated := mkTranslated {
  Isolates : gmap Direction bool;
  Subject : Selector;
  Rules : list Rule;
  Refused : list Refusal }.

(** *** [SelectorKey] and [resolvePeer] *)
Definition SelectorKey (policyNamespace : string)
    (nsSel podSel : option LabelSelector) : result string :=
  scope ← match nsSel with
          | None => Ok ("ns=" +:+ policyNamespace)
          | Some s =>
              match LabelSelectorAsSelector s with
              | Ok s => Ok ("nsSelector=" +:+ SelectorString s)
              | Err e => Err (ErrWrap "namespace selector" e)
              end
          end;
  pods ← match podSel with
         | None => Ok "all"
         | Some s =>
             match LabelSelectorAsSelector s with
             | Ok s => Ok (SelectorString s)
             | Err e => Err (ErrWrap "pod selector" e)
             end
         end;
  mret (scope +:+ ";pods=" +:+ pods).

Definition resolvePeer (policyNamespace : string)
    (nsSel podSel : option LabelSelector) : result PeerSelector :=
  pods ← match podSel with
         | None => Ok Everything
         | Some s => LabelSelectorAsSelector s
         end;
  match nsSel with
  | None => mret (mkPeerSelector policyNamespace None (Some pods))
  | Some s => s ← LabelSelectorAsSelector s; mret (mkPeerSelector "" (Some s) (Some pods))
  end.

(** *** [translateRule] *)
Definition peerField (dir : Direction) : string :=
  match dir with Ingress => "from" | Egress => "to" end.

(** The body of the loop over peers: what one peer is appended as. *)
Definition translatePeer (ns : string) (dir : Direction) (where_ : string)
    (i : nat) (peer : NetworkPolicyPeer) : Refusal + Peer :=
  let at_ := where_ +:+ "." +:+ peerField dir +:+ "[" +:+ pretty i +:+ "]" in
  match np_IPBlock peer with
  | Some b =>
      if negb (bool_decide (ib_Except b = [])) then
        inl (mkRefusal (at_ +:+ ".ipBlock.except")
          ("this platform cannot express an exception inside " +:+
           "an allowed range yet, so the whole range stays denied " +:+
           "rather than allowing the addresses you excluded"))
      else inr (mkPeer (ib_CIDR b) "" zero_PeerSelector)
  | None =>
      match np_PodSelector peer, np_NamespaceSelector peer with
      | None, None => inl (mkRefusal at_ "a peer with nothing in it selects nothing")
      | podSel, nsSel =>
          match SelectorKey ns nsSel podSel with
          | Err e => inl (mkRefusal at_ (error_string e))
          | Ok key =>
              match resolvePeer ns nsSel podSel with
              | Err e => inl (mkRefusal at_ (error_string e))
              | Ok sel => inr (mkPeer "" key sel)
              end
          end
      end
  end.

(** The body of the loop over ports. *)
Definition translatePort (where_ : string) (i : nat) (p : NetworkPolicyPort)
    : Refusal + Port :=
  let at_ := where_ +:+ ".ports[" +:+ pretty i +:+ "]" in
  let named := match np_Port p with
               | Some q => if decide (Type_ q = TypeInt) then None else Some (StrVal q)
               | None => None
               end in
  match named with
  | Some name =>
      inl (mkRefusal (at_ +:+ ".port")
        ("named port " +:+ go_quote name +:+ " is not supported yet; give " +:+
         "the number instead"))
  | None =>
      let proto := opt_or ProtocolTCP (np_Protocol p) in
      if decide (proto = ProtocolSCTP) then
        inl (mkRefusal (at_ +:+ ".protocol") "SCTP is not supported by this platform")
      else
        let '(mn, mx) := match np_Port p with
                         | Some q => (IntVal q, IntVal q)
                         | None => (0, 0)%Z
                         end in
        inr (mkPort proto mn (opt_or mx (np_EndPort p)))
  end.

Definition lefts {A B} (l : list (A + B)) : list A :=
  omap (λ x, match x with inl a => Some a | inr _ => None end) l.
Definition rights {A B} (l : list (A + B)) : list B :=
  omap (λ x, match x with inl _ => None | inr b => Some b end) l.

Definition translateRule (ns : string) (dir : Direction) (index : nat)
    (peers : list NetworkPolicyPeer) (ports : list NetworkPolicyPort)
    : option Rule * list Refusal :=
  let where_ := "spec." +:+ dir_string dir +:+ "[" +:+ pretty index +:+ "]" in
  let tpeers := imap (translatePeer ns dir where_) peers in
  let tports := imap (translatePort where_) ports in
  let rule_peers :=
    (if decide (peers = []) then
       [mkPeer "0.0.0.0/0" "" zero_PeerSelector; mkPeer "::/0" "" zero_PeerSelector]
     else []) ++ rights tpeers in
  let rule_ports := rights tports in
  let refused := lefts tpeers ++ lefts tports in
  if decide (rule_peers = []) then (None, refused)
  else if decide (ports ≠ [] ∧ rule_ports = []) then (None, refused)
  else (Some (mkRule dir rule_peers rule_ports), refused).

(** *** [Translate] *)
Definition policyTypes (p : NetworkPolicy) : list string :=
  match pol_PolicyTypes p with
  | [] => PolicyTypeIngress ::
            (if decide (pol_Egress p = []) then [] else [PolicyTypeEgress])
  | types => types
  end.

Definition isolate (m : gmap Direction bool) (t : string) : gmap Direction bool :=
  if decide (t = PolicyTypeIngress) then <[Ingress := true]> m
  else if decide (t = PolicyTypeEgress) then <[Egress := true]> m
  else m.

Definition translateRules (ns : string) (dir : Direction)
    (rules : list NetworkPolicyRule) : list (option Rule * list Refusal) :=
  imap (λ i r, translateRule ns dir i (nr_Peers r) (nr_Ports r)) rules.

Definition Translate (p : NetworkPolicy) : result Translated :=
  match LabelSelectorAsSelector (pol_PodSelector p) with
  | Err e =>
      Err (ErrWrap ("the pod selector of " +:+ pol_Namespace p +:+ "/" +:+ pol_Name p) e)
  | Ok subject =>
      let out := translateRules (pol_Namespace p) Ingress (pol_Ingress p)
                 ++ translateRules (pol_Namespace p) Egress (pol_Egress p) in
      Ok (mkTranslated (fold_left isolate (policyTypes p) ∅) subject
            (omap fst out) (concat (map snd out)))
  end.

(** [t.Isolates[dir]]: a missing key reads false. *)
Definition isolates (t : Translated) (d : Direction) : bool :=
  opt_or false (Isolates t !! d).

(** *** [IsolationOf]

    The inner [range t.Isolates] visits a map, but each direction is its own
    list, so the order of the visit cannot be seen. *)
Definition IsolationOf_step (pod : Pod) (by_ : gmap Direction (list string))
    (p : NetworkPolicy) : result (gmap Direction (list string)) :=
  if decide (pol_Namespace p ≠ Namespace pod) then Ok by_
  else t ← Translate p;
       if negb (Matches (Subject t) (Labels pod)) then Ok by_
       else Ok (fold_left (λ m d,
                  if isolates t d then <[d := opt_or [] (m !! d) ++ [pol_Name p]]> m else m)
                [Ingress; Egress] by_).

Definition IsolationOf (pod : Pod) (policies : list NetworkPolicy)
    : result (gmap Direction (list string)) :=
  match fold_result (IsolationOf_step pod) ∅ policies with
  | Ok by_ => Ok (sort_strings <$> by_)
  | Err e => Err e
  end.

Definition Refusal_String (r : Refusal) : string := ref_Field r +:+ ": " +:+ ref_Reason r.
Definition RefusalMessage (refused : list Refusal) : string :=
  join "; " (map Refusal_String refused).
End translate.

(** ** What a rule means

    [cidr_contains] is address containment, [ns_labels] the labels of a
    namespace and [named_port] how a target pod resolves a port name.  The
    [k8s_*] predicates are the Kubernetes meaning of the object a tenant
    writes; the [*_allows] predicates read a translated rule the way the
    reconciler resolves it. *)
Record Traffic := mkTraffic {
  t_addr : string;
  t_pod : option (string * gmap string string);
  t_proto : string;
  t_port : Z }.

Section semantics.
Context {L : LabelsAPI}.
Variable cidr_contains : string → string → bool.
Variable ns_labels : string → gmap string string.
Variable named_port : string → Z → bool.

Definition k8s_selected (s : LabelSelector) (m : gmap string string) : bool :=
  match LabelSelectorAsSelector s with Ok s => Matches s m | Err _ => false end.

Definition k8s_peer (ns : string) (p : NetworkPolicyPeer) (t : Traffic) : bool :=
  match np_IPBlock p with
  | Some b =>
      cidr_contains (ib_CIDR b) (t_addr t)
      && negb (existsb (λ c, cidr_contains c (t_addr t)) (ib_Except b))
  | None =>
      match np_PodSelector p, np_NamespaceSelector p, t_pod t with
      | None, None, _ | _, _, None => false
      | podSel, nsSel, Some (pns, plabels) =>
          match nsSel with
          | None => bool_decide (pns = ns)
          | Some s => k8s_selected s (ns_labels pns)
          end
          && match podSel with None => true | Some s => k8s_selected s plabels end
      end
  end.

Definition k8s_port (p : NetworkPolicyPort) (t : Traffic) : bool :=
  bool_decide (opt_or ProtocolTCP (np_Protocol p) = t_proto t) &&
  match np_Port p with
  | None => true
  | Some q =>
      if decide (Type_ q = TypeInt)
      then bool_decide (IntVal q ≤ t_port t ≤ opt_or (IntVal q) (np_EndPort p))%Z
      else named_port (StrVal q) (t_port t)
  end.

Definition k8s_rule (ns : string) (r : NetworkPolicyRule) (t : Traffic) : bool :=
  (bool_decide (nr_Peers r = []) || existsb (λ p, k8s_peer ns p t) (nr_Peers r))
  && (bool_decide (nr_Ports r = []) || existsb (λ p, k8s_port p t) (nr_Ports r)).

Definition sel_allows (s : PeerSelector) (t : Traffic) : bool :=
  match t_pod t with
  | None => false
  | Some (pns, plabels) =>
      (if decide (sel_Namespace s = "") then
         match sel_Namespaces s with None => true | Some x => Matches x (ns_labels pns) end
       else bool_decide (pns = sel_Namespace s))
      && match sel_Pods s with None => false | Some x => Matches x plabels end
  end.

Definition peer_allows (p : Peer) (t : Traffic) : bool :=
  if decide (peer_CIDR p = "") then sel_allows (peer_Selector p) t
  else cidr_contains (peer_CIDR p) (t_addr t).

Definition port_allows (p : Port) (t : Traffic) : bool :=
  bool_decide (port_Protocol p = t_proto t) &&
  (bool_decide (port_Min p = 0%Z ∧ port_Max p = 0%Z)
   || bool_decide (port_Min p ≤ t_port t ≤ port_Max p)%Z).

Definition rule_allows (r : Rule) (t : Traffic) : bool :=
  existsb (λ p, peer_allows p t) (rule_Peers r)
  && (bool_decide (rule_Ports r = []) || existsb (λ p, port_allows p t) (rule_Ports r)).

(** What the API server has already checked of a rule it stores. *)
Definition valid_peer (p : NetworkPolicyPeer) : Prop :=
  match np_IPBlock p with Some b => ib_CIDR b ≠ "" | None => True end.
Definition valid_port (p : NetworkPolicyPort) : Prop :=
  match np_Port p with
  | Some q => Type_ q = TypeInt → (1 ≤ IntVal q)%Z
  | None => np_EndPort p = None
  end.
Definition valid_rule (r : NetworkPolicyRule) : Prop :=
  Forall valid_peer (nr_Peers r) ∧ Forall valid_port (nr_Ports r).
End semantics.

(** ** Lemmas *)
Section lists_of_sums.
Context {A B C : Type}.

Lemma elem_of_rights (f : nat → C → A + B) l b :
  b ∈ rights (imap f l) ↔ ∃ i x, l !! i = Some x ∧ f i x = inr b.
Proof.
  unfold rights. rewrite list_elem_of_omap. split.
  - intros (s & Hs & Hb). apply elem_of_lookup_imap in Hs as (i & x & -> & Hl).
    exists i, x. destruct (f i x); naive_solver.
  - intros (i & x & Hl & Hf). exists (inr b). split; [|done].
    apply elem_of_lookup_imap. eauto.
Qed.

Lemma elem_of_lefts (f : nat → C → A + B) l a :
  a ∈ lefts (imap f l) ↔ ∃ i x, l !! i = Some x ∧ f i x = inl a.
Proof.
  unfold lefts. rewrite list_elem_of_omap. split.
  - intros (s & Hs & Hb). apply elem_of_lookup_imap in Hs as (i & x & -> & Hl).
    exists i, x. destruct (f i x); naive_solver.
  - intros (i & x & Hl & Hf). exists (inl a). split; [|done].
    apply elem_of_lookup_imap. eauto.
Qed.

Lemma lefts_nil_inv (f : nat → C → A + B) l i x :
  lefts (imap f l) = [] → l !! i = Some x → ∃ b, f i x = inr b.
Proof.
  intros Hn Hl. destruct (f i x) as [a|b] eqn:Hf; [|eauto].
  assert (a ∈ lefts (imap f l)) as Ha by (apply elem_of_lefts; eauto).
  rewrite Hn in Ha. by apply elem_of_nil in Ha.
Qed.

(** When each kept element allows what its source allows, what the kept
    ones allow together is allowed by the sources, and equal to it when
    nothing was left out. *)
Lemma existsb_rights_sound (f : nat → C → A + B) (P : C → Prop)
    (g : B → bool) (h : C → bool) l :
  Forall P l →
  (∀ i x b, P x → f i x = inr b → g b = h x) →
  existsb g (rights (imap f l)) = true → existsb h l = true.
Proof.
  intros HP Hgh. rewrite !existsb_In. intros (b & Hb & Hg).
  apply elem_of_rights in Hb as (i & x & Hl & Hf). exists x.
  assert (x ∈ l) by (apply list_elem_of_lookup; eauto).
  split; [done|]. rewrite Forall_forall in HP. by rewrite <-(Hgh i x b); auto.
Qed.

Lemma existsb_rights_exact (f : nat → C → A + B) (P : C → Prop)
    (g : B → bool) (h : C → bool) l :
  Forall P l →
  (∀ i x b, P x → f i x = inr b → g b = h x) →
  lefts (imap f l) = [] →
  existsb g (rights (imap f l)) = existsb h l.
Proof.
  intros HP Hgh Hn. apply eq_true_iff_eq. split.
  - by apply existsb_rights_sound with P.
  - rewrite !existsb_In. intros (x & Hx & Hh).
    apply list_elem_of_lookup in Hx as Hl. destruct Hl as [i Hl].
    destruct (lefts_nil_inv f l i x Hn Hl) as [b Hb].
    exists b. split; [apply elem_of_rights; eauto|].
    rewrite Forall_forall in HP. rewrite (Hgh i x b); auto.
Qed.

Lemma lefts_nil_rights (f : nat → C → A + B) l :
  lefts (imap f l) = [] → rights (imap f l) = [] → l = [].
Proof.
  intros Hl Hr. destruct l as [|x l]; [done|].
  destruct (lefts_nil_inv f (x :: l) 0 x Hl eq_refl) as [b Hb].
  assert (b ∈ rights (imap f (x :: l))) as Hi by (apply elem_of_rights; by exists 0, x).
  rewrite Hr in Hi. by apply elem_of_nil in Hi.
Qed.
End lists_of_sums.

Section translate_shape.
Context {L : LabelsAPI}.

(** The shape of a rule that comes out: its peers and ports are the kept
    ones, and asked-for ports were not all refused. *)
Lemma translateRule_Some ns dir i peers ports rule refs :
  translateRule ns dir i peers ports = (Some rule, refs) →
  let w := "spec." +:+ dir_string dir +:+ "[" +:+ pretty i +:+ "]" in
  rule_Direction rule = dir ∧
  rule_Peers rule = (if decide (peers = []) then
      [mkPeer "0.0.0.0/0" "" zero_PeerSelector; mkPeer "::/0" "" zero_PeerSelector]
    else rights (imap (translatePeer ns dir w) peers)) ∧
  rule_Ports rule = rights (imap (translatePort w) ports) ∧
  (ports ≠ [] → rule_Ports rule ≠ []) ∧
  refs = lefts (imap (translatePeer ns dir w) peers) ++ lefts (imap (translatePort w) ports).
Proof.
  unfold translateRule. intros H. repeat case_decide; simplify_eq/=;
    repeat split; try done; naive_solver.
Qed.

Lemma isolates_fold types d m :
  opt_or false (fold_left isolate types m !! d) = true ↔
  opt_or false (m !! d) = true ∨
  (match d with Ingress => PolicyTypeIngress | Egress => PolicyTypeEgress end) ∈ types.
Proof.
  revert m. induction types as [|ty types IH]; intros m; simpl.
  - rewrite elem_of_nil. naive_solver.
  - rewrite IH, elem_of_cons. unfold isolate.
    destruct d; repeat case_decide; subst; rewrite ?lookup_insert_eq,
      ?lookup_insert_ne by done; simpl; naive_solver.
Qed.
End translate_shape.

Section translate_facts.
Context {L : LabelsAPI} `{!LabelsLaws L}.
Variable cidr_contains : string → string → bool.
Variable ns_labels : string → gmap string string.
Variable named_port : string → Z → bool.
Implicit Types t : Traffic.

Lemma translatePeer_allows ns dir w i peer p t :
  ns ≠ "" → valid_peer peer → translatePeer ns dir w i peer = inr p →
  peer_allows cidr_contains ns_labels p t = k8s_peer cidr_contains ns_labels ns peer t.
Proof.
  intros Hns Hv. unfold valid_peer in Hv.
  unfold translatePeer, SelectorKey, resolvePeer, k8s_peer, k8s_selected.
  unfold peer_allows, sel_allows.
  destruct (np_IPBlock peer) as [[cidr ex]|]; simpl in *.
  { destruct (bool_decide (ex = [])) eqn:He; simpl; [|done].
    apply bool_decide_eq_true in He as ->. intros [= <-]. simpl.
    rewrite decide_False by done. simpl. by rewrite andb_true_r. }
  destruct (np_PodSelector peer) as [ps|], (np_NamespaceSelector peer) as [ss|];
    unfold mbind, result_bind, mret, result_ret; simpl; try done.
  all: repeat (case_match; simplify_eq/=; try done).
  all: intros; simplify_eq/=; rewrite ?Everything_matches; done.
Qed.

Lemma translatePort_allows w i p q t :
  valid_port p → translatePort w i p = inr q →
  port_allows q t = k8s_port named_port p t.
Proof.
  unfold valid_port, translatePort, port_allows, k8s_port.
  destruct (np_Port p) as [[ty n s]|] eqn:Hp; simpl.
  - destruct (decide (ty = TypeInt)) as [->|]; [|done].
    case_decide; [done|]. intros Hv [= <-]. simpl. specialize (Hv eq_refl).
    f_equal. rewrite (bool_decide_false (_ ∧ _)) by lia. done.
  - intros ->. case_decide; [done|]. by intros [= <-].
Qed.

(** A rule that comes out allows nothing the policy rule does not. *)
Lemma translateRule_never_wider ns dir i r rule refs t :
  ns ≠ "" → valid_rule r →
  translateRule ns dir i (nr_Peers r) (nr_Ports r) = (Some rule, refs) →
  rule_allows cidr_contains ns_labels rule t = true →
  k8s_rule cidr_contains ns_labels named_port ns r t = true.
Proof.
  intros Hns [Hvp Hvq] (_ & Hp & Hq & Hne & _)%translateRule_Some.
  unfold rule_allows, k8s_rule. rewrite !andb_true_iff, !orb_true_iff, !bool_decide_eq_true.
  intros [Hpeer Hport]. split.
  - rewrite Hp in Hpeer. case_decide as Hd; [by left|right].
    revert Hpeer. eapply existsb_rights_sound; [exact Hvp|].
    intros. by eapply translatePeer_allows.
  - destruct (decide (nr_Ports r = [])) as [|Hd]; [by left|right].
    destruct Hport as [Hport|Hport]; [by destruct (Hne Hd)|].
    rewrite Hq in Hport. revert Hport. eapply existsb_rights_sound; [exact Hvq|].
    intros. by eapply translatePort_allows.
Qed.

(** With nothing refused, a rule comes out and means what was written. *)
Lemma translateRule_exact ns dir i r :
  ns ≠ "" → valid_rule r →
  (∀ a, cidr_contains "0.0.0.0/0" a || cidr_contains "::/0" a = true) →
  (translateRule ns dir i (nr_Peers r) (nr_Ports r)).2 = [] →
  ∃ rule, (translateRule ns dir i (nr_Peers r) (nr_Ports r)).1 = Some rule ∧
    ∀ t, rule_allows cidr_contains ns_labels rule t
         = k8s_rule cidr_contains ns_labels named_port ns r t.
Proof.
  intros Hns [Hvp Hvq] Hall Href.
  destruct (translateRule ns dir i (nr_Peers r) (nr_Ports r)) as [[rule|] refs] eqn:Ht;
    simpl in *; subst.
  - exists rule. split; [done|]. intros t.
    apply translateRule_Some in Ht as (_ & Hp & Hq & Hne & Hrefs).
    symmetry in Hrefs. apply app_eq_nil in Hrefs as [Hr1 Hr2].
    unfold rule_allows, k8s_rule. f_equal.
    + rewrite Hp. case_decide as Hd.
      * rewrite bool_decide_true by done. unfold peer_allows. simpl.
        by rewrite orb_false_r, Hall.
      * rewrite (bool_decide_false (nr_Peers r = [])) by done. simpl.
        eapply existsb_rights_exact; [exact Hvp| |done].
        intros. by eapply translatePeer_allows.
    + rewrite Hq. destruct (decide (nr_Ports r = [])) as [->|Hd]; [done|].
      rewrite !bool_decide_false by (rewrite <-?Hq; auto). simpl.
      eapply existsb_rights_exact; [exact Hvq| |done].
      intros. by eapply translatePort_allows.
  - exfalso. unfold translateRule in Ht.
    repeat case_decide; simplify_eq/=; destruct_and?;
      apply app_eq_nil in Ht as [Hl1 Hl2]; eauto using lefts_nil_rights.
Qed.

End translate_facts.

(** ** The policy as a whole *)
Section policy_facts.
Context {L : LabelsAPI} `{!LabelsLaws L}.
Variable cidr_contains : string → string → bool.
Variable ns_labels : string → gmap string string.
Variable named_port : string → Z → bool.

Definition rules_of (p : NetworkPolicy) (d : Direction) : list NetworkPolicyRule :=
  match d with Ingress => pol_Ingress p | Egress => pol_Egress p end.

(** Does a policy's list of rules for [d] allow [t]: as Kubernetes reads the
    object, and as the translation has it. *)
Definition k8s_allows (p : NetworkPolicy) (d : Direction) (t : Traffic) : bool :=
  existsb (λ r, k8s_rule cidr_contains ns_labels named_port (pol_Namespace p) r t)
    (rules_of p d).
Definition translated_allows (tr : Translated) (d : Direction) (t : Traffic) : bool :=
  existsb (λ r, bool_decide (rule_Direction r = d)
                && rule_allows cidr_contains ns_labels r t) (Rules tr).

Definition valid_policy (p : NetworkPolicy) : Prop :=
  pol_Namespace p ≠ "" ∧ Forall valid_rule (pol_Ingress p ++ pol_Egress p).

Lemma translateRules_elem ns d rs rule :
  rule ∈ omap fst (translateRules ns d rs) ↔
  ∃ i r refs, rs !! i = Some r ∧
    translateRule ns d i (nr_Peers r) (nr_Ports r) = (Some rule, refs).
Proof.
  unfold translateRules. rewrite list_elem_of_omap. split.
  - intros ([o refs] & Ho & Hr). apply elem_of_lookup_imap in Ho as (i & r & Heq & Hl).
    simpl in *. subst. exists i, r, refs. by rewrite <-Heq.
  - intros (i & r & refs & Hl & Ht). exists (Some rule, refs). split; [|done].
    apply elem_of_lookup_imap. exists i, r. by rewrite Ht.
Qed.

Lemma translateRules_refs ns d rs i r :
  concat (map snd (translateRules ns d rs)) = [] → rs !! i = Some r →
  (translateRule ns d i (nr_Peers r) (nr_Ports r)).2 = [].
Proof.
  intros Hc Hl. apply elem_of_nil_inv. intros x Hx.
  assert (x ∈ concat (map snd (translateRules ns d rs))) as Hin.
  { apply list_elem_of_In, in_concat.
    exists (translateRule ns d i (nr_Peers r) (nr_Ports r)).2. split.
    - apply in_map, list_elem_of_In, elem_of_lookup_imap. eauto.
    - by apply list_elem_of_In. }
  rewrite Hc in Hin. by apply elem_of_nil in Hin.
Qed.

Lemma translated_rules p tr d rule :
  Translate p = Ok tr →
  rule ∈ Rules tr ∧ rule_Direction rule = d ↔
  rule ∈ omap fst (translateRules (pol_Namespace p) d (rules_of p d)).
Proof.
  unfold Translate. case_match; [|done]. intros [= <-]. simpl.
  rewrite omap_app, elem_of_app.
  rewrite !translateRules_elem. split.
  - intros [[(i & r & refs & Hl & Ht)|(i & r & refs & Hl & Ht)] Hd];
      destruct (translateRule_Some _ _ _ _ _ _ _ Ht) as [Hd' _];
      subst d; rewrite Hd'; eauto.
  - intros (i & r & refs & Hl & Ht).
    destruct (translateRule_Some _ _ _ _ _ _ _ Ht) as [Hd' _].
    split; [|done]. destruct d; [left|right]; eauto.
Qed.

Lemma valid_policy_rule p d i r :
  valid_policy p → rules_of p d !! i = Some r → valid_rule r.
Proof.
  intros [_ Hv] Hl. rewrite Forall_app in Hv. destruct Hv as [Hi He].
  destruct d; simpl in Hl; [exact (Forall_lookup_1 _ _ _ _ Hi Hl)|].
  exact (Forall_lookup_1 _ _ _ _ He Hl).
Qed.

Lemma translated_never_wider p tr d t :
  valid_policy p → Translate p = Ok tr →
  translated_allows tr d t = true → k8s_allows p d t = true.
Proof.
  intros Hv Ht. unfold translated_allows, k8s_allows. rewrite !existsb_In.
  intros (rule & Hr & Hal). apply andb_true_iff in Hal as [Hd Hal].
  apply bool_decide_eq_true in Hd.
  pose proof (proj1 (translated_rules p tr d rule Ht) (conj Hr Hd)) as Hin.
  apply translateRules_elem in Hin as (i & r & refs & Hl & Htr).
  exists r. split; [by eapply list_elem_of_lookup_2|].
  eapply translateRule_never_wider; [apply Hv| |exact Htr|exact Hal].
  by eapply valid_policy_rule.
Qed.

Lemma translated_exact p tr d t :
  valid_policy p → Translate p = Ok tr → Refused tr = [] →
  (∀ a, cidr_contains "0.0.0.0/0" a || cidr_contains "::/0" a = true) →
  translated_allows tr d t = k8s_allows p d t.
Proof.
  intros Hv Ht Href Hall. apply eq_true_iff_eq. split.
  { by apply translated_never_wider. }
  unfold translated_allows, k8s_allows. rewrite !existsb_In.
  intros (r & Hr & Hal). apply list_elem_of_lookup_1 in Hr as [i Hl].
  assert (concat (map snd (translateRules (pol_Namespace p) d (rules_of p d))) = []) as Hc.
  { clear -Ht Href. unfold Translate in Ht. case_match; simplify_eq/=.
    rewrite map_app, concat_app in Href. apply app_eq_nil in Href as [??].
    by destruct d. }
  destruct (translateRule_exact cidr_contains ns_labels named_port
    (pol_Namespace p) d i r) as (rule & Hrule & Heq); [apply Hv| |done| |].
  { by eapply valid_policy_rule. }
  { by eapply translateRules_refs. }
  destruct (translateRule _ _ _ _ _) as [o refs] eqn:Htr; simpl in *; subst o.
  destruct (proj2 (translated_rules p tr d rule Ht)) as [Hin Hd].
  { apply translateRules_elem. eauto 6. }
  exists rule. split; [done|]. by rewrite bool_decide_true, Heq.
Qed.

End policy_facts.

(** ** Isolation by every policy of the namespace *)
Section isolation_facts.
Context {L : LabelsAPI}.

Lemma IsolationOf_step_lookup pod by_ p by_' d :
  IsolationOf_step pod by_ p = Ok by_' →
  opt_or [] (by_' !! d) = opt_or [] (by_ !! d) ++
    match Translate p with
    | Ok t => if bool_decide (pol_Namespace p = Namespace pod)
                 && Matches (Subject t) (Labels pod) && isolates t d
              then [pol_Name p] else []
    | Err _ => []
    end.
Proof.
  unfold IsolationOf_step. case_decide as Hns.
  { intros [= <-]. rewrite bool_decide_false by done. case_match; by rewrite app_nil_r. }
  destruct (Translate p) as [t|e]; unfold mbind, result_bind; [|done].
  rewrite bool_decide_true by done.
  destruct (Matches _ _); simpl; [|intros [= <-]; by rewrite app_nil_r].
  intros [= <-].
  destruct (isolates t Ingress) eqn:Hi, (isolates t Egress) eqn:He, d; rewrite ?Hi, ?He;
    rewrite ?lookup_insert_eq, ?lookup_insert_ne by done; simpl;
    rewrite ?lookup_insert_eq, ?lookup_insert_ne by done; simpl;
    by rewrite ?app_nil_r.
Qed.

Lemma IsolationOf_fold pod policies by_ by_' d name :
  fold_result (IsolationOf_step pod) by_ policies = Ok by_' →
  name ∈ opt_or [] (by_' !! d) ↔
  name ∈ opt_or [] (by_ !! d) ∨
  ∃ p t, p ∈ policies ∧ Translate p = Ok t ∧ pol_Namespace p = Namespace pod ∧
    Matches (Subject t) (Labels pod) = true ∧ isolates t d = true ∧ pol_Name p = name.
Proof.
  revert by_. induction policies as [|p policies IH]; intros by_; simpl.
  - intros [= <-]. split; [by left|]. intros [?|(? & ? & Hin & _)]; [done|].
    by apply elem_of_nil in Hin.
  - unfold mbind at 1, result_bind at 1.
    destruct (IsolationOf_step pod by_ p) as [m|e] eqn:Hs; [|done].
    intros Hf. rewrite (IH m Hf), (IsolationOf_step_lookup _ _ _ _ d Hs), elem_of_app.
    setoid_rewrite elem_of_cons. split.
    + intros [[H|H]|(q & t & ? & ?)]; [by left| |right; exists q, t; naive_solver].
      right. destruct (Translate p) as [t|] eqn:Ht; [|by apply elem_of_nil in H].
      destruct (bool_decide _) eqn:Hns, (Matches _ _) eqn:Hm, (isolates t d) eqn:Hi;
        simpl in H; rewrite ?elem_of_nil, ?list_elem_of_singleton in H; try done.
      apply bool_decide_eq_true in Hns. exists p, t. naive_solver.
    + intros [H|(q & t & [->|Hq] & Ht & Hns & Hm & Hi & Hn)]; [by left; left| |].
      * left; right. rewrite Ht, Hm, Hi, bool_decide_true by done. simpl.
        by apply list_elem_of_singleton.
      * right. eauto 10.
Qed.
Lemma IsolationOf_fold_nonempty pod policies by_ by_' :
  fold_result (IsolationOf_step pod) by_ policies = Ok by_' →
  (∀ d l, by_ !! d = Some l → l ≠ []) → (∀ d l, by_' !! d = Some l → l ≠ []).
Proof.
  revert by_. induction policies as [|p policies IH]; intros by_; simpl.
  - by intros [= <-].
  - unfold mbind at 1, result_bind at 1.
    destruct (IsolationOf_step pod by_ p) as [m|e] eqn:Hs; [|done].
    intros Hf Hn. apply (IH m Hf). clear -Hs Hn. revert Hs.
    unfold IsolationOf_step, mbind, result_bind.
    repeat case_match; intros; simplify_eq/=; eauto.
    repeat case_match; rewrite ?lookup_insert in *; repeat case_decide;
      simplify_eq; eauto; by destruct (opt_or _ _).
Qed.

Lemma IsolationOf_elem pod policies by_ d name :
  IsolationOf pod policies = Ok by_ →
  name ∈ opt_or [] (by_ !! d) ↔
  ∃ p t, p ∈ policies ∧ Translate p = Ok t ∧ pol_Namespace p = Namespace pod ∧
    Matches (Subject t) (Labels pod) = true ∧ isolates t d = true ∧ pol_Name p = name.
Proof.
  unfold IsolationOf. destruct (fold_result _ _ _) as [m|e] eqn:Hf; [|done].
  intros [= <-].
  assert (name ∈ opt_or [] ((sort_strings <$> m) !! d) ↔ name ∈ opt_or [] (m !! d)) as ->.
  { rewrite lookup_fmap. destruct (m !! d); simpl; [apply elem_of_sort_strings|done]. }
  rewrite (IsolationOf_fold _ _ _ _ d name Hf), lookup_empty. simpl.
  rewrite elem_of_nil. naive_solver.
Qed.

Lemma IsolationOf_nonempty pod policies by_ d l :
  IsolationOf pod policies = Ok by_ → by_ !! d = Some l → l ≠ [].
Proof.
  unfold IsolationOf. destruct (fold_result _ _ _) as [m|e] eqn:Hf; [|done].
  intros [= <-]. rewrite lookup_fmap, fmap_Some. intros (l' & Hl & ->) Hn.
  apply (IsolationOf_fold_nonempty _ _ _ _ Hf ltac:(done) d l' Hl).
  apply length_zero_iff_nil. by rewrite <-(length_sort_strings l'), Hn.
Qed.
End isolation_facts.

(** ** Properties *)

(** Which directions a policy isolates follows [policyTypes] and, where the
    API server did not default them, Kubernetes' own rule: ingress always,
    egress when egress rules were written.  It never follows from the presence
    of ingress rules, so the deny-all policy with no rules isolates. *)
Theorem Translate_isolation {L : LabelsAPI} (p : NetworkPolicy) (t : Translated) :
  Translate p = Ok t →
  (isolates t Ingress = true ↔
     pol_PolicyTypes p = [] ∨ PolicyTypeIngress ∈ pol_PolicyTypes p) ∧
  (isolates t Egress = true ↔
     (pol_PolicyTypes p = [] ∧ pol_Egress p ≠ []) ∨ PolicyTypeEgress ∈ pol_PolicyTypes p).
Proof.
  unfold Translate. case_match; [|done]. intros [= <-]. unfold isolates. simpl.
  rewrite !isolates_fold, !lookup_empty. unfold policyTypes.
  destruct (pol_PolicyTypes p) as [|ty tys]; simpl; [case_decide|];
    rewrite ?elem_of_cons, ?elem_of_nil; split; try done; naive_solver.
Qed.

(** When nothing was refused, what the translated rules of a direction allow
    is exactly what Kubernetes says the policy's rules of that direction allow,
    for a policy the API server has validated. *)
Theorem Translate_exact {L : LabelsAPI} `{!LabelsLaws L}
    (cidr_contains : string → string → bool) (ns_labels : string → gmap string string)
    (named_port : string → Z → bool) (p : NetworkPolicy) (tr : Translated)
    (d : Direction) (t : Traffic) :
  valid_policy p → Translate p = Ok tr → Refused tr = [] →
  (∀ a, cidr_contains "0.0.0.0/0" a || cidr_contains "::/0" a = true) →
  translated_allows cidr_contains ns_labels tr d t
  = k8s_allows cidr_contains ns_labels named_port p d t.
Proof. apply translated_exact. Qed.

(** [IsolationOf] names, for each direction, exactly the policies of the
    pod's namespace whose subject selects the pod and that isolate the
    direction; the names are sorted and no direction is listed empty. *)
Theorem IsolationOf_correct {L : LabelsAPI} (pod : Pod) (policies : list NetworkPolicy)
    (by_ : gmap Direction (list string)) :
  IsolationOf pod policies = Ok by_ →
  (∀ d name, name ∈ opt_or [] (by_ !! d) ↔
     ∃ p t, p ∈ policies ∧ Translate p = Ok t ∧ pol_Namespace p = Namespace pod ∧
       Matches (Subject t) (Labels pod) = true ∧ isolates t d = true ∧ pol_Name p = name) ∧
  (∀ d l, by_ !! d = Some l → l ≠ [] ∧ StronglySorted String.le l).
Proof.
  intros H. split; [intros; by apply IsolationOf_elem|].
  intros d l Hl. split; [by eapply IsolationOf_nonempty|].
  revert H. unfold IsolationOf. case_match; [|done]. intros [= <-].
  rewrite lookup_fmap, fmap_Some in Hl. destruct Hl as (l' & _ & ->).
  apply sort_strings_sorted.
Qed.

(** ** Witnesses *)
Definition ex_web : @LabelSelector EqLabels := Some [("app", Some "web")].
(** Ingress from the namespace's own web pods on tcp/8080. *)
Definition ex_policy : @NetworkPolicy EqLabels :=
  @mkNetworkPolicy EqLabels "prod" "allow-web" (Some []) [PolicyTypeIngress]
    [@mkNPRule EqLabels [@mkNPPeer EqLabels (Some ex_web) None None]
       [mkNPPort None (Some (mkIntOrString 0 8080 "")) None]] [].
Definition ex_cidr (c a : string) : bool :=
  if decide (c = "0.0.0.0/0") then negb (contains a ":")
  else if decide (c = "::/0") then contains a ":" else bool_decide (c = a).
Definition ex_ns_labels (ns : string) : gmap string string := {["name" := ns]}.
Definition ex_traffic : Traffic :=
  mkTraffic "10.0.0.7" (Some ("prod", {["app" := "web"]})) "TCP" 8080.

Lemma ex_policy_valid : valid_policy ex_policy.
Proof. split; [done|]. repeat constructor; simpl; try done; intros; lia. Qed.

Lemma ex_cidr_all a : ex_cidr "0.0.0.0/0" a || ex_cidr "::/0" a = true.
Proof. unfold ex_cidr. simpl. by destruct (contains a ":"). Qed.

Lemma Translate_isolation_witness :
  ∃ t, Translate ex_policy = Ok t ∧ isolates t Ingress = true ∧ isolates t Egress = false.
Proof.
  eexists. split; [reflexivity|].
  destruct (Translate_isolation ex_policy _ eq_refl) as [Hi He]. split.
  - apply Hi. right. by left.
  - apply not_true_iff_false. rewrite He. vm_compute.
    intros [[? _]|H]; [done|]. inversion H as [|? ? ? H']; inversion H'.
Defined.

Lemma Translate_exact_witness :
  ∃ tr, Translate ex_policy = Ok tr ∧ Refused tr = [] ∧
    translated_allows ex_cidr ex_ns_labels tr Ingress ex_traffic = true ∧
    k8s_allows ex_cidr ex_ns_labels (λ _ _, false) ex_policy Ingress ex_traffic = true.
Proof.
  eexists. split; [reflexivity|]. split; [reflexivity|].
  split; [|by vm_compute].
  rewrite (@Translate_exact EqLabels EqLabels_laws ex_cidr ex_ns_labels (λ _ _, false)
    ex_policy _ Ingress ex_traffic ex_policy_valid eq_refl eq_refl ex_cidr_all).
  by vm_compute.
Defined.

Lemma IsolationOf_correct_witness :
  ∃ by_, IsolationOf (empty_pod "prod" "api-0" "u1") [ex_policy] = Ok by_ ∧
    "allow-web" ∈ opt_or [] (by_ !! Ingress).
Proof.
  eexists. split; [reflexivity|].
  destruct (IsolationOf_correct (empty_pod "prod" "api-0" "u1") [ex_policy] _ eq_refl)
    as [H _].
  apply H. exists ex_policy. eexists. repeat split; [by left|reflexivity..].
Defined.
