(* ===== verification/NetpolRuleSet.v ===== *)
(** * pkg/netpol/ruleset.go: policy rules as the rules Neutron stores

    [Expand] multiplies peers, ports and address families out into one-remote,
    one-range rules, without duplicates and in a fixed order; [PolicyRules]
    keeps the rules of the directions the same policy isolates.  The theorems
    say the expansion allows exactly what the translated rules allow, and, with
    NetpolTranslate, that a policy's rule set is never wider than the policy. *)

From S2P Require Import Prelude GoStd K8s NetpolTranslate.
From Stdlib Require Import Ascii.

Local Open Scope string_scope.
Local Open Scope list_scope.

Record SGRule := mkSGRule {
  sg_Direction : Direction;
  sg_EtherType : string;
  sg_Protocol : string;
  sg_PortMin : Z;
  sg_PortMax : Z;
  sg_RemoteCIDR : string;
  sg_RemoteAddressGroup : string }.

#[export] Instance SGRule_eq_dec : EqDecision SGRule.
Proof. solve_decision. Defined.

Definition familyOfCIDR (cidr : string) : string :=
  if contains cidr ":" then "IPv6" else "IPv4".

Definition sg_key (r : SGRule) : string :=
  dir_string (sg_Direction r) +:+ "|" +:+ sg_EtherType r +:+ "|" +:+ sg_Protocol r
  +:+ "|" +:+ pretty (sg_PortMin r) +:+ "|" +:+ pretty (sg_PortMax r)
  +:+ "|" +:+ sg_RemoteCIDR r +:+ "|" +:+ sg_RemoteAddressGroup r.

Definition sg_key_le (a b : SGRule) : Prop := String.le (sg_key a) (sg_key b).
#[export] Instance sg_key_le_dec : RelDecision sg_key_le.
Proof. intros a b. unfold sg_key_le. apply _. Defined.
#[export] Instance sg_key_le_trans : Transitive sg_key_le.
Proof. intros a b c. unfold sg_key_le. by transitivity (sg_key b). Qed.
#[export] Instance sg_key_le_total : Total sg_key_le.
Proof. intros a b. unfold sg_key_le. apply (total String.le). Qed.

Section ruleset.
Context {L : LabelsAPI}.

Record RuleSet := mkRuleSet {
  rs_Rules : list SGRule;
  rs_Peers : gmap string PeerSelector }.

Definition familiesFor (p : Peer) : list string :=
  if decide (peer_CIDR p = "") then ["IPv4"; "IPv6"] else [familyOfCIDR (peer_CIDR p)].

Definition protocolOf (p : Port) : string :=
  if decide (port_Protocol p = "") then "" else to_lower (port_Protocol p).

(** What the loops of [Expand] carry: [seen], [peers] and [out.Rules]. *)
Record expand_state := mkExpandState {
  ex_seen : gset string;
  ex_peers : gmap string PeerSelector;
  ex_rules : list SGRule }.

(** The rule the innermost body builds. *)
Definition expand_rule (r : Rule) (peer : Peer) (port : Port) (family : string) : SGRule :=
  mkSGRule (rule_Direction r) family (protocolOf port) (port_Min port) (port_Max port)
    (peer_CIDR peer) (if decide (peer_CIDR peer = "") then peer_SelectorKey peer else "").

(** The innermost body: [continue] leaves the state as it is. *)
Definition expand_body (r : Rule) (peer : Peer) (port : Port)
    (st : expand_state) (family : string) : expand_state :=
  if decide (peer_CIDR peer ≠ "" ∧ family ≠ familyOfCIDR (peer_CIDR peer)) then st
  else
    let rule := expand_rule r peer port family in
    let peers := if decide (peer_CIDR peer = "")
                 then <[peer_SelectorKey peer := peer_Selector peer]> (ex_peers st)
                 else ex_peers st in
    let key := sg_key rule in
    if decide (key ∈ ex_seen st) then mkExpandState (ex_seen st) peers (ex_rules st)
    else mkExpandState ({[key]} ∪ ex_seen st) peers (ex_rules st ++ [rule]).

Definition expand_ports (r : Rule) : list Port :=
  match rule_Ports r with [] => [mkPort "" 0 0] | ports => ports end.

Definition expand_loops (rules : list Rule) : expand_state :=
  fold_left (λ st r,
    fold_left (λ st peer,
      fold_left (λ st port,
        fold_left (expand_body r peer port) (familiesFor peer) st)
        (expand_ports r) st)
      (rule_Peers r) st)
    rules (mkExpandState ∅ ∅ []).

Definition Expand (rules : list Rule) : RuleSet :=
  let st := expand_loops rules in
  mkRuleSet (merge_sort sg_key_le (ex_rules st)) (ex_peers st).

(** [RuleSet.Empty] *)
Definition Empty (s : RuleSet) : bool := bool_decide (rs_Rules s = []).

Definition PolicyRules (t : Translated) : RuleSet :=
  Expand (filter (λ r, isolates t (rule_Direction r) = true) (Rules t)).
End ruleset.

(** ** Names: the first 16 hex digits of a SHA-256 ([crypto/sha256]). *)
Section names.
Variable sha256_hex : string → string.

Definition GroupNameFor (namespace name : string) : string :=
  "knp-policy-" +:+ String.substring 0 16 (sha256_hex (namespace +:+ "/" +:+ name)).
Definition AddressGroupName (selectorKey : string) : string :=
  "knp-peers-" +:+ String.substring 0 16 (sha256_hex selectorKey).
End names.

(** ** What a rule set allows

    A Neutron rule applies to its direction and address family, to every
    protocol when it names none, to every port when it names no range, and to
    the addresses of its remote: a CIDR, or the pods of the peer set whose key
    it carries. *)
Section semantics.
Context {L : LabelsAPI}.
Variable cidr_contains : string → string → bool.
Variable ns_labels : string → gmap string string.

Definition sg_remote_allows (peers : gmap string PeerSelector) (r : SGRule) (t : Traffic)
    : bool :=
  if decide (sg_RemoteCIDR r = "") then
    match peers !! sg_RemoteAddressGroup r with
    | Some s => sel_allows ns_labels s t
    | None => false
    end
  else cidr_contains (sg_RemoteCIDR r) (t_addr t).

Definition sg_rule_allows (peers : gmap string PeerSelector) (d : Direction)
    (t : Traffic) (r : SGRule) : bool :=
  bool_decide (sg_Direction r = d)
  && bool_decide (sg_EtherType r = familyOfCIDR (t_addr t))
  && (bool_decide (sg_Protocol r = "") || bool_decide (sg_Protocol r = to_lower (t_proto t)))
  && (bool_decide (sg_PortMin r = 0%Z ∧ sg_PortMax r = 0%Z)
      || bool_decide (sg_PortMin r ≤ t_port t ≤ sg_PortMax r)%Z)
  && sg_remote_allows peers r t.

Definition ruleset_allows (s : RuleSet) (d : Direction) (t : Traffic) : bool :=
  existsb (sg_rule_allows (rs_Peers s) d t) (rs_Rules s).

Definition rules_allow (rules : list Rule) (d : Direction) (t : Traffic) : bool :=
  existsb (λ r, bool_decide (rule_Direction r = d)
                && rule_allows cidr_contains ns_labels r t) rules.
End semantics.

(** Protocol names as Kubernetes spells them: no lower-case letter. *)
Definition is_lower (c : Ascii.ascii) : bool :=
  let n := Ascii.nat_of_ascii c in (97 <=? n)%nat && (n <=? 122)%nat.
Fixpoint upper_name (s : string) : bool :=
  match s with
  | EmptyString => true
  | String c s' => negb (is_lower c) && upper_name s'
  end.

Section well_formed.
Context {L : LabelsAPI}.
Definition wf_rule (r : Rule) : Prop :=
  Forall (λ p, no_char "|"%char (peer_CIDR p) = true) (rule_Peers r) ∧
  Forall (λ p, port_Protocol p ≠ "" ∧ upper_name (port_Protocol p) = true
               ∧ no_char "|"%char (port_Protocol p) = true) (rule_Ports r).

(** Two peer sets that hold the same pods, whatever the namespaces' labels. *)
Definition sel_equiv (s1 s2 : PeerSelector) : Prop :=
  ∀ ns_labels t, sel_allows ns_labels s1 t = sel_allows ns_labels s2 t.

#[export] Instance sel_equiv_equivalence : Equivalence sel_equiv.
Proof.
  split; [done| |].
  - intros s1 s2 H ns t. by rewrite H.
  - intros s1 s2 s3 H1 H2 ns t. by rewrite H1, H2.
Qed.

#[export] Instance sel_allows_proper ns_labels :
  Proper (sel_equiv ==> eq ==> eq) (sel_allows ns_labels).
Proof. intros s1 s2 H t _ <-. apply H. Qed.

(** A selector key stands for one peer set. *)
Definition keys_agree (rules : list Rule) : Prop :=
  ∀ r1 r2 p1 p2, r1 ∈ rules → r2 ∈ rules →
    p1 ∈ rule_Peers r1 → p2 ∈ rule_Peers r2 →
    peer_CIDR p1 = "" → peer_CIDR p2 = "" →
    peer_SelectorKey p1 = peer_SelectorKey p2 →
    sel_equiv (peer_Selector p1) (peer_Selector p2).
End well_formed.

(** ** Lemmas on the loops *)
Lemma fold_left_flat_map {A B C} (f : C → B → C) (g : A → list B) l s :
  fold_left (λ s x, fold_left f (g x) s) l s = fold_left f (flat_map g l) s.
Proof.
  revert s. induction l as [|x l IH]; intros s; simpl; [done|].
  by rewrite IH, fold_left_app.
Qed.

Lemma fold_left_map_arg {A B C} (f : C → B → C) (g : A → B) l s :
  fold_left f (map g l) s = fold_left (λ s x, f s (g x)) l s.
Proof. revert s. induction l as [|x l IH]; intros s; simpl; auto. Qed.

Lemma upper_lower x : is_lower x = false → ascii_upper (ascii_lower x) = x.
Proof. by destruct x as [[] [] [] [] [] [] [] []]; vm_compute. Qed.

Lemma to_upper_lower s : upper_name s = true → to_upper (to_lower s) = s.
Proof.
  unfold to_upper, to_lower. induction s as [|x s IH]; simpl; [done|].
  rewrite andb_true_iff, negb_true_iff. intros [Hx Hs].
  by rewrite upper_lower, IH.
Qed.

Lemma to_lower_inj a b :
  upper_name a = true → upper_name b = true → to_lower a = to_lower b ↔ a = b.
Proof.
  intros Ha Hb. split; [|by intros ->]. intros H.
  by rewrite <-(to_upper_lower a Ha), <-(to_upper_lower b Hb), H.
Qed.

Section expand_facts.
Context {L : LabelsAPI}.

(** The iterations of the four loops, in order. *)
Definition candidate : Type := Rule * Peer * Port * string.
Definition candidates (rules : list Rule) : list candidate :=
  flat_map (λ r, flat_map (λ peer, flat_map (λ port,
    map (λ family, (r, peer, port, family)) (familiesFor peer))
    (expand_ports r)) (rule_Peers r)) rules.
Definition cand_rule (c : candidate) : SGRule :=
  let '(r, peer, port, family) := c in expand_rule r peer port family.
Definition cand_peer (c : candidate) : Peer := let '(_, peer, _, _) := c in peer.
Definition cand_step (st : expand_state) (c : candidate) : expand_state :=
  let '(r, peer, port, family) := c in expand_body r peer port st family.

Lemma expand_loops_flat rules :
  expand_loops rules = fold_left cand_step (candidates rules) (mkExpandState ∅ ∅ []).
Proof.
  unfold expand_loops, candidates. rewrite <-fold_left_flat_map.
  apply fold_left_ext. intros st r. rewrite <-fold_left_flat_map.
  apply fold_left_ext. intros st' peer. rewrite <-fold_left_flat_map.
  apply fold_left_ext. intros st'' port. by rewrite fold_left_map_arg.
Qed.

Lemma candidates_family rules r peer port family :
  (r, peer, port, family) ∈ candidates rules ↔
  r ∈ rules ∧ peer ∈ rule_Peers r ∧ port ∈ expand_ports r ∧ family ∈ familiesFor peer.
Proof.
  unfold candidates. repeat setoid_rewrite list_elem_of_In.
  repeat setoid_rewrite in_flat_map. setoid_rewrite in_map_iff. naive_solver.
Qed.

(** The guard of the innermost body never skips what [familiesFor] offers. *)
Lemma familiesFor_cidr peer family :
  family ∈ familiesFor peer → peer_CIDR peer ≠ "" → family = familyOfCIDR (peer_CIDR peer).
Proof.
  unfold familiesFor. case_decide; [done|]. by rewrite list_elem_of_singleton.
Qed.

(** What the loops have built once the candidates [cs] are done. *)
Record expand_inv (cs : list candidate) (st : expand_state) : Prop := {
  ei_seen : ∀ k, k ∈ ex_seen st ↔ ∃ c, c ∈ cs ∧ sg_key (cand_rule c) = k;
  ei_rules : ∀ rule, rule ∈ ex_rules st → ∃ c, c ∈ cs ∧ cand_rule c = rule;
  ei_keys : ∀ k, k ∈ ex_seen st ↔ k ∈ map sg_key (ex_rules st);
  ei_nodup : NoDup (map sg_key (ex_rules st));
  ei_peer_in : ∀ c, c ∈ cs → peer_CIDR (cand_peer c) = "" →
    is_Some (ex_peers st !! peer_SelectorKey (cand_peer c));
  ei_peer_out : ∀ k s, ex_peers st !! k = Some s → ∃ c, c ∈ cs ∧
    peer_CIDR (cand_peer c) = "" ∧ peer_SelectorKey (cand_peer c) = k ∧
    peer_Selector (cand_peer c) = s }.

Lemma expand_step_peers cs st c :
  expand_inv cs st →
  let peers := if decide (peer_CIDR (cand_peer c) = "")
               then <[peer_SelectorKey (cand_peer c) := peer_Selector (cand_peer c)]> (ex_peers st)
               else ex_peers st in
  (∀ c', c' ∈ cs ++ [c] → peer_CIDR (cand_peer c') = "" →
     is_Some (peers !! peer_SelectorKey (cand_peer c'))) ∧
  (∀ k s, peers !! k = Some s → ∃ c', c' ∈ cs ++ [c] ∧
     peer_CIDR (cand_peer c') = "" ∧ peer_SelectorKey (cand_peer c') = k ∧
     peer_Selector (cand_peer c') = s).
Proof.
  intros [_ _ _ _ Hin Hout] peers. setoid_rewrite elem_of_app.
  setoid_rewrite list_elem_of_singleton. subst peers. split.
  - intros c' [Hc| ->] Hcidr; case_decide; try done; rewrite ?lookup_insert_is_Some; eauto.
    destruct (decide (peer_SelectorKey (cand_peer c) = peer_SelectorKey (cand_peer c'))); eauto.
  - intros k s. case_decide; [rewrite lookup_insert_Some; intros [[<- <-]|[_ Hk]]|intros Hk].
    + exists c. eauto.
    + destruct (Hout k s Hk) as (c' & ? & ?). exists c'. eauto.
    + destruct (Hout k s Hk) as (c' & ? & ?). exists c'. eauto.
Qed.

Lemma expand_step_inv cs st c :
  (peer_CIDR (cand_peer c) ≠ "" → c.2 = familyOfCIDR (peer_CIDR (cand_peer c))) →
  expand_inv cs st → expand_inv (cs ++ [c]) (cand_step st c).
Proof.
  intros Hf Hinv. destruct (expand_step_peers cs st c Hinv) as [Hin Hout].
  destruct Hinv as [Hseen Hrules Hkeys Hnd _ _]. destruct c as [[[r peer] port] family].
  simpl in *. unfold expand_body.
  set (peers := if decide (peer_CIDR peer = "") then _ else _) in *. clearbody peers.
  rewrite (decide_False (P := peer_CIDR peer ≠ "" ∧ _)) by naive_solver.
  assert (∀ k, (∃ c, c ∈ cs ++ [(r, peer, port, family)] ∧ sg_key (cand_rule c) = k) ↔
     k ∈ ex_seen st ∨ sg_key (expand_rule r peer port family) = k) as Hex.
  { intros k. rewrite Hseen. setoid_rewrite elem_of_app.
    setoid_rewrite list_elem_of_singleton. naive_solver. }
  case_decide as Hdup; split; simpl; try assumption; intros; rewrite ?Hex.
  - split; [by left|]. by intros [?|<-].
  - destruct (Hrules rule) as (c & ? & ?); [done|]. exists c. by rewrite elem_of_app; eauto.
  - rewrite elem_of_union, elem_of_singleton. naive_solver.
  - match goal with H : _ ∈ _ ++ _ |- _ => apply elem_of_app in H as [H|H] end.
    + destruct (Hrules rule) as (c & ? & ?); [done|]. exists c. by rewrite elem_of_app; eauto.
    + apply list_elem_of_singleton in H as ->. exists (r, peer, port, family).
      rewrite elem_of_app, list_elem_of_singleton. eauto.
  - rewrite map_app, elem_of_union, elem_of_singleton, elem_of_app, Hkeys. simpl.
    rewrite list_elem_of_singleton. naive_solver.
  - rewrite map_app. apply NoDup_app. split; [done|]. simpl. split; [|apply NoDup_singleton].
    intros k Hk Hk'. apply list_elem_of_singleton in Hk' as ->. by apply Hdup, Hkeys.
Qed.

Lemma expand_loops_inv rules : expand_inv (candidates rules) (expand_loops rules).
Proof.
  rewrite expand_loops_flat.
  enough (∀ cs2 cs1 st, candidates rules = cs1 ++ cs2 → expand_inv cs1 st →
    expand_inv (candidates rules) (fold_left cand_step cs2 st)) as H.
  { apply (H (candidates rules) []); [done|].
    split; simpl; try set_solver; constructor || set_solver. }
  induction cs2 as [|c cs2 IH]; intros cs1 st Heq Hinv; simpl.
  { rewrite app_nil_r in Heq. by rewrite Heq. }
  apply (IH (cs1 ++ [c])); [by rewrite <-app_assoc|].
  apply expand_step_inv; [|done]. intros Hc.
  destruct c as [[[r peer] port] family]. simpl in *.
  apply familiesFor_cidr; [|done].
  eapply candidates_family. rewrite Heq. apply elem_of_app. right. by left.
Qed.
End expand_facts.

(** ** The key of a rule names one rule *)
Definition sg_plain (r : SGRule) : Prop :=
  no_char "|"%char (sg_EtherType r) = true ∧ no_char "|"%char (sg_Protocol r) = true ∧
  no_char "|"%char (sg_RemoteCIDR r) = true.

Lemma dir_string_plain d : no_char "|"%char (dir_string d) = true.
Proof. by destruct d. Qed.

Lemma sep_bar_inj a b r1 r2 :
  no_char "|"%char a = true → no_char "|"%char b = true →
  a +:+ "|" +:+ r1 = b +:+ "|" +:+ r2 → a = b ∧ r1 = r2.
Proof. apply sep_inj. Qed.

Lemma sg_key_inj a b : sg_plain a → sg_plain b → sg_key a = sg_key b → a = b.
Proof.
  destruct a as [da ea pa mna mxa ca ga], b as [db eb pb mnb mxb cb gb].
  intros (?&?&?) (?&?&?) Hk. unfold sg_key in Hk. simpl in *.
  repeat (apply sep_bar_inj in Hk; [|by auto using dir_string_plain, pretty_bar..];
    destruct Hk as [? Hk]).
  assert (da = db) by (by destruct da, db). simplify_eq. done.
Qed.

Section expand_meaning.
Context {L : LabelsAPI}.

Lemma wf_cand_plain rules c :
  Forall wf_rule rules → c ∈ candidates rules → sg_plain (cand_rule c).
Proof.
  intros Hwf Hc. destruct c as [[[r peer] port] family].
  apply candidates_family in Hc as (Hr & Hpeer & Hport & Hfam).
  destruct (proj1 (Forall_forall _ _) Hwf r Hr) as [Hps Hpo].
  pose proof (proj1 (Forall_forall _ _) Hps _ Hpeer) as Hcidr.
  unfold sg_plain. simpl. repeat split; [| |done].
  - unfold familiesFor, familyOfCIDR in Hfam. repeat case_match; set_solver.
  - unfold protocolOf. case_decide as Hp; [done|]. apply no_char_to_lower.
    unfold expand_ports in Hport. destruct (rule_Ports r) eqn:Hports.
    + apply list_elem_of_singleton in Hport as ->. done.
    + rewrite <-Hports in *. by apply (proj1 (Forall_forall _ _) Hpo _ Hport).
Qed.

Lemma Expand_elem rules rule :
  Forall wf_rule rules →
  rule ∈ rs_Rules (Expand rules) ↔ ∃ c, c ∈ candidates rules ∧ cand_rule c = rule.
Proof.
  intros Hwf. unfold Expand. simpl. rewrite merge_sort_Permutation.
  destruct (expand_loops_inv rules) as [Hseen Hrules Hkeys _ _ _]. split; [apply Hrules|].
  intros (c & Hc & <-).
  assert (sg_key (cand_rule c) ∈ map sg_key (ex_rules (expand_loops rules))) as Hk
    by (apply Hkeys, Hseen; eauto).
  rewrite list_elem_of_In in Hk. apply in_map_iff in Hk as (rule & Heq & Hin).
  apply list_elem_of_In in Hin. destruct (Hrules rule Hin) as (c' & Hc' & <-).
  by rewrite (sg_key_inj _ _ (wf_cand_plain rules c Hwf Hc)
    (wf_cand_plain rules c' Hwf Hc') (eq_sym Heq)).
Qed.

Lemma Expand_keys_nodup rules : NoDup (map sg_key (rs_Rules (Expand rules))).
Proof.
  unfold Expand. simpl. destruct (expand_loops_inv rules) as [_ _ _ Hnd _ _].
  by rewrite (Permutation_map sg_key (merge_sort_Permutation sg_key_le _)).
Qed.

Lemma Expand_peer rules r peer :
  keys_agree rules → r ∈ rules → peer ∈ rule_Peers r → peer_CIDR peer = "" →
  ∃ s, rs_Peers (Expand rules) !! peer_SelectorKey peer = Some s ∧
    sel_equiv s (peer_Selector peer).
Proof.
  intros Hag Hr Hp Hc. unfold Expand. simpl.
  destruct (expand_loops_inv rules) as [_ _ _ _ Hin Hout].
  assert (∃ port, port ∈ expand_ports r) as [port Hport].
  { unfold expand_ports. destruct (rule_Ports r) as [|q]; [exists (mkPort "" 0 0)|exists q]; by left. }
  destruct (Hin (r, peer, port, "IPv4")) as [s Hs]; simpl; [|done|].
  { apply candidates_family. unfold familiesFor. rewrite decide_True by done.
    repeat split; auto. by left. }
  simpl in Hs. rewrite Hs. destruct (Hout _ _ Hs) as ([[[r' p'] po'] f'] & Hc' & H1 & H2 & H3).
  simpl in *. apply candidates_family in Hc' as (? & ? & _).
  exists s. split; [done|]. rewrite <-H3. by apply (Hag r' r).
Qed.
End expand_meaning.

Section exactness.
Context {L : LabelsAPI}.
Variable cidr_contains : string → string → bool.
Variable ns_labels : string → gmap string string.
(** An address is of one family, and a CIDR holds addresses of its own. *)
Hypothesis cidr_family : ∀ c a,
  cidr_contains c a = true → familyOfCIDR c = familyOfCIDR a.

Lemma sg_ports_allow r peer port family t :
  wf_rule r → port ∈ expand_ports r → upper_name (t_proto t) = true →
  let rule := expand_rule r peer port family in
  (bool_decide (sg_Protocol rule = "") || bool_decide (sg_Protocol rule = to_lower (t_proto t)))
  && (bool_decide (sg_PortMin rule = 0%Z ∧ sg_PortMax rule = 0%Z)
      || bool_decide (sg_PortMin rule ≤ t_port t ≤ sg_PortMax rule)%Z)
  = (bool_decide (rule_Ports r = []) || port_allows port t).
Proof.
  intros [_ Hwf] Hport Hup rule. unfold expand_ports in Hport.
  destruct (rule_Ports r) as [|q qs] eqn:Hq.
  { apply list_elem_of_singleton in Hport as ->. done. }
  destruct (proj1 (Forall_forall _ _) Hwf port Hport) as (Hne & Hpu & _).
  subst rule. simpl. unfold protocolOf. rewrite decide_False by done.
  rewrite (bool_decide_false (to_lower _ = "")) by (destruct (port_Protocol port); done).
  unfold port_allows. simpl. f_equal. apply bool_decide_ext. by apply to_lower_inj.
Qed.

Lemma sg_remote_peer rules r peer port family t :
  keys_agree rules → r ∈ rules → peer ∈ rule_Peers r →
  sg_remote_allows cidr_contains ns_labels (rs_Peers (Expand rules))
    (expand_rule r peer port family) t = peer_allows cidr_contains ns_labels peer t.
Proof.
  intros Hag Hr Hp. unfold sg_remote_allows, peer_allows. simpl.
  destruct (decide (peer_CIDR peer = "")) as [Hc|Hc]; [|done].
  destruct (Expand_peer rules r peer Hag Hr Hp Hc) as (s & He & Heq).
  simpl in He. by rewrite He, Heq.
Qed.

Lemma peer_family peer t :
  peer_allows cidr_contains ns_labels peer t = true →
  familyOfCIDR (t_addr t) ∈ familiesFor peer.
Proof.
  unfold peer_allows, familiesFor. case_decide.
  - intros _. unfold familyOfCIDR. case_match; set_solver.
  - intros Ha%cidr_family. rewrite Ha. by left.
Qed.

Lemma Expand_allows rules d t :
  Forall wf_rule rules → keys_agree rules → upper_name (t_proto t) = true →
  ruleset_allows cidr_contains ns_labels (Expand rules) d t
  = rules_allow cidr_contains ns_labels rules d t.
Proof.
  intros Hwf Hag Hup. apply eq_true_iff_eq.
  unfold ruleset_allows, rules_allow, sg_rule_allows, rule_allows. rewrite !existsb_In.
  setoid_rewrite Expand_elem; [|done]. split.
  - intros (rule & (c & Hc & <-) & Hal). destruct c as [[[r peer] port] family].
    simpl in Hal. apply candidates_family in Hc as (Hr & Hpeer & Hport & Hfam).
    exists r. split; [done|]. rewrite (sg_remote_peer rules) in Hal by done.
    rewrite !andb_true_iff in Hal. destruct Hal as [[[[-> _] Hpr] Hpo] Hp].
    pose proof (sg_ports_allow r peer port family t
      (proj1 (Forall_forall _ _) Hwf r Hr) Hport Hup) as Heq.
    simpl in Heq. rewrite Hpr, Hpo in Heq. simpl in *.
    apply andb_true_iff; split; [by apply existsb_In; eauto|].
    destruct (bool_decide (rule_Ports r = [])) eqn:Hb; [done|]. simpl in *.
    apply existsb_In. exists port. split; [|done].
    unfold expand_ports in Hport. by destruct (rule_Ports r).
  - intros (r & Hr & Hal). rewrite !andb_true_iff in Hal. destruct Hal as [Hd [Hp Hpo]].
    apply existsb_In in Hp as (peer & Hpeer & Hp).
    assert (∃ port, port ∈ expand_ports r ∧
      bool_decide (rule_Ports r = []) || port_allows port t = true) as (port & Hport & Hpa).
    { unfold expand_ports. destruct (rule_Ports r); [exists (mkPort "" 0 0); split; [by left|done]|].
      simpl in Hpo. apply (existsb_In (λ p, port_allows p t) (_ :: _)) in Hpo as (q & ? & ?). eauto. }
    exists (expand_rule r peer port (familyOfCIDR (t_addr t))). split.
    { exists (r, peer, port, familyOfCIDR (t_addr t)). split; [|done].
      apply candidates_family. eauto using peer_family. }
    rewrite (sg_remote_peer rules) by done. rewrite <-!andb_assoc, (andb_assoc (_ || _)).
    rewrite sg_ports_allow by (done || by apply (proj1 (Forall_forall _ _) Hwf)).
    simpl. rewrite Hd, Hpa, Hp, bool_decide_true by done. done.
Qed.
End exactness.

(** ** When a selector key stands for one peer set *)
Section selector_keys.
Context {L : LabelsAPI} `{!LabelsLaws L} `{!SelectorStringLaws L}.

(** A pod selector that does not print as the word [SelectorKey] uses for
    "no pod selector". *)
Definition not_all (podSel : option LabelSelector) : Prop :=
  ∀ l s, podSel = Some l → LabelSelectorAsSelector l = Ok s → SelectorString s ≠ "all".

Definition key_scope (ns : string) (nsSel : option Selector) : string :=
  match nsSel with
  | None => "ns=" +:+ ns | Some s => "nsSelector=" +:+ SelectorString s end.
Definition key_pods (podSel : option Selector) : string :=
  match podSel with None => "all" | Some s => SelectorString s end.

(** Both helpers resolve the same two selectors. *)
Lemma SelectorKey_resolve ns nsSel podSel k s :
  SelectorKey ns nsSel podSel = Ok k → resolvePeer ns nsSel podSel = Ok s →
  ∃ n q, k = key_scope ns n +:+ ";pods=" +:+ key_pods q ∧
    s = mkPeerSelector (match n with None => ns | _ => "" end) n
          (Some (opt_or Everything q)) ∧
    (∀ x, n = Some x → no_char ";"%char (SelectorString x) = true) ∧
    (not_all podSel → ∀ x, q = Some x → SelectorString x ≠ "all").
Proof.
  unfold SelectorKey, resolvePeer, mbind, result_bind, mret, result_ret, not_all.
  intros Hk Hs. destruct nsSel as [nl|], podSel as [pl|];
    try destruct (LabelSelectorAsSelector nl) as [n|] eqn:Hn;
    try destruct (LabelSelectorAsSelector pl) as [q|] eqn:Hq; simplify_eq/=.
  - exists (Some n), (Some q). repeat split; try naive_solver.
    intros x [= <-]. by eapply SelectorString_plain.
  - exists (Some n), None. repeat split; try naive_solver.
    intros x [= <-]. by eapply SelectorString_plain.
  - exists None, (Some q). repeat split; naive_solver.
  - exists None, None. repeat split; naive_solver.
Qed.

Lemma key_scope_plain ns n :
  no_char ";"%char ns = true → (∀ x, n = Some x → no_char ";"%char (SelectorString x) = true) →
  no_char ";"%char (key_scope ns n) = true.
Proof. destruct n as [x|]; simpl; rewrite no_char_app; simpl; [|done]. naive_solver. Qed.

Lemma SelectorKey_agree ns n1 q1 n2 q2 k s1 s2 :
  no_char ";"%char ns = true → not_all q1 → not_all q2 →
  SelectorKey ns n1 q1 = Ok k → resolvePeer ns n1 q1 = Ok s1 →
  SelectorKey ns n2 q2 = Ok k → resolvePeer ns n2 q2 = Ok s2 →
  sel_equiv s1 s2.
Proof.
  intros Hns Ha1 Ha2 Hk1 Hs1 Hk2 Hs2.
  destruct (SelectorKey_resolve _ _ _ _ _ Hk1 Hs1) as (m1 & p1 & -> & -> & Hp1 & Hn1).
  destruct (SelectorKey_resolve _ _ _ _ _ Hk2 Hs2) as (m2 & p2 & Heq & -> & Hp2 & Hn2).
  apply sep_inj in Heq as [Hscope Hpods]; [|by apply key_scope_plain..].
  apply (f_equal (drop_prefix "pods=")) in Hpods. simpl in Hpods.
  assert (key_pods p1 = key_pods p2) as Hp by (by injection Hpods). clear Hpods.
  intros nsl t. unfold sel_allows. destruct (t_pod t) as [[pns pl]|]; [|done].
  f_equal; simpl.
  - destruct m1 as [x1|], m2 as [x2|]; simpl in *; try done.
    apply (f_equal (drop_prefix "nsSelector=")) in Hscope. simpl in Hscope.
    apply SelectorString_canonical. by injection Hscope.
  - destruct p1 as [x1|], p2 as [x2|]; simpl in *; try done.
    + by apply SelectorString_canonical.
    + by destruct (Hn1 Ha1 x1).
    + by destruct (Hn2 Ha2 x2).
Qed.
End selector_keys.

(** ** From a policy to the rules of its group *)
Section policy_rules.
Context {L : LabelsAPI} `{!LabelsLaws L} `{!SelectorStringLaws L}.

(** What the API server has checked of a stored policy. *)
Definition api_peer (p : NetworkPolicyPeer) : Prop :=
  match np_IPBlock p with
  | Some b => no_char "|"%char (ib_CIDR b) = true
  | None => True
  end.
Definition api_port (p : NetworkPolicyPort) : Prop :=
  opt_or ProtocolTCP (np_Protocol p) ∈ [ProtocolTCP; ProtocolUDP; ProtocolSCTP].
Definition api_policy (p : NetworkPolicy) : Prop :=
  valid_policy p ∧ no_char ";"%char (pol_Namespace p) = true ∧
  Forall (λ r, Forall api_peer (nr_Peers r) ∧ Forall api_port (nr_Ports r))
    (pol_Ingress p ++ pol_Egress p).

(** No peer of the policy selects its pods by a selector that prints as "all",
    the word [SelectorKey] keeps for "no pod selector".  The API server does not
    promise it: [SelectorKey_collision] is a policy without it. *)
Definition no_all_selector (p : NetworkPolicy) : Prop :=
  Forall (λ r, Forall (λ q, np_IPBlock q = None → not_all (np_PodSelector q)) (nr_Peers r))
    (pol_Ingress p ++ pol_Egress p).

Lemma no_all_selector_peer p d i r q :
  no_all_selector p → rules_of p d !! i = Some r → q ∈ nr_Peers r →
  np_IPBlock q = None → not_all (np_PodSelector q).
Proof.
  unfold no_all_selector. rewrite Forall_app. intros [Hi He] Hl Hq.
  destruct d; simpl in Hl;
    [pose proof (Forall_lookup_1 _ _ _ _ Hi Hl) as H|pose proof (Forall_lookup_1 _ _ _ _ He Hl) as H];
    exact (proj1 (Forall_forall _ _) H q Hq).
Qed.

Lemma api_policy_rule p d i r :
  api_policy p → rules_of p d !! i = Some r →
  Forall api_peer (nr_Peers r) ∧ Forall api_port (nr_Ports r).
Proof.
  intros (_ & _ & Hf) Hl. rewrite Forall_app in Hf. destruct Hf as [Hi He].
  destruct d; simpl in Hl; [exact (Forall_lookup_1 _ _ _ _ Hi Hl)|].
  exact (Forall_lookup_1 _ _ _ _ He Hl).
Qed.

(** Where a translated rule's peers come from. *)
Lemma translated_peer p tr r peer :
  Translate p = Ok tr → r ∈ Rules tr → peer ∈ rule_Peers r →
  (peer_CIDR peer ∈ ["0.0.0.0/0"; "::/0"]) ∨
  ∃ d i nr w j np, rules_of p d !! i = Some nr ∧ np ∈ nr_Peers nr ∧
    translatePeer (pol_Namespace p) d w j np = inr peer.
Proof.
  intros Ht Hr Hp.
  pose proof (proj1 (translated_rules p tr _ r Ht) (conj Hr eq_refl)) as Hin.
  apply translateRules_elem in Hin as (i & nr & refs & Hl & Htr).
  apply translateRule_Some in Htr as (_ & Hps & _). rewrite Hps in Hp.
  case_decide; [left; set_solver|right].
  apply elem_of_rights in Hp as (j & np & Hj & Hnp).
  exists (rule_Direction r), i, nr. eauto 10 using list_elem_of_lookup_2.
Qed.

Lemma translated_port p tr r port :
  Translate p = Ok tr → r ∈ Rules tr → port ∈ rule_Ports r →
  ∃ d i nr w j np, rules_of p d !! i = Some nr ∧ np ∈ nr_Ports nr ∧
    translatePort w j np = inr port.
Proof.
  intros Ht Hr Hp.
  pose proof (proj1 (translated_rules p tr _ r Ht) (conj Hr eq_refl)) as Hin.
  apply translateRules_elem in Hin as (i & nr & refs & Hl & Htr).
  apply translateRule_Some in Htr as (_ & _ & Hps & _). rewrite Hps in Hp.
  apply elem_of_rights in Hp as (j & np & Hj & Hnp).
  exists (rule_Direction r), i, nr. eauto 10 using list_elem_of_lookup_2.
Qed.

(** A peer without a CIDR carries the key and the set of its selectors. *)
Lemma translatePeer_selector ns d w i np peer :
  valid_peer np → translatePeer ns d w i np = inr peer → peer_CIDR peer = "" →
  np_IPBlock np = None ∧
  SelectorKey ns (np_NamespaceSelector np) (np_PodSelector np) = Ok (peer_SelectorKey peer) ∧
  resolvePeer ns (np_NamespaceSelector np) (np_PodSelector np) = Ok (peer_Selector peer).
Proof.
  unfold valid_peer, translatePeer. destruct (np_IPBlock np); [repeat case_match; naive_solver|].
  intros _. repeat case_match; intros; simplify_eq/=; done.
Qed.

Lemma Translate_wf p tr : api_policy p → Translate p = Ok tr → Forall wf_rule (Rules tr).
Proof.
  intros Ha Ht. apply Forall_forall. intros r Hr. split; apply Forall_forall.
  - intros peer Hp.
    destruct (translated_peer p tr r peer Ht Hr Hp) as [Hd|(d & i & nr & w & j & np & Hl & Hn & Hpe)].
    { rewrite !elem_of_cons, elem_of_nil in Hd. by destruct Hd as [->|[->|]]. }
    destruct (api_policy_rule p d i nr Ha Hl) as [Hap _].
    pose proof (proj1 (Forall_forall _ _) Hap np Hn) as Hnp. unfold api_peer in Hnp.
    unfold translatePeer in Hpe. repeat case_match; simplify_eq/=; done.
  - intros port Hp.
    destruct (translated_port p tr r port Ht Hr Hp) as (d & i & nr & w & j & np & Hl & Hn & Hpe).
    destruct (api_policy_rule p d i nr Ha Hl) as [_ Hap].
    pose proof (proj1 (Forall_forall _ _) Hap np Hn) as Hnp. unfold api_port in Hnp.
    rewrite !elem_of_cons, elem_of_nil in Hnp. unfold translatePort in Hpe.
    repeat case_match; simplify_eq/=; destruct Hnp as [->|[->|[->|[]]]]; done.
Qed.

Lemma Translate_keys_agree p tr :
  api_policy p → no_all_selector p → Translate p = Ok tr → keys_agree (Rules tr).
Proof.
  intros Ha Hna Ht r1 r2 p1 p2 Hr1 Hr2 Hp1 Hp2 Hc1 Hc2 Hk.
  destruct (translated_peer p tr r1 p1 Ht Hr1 Hp1) as [Hd|(d1 & i1 & n1 & w1 & j1 & q1 & Hl1 & Hn1 & He1)].
  { rewrite Hc1 in Hd. by rewrite !elem_of_cons, elem_of_nil in Hd; naive_solver. }
  destruct (translated_peer p tr r2 p2 Ht Hr2 Hp2) as [Hd|(d2 & i2 & n2 & w2 & j2 & q2 & Hl2 & Hn2 & He2)].
  { rewrite Hc2 in Hd. by rewrite !elem_of_cons, elem_of_nil in Hd; naive_solver. }
  destruct Ha as (Hv & Hns & _).
  destruct (valid_policy_rule p _ _ _ Hv Hl1) as [Hv1 _].
  destruct (valid_policy_rule p _ _ _ Hv Hl2) as [Hv2 _].
  destruct (translatePeer_selector _ _ _ _ _ _ (proj1 (Forall_forall _ _) Hv1 q1 Hn1) He1 Hc1)
    as (Hb1 & Hk1 & Hs1).
  destruct (translatePeer_selector _ _ _ _ _ _ (proj1 (Forall_forall _ _) Hv2 q2 Hn2) He2 Hc2)
    as (Hb2 & Hk2 & Hs2).
  pose proof (no_all_selector_peer p _ _ _ _ Hna Hl1 Hn1 Hb1) as Hq1.
  pose proof (no_all_selector_peer p _ _ _ _ Hna Hl2 Hn2 Hb2) as Hq2. rewrite <-Hk in Hk2.
  by apply (SelectorKey_agree (pol_Namespace p) _ _ _ _ _ _ _ Hns Hq1 Hq2 Hk1 Hs1 Hk2 Hs2).
Qed.

Variable cidr_contains : string → string → bool.
Variable ns_labels : string → gmap string string.
Hypothesis cidr_family : ∀ c a,
  cidr_contains c a = true → familyOfCIDR c = familyOfCIDR a.

Lemma PolicyRules_allows p tr d t :
  api_policy p → no_all_selector p → Translate p = Ok tr → upper_name (t_proto t) = true →
  ruleset_allows cidr_contains ns_labels (PolicyRules tr) d t
  = isolates tr d && translated_allows cidr_contains ns_labels tr d t.
Proof.
  intros Ha Hna Ht Hup. unfold PolicyRules.
  pose proof (Translate_wf p tr Ha Ht) as Hwf.
  pose proof (Translate_keys_agree p tr Ha Hna Ht) as Hag.
  rewrite Expand_allows; [|done| | |done].
  - unfold rules_allow, translated_allows. apply eq_true_iff_eq.
    rewrite andb_true_iff, !existsb_In. setoid_rewrite list_elem_of_filter.
    setoid_rewrite andb_true_iff. setoid_rewrite bool_decide_eq_true. naive_solver.
  - rewrite Forall_forall in *. intros r [_ Hr]%list_elem_of_filter. auto.
  - intros r1 r2 p1 p2 [_ Hr1]%list_elem_of_filter [_ Hr2]%list_elem_of_filter.
    by apply Hag.
Qed.
End policy_rules.

(** ** Properties *)

(** C9 A policy's group is never wider than the policy: for a policy the API
    server accepts, none of whose pod selectors prints as "all" (see
    [SelectorKey_collision] for one that does), and a protocol named in upper case
    as the API names it, traffic the rules written to
    Neutron allow in a direction is traffic of a direction the policy isolates,
    and one Kubernetes says the policy's own rules of that direction allow --
    whatever parts of the policy were refused. *)
Theorem policy_never_wider {L : LabelsAPI} `{!LabelsLaws L} `{!SelectorStringLaws L}
    (cidr_contains : string → string → bool) (ns_labels : string → gmap string string)
    (named_port : string → Z → bool) (p : NetworkPolicy) (tr : Translated)
    (d : Direction) (t : Traffic) :
  (∀ c a, cidr_contains c a = true → familyOfCIDR c = familyOfCIDR a) →
  api_policy p → no_all_selector p → upper_name (t_proto t) = true → Translate p = Ok tr →
  ruleset_allows cidr_contains ns_labels (PolicyRules tr) d t = true →
  isolates tr d = true ∧ k8s_allows cidr_contains ns_labels named_port p d t = true.
Proof.
  intros Hfam Ha Hna Hup Ht. rewrite (PolicyRules_allows _ _ Hfam p) by done.
  intros [Hi Hal]%andb_true_iff. split; [done|].
  eapply translated_never_wider; [apply Ha|done|done].
Qed.

(** C10 When nothing of the policy was refused its group is exact: for a policy
    the API server accepts, none of whose pod selectors prints as "all" (see
    [SelectorKey_collision] for one that does), and a protocol named in upper case
    as the API names it, the rules written to Neutron allow, in a direction the policy isolates, precisely the traffic Kubernetes
    says the policy allows, and nothing in the others. *)
Theorem policy_exact {L : LabelsAPI} `{!LabelsLaws L} `{!SelectorStringLaws L}
    (cidr_contains : string → string → bool) (ns_labels : string → gmap string string)
    (named_port : string → Z → bool) (p : NetworkPolicy) (tr : Translated)
    (d : Direction) (t : Traffic) :
  (∀ c a, cidr_contains c a = true → familyOfCIDR c = familyOfCIDR a) →
  (∀ a, cidr_contains "0.0.0.0/0" a || cidr_contains "::/0" a = true) →
  api_policy p → no_all_selector p → upper_name (t_proto t) = true →
  Translate p = Ok tr → Refused tr = [] →
  ruleset_allows cidr_contains ns_labels (PolicyRules tr) d t
  = isolates tr d && k8s_allows cidr_contains ns_labels named_port p d t.
Proof.
  intros Hfam Hall Ha Hna Hup Ht Hr. rewrite (PolicyRules_allows _ _ Hfam p) by done.
  f_equal. apply translated_exact; [apply Ha|done..].
Qed.

(** [Expand] is sound and complete for any well-formed rules whose selector
    keys agree, writes no rule twice (Neutron refuses a duplicate) and hands the
    rules back in key order. *)
Theorem Expand_correct {L : LabelsAPI}
    (cidr_contains : string → string → bool) (ns_labels : string → gmap string string)
    (rules : list Rule) :
  (∀ c a, cidr_contains c a = true → familyOfCIDR c = familyOfCIDR a) →
  Forall wf_rule rules → keys_agree rules →
  (∀ d t, upper_name (t_proto t) = true →
     ruleset_allows cidr_contains ns_labels (Expand rules) d t
     = rules_allow cidr_contains ns_labels rules d t) ∧
  NoDup (map sg_key (rs_Rules (Expand rules))) ∧
  StronglySorted sg_key_le (rs_Rules (Expand rules)).
Proof.
  intros Hfam Hwf Hag. split; [by intros; apply Expand_allows|].
  split; [apply Expand_keys_nodup|]. apply StronglySorted_merge_sort; apply _.
Qed.

(** [SelectorKey] gives two different peer sets one key when a pod selector
    prints as the word it uses for "no pod selector": the policy below allows
    every pod of the selected namespaces on 443, where it was written to allow
    only those carrying the label [all]. *)
Theorem SelectorKey_collision :
  ∃ (p : @NetworkPolicy ExistsLabels) (tr : @Translated ExistsLabels) (t : Traffic),
    valid_policy p ∧ Translate p = Ok tr ∧ Refused tr = [] ∧
    ruleset_allows (λ _ _, false) (λ _, {["team" := "x"]}) (PolicyRules tr) Ingress t = true ∧
    k8s_allows (λ _ _, false) (λ _, {["team" := "x"]}) (λ _ _, false) p Ingress t = false.
Proof.
  exists (@mkNetworkPolicy ExistsLabels "prod" "p" "" ["Ingress"]
    [@mkNPRule ExistsLabels [@mkNPPeer ExistsLabels (Some "all") (Some "team") None]
       [mkNPPort None (Some (mkIntOrString 0 443 "")) None];
     @mkNPRule ExistsLabels [@mkNPPeer ExistsLabels None (Some "team") None]
       [mkNPPort None (Some (mkIntOrString 0 80 "")) None]] []).
  eexists. exists (mkTraffic "10.0.0.7" (Some ("other", ∅)) "TCP" 443).
  split; [split; [done|repeat constructor; simpl; try done; intros; lia]|].
  split; [reflexivity|]. by vm_compute.
Qed.

(** ** Witnesses *)
Definition rs_policy : @NetworkPolicy ExistsLabels :=
  @mkNetworkPolicy ExistsLabels "prod" "allow-web" "" [PolicyTypeIngress]
    [@mkNPRule ExistsLabels
       [@mkNPPeer ExistsLabels (Some "web") None None;
        @mkNPPeer ExistsLabels None None (Some (mkIPBlock "10.0.0.7" []))]
       [mkNPPort None (Some (mkIntOrString 0 8080 "")) None]] [].
Definition rs_cidr (c a : string) : bool :=
  ex_cidr c a && bool_decide (familyOfCIDR c = familyOfCIDR a).
Definition rs_traffic : Traffic :=
  mkTraffic "10.0.0.8" (Some ("prod", {["web" := "1"]})) "TCP" 8080.

Lemma rs_cidr_family c a : rs_cidr c a = true → familyOfCIDR c = familyOfCIDR a.
Proof. unfold rs_cidr. rewrite andb_true_iff, bool_decide_eq_true. by intros []. Qed.

Lemma rs_cidr_all a : rs_cidr "0.0.0.0/0" a || rs_cidr "::/0" a = true.
Proof.
  unfold rs_cidr, ex_cidr, familyOfCIDR. simpl.
  by destruct (contains a ":").
Qed.

Lemma rs_api : api_policy rs_policy.
Proof.
  split; [split; [done|repeat constructor; simpl; try done; intros; lia]|].
  split; [done|]. by repeat constructor.
Qed.

Lemma rs_no_all : no_all_selector rs_policy.
Proof.
  repeat constructor; simpl; try done.
  intros _ l s [= <-] Hs. by injection Hs as <-.
Qed.

Lemma policy_never_wider_witness : ∃ tr,
  Translate rs_policy = Ok tr ∧ isolates tr Ingress = true ∧
  k8s_allows rs_cidr ex_ns_labels (λ _ _, false) rs_policy Ingress rs_traffic = true.
Proof.
  eexists. split; [reflexivity|].
  apply (@policy_never_wider ExistsLabels ExistsLabels_laws ExistsLabels_string_laws
    rs_cidr ex_ns_labels (λ _ _, false) rs_policy _ Ingress rs_traffic rs_cidr_family rs_api
    rs_no_all eq_refl eq_refl).
  by vm_compute.
Defined.

Lemma policy_exact_witness : ∃ tr,
  Translate rs_policy = Ok tr ∧
  ruleset_allows rs_cidr ex_ns_labels (PolicyRules tr) Ingress rs_traffic = true.
Proof.
  eexists. split; [reflexivity|].
  rewrite (@policy_exact ExistsLabels ExistsLabels_laws ExistsLabels_string_laws
    rs_cidr ex_ns_labels (λ _ _, false) rs_policy _ Ingress rs_traffic rs_cidr_family
    rs_cidr_all rs_api rs_no_all eq_refl eq_refl eq_refl).
  by vm_compute.
Defined.

Lemma Expand_correct_witness : ∃ tr,
  Translate rs_policy = Ok tr ∧ length (rs_Rules (Expand (Rules tr))) = 3 ∧
  NoDup (map sg_key (rs_Rules (Expand (Rules tr)))).
Proof.
  eexists. split; [reflexivity|]. split; [by vm_compute|].
  apply (@Expand_correct ExistsLabels rs_cidr ex_ns_labels).
  - exact rs_cidr_family.
  - by apply (@Translate_wf ExistsLabels ExistsLabels_laws ExistsLabels_string_laws rs_policy _ rs_api).
  - by apply (@Translate_keys_agree ExistsLabels ExistsLabels_laws ExistsLabels_string_laws rs_policy _ rs_api rs_no_all).
Defined.
