(* ===== verification/NetpolNeutron.v ===== *)
(** * pkg/netpol/neutron.go: security groups and address groups kept as asked

    [NeutronAPI] is the network service the source calls, [NeutronLaws] its
    documented behaviour over what can be observed of it ([NeutronState]),
    [RefNeutron] a concrete service the laws hold for.  The operations follow
    the source call by call; the theorems say what a successful pass leaves in
    Neutron and what no pass, failed or not, ever touches. *)

From S2P Require Import Prelude GoStd K8s NetpolTranslate NetpolRuleSet.

Local Open Scope string_scope.
Local Open Scope list_scope.

(** ** The service's objects (gophercloud) *)
Record RuleFields := mkRuleFields {
  rf_Direction : string;
  rf_EtherType : string;
  rf_Protocol : string;
  rf_PortRangeMin : Z;
  rf_PortRangeMax : Z;
  rf_RemoteIPPrefix : string;
  rf_RemoteGroupID : string;
  rf_RemoteAddressGroupID : string }.
#[export] Instance RuleFields_eq_dec : EqDecision RuleFields.
Proof. solve_decision. Defined.

Record SecGroupRule := mkSecGroupRule { sr_ID : string; sr_fields : RuleFields }.
Record RuleCreateOpts := mkRuleCreateOpts { co_SecGroupID : string; co_fields : RuleFields }.
Record SecGroup := mkSecGroup {
  gr_ID : string; gr_Name : string; gr_Description : string; gr_Rules : list SecGroupRule }.
Record AddressGroup := mkAddressGroup { ag_ID : string; ag_Name : string }.
Record NeutronPort := mkNeutronPort { np_ID : string; np_SecurityGroups : list string }.

Class NeutronAPI (W : Type) := {
  groups_List : option string → M W (list SecGroup);
  groups_Create : string → string → M W string;
  groups_Update : string → string → M W ();
  groups_Delete : string → M W ();
  rules_List : string → M W (list SecGroupRule);
  rules_Create : RuleCreateOpts → M W ();
  rules_Delete : string → M W ();
  addr_List : option string → M W (list AddressGroup);
  addr_Create : string → string → M W string;
  addr_Get : string → M W (list string);
  addr_Add : string → list string → M W ();
  addr_Remove : string → list string → M W ();
  addr_Delete : string → M W ();
  ports_List : string → M W (list NeutronPort);
  ports_Get : string → M W NeutronPort;
  ports_Update : string → list string → M W ();
}.

(** ** Constants *)
Definition AllowIngress : string := "knp-allow-ingress".
Definition AllowEgress : string := "knp-allow-egress".
Definition DenyAll : string := "knp-deny-all".
Definition managedBy : string := "kubezun-networkpolicy".
Definition EtherType4 : string := "IPv4".
Definition EtherType6 : string := "IPv6".

(** ** Reading errors *)
Definition isConflict (e : gerror) : bool :=
  match root_cause e with
  | ErrResponse code body =>
      if decide (code = 409%Z) then true
      else if decide (code = 400%Z) then
        contains body "AddressesAlreadyExist" || contains body "AddressesNotFound"
        || contains body "already exists"
      else false
  | _ => false
  end.

Definition isGone (e : gerror) : bool :=
  match root_cause e with
  | ErrResponse code _ => bool_decide (code = 404%Z)
  | _ => false
  end.

(** ** Comparing rules and addresses *)
Definition hasRule (have : list SecGroupRule) (want : RuleFields) : bool :=
  existsb (λ r : SecGroupRule,
    let r := sr_fields r in
    bool_decide (rf_Direction r = rf_Direction want)
    && bool_decide (rf_EtherType r = rf_EtherType want)
    && bool_decide (rf_Protocol r = rf_Protocol want)
    && bool_decide (rf_PortRangeMin r = rf_PortRangeMin want)
    && bool_decide (rf_PortRangeMax r = rf_PortRangeMax want)
    && bool_decide (rf_RemoteIPPrefix r = rf_RemoteIPPrefix want)
    && bool_decide (rf_RemoteGroupID r = rf_RemoteGroupID want)
    && bool_decide (rf_RemoteAddressGroupID r = rf_RemoteAddressGroupID want)) have.

Definition wantsRule (want : list RuleFields) (have : SecGroupRule) : bool :=
  existsb (λ w, hasRule [have] w) want.

Definition normalizeCIDR (a : string) : string :=
  let a := trim_space a in
  if bool_decide (a = "") || contains a "/" then a
  else if contains a ":" then a +:+ "/128" else a +:+ "/32".

(** The two map walks only collect, and what they collect is sorted. *)
Definition diffAddresses (have want : list string) : list string * list string :=
  let h : gset string := list_to_set (map normalizeCIDR have) in
  let w : gset string := list_to_set (map normalizeCIDR want) in
  (sort_strings (elements (w ∖ h)), sort_strings (elements (h ∖ w))).

(** ** Which policy a group was made for *)
Definition policy_prefix : string := "kubezun: what NetworkPolicy ".
Definition policy_suffix : string := " allows".
Definition policyOf (description : string) : string :=
  if negb (has_prefix description policy_prefix) || negb (has_suffix description policy_suffix)
  then ""
  else trim_suffix (trim_prefix description policy_prefix) policy_suffix.

(** ** The operations *)
Section operations.
Context {W : Type} `{!NeutronAPI W}.

(** [""] is "the project has none by that name". *)
Definition findGroup (name : string) : M W (string * string) :=
  list ← wrap ("looking for security group " +:+ name) (groups_List (Some name));
  match list with
  | g :: _ => mret (gr_ID g, gr_Description g)
  | [] => mret ("", "")
  end.

Definition ensureGroup (name description : string) : M W string :=
  '(found, have) ← findGroup name;
  if decide (found ≠ "") then
    (if decide (have ≠ description)
     then wrap ("correcting the description of " +:+ name) (groups_Update found description)
     else mret ()) ≫= λ _, mret found
  else wrap ("creating security group " +:+ name)
         (groups_Create name (description +:+ " [" +:+ managedBy +:+ "]")).

Definition rulesOf (groupID : string) : M W (list SecGroupRule) := rules_List groupID.

Definition baseline_wants (direction : string) : list RuleFields :=
  [mkRuleFields direction EtherType4 "" 0 0 "0.0.0.0/0" "" "";
   mkRuleFields direction EtherType6 "" 0 0 "::/0" "" ""].

Definition ensureBaselineRules (groupID direction : string) : M W () :=
  have ← rulesOf groupID;
  for_each (baseline_wants direction) (λ w,
    if hasRule have w then mret ()
    else wrap ("opening " +:+ direction +:+ " on " +:+ groupID)
           (ignoring isConflict (rules_Create (mkRuleCreateOpts groupID w)))) ≫= λ _,
  for_each have (λ r,
    if bool_decide (rf_Direction (sr_fields r) = direction) then mret ()
    else wrap ("removing a " +:+ rf_Direction (sr_fields r) +:+ " rule from the "
               +:+ direction +:+ " group")
           (ignoring isGone (rules_Delete (sr_ID r)))).

Definition EnsureDenyAll : M W string :=
  id ← ensureGroup DenyAll
         "kubezun: allows nothing; carried so a port's group list is never empty";
  have ← rulesOf id;
  for_each have (λ r,
    wrap "emptying the deny-all group" (ignoring isGone (rules_Delete (sr_ID r)))) ≫= λ _,
  mret id.

Definition EnsureBaseline : M W (string * string) :=
  EnsureDenyAll ≫= λ _,
  ingressID ← ensureGroup AllowIngress "kubezun: a pod no policy has isolated for ingress";
  egressID ← ensureGroup AllowEgress "kubezun: a pod no policy has isolated for egress";
  ensureBaselineRules ingressID "ingress" ≫= λ _,
  ensureBaselineRules egressID "egress" ≫= λ _,
  mret (ingressID, egressID).

(** One [want]: the rule as Neutron takes it, its peer set resolved to an id. *)
Definition rule_opts (peers : gmap string string) (r : SGRule) : result RuleFields :=
  let opts := mkRuleFields (dir_string (sg_Direction r)) (sg_EtherType r) (sg_Protocol r)
                (sg_PortMin r) (sg_PortMax r) in
  if decide (sg_RemoteCIDR r ≠ "") then Ok (opts (sg_RemoteCIDR r) "" "")
  else if decide (sg_RemoteAddressGroup r ≠ "") then
    let gid := opt_or "" (peers !! sg_RemoteAddressGroup r) in
    if decide (gid = "")
    then Err (ErrMsg ("the peer set " +:+ go_quote (sg_RemoteAddressGroup r)
                      +:+ " has no address group yet"))
    else Ok (opts "" "" gid)
  else Ok (opts "" "" "").

Definition all_opts (peers : gmap string string) (rules : list SGRule)
    : result (list RuleFields) :=
  fold_result (λ want r, o ← rule_opts peers r; Ok (want ++ [o])) [] rules.

Definition EnsureRuleSet {L : LabelsAPI} (name policyRef : string) (set : RuleSet)
    (peers : gmap string string) : M W string :=
  id ← ensureGroup name (policy_prefix +:+ policyRef +:+ policy_suffix);
  have ← rulesOf id;
  want ← lift_result (all_opts peers (rs_Rules set));
  for_each want (λ w,
    if hasRule have w then mret ()
    else wrap ("writing a rule into " +:+ name)
           (ignoring isConflict (rules_Create (mkRuleCreateOpts id w)))) ≫= λ _,
  for_each have (λ h,
    if wantsRule want h then mret ()
    else wrap ("removing a stale rule from " +:+ name)
           (ignoring isGone (rules_Delete (sr_ID h)))) ≫= λ _,
  mret id.

(** [Sweep].  The count that comes back with an error is dropped: its only
    caller drops it too. *)
Definition sweep_doomed (live : string → bool) (serves : string → bool) (g : SecGroup) : bool :=
  has_prefix (gr_Name g) "knp-policy-" &&
  (let ref := policyOf (gr_Description g) in
   negb (bool_decide (ref = "")) &&
   match cut ref "/" with
   | None => false
   | Some (namespace, _) => serves namespace && negb (live ref)
   end).

Definition doomed_ids (live serves : string → bool) (all : list SecGroup) : gset string :=
  list_to_set (map gr_ID (filter (λ g, sweep_doomed live serves g = true) all)).

Definition referenced_ids (doomed : gset string) (all : list SecGroup) : gset string :=
  list_to_set (flat_map (λ g,
    if has_prefix (gr_Name g) "knp-policy-" && negb (bool_decide (gr_ID g ∈ doomed))
    then filter (λ id, id ≠ "") (map (λ r, rf_RemoteAddressGroupID (sr_fields r)) (gr_Rules g))
    else []) all).

Definition delete_counting (msg : string) (m : M W ()) (removed : nat) : M W nat :=
  r ← try m;
  match r with
  | Ok _ => mret (S removed)
  | Err e => if isConflict e || isGone e then mret removed else fail (ErrWrap msg e)
  end.

Definition Sweep (live serves : string → bool) : M W nat :=
  all ← wrap "listing security groups" (groups_List None);
  let doomed := doomed_ids live serves all in
  let referenced := referenced_ids doomed all in
  removed ← fold_each (λ removed g,
    if decide (gr_ID g ∈ doomed)
    then delete_counting ("removing " +:+ gr_Name g) (groups_Delete (gr_ID g)) removed
    else mret removed) 0 all;
  peers ← wrap "listing address groups" (addr_List None);
  fold_each (λ removed p,
    if has_prefix (ag_Name p) "knp-peers-" && negb (bool_decide (ag_ID p ∈ referenced))
    then delete_counting ("removing peer set " +:+ ag_Name p) (addr_Delete (ag_ID p)) removed
    else mret removed) removed peers.

Definition EnsureAddressGroup (name : string) : M W string :=
  list ← wrap ("looking for address group " +:+ name) (addr_List (Some name));
  let found := match list with g :: _ => ag_ID g | [] => "" end in
  if decide (found ≠ "") then mret found
  else
    id ← wrap ("creating address group " +:+ name) (addr_Create name managedBy);
    if decide (id = "")
    then fail (ErrMsg ("creating address group " +:+ name +:+ ": no id was returned"))
    else mret id.

Definition SyncAddresses (groupID : string) (want : list string) : M W () :=
  current ← wrap ("reading address group " +:+ groupID) (addr_Get groupID);
  let '(add, remove) := diffAddresses current want in
  (if decide (add ≠ [])
   then wrap ("adding " +:+ pretty (length add) +:+ " addresses to " +:+ groupID)
          (ignoring isConflict (addr_Add groupID add))
   else mret ()) ≫= λ _,
  (if decide (remove ≠ [])
   then wrap ("removing " +:+ pretty (length remove) +:+ " addresses from " +:+ groupID)
          (ignoring isConflict (addr_Remove groupID remove))
   else mret ()).
End operations.

(** ** What can be observed of the service, and its documented behaviour *)
Record NeutronState := mkNeutronState {
  ns_groups : gmap string (string * string);          (* id -> name, description *)
  ns_rules : gmap string (string * RuleFields);       (* rule id -> group id, rule *)
  ns_addrs : gmap string (string * gset string);      (* id -> name, CIDRs *)
  ns_ports : gmap string (string * list string) }.    (* id -> device owner, groups *)

Definition set_groups (f : gmap string (string * string) → gmap string (string * string))
    (s : NeutronState) : NeutronState :=
  mkNeutronState (f (ns_groups s)) (ns_rules s) (ns_addrs s) (ns_ports s).
Definition set_rules (f : gmap string (string * RuleFields) → gmap string (string * RuleFields))
    (s : NeutronState) : NeutronState :=
  mkNeutronState (ns_groups s) (f (ns_rules s)) (ns_addrs s) (ns_ports s).
Definition set_addrs (f : gmap string (string * gset string) → gmap string (string * gset string))
    (s : NeutronState) : NeutronState :=
  mkNeutronState (ns_groups s) (ns_rules s) (f (ns_addrs s)) (ns_ports s).
Definition set_ports (f : gmap string (string * list string) → gmap string (string * list string))
    (s : NeutronState) : NeutronState :=
  mkNeutronState (ns_groups s) (ns_rules s) (ns_addrs s) (f (ns_ports s)).

(** Neutron reads a rule with no remote prefix as the same rule as one naming
    the whole address space (ensureBaselineRules says so). *)
Definition rule_norm (f : RuleFields) : RuleFields :=
  let p := rf_RemoteIPPrefix f in
  mkRuleFields (rf_Direction f) (rf_EtherType f) (rf_Protocol f) (rf_PortRangeMin f)
    (rf_PortRangeMax f)
    (if decide ((rf_EtherType f = EtherType4 ∧ p = "0.0.0.0/0") ∨
                (rf_EtherType f = EtherType6 ∧ p = "::/0")) then "" else p)
    (rf_RemoteGroupID f) (rf_RemoteAddressGroupID f).

(** The two egress rules Neutron adds to every group it creates. *)
Definition default_rule (ether : string) : RuleFields :=
  mkRuleFields "egress" ether "" 0 0 "" "" "".

Definition group_has (s : NeutronState) (gid : string) (f : RuleFields) : Prop :=
  ∃ rid, ns_rules s !! rid = Some (gid, f).

(** The effect of a call that took place. *)
Definition group_created (name description : string) (s : NeutronState) (id : string)
    (s' : NeutronState) : Prop :=
  id ≠ "" ∧ ns_groups s !! id = None ∧
  (∀ f, ¬ group_has s id f) ∧
  ∃ r4 r6, r4 ≠ r6 ∧ ns_rules s !! r4 = None ∧ ns_rules s !! r6 = None ∧
    s' = set_groups (<[id := (name, description)]>)
           (set_rules (λ m, <[r4 := (id, default_rule EtherType4)]>
                            (<[r6 := (id, default_rule EtherType6)]> m)) s).

Definition group_described (id description : string) (s s' : NeutronState) : Prop :=
  s' = set_groups (alter (λ nd, (nd.1, description)) id) s.

Definition group_deleted (id : string) (s s' : NeutronState) : Prop :=
  s' = set_groups (delete id) (set_rules (filter (λ kv, kv.2.1 ≠ id)) s).

Definition rule_created (o : RuleCreateOpts) (s s' : NeutronState) : Prop :=
  ∃ rid, ns_rules s !! rid = None ∧
    s' = set_rules (<[rid := (co_SecGroupID o, co_fields o)]>) s.

Definition rule_clash (o : RuleCreateOpts) (s : NeutronState) : Prop :=
  ∃ f, group_has s (co_SecGroupID o) f ∧ rule_norm f = rule_norm (co_fields o).

Definition rule_deleted (rid : string) (s s' : NeutronState) : Prop :=
  s' = set_rules (delete rid) s.

Definition addr_created (name : string) (s : NeutronState) (id : string) (s' : NeutronState)
    : Prop :=
  ns_addrs s !! id = None ∧ s' = set_addrs (<[id := (name, ∅)]>) s.

Definition addr_changed (f : gset string → gset string) (id : string) (s s' : NeutronState)
    : Prop :=
  s' = set_addrs (alter (λ na, (na.1, f na.2)) id) s.

(** A failure that answered "already so" or "not there" did not take place. *)

Class NeutronLaws (W : Type) `{!NeutronAPI W} (view : W → NeutronState) := {
  law_groups_List o s : runs view s (groups_List o)
    (λ l s', s' = s ∧
      (∀ g, g ∈ l → ns_groups s !! gr_ID g = Some (gr_Name g, gr_Description g) ∧ gr_ID g ≠ "" ∧
         (∀ r, r ∈ gr_Rules g ↔ ns_rules s !! sr_ID r = Some (gr_ID g, sr_fields r)) ∧
         (∀ n, o = Some n → gr_Name g = n)) ∧
      (∀ id n d, ns_groups s !! id = Some (n, d) → o = None ∨ o = Some n →
         ∃ g, g ∈ l ∧ gr_ID g = id))
    (λ _ s', s' = s);
  law_groups_Create n d s : runs view s (groups_Create n d)
    (λ id s', group_created n d s id s') (λ _ s', maybe s (λ s', ∃ id, group_created n d s id s') s');
  law_groups_Update id d s : runs view s (groups_Update id d)
    (λ _ s', group_described id d s s') (λ _ s', maybe s (group_described id d s) s');
  law_groups_Delete id s : runs view s (groups_Delete id)
    (λ _ s', group_deleted id s s') (λ _ s', maybe s (group_deleted id s) s');
  law_rules_List gid s : runs view s (rules_List gid)
    (λ l s', s' = s ∧ ∀ r, r ∈ l ↔ ns_rules s !! sr_ID r = Some (gid, sr_fields r))
    (λ _ s', s' = s);
  law_rules_Create o s : runs view s (rules_Create o)
    (λ _ s', rule_created o s s')
    (λ e s', maybe s (rule_created o s) s' ∧
             (isConflict e = true → s' = s ∧ rule_clash o s));
  law_rules_Delete rid s : runs view s (rules_Delete rid)
    (λ _ s', rule_deleted rid s s')
    (λ e s', maybe s (rule_deleted rid s) s' ∧
             (isGone e = true → s' = s ∧ ns_rules s !! rid = None));
  law_addr_List o s : runs view s (addr_List o)
    (λ l s', s' = s ∧
      (∀ g, g ∈ l → ∃ a, ns_addrs s !! ag_ID g = Some (ag_Name g, a) ∧ ag_ID g ≠ "" ∧
         (∀ n, o = Some n → ag_Name g = n)) ∧
      (∀ id n a, ns_addrs s !! id = Some (n, a) → o = None ∨ o = Some n →
         ∃ g, g ∈ l ∧ ag_ID g = id))
    (λ _ s', s' = s);
  law_addr_Create n d s : runs view s (addr_Create n d)
    (λ id s', addr_created n s id s') (λ _ s', maybe s (λ s', ∃ id, addr_created n s id s') s');
  law_addr_Get id s : runs view s (addr_Get id)
    (λ l s', s' = s ∧ ∃ n a, ns_addrs s !! id = Some (n, a) ∧ ∀ x, x ∈ l ↔ x ∈ a)
    (λ _ s', s' = s);
  law_addr_Add id l s : runs view s (addr_Add id l)
    (λ _ s', addr_changed (λ a, a ∪ list_to_set (map normalizeCIDR l)) id s s')
    (λ e s', maybe s (addr_changed (λ a, a ∪ list_to_set (map normalizeCIDR l)) id s) s' ∧
       (isConflict e = true → s' = s ∧
          ∃ n a x, ns_addrs s !! id = Some (n, a) ∧ x ∈ l ∧ normalizeCIDR x ∈ a));
  law_addr_Remove id l s : runs view s (addr_Remove id l)
    (λ _ s', addr_changed (λ a, a ∖ list_to_set (map normalizeCIDR l)) id s s')
    (λ e s', maybe s (addr_changed (λ a, a ∖ list_to_set (map normalizeCIDR l)) id s) s' ∧
       (isConflict e = true → s' = s ∧
          ∃ n a x, ns_addrs s !! id = Some (n, a) ∧ x ∈ l ∧ normalizeCIDR x ∉ a));
  law_addr_Delete id s : runs view s (addr_Delete id)
    (λ _ s', s' = set_addrs (delete id) s) (λ _ s', maybe s (λ s', s' = set_addrs (delete id) s) s');
  law_ports_List owner s : runs view s (ports_List owner)
    (λ l s', s' = s ∧ NoDup (map np_ID l) ∧ ∀ p, p ∈ l ↔
       ns_ports s !! np_ID p = Some (owner, np_SecurityGroups p))
    (λ _ s', s' = s);
  law_ports_Get id s : runs view s (ports_Get id)
    (λ p s', s' = s ∧ ∃ o, ns_ports s !! id = Some (o, np_SecurityGroups p))
    (λ _ s', s' = s);
  law_ports_Update id l s : runs view s (ports_Update id l)
    (λ _ s', s' = set_ports (alter (λ p, (p.1, l)) id) s)
    (λ _ s', maybe s (λ s', s' = set_ports (alter (λ p, (p.1, l)) id) s) s');
}.

(** Addresses are stored as CIDRs. *)
Definition addrs_stored (s : NeutronState) : Prop :=
  ∀ id n a x, ns_addrs s !! id = Some (n, a) → x ∈ a → normalizeCIDR x = x.

(** ** Lemmas: rules, strings *)
Lemma hasRule_spec have w : hasRule have w = true ↔ ∃ r, r ∈ have ∧ sr_fields r = w.
Proof.
  unfold hasRule. rewrite existsb_In. setoid_rewrite andb_true_iff.
  repeat setoid_rewrite andb_true_iff. repeat setoid_rewrite bool_decide_eq_true.
  split; intros (r & Hr & H); exists r; (split; [done|]).
  - destruct (sr_fields r), w; simpl in *; naive_solver.
  - by subst.
Qed.

Lemma wantsRule_spec want h : wantsRule want h = true ↔ sr_fields h ∈ want.
Proof.
  unfold wantsRule. rewrite existsb_In. setoid_rewrite hasRule_spec.
  setoid_rewrite list_elem_of_singleton. naive_solver.
Qed.

Lemma contains_app_r a b sub : contains b sub = true → contains (a +:+ b) sub = true.
Proof.
  intros Hb. induction a as [|c a IH]; [done|].
  change (String c a +:+ b) with (String c (a +:+ b)). simpl.
  by rewrite IH, orb_true_r.
Qed.

(** The form Neutron stores is a fixed point, so a second pass over what the
    first one wrote finds nothing to do. *)
Lemma normalizeCIDR_idemp a : normalizeCIDR (normalizeCIDR a) = normalizeCIDR a.
Proof.
  unfold normalizeCIDR at 2 3. destruct (bool_decide (trim_space a = "")) eqn:He; simpl.
  { apply bool_decide_eq_true in He. by rewrite He. }
  apply bool_decide_eq_false in He.
  destruct (contains (trim_space a) "/") eqn:Hs; simpl.
  { unfold normalizeCIDR. by rewrite trim_space_idemp, Hs, orb_true_r. }
  destruct (contains (trim_space a) ":"); unfold normalizeCIDR;
    rewrite trim_space_app by done; by rewrite contains_app_r, orb_true_r.
Qed.

Lemma map_normalize_id l : Forall (λ x, normalizeCIDR x = x) l → map normalizeCIDR l = l.
Proof. induction 1; simpl; congruence. Qed.

Lemma diffAddresses_spec have want add remove :
  diffAddresses have want = (add, remove) →
  (∀ x, x ∈ add ↔ x ∈ map normalizeCIDR want ∧ x ∉ map normalizeCIDR have) ∧
  (∀ x, x ∈ remove ↔ x ∈ map normalizeCIDR have ∧ x ∉ map normalizeCIDR want) ∧
  map normalizeCIDR add = add ∧ map normalizeCIDR remove = remove.
Proof.
  unfold diffAddresses. intros [= <- <-].
  assert (∀ l x, x ∈ map normalizeCIDR l → normalizeCIDR x = x) as Hn.
  { intros l x Hx. apply list_elem_of_fmap in Hx as (y & -> & _). apply normalizeCIDR_idemp. }
  repeat setoid_rewrite elem_of_sort_strings. repeat setoid_rewrite elem_of_elements.
  repeat setoid_rewrite elem_of_difference. repeat setoid_rewrite elem_of_list_to_set.
  repeat split; try naive_solver; apply map_normalize_id, Forall_forall; intros x;
    rewrite elem_of_sort_strings, elem_of_elements, elem_of_difference, !elem_of_list_to_set;
    naive_solver.
Qed.

(** [policyOf] reads back what [EnsureRuleSet] writes. *)
Lemma policyOf_written ref : policyOf (policy_prefix +:+ ref +:+ policy_suffix) = ref.
Proof.
  unfold policyOf. rewrite has_prefix_app. rewrite <-string_app_assoc, has_suffix_app. simpl.
  by rewrite string_app_assoc, trim_prefix_app, trim_suffix_app.
Qed.

(** ** Frames *)
Definition others_same (gid : string) (s s' : NeutronState) : Prop :=
  (∀ rid x, x.1 ≠ gid → ns_rules s' !! rid = Some x ↔ ns_rules s !! rid = Some x) ∧
  ns_groups s' = ns_groups s ∧ ns_addrs s' = ns_addrs s ∧ ns_ports s' = ns_ports s.

#[export] Instance others_same_preorder gid : PreOrder (others_same gid).
Proof.
  split; [done|]. intros s1 s2 s3 (Hr1 & Hg1 & Ha1 & Hp1) (Hr2 & Hg2 & Ha2 & Hp2).
  split; [|by rewrite Hg2, Ha2, Hp2]. intros rid x Hx. by rewrite Hr2, Hr1.
Qed.

(** Only the group called [name] may have changed. *)
Definition only_touches (name : string) (s s' : NeutronState) : Prop :=
  (∀ gid n d, ns_groups s !! gid = Some (n, d) → n ≠ name →
     ns_groups s' !! gid = Some (n, d) ∧
     ∀ rid f, ns_rules s' !! rid = Some (gid, f) ↔ ns_rules s !! rid = Some (gid, f)) ∧
  ns_addrs s' = ns_addrs s ∧ ns_ports s' = ns_ports s.

#[export] Instance only_touches_preorder name : PreOrder (only_touches name).
Proof.
  split; [by intros s; split; [naive_solver|]|].
  intros s1 s2 s3 (H1 & Ha1 & Hp1) (H2 & Ha2 & Hp2).
  split; [|by rewrite Ha2, Ha1, Hp2, Hp1].
  intros gid n d Hg Hn. destruct (H1 gid n d Hg Hn) as [Hg' Hr].
  destruct (H2 gid n d Hg' Hn) as [Hg'' Hr']. split; [done|].
  intros rid f. by rewrite Hr', Hr.
Qed.

Lemma others_same_touches gid name d s s' :
  ns_groups s !! gid = Some (name, d) → others_same gid s s' → only_touches name s s'.
Proof.
  intros Hg (Hr & Hgs & Ha & Hp). split; [|done]. intros gid' n d' Hg' Hn.
  rewrite Hgs. split; [done|]. intros rid f. apply Hr. simpl. congruence.
Qed.

Lemma group_has_others gid gid' s s' f :
  others_same gid s s' → gid' ≠ gid → group_has s' gid' f ↔ group_has s gid' f.
Proof. intros (Hr & _) Hne. unfold group_has. by setoid_rewrite Hr. Qed.

Lemma rule_created_others gid f s s' :
  rule_created (mkRuleCreateOpts gid f) s s' → others_same gid s s'.
Proof.
  intros (rid & Hrid & ->). split; [|done]. intros rid' x Hx. simpl.
  destruct (decide (rid = rid')) as [<-|]; [|by rewrite lookup_insert_ne].
  rewrite lookup_insert_eq, Hrid. split; [by intros [= <-]|done].
Qed.

Lemma rule_deleted_others gid rid s s' :
  (∀ x, ns_rules s !! rid = Some x → x.1 = gid) → rule_deleted rid s s' → others_same gid s s'.
Proof.
  intros Hrid ->. split; [|done]. intros rid' x Hx. simpl.
  rewrite lookup_delete_Some. naive_solver.
Qed.

Definition grown (gid : string) (want : list RuleFields) (s s' : NeutronState) : Prop :=
  others_same gid s s' ∧
  (∀ rid x, ns_rules s !! rid = Some x → ns_rules s' !! rid = Some x) ∧
  (∀ rid g f, ns_rules s' !! rid = Some (g, f) →
     ns_rules s !! rid = Some (g, f) ∨ (g = gid ∧ f ∈ want)).

#[export] Instance grown_preorder gid want : PreOrder (grown gid want).
Proof.
  split; [by intros s; split; [|naive_solver]|].
  intros s1 s2 s3 (Ho1 & Hm1 & Hn1) (Ho2 & Hm2 & Hn2).
  split; [by transitivity s2|]. split; [by auto|].
  intros rid g f Hf. destruct (Hn2 _ _ _ Hf) as [Hf'|]; [|by right]. by apply Hn1.
Qed.

Lemma rule_created_grown gid want f s s' :
  f ∈ want → rule_created (mkRuleCreateOpts gid f) s s' → grown gid want s s'.
Proof.
  intros Hf Hc. split; [by eapply rule_created_others|].
  destruct Hc as (rid & Hrid & ->). simpl. split.
  - intros rid' x Hx. rewrite lookup_insert_ne; [done|congruence].
  - intros rid' g f'. rewrite lookup_insert_Some. naive_solver.
Qed.

Lemma rule_created_has gid f s s' :
  rule_created (mkRuleCreateOpts gid f) s s' → group_has s' gid f.
Proof. intros (rid & _ & ->). exists rid. simpl. by rewrite lookup_insert_eq. Qed.

Lemma grown_has gid want s s' g f : grown gid want s s' → group_has s g f → group_has s' g f.
Proof. intros (_ & Hm & _) [rid Hr]. exists rid. by apply Hm. Qed.

(** A wanted rule is there, or one Neutron reads as the same. *)
Definition covered (s : NeutronState) (gid : string) (w : RuleFields) : Prop :=
  ∃ f, group_has s gid f ∧ rule_norm f = rule_norm w.

Lemma covered_grown gid want s s' w : grown gid want s s' → covered s gid w → covered s' gid w.
Proof. intros Hg (f & Hf & He). exists f. by eauto using grown_has. Qed.

(** ** The two loops every writer is made of *)
Section loops.
Context {W : Type} `{!NeutronAPI W} (view : W → NeutronState) `{!NeutronLaws W view}.

Lemma create_runs gid w msg want s :
  w ∈ want →
  runs view s (wrap msg (ignoring isConflict (rules_Create (mkRuleCreateOpts gid w))))
    (λ _ s', grown gid want s s' ∧ covered s' gid w) (λ _ s', grown gid want s s').
Proof.
  intros Hw. apply runs_wrap, runs_ignoring.
  by_law law_rules_Create.
  - intros u s' Hc. split; [by eapply rule_created_grown|].
    exists w. split; [by eapply rule_created_has|done].
  - intros e s' [Hm Hc]. destruct (isConflict e) eqn:He.
    + destruct (Hc eq_refl) as [-> (f & Hf & Hn)]. split; [done|]. by exists f.
    + destruct Hm as [->|Hm]; [done|]. by eapply rule_created_grown.
Qed.

Lemma add_loop_runs gid have want msg s :
  (∀ r, r ∈ have → group_has s gid (sr_fields r)) →
  runs view s
    (for_each want (λ w, if hasRule have w then mret ()
       else wrap msg (ignoring isConflict (rules_Create (mkRuleCreateOpts gid w)))))
    (λ _ s', grown gid want s s' ∧ ∀ w, w ∈ want → covered s' gid w)
    (λ _ s', grown gid want s s').
Proof.
  intros Hhave.
  apply (runs_for_each view (λ pre s', grown gid want s s' ∧ ∀ w, w ∈ pre → covered s' gid w)).
  { split; [done|]. by intros w ?%elem_of_nil. }
  intros pre w post s1 -> [Hg Hpre].
  assert (∀ s2, grown gid (pre ++ w :: post) s1 s2 → covered s2 gid w →
    grown gid (pre ++ w :: post) s s2 ∧ ∀ w', w' ∈ pre ++ [w] → covered s2 gid w') as Hstep.
  { intros s2 Hg2 Hc. split; [by transitivity s1|]. intros w' [Hw'| ->%list_elem_of_singleton]%elem_of_app;
      [|done]. by eapply covered_grown; [|apply Hpre]. }
  destruct (hasRule have w) eqn:Hh.
  - apply runs_ret. apply Hstep; [done|]. apply hasRule_spec in Hh as (r & Hr & <-).
    exists (sr_fields r). split; [|done]. eapply grown_has; [exact Hg|by apply Hhave].
  - by_law (create_runs gid w msg (pre ++ w :: post)).
    + set_solver.
    + intros u s2 [Hg2 Hc]. by apply Hstep.
    + intros u s2 Hg2. simpl. by transitivity s1.
Qed.

(** [pruned]: what the second loop took away so far. *)
Definition pruned (gid : string) (bad : SecGroupRule → bool) (done : list SecGroupRule)
    (s s' : NeutronState) : Prop :=
  others_same gid s s' ∧
  ∀ rid x, ns_rules s' !! rid = Some x ↔
    ns_rules s !! rid = Some x ∧ ∀ h, h ∈ done → bad h = true → sr_ID h ≠ rid.

Lemma pruned_step gid bad pre h s s1 s2 :
  pruned gid bad pre s s1 →
  ns_rules s !! sr_ID h = Some (gid, sr_fields h) →
  (s2 = s1 ∧ (bad h = true → ns_rules s1 !! sr_ID h = None)) ∨
    (bad h = true ∧ rule_deleted (sr_ID h) s1 s2) →
  pruned gid bad (pre ++ [h]) s s2.
Proof.
  intros [Ho Hr] Hh Hs. split.
  - transitivity s1; [done|]. destruct Hs as [[-> _]|[_ Hd]]; [done|].
    eapply rule_deleted_others; [|exact Hd]. intros x Hx. apply Hr in Hx as [Hx _].
    rewrite Hh in Hx. by injection Hx as <-.
  - intros rid x. setoid_rewrite elem_of_app. setoid_rewrite list_elem_of_singleton.
    destruct Hs as [[-> Hnone]|[Hb ->]].
    + rewrite Hr. split; [|naive_solver]. intros [Hx Hpre]. split; [done|].
      intros h' [?| ->] Hb; [by auto|]. intros <-. specialize (Hnone Hb).
      assert (ns_rules s1 !! sr_ID h = Some x) as Hc by (by apply Hr). congruence.
    + simpl. rewrite lookup_delete_Some, Hr. naive_solver.
Qed.

Lemma prune_loop_runs gid (keep : SecGroupRule → bool) have msg s :
  (∀ r, r ∈ have → ns_rules s !! sr_ID r = Some (gid, sr_fields r)) →
  runs view s
    (for_each have (λ h, if keep h then mret ()
       else wrap (msg h) (ignoring isGone (rules_Delete (sr_ID h)))))
    (λ _ s', pruned gid (λ h, negb (keep h)) have s s')
    (λ _ s', others_same gid s s').
Proof.
  intros Hhave. apply (runs_for_each view (λ pre s', pruned gid (λ h, negb (keep h)) pre s s')).
  { split; [done|]. intros rid x. set_solver. }
  intros pre h post s1 -> Hp.
  assert (ns_rules s !! sr_ID h = Some (gid, sr_fields h)) as Hh by (apply Hhave; set_solver).
  destruct (keep h) eqn:Hk.
  { apply runs_ret. eapply pruned_step; [done|done|left]. by rewrite Hk. }
  apply runs_wrap, runs_ignoring. by_law law_rules_Delete.
  - intros u s2 Hd. eapply pruned_step; [done|done|right]. by rewrite Hk.
  - intros e s2 [Hm Hg]. destruct (isGone e) eqn:He.
    + destruct (Hg eq_refl) as [-> Hn]. by eapply pruned_step; [done|done|left].
    + destruct Hm as [->|Hd]; [apply Hp|].
      eapply (pruned_step gid (λ h, negb (keep h)) pre h s s1 s2) in Hp; [apply Hp|done|right].
      by rewrite Hk.
Qed.
End loops.

(** ** The operations on security groups *)
Definition created_description (description : string) : string :=
  description +:+ " [" +:+ managedBy +:+ "]".

(** What [ensureGroup] leaves: a group of that name, either the one that was
    there, its rules untouched and its description corrected, or a new one with
    the rules Neutron puts into every new group. *)
Definition group_ready (name description id : string) (s s' : NeutronState) : Prop :=
  id ≠ "" ∧ only_touches name s s' ∧
  (((∃ d, ns_groups s !! id = Some (name, d)) ∧
    ns_groups s' = <[id := (name, description)]> (ns_groups s) ∧ ns_rules s' = ns_rules s) ∨
   (∀ i d, ns_groups s !! i ≠ Some (name, d)) ∧ ns_groups s !! id = None ∧
    ns_groups s' = <[id := (name, created_description description)]> (ns_groups s) ∧
    (∀ f, group_has s' id f ↔ f = default_rule EtherType4 ∨ f = default_rule EtherType6)).

Lemma group_ready_named name d id s s' :
  group_ready name d id s s' → ∃ d', ns_groups s' !! id = Some (name, d').
Proof.
  intros (_ & _ & [(_ & -> & _)|(_ & _ & -> & _)]); rewrite lookup_insert_eq; eauto.
Qed.

Section group_ops.
Context {W : Type} `{!NeutronAPI W} (view : W → NeutronState) `{!NeutronLaws W view}.

Lemma group_created_touches name d s id s' :
  group_created name d s id s' → only_touches name s s'.
Proof.
  intros (_ & Hnone & Hno & r4 & r6 & Hne & H4 & H6 & ->). split; [|done]. simpl.
  intros gid n d' Hg Hn. split; [rewrite lookup_insert_ne; [done|congruence]|].
  intros rid f. rewrite !lookup_insert_Some.
  assert (gid ≠ id) by congruence. split; [|naive_solver].
  intros [[_ [= -> _]]|[_ [[_ [= -> _]]|[_ Hr]]]]; done.
Qed.

Lemma group_created_has name d s id s' f :
  group_created name d s id s' →
  group_has s' id f ↔ f = default_rule EtherType4 ∨ f = default_rule EtherType6.
Proof.
  intros (_ & Hnone & Hno & r4 & r6 & Hne & H4 & H6 & ->). unfold group_has. simpl. split.
  - intros (rid & Hr). rewrite !lookup_insert_Some in Hr.
    destruct Hr as [[_ [= <-]]|[_ [[_ [= <-]]|[_ Hr]]]]; [by left|by right|].
    destruct (Hno f). by exists rid.
  - intros [->| ->]; [exists r4; by rewrite lookup_insert_eq|].
    exists r6. by rewrite lookup_insert_ne, lookup_insert_eq.
Qed.

Lemma group_described_touches name id d0 d s s' :
  ns_groups s !! id = Some (name, d0) → group_described id d s s' →
  only_touches name s s' ∧ ns_groups s' = <[id := (name, d)]> (ns_groups s) ∧
  ns_rules s' = ns_rules s.
Proof.
  intros Hid ->. split; [|split; [|done]].
  - split; [|done]. simpl. intros gid n d' Hg Hn. split; [|done].
    rewrite lookup_alter_ne; [done|congruence].
  - simpl. apply map_eq. intros i. destruct (decide (i = id)) as [->|].
    + by rewrite lookup_alter_eq, lookup_insert_eq, Hid.
    + by rewrite lookup_alter_ne, lookup_insert_ne.
Qed.

Lemma findGroup_runs name s :
  runs view s (findGroup name)
    (λ r s', s' = s ∧
      if decide (r.1 = "") then ∀ i d, ns_groups s !! i ≠ Some (name, d)
      else ns_groups s !! r.1 = Some (name, r.2))
    (λ _ s', s' = s).
Proof.
  unfold findGroup. step_wrap law_groups_List; [by intros|].
  intros l s' (-> & Hl & Hall). destruct l as [|g l]; apply runs_ret; (split; [done|]).
  - simpl. intros i d Hi. destruct (Hall i name d Hi) as (g & Hg & _); [by right|].
    by apply elem_of_nil in Hg.
  - destruct (Hl g) as (Hg & Hne & _ & Hname); [by left|]. simpl.
    rewrite decide_False by done. by rewrite Hg, (Hname name eq_refl).
Qed.

Lemma ensureGroup_runs name description s :
  runs view s (ensureGroup name description)
    (λ id s', group_ready name description id s s') (λ _ s', only_touches name s s').
Proof.
  unfold ensureGroup. step_law findGroup_runs; [by intros _ s' ->|].
  intros [found have] s' [-> Hf]. simpl in Hf.
  destruct (decide (found = "")) as [->|Hne].
  { rewrite decide_False by naive_solver. apply runs_wrap. by_law law_groups_Create.
    - intros id s' Hc. pose proof Hc as (Hid & Hnone & _ & r4 & r6 & _ & _ & _ & Hs).
      split; [done|]. split; [by eapply group_created_touches|right].
      split; [done|]. split; [done|]. split; [by rewrite Hs|].
      intros f. by eapply group_created_has.
    - intros e s' [->|[id Hc]]; [done|]. by eapply group_created_touches. }
  rewrite decide_True by done.
  eapply runs_bind with (R := λ _ s', group_ready name description found s s')
      (E' := λ _ s', only_touches name s s'); [|done|intros u s' Hr; by apply runs_ret].
  case_decide as Hd.
  - apply runs_wrap. by_law law_groups_Update.
    + intros u s' Hg. split; [done|].
      destruct (group_described_touches name found have description s s' Hf Hg)
        as (? & ? & ?). eauto 10.
    + intros e s' [->|Hg]; [done|].
      by apply (group_described_touches name found have description s s' Hf Hg).
  - apply runs_ret. split; [done|]. split; [done|left]. split; [eauto|].
    split; [|done]. subst have. symmetry. by apply insert_id.
Qed.

Lemma rulesOf_runs id s :
  runs view s (rulesOf id)
    (λ l s', s' = s ∧ ∀ r, r ∈ l ↔ ns_rules s !! sr_ID r = Some (id, sr_fields r))
    (λ _ s', s' = s).
Proof. apply law_rules_List. Qed.

(** A group emptied of what was listed of it is empty. *)
Lemma pruned_all gid have s s' :
  (∀ r, r ∈ have ↔ ns_rules s !! sr_ID r = Some (gid, sr_fields r)) →
  pruned gid (λ _, true) have s s' → ∀ f, ¬ group_has s' gid f.
Proof.
  intros Hhave [_ Hr] f [rid Hf]. apply Hr in Hf as [Hf Hno].
  by apply (Hno (mkSecGroupRule rid f)); [apply Hhave|..].
Qed.

Lemma EnsureDenyAll_runs s :
  runs view s EnsureDenyAll
    (λ id s', only_touches DenyAll s s' ∧ (∃ d, ns_groups s' !! id = Some (DenyAll, d)) ∧
              ∀ f, ¬ group_has s' id f)
    (λ _ s', only_touches DenyAll s s').
Proof.
  unfold EnsureDenyAll. step_law ensureGroup_runs; [done|]. intros id s1 Hr.
  destruct (group_ready_named _ _ _ _ _ Hr) as [d Hid]. destruct Hr as (_ & Ht & _).
  step_law rulesOf_runs; [by intros _ s' ->|]. intros have s' [-> Hhave].
  eapply runs_bind.
  - apply (prune_loop_runs view id (λ _, false) have (λ _, "emptying the deny-all group")).
    naive_solver.
  - intros e s2 Ho. transitivity s1; [done|]. by eapply others_same_touches.
  - intros u s2 Hp. apply runs_ret. split; [|split].
    + transitivity s1; [done|]. eapply others_same_touches; [done|apply Hp].
    + exists d. destruct Hp as [(_ & -> & _) _]. done.
    + by eapply pruned_all.
Qed.
End group_ops.

(** ** [EnsureRuleSet] *)
Lemma all_opts_app peers l1 l2 :
  all_opts peers (l1 ++ l2) =
  fold_result (λ want r, o ← rule_opts peers r; Ok (want ++ [o])) []
    l1 ≫= λ w, fold_result (λ want r, o ← rule_opts peers r; Ok (want ++ [o])) w l2.
Proof. apply fold_result_app. Qed.

Lemma all_opts_Forall2 peers rules want :
  all_opts peers rules = Ok want → Forall2 (λ r o, rule_opts peers r = Ok o) rules want.
Proof.
  revert want. induction rules as [|r rules IH] using rev_ind; intros want.
  { intros [= <-]. constructor. }
  rewrite all_opts_app. fold (all_opts peers rules).
  unfold mbind, result_bind. destruct (all_opts peers rules) as [w|] eqn:Hw; [|done].
  simpl. unfold mbind, result_bind. destruct (rule_opts peers r) as [o|] eqn:Ho; [|done].
  intros [= <-]. apply Forall2_app; [by apply IH|by constructor].
Qed.

(** One remote per rule, in its own family: what [Expand] makes. *)
Definition one_remote (r : SGRule) : Prop :=
  sg_RemoteCIDR r ≠ "" ∨ sg_RemoteAddressGroup r ≠ "".

Lemma rule_opts_remote peers r o :
  one_remote r → rule_opts peers r = Ok o →
  (rf_RemoteIPPrefix o ≠ "" ∧ rf_RemoteAddressGroupID o = "") ∨
  (rf_RemoteIPPrefix o = "" ∧ rf_RemoteAddressGroupID o ≠ "").
Proof.
  unfold one_remote, rule_opts. intros H Ho.
  destruct (decide (sg_RemoteCIDR r ≠ "")); [simplify_eq/=; by left|].
  destruct (decide (sg_RemoteAddressGroup r ≠ "")); [|by destruct H].
  destruct (decide (opt_or "" (peers !! sg_RemoteAddressGroup r) = "")); simplify_eq/=.
  by right.
Qed.

(** Rules with a remote are told apart by Neutron exactly when they differ. *)
Lemma rule_norm_inj f g :
  (rf_RemoteIPPrefix f ≠ "" ∧ rf_RemoteAddressGroupID f = "") ∨
    (rf_RemoteIPPrefix f = "" ∧ rf_RemoteAddressGroupID f ≠ "") →
  (rf_RemoteIPPrefix g ≠ "" ∧ rf_RemoteAddressGroupID g = "") ∨
    (rf_RemoteIPPrefix g = "" ∧ rf_RemoteAddressGroupID g ≠ "") →
  rule_norm f = rule_norm g → f = g.
Proof.
  destruct f as [d1 e1 p1 n1 x1 i1 r1 a1], g as [d2 e2 p2 n2 x2 i2 r2 a2].
  unfold rule_norm. simpl. intros Hf Hg Heq.
  injection Heq as -> -> -> -> -> Hi -> ->. f_equal.
  destruct (decide _) as [Hd1|Hd1] in Hi; destruct (decide _) as [Hd2|Hd2] in Hi; subst.
  - destruct Hd1 as [[-> ->]|[-> ->]], Hd2 as [[? ->]|[? ->]]; done.
  - destruct Hf as [[? ?]|[? ?]], Hg as [[? ?]|[? ?]]; congruence.
  - destruct Hf as [[? ?]|[? ?]], Hg as [[? ?]|[? ?]]; congruence.
  - done.
Qed.

Lemma all_opts_norm_inj peers rules want f g :
  Forall one_remote rules → all_opts peers rules = Ok want →
  f ∈ want → g ∈ want → rule_norm f = rule_norm g → f = g.
Proof.
  intros Hone Hw%all_opts_Forall2 Hf Hg.
  assert (∀ o, o ∈ want → ∃ r, one_remote r ∧ rule_opts peers r = Ok o) as Hr.
  { intros o Ho. apply list_elem_of_lookup in Ho as [i Hi].
    destruct (Forall2_lookup_r _ _ _ _ _ Hw Hi) as (r & Hri & Hro).
    exists r. split; [|done]. by apply (Forall_lookup_1 _ _ _ _ Hone Hri). }
  destruct (Hr f Hf) as (rf & ? & ?), (Hr g Hg) as (rg & ? & ?).
  apply rule_norm_inj; [by apply (rule_opts_remote peers rf)|by apply (rule_opts_remote peers rg)].
Qed.

(** Nothing of the set's group is stale after a pass. *)
Definition ruleset_written (id : string) (want : list RuleFields) (s1 s' : NeutronState) : Prop :=
  (∀ f, group_has s' id f → f ∈ want) ∧
  (∀ w, w ∈ want → group_has s' id w ∨
     ∃ f, (group_has s1 id f ∨ f ∈ want) ∧ f ≠ w ∧ rule_norm f = rule_norm w) ∧
  others_same id s1 s'.

Section ruleset_ops.
Context {W : Type} `{!NeutronAPI W} (view : W → NeutronState) `{!NeutronLaws W view}.
Context {L : LabelsAPI}.

Lemma written_after_loops id have want s1 s2 s3 :
  (∀ r, r ∈ have ↔ ns_rules s1 !! sr_ID r = Some (id, sr_fields r)) →
  grown id want s1 s2 → (∀ w, w ∈ want → covered s2 id w) →
  pruned id (λ h, negb (wantsRule want h)) have s2 s3 →
  ruleset_written id want s1 s3.
Proof.
  intros Hhave Hg Hcov [Ho Hp].
  assert (∀ f, group_has s2 id f → f ∈ want → group_has s3 id f) as Hkeep.
  { intros f [rid Hf] Hw. exists rid. apply Hp. split; [done|].
    intros h Hh Hb <-. apply Hhave in Hh. destruct Hg as (_ & Hm & _).
    apply Hm in Hh. rewrite Hh in Hf. injection Hf as <-.
    apply negb_true_iff, not_true_iff_false in Hb. by rewrite wantsRule_spec in Hb. }
  split; [|split].
  - intros f [rid Hf]. apply Hp in Hf as [Hf Hno]. destruct Hg as (_ & _ & Hn).
    destruct (Hn _ _ _ Hf) as [Hold|[_ Hin]]; [|done].
    destruct (wantsRule want (mkSecGroupRule rid f)) eqn:Hw.
    + by apply wantsRule_spec in Hw.
    + destruct (Hno (mkSecGroupRule rid f)); [by apply Hhave|by rewrite Hw|done].
  - intros w Hw. destruct (Hcov w Hw) as (f & Hf & He).
    destruct (decide (f = w)) as [->|Hne]; [left; by apply Hkeep|right].
    exists f. split; [|done]. destruct Hf as [rid Hf]. destruct Hg as (_ & _ & Hn).
    destruct (Hn _ _ _ Hf) as [Hold|[_ Hin]]; [left; by exists rid|by right].
  - transitivity s2; [apply Hg|done].
Qed.

Lemma EnsureRuleSet_runs name ref set peers s :
  runs view s (EnsureRuleSet name ref set peers)
    (λ id s', ∃ want s1, all_opts peers (rs_Rules set) = Ok want ∧
       group_ready name (policy_prefix +:+ ref +:+ policy_suffix) id s s1 ∧
       ruleset_written id want s1 s' ∧ only_touches name s s')
    (λ _ s', only_touches name s s').
Proof.
  unfold EnsureRuleSet. step_law ensureGroup_runs; [done|]. intros id s1 Hr.
  destruct (group_ready_named _ _ _ _ _ Hr) as [d Hid].
  pose proof Hr as (_ & Ht & _).
  assert (∀ s2, others_same id s1 s2 → only_touches name s s2) as Hos.
  { intros s2 Ho. transitivity s1; [done|]. by eapply others_same_touches. }
  step_law rulesOf_runs; [by intros e s' ->|]. intros have s' [-> Hhave].
  eapply runs_bind with (R := λ w s', s' = s1 ∧ all_opts peers (rs_Rules set) = Ok w)
    (E' := λ _ s', s' = s1); [|by intros e s' ->|].
  { apply runs_lift. by destruct (all_opts peers (rs_Rules set)). }
  intros want s' [-> Hw].
  eapply runs_bind.
  - apply (add_loop_runs view id have want). intros r Hr'. exists (sr_ID r). by apply Hhave.
  - intros e s2 Hg. apply Hos, Hg.
  - intros u s2 [Hg Hcov]. eapply runs_bind.
    + apply (prune_loop_runs view id (wantsRule want) have
        (λ _, "removing a stale rule from " +:+ name)).
      intros r Hr'. apply Hg. by apply Hhave.
    + intros e s3 Ho. apply Hos. transitivity s2; [apply Hg|done].
    + intros u' s3 Hp. apply runs_ret. exists want, s1.
      assert (ruleset_written id want s1 s3) as Hwr by by eapply written_after_loops.
      split; [done|]. split; [done|]. split; [done|]. apply Hos, Hwr.
Qed.

(** A pass over a group that holds nothing but wanted rules makes it exact. *)
Lemma written_exact id want s1 s' :
  (∀ f g, f ∈ want → g ∈ want → rule_norm f = rule_norm g → f = g) →
  (∀ f, group_has s1 id f → f ∈ want) →
  ruleset_written id want s1 s' → ∀ f, group_has s' id f ↔ f ∈ want.
Proof.
  intros Hinj Hs1 (Hin & Hcov & _) f. split; [apply Hin|]. intros Hf.
  destruct (Hcov f Hf) as [|(g & Hg & Hne & He)]; [done|].
  destruct Hne. apply Hinj; [naive_solver|done..].
Qed.
End ruleset_ops.

(** ** The baseline groups *)
Definition baseline_ready (name direction gid : string) (s : NeutronState) : Prop :=
  (∃ d, ns_groups s !! gid = Some (name, d)) ∧
  (∀ f, group_has s gid f → rf_Direction f = direction) ∧
  (∀ w, w ∈ baseline_wants direction → covered s gid w).

Section baseline_ops.
Context {W : Type} `{!NeutronAPI W} (view : W → NeutronState) `{!NeutronLaws W view}.

Lemma ensureBaselineRules_runs gid direction s :
  runs view s (ensureBaselineRules gid direction)
    (λ _ s', others_same gid s s' ∧
       (∀ f, group_has s' gid f → rf_Direction f = direction) ∧
       (∀ w, w ∈ baseline_wants direction → covered s' gid w))
    (λ _ s', others_same gid s s').
Proof.
  unfold ensureBaselineRules. step_law rulesOf_runs; [by intros e s' ->|].
  intros have s' [-> Hhave]. eapply runs_bind.
  - apply (add_loop_runs view gid have). intros r Hr. exists (sr_ID r). by apply Hhave.
  - intros e s2 Hg. apply Hg.
  - intros u s2 [Hg Hcov].
    set (keep := λ r : SecGroupRule, bool_decide (rf_Direction (sr_fields r) = direction)).
    eapply runs_conseq.
    + apply (prune_loop_runs view gid keep have). intros r Hr. apply Hg. by apply Hhave.
    + intros u' s3 [Ho Hp]. split; [transitivity s2; [apply Hg|done]|]. split.
      * intros f [rid Hf]. apply Hp in Hf as [Hf Hno]. destruct Hg as (_ & _ & Hn).
        destruct (Hn _ _ _ Hf) as [Hold|[_ Hin]].
        -- destruct (keep (mkSecGroupRule rid f)) eqn:Hk;
             [by apply bool_decide_eq_true in Hk|].
           destruct (Hno (mkSecGroupRule rid f)); [by apply Hhave|by rewrite Hk|done].
        -- unfold baseline_wants in Hin. rewrite !elem_of_cons, elem_of_nil in Hin.
           by destruct Hin as [->|[->|[]]].
      * intros w Hw. destruct (Hcov w Hw) as (f & [rid Hf] & He). exists f. split; [|done].
        exists rid. apply Hp. split; [done|]. intros h Hh Hb <-. apply Hhave in Hh.
        apply Hg in Hh. rewrite Hh in Hf. injection Hf as <-.
        apply negb_true_iff, bool_decide_eq_false in Hb. apply Hb.
        apply (f_equal rf_Direction) in He. simpl in He. rewrite He.
        unfold baseline_wants in Hw. rewrite !elem_of_cons, elem_of_nil in Hw.
        by destruct Hw as [->|[->|[]]].
    + intros e s3 Ho. transitivity s2; [apply Hg|done].
Qed.
End baseline_ops.

Lemma baseline_ready_touches name name' direction gid s s' :
  name ≠ name' → only_touches name' s s' → baseline_ready name direction gid s →
  baseline_ready name direction gid s'.
Proof.
  intros Hne (Ht & _) ((d & Hg) & Hd & Hc). destruct (Ht gid name d Hg Hne) as [Hg' Hr].
  assert (∀ f, group_has s' gid f ↔ group_has s gid f) as Hh.
  { intros f. unfold group_has. by setoid_rewrite Hr. }
  split; [by exists d|]. split; [by intros f Hf%Hh; auto|].
  intros w Hw. destruct (Hc w Hw) as (f & Hf & He). exists f. by rewrite Hh.
Qed.

Section baseline_whole.
Context {W : Type} `{!NeutronAPI W} (view : W → NeutronState) `{!NeutronLaws W view}.

Definition denyall_ready (gid : string) (s : NeutronState) : Prop :=
  (∃ d, ns_groups s !! gid = Some (DenyAll, d)) ∧ ∀ f, ¬ group_has s gid f.

Lemma denyall_touches name gid s s' :
  name ≠ DenyAll → only_touches name s s' → denyall_ready gid s → denyall_ready gid s'.
Proof.
  intros Hne (Ht & _) ((d & Hg) & Hd). destruct (Ht gid _ d Hg (not_eq_sym Hne)) as [Hg' Hr].
  split; [by exists d|]. intros f [rid Hf]. apply (Hd f). exists rid. by apply Hr.
Qed.

Lemma EnsureBaseline_runs s :
  runs view s EnsureBaseline
    (λ ie s', baseline_ready AllowIngress "ingress" ie.1 s' ∧
              baseline_ready AllowEgress "egress" ie.2 s' ∧
              ∃ d, denyall_ready d s')
    (λ _ _, True).
Proof.
  unfold EnsureBaseline. step_law (EnsureDenyAll_runs view); [done|].
  intros d s1 (_ & Hd). step_law (ensureGroup_runs view); [done|]. intros i s2 Hi.
  destruct (group_ready_named _ _ _ _ _ Hi) as [di Hgi].
  pose proof (denyall_touches AllowIngress _ _ _ ltac:(done) (proj1 (proj2 Hi)) Hd) as Hd2.
  step_law (ensureGroup_runs view); [done|]. intros e s3 He.
  destruct (group_ready_named _ _ _ _ _ He) as [de Hge].
  pose proof (denyall_touches AllowEgress _ _ _ ltac:(done) (proj1 (proj2 He)) Hd2) as Hd3.
  destruct He as (_ & Hte & _). pose proof (proj1 Hte i AllowIngress _ Hgi ltac:(done)) as [Hgi3 _].
  step_law (ensureBaselineRules_runs view); [done|]. intros u s4 (Ho4 & Hdir4 & Hc4).
  pose proof (others_same_touches _ _ _ _ _ Hgi3 Ho4) as Ht4.
  pose proof (denyall_touches AllowIngress _ _ _ ltac:(done) Ht4 Hd3) as Hd4.
  assert (baseline_ready AllowIngress "ingress" i s4) as Hb4.
  { split; [|done]. exists di. destruct Ho4 as (_ & Hg & _). by rewrite Hg. }
  assert (ns_groups s4 !! e = Some (AllowEgress, de)) as Hge4
    by (destruct Ho4 as (_ & Hg & _); by rewrite Hg).
  step_law (ensureBaselineRules_runs view); [done|]. intros u' s5 (Ho5 & Hdir5 & Hc5).
  pose proof (others_same_touches _ _ _ _ _ Hge4 Ho5) as Ht5.
  apply runs_ret. simpl. split; [|split].
  - by eapply baseline_ready_touches; [|exact Ht5|].
  - split; [|done]. exists de. destruct Ho5 as (_ & Hg & _). by rewrite Hg.
  - exists d. by eapply denyall_touches; [|exact Ht5|].
Qed.
End baseline_whole.

(** ** Peer sets *)
Section address_ops.
Context {W : Type} `{!NeutronAPI W} (view : W → NeutronState) `{!NeutronLaws W view}.

Lemma addr_changed_insert f id n a s s' :
  ns_addrs s !! id = Some (n, a) → addr_changed f id s s' →
  s' = set_addrs (<[id := (n, f a)]>) s.
Proof.
  intros Ha ->. unfold set_addrs. f_equal. apply map_eq. intros j.
  destruct (decide (j = id)) as [->|].
  - by rewrite lookup_alter_eq, lookup_insert_eq, Ha.
  - by rewrite lookup_alter_ne, lookup_insert_ne.
Qed.

Definition stored (l : list string) : gset string := list_to_set (map normalizeCIDR l).

Lemma add_addresses_runs id n a add msg s :
  ns_addrs s !! id = Some (n, a) → map normalizeCIDR add = add →
  (∀ x, x ∈ add → x ∉ a) →
  runs view s
    (if decide (add ≠ []) then wrap msg (ignoring isConflict (addr_Add id add)) else mret ())
    (λ _ s', s' = set_addrs (<[id := (n, a ∪ list_to_set add)]>) s) (λ _ _, True).
Proof.
  intros Ha Hn Hno. case_decide as Hd.
  - apply runs_wrap, runs_ignoring. by_law law_addr_Add.
    + intros u s' Hc. rewrite Hn in Hc. by eapply (addr_changed_insert (λ a, a ∪ list_to_set add)).
    + intros e s' [_ Hc]. destruct (isConflict e); [|done].
      destruct (Hc eq_refl) as [_ (n' & a' & x & Ha' & Hx & Hin)]. simplify_eq.
      destruct (Hno x Hx). assert (normalizeCIDR x = x) as Hxn; [|by rewrite Hxn in Hin].
      rewrite <-Hn in Hx. apply list_elem_of_fmap in Hx as (y & -> & _). apply normalizeCIDR_idemp.
  - apply runs_ret. assert (add = []) as -> by (by destruct add; [|destruct Hd]).
    destruct s as [g r m p]. unfold set_addrs. simpl in *. f_equal.
    rewrite union_empty_r_L. symmetry. by apply insert_id.
Qed.

Lemma remove_addresses_runs id n a remove msg s :
  ns_addrs s !! id = Some (n, a) → map normalizeCIDR remove = remove →
  (∀ x, x ∈ remove → x ∈ a) →
  runs view s
    (if decide (remove ≠ []) then wrap msg (ignoring isConflict (addr_Remove id remove))
     else mret ())
    (λ _ s', s' = set_addrs (<[id := (n, a ∖ list_to_set remove)]>) s) (λ _ _, True).
Proof.
  intros Ha Hn Hno. case_decide as Hd.
  - apply runs_wrap, runs_ignoring. by_law law_addr_Remove.
    + intros u s' Hc. rewrite Hn in Hc.
      by eapply (addr_changed_insert (λ a, a ∖ list_to_set remove)).
    + intros e s' [_ Hc]. destruct (isConflict e); [|done].
      destruct (Hc eq_refl) as [_ (n' & a' & x & Ha' & Hx & Hin)]. simplify_eq.
      destruct Hin. assert (normalizeCIDR x = x) as ->; [|by apply Hno].
      rewrite <-Hn in Hx. apply list_elem_of_fmap in Hx as (y & -> & _). apply normalizeCIDR_idemp.
  - apply runs_ret. assert (remove = []) as -> by (by destruct remove; [|destruct Hd]).
    destruct s as [g r m p]. unfold set_addrs. simpl in *. f_equal.
    rewrite difference_empty_L. symmetry. by apply insert_id.
Qed.

Lemma SyncAddresses_runs id want s :
  addrs_stored s →
  runs view s (SyncAddresses id want)
    (λ _ s', ∃ n a, ns_addrs s !! id = Some (n, a) ∧
                    s' = set_addrs (<[id := (n, stored want)]>) s)
    (λ _ _, True).
Proof.
  intros Hst. unfold SyncAddresses. step_wrap law_addr_Get; [done|].
  intros current s' (-> & n & a & Ha & Hcur).
  destruct (diffAddresses current want) as [add remove] eqn:Hd.
  destruct (diffAddresses_spec _ _ _ _ Hd) as (Hadd & Hrem & Hna & Hnr).
  assert (∀ x, x ∈ map normalizeCIDR current ↔ x ∈ a) as Hc.
  { intros x. rewrite <-Hcur. split.
    - intros (y & -> & Hy)%list_elem_of_fmap. rewrite (Hst id n a y Ha); [done|by apply Hcur].
    - intros Hx. apply list_elem_of_fmap. exists x. split; [|done]. symmetry.
      apply (Hst id n a x Ha). by apply Hcur. }
  eapply runs_bind; [apply (add_addresses_runs id n a)| |]; try done.
  { intros x (_ & Hx)%Hadd. by rewrite Hc in Hx. }
  intros u s' ->. eapply runs_conseq;
    [apply (remove_addresses_runs id n (a ∪ list_to_set add)); try done| |done].
  - simpl. by rewrite lookup_insert_eq.
  - intros x [Hx _]%Hrem. apply Hc in Hx. set_solver.
  - simpl. intros u' s'' ->. exists n, a. split; [done|].
    destruct s as [g r m p]. unfold set_addrs. simpl. rewrite insert_insert_eq. do 3 f_equal.
    unfold stored. apply set_eq. intros x. rewrite elem_of_difference, elem_of_union,
      !elem_of_list_to_set, Hadd, Hrem, Hc.
    destruct (decide (x ∈ map normalizeCIDR want)), (decide (x ∈ a)); naive_solver.
Qed.

Lemma EnsureAddressGroup_runs name s :
  runs view s (EnsureAddressGroup name)
    (λ id s', id ≠ "" ∧ (∃ a, ns_addrs s' !! id = Some (name, a)) ∧
       (s' = s ∨ (∀ i a, ns_addrs s !! i ≠ Some (name, a)) ∧ addr_created name s id s'))
    (λ _ s', s' = s ∨ (∀ i a, ns_addrs s !! i ≠ Some (name, a)) ∧
                      ∃ id, addr_created name s id s').
Proof.
  unfold EnsureAddressGroup. step_wrap law_addr_List; [by left|].
  intros l s' (-> & Hl & Hall).
  destruct l as [|g l]; simpl.
  - assert (∀ i a, ns_addrs s !! i ≠ Some (name, a)) as Hno.
    { intros i a Hi. destruct (Hall i name a Hi) as (g & Hg & _); [by right|].
      by apply elem_of_nil in Hg. }
    step_wrap law_addr_Create; [intros e s' [->|Hc]; [by left|by right]|].
    intros id s' Hc. case_decide as Hid.
    + apply runs_fail. right. eauto.
    + apply runs_ret. split; [done|]. split; [|by right].
      destruct Hc as [_ ->]. exists ∅. simpl. by rewrite lookup_insert_eq.
  - destruct (Hl g) as (a & Hg & Hne & Hn); [by left|].
    rewrite decide_True by done. apply runs_ret. split; [done|].
    rewrite <-(Hn name eq_refl). eauto.
Qed.
End address_ops.

(** ** [Sweep] *)

(** A group of this process's whose policy is gone. *)
Definition collectable (live serves : string → bool) (name description : string) : Prop :=
  (∃ rest, name = "knp-policy-" +:+ rest) ∧
  ∃ ns rest, policyOf description = ns +:+ "/" +:+ rest ∧ serves ns = true ∧
    live (policyOf description) = false.

Lemma sweep_doomed_spec live serves g :
  sweep_doomed live serves g = true →
  collectable live serves (gr_Name g) (gr_Description g).
Proof.
  unfold sweep_doomed. rewrite !andb_true_iff. intros [Hp [_ Hd]].
  split; [by apply has_prefix_spec|].
  destruct (cut _ _) as [[ns rest]|] eqn:Hc; [|done].
  apply andb_true_iff in Hd as [Hs Hl]. apply negb_true_iff in Hl.
  apply cut_char_Some in Hc as [Hc _]. exists ns, rest. by rewrite Hl.
Qed.

Record swept (live serves : string → bool) (s s' : NeutronState) : Prop := {
  sw_groups : ∀ id x, ns_groups s' !! id = Some x → ns_groups s !! id = Some x;
  sw_rules : ∀ rid x, ns_rules s' !! rid = Some x → ns_rules s !! rid = Some x;
  sw_addrs : ∀ id x, ns_addrs s' !! id = Some x → ns_addrs s !! id = Some x;
  sw_ports : ns_ports s' = ns_ports s;
  sw_groups_gone : ∀ id n d, ns_groups s !! id = Some (n, d) → ns_groups s' !! id = None →
    collectable live serves n d;
  sw_rules_gone : ∀ rid gid f, ns_rules s !! rid = Some (gid, f) → ns_rules s' !! rid = None →
    ns_groups s' !! gid = None;
  sw_addrs_gone : ∀ id n a, ns_addrs s !! id = Some (n, a) → ns_addrs s' !! id = None →
    (∃ rest, n = "knp-peers-" +:+ rest) ∧
    ∀ gid f gn gd, group_has s gid f → ns_groups s !! gid = Some (gn, gd) →
      (∃ rest, gn = "knp-policy-" +:+ rest) → ¬ collectable live serves gn gd →
      rf_RemoteAddressGroupID f ≠ id }.

Section sweep_ops.
Context {W : Type} `{!NeutronAPI W} (view : W → NeutronState) `{!NeutronLaws W view}.
Variables live serves : string → bool.

Lemma swept_refl s : swept live serves s s.
Proof. split; try done; intros; congruence. Qed.

Lemma swept_group s s1 s2 id n d :
  swept live serves s s1 → ns_groups s !! id = Some (n, d) → collectable live serves n d →
  group_deleted id s1 s2 → swept live serves s s2.
Proof.
  intros [Hg Hr Ha Hp Hgg Hrg Hag] Hid Hc ->. split; simpl; try done.
  - intros i x. rewrite lookup_delete_Some. naive_solver.
  - intros rid x. rewrite map_lookup_filter_Some. naive_solver.
  - intros i n' d' Hi. rewrite lookup_delete_None. intros [<-|Hn]; [|by eapply Hgg].
    rewrite Hid in Hi. by injection Hi as <- <-.
  - intros rid gid f Hrid. rewrite map_lookup_filter_None, lookup_delete_None.
    intros [Hn|Hn]; [right; by eapply Hrg|].
    destruct (ns_rules s1 !! rid) as [[g f']|] eqn:H1; [|right; by eapply Hrg].
    specialize (Hn _ eq_refl). simpl in Hn. apply dec_stable in Hn as ->. apply Hr in H1.
    rewrite Hrid in H1. injection H1 as -> _. by left.
Qed.

Lemma swept_addr s s1 id n a :
  swept live serves s s1 → ns_addrs s !! id = Some (n, a) →
  ((∃ rest, n = "knp-peers-" +:+ rest) ∧
   ∀ gid f gn gd, group_has s gid f → ns_groups s !! gid = Some (gn, gd) →
    (∃ rest, gn = "knp-policy-" +:+ rest) → ¬ collectable live serves gn gd →
    rf_RemoteAddressGroupID f ≠ id) →
  swept live serves s (set_addrs (delete id) s1).
Proof.
  intros [Hg Hr Ha Hp Hgg Hrg Hag] Hid Hc. split; simpl; try done.
  - intros i x. rewrite lookup_delete_Some. naive_solver.
  - intros i n' a' Hi. rewrite lookup_delete_None. intros [<-|Hn]; [|by eapply Hag].
    rewrite Hid in Hi. by injection Hi as <- <-.
Qed.

Lemma delete_counting_runs msg (m : M W ()) k (P : NeutronState → Prop) s :
  runs view s m (λ _ s', P s') (λ _ s', maybe s P s') → P s →
  runs view s (delete_counting msg m k) (λ _ s', P s') (λ _ s', P s').
Proof.
  intros Hm Hs. unfold delete_counting.
  assert (∀ s', maybe s P s' → P s') as HP by (by intros s' [->|]).
  eapply runs_bind with (R := λ r s', P s') (E' := λ _ s', P s'); [|done|].
  - apply runs_try. eapply runs_conseq; [exact Hm|done|]. intros e s' H. by apply HP.
  - intros [?|e] s' H; [by apply runs_ret|].
    destruct (isConflict e || isGone e); [by apply runs_ret|by apply runs_fail].
Qed.

(** The facts the listing gives about one listed group. *)
Lemma doomed_ids_spec all id :
  id ∈ doomed_ids live serves all ↔
  ∃ g, g ∈ all ∧ sweep_doomed live serves g = true ∧ gr_ID g = id.
Proof.
  unfold doomed_ids. rewrite elem_of_list_to_set. rewrite list_elem_of_fmap.
  setoid_rewrite list_elem_of_filter. naive_solver.
Qed.

Lemma referenced_ids_spec doomed all g r :
  g ∈ all → has_prefix (gr_Name g) "knp-policy-" = true → gr_ID g ∉ doomed →
  r ∈ gr_Rules g → rf_RemoteAddressGroupID (sr_fields r) ≠ "" →
  rf_RemoteAddressGroupID (sr_fields r) ∈ referenced_ids doomed all.
Proof.
  intros Hg Hp Hd Hr Hne. unfold referenced_ids. rewrite elem_of_list_to_set.
  apply list_elem_of_In, in_flat_map. exists g. split; [by apply list_elem_of_In|].
  rewrite Hp, bool_decide_false by done. simpl.
  apply list_elem_of_In, list_elem_of_filter. split; [done|].
  apply list_elem_of_fmap. by exists r.
Qed.

Lemma Sweep_runs s :
  runs view s (Sweep live serves) (λ _ s', swept live serves s s')
    (λ _ s', swept live serves s s').
Proof.
  unfold Sweep. step_wrap law_groups_List; [intros e s' ->; apply swept_refl|].
  intros all s' (-> & Hl & Hall).
  eapply runs_bind with (R := λ _ s', swept live serves s s')
    (E' := λ _ s', swept live serves s s'); [|done|].
  - apply (runs_fold_each view (λ _ _ s', swept live serves s s')); [apply swept_refl|].
    intros pre g post k s1 -> Hsw. case_decide as Hd; [|by apply runs_ret].
    apply doomed_ids_spec in Hd as (g' & Hg' & Hdm & Hid).
    destruct (Hl g' Hg') as (Hlk & _). apply sweep_doomed_spec in Hdm.
    apply (delete_counting_runs _ _ _ (swept live serves s)); [|done].
    rewrite <-Hid. by_law law_groups_Delete.
    + intros u s2 Hdel. by eapply swept_group.
    + intros e s2 [->|Hdel]; [by left|right]. by eapply swept_group.
  - intros k s1 Hsw1. step_wrap law_addr_List; [by intros e s' ->|].
    intros peers s' (-> & Hpl & _).
    apply (runs_fold_each view (λ _ _ s', swept live serves s s')); [done|].
    intros pre p post k' s2 -> Hsw2. destruct (_ && _) eqn:Hb; [|by apply runs_ret].
    apply andb_true_iff in Hb as [Hp Hr]. apply negb_true_iff, bool_decide_eq_false in Hr.
    destruct (Hpl p) as (a & Ha & Hne & _); [set_solver|].
    apply (sw_addrs _ _ _ _ Hsw1) in Ha.
    assert (swept live serves s (set_addrs (delete (ag_ID p)) s2)) as Hdel.
    { eapply swept_addr; [done|exact Ha|]. split; [by apply has_prefix_spec|].
      intros gid f gn gd [rid Hf] Hg Hpol Hnc Heq. subst.
      destruct (Hall gid gn gd Hg) as (g & Hgin & Hgid); [by left|].
      destruct (Hl g Hgin) as (Hlk & _ & Hrules & _). rewrite Hgid, Hg in Hlk.
      injection Hlk as -> ->. apply Hr. rewrite <-Heq.
      apply (referenced_ids_spec _ all g (mkSecGroupRule rid f)); simpl; try done.
      - by apply has_prefix_spec.
      - rewrite doomed_ids_spec. intros (g' & Hg' & Hdm & Hid').
        apply sweep_doomed_spec in Hdm. destruct (Hl g' Hg') as (Hlk' & _).
        rewrite Hid', Hgid, Hg in Hlk'. injection Hlk' as Hn Hd'. rewrite <-Hn, <-Hd' in Hdm. done.
      - apply Hrules. simpl. by rewrite Hgid.
      - by rewrite Heq. }
    apply (delete_counting_runs _ _ _ (swept live serves s)); [|done].
    by_law law_addr_Delete.
    + by intros u s3 ->.
    + intros e s3 [->| ->]; [by left|by right].
Qed.
End sweep_ops.

(** ** A concrete service

    An in-memory Neutron the laws hold for: it refuses a duplicate rule with
    409, an address that is already there or not there with 400, and what does
    not exist with 404. *)
Definition ns_empty : NeutronState := mkNeutronState ∅ ∅ ∅ ∅.
Definition ref_clean (s : NeutronState) : NeutronState :=
  mkNeutronState (delete "" (ns_groups s)) (ns_rules s) (delete "" (ns_addrs s)) (ns_ports s).
Definition is_clean (s : NeutronState) : Prop :=
  ns_groups s !! "" = None ∧ ns_addrs s !! "" = None.
Definition ref_op {A} (f : NeutronState → result A * NeutronState) : M NeutronState A :=
  λ w, f (ref_clean w).

Definition not_found {A} : result A := Err (ErrResponse 404 "").

Definition ref_rules (s : NeutronState) (gid : string) : list SecGroupRule :=
  omap (λ kv : string * (string * RuleFields),
    if decide (kv.2.1 = gid) then Some (mkSecGroupRule kv.1 kv.2.2) else None)
    (map_to_list (ns_rules s)).

Definition ref_named {A} (o : option string) (n : string) (a : A) : option A :=
  match o with
  | None => Some a
  | Some m => if decide (n = m) then Some a else None
  end.

Definition ref_ids (s : NeutronState) : gset string :=
  {[""]} ∪ dom (ns_groups s) ∪ list_to_set (map (λ kv, kv.2.1) (map_to_list (ns_rules s))).

Definition ref_create_group (n d : string) (s : NeutronState) : result string * NeutronState :=
  let id := fresh_id (ref_ids s) in
  let r4 := fresh_id (dom (ns_rules s)) in
  let r6 := fresh_id ({[r4]} ∪ dom (ns_rules s)) in
  (Ok id, set_groups (<[id := (n, d)]>)
    (set_rules (λ m, <[r4 := (id, default_rule EtherType4)]>
                     (<[r6 := (id, default_rule EtherType6)]> m)) s)).

Definition ref_create_rule (o : RuleCreateOpts) (s : NeutronState) : result () * NeutronState :=
  if existsb (λ r, bool_decide (rule_norm (sr_fields r) = rule_norm (co_fields o)))
       (ref_rules s (co_SecGroupID o))
  then (Err (ErrResponse 409 ""), s)
  else (Ok (), set_rules (<[fresh_id (dom (ns_rules s)) := (co_SecGroupID o, co_fields o)]>) s).

Definition ref_if {A B} (o : option A) (s : NeutronState) (f : A → result B * NeutronState)
    : result B * NeutronState :=
  match o with Some a => f a | None => (not_found, s) end.

Definition RefNeutron : NeutronAPI NeutronState := {|
  groups_List o := ref_op (λ s, (Ok (omap (λ kv : string * (string * string),
    ref_named o kv.2.1 (mkSecGroup kv.1 kv.2.1 kv.2.2 (ref_rules s kv.1)))
    (map_to_list (ns_groups s))), s));
  groups_Create n d := ref_op (ref_create_group n d);
  groups_Update id d := ref_op (λ s, ref_if (ns_groups s !! id) s (λ _,
    (Ok (), set_groups (alter (λ nd, (nd.1, d)) id) s)));
  groups_Delete id := ref_op (λ s, ref_if (ns_groups s !! id) s (λ _,
    (Ok (), set_groups (delete id) (set_rules (filter (λ kv, kv.2.1 ≠ id)) s))));
  rules_List gid := ref_op (λ s, (Ok (ref_rules s gid), s));
  rules_Create o := ref_op (ref_create_rule o);
  rules_Delete rid := ref_op (λ s, ref_if (ns_rules s !! rid) s (λ _,
    (Ok (), set_rules (delete rid) s)));
  addr_List o := ref_op (λ s, (Ok (omap (λ kv : string * (string * gset string),
    ref_named o kv.2.1 (mkAddressGroup kv.1 kv.2.1)) (map_to_list (ns_addrs s))), s));
  addr_Create n _ := ref_op (λ s,
    let id := fresh_id ({[""]} ∪ dom (ns_addrs s)) in
    (Ok id, set_addrs (<[id := (n, ∅)]>) s));
  addr_Get id := ref_op (λ s, ref_if (ns_addrs s !! id) s (λ na, (Ok (elements na.2), s)));
  addr_Add id l := ref_op (λ s, ref_if (ns_addrs s !! id) s (λ na,
    if existsb (λ x, bool_decide (normalizeCIDR x ∈ na.2)) l
    then (Err (ErrResponse 400 "AddressesAlreadyExist"), s)
    else (Ok (), set_addrs (alter (λ na, (na.1, na.2 ∪ list_to_set (map normalizeCIDR l))) id) s)));
  addr_Remove id l := ref_op (λ s, ref_if (ns_addrs s !! id) s (λ na,
    if existsb (λ x, bool_decide (normalizeCIDR x ∉ na.2)) l
    then (Err (ErrResponse 400 "AddressesNotFound"), s)
    else (Ok (), set_addrs (alter (λ na, (na.1, na.2 ∖ list_to_set (map normalizeCIDR l))) id) s)));
  addr_Delete id := ref_op (λ s, ref_if (ns_addrs s !! id) s (λ _,
    (Ok (), set_addrs (delete id) s)));
  ports_List owner := ref_op (λ s, (Ok (omap (λ kv : string * (string * list string),
    if decide (kv.2.1 = owner) then Some (mkNeutronPort kv.1 kv.2.2) else None)
    (map_to_list (ns_ports s))), s));
  ports_Get id := ref_op (λ s, ref_if (ns_ports s !! id) s (λ p, (Ok (mkNeutronPort id p.2), s)));
  ports_Update id l := ref_op (λ s, ref_if (ns_ports s !! id) s (λ _,
    (Ok (), set_ports (alter (λ p, (p.1, l)) id) s)));
|}.

Section reference_laws.
Lemma ref_clean_id s : is_clean s → ref_clean s = s.
Proof.
  intros [Hg Ha]. destruct s as [g r a p]. unfold ref_clean. simpl in *.
  by rewrite !delete_id.
Qed.

Lemma ref_op_runs {A} (f : NeutronState → result A * NeutronState) s Q E :
  (is_clean s → match f s with
                | (Ok a, s') => is_clean s' ∧ Q a s'
                | (Err e, s') => is_clean s' ∧ E e s' end) →
  runs ref_clean s (ref_op f) Q E.
Proof.
  intros H w <-. unfold ref_op.
  assert (is_clean (ref_clean w)) as Hc by (split; simpl; apply lookup_delete_eq).
  specialize (H Hc). destruct (f (ref_clean w)) as [[a|e] s'];
    destruct H as [Hc' H]; by rewrite ref_clean_id.
Qed.

Lemma ref_if_runs {A B} (o : option A) s (f : A → result B * NeutronState)
    (Q : B → NeutronState → Prop) (E : gerror → NeutronState → Prop) :
  is_clean s →
  (o = None → E (ErrResponse 404 "") s) →
  (∀ a, o = Some a → match f a with
                     | (Ok b, s') => is_clean s' ∧ Q b s'
                     | (Err e, s') => is_clean s' ∧ E e s' end) →
  match ref_if o s f with
  | (Ok b, s') => is_clean s' ∧ Q b s'
  | (Err e, s') => is_clean s' ∧ E e s'
  end.
Proof. intros Hc Hn Hf. unfold ref_if. destruct o; [by apply Hf|]. simpl. auto. Qed.

Lemma ref_rules_spec s gid r :
  r ∈ ref_rules s gid ↔ ns_rules s !! sr_ID r = Some (gid, sr_fields r).
Proof.
  unfold ref_rules. rewrite list_elem_of_omap. split.
  - intros ([rid [g f]] & Hin & Hd). apply elem_of_map_to_list in Hin. simpl in Hd.
    case_decide; simplify_eq/=. done.
  - intros Hr. exists (sr_ID r, (gid, sr_fields r)). rewrite elem_of_map_to_list. split; [done|].
    simpl. rewrite decide_True by done. by destruct r.
Qed.

Lemma ref_ids_fresh s id :
  id ∉ ref_ids s → id ≠ "" ∧ ns_groups s !! id = None ∧ ∀ f, ¬ group_has s id f.
Proof.
  unfold ref_ids. rewrite !not_elem_of_union, not_elem_of_singleton, not_elem_of_dom.
  intros [[Hne Hg] Hr]. split; [done|]. split; [done|]. intros f [rid Hf]. apply Hr.
  rewrite elem_of_list_to_set. apply list_elem_of_fmap. exists (rid, (id, f)).
  split; [done|]. by apply elem_of_map_to_list.
Qed.

Lemma is_clean_group id x (s : NeutronState) f :
  id ≠ "" → is_clean s → is_clean (set_groups (<[id := x]>) (set_rules f s)).
Proof. intros Hne [Hg Ha]. split; simpl; [by rewrite lookup_insert_ne|done]. Qed.

Lemma ref_create_group_created n d s :
  is_clean s →
  ∃ id s', ref_create_group n d s = (Ok id, s') ∧ is_clean s' ∧ group_created n d s id s'.
Proof.
  intros Hc. unfold ref_create_group.
  pose proof (fresh_id_spec (ref_ids s)) as Hid. apply ref_ids_fresh in Hid as (Hne & Hg & Hf).
  pose proof (fresh_id_spec (dom (ns_rules s))) as H4.
  pose proof (fresh_id_spec ({[fresh_id (dom (ns_rules s))]} ∪ dom (ns_rules s))) as H6.
  rewrite not_elem_of_union, not_elem_of_singleton in H6. destruct H6 as [H46 H6].
  apply not_elem_of_dom in H4, H6.
  eexists _, _. split; [reflexivity|]. split; [by apply is_clean_group|].
  split; [done|]. split; [done|]. split; [done|].
  exists (fresh_id (dom (ns_rules s))), (fresh_id ({[fresh_id (dom (ns_rules s))]} ∪ dom (ns_rules s))).
  split; [by symmetry|]. done.
Qed.

Lemma existsb_clash o s :
  existsb (λ r, bool_decide (rule_norm (sr_fields r) = rule_norm (co_fields o)))
    (ref_rules s (co_SecGroupID o)) = true → rule_clash o s.
Proof.
  rewrite existsb_In. intros (r & Hr & Hb). apply bool_decide_eq_true in Hb.
  exists (sr_fields r). split; [|done]. exists (sr_ID r). by apply ref_rules_spec.
Qed.

#[local] Instance RefNeutron_api : NeutronAPI NeutronState := RefNeutron.

Lemma RefNeutron_laws : NeutronLaws NeutronState ref_clean.
Proof.
  split; intros; apply ref_op_runs; intros Hc.
  - simpl. split; [done|]. split; [done|]. split.
    + intros g (kv & Hin & Hn)%list_elem_of_omap. destruct kv as [id [n d]].
      apply elem_of_map_to_list in Hin. unfold ref_named in Hn. simpl in Hn.
      assert (g = mkSecGroup id n d (ref_rules s id) ∧ ∀ m, o = Some m → n = m) as [-> Hm]
        by (destruct o; repeat case_decide; naive_solver).
      simpl. split; [done|]. split; [intros ->; by rewrite (proj1 Hc) in Hin|].
      split; [intros r; apply ref_rules_spec|done].
    + intros id n d Hid Ho. exists (mkSecGroup id n d (ref_rules s id)). split; [|done].
      apply list_elem_of_omap. exists (id, (n, d)). rewrite elem_of_map_to_list.
      split; [done|]. unfold ref_named. simpl. destruct Ho as [->| ->]; by rewrite ?decide_True.
  - destruct (ref_create_group_created n d s Hc) as (id & s' & -> & ? & ?). done.
  - apply ref_if_runs; [done|by left|]. intros a Ha. split; [|done].
    destruct Hc as [Hg Had]. split; simpl; [|done].
    rewrite lookup_alter_ne; [done|]. intros ->. by rewrite Hg in Ha.
  - apply ref_if_runs; [done|by left|]. intros a Ha. split; [|done].
    destruct Hc as [Hg Had]. split; simpl; [|done]. rewrite lookup_delete_None. by right.
  - simpl. split; [done|]. split; [done|]. intros r. apply ref_rules_spec.
  - unfold ref_create_rule. destruct (existsb _ _) eqn:Hx.
    + split; [done|]. split; [by left|]. intros _. split; [done|]. by apply existsb_clash.
    + split; [done|]. exists (fresh_id (dom (ns_rules s))). split; [|done].
      apply not_elem_of_dom, fresh_id_spec.
  - apply ref_if_runs; [done| |done]. intros Hn. split; [by left|done].
  - simpl. split; [done|]. split; [done|]. split.
    + intros g (kv & Hin & Hn)%list_elem_of_omap. destruct kv as [id [n a]].
      apply elem_of_map_to_list in Hin. unfold ref_named in Hn. simpl in Hn.
      assert (g = mkAddressGroup id n ∧ ∀ m, o = Some m → n = m) as [-> Hm]
        by (destruct o; repeat case_decide; naive_solver).
      simpl. exists a. split; [done|]. split; [intros ->; by rewrite (proj2 Hc) in Hin|done].
    + intros id n a Hid Ho. exists (mkAddressGroup id n). split; [|done].
      apply list_elem_of_omap. exists (id, (n, a)). rewrite elem_of_map_to_list.
      split; [done|]. unfold ref_named. simpl. destruct Ho as [->| ->]; by rewrite ?decide_True.
  - pose proof (fresh_id_spec ({[""]} ∪ dom (ns_addrs s))) as Hf.
    rewrite not_elem_of_union, not_elem_of_singleton in Hf. destruct Hf as [Hne Hf].
    apply not_elem_of_dom in Hf. split; [|by split].
    destruct Hc as [Hg Had]. split; [done|]. simpl. by rewrite lookup_insert_ne.
  - apply ref_if_runs; [done|done|]. intros [n a] Ha. split; [done|]. split; [done|].
    exists n, a. split; [done|]. intros x. apply elem_of_elements.
  - apply ref_if_runs; [done|by split; [left|]|]. intros [n a] Ha. simpl.
    destruct (existsb _ l) eqn:Hx.
    + split; [done|]. split; [by left|]. intros _. split; [done|]. apply existsb_In in Hx
        as (x & Hx & Hb). apply bool_decide_eq_true in Hb. eauto 10.
    + split; [|done]. destruct Hc as [Hg Had]. split; simpl; [done|].
      rewrite lookup_alter_ne; [done|]. intros ->. by rewrite Had in Ha.
  - apply ref_if_runs; [done|by split; [left|]|]. intros [n a] Ha. simpl.
    destruct (existsb _ l) eqn:Hx.
    + split; [done|]. split; [by left|]. intros _. split; [done|]. apply existsb_In in Hx
        as (x & Hx & Hb). apply bool_decide_eq_true in Hb. eauto 10.
    + split; [|done]. destruct Hc as [Hg Had]. split; simpl; [done|].
      rewrite lookup_alter_ne; [done|]. intros ->. by rewrite Had in Ha.
  - apply ref_if_runs; [done|by left|]. intros a Ha. split; [|done].
    destruct Hc as [Hg Had]. split; simpl; [done|]. rewrite lookup_delete_None. by right.
  - simpl. split; [done|]. split; [done|].
    assert (∀ p, p ∈ omap (λ kv : string * (string * list string),
        if decide (kv.2.1 = owner) then Some (mkNeutronPort kv.1 kv.2.2) else None)
        (map_to_list (ns_ports s)) ↔
      ns_ports s !! np_ID p = Some (owner, np_SecurityGroups p)) as Hp.
    { intros p. rewrite list_elem_of_omap. split.
      - intros ([i [o g]] & Hin & Hd). apply elem_of_map_to_list in Hin. simpl in Hd.
        case_decide; by simplify_eq/=.
      - intros Hp. exists (np_ID p, (owner, np_SecurityGroups p)).
        rewrite elem_of_map_to_list. split; [done|]. simpl. rewrite decide_True by done.
        by destruct p. }
    split; [|exact Hp].
    pose proof (NoDup_fst_map_to_list (ns_ports s)) as Hnd. revert Hnd.
    generalize (map_to_list (ns_ports s)) as l. clear.
    induction l as [|[i [o g]] l IH]; simpl; [constructor|].
    rewrite NoDup_cons. intros [Hni Hnd]. case_decide; simpl; [|by apply IH].
    constructor; [|by apply IH]. intros Hin. apply Hni.
    apply list_elem_of_fmap in Hin as ([i' g'] & Hi & Hin). simpl in Hi. subst i'.
    apply list_elem_of_omap in Hin as ([i2 [o2 g2]] & Hin & Hd). simpl in Hd.
    case_decide; simplify_eq/=. apply list_elem_of_fmap. by exists (i, (owner, g')).
  - apply ref_if_runs; [done|done|]. intros [o g] Ha. split; [done|]. split; [done|]. by exists o.
  - apply ref_if_runs; [done|by left|]. intros a Ha. done.
Qed.
End reference_laws.

(** ** Reading a description back *)
Fixpoint last_char (s : string) : option Ascii.ascii :=
  match s with
  | EmptyString => None
  | String c EmptyString => Some c
  | String _ s' => last_char s'
  end.
Lemma last_char_app a b : b ≠ "" → last_char (a +:+ b) = last_char b.
Proof.
  intros Hb. induction a as [|c a IH]; [done|].
  change (String c a +:+ b) with (String c (a +:+ b)). simpl. rewrite IH.
  by destruct a, b.
Qed.

Lemma policyOf_created ref :
  policyOf (created_description (policy_prefix +:+ ref +:+ policy_suffix)) = "".
Proof.
  unfold policyOf. destruct (has_suffix _ policy_suffix) eqn:H; [|by rewrite orb_true_r].
  apply has_suffix_spec in H as [r Hr]. apply (f_equal last_char) in Hr.
  unfold created_description in Hr. rewrite !last_char_app in Hr by done. done.
Qed.

Lemma written_names id name d s s' :
  group_ready name d id s s' →
  (∀ i j x y, ns_groups s !! i = Some (name, x) → ns_groups s !! j = Some (name, y) → i = j) →
  ∀ i x, ns_groups s' !! i = Some (name, x) → i = id.
Proof.
  intros (_ & _ & [((d0 & H0) & Hs & _)|(Hno & _ & Hs & _)]) Hu i x; rewrite Hs, lookup_insert_Some.
  - intros [[-> _]|[_ Hi]]; [done|]. by eapply Hu.
  - intros [[-> _]|[_ Hi]]; [done|]. by destruct (Hno i x).
Qed.

(** ** Properties *)

(** Two successful passes of [EnsureRuleSet] leave the policy's group with
    exactly the rules of the set: nothing missing and nothing stale, whatever
    the group held before. *)
Theorem EnsureRuleSet_converges {W : Type} `{!NeutronAPI W} (view : W → NeutronState)
    `{!NeutronLaws W view} {L : LabelsAPI} (name ref : string) (set : RuleSet)
    (peers : gmap string string) (s : NeutronState) :
  (∀ i j x y, ns_groups s !! i = Some (name, x) → ns_groups s !! j = Some (name, y) → i = j) →
  Forall one_remote (rs_Rules set) →
  runs view s
    (EnsureRuleSet name ref set peers ≫= λ _, EnsureRuleSet name ref set peers)
    (λ id s', ∃ want, all_opts peers (rs_Rules set) = Ok want ∧
       ∀ f, group_has s' id f ↔ f ∈ want)
    (λ _ s', only_touches name s s').
Proof.
  intros Hu Hone. step_law (EnsureRuleSet_runs view); [done|].
  intros id s' (want & s1 & Hw & Hr & (Hin & _ & Ho) & Ht).
  eapply runs_conseq; [apply (EnsureRuleSet_runs view)| |by intros e s2 Ht2; transitivity s'].
  intros id2 s2 (want2 & s3 & Hw2 & Hr2 & Hwr & _). exists want2. split; [done|].
  rewrite Hw in Hw2. injection Hw2 as <-.
  apply (written_exact _ _ s3); [|  |done].
  { intros f g. by apply (all_opts_norm_inj peers (rs_Rules set)). }
  pose proof (written_names _ _ _ _ _ Hr Hu) as Hids.
  assert (ns_groups s' = ns_groups s1) as Hgs by apply Ho.
  destruct (group_ready_named _ _ _ _ _ Hr) as [d1 Hid1]. rewrite <-Hgs in Hid1.
  destruct Hr2 as (_ & _ & [((d0 & H0) & _ & Hrules)|(Hno & _)]); [|by destruct (Hno id d1)].
  rewrite Hgs in H0. apply Hids in H0 as ->.
  intros f [rid Hf]. apply Hin. exists rid. by rewrite <-Hrules.
Qed.

(** C12 One pass of [EnsureRuleSet] that succeeds leaves no stale rule: every
    rule its group holds is one the set asks for, each rule asked for is there
    unless Neutron took it for a differently spelled one, and no other group,
    no address group and no port is touched, also when the pass fails. *)
Theorem EnsureRuleSet_never_stale {W : Type} `{!NeutronAPI W} (view : W → NeutronState)
    `{!NeutronLaws W view} {L : LabelsAPI} (name ref : string) (set : RuleSet)
    (peers : gmap string string) (s : NeutronState) :
  runs view s (EnsureRuleSet name ref set peers)
    (λ id s', ∃ want s1, all_opts peers (rs_Rules set) = Ok want ∧
       group_ready name (policy_prefix +:+ ref +:+ policy_suffix) id s s1 ∧
       (∀ f, group_has s' id f → f ∈ want) ∧
       (∀ w, w ∈ want → group_has s' id w ∨
          ∃ f, (group_has s1 id f ∨ f ∈ want) ∧ f ≠ w ∧ rule_norm f = rule_norm w) ∧
       only_touches name s s')
    (λ _ s', only_touches name s s').
Proof.
  eapply runs_conseq; [apply (EnsureRuleSet_runs view)| |done].
  intros id s' (want & s1 & ? & ? & (? & ? & _) & ?). eauto 10.
Qed.

(** The first pass over a new group loses an egress rule to anywhere: Neutron
    reads it as the rule it put into the group itself, answers 409 to the
    create, which is taken as agreement, and the rule it stood for is then
    deleted as stale.  Traffic the policy allows stays denied until a second
    pass writes the rule. *)
Theorem EnsureRuleSet_first_pass_gap :
  let all := @mkRuleSet EqLabels [mkSGRule Egress "IPv4" "" 0 0 "0.0.0.0/0" ""] ∅ in
  let pass := @EnsureRuleSet _ RefNeutron EqLabels "knp-policy-x" "prod/p" all ∅ in
  let '(r1, s1) := pass ns_empty in
  let '(r2, s2) := pass s1 in
  is_ok r1 = true ∧ map_to_list (ns_rules s1) = [] ∧
  is_ok r2 = true ∧ map snd (map_to_list (ns_rules s2)) =
    [(match r2 with Ok id => id | Err _ => "" end,
      mkRuleFields "egress" "IPv4" "" 0 0 "0.0.0.0/0" "" "")].
Proof. vm_compute. done. Qed.

(** [EnsureBaseline] leaves the two allow groups open in their own direction
    for both address families and holding no rule of the other direction, and
    the deny-all group holding no rule at all, although Neutron puts two egress
    rules into every group it creates. *)
Theorem EnsureBaseline_correct {W : Type} `{!NeutronAPI W} (view : W → NeutronState)
    `{!NeutronLaws W view} (s : NeutronState) :
  runs view s EnsureBaseline
    (λ ie s', baseline_ready AllowIngress "ingress" ie.1 s' ∧
              baseline_ready AllowEgress "egress" ie.2 s' ∧
              ∃ d, denyall_ready d s')
    (λ _ _, True).
Proof. apply (EnsureBaseline_runs view). Qed.

(** C34 [Sweep], finished or failed, deletes only policy groups of a namespace
    this process serves whose policy is gone, and only peer sets no surviving
    policy group points at -- including groups of namespaces it does not serve;
    it changes nothing that stays. *)
Theorem Sweep_safe {W : Type} `{!NeutronAPI W} (view : W → NeutronState)
    `{!NeutronLaws W view} (live serves : string → bool) (s : NeutronState) :
  runs view s (Sweep live serves)
    (λ _ s', swept live serves s s') (λ _ s', swept live serves s s').
Proof. apply (Sweep_runs view). Qed.

(** The policy a group belongs to is read back from the description an
    [EnsureRuleSet] of an existing group writes, but not from the one a created
    group gets: its suffix hides it, so a group whose policy is deleted before
    a second pass is one [Sweep] never collects. *)
Theorem policyOf_roundtrip (ref name : string) (live serves : string → bool) :
  let description := policy_prefix +:+ ref +:+ policy_suffix in
  policyOf description = ref ∧
  (∀ id rules, sweep_doomed live serves
     (mkSecGroup id name (created_description description) rules) = false).
Proof.
  split; [apply policyOf_written|]. intros id rules. unfold sweep_doomed. cbn [gr_Name gr_Description].
  rewrite policyOf_created, bool_decide_true by done. by rewrite andb_false_r.
Qed.

(** [SyncAddresses] makes the peer set hold exactly the wanted addresses, as
    Neutron stores them, from whatever it held. *)
Theorem SyncAddresses_exact {W : Type} `{!NeutronAPI W} (view : W → NeutronState)
    `{!NeutronLaws W view} (id : string) (want : list string) (s : NeutronState) :
  addrs_stored s →
  runs view s (SyncAddresses id want)
    (λ _ s', ∃ n a, ns_addrs s !! id = Some (n, a) ∧
                    s' = set_addrs (<[id := (n, stored want)]>) s)
    (λ _ _, True).
Proof. apply (SyncAddresses_runs view). Qed.

(** ** Witnesses *)
Definition ex_set : @RuleSet EqLabels :=
  @mkRuleSet EqLabels [mkSGRule Egress "IPv4" "" 0 0 "0.0.0.0/0" "";
                       mkSGRule Ingress "IPv4" "tcp" 80 80 "" "ns=prod;pods=all"] ∅.
Definition ex_peers : gmap string string := {["ns=prod;pods=all" := "ag1"]}.
Definition ex_addrs : NeutronState :=
  mkNeutronState ∅ ∅ {["ag1" := ("knp-peers-1", {["10.0.0.1/32"; "10.0.0.2/32"]})]} ∅.

Lemma EnsureRuleSet_converges_witness :
  ∃ id s', ∀ f, group_has s' id f ↔
    f ∈ [mkRuleFields "egress" "IPv4" "" 0 0 "0.0.0.0/0" "" "";
         mkRuleFields "ingress" "IPv4" "tcp" 80 80 "" "" "ag1"].
Proof.
  destruct (runs_ok ref_clean ns_empty _ _ _
    (@EnsureRuleSet_converges _ RefNeutron ref_clean RefNeutron_laws EqLabels
       "knp-policy-x" "prod/p" ex_set ex_peers ns_empty
       ltac:(intros i j x y Hi; simpl in Hi; by rewrite lookup_empty in Hi)
       ltac:(constructor; [by left|constructor; [by right|constructor]])))
    as (id & _ & want & Hw & H); [by vm_compute|].
  eexists id, _. injection Hw as <-. exact H.
Defined.

Lemma EnsureRuleSet_never_stale_witness : ∃ id s',
  ∀ f, group_has s' id f →
    f ∈ [mkRuleFields "egress" "IPv4" "" 0 0 "0.0.0.0/0" "" "";
         mkRuleFields "ingress" "IPv4" "tcp" 80 80 "" "" "ag1"].
Proof.
  destruct (runs_ok ref_clean ns_empty _ _ _
    (@EnsureRuleSet_never_stale _ RefNeutron ref_clean RefNeutron_laws EqLabels
       "knp-policy-x" "prod/p" ex_set ex_peers ns_empty))
    as (id & _ & want & s1 & Hw & _ & H & _); [by vm_compute|].
  eexists id, _. injection Hw as <-. exact H.
Defined.

Lemma EnsureBaseline_correct_witness : ∃ i s',
  baseline_ready AllowIngress "ingress" i s'.
Proof.
  destruct (runs_ok ref_clean ns_empty _ _ _
    (@EnsureBaseline_correct _ RefNeutron ref_clean RefNeutron_laws ns_empty))
    as (ie & _ & H & _); [by vm_compute|].
  eexists _, _. exact H.
Defined.

Lemma Sweep_safe_witness : ∃ s',
  swept (λ _, false) (λ _, true) ex_addrs s' ∧ ns_addrs s' !! "ag1" = None.
Proof.
  destruct (runs_ok ref_clean ex_addrs _ _ _
    (@Sweep_safe _ RefNeutron ref_clean RefNeutron_laws (λ _, false) (λ _, true) ex_addrs))
    as (n & _ & H); [by vm_compute|].
  eexists. split; [exact H|]. by vm_compute.
Defined.

Lemma SyncAddresses_exact_witness : ∃ s',
  s' = set_addrs (<["ag1" := ("knp-peers-1", stored ["10.0.0.2"; "10.0.0.3"])]>) ex_addrs.
Proof.
  assert (addrs_stored ex_addrs) as Hst.
  { intros id n a x. unfold ex_addrs. simpl. rewrite lookup_singleton_Some.
    intros [<- [= <- <-]] Hx. apply elem_of_union in Hx.
    rewrite !elem_of_singleton in Hx. by destruct Hx as [->| ->]; vm_compute. }
  destruct (runs_ok ref_clean ex_addrs _ _ _
    (@SyncAddresses_exact _ RefNeutron ref_clean RefNeutron_laws "ag1"
       ["10.0.0.2"; "10.0.0.3"] ex_addrs Hst))
    as (u & _ & n & a & Ha & Hs); [by vm_compute|].
  eexists. injection Ha as <- <-. reflexivity.
Defined.
