(* ===== verification/NetpolReconciler.v ===== *)
(** * pkg/netpol/reconciler.go and controller.go: which groups a port carries

    [GroupsFor] composes a pod's groups from the baseline and the groups the
    policy worker has built; [SyncPolicyPeers] is that worker, [ReconcilePod]
    the pod path.  The informer caches are [Listers], the network service is
    NetpolNeutron's.  The main theorem puts the pieces together: what the rules
    of the groups on a port allow is what Kubernetes says the policies allow. *)

From S2P Require Import Prelude GoStd K8s NetpolTranslate NetpolRuleSet NetpolNeutron.

Local Open Scope string_scope.
Local Open Scope list_scope.

Section reconciler.
Context {L : LabelsAPI}.

(** The client-go listers, over the caches of this process.  [Namespace] is
    [None] where the field is nil. *)
Record Listers := mkListers {
  pods_List : string → Selector → result (list Pod);
  pods_Get : string → string → option Pod;
  policies_List : option (string → result (list NetworkPolicy));
  policies_ListAll : result (list NetworkPolicy);
  policies_Get : string → string → option NetworkPolicy;
  namespaces_List : option (Selector → result (list (string * gmap string string))) }.

Record Reconciler := mkReconciler {
  baseline_ingress : string;
  baseline_egress : string;
  baseline_denyAll : string;
  ruleGroups : gmap string string }.

Definition new_Reconciler : Reconciler := mkReconciler "" "" "" ∅.

Definition policyKey (p : NetworkPolicy) : string := pol_Namespace p +:+ "/" +:+ pol_Name p.

(** *** The cache of rule groups *)
Definition rememberRuleGroup (r : Reconciler) (policyKey groupID : string) : Reconciler :=
  mkReconciler (baseline_ingress r) (baseline_egress r) (baseline_denyAll r)
    (<[policyKey := groupID]> (ruleGroups r)).
Definition ForgetPolicy (r : Reconciler) (policyKey : string) : Reconciler :=
  mkReconciler (baseline_ingress r) (baseline_egress r) (baseline_denyAll r)
    (delete policyKey (ruleGroups r)).
Definition ruleGroupOf (r : Reconciler) (policyKey : string) : option string :=
  ruleGroups r !! policyKey.

Variable ls : Listers.
Variable ServesNamespace : string → bool.

(** *** [GroupsFor] *)
Definition policiesFor (namespace : string) : result (list NetworkPolicy) :=
  match policies_List ls with None => Ok [] | Some list => list namespace end.

Definition policyGroups_step (r : Reconciler) (pod : Pod) (out : list string)
    (p : NetworkPolicy) : result (list string) :=
  t ← Translate p;
  if negb (Matches (Subject t) (Labels pod)) then Ok out
  else if Empty (PolicyRules t) then Ok out
  else match ruleGroupOf r (policyKey p) with
       | None => Err (ErrPolicyPending (policyKey p))
       | Some id => if decide (id ≠ "") then Ok (out ++ [id]) else Ok out
       end.

Definition policyGroupsFor (r : Reconciler) (pod : Pod) (policies : list NetworkPolicy)
    : result (list string) :=
  fold_result (policyGroups_step r pod) [] policies.

Definition GroupsFor (r : Reconciler) (pod : Pod) : result (list string) :=
  if bool_decide (baseline_ingress r = "") || bool_decide (baseline_egress r = "")
     || bool_decide (baseline_denyAll r = "")
  then Err (ErrMsg "the baseline security groups have not been resolved yet")
  else
    policies ← policiesFor (Namespace pod);
    match IsolationOf pod policies with
    | Err e => Err e
    | Ok isolated =>
        if decide (isolated = ∅)
        then Ok [baseline_denyAll r; baseline_ingress r; baseline_egress r]
        else
          let groups := baseline_denyAll r
            :: (if decide (opt_or [] (isolated !! Ingress) = []) then [baseline_ingress r] else [])
            ++ (if decide (opt_or [] (isolated !! Egress) = []) then [baseline_egress r] else []) in
          allowed ← policyGroupsFor r pod policies;
          Ok (sort_strings (groups ++ allowed))
    end.

(** *** [AddressesFor] *)
Definition namespacesMatching (sel : PeerSelector) : result (list string) :=
  if decide (sel_Namespace sel ≠ "") then
    Ok (if ServesNamespace (sel_Namespace sel) then [sel_Namespace sel] else [])
  else
    match namespaces_List ls with
    | None => Ok []
    | Some list =>
        let match_ := opt_or Everything (sel_Namespaces sel) in
        l ← list match_;
        Ok (sort_strings (filter (λ n, ServesNamespace n = true) (map fst l)))
    end.

(** [sel.Pods] is handed to the lister as it is; [resolvePeer] always sets it. *)
Definition AddressesFor (sel : PeerSelector) : result (list string) :=
  namespaces ← namespacesMatching sel;
  out ← fold_result (λ out ns,
    pods ← pods_List ls ns (opt_or Everything (sel_Pods sel));
    Ok (out ++ filter (λ ip, ip ≠ "") (map (λ p, PodIP (Status p)) pods))) [] namespaces;
  Ok (sort_strings out).

(** *** The methods that talk to Neutron

    The reconciler's own fields are part of the world of its methods. *)
Section with_neutron.
Context {W : Type} `{!NeutronAPI W}.
Variable sha256_hex : string → string.

Definition RW : Type := Reconciler * W.
Definition on_neutron {A} (m : M W A) : M RW A := λ rw,
  let '(r, w') := m rw.2 in (r, (rw.1, w')).
Definition get_rec : M RW Reconciler := λ rw, (Ok rw.1, rw).
Definition modify_rec (f : Reconciler → Reconciler) : M RW () := λ rw, (Ok (), (f rw.1, rw.2)).

Definition Reconciler_EnsureBaseline : M RW () :=
  '(ingress, egress) ← on_neutron EnsureBaseline;
  denyAll ← on_neutron EnsureDenyAll;
  modify_rec (λ r, mkReconciler ingress egress denyAll (ruleGroups r)).

(** [keys] sorted out of the map, as the source does. *)
Definition peer_keys (set : RuleSet) : list string :=
  sort_strings (map fst (map_to_list (rs_Peers set))).

Definition sync_peer (set : RuleSet) (peers : gmap string string) (key : string)
    : M W (gmap string string) :=
  id ← EnsureAddressGroup (AddressGroupName sha256_hex key);
  addresses ← lift_result (AddressesFor (opt_or zero_PeerSelector (rs_Peers set !! key)));
  SyncAddresses id addresses ≫= λ _,
  mret (<[key := id]> peers).

(** [ReportRefusals] only logs. *)
Definition SyncPolicyPeers (p : NetworkPolicy) : M RW () :=
  t ← lift_result (Translate p);
  let set := PolicyRules t in
  peers ← on_neutron (fold_each (sync_peer set) ∅ (peer_keys set));
  if Empty set then modify_rec (λ r, rememberRuleGroup r (policyKey p) "")
  else
    id ← on_neutron (EnsureRuleSet (GroupNameFor sha256_hex (pol_Namespace p) (pol_Name p))
           (policyKey p) set peers);
    modify_rec (λ r, rememberRuleGroup r (policyKey p) id).

(** *** [ReconcilePod]

    [PortOf] is the provider's; [SplitMetaNamespaceKey] is client-go's. *)
Variable PortOf : option (Pod → string).
Variable SplitMetaNamespaceKey : string → result (string * string).

Fixpoint equalStrings (a b : list string) : bool :=
  match a, b with
  | [], [] => true
  | x :: a', y :: b' => bool_decide (x = y) && equalStrings a' b'
  | _, _ => false
  end.

Definition ReconcilePod (key : string) : M RW () :=
  '(namespace, name) ← lift_result (SplitMetaNamespaceKey key);
  if negb (ServesNamespace namespace) then mret ()
  else match pods_Get ls namespace name with
  | None => mret ()
  | Some pod =>
      if decide (DeletionTimestamp pod ≠ None) then mret ()
      else
        let portID := match PortOf with Some f => f pod | None => "" end in
        if decide (portID = "") then mret ()
        else
          r ← get_rec;
          want ← lift_result (GroupsFor r pod);
          current ← on_neutron (wrap ("reading port " +:+ portID) (ports_Get portID));
          let have := sort_strings (np_SecurityGroups current) in
          if equalStrings have want then mret ()
          else on_neutron (wrap ("updating the groups on port " +:+ portID)
                 (ports_Update portID want))
  end.

(** *** The policy worker

    The controller holds its own reconciler and, where [ReconcilerFor] is
    set, the one it returns for the key's namespace: [None] where it is
    nil.  [resolves] is the error [ReconcilerFor] may return. *)
Definition CW : Type := Reconciler * option Reconciler * W.
Definition on_reconciler {A} (m : M RW A) : M CW A := λ cw,
  match cw with
  | (c, None, w) => let '(a, (c', w')) := m (c, w) in (a, (c', None, w'))
  | (c, Some r, w) => let '(a, (r', w')) := m (r, w) in (a, (c, Some r', w'))
  end.
Definition on_own {A} (m : M RW A) : M CW A := λ cw,
  match cw with (c, o, w) => let '(a, (c', w')) := m (c, w) in (a, (c', o, w')) end.
Variable resolves : string → result ().

Definition syncPolicy (key : string) : M CW () :=
  '(namespace, name) ← lift_result (SplitMetaNamespaceKey key);
  if negb (ServesNamespace namespace) then mret ()
  else match policies_Get ls namespace name with
       | None => on_own (modify_rec (λ r, ForgetPolicy r key))
       | Some p => lift_result (resolves namespace) ≫= λ _, on_reconciler (SyncPolicyPeers p)
       end.

Definition sweep : M W () :=
  match policies_ListAll ls with
  | Err _ => mret ()
  | Ok policies =>
      let live : gset string := list_to_set (map policyKey policies) in
      try (Sweep (λ k, bool_decide (k ∈ live)) ServesNamespace) ≫= λ _, mret ()
  end.
End with_neutron.

(** *** Event handlers and the two queues

    What a handler puts in the pod queue and in the policy queue; the policy
    queue delays its keys by [PeerCoalesce].  An event carries the object or
    the tombstone's object; one that is not of the handled type is dropped
    before it gets here. *)
Record Enqueued := mkEnqueued { q_pods : list string; q_policies : list string }.
Definition nothing : Enqueued := mkEnqueued [] [].
Definition both (a b : Enqueued) : Enqueued :=
  mkEnqueued (q_pods a ++ q_pods b) (q_policies a ++ q_policies b).

Definition podKey (p : Pod) : string := Namespace p +:+ "/" +:+ Name p.

Definition enqueuePod (p : Pod) : Enqueued :=
  if ServesNamespace (Namespace p) then mkEnqueued [podKey p] [] else nothing.

Definition served_policies : list string :=
  match policies_ListAll ls with
  | Err _ => []
  | Ok l => map policyKey (filter (λ p, ServesNamespace (pol_Namespace p) = true) l)
  end.

Definition enqueuePoliciesNear (p : Pod) : Enqueued :=
  if ServesNamespace (Namespace p) then mkEnqueued [] served_policies else nothing.

Definition enqueuePolicy (p : NetworkPolicy) : Enqueued :=
  if ServesNamespace (pol_Namespace p) then mkEnqueued [] [policyKey p] else nothing.

Definition enqueueNamespaceOf (p : NetworkPolicy) : Enqueued :=
  if ServesNamespace (pol_Namespace p) then
    match pods_List ls (pol_Namespace p) Everything with
    | Err _ => nothing
    | Ok pods => mkEnqueued (map podKey pods) []
    end
  else nothing.

Definition resyncPolicies : Enqueued := mkEnqueued [] served_policies.

Definition samePolicyInputs (a b : Pod) : bool :=
  bool_decide (Labels a = Labels b) && bool_decide (PodIP (Status a) = PodIP (Status b)).

Inductive Event (A : Type) := EvAdd (cur : A) | EvUpdate (old cur : A) | EvDelete (old : A).
Arguments EvAdd {A} cur.
Arguments EvUpdate {A} old cur.
Arguments EvDelete {A} old.

Definition podHandler (e : Event Pod) : Enqueued :=
  match e with
  | EvAdd p => both (enqueuePod p) (enqueuePoliciesNear p)
  | EvUpdate a b =>
      if samePolicyInputs a b then nothing else both (enqueuePod b) (enqueuePoliciesNear b)
  | EvDelete p => enqueuePoliciesNear p
  end.

Definition policyHandler (e : Event NetworkPolicy) : Enqueued :=
  match e with
  | EvAdd p | EvUpdate _ p => both (enqueueNamespaceOf p) (enqueuePolicy p)
  | EvDelete p => enqueueNamespaceOf p
  end.

(** What a worker tells its queue about the key it was handed. *)
Inductive QueueCall := AddRateLimited (key : string) | Forget (key : string)
  | PoliciesAdd (key : string) | Done (key : string).

Definition workPolicies_step (key : string) (res : result ()) : list QueueCall :=
  match res with
  | Err _ => [AddRateLimited key; Done key]
  | Ok _ => [Forget key; Done key]
  end.

(** [rerr]: did a credential resolve; [res]: what [ReconcilePod] returned. *)
Definition work_step (key : string) (rerr : result ()) (res : result ()) : list QueueCall :=
  match rerr with
  | Err _ => [AddRateLimited key; Done key]
  | Ok _ =>
      match res with
      | Err e =>
          match root_cause e with ErrPolicyPending p => [PoliciesAdd p] | _ => [] end
          ++ [AddRateLimited key; Done key]
      | Ok _ => [Forget key; Done key]
      end
  end.
End reconciler.

Arguments EvAdd {A} cur.
Arguments EvUpdate {A} old cur.
Arguments EvDelete {A} old.

(** ** What Kubernetes says of a pod *)
Section k8s_pod.
Context {L : LabelsAPI}.
Variable cidr_contains : string → string → bool.
Variable ns_labels : string → gmap string string.
Variable named_port : string → Z → bool.

(** Isolation as Kubernetes defines it from [policyTypes]. *)
Definition k8s_isolates (p : NetworkPolicy) (d : Direction) : bool :=
  match d with
  | Ingress => bool_decide (pol_PolicyTypes p = [] ∨ PolicyTypeIngress ∈ pol_PolicyTypes p)
  | Egress => bool_decide ((pol_PolicyTypes p = [] ∧ pol_Egress p ≠ []) ∨
                           PolicyTypeEgress ∈ pol_PolicyTypes p)
  end.

Definition k8s_applies (pod : Pod) (d : Direction) (p : NetworkPolicy) : bool :=
  bool_decide (pol_Namespace p = Namespace pod)
  && k8s_selected (pol_PodSelector p) (Labels pod) && k8s_isolates p d.

(** A direction no policy isolates is open; otherwise the policies' rules add up. *)
Definition k8s_pod_allows (policies : list NetworkPolicy) (pod : Pod) (d : Direction)
    (t : Traffic) : bool :=
  let applying := filter (λ p, k8s_applies pod d p = true) policies in
  bool_decide (applying = [])
  || existsb (λ p, k8s_allows cidr_contains ns_labels named_port p d t) applying.

(** [content g]: what the rules in group [g] allow, as EnsureBaseline and
    EnsureRuleSet leave it. *)
Record content_ok (r : Reconciler) (policies : list NetworkPolicy)
    (content : string → Direction → Traffic → bool) : Prop := {
  co_denyAll : ∀ d t, content (baseline_denyAll r) d t = false;
  co_ingress : ∀ d t, content (baseline_ingress r) d t = bool_decide (d = Ingress);
  co_egress : ∀ d t, content (baseline_egress r) d t = bool_decide (d = Egress);
  co_policy : ∀ p tr id d t, p ∈ policies → Translate p = Ok tr →
    ruleGroups r !! policyKey p = Some id → id ≠ "" →
    content id d t = ruleset_allows cidr_contains ns_labels (PolicyRules tr) d t }.

(** What those groups may hold at any time between two writes: no more than was
    written -- an interrupted pass leaves less. *)
Record content_within (r : Reconciler) (policies : list NetworkPolicy)
    (content : string → Direction → Traffic → bool) : Prop := {
  cw_denyAll : ∀ d t, content (baseline_denyAll r) d t = false;
  cw_ingress : ∀ d t, content (baseline_ingress r) d t = true → d = Ingress;
  cw_egress : ∀ d t, content (baseline_egress r) d t = true → d = Egress;
  cw_policy : ∀ p tr id d t, p ∈ policies → Translate p = Ok tr →
    ruleGroups r !! policyKey p = Some id → id ≠ "" → content id d t = true →
    ruleset_allows cidr_contains ns_labels (PolicyRules tr) d t = true }.

Definition port_allows_traffic (content : string → Direction → Traffic → bool)
    (groups : list string) (d : Direction) (t : Traffic) : bool :=
  existsb (λ g, content g d t) groups.
End k8s_pod.

(** ** Lemmas *)
Section groups_facts.
Context {L : LabelsAPI}.

Lemma Translate_isolates p t d : Translate p = Ok t → isolates t d = k8s_isolates p d.
Proof.
  unfold Translate. case_match; [|done]. intros [= <-]. apply eq_true_iff_eq.
  unfold isolates. simpl. rewrite isolates_fold, lookup_empty. unfold policyTypes, k8s_isolates.
  destruct d; rewrite bool_decide_eq_true; destruct (pol_PolicyTypes p); simpl;
    try case_decide; rewrite ?elem_of_cons, ?elem_of_nil; naive_solver.
Qed.

Lemma Translate_subject p t m :
  Translate p = Ok t → Matches (Subject t) m = k8s_selected (pol_PodSelector p) m.
Proof. unfold Translate, k8s_selected. case_match; [|done]. by intros [= <-]. Qed.

Lemma policyGroupsFor_app r pod l1 l2 :
  policyGroupsFor r pod (l1 ++ l2) = policyGroupsFor r pod l1 ≫= λ out,
    fold_result (policyGroups_step r pod) out l2.
Proof. apply fold_result_app. Qed.

(** What the loop collects, and that every policy it passed was translated. *)
Lemma policyGroupsFor_spec r pod policies out :
  policyGroupsFor r pod policies = Ok out →
  (∀ p, p ∈ policies → is_ok (Translate p) = true) ∧
  ∀ id, id ∈ out ↔ ∃ p t, p ∈ policies ∧ Translate p = Ok t ∧
    Matches (Subject t) (Labels pod) = true ∧ rs_Rules (PolicyRules t) ≠ [] ∧
    ruleGroups r !! policyKey p = Some id ∧ id ≠ "".
Proof.
  revert out. induction policies as [|p policies IH] using rev_ind; intros out.
  { intros [= <-]. split; [by intros p ?%elem_of_nil|]. intros id. rewrite elem_of_nil.
    split; [done|]. by intros (p & t & Hp%elem_of_nil & _). }
  rewrite policyGroupsFor_app. unfold mbind, result_bind.
  destruct (policyGroupsFor r pod policies) as [out1|]; [|done].
  destruct (IH out1 eq_refl) as [Hok Hin]. simpl. unfold mbind, result_bind.
  unfold policyGroups_step, mbind, result_bind, ruleGroupOf.
  destruct (Translate p) as [t|] eqn:Ht; [|done].
  intros Hout. split.
  { intros q [Hq| ->%list_elem_of_singleton]%elem_of_app; [by apply Hok|by rewrite Ht]. }
  intros id. setoid_rewrite elem_of_app. setoid_rewrite list_elem_of_singleton.
  assert (id ∈ out ↔ id ∈ out1 ∨ (Matches (Subject t) (Labels pod) = true ∧
    rs_Rules (PolicyRules t) ≠ [] ∧ ruleGroups r !! policyKey p = Some id ∧ id ≠ "")) as ->.
  { destruct (Matches _ _) eqn:Hm; simpl in Hout; [|simplify_eq; naive_solver].
    unfold Empty in Hout. destruct (bool_decide _) eqn:He.
    { apply bool_decide_eq_true in He. simplify_eq. naive_solver. }
    apply bool_decide_eq_false in He.
    destruct (ruleGroups r !! policyKey p) as [g|] eqn:Hg; [|done].
    case_decide; simplify_eq; [|naive_solver].
    rewrite elem_of_app, list_elem_of_singleton. naive_solver. }
  rewrite Hin. split.
  - intros [(q & tq & ? & ?)|?]; [exists q, tq; naive_solver|exists p, t; naive_solver].
  - intros (q & tq & [Hq| ->] & Htq & ?); [left; exists q, tq; naive_solver|].
    right. rewrite Ht in Htq. by injection Htq as <-.
Qed.

Lemma isolated_iff pod policies iso d :
  IsolationOf pod policies = Ok iso →
  opt_or [] (iso !! d) = [] ↔ filter (λ p, k8s_applies pod d p = true) policies = [].
Proof.
  intros Hiso.
  assert ((∃ n, n ∈ opt_or [] (iso !! d)) ↔
          ∃ p, p ∈ filter (λ p, k8s_applies pod d p = true) policies) as Hex.
  { setoid_rewrite (IsolationOf_elem pod policies iso d _ Hiso).
    setoid_rewrite list_elem_of_filter. unfold k8s_applies.
    setoid_rewrite andb_true_iff. setoid_rewrite andb_true_iff.
    setoid_rewrite bool_decide_eq_true. split.
    - intros (n & p & t & Hp & Ht & Hns & Hm & Hi & _). exists p.
      rewrite <-(Translate_subject p t), <-(Translate_isolates p t) by done. done.
    - intros (p & ((Hns & Hm) & Hi) & Hp).
      assert (∃ t, Translate p = Ok t) as [t Ht].
      { unfold k8s_selected in Hm. unfold Translate.
        destruct (LabelSelectorAsSelector (pol_PodSelector p)); [eauto|done]. }
      exists (pol_Name p), p, t.
      rewrite (Translate_subject p t), (Translate_isolates p t) by done. done. }
  split; intros Hn; apply elem_of_nil_inv; intros x Hx.
  - assert (∃ n, n ∈ opt_or [] (iso !! d)) as [n H] by (apply Hex; eauto).
    rewrite Hn in H. by apply elem_of_nil in H.
  - assert (∃ p, p ∈ filter (λ p, k8s_applies pod d p = true) policies) as [p H]
      by (apply Hex; eauto).
    rewrite Hn in H. by apply elem_of_nil in H.
Qed.

(** The members of what [GroupsFor] returns, with why each is there. *)
Lemma GroupsFor_spec ls r pod policies groups :
  policiesFor ls (Namespace pod) = Ok policies → GroupsFor ls r pod = Ok groups →
  ∃ iso, IsolationOf pod policies = Ok iso ∧
    (baseline_denyAll r ≠ "" ∧ baseline_ingress r ≠ "" ∧ baseline_egress r ≠ "") ∧
    (iso = ∅ ∨ ∃ out, policyGroupsFor r pod policies = Ok out) ∧
    ∀ g, g ∈ groups ↔ g = baseline_denyAll r ∨
      (g = baseline_ingress r ∧ opt_or [] (iso !! Ingress) = []) ∨
      (g = baseline_egress r ∧ opt_or [] (iso !! Egress) = []) ∨
      (iso ≠ ∅ ∧ ∃ out, policyGroupsFor r pod policies = Ok out ∧ g ∈ out).
Proof.
  intros Hp. unfold GroupsFor. destruct (_ || _ || _) eqn:Hb; [done|].
  rewrite !orb_false_iff, !bool_decide_eq_false in Hb. destruct Hb as [[Hi He] Hd].
  rewrite Hp. unfold mbind, result_bind.
  destruct (IsolationOf pod policies) as [iso|]; [|done].
  destruct (decide (iso = ∅)) as [->|Hne].
  - intros [= <-]. exists ∅. split; [done|]. split; [done|]. split; [by left|].
    intros g. rewrite !elem_of_cons, elem_of_nil, !lookup_empty. simpl. naive_solver.
  - destruct (policyGroupsFor r pod policies) as [out|] eqn:Hout; [|done].
    intros [= <-]. exists iso. split; [done|]. split; [done|]. split; [right; by exists out|].
    intros g. rewrite elem_of_sort_strings. simpl.
    rewrite elem_of_cons, !elem_of_app.
    repeat case_decide; rewrite ?list_elem_of_singleton, ?elem_of_nil; naive_solver.
Qed.
End groups_facts.

Section enforcement.
Context {L : LabelsAPI} `{!LabelsLaws L} `{!SelectorStringLaws L}.
Variable cidr_contains : string → string → bool.
Variable ns_labels : string → gmap string string.
Variable named_port : string → Z → bool.
Hypothesis cidr_family : ∀ c a,
  cidr_contains c a = true → familyOfCIDR c = familyOfCIDR a.

Abbreviation pod_allows := (k8s_pod_allows cidr_contains ns_labels named_port).
Abbreviation allows := (k8s_allows cidr_contains ns_labels named_port).
Abbreviation contents_ok := (content_ok cidr_contains ns_labels).
Abbreviation contents_within := (content_within cidr_contains ns_labels).

Lemma not_applying pod policies d t :
  filter (λ p, k8s_applies pod d p = true) policies = [] → pod_allows policies pod d t = true.
Proof. intros H. unfold k8s_pod_allows. by rewrite H. Qed.

Lemma pod_allows_policy pod policies d t p :
  p ∈ policies → k8s_applies pod d p = true → allows p d t = true →
  pod_allows policies pod d t = true.
Proof.
  intros Hp Hap Hal. unfold k8s_pod_allows. apply orb_true_iff. right.
  apply existsb_In. exists p. by rewrite list_elem_of_filter.
Qed.

Lemma content_ok_within r policies content :
  contents_ok r policies content → contents_within r policies content.
Proof.
  intros [Hcd Hci Hce Hcp]. split; [done|..].
  - intros d t. by rewrite Hci, bool_decide_eq_true.
  - intros d t. by rewrite Hce, bool_decide_eq_true.
  - intros p tr id d t Hp Ht Hid Hne. by rewrite (Hcp p tr).
Qed.

Lemma groups_never_wider ls r pod policies groups content d t :
  policiesFor ls (Namespace pod) = Ok policies →
  Forall (λ p, pol_Namespace p = Namespace pod) policies →
  GroupsFor ls r pod = Ok groups → contents_within r policies content →
  Forall api_policy policies → Forall no_all_selector policies →
  upper_name (t_proto t) = true →
  port_allows_traffic content groups d t = true → pod_allows policies pod d t = true.
Proof.
  intros Hpol Hns Hg [Hcd Hci Hce Hcp] Hapi Hna Hup. unfold port_allows_traffic.
  rewrite existsb_In. intros (g & Hin & Hal).
  destruct (GroupsFor_spec ls r pod policies groups Hpol Hg) as (iso & Hiso & _ & _ & Hmem).
  apply Hmem in Hin as [->|[[-> Hi]|[[-> Hi]|(_ & out & Hout & Hin)]]].
  - by rewrite Hcd in Hal.
  - apply Hci in Hal as ->.
    by apply not_applying, (isolated_iff pod policies iso Ingress Hiso).
  - apply Hce in Hal as ->.
    by apply not_applying, (isolated_iff pod policies iso Egress Hiso).
  - apply policyGroupsFor_spec in Hout as [_ Hout].
    apply Hout in Hin as (p & tr & Hp & Ht & Hm & _ & Hid & Hne).
    rewrite Forall_forall in Hns, Hapi, Hna.
    apply (Hcp p tr) in Hal; [|done..].
    rewrite (PolicyRules_allows cidr_contains ns_labels cidr_family p) in Hal by auto.
    apply andb_true_iff in Hal as [Hi Hal].
    eapply pod_allows_policy; [exact Hp| |].
    + unfold k8s_applies. rewrite bool_decide_true by auto.
      by rewrite <-(Translate_subject p tr), Hm, <-(Translate_isolates p tr).
    + eapply translated_never_wider; [apply (Hapi p Hp)|done|done].
Qed.

Lemma ruleset_allows_nonempty s d t :
  ruleset_allows cidr_contains ns_labels s d t = true → rs_Rules s ≠ [].
Proof. unfold ruleset_allows. by destruct (rs_Rules s). Qed.

Lemma groups_not_narrower ls r pod policies groups content d t :
  policiesFor ls (Namespace pod) = Ok policies →
  GroupsFor ls r pod = Ok groups → contents_ok r policies content →
  (∀ k, ruleGroups r !! k = Some "" →
     ∀ p tr, p ∈ policies → policyKey p = k → Translate p = Ok tr → rs_Rules (PolicyRules tr) = []) →
  (∀ a, cidr_contains "0.0.0.0/0" a || cidr_contains "::/0" a = true) →
  Forall api_policy policies → Forall no_all_selector policies →
  upper_name (t_proto t) = true →
  (∀ p tr, p ∈ policies → Translate p = Ok tr → Refused tr = []) →
  pod_allows policies pod d t = true → port_allows_traffic content groups d t = true.
Proof.
  intros Hpol Hg [Hcd Hci Hce Hcp] Hempty Hall Hapi Hna Hup Href.
  destruct (GroupsFor_spec ls r pod policies groups Hpol Hg) as (iso & Hiso & _ & Hor & Hmem).
  unfold k8s_pod_allows, port_allows_traffic.
  rewrite orb_true_iff, bool_decide_eq_true, !existsb_In.
  intros [Hn|(p & Hp & Hal)].
  - apply (isolated_iff pod policies iso d Hiso) in Hn.
    destruct d; [exists (baseline_ingress r)|exists (baseline_egress r)];
      rewrite Hmem, ?Hci, ?Hce, bool_decide_true by done; naive_solver.
  - apply list_elem_of_filter in Hp as [Hap Hp].
    assert (iso ≠ ∅) as Hne.
    { intros ->. pose proof (proj1 (isolated_iff pod policies ∅ d Hiso)) as Hnil.
      rewrite lookup_empty in Hnil. specialize (Hnil eq_refl).
      assert (p ∈ filter (λ p, k8s_applies pod d p = true) policies) as Hx
        by by apply list_elem_of_filter.
      rewrite Hnil in Hx. by apply elem_of_nil in Hx. }
    destruct Hor as [|[out Hout]]; [done|].
    unfold k8s_applies in Hap. rewrite !andb_true_iff in Hap. destruct Hap as [[_ Hm] Hi].
    destruct (policyGroupsFor_spec r pod policies out Hout) as [Hok Hin].
    destruct (Translate p) as [tr|] eqn:Ht; [|by specialize (Hok p Hp); rewrite Ht in Hok].
    assert (ruleset_allows cidr_contains ns_labels (PolicyRules tr) d t = true) as Hrs.
    { rewrite (PolicyRules_allows cidr_contains ns_labels cidr_family p)
        by (done || by apply (proj1 (Forall_forall _ _) Hapi)
                 || by apply (proj1 (Forall_forall _ _) Hna)).
      rewrite (Translate_isolates p tr), Hi by done.
      rewrite (translated_exact cidr_contains ns_labels named_port p tr d t);
        [done|by apply (proj1 (Forall_forall _ _) Hapi)|done|by eapply Href|done]. }
    pose proof (ruleset_allows_nonempty _ _ _ Hrs) as Hnz.
    assert (∃ id, ruleGroups r !! policyKey p = Some id) as [id Hid].
    { clear -Hout Hp Ht Hm Hnz. revert out Hout. induction policies as [|q ps IH] using rev_ind;
        intros out; [by apply elem_of_nil in Hp|].
      rewrite policyGroupsFor_app. unfold mbind, result_bind.
      destruct (policyGroupsFor r pod ps) as [out1|] eqn:Ho; [|done].
      apply elem_of_app in Hp as [Hp| ->%list_elem_of_singleton]; [by eauto|].
      simpl. unfold policyGroups_step, mbind, result_bind, ruleGroupOf, Empty.
      rewrite Ht, (Translate_subject q tr), Hm by done. simpl.
      rewrite bool_decide_false by done. destruct (ruleGroups r !! policyKey q); [eauto|done]. }
    assert (id ≠ "") as Hidne.
    { intros ->. apply Hnz. by eapply Hempty. }
    exists id. rewrite (Hcp p tr) by done. split; [|done].
    apply Hmem. do 3 right. split; [done|]. exists out. split; [done|].
    apply Hin. exists p, tr. rewrite (Translate_subject p tr) by done. done.
Qed.
End enforcement.

(** ** Peer addresses *)
Section addresses.
Context {L : LabelsAPI} `{!LabelsLaws L}.

(** The objects a cache holds; what the listers answer from it. *)
Record Cluster := mkCluster {
  cl_pods : list Pod; cl_namespaces : gmap string (gmap string string) }.

Record pods_cached (ls : Listers) (c : Cluster) : Prop := {
  pc_pods : ∀ ns sel l, pods_List ls ns sel = Ok l → ∀ p,
    p ∈ l ↔ p ∈ cl_pods c ∧ Namespace p = ns ∧ Matches sel (Labels p) = true;
  pc_namespaces : ∀ f sel l, namespaces_List ls = Some f → f sel = Ok l → ∀ n m,
    (n, m) ∈ l ↔ cl_namespaces c !! n = Some m ∧ Matches sel m = true;
  pc_exist : ∀ p, p ∈ cl_pods c → is_Some (cl_namespaces c !! Namespace p) }.

Definition cluster_labels (c : Cluster) (ns : string) : gmap string string :=
  opt_or ∅ (cl_namespaces c !! ns).

(** Traffic from or to a pod. *)
Definition pod_traffic (p : Pod) : Traffic :=
  mkTraffic (PodIP (Status p)) (Some (Namespace p, Labels p)) "" 0.

Lemma fold_result_collect {A B} (f : A → result (list B)) l out res :
  fold_result (λ out x, ys ← f x; Ok (out ++ ys)) out l = Ok res →
  (∀ x, x ∈ l → is_ok (f x) = true) ∧
  ∀ y, y ∈ res ↔ y ∈ out ∨ ∃ x ys, x ∈ l ∧ f x = Ok ys ∧ y ∈ ys.
Proof.
  revert out. induction l as [|x l IH]; intros out; simpl.
  - intros [= <-]. split; [by intros x ?%elem_of_nil|]. intros y. split; [by left|].
    intros [?|(x & ys & Hx%elem_of_nil & _)]; done.
  - unfold mbind, result_bind in *. destruct (f x) as [ys|] eqn:Hf; [|done].
    intros Hr. destruct (IH _ Hr) as [Hok Hin]. split.
    + intros x' [->|Hx]%elem_of_cons; [by rewrite Hf|by apply Hok].
    + intros y. rewrite Hin, elem_of_app. setoid_rewrite elem_of_cons. split.
      * intros [[?|?]|(x' & ys' & ? & ? & ?)]; [by left|right; exists x, ys; naive_solver|].
        right. exists x', ys'. naive_solver.
      * intros [?|(x' & ys' & [->|Hx] & Hf' & Hy)]; [by left; left| |right; eauto].
        rewrite Hf in Hf'. injection Hf' as <-. by left; right.
Qed.

Lemma AddressesFor_members ls serves sel l :
  AddressesFor ls serves sel = Ok l →
  ∃ nss, namespacesMatching ls serves sel = Ok nss ∧
    ∀ ip, ip ∈ l ↔ ip ≠ "" ∧ ∃ ns pods p, ns ∈ nss ∧
      pods_List ls ns (opt_or Everything (sel_Pods sel)) = Ok pods ∧ p ∈ pods ∧
      PodIP (Status p) = ip.
Proof.
  unfold AddressesFor, mbind, result_bind.
  destruct (namespacesMatching ls serves sel) as [nss|]; [|done].
  destruct (fold_result _ _ _) as [out|] eqn:Hf; [|done].
  intros [= <-]. exists nss. split; [done|]. intros ip. rewrite elem_of_sort_strings.
  assert (fold_result (λ out ns,
      ys ← (pods ← pods_List ls ns (opt_or Everything (sel_Pods sel));
            Ok (filter (λ ip, ip ≠ "") (map (λ p, PodIP (Status p)) pods)));
      Ok (out ++ ys)) [] nss = Ok out) as Hf'.
  { rewrite <-Hf. clear. generalize (@nil string). induction nss as [|n nss IH]; intros o; [done|].
    simpl. unfold mbind, result_bind. destruct (pods_List ls n _); [apply IH|done]. }
  apply fold_result_collect in Hf' as [_ Hin]. rewrite Hin, elem_of_nil.
  unfold mbind, result_bind. split.
  - intros [[]|(ns & ys & Hns & Hys & Hip)].
    destruct (pods_List ls ns _) as [pods|] eqn:Hp; [|done]. injection Hys as <-.
    apply list_elem_of_filter in Hip as [Hne Hip].
    apply list_elem_of_fmap in Hip as (p & -> & Hpin). split; [done|]. by exists ns, pods, p.
  - intros (Hne & ns & pods & p & Hns & Hp & Hpin & <-). right.
    exists ns, (filter (λ ip, ip ≠ "") (map (λ p, PodIP (Status p)) pods)).
    rewrite Hp. split; [done|]. split; [done|]. apply list_elem_of_filter. split; [done|].
    by apply (list_elem_of_fmap_2 (λ p, PodIP (Status p))).
Qed.

Lemma namespacesMatching_spec ls serves sel nss c ns :
  pods_cached ls c → namespaces_List ls ≠ None →
  namespacesMatching ls serves sel = Ok nss → is_Some (cl_namespaces c !! ns) →
  ns ∈ nss ↔ serves ns = true ∧
    (if decide (sel_Namespace sel = "")
     then Matches (opt_or Everything (sel_Namespaces sel)) (cluster_labels c ns) = true
     else ns = sel_Namespace sel).
Proof.
  intros Hc Hl Hn [m Hm]. unfold namespacesMatching in Hn.
  destruct (decide (sel_Namespace sel = "")) as [He|He].
  - rewrite decide_False in Hn by naive_solver.
    destruct (namespaces_List ls) as [f|] eqn:Hf; [|done]. simpl in Hn.
    destruct (f _) as [l|] eqn:Hfl; [|done]. injection Hn as <-.
    rewrite elem_of_sort_strings, list_elem_of_filter, list_elem_of_fmap.
    pose proof (pc_namespaces ls c Hc f _ l Hf Hfl) as Hin. unfold cluster_labels. split.
    + intros (Hs & [n x] & -> & Hnx). apply Hin in Hnx as [Hx Hmm]. split; [done|].
      simpl in *. by rewrite Hx.
    + rewrite Hm. simpl. intros [Hs Hmm]. split; [done|]. exists (ns, m).
      split; [done|]. by apply Hin.
  - rewrite decide_True in Hn by done. injection Hn as <-.
    destruct (serves (sel_Namespace sel)) eqn:Hs;
      rewrite ?list_elem_of_singleton, ?elem_of_nil.
    + split; [by intros ->|by intros [_ ->]].
    + split; [done|]. intros [Hs' ->]. congruence.
Qed.

(** [AddressesFor] finds the pods the peer set stands for. *)
Lemma AddressesFor_spec ls serves sel l c :
  pods_cached ls c → namespaces_List ls ≠ None → is_Some (sel_Pods sel) →
  AddressesFor ls serves sel = Ok l →
  ∀ ip, ip ∈ l ↔ ip ≠ "" ∧ ∃ p, p ∈ cl_pods c ∧ PodIP (Status p) = ip ∧
    serves (Namespace p) = true ∧ sel_allows (cluster_labels c) sel (pod_traffic p) = true.
Proof.
  intros Hc Hl [q Hq] Ha ip.
  assert (fold_result (λ (_ : ()) ns, pods_List ls ns q ≫= λ _, Ok ()) ()
    (match namespacesMatching ls serves sel with Ok n => n | Err _ => [] end) = Ok ()) as Hall.
  { revert Ha. unfold AddressesFor, mbind, result_bind. rewrite Hq. simpl.
    destruct (namespacesMatching ls serves sel) as [nss|]; [|done]. generalize (@nil string).
    induction nss as [|n nss IH]; intros o; [done|]. simpl. unfold mbind, result_bind.
    destruct (pods_List ls n q); [apply IH|done]. }
  destruct (AddressesFor_members ls serves sel l Ha) as (nss & Hn & Hin).
  rewrite Hn in Hall. rewrite Hin, Hq. simpl. clear Hin. split.
  - intros (Hne & ns & pods & p & Hns & Hp & Hpin & Hip). split; [done|]. exists p.
    apply (pc_pods ls c Hc ns q pods Hp) in Hpin as (Hpc & Hpn & Hpm). subst ns.
    apply (namespacesMatching_spec ls serves sel nss c _ Hc Hl Hn (pc_exist ls c Hc p Hpc))
      in Hns as [Hs Hmm].
    split; [done|]. split; [done|]. split; [done|]. unfold sel_allows. simpl. rewrite Hq, Hpm.
    destruct (decide (sel_Namespace sel = "")) as [He|He];
      [|by rewrite bool_decide_true].
    destruct (sel_Namespaces sel); [|done]. simpl in Hmm. by rewrite Hmm.
  - intros (Hne & p & Hpc & Hip & Hs & Hal). split; [done|].
    pose proof (pc_exist ls c Hc p Hpc) as Hex.
    unfold sel_allows in Hal. simpl in Hal. rewrite Hq in Hal.
    apply andb_true_iff in Hal as [Hmm Hpm].
    assert (Namespace p ∈ nss) as Hns.
    { apply (namespacesMatching_spec ls serves sel nss c _ Hc Hl Hn Hex). split; [done|].
      destruct (decide (sel_Namespace sel = "")) as [He|He];
        [|by apply bool_decide_eq_true in Hmm].
      destruct (sel_Namespaces sel); simpl; [done|]. apply Everything_matches. }
    assert (is_ok (pods_List ls (Namespace p) q) = true) as Hok.
    { clear -Hall Hns. induction nss as [|n nss IH]; [by apply elem_of_nil in Hns|].
      simpl in Hall. unfold mbind, result_bind in *.
      destruct (pods_List ls n q) eqn:Hp; [|done].
      apply elem_of_cons in Hns as [->|Hns]; [by rewrite Hp|by apply IH]. }
    destruct (pods_List ls (Namespace p) q) as [pods|] eqn:Hp; [|done].
    exists (Namespace p), pods, p. split; [done|]. split; [done|]. split; [|done].
    by apply (pc_pods ls c Hc _ _ _ Hp).
Qed.
End addresses.

(** ** The methods over Neutron *)
Section worker.
Context {L : LabelsAPI} {W : Type} `{!NeutronAPI W}.
Variable view : W → NeutronState.
Context `{!NeutronLaws W view}.
Variable sha256_hex : string → string.
Variable ls : Listers.
Variable serves : string → bool.

Definition rview (rw : RW) : Reconciler * NeutronState := (rw.1, view rw.2).

Lemma on_neutron_runs {A} r s (m : M W A) (Q : A → NeutronState → Prop) E :
  runs view s m Q E →
  runs rview (r, s) (on_neutron m) (λ a rs, rs.1 = r ∧ Q a rs.2) (λ e rs, rs.1 = r ∧ E e rs.2).
Proof.
  intros Hm [r' w] Hw. unfold rview in *. simpl in Hw. injection Hw as -> Hw.
  specialize (Hm w Hw). unfold on_neutron. simpl.
  destruct (m w) as [[a|e] w']; done.
Qed.

Lemma on_neutron_step {A B} r s (m : M W A) (f : A → M RW B) (R : A → NeutronState → Prop)
    (E' : gerror → NeutronState → Prop) (Q : B → Reconciler * NeutronState → Prop) E :
  runs view s m R E' → (∀ e s', E' e s' → E e (r, s')) →
  (∀ a s', R a s' → runs rview (r, s') (f a) Q E) →
  runs rview (r, s) (on_neutron m ≫= f) Q E.
Proof.
  intros Hm HE Hf. eapply runs_bind; [by apply on_neutron_runs| |]; cbv beta.
  - intros e [r' s'] [H1 H2]. simpl in *. subst. by apply HE.
  - intros a [r' s'] [H1 H2]. simpl in *. subst. by apply Hf.
Qed.

Lemma on_neutron_last {A} r s (m : M W A) (R : A → NeutronState → Prop)
    (E' : gerror → NeutronState → Prop) (Q : A → Reconciler * NeutronState → Prop) E :
  runs view s m R E' → (∀ e s', E' e s' → E e (r, s')) → (∀ a s', R a s' → Q a (r, s')) →
  runs rview (r, s) (on_neutron m) Q E.
Proof.
  intros Hm HE Hf. eapply runs_conseq; [by apply on_neutron_runs| |]; cbv beta.
  - intros a [r' s'] [H1 H2]. simpl in *. subst. by apply Hf.
  - intros e [r' s'] [H1 H2]. simpl in *. subst. by apply HE.
Qed.

Lemma wrap_runs {A} s msg (m : M W A) (R : A → NeutronState → Prop)
    (E : NeutronState → Prop) :
  runs view s m R (λ _ s', E s') → runs view s (wrap msg m) R (λ _ s', E s').
Proof. intros H. by apply runs_wrap. Qed.

(** The peer sets of the keys done so far hold what their selectors say. *)
Definition peers_synced (set : RuleSet) (done : list string) (peers : gmap string string)
    (s : NeutronState) : Prop :=
  ∀ key, key ∈ done → ∃ id l, peers !! key = Some id ∧ id ≠ "" ∧
    AddressesFor ls serves (opt_or zero_PeerSelector (rs_Peers set !! key)) = Ok l ∧
    ns_addrs s !! id = Some (AddressGroupName sha256_hex key, stored l).

Lemma addrs_stored_insert id n l s :
  addrs_stored s → addrs_stored (set_addrs (<[id := (n, stored l)]>) s).
Proof.
  intros Hs i m a x. simpl. rewrite lookup_insert_Some.
  intros [[<- [= <- <-]]|[_ Hi]] Hx; [|by eapply Hs].
  unfold stored in Hx. rewrite elem_of_list_to_set in Hx.
  apply list_elem_of_fmap in Hx as (y & -> & _). apply normalizeCIDR_idemp.
Qed.

Lemma sync_peer_runs set pre key peers s :
  (∀ k, k ∈ pre → AddressGroupName sha256_hex k ≠ AddressGroupName sha256_hex key) →
  addrs_stored s → peers_synced set pre peers s →
  runs view s (sync_peer ls serves sha256_hex set peers key)
    (λ peers' s', addrs_stored s' ∧ peers_synced set (pre ++ [key]) peers' s' ∧
       ns_groups s' = ns_groups s ∧ ns_rules s' = ns_rules s)
    (λ _ _, True).
Proof.
  intros Hinj Hst Hp. unfold sync_peer.
  step_law (EnsureAddressGroup_runs view); [done|]. intros id s1 (Hne & (a & Ha) & Hs1).
  assert (addrs_stored s1 ∧ peers_synced set pre peers s1 ∧
    ns_groups s1 = ns_groups s ∧ ns_rules s1 = ns_rules s) as (Hst1 & Hp1 & Hg1 & Hr1).
  { destruct Hs1 as [->|[Hno [Hnone ->]]]; [done|]. split; [|split; [|done]].
    - intros i n b x. simpl. rewrite lookup_insert_Some.
      intros [[_ [= <- <-]]|[_ Hi]] Hx; [by apply elem_of_empty in Hx|by eapply Hst].
    - intros k Hk. destruct (Hp k Hk) as (id' & l & ? & ? & ? & Hl). exists id', l.
      simpl. rewrite lookup_insert_ne; [done|congruence]. }
  eapply runs_bind with (R := λ l s', s' = s1 ∧
      AddressesFor ls serves (opt_or zero_PeerSelector (rs_Peers set !! key)) = Ok l)
    (E' := λ _ _, True); [|done|].
  { apply runs_lift. by destruct (AddressesFor _ _ _). }
  intros l s' [-> Hl]. step_law (SyncAddresses_runs view); [done..|].
  intros u s' (n & b & Hb & ->). rewrite Ha in Hb. injection Hb as <- <-.
  apply runs_ret. split; [by apply addrs_stored_insert|]. split; [|done].
  intros k [Hk| ->%list_elem_of_singleton]%elem_of_app.
  - destruct (Hp1 k Hk) as (id' & l' & Hid' & Hne' & Hl' & Ha'). exists id', l'.
    assert (k ≠ key) by (intros ->; by apply (Hinj key)).
    assert (id' ≠ id).
    { intros ->. apply (Hinj k Hk). congruence. }
    simpl. rewrite lookup_insert_ne by done. split; [done|]. split; [done|].
    split; [done|]. by rewrite lookup_insert_ne.
  - exists id, l. simpl. by rewrite !lookup_insert_eq.
Qed.

Lemma elem_of_peer_keys set key :
  key ∈ peer_keys set ↔ is_Some (rs_Peers set !! key).
Proof.
  unfold peer_keys. rewrite elem_of_sort_strings, list_elem_of_fmap. split.
  - intros ([k s] & -> & Hk). apply elem_of_map_to_list in Hk. by exists s.
  - intros [s Hs]. exists (key, s). split; [done|]. by apply elem_of_map_to_list.
Qed.

Lemma sync_peers_runs set s :
  (∀ k1 k2, is_Some (rs_Peers set !! k1) → is_Some (rs_Peers set !! k2) →
     AddressGroupName sha256_hex k1 = AddressGroupName sha256_hex k2 → k1 = k2) →
  addrs_stored s →
  runs view s (fold_each (sync_peer ls serves sha256_hex set) ∅ (peer_keys set))
    (λ peers s', addrs_stored s' ∧ peers_synced set (peer_keys set) peers s' ∧
       ns_groups s' = ns_groups s ∧ ns_rules s' = ns_rules s)
    (λ _ _, True).
Proof.
  intros Hinj Hst.
  assert (NoDup (peer_keys set)) as Hnd.
  { unfold peer_keys. rewrite sort_strings_perm. apply NoDup_fst_map_to_list. }
  apply (runs_fold_each view (λ pre peers s', addrs_stored s' ∧
    peers_synced set pre peers s' ∧ ns_groups s' = ns_groups s ∧ ns_rules s' = ns_rules s)).
  { split; [done|]. split; [|done]. by intros k ?%elem_of_nil. }
  intros pre key post peers s1 Hk (Hst1 & Hp & Hg & Hr).
  eapply runs_conseq; [apply sync_peer_runs; [|done|done]| |done].
  - intros k Hkin Heq. rewrite Hk in Hnd. apply NoDup_app in Hnd as (_ & Hnot & _).
    apply (Hnot k Hkin).
    assert (k = key) as ->; [|by left].
    apply Hinj; [..|done]; apply elem_of_peer_keys; rewrite Hk; set_solver.
  - cbv beta. intros peers' s2 (? & ? & Hg2 & Hr2). by rewrite Hg2, Hr2.
Qed.

(** What one pass over a policy does to the reconciler's cache and to Neutron. *)
Lemma SyncPolicyPeers_runs p r s :
  (∀ k1 k2 t, Translate p = Ok t → is_Some (rs_Peers (PolicyRules t) !! k1) →
     is_Some (rs_Peers (PolicyRules t) !! k2) →
     AddressGroupName sha256_hex k1 = AddressGroupName sha256_hex k2 → k1 = k2) →
  addrs_stored s →
  runs rview (r, s) (SyncPolicyPeers ls serves sha256_hex p)
    (λ _ rs, ∃ t peers id, Translate p = Ok t ∧
       rs.1 = rememberRuleGroup r (policyKey p) id ∧
       peers_synced (PolicyRules t) (peer_keys (PolicyRules t)) peers rs.2 ∧
       (id = "" ↔ rs_Rules (PolicyRules t) = []) ∧
       (id ≠ "" → ∃ want, all_opts peers (rs_Rules (PolicyRules t)) = Ok want ∧
          (∃ d, ns_groups rs.2 !! id =
             Some (GroupNameFor sha256_hex (pol_Namespace p) (pol_Name p), d)) ∧
          ∀ f, group_has rs.2 id f → f ∈ want))
    (λ _ rs, rs.1 = r).
Proof.
  intros Hinj Hst. unfold SyncPolicyPeers.
  eapply runs_bind with (R := λ t rs, rs = (r, s) ∧ Translate p = Ok t)
    (E' := λ _ rs, rs.1 = r); [|done|].
  { apply runs_lift. by destruct (Translate p). }
  intros t rs [-> Ht].
  eapply on_neutron_step; [apply (sync_peers_runs (PolicyRules t)); [|done]|done|]; cbv beta.
  { intros k1 k2 H1 H2 Hk. exact (Hinj k1 k2 t Ht H1 H2 Hk). }
  intros peers s1 (Hst1 & Hp1 & Hg1 & Hr1).
  unfold Empty. destruct (bool_decide (rs_Rules (PolicyRules t) = [])) eqn:He.
  - apply bool_decide_eq_true in He. intros [r' w] Hw. unfold rview in *. simpl in *.
    injection Hw as -> Hw. exists t, peers, "". rewrite Hw. by repeat split.
  - apply bool_decide_eq_false in He.
    eapply on_neutron_step; [apply (EnsureRuleSet_runs view)|done|]; cbv beta.
    intros id s2 (want & s3 & Hw & Hr & Hwr & Ht2).
    intros [r' w] Hv. unfold rview in *. simpl in *. injection Hv as -> Hv.
    exists t, peers, id. rewrite Hv. split; [done|]. split; [done|].
    destruct (group_ready_named _ _ _ _ _ Hr) as [d Hd]. pose proof Hr as (Hne & _).
    split.
    { intros key Hk. destruct (Hp1 key Hk) as (i & l & ? & ? & ? & Ha). exists i, l.
      destruct Ht2 as (_ & -> & _). done. }
    split; [done|]. intros _. exists want. split; [done|]. destruct Hwr as (Hin & _ & Ho).
    split; [exists d; by destruct Ho as (_ & -> & _)|done].
Qed.

Lemma equalStrings_spec a b : equalStrings a b = true ↔ a = b.
Proof.
  revert b. induction a as [|x a IH]; intros [|y b]; simpl; try done.
  rewrite andb_true_iff, bool_decide_eq_true, IH. split; [by intros [-> ->]|by intros [= -> ->]].
Qed.

Variable PortOf : option (Pod → string).
Variable Split : string → result (string * string).

(** The port [ReconcilePod] works on, if there is one to work on. *)
Definition target (key : string) : option (Pod * string) :=
  match Split key with
  | Err _ => None
  | Ok (ns, name) =>
      if serves ns then
        match pods_Get ls ns name with
        | Some pod =>
            let portID := match PortOf with Some f => f pod | None => "" end in
            if decide (DeletionTimestamp pod = None ∧ portID ≠ "")
            then Some (pod, portID) else None
        | None => None
        end
      else None
  end.

Lemma ReconcilePod_runs key r s :
  runs rview (r, s) (ReconcilePod ls serves PortOf Split key)
    (λ _ rs, rs.1 = r ∧ match target key with
       | None => rs.2 = s
       | Some (pod, port) => ∃ want o have, GroupsFor ls r pod = Ok want ∧
           ns_ports s !! port = Some (o, have) ∧
           ((rs.2 = s ∧ sort_strings have = want) ∨
            rs.2 = set_ports (<[port := (o, want)]>) s)
       end)
    (λ _ rs, rs.1 = r ∧ ns_groups rs.2 = ns_groups s ∧ ns_rules rs.2 = ns_rules s ∧
             ns_addrs rs.2 = ns_addrs s ∧
             ∀ i, (∀ pod port, target key = Some (pod, port) → i ≠ port) →
                  ns_ports rs.2 !! i = ns_ports s !! i).
Proof.
  unfold ReconcilePod, target.
  eapply runs_bind with (R := λ nn rs, rs = (r, s) ∧ Split key = Ok nn)
    (E' := λ _ rs, rs = (r, s)); [|by intros e rs ->|].
  { apply runs_lift. by destruct (Split key). }
  intros [ns name] rs [-> Hk]. rewrite Hk. destruct (serves ns); simpl; [|by apply runs_ret].
  destruct (pods_Get ls ns name) as [pod|]; [|by apply runs_ret].
  set (port := match PortOf with Some f => f pod | None => "" end).
  destruct (decide (DeletionTimestamp pod ≠ None)) as [Hd|Hd].
  { rewrite decide_False by naive_solver. by apply runs_ret. }
  destruct (decide (port = "")) as [Hp|Hp].
  { rewrite decide_False by naive_solver. by apply runs_ret. }
  apply dec_stable in Hd. rewrite decide_True by done.
  eapply runs_bind with (R := λ x rs, rs = (r, s) ∧ x = r) (E' := λ _ _, False); [|done|].
  { intros [r' w] Hw. unfold get_rec, rview in *. simpl in *. by injection Hw as -> ->. }
  intros x rs [-> ->].
  eapply runs_bind with (R := λ want rs, rs = (r, s) ∧ GroupsFor ls r pod = Ok want)
    (E' := λ _ rs, rs = (r, s)); [|by intros e rs ->|].
  { apply runs_lift. by destruct (GroupsFor ls r pod). }
  intros want rs [-> Hw].
  eapply on_neutron_step; [apply wrap_runs, (law_ports_Get port s)| |]; cbv beta.
  { by intros e s' ->. }
  intros current s' (-> & o & Ho).
  destruct (equalStrings (sort_strings (np_SecurityGroups current)) want) eqn:Heq.
  { apply runs_ret. split; [done|]. exists want, o, (np_SecurityGroups current).
    apply equalStrings_spec in Heq. eauto. }
  assert (set_ports (alter (λ p, (p.1, want)) port) s = set_ports (<[port := (o, want)]>) s)
    as Halt.
  { unfold set_ports. f_equal. apply map_eq. intros i. destruct (decide (i = port)) as [->|].
    - by rewrite lookup_alter_eq, lookup_insert_eq, Ho.
    - by rewrite lookup_alter_ne, lookup_insert_ne. }
  eapply on_neutron_last; [apply wrap_runs, (law_ports_Update port want s)| |]; cbv beta.
  - intros e s' Hm. simpl. split; [done|]. destruct Hm as [->| ->]; [done|].
    repeat (split; [done|]). intros i Hi. simpl. rewrite lookup_alter_ne; [done|].
    intros Hpi. by apply (Hi pod port eq_refl).
  - intros u s' ->. simpl. split; [done|]. exists want, o, (np_SecurityGroups current).
    rewrite Halt. eauto.
Qed.
End worker.

(** ** Facts about the handlers *)
Section handlers.
Context {L : LabelsAPI}.

(** An update [samePolicyInputs] drops changes nothing that is computed from
    the pod: not the groups of its port, not its membership of any peer set. *)
Lemma samePolicyInputs_sound ls r a b :
  Namespace a = Namespace b → samePolicyInputs a b = true →
  GroupsFor ls r a = GroupsFor ls r b ∧ pod_traffic a = pod_traffic b.
Proof.
  intros Hns Hs. unfold samePolicyInputs in Hs.
  rewrite andb_true_iff, !bool_decide_eq_true in Hs. destruct Hs as [Hl Hip].
  assert (∀ ps, IsolationOf a ps = IsolationOf b ps) as Hiso.
  { intros ps. unfold IsolationOf.
    replace (fold_result (IsolationOf_step a) ∅ ps)
      with (fold_result (IsolationOf_step b) ∅ ps); [done|].
    generalize (∅ : gmap Direction (list string)) as m.
    induction ps as [|p ps IH]; intros m; [done|]. simpl.
    assert (IsolationOf_step a m p = IsolationOf_step b m p) as ->
      by (unfold IsolationOf_step; by rewrite Hns, Hl).
    unfold mbind, result_bind. destruct (IsolationOf_step b m p); [apply IH|done]. }
  assert (∀ ps, policyGroupsFor r a ps = policyGroupsFor r b ps) as Hg.
  { intros ps. unfold policyGroupsFor. generalize (@nil string) as o.
    induction ps as [|p ps IH]; intros o; [done|]. simpl.
    assert (policyGroups_step r a o p = policyGroups_step r b o p) as ->
      by (unfold policyGroups_step; by rewrite Hl).
    unfold mbind, result_bind. destruct (policyGroups_step r b o p); [apply IH|done]. }
  split.
  - unfold GroupsFor. rewrite Hns. case_match; [done|].
    unfold mbind, result_bind. case_match; [|done]. rewrite Hiso.
    case_match; [|done]. case_match; [done|]. by rewrite Hg.
  - unfold pod_traffic. by rewrite Hip, Hns, Hl.
Qed.

Lemma served_policies_spec ls serves l p :
  policies_ListAll ls = Ok l → p ∈ l → serves (pol_Namespace p) = true →
  policyKey p ∈ served_policies ls serves.
Proof.
  intros Hl Hp Hs. unfold served_policies. rewrite Hl. apply list_elem_of_fmap.
  exists p. split; [done|]. by apply list_elem_of_filter.
Qed.
End handlers.

(** ** Properties *)

(** C1 The groups [GroupsFor] puts on a port enforce the namespace's policies,
    given policies the API server accepts, none with a pod selector printing as
    "all" ([SelectorKey_collision]), for traffic whose protocol is named in upper
    case, as the API names it.  As long as no group holds more than what
    was written to it -- a pass cut short, or a peer set not yet filled, leaves
    less -- whatever the groups allow, Kubernetes allows the pod.  When the
    groups hold exactly what their policies translate to, an empty group id is
    recorded only for a policy without rules, and no policy had a refused part,
    the two agree: open in each direction no policy isolates, and the union of
    the policies' rules in the others. *)
Theorem GroupsFor_enforces {L : LabelsAPI} `{!LabelsLaws L} `{!SelectorStringLaws L}
    (cidr_contains : string → string → bool) (ns_labels : string → gmap string string)
    (named_port : string → Z → bool) (ls : Listers) (r : Reconciler) (pod : Pod)
    (policies : list NetworkPolicy) (groups : list string)
    (content : string → Direction → Traffic → bool) (d : Direction) (t : Traffic) :
  (∀ c a, cidr_contains c a = true → familyOfCIDR c = familyOfCIDR a) →
  (∀ a, cidr_contains "0.0.0.0/0" a || cidr_contains "::/0" a = true) →
  policiesFor ls (Namespace pod) = Ok policies →
  Forall (λ p, pol_Namespace p = Namespace pod) policies →
  Forall api_policy policies → Forall no_all_selector policies →
  upper_name (t_proto t) = true →
  GroupsFor ls r pod = Ok groups →
  (content_within cidr_contains ns_labels r policies content →
   port_allows_traffic content groups d t = true →
   k8s_pod_allows cidr_contains ns_labels named_port policies pod d t = true) ∧
  (content_ok cidr_contains ns_labels r policies content →
   (∀ p tr, p ∈ policies → Translate p = Ok tr → ruleGroups r !! policyKey p = Some "" →
     rs_Rules (PolicyRules tr) = []) →
   (∀ p tr, p ∈ policies → Translate p = Ok tr → Refused tr = []) →
   port_allows_traffic content groups d t
   = k8s_pod_allows cidr_contains ns_labels named_port policies pod d t).
Proof.
  intros Hfam Hall Hpol Hns Hapi Hna Hup Hg.
  assert (content_within cidr_contains ns_labels r policies content →
    port_allows_traffic content groups d t = true →
    k8s_pod_allows cidr_contains ns_labels named_port policies pod d t = true) as Hnw.
  { intros Hw Hal. by apply (groups_never_wider cidr_contains ns_labels named_port Hfam ls r pod
      policies groups content d t). }
  split; [done|]. intros Hco Hempty Href. apply eq_true_iff_eq.
  split; [by apply Hnw, content_ok_within|].
  intros Hk. apply (groups_not_narrower cidr_contains ns_labels named_port Hfam ls r pod
    policies groups content d t); try done.
  intros k Hkk p tr Hp <- Ht. by eapply Hempty.
Qed.


(** C20 [ReconcilePod] leaves the port of a served, live, placed pod carrying
    the groups [GroupsFor] decides, and nothing else changed: a pod that is
    gone, being deleted, unserved or unplaced changes nothing, and a failed pass
    touches at most that one port. *)
Theorem ReconcilePod_aligns {L : LabelsAPI} {W : Type} `{!NeutronAPI W}
    (view : W → NeutronState) `{!NeutronLaws W view} (ls : Listers) (serves : string → bool)
    (PortOf : option (Pod → string)) (Split : string → result (string * string))
    (key : string) (r : Reconciler) (s : NeutronState) :
  runs (rview view) (r, s) (ReconcilePod ls serves PortOf Split key)
    (λ _ rs, rs.1 = r ∧ match target ls serves PortOf Split key with
       | None => rs.2 = s
       | Some (pod, port) => ∃ want o have, GroupsFor ls r pod = Ok want ∧
           ns_ports s !! port = Some (o, have) ∧
           ((rs.2 = s ∧ sort_strings have = want) ∨
            rs.2 = set_ports (<[port := (o, want)]>) s)
       end)
    (λ _ rs, rs.1 = r ∧ ns_groups rs.2 = ns_groups s ∧ ns_rules rs.2 = ns_rules s ∧
             ns_addrs rs.2 = ns_addrs s ∧
             ∀ i, (∀ pod port, target ls serves PortOf Split key = Some (pod, port) → i ≠ port) →
                  ns_ports rs.2 !! i = ns_ports s !! i).
Proof. apply (ReconcilePod_runs view). Qed.

(** The addresses of a peer set are those of the pods it selects in the
    namespaces this process serves: no address is missing, none is of another
    pod, none is empty, and they come back sorted. *)
Theorem AddressesFor_correct {L : LabelsAPI} `{!LabelsLaws L} (ls : Listers)
    (serves : string → bool) (sel : PeerSelector) (l : list string) (c : Cluster) :
  pods_cached ls c → namespaces_List ls ≠ None → is_Some (sel_Pods sel) →
  AddressesFor ls serves sel = Ok l →
  (∀ ip, ip ∈ l ↔ ip ≠ "" ∧ ∃ p, p ∈ cl_pods c ∧ PodIP (Status p) = ip ∧
     serves (Namespace p) = true ∧ sel_allows (cluster_labels c) sel (pod_traffic p) = true) ∧
  StronglySorted String.le l.
Proof.
  intros Hc Hn Hs Ha. split; [by apply (AddressesFor_spec ls serves)|].
  revert Ha. unfold AddressesFor, mbind, result_bind.
  destruct (namespacesMatching _ _ _); [|done]. destruct (fold_result _ _ _); [|done].
  intros [= <-]. apply sort_strings_sorted.
Qed.

(** No event that could change an answer is dropped: in a served namespace,
    every added or deleted pod, and every update that changes the pod's labels
    or address, queues every served policy, and the pod itself while it exists;
    an update the handler does drop changes neither the pod's groups nor its
    membership of any peer set. *)
Theorem podHandler_covers {L : LabelsAPI} (ls : Listers) (serves : string → bool)
    (r : Reconciler) (l : list NetworkPolicy) (a b : Pod) :
  policies_ListAll ls = Ok l → serves (Namespace b) = true → Namespace a = Namespace b →
  (∀ e p, e ∈ [EvAdd b; EvDelete b; EvUpdate a b] → p ∈ l → serves (pol_Namespace p) = true →
     policyKey p ∈ q_policies (podHandler ls serves e) ∨
     (e = EvUpdate a b ∧ GroupsFor ls r a = GroupsFor ls r b ∧ pod_traffic a = pod_traffic b)) ∧
  podKey b ∈ q_pods (podHandler ls serves (EvAdd b)) ∧
  (podKey b ∈ q_pods (podHandler ls serves (EvUpdate a b)) ∨
   GroupsFor ls r a = GroupsFor ls r b).
Proof.
  intros Hl Hs Hns.
  assert (∀ p, p ∈ l → serves (pol_Namespace p) = true →
    policyKey p ∈ q_policies (enqueuePoliciesNear ls serves b)) as Hnear.
  { intros p Hp Hps. unfold enqueuePoliciesNear. rewrite Hs. by eapply served_policies_spec. }
  assert (podKey b ∈ q_pods (enqueuePod serves b)) as Hpod
    by (unfold enqueuePod; rewrite Hs; by left).
  split; [|split].
  - intros e p He Hp Hps. rewrite !elem_of_cons, elem_of_nil in He.
    destruct He as [->|[->|[->|[]]]]; simpl.
    + left. rewrite elem_of_app. right. by apply Hnear.
    + left. by apply Hnear.
    + destruct (samePolicyInputs a b) eqn:Hsame.
      * right. split; [done|]. by apply samePolicyInputs_sound.
      * left. simpl. rewrite elem_of_app. right. by apply Hnear.
  - simpl. rewrite elem_of_app. by left.
  - simpl. destruct (samePolicyInputs a b) eqn:Hsame.
    + right. by apply samePolicyInputs_sound.
    + left. simpl. rewrite elem_of_app. by left.
Qed.

(** ** What modelling showed *)

(** The list [GroupsFor] returns for a pod no policy isolates is not sorted,
    while [ReconcilePod] compares against a sorted one: with ids that are not in
    order by chance, a port that already carries exactly these groups is found
    different and rewritten on every pass. *)
Theorem GroupsFor_unsorted :
  let ls := @mkListers EqLabels (λ _ _, Ok []) (λ _ _, None) (Some (λ _, Ok [])) (Ok [])
              (λ _ _, None) None in
  let r := mkReconciler "c1" "b2" "a3" ∅ in
  ∃ want, GroupsFor ls r (empty_pod "prod" "api-0" "u1") = Ok want ∧
    equalStrings (sort_strings want) want = false.
Proof. eexists. split; [reflexivity|]. by vm_compute. Qed.

(** A reconciler without a namespace lister -- as the command wires it --
    resolves every namespaceSelector peer to no address at all. *)
Theorem AddressesFor_without_namespace_lister {L : LabelsAPI} (ls : Listers)
    (serves : string → bool) (sel : PeerSelector) :
  namespaces_List ls = None → sel_Namespace sel = "" → AddressesFor ls serves sel = Ok [].
Proof.
  intros Hn Hs. unfold AddressesFor, namespacesMatching.
  rewrite decide_False by naive_solver. by rewrite Hn.
Qed.

(** With a reconciler per tenant, a policy that is gone is forgotten by the
    controller's own reconciler and not by the tenant's, whose cache goes on
    answering the id of a group the sweep is about to delete. *)
Theorem syncPolicy_forgets_own_only {L : LabelsAPI} {W : Type} `{!NeutronAPI W}
    (sha256_hex : string → string) (ls : Listers) (serves : string → bool)
    (Split : string → result (string * string)) (resolves : string → result ())
    (key ns name : string) (c r : Reconciler) (w : W) :
  Split key = Ok (ns, name) → serves ns = true → policies_Get ls ns name = None →
  syncPolicy ls serves sha256_hex Split resolves key (c, Some r, w)
  = (Ok (), (ForgetPolicy c key, Some r, w)).
Proof.
  intros Hk Hs Hg. unfold syncPolicy, mbind, M_bind, lift_result. rewrite Hk, Hs. simpl.
  by rewrite Hg.
Qed.

(** ** Witnesses *)
Definition ex_pod : Pod :=
  with_status (empty_pod "prod" "api-0" "u1") (mkPodStatus "Running" "" "10.0.0.9" "" None [] []).
Definition ex_cluster : Cluster := mkCluster [ex_pod] {["prod" := ∅]}.
Definition ex_listers : @Listers ExistsLabels :=
  @mkListers ExistsLabels
    (λ ns sel, Ok (filter (λ p, Namespace p = ns ∧
       @Matches ExistsLabels sel (Labels p) = true) [ex_pod]))
    (λ ns n, if decide (ns = "prod" ∧ n = "api-0") then Some ex_pod else None)
    (Some (λ _, Ok [rs_policy])) (Ok [rs_policy]) (λ _ _, Some rs_policy)
    (Some (λ sel, Ok (if @Matches ExistsLabels sel ∅ then [("prod", ∅)] else []))).
Definition ex_rec : Reconciler := mkReconciler "b" "c" "a" {["prod/allow-web" := "g1"]}.
Definition ex_content (g : string) (d : Direction) (t : Traffic) : bool :=
  if decide (g = "a") then false
  else if decide (g = "b") then bool_decide (d = Ingress)
  else if decide (g = "c") then bool_decide (d = Egress)
  else match @Translate ExistsLabels rs_policy with
       | Ok tr => @ruleset_allows ExistsLabels rs_cidr ex_ns_labels (PolicyRules tr) d t
       | Err _ => false
       end.

Lemma ex_content_ok : @content_ok ExistsLabels rs_cidr ex_ns_labels ex_rec [rs_policy] ex_content.
Proof.
  split; [done..|]. intros p tr id d t ->%list_elem_of_singleton Ht Hid Hne.
  vm_compute in Hid. injection Hid as <-. unfold ex_content.
  rewrite !decide_False by done. by rewrite Ht.
Qed.

(** What the example's policy translates to, looked at once. *)
Lemma ex_translated : match @Translate ExistsLabels rs_policy with
  | Ok t => Refused t = [] ∧ rs_Rules (PolicyRules t) ≠ [] ∧
      (length (map_to_list (rs_Peers (PolicyRules t))) ≤ 1)%nat
  | Err _ => False
  end.
Proof. by vm_compute; repeat split; auto. Qed.

Lemma ex_not_refused p tr :
  p ∈ [rs_policy] → @Translate ExistsLabels p = Ok tr → Refused tr = [].
Proof.
  intros ->%list_elem_of_singleton Ht. pose proof ex_translated as H. rewrite Ht in H. apply H.
Qed.

Lemma GroupsFor_enforces_witness : ∃ groups,
  @GroupsFor ExistsLabels ex_listers ex_rec ex_pod = Ok groups ∧
  port_allows_traffic ex_content groups Ingress rs_traffic = true.
Proof.
  eexists. split; [reflexivity|].
  destruct (@GroupsFor_enforces ExistsLabels ExistsLabels_laws ExistsLabels_string_laws
    rs_cidr ex_ns_labels (λ _ _, false) ex_listers ex_rec ex_pod [rs_policy] _ ex_content
    Ingress rs_traffic rs_cidr_family rs_cidr_all eq_refl
    ltac:(by repeat constructor) ltac:(constructor; [exact rs_api|constructor])
    ltac:(constructor; [exact rs_no_all|constructor]) eq_refl eq_refl) as [_ Hex].
  rewrite Hex; [by vm_compute|exact ex_content_ok|..].
  - intros p tr ->%list_elem_of_singleton _ Hid. by vm_compute in Hid.
  - intros p tr Hp Ht. by eapply ex_not_refused.
Defined.

Definition ex_hash (s : string) : string := s +:+ "0000000000000000".

Lemma ex_one_peer k1 k2 t :
  @Translate ExistsLabels rs_policy = Ok t → is_Some (rs_Peers (PolicyRules t) !! k1) →
  is_Some (rs_Peers (PolicyRules t) !! k2) →
  AddressGroupName ex_hash k1 = AddressGroupName ex_hash k2 → k1 = k2.
Proof.
  intros Ht [x1 H1] [x2 H2] _. pose proof ex_translated as H. rewrite Ht in H.
  destruct H as (_ & _ & H). apply elem_of_map_to_list in H1, H2.
  destruct (map_to_list _) as [|y [|z l]]; simpl in H; [by apply elem_of_nil in H1| |lia].
  apply list_elem_of_singleton in H1, H2. congruence.
Qed.

Lemma ex_sync_ok : is_ok ((@SyncPolicyPeers ExistsLabels ex_listers (λ _, true) _ RefNeutron
  ex_hash rs_policy) (ex_rec, ns_empty)).1 = true.
Proof. by vm_compute. Qed.


Definition ex_ports : NeutronState :=
  mkNeutronState ∅ ∅ ∅ {["port1" := ("compute:zun", ["default"])]}.
Definition ex_split (key : string) : result (string * string) :=
  match cut key "/" with Some nn => Ok nn | None => Err (ErrMsg key) end.

Lemma ReconcilePod_aligns_witness : ∃ s' want,
  @GroupsFor ExistsLabels ex_listers ex_rec ex_pod = Ok want ∧
  s' = set_ports (<["port1" := ("compute:zun", want)]>) ex_ports.
Proof.
  destruct (runs_ok (rview ref_clean) (ex_rec, ex_ports) _ _ _
    (@ReconcilePod_aligns ExistsLabels _ RefNeutron ref_clean RefNeutron_laws ex_listers
       (λ _, true) (Some (λ _, "port1")) ex_split "prod/api-0" ex_rec ex_ports))
    as (u & _ & _ & Ht); [by vm_compute|].
  vm_compute target in Ht. destruct Ht as (want & o & have & Hw & Hp & Hs).
  eexists _, want. split; [exact Hw|].
  injection Hp as <- <-. destruct Hs as [[_ Hs]|Hs]; [|exact Hs].
  vm_compute in Hw. injection Hw as <-. by vm_compute in Hs.
Defined.

Lemma ex_pods_cached : @pods_cached ExistsLabels ex_listers ex_cluster.
Proof.
  split.
  - intros ns sel l [= <-] p. rewrite list_elem_of_filter.
    change (cl_pods ex_cluster) with [ex_pod]. tauto.
  - intros f sel l [= <-] Hf n m. injection Hf as <-.
    change (cl_namespaces ex_cluster) with ({["prod" := ∅]} : gmap string (gmap string string)).
    rewrite lookup_singleton_Some. split.
    + destruct (_ || _) eqn:Hm in |- *; [|by intros ?%elem_of_nil].
      intros [= -> ->]%list_elem_of_singleton. by split.
    + intros [[<- <-] Hm]. simpl in Hm. rewrite Hm. by left.
  - intros p ->%list_elem_of_singleton. by eexists.
Qed.

Lemma AddressesFor_correct_witness : ∃ l,
  @AddressesFor ExistsLabels ex_listers (λ _, true)
    (@mkPeerSelector ExistsLabels "" (Some "") (Some "")) = Ok l ∧ "10.0.0.9" ∈ l.
Proof.
  eexists. split; [reflexivity|].
  destruct (@AddressesFor_correct ExistsLabels ExistsLabels_laws ex_listers (λ _, true)
    (@mkPeerSelector ExistsLabels "" (Some "") (Some "")) _ ex_cluster ex_pods_cached
    ltac:(done) ltac:(by eexists) eq_refl) as [H _].
  apply H. split; [done|]. exists ex_pod. split; [by left|]. by vm_compute.
Defined.

Lemma podHandler_covers_witness :
  "prod/allow-web" ∈ q_policies (@podHandler ExistsLabels ex_listers (λ _, true) (EvDelete ex_pod)).
Proof.
  destruct (@podHandler_covers ExistsLabels ex_listers (λ _, true) ex_rec [rs_policy] ex_pod ex_pod
    eq_refl eq_refl eq_refl) as [H _].
  destruct (H (EvDelete ex_pod) rs_policy) as [Hin|[Hin _]];
    [right; by left|by left|done|exact Hin|done].
Defined.
