(* ===== verification/NetpolMigrate.v ===== *)
(** * pkg/netpol/migrate.go: moving a tenant onto policy-decided groups

    [Convert] in its two phases.  The theorem says what each phase leaves on
    every capsule port, and that at no point of the attach phase, failed or
    not, does a port carry less than it did. *)

From S2P Require Import Prelude GoStd K8s NetpolTranslate NetpolRuleSet NetpolNeutron.
From S2P Require Import NetpolReconciler.

Local Open Scope string_scope.
Local Open Scope list_scope.

Definition DeviceOwnerCapsule : string := "compute:zun".

Inductive MigratePhase := PhaseAttach | PhaseDetach.
#[export] Instance MigratePhase_eq_dec : EqDecision MigratePhase.
Proof. solve_decision. Defined.

(** The keys of the map [keep], sorted. *)
Definition desiredGroups (phase : MigratePhase) (current baseline : list string)
    (defaultID : string) : list string :=
  let keep : gset string := list_to_set current in
  let keep := match phase with
              | PhaseAttach => keep ∪ list_to_set baseline
              | PhaseDetach => (keep ∖ {[defaultID]}) ∪ list_to_set baseline
              end in
  sort_strings (elements keep).

Section convert.
Context {W : Type} `{!NeutronAPI W}.

Definition defaultGroupID : M W string := '(id, _) ← findGroup "default"; mret id.

Definition convert_port (phase : MigratePhase) (baseline : list string) (defaultID : string)
    (dryRun : bool) (counts : nat * nat) (port : NeutronPort) : M W (nat * nat) :=
  let '(changed, total) := counts in
  let want := desiredGroups phase (np_SecurityGroups port) baseline defaultID in
  if equalStrings (sort_strings (np_SecurityGroups port)) want then mret (changed, S total)
  else if dryRun then mret (S changed, S total)
  else wrap ("converting port " +:+ np_ID port) (ports_Update (np_ID port) want) ≫= λ _,
       mret (S changed, S total).

Definition Convert (phase : MigratePhase) (baseline : list string) (dryRun : bool)
    : M W (nat * nat) :=
  if decide (baseline = []) then fail (ErrMsg "the baseline groups must be resolved first")
  else
    defaultID ← defaultGroupID;
    if decide (phase = PhaseDetach ∧ defaultID = "")
    then fail (ErrMsg ("this project has no default security group, " +:+
                       "so there is nothing to detach; run the attach phase first"))
    else
      list ← wrap "listing this tenant's capsule ports" (ports_List DeviceOwnerCapsule);
      fold_each (convert_port phase baseline defaultID dryRun) (0, 0) list.
End convert.

(** ** Lemmas *)
Lemma elem_of_desiredGroups phase current baseline defaultID g :
  g ∈ desiredGroups phase current baseline defaultID ↔
  (g ∈ current ∧ (phase = PhaseDetach → g ≠ defaultID)) ∨ g ∈ baseline.
Proof.
  unfold desiredGroups. rewrite elem_of_sort_strings, elem_of_elements.
  destruct phase; rewrite elem_of_union, ?elem_of_difference, !elem_of_list_to_set,
    ?elem_of_singleton; naive_solver.
Qed.

Section convert_facts.
Context {W : Type} `{!NeutronAPI W} (view : W → NeutronState) `{!NeutronLaws W view}.

(** A port as the phase leaves it: rewritten to the wanted groups, or already
    carrying them. *)
Definition port_converted (phase : MigratePhase) (baseline : list string) (defaultID : string)
    (s s' : NeutronState) (id : string) : Prop :=
  ∃ o l l', ns_ports s !! id = Some (o, l) ∧ ns_ports s' !! id = Some (o, l') ∧
    ∀ g, g ∈ l' ↔ g ∈ desiredGroups phase l baseline defaultID.

(** Ports that are not (yet) converted are as they were; nothing else moves. *)
Definition ports_only (phase : MigratePhase) (baseline : list string) (defaultID : string)
    (s s' : NeutronState) : Prop :=
  ns_groups s' = ns_groups s ∧ ns_rules s' = ns_rules s ∧ ns_addrs s' = ns_addrs s ∧
  ∀ id, ns_ports s' !! id = ns_ports s !! id ∨
    (∃ l, ns_ports s !! id = Some (DeviceOwnerCapsule, l)) ∧
    port_converted phase baseline defaultID s s' id.

Lemma ports_only_refl phase baseline d s : ports_only phase baseline d s s.
Proof. repeat split; try done. intros id. by left. Qed.

Lemma update_alter s id o l l' :
  ns_ports s !! id = Some (o, l) →
  set_ports (alter (λ p, (p.1, l')) id) s = set_ports (<[id := (o, l')]>) s.
Proof.
  intros Hi. unfold set_ports. f_equal. apply map_eq. intros j. destruct (decide (j = id)) as [->|].
  - by rewrite lookup_alter_eq, lookup_insert_eq, Hi.
  - by rewrite lookup_alter_ne, lookup_insert_ne.
Qed.

(** The state while the loop runs: [pre] done, the rest as listed. *)
Definition converting (phase : MigratePhase) (baseline : list string) (d : string) (dry : bool)
    (s : NeutronState) (pre : list NeutronPort) (s' : NeutronState) : Prop :=
  ports_only phase baseline d s s' ∧
  (∀ p, p ∈ pre → dry = false → port_converted phase baseline d s s' (np_ID p)) ∧
  (∀ i, i ∉ map np_ID pre → ns_ports s' !! i = ns_ports s !! i) ∧
  (dry = true → s' = s).

Lemma converting_skip phase baseline d dry s pre p s1 :
  ns_ports s !! np_ID p = Some (DeviceOwnerCapsule, np_SecurityGroups p) →
  np_ID p ∉ map np_ID pre →
  (dry = true ∨ sort_strings (np_SecurityGroups p)
                = desiredGroups phase (np_SecurityGroups p) baseline d) →
  converting phase baseline d dry s pre s1 → converting phase baseline d dry s (pre ++ [p]) s1.
Proof.
  intros Hp Hni Hor (Ho & Hd & Hu & Hdry). split; [done|]. split; [|split; [|done]].
  - intros q [Hq| ->%list_elem_of_singleton]%elem_of_app Hf; [by apply Hd|].
    destruct Hor as [Hor|Hor]; [congruence|].
    exists DeviceOwnerCapsule, (np_SecurityGroups p), (np_SecurityGroups p).
    rewrite (Hu _ Hni). split; [done|]. split; [done|]. intros g.
    by rewrite <-Hor, elem_of_sort_strings.
  - intros i Hi. apply Hu. intros Hin. apply Hi. rewrite map_app, elem_of_app. by left.
Qed.

Lemma converting_update phase baseline d s pre p s1 :
  ns_ports s !! np_ID p = Some (DeviceOwnerCapsule, np_SecurityGroups p) →
  np_ID p ∉ map np_ID pre →
  converting phase baseline d false s pre s1 →
  converting phase baseline d false s (pre ++ [p])
    (set_ports (alter (λ x, (x.1, desiredGroups phase (np_SecurityGroups p) baseline d))
       (np_ID p)) s1).
Proof.
  intros Hp Hni ((Hg & Hr & Ha & Hports) & Hd & Hu & Hdry).
  pose proof (Hu _ Hni) as Hcur. rewrite Hp in Hcur.
  rewrite (update_alter _ _ _ _ _ Hcur).
  set (want := desiredGroups _ _ _ _).
  assert (port_converted phase baseline d s
    (set_ports <[np_ID p := (DeviceOwnerCapsule, want)]> s1) (np_ID p)) as Hconv.
  { exists DeviceOwnerCapsule, (np_SecurityGroups p), want. simpl.
    by rewrite lookup_insert_eq. }
  assert (∀ i, i ≠ np_ID p →
    ns_ports (set_ports <[np_ID p := (DeviceOwnerCapsule, want)]> s1) !! i = ns_ports s1 !! i) as Hne.
  { intros i Hi. simpl. by rewrite lookup_insert_ne. }
  assert (∀ i, i ≠ np_ID p → port_converted phase baseline d s s1 i →
    port_converted phase baseline d s
      (set_ports <[np_ID p := (DeviceOwnerCapsule, want)]> s1) i) as Hkeep.
  { intros i Hi (o & l & l' & ? & ? & ?). exists o, l, l'. by rewrite Hne. }
  split; [|split; [|split; [|done]]].
  - split; [done|]. split; [done|]. split; [done|]. intros i.
    destruct (decide (i = np_ID p)) as [->|Hi]; [right; eauto|]. rewrite Hne by done.
    destruct (Hports i) as [?|[? ?]]; [by left|right; eauto].
  - intros q [Hq| ->%list_elem_of_singleton]%elem_of_app Hf; [|done].
    apply Hkeep; [|by apply Hd]. intros Heq. apply Hni. rewrite <-Heq.
    by apply (list_elem_of_fmap_2 np_ID).
  - intros i Hi. rewrite map_app, elem_of_app in Hi. rewrite Hne; [apply Hu; naive_solver|].
    intros ->. apply Hi. right. by left.
Qed.

Lemma Convert_runs phase baseline dry s :
  runs view s (Convert phase baseline dry)
    (λ _ s', ∃ d, ports_only phase baseline d s s' ∧
       (dry = true → s' = s) ∧
       (dry = false → ∀ id l, ns_ports s !! id = Some (DeviceOwnerCapsule, l) →
          port_converted phase baseline d s s' id) ∧
       (if decide (d = "") then ∀ i x, ns_groups s !! i ≠ Some ("default", x)
        else ∃ x, ns_groups s !! d = Some ("default", x)) ∧
       (phase = PhaseDetach → d ≠ ""))
    (λ _ s', ∃ d, ports_only phase baseline d s s').
Proof.
  unfold Convert. case_decide; [apply runs_fail; exists ""; apply ports_only_refl|].
  eapply runs_bind with (R := λ d s', s' = s ∧
      if decide (d = "") then ∀ i x, ns_groups s !! i ≠ Some ("default", x)
      else ∃ x, ns_groups s !! d = Some ("default", x))
    (E' := λ _ s', s' = s); [|intros e s' ->; exists ""; apply ports_only_refl|].
  { unfold defaultGroupID. step_law (findGroup_runs view "default"); [done|].
    intros [d x] s' [-> Hd]. apply runs_ret. split; [done|]. simpl in *. case_decide; eauto. }
  intros d s' [-> Hd].
  destruct (decide (phase = PhaseDetach ∧ d = "")) as [|Hdn]; [apply runs_fail; exists ""; apply ports_only_refl|].
  step_wrap law_ports_List; [intros e s' ->; exists d; apply ports_only_refl|].
  intros l s' (-> & Hnd & Hl).
  eapply runs_conseq with (Q' := λ _ s', converting phase baseline d dry s l s')
    (E' := λ _ s', ports_only phase baseline d s s').
  - apply (runs_fold_each view (λ pre _ s', converting phase baseline d dry s pre s')).
    { split; [apply ports_only_refl|]. split; [by intros p ?%elem_of_nil|done]. }
    intros pre p post [changed total] s1 -> Hc. unfold convert_port.
    assert (ns_ports s !! np_ID p = Some (DeviceOwnerCapsule, np_SecurityGroups p)) as Hp
      by (apply Hl; set_solver).
    assert (np_ID p ∉ map np_ID pre) as Hni.
    { rewrite map_app in Hnd. apply NoDup_app in Hnd as (_ & Hno & _).
      intros Hin. apply (Hno _ Hin). by left. }
    destruct (equalStrings _ _) eqn:Heq.
    { apply runs_ret. apply converting_skip; try done. right. by apply equalStrings_spec. }
    destruct dry.
    { apply runs_ret. apply converting_skip; try done. by left. }
    step_wrap law_ports_Update.
    + intros e s2 [->| ->]; [apply Hc|]. by apply (converting_update _ _ _ _ pre).
    + intros u s2 ->. apply runs_ret. by apply converting_update.
  - intros k s2 (Ho & Hdone & _ & Hdry). exists d. split; [done|]. split; [done|].
    split; [|split; [done|tauto]]. intros Hf id g Hid. apply (Hdone (mkNeutronPort id g)); [|done].
    by apply Hl.
  - intros e s2 Ho. by exists d.
Qed.
End convert_facts.

(** ** Properties *)

(** A phase of [Convert] that succeeds leaves every capsule port carrying,
    after attach, exactly what it had plus the baseline, and after detach that
    minus the default group; no other port moves and a dry run changes nothing.
    However the attach phase ends, no port carries less than it did. *)
Theorem Convert_correct {W : Type} `{!NeutronAPI W} (view : W → NeutronState)
    `{!NeutronLaws W view} (phase : MigratePhase) (baseline : list string) (dry : bool)
    (s : NeutronState) :
  runs view s (Convert phase baseline dry)
    (λ _ s', (dry = true → s' = s) ∧
       (∀ id o l, ns_ports s !! id = Some (o, l) → o ≠ DeviceOwnerCapsule →
          ns_ports s' !! id = Some (o, l)) ∧
       (dry = false → ∀ id l, ns_ports s !! id = Some (DeviceOwnerCapsule, l) →
          ∃ d l', ns_ports s' !! id = Some (DeviceOwnerCapsule, l') ∧
            (d = "" ∨ ∃ x, ns_groups s !! d = Some ("default", x)) ∧
            ∀ g, g ∈ l' ↔ (g ∈ l ∧ (phase = PhaseDetach → g ≠ d)) ∨ g ∈ baseline))
    (λ _ s', phase = PhaseAttach → ∀ id o l, ns_ports s !! id = Some (o, l) →
       ∃ l', ns_ports s' !! id = Some (o, l') ∧ ∀ g, g ∈ l → g ∈ l').
Proof.
  eapply runs_conseq; [apply (Convert_runs view)| |]; cbv beta.
  - intros k s' (d & (_ & _ & _ & Ho) & Hdry & Hconv & Hd & _). split; [done|]. split.
    + intros id o l Hid Hne. destruct (Ho id) as [->|[[x Hx] _]]; [done|congruence].
    + intros Hf id l Hid. destruct (Hconv Hf id l Hid) as (o & m & l' & Hm & Hl' & Hg).
      rewrite Hid in Hm. injection Hm as <- <-. exists d, l'. split; [done|]. split.
      * case_decide; [by left|by right].
      * intros g. by rewrite Hg, elem_of_desiredGroups.
  - intros e s' (d & _ & _ & _ & Ho) -> id o l Hid.
    destruct (Ho id) as [->|[_ (o' & m & l' & Hm & Hl' & Hg)]]; [by exists l|].
    rewrite Hid in Hm. injection Hm as <- <-. exists l'. split; [done|].
    intros g Hgl. apply Hg, elem_of_desiredGroups. by left.
Qed.

(** ** Witness *)
Lemma Convert_correct_witness : ∃ s' l',
  ns_ports s' !! "port1" = Some ("compute:zun", l') ∧ "default" ∈ l' ∧ "knp" ∈ l'.
Proof.
  destruct (runs_ok ref_clean ex_ports _ _ _
    (@Convert_correct _ RefNeutron ref_clean RefNeutron_laws PhaseAttach ["knp"] false ex_ports))
    as (k & _ & _ & _ & H); [by vm_compute|].
  destruct (H eq_refl "port1" ["default"] eq_refl) as (d & l' & Hl & _ & Hg).
  eexists _, l'. split; [exact Hl|]. split; apply Hg; [left|right]; [|by left].
  split; [by left|done].
Defined.
