(* ===== verification/ZunCapsule.v ===== *)
(** * pkg/zun/capsule.go and the ownership half of template.go: capsules

    What Zun answers about a capsule, how a container's probe state is read out
    of it, how a capsule is known to be this provider's and for which pod, and
    the calls of the capsule API over the service [CapsuleHTTP]. *)

From S2P Require Import Prelude GoStd K8s.
From Stdlib Require Import Ascii.

Local Open Scope string_scope.
Local Open Scope list_scope.

(** ** Decoded JSON

    What [encoding/json] puts in an [any], and what it is given to write.  A
    number is a whole one or one of thousandths; an object's keys are distinct,
    as in the Go map. *)
Inductive json : Type :=
  | JNull
  | JBool (b : bool)
  | JNumber (n : Z)
  | JMilli (n : Z)
  | JString (s : string)
  | JArray (l : list json)
  | JObject (o : list (string * json)).

Fixpoint jget (o : list (string * json)) (k : string) : option json :=
  match o with
  | [] => None
  | (k', v) :: o' => if decide (k = k') then Some v else jget o' k
  end.

(** [x.(map[string]any)] on what a key holds, [None] when it is not there. *)
Definition as_object (v : option json) : option (list (string * json)) :=
  match v with Some (JObject o) => Some o | _ => None end.

(** Conversion to [int32] keeps the low 32 bits. *)
Definition wrap32 (n : Z) : Z := ((n + 2 ^ 31) mod 2 ^ 32 - 2 ^ 31)%Z.

(** ** Capsules *)
Record Address := mkAddress {
  a_Addr : string; a_Port : string; a_Version : Z; a_SubnetID : string;
  a_PreserveOnDelete : bool }.

(** [Container] of this package. *)
Record CapsuleContainer := mkCapsuleContainer {
  cc_UUID : string;
  cc_Name : string;
  cc_Image : string;
  cc_Status : string;
  cc_StatusReason : string;
  cc_StatusDetail : string;
  cc_StartedAt : Time;
  cc_UpdatedAt : Time;
  cc_Healthcheck : list (string * json) }.

Record Capsule := mkCapsule {
  cap_UUID : string;
  cap_Status : string;
  cap_StatusReason : string;
  cap_Host : string;
  cap_CreatedAt : Time;
  cap_Addresses : gmap string (list Address);
  cap_Containers : list CapsuleContainer;
  cap_NameField : string;
  cap_LabelsField : gmap string string;
  cap_MetaNameField : string;
  cap_MetaLabelField : gmap string string }.

Definition Capsule_Name (c : Capsule) : string :=
  if decide (cap_NameField c ≠ "") then cap_NameField c else cap_MetaNameField c.

Definition Capsule_Labels (c : Capsule) : gmap string string :=
  if decide (cap_LabelsField c ≠ ∅) then cap_LabelsField c else cap_MetaLabelField c.

(** *** Probe state *)
Definition probe_state (c : CapsuleContainer) : option (list (string * json)) :=
  as_object (jget (cc_Healthcheck c) "k8s_probe_state").

Definition Ready (c : CapsuleContainer) : bool :=
  match probe_state c with
  | None => true
  | Some state => match jget state "ready" with Some (JBool ready) => ready | _ => true end
  end.

Definition HasReadinessProbe (c : CapsuleContainer) : bool :=
  match as_object (jget (cc_Healthcheck c) "k8s_probes") with
  | None => false
  | Some probes => bool_decide (is_Some (jget probes "readinessProbe"))
  end.

Definition Restarts (c : CapsuleContainer) : Z :=
  match probe_state c with
  | None => 0
  | Some state => match jget state "restarts" with Some (JNumber n) => wrap32 n | _ => 0 end
  end.

Definition ProbeAnswered (c : CapsuleContainer) : bool :=
  match probe_state c with
  | None => false
  | Some state => bool_decide (is_Some (jget state "ready"))
  end.

(** ** Ownership *)
Definition LabelManagedBy : string := "knaas.io/managed-by".
Definition LabelNamespace : string := "knaas.io/pod-namespace".
Definition LabelPodName : string := "knaas.io/pod-name".
Definition LabelPodUID : string := "knaas.io/pod-uid".
Definition LabelOwnerUID : string := "knaas.io/owner-uid".
Definition LabelNodeName : string := "knaas.io/node-name".
Definition ManagedByValue : string := "kubezun".

(** pkg/service's annotation for the address a Service is reachable on: the
    contract between the Service reconciler that writes it and the provider
    that reads it. *)
Definition AddressAnnotation : string := "kubezoo.io/cluster-ip".

(** A missing key of a Go map reads as the empty string. *)
Definition label (m : gmap string string) (k : string) : string := opt_or "" (m !! k).

Definition CapsuleName (pod : Pod) : string := "kubezun-" +:+ UID pod.

Definition PodKeyFromLabels (labels : gmap string string) : string * string * bool :=
  if decide (label labels LabelManagedBy ≠ ManagedByValue) then ("", "", false)
  else
    let namespace := label labels LabelNamespace in
    let name := label labels LabelPodName in
    (namespace, name, negb (bool_decide (namespace = "")) && negb (bool_decide (name = ""))).

Definition PodKey (namespace name : string) : string := namespace +:+ "/" +:+ name.

(** [strings.SplitN(key, "/", 2)] has two parts exactly when there is a slash. *)
Definition SplitPodKey (key : string) : result (string * string) :=
  match cut key "/" with
  | None => Err (ErrMsg ("malformed pod key " +:+ go_quote key))
  | Some parts => Ok parts
  end.

Definition PodUID (c : Capsule) : string := label (Capsule_Labels c) LabelPodUID.
Definition Capsule_NodeName (c : Capsule) : string := label (Capsule_Labels c) LabelNodeName.

(** [metav1.GetControllerOf]: the first owner reference marked as controller. *)
Definition controller_of (pod : Pod) : option OwnerReference :=
  find (λ o, match or_Controller o with Some b => b | None => false end) (Owners pod).

Definition ownedLabels (pod : Pod) : gmap string string :=
  let labels : gmap string string :=
    <[LabelManagedBy := ManagedByValue]> (<[LabelNamespace := Namespace pod]>
      (<[LabelPodName := Name pod]> (<[LabelPodUID := UID pod]> ∅))) in
  match controller_of pod with
  | Some owner => <[LabelOwnerUID := or_UID owner]> labels
  | None => labels
  end.

(** ** Lists of capsules *)

(** The grouping loop of [ListManagedAll]. *)
Definition group_step (out : gmap string (list Capsule)) (c : Capsule)
    : gmap string (list Capsule) :=
  let '(ns, name, ok) := PodKeyFromLabels (Capsule_Labels c) in
  if ok : bool then <[PodKey ns name := opt_or [] (out !! PodKey ns name) ++ [c]]> out else out.

Definition group_managed (capsules : list Capsule) : gmap string (list Capsule) :=
  fold_left group_step capsules ∅.

(** The newest of a pod's capsules; the first of those created at one time. *)
Definition newest (capsules : list Capsule) : option Capsule :=
  match capsules with
  | [] => None
  | c :: cs => Some (fold_left (λ newest c,
      if after (cap_CreatedAt c) (cap_CreatedAt newest) then c else newest) cs c)
  end.

Definition newest_managed (all : gmap string (list Capsule)) : gmap string Capsule :=
  omap newest all.

(** ** The capsule API *)
Class CapsuleHTTP (W : Type) := {
  http_Post : json → M W Capsule;
  http_Get : string → M W Capsule;
  http_Delete : string → M W ();
  http_List : M W (list Capsule);
}.

(** [translate]: the transport's status codes as the node controller's kinds. *)
Definition translate (e : gerror) : gerror :=
  match root_cause e with
  | ErrResponse code body =>
      if decide (code = 404%Z) then ErrNotFound
      else if decide (code = 409%Z ∨ code = 400%Z) then ErrInvalidInput "" body
      else e
  | _ => e
  end.

Definition translated {W A} (m : M W A) : M W A := λ w,
  match m w with
  | (Ok a, w') => (Ok a, w')
  | (Err e, w') => (Err (translate e), w')
  end.

Section api.
Context {W : Type} `{!CapsuleHTTP W}.
Definition Capsule_Create (tpl : json) : M W Capsule := translated (http_Post tpl).
Definition Capsule_Get (id : string) : M W Capsule := translated (http_Get id).
(** [?force=True]. *)
Definition Capsule_Delete (id : string) : M W () := translated (http_Delete id).
Definition ListManagedAll : M W (gmap string (list Capsule)) :=
  l ← translated http_List; mret (group_managed l).
Definition ListManaged : M W (gmap string Capsule) :=
  all ← ListManagedAll; mret (newest_managed all).
End api.

(** ** Lemmas *)
Definition managed_for (ns name : string) (c : Capsule) : bool :=
  bool_decide (PodKeyFromLabels (Capsule_Labels c) = (ns, name, true)).

Lemma PodKeyFromLabels_spec labels ns name :
  PodKeyFromLabels labels = (ns, name, true) ↔
  label labels LabelManagedBy = ManagedByValue ∧ label labels LabelNamespace = ns ∧
  label labels LabelPodName = name ∧ ns ≠ "" ∧ name ≠ "".
Proof.
  unfold PodKeyFromLabels. case_decide as H.
  - split; [done|]. by intros [? _].
  - rewrite H. split.
    + intros [= <- <- Hb]. apply andb_true_iff in Hb as [H1 H2].
      apply negb_true_iff, bool_decide_eq_false in H1.
      by apply negb_true_iff, bool_decide_eq_false in H2.
    + intros (_ & -> & -> & H1 & H2). by rewrite !bool_decide_false.
Qed.

(** A capsule made for a pod is found under that pod's key again. *)
Lemma ownedLabels_key pod m :
  Namespace pod ≠ "" → Name pod ≠ "" →
  (∀ k, k ∈ [LabelManagedBy; LabelNamespace; LabelPodName; LabelPodUID] →
     m !! k = ownedLabels pod !! k) →
  PodKeyFromLabels m = (Namespace pod, Name pod, true) ∧ label m LabelPodUID = UID pod.
Proof.
  intros Hns Hn Hm.
  assert (∀ k, k ∈ [LabelManagedBy; LabelNamespace; LabelPodName; LabelPodUID] →
    label m k = label (ownedLabels pod) k) as Hl by (intros k Hk; unfold label; by rewrite Hm).
  assert (label (ownedLabels pod) LabelManagedBy = ManagedByValue ∧
    label (ownedLabels pod) LabelNamespace = Namespace pod ∧
    label (ownedLabels pod) LabelPodName = Name pod ∧
    label (ownedLabels pod) LabelPodUID = UID pod) as (H1 & H2 & H3 & H4).
  { unfold label, ownedLabels. destruct (controller_of pod);
      repeat split; rewrite ?lookup_insert_ne by done; by rewrite lookup_insert_eq. }
  split.
  - apply PodKeyFromLabels_spec. rewrite !Hl by set_solver. auto.
  - by rewrite Hl by set_solver.
Qed.

Lemma SplitPodKey_PodKey ns name :
  no_char "/"%char ns = true → SplitPodKey (PodKey ns name) = Ok (ns, name).
Proof.
  intros Hns. unfold SplitPodKey, PodKey.
  change ("/" +:+ name) with (String "/"%char name).
  by rewrite cut_char_app.
Qed.

Lemma PodKey_inj ns1 name1 ns2 name2 :
  no_char "/"%char ns1 = true → no_char "/"%char ns2 = true →
  PodKey ns1 name1 = PodKey ns2 name2 → ns1 = ns2 ∧ name1 = name2.
Proof. intros H1 H2. apply (sep_inj "/"%char); done. Qed.

(** Is this capsule one of the pod the key names? *)
Definition is_for (k : string) (c : Capsule) : bool :=
  let '(ns, name, ok) := PodKeyFromLabels (Capsule_Labels c) in
  ok && bool_decide (PodKey ns name = k).

Lemma group_step_lookup out c k :
  opt_or [] (group_step out c !! k) = opt_or [] (out !! k) ++ (if is_for k c then [c] else []).
Proof.
  unfold group_step, is_for. destruct (PodKeyFromLabels _) as [[ns name] [|]]; simpl;
    [|by rewrite app_nil_r].
  case_bool_decide as Hk.
  - rewrite Hk. by rewrite lookup_insert_eq.
  - by rewrite lookup_insert_ne, app_nil_r.
Qed.

Lemma fold_group_lookup l out k :
  opt_or [] (fold_left group_step l out !! k) =
  opt_or [] (out !! k) ++ filter (λ c, is_for k c = true) l.
Proof.
  revert out. induction l as [|c l IH]; intros out; simpl; [by rewrite app_nil_r|].
  rewrite IH, group_step_lookup, <-app_assoc. f_equal.
  rewrite filter_cons. by destruct (is_for k c); [rewrite decide_True|rewrite decide_False].
Qed.

(** Every capsule of a pod, in the order Zun listed them, and nothing else. *)
Lemma group_managed_lookup capsules k :
  opt_or [] (group_managed capsules !! k) = filter (λ c, is_for k c = true) capsules.
Proof. unfold group_managed. by rewrite fold_group_lookup, lookup_empty. Qed.

Lemma group_managed_nonempty capsules k l : group_managed capsules !! k = Some l → l ≠ [].
Proof.
  unfold group_managed.
  enough (∀ cs out, (∀ l, out !! k = Some l → l ≠ []) →
    fold_left group_step cs out !! k = Some l → l ≠ []) as H
    by (apply (H capsules ∅); by intros ?; rewrite lookup_empty).
  induction cs as [|c cs IH]; intros out Hout; simpl; [by apply Hout|].
  apply IH. intros l'. unfold group_step.
  destruct (PodKeyFromLabels _) as [[ns name] [|]]; [|by apply Hout].
  rewrite lookup_insert_Some. intros [[_ <-]|[_ Hl]]; [by destruct (opt_or _ _)|by apply Hout].
Qed.

Lemma group_managed_Some capsules k l :
  group_managed capsules !! k = Some l ↔
  l = filter (λ c, is_for k c = true) capsules ∧ l ≠ [].
Proof.
  pose proof (group_managed_lookup capsules k) as Hl. split.
  - intros H. rewrite H in Hl. simpl in Hl. split; [done|].
    by eapply group_managed_nonempty.
  - intros [-> Hne]. destruct (group_managed capsules !! k); simpl in Hl; congruence.
Qed.

Lemma newest_fold_spec cs n :
  let r := fold_left (λ newest c,
      if after (cap_CreatedAt c) (cap_CreatedAt newest) then c else newest) cs n in
  r ∈ n :: cs ∧ ∀ c, c ∈ n :: cs → after (cap_CreatedAt c) (cap_CreatedAt r) = false.
Proof.
  revert n. induction cs as [|c cs IH]; intros n; simpl.
  - split; [by left|]. intros c ->%list_elem_of_singleton.
    unfold after. destruct (cap_CreatedAt n); [lia|done].
  - destruct (after (cap_CreatedAt c) (cap_CreatedAt n)) eqn:Ha.
    + destruct (IH c) as [Hin Hmax]. split; [by right|].
      intros c' [->|Hc']%elem_of_cons; [|by apply Hmax].
      pose proof (Hmax c ltac:(by left)) as Hc. revert Ha Hc. unfold after.
      repeat case_match; intros; try done; lia.
    + destruct (IH n) as [Hin Hmax]. split.
      * apply elem_of_cons in Hin as [->|Hin]; [by left|by right; right].
      * intros c' [->|[->|Hc']%elem_of_cons]%elem_of_cons;
          [apply Hmax; by left| |apply Hmax; by right].
        pose proof (Hmax n ltac:(by left)) as Hn. revert Ha Hn. unfold after.
        repeat case_match; intros; try done; lia.
Qed.

Lemma newest_spec l c :
  newest l = Some c →
  c ∈ l ∧ ∀ c', c' ∈ l → after (cap_CreatedAt c') (cap_CreatedAt c) = false.
Proof. destruct l as [|n cs]; [done|]. intros [= <-]. apply newest_fold_spec. Qed.

(** ** Properties *)

(** C36 A capsule's labels bring the pod back: one that carries the four labels
    [ownedLabels] stamps -- whatever else it carries -- is recognised as this
    provider's, under the key of the pod it was made for and with that pod's
    UID, and the key splits into the pod's namespace and name again. *)
Theorem ownership_roundtrip (pod : Pod) (c : Capsule) :
  Namespace pod ≠ "" → Name pod ≠ "" → no_char "/"%char (Namespace pod) = true →
  (∀ k, k ∈ [LabelManagedBy; LabelNamespace; LabelPodName; LabelPodUID] →
     Capsule_Labels c !! k = ownedLabels pod !! k) →
  PodKeyFromLabels (Capsule_Labels c) = (Namespace pod, Name pod, true) ∧
  PodUID c = UID pod ∧
  SplitPodKey (PodKey (Namespace pod) (Name pod)) = Ok (Namespace pod, Name pod).
Proof.
  intros Hns Hn Hs Hl. destruct (ownedLabels_key pod (Capsule_Labels c) Hns Hn Hl) as [Hk Hu].
  split; [done|]. split; [done|]. by apply SplitPodKey_PodKey.
Qed.

(** [ListManagedAll] groups exactly the capsules that carry this provider's
    labels, each under its pod's key and none lost or moved, and [ListManaged]
    picks for each of those pods one of its capsules than which none is newer. *)
Theorem ListManaged_newest (capsules : list Capsule) (k : string) :
  (∀ l, group_managed capsules !! k = Some l ↔
     l = filter (λ c, is_for k c = true) capsules ∧ l ≠ []) ∧
  (∀ c, newest_managed (group_managed capsules) !! k = Some c →
     c ∈ capsules ∧ is_for k c = true ∧
     ∀ c', c' ∈ capsules → is_for k c' = true →
       after (cap_CreatedAt c') (cap_CreatedAt c) = false) ∧
  ((∃ c, c ∈ capsules ∧ is_for k c = true) →
     is_Some (newest_managed (group_managed capsules) !! k)).
Proof.
  split; [intros l; apply group_managed_Some|]. unfold newest_managed.
  rewrite lookup_omap. split.
  - intros c. destruct (group_managed capsules !! k) as [l|] eqn:Hl; simpl; [|done].
    intros Hn. apply group_managed_Some in Hl as [-> _].
    apply newest_spec in Hn as [Hin Hmax]. apply list_elem_of_filter in Hin as [Hf Hin].
    split; [done|]. split; [done|]. intros c' Hc' Hf'. apply Hmax.
    by apply list_elem_of_filter.
  - intros (c & Hc & Hf).
    destruct (group_managed capsules !! k) as [l|] eqn:Hl; simpl.
    + apply group_managed_Some in Hl as [_ Hne]. destruct l; [done|]. by eexists.
    + pose proof (group_managed_lookup capsules k) as Hg. rewrite Hl in Hg. simpl in Hg.
      assert (c ∈ filter (λ c, is_for k c = true) capsules) as Hin
        by by apply list_elem_of_filter.
      rewrite <-Hg in Hin. by apply elem_of_nil in Hin.
Qed.

(** ** Witness *)
Definition no_capsule : Capsule :=
  mkCapsule "" "" "" "" None ∅ [] "" ∅ "" ∅.

Lemma ownership_roundtrip_witness :
  let pod := empty_pod "prod" "api-0" "u1" in
  ∃ c, PodKeyFromLabels (Capsule_Labels c) = ("prod", "api-0", true) ∧ PodUID c = "u1".
Proof.
  exists (mkCapsule "" "" "" "" None ∅ [] "" (ownedLabels (empty_pod "prod" "api-0" "u1")) "" ∅).
  destruct (ownership_roundtrip (empty_pod "prod" "api-0" "u1")
    (mkCapsule "" "" "" "" None ∅ [] "" (ownedLabels (empty_pod "prod" "api-0" "u1")) "" ∅)
    ltac:(done) ltac:(done) eq_refl) as (H1 & H2 & _); [|by split].
  intros k Hk. rewrite !elem_of_cons, elem_of_nil in Hk.
  by destruct Hk as [->|[->|[->|[->|[]]]]].
Defined.
