(* ===== verification/ZunStatus.v ===== *)
(** * pkg/zun/status.go: a capsule's state as a pod's

    Phases, conditions, container states and statuses, readiness and
    addresses, as the source computes them; the theorems say that what a tenant
    reads is consistent: a phase, a container state and a readiness that never
    contradict what Zun reported. *)

From S2P Require Import Prelude GoStd K8s ZunCapsule.
From Stdlib Require Import Ascii.

Local Open Scope string_scope.
Local Open Scope list_scope.

(** ** Reasons and phases *)
Definition tenantReason (status : string) : string :=
  if decide (status = "Stopped") then "Completed"
  else if decide (status = "Unknown") then "ContainerStatusUnknown"
  else status.
Definition waitingReason (status : string) : string := tenantReason status.
Definition terminatedReason (status : string) : string := tenantReason status.

Definition PodPhase (status : string) : string :=
  if decide (status = "Running") then PodRunning
  else if decide (status = "Stopped") then PodSucceeded
  else if decide (status ∈ ["Error"; "Dead"]) then PodFailed
  else if decide (status ∈ ["Creating"; "Created"; "Restarting"; "Rebuilding"; "Paused";
                            "Deleting"; "Deleted"]) then PodPending
  else PodUnknown.

(** [strings.CutPrefix] and [strconv.ParseInt(rest, 10, 32)]. *)
Definition exitCode (c : CapsuleContainer) : Z :=
  let recorded := match drop_prefix "exit:" (cc_StatusDetail c) with
                  | Some rest => ParseInt 32 rest
                  | None => None
                  end in
  match recorded with
  | Some code => code
  | None => if decide (cc_Status c ∈ ["Error"; "Dead"]) then 1 else 0
  end.

Definition PhaseOf (cap : Capsule) : string :=
  let phase := PodPhase (cap_Status cap) in
  if decide (phase ≠ PodSucceeded) then phase
  else if existsb (λ c, negb (bool_decide (exitCode c = 0%Z))) (cap_Containers cap)
       then PodFailed else phase.

(** ** Conditions *)
Definition PodConditions (status : string) (ready : bool) (t : Time) : list PodCondition :=
  let scheduled := mkCondition "PodScheduled" "True" "" t in
  if decide (status = "Running") then
    [mkCondition "Ready" (if ready then "True" else "False")
       (if ready then "" else "NetworkNotReady") t;
     mkCondition "Initialized" "True" "" t; scheduled]
  else if decide (status ∈ ["Creating"; "Created"; "Rebuilding"; "Restarting"]) then
    [mkCondition "Ready" "False" "ContainersNotReady" t;
     mkCondition "Initialized" "False" "ContainersNotInitialized" t; scheduled]
  else [mkCondition "Ready" "False" "ContainersNotReady" t; scheduled].

(** ** Containers *)
Definition failureMessage (c : CapsuleContainer) : string :=
  if decide (cc_StatusReason c ≠ "") then cc_StatusReason c else cc_StatusDetail c.

Definition ContainerState_of (c : CapsuleContainer) : ContainerState :=
  let started := cc_StartedAt c in
  if decide (cc_Status c = "Running") then CSRunning started
  else if decide (cc_Status c = "Stopped") then
    let code := exitCode c in
    CSTerminated code (if decide (code ≠ 0%Z) then "Error" else "Completed")
      (cc_StatusDetail c) started (cc_UpdatedAt c)
  else if decide (cc_Status c ∈ ["Error"; "Dead"]) then
    CSTerminated (exitCode c) (terminatedReason (cc_Status c)) (failureMessage c)
      started (cc_UpdatedAt c)
  else CSWaiting (waitingReason (cc_Status c)) (cc_StatusReason c).

Definition capsuleReasonOr (cap : Capsule) (fallback : string) : string :=
  if decide (cap_StatusReason cap ≠ "") then cap_StatusReason cap else fallback.

(** [None] is [failed = false]. *)
Definition capsuleFailure (cap : Capsule) : option (string * string) :=
  let failed :=
    if decide (cap_Status cap ∈ ["Error"; "Dead"]) then true
    else if decide (cap_Status cap = "Stopped") then bool_decide (cap_Host cap = "")
    else false in
  if failed : bool then
    if decide (cap_Host cap = "") then
      Some ("UnexpectedAdmissionError", capsuleReasonOr cap
        "no machine behind this node could satisfy the pod's placement requirements")
    else Some ("RunContainerError", capsuleReasonOr cap "the pod's containers could not be run")
  else None.

Definition ContainerReady (c : CapsuleContainer) : bool :=
  if decide (cc_Status c ≠ "Running") then false
  else if HasReadinessProbe c && negb (ProbeAnswered c) then false
  else Ready c.

Definition CapsuleReady (cap : Capsule) : bool :=
  negb (bool_decide (cap_Containers cap = [])) && forallb ContainerReady (cap_Containers cap).

(** One container's status; [None] where the capsule has no such container. *)
Definition container_status (cap : Capsule) (spec : Container) (c : option CapsuleContainer)
    : ContainerStatus :=
  let st := match c with
            | None => mkContainerStatus (c_Name spec) (c_Image spec)
                        (CSWaiting "ContainerCreating" "") false 0 ""
            | Some c => mkContainerStatus (c_Name spec) (c_Image spec) (ContainerState_of c)
                          (ContainerReady c) (Restarts c) ("zun://" +:+ cc_UUID c)
            end in
  match cs_State st, capsuleFailure cap with
  | CSWaiting _ _, Some (reason, msg) =>
      mkContainerStatus (cs_Name st) (cs_Image st) (CSWaiting reason msg) (cs_Ready st)
        (cs_RestartCount st) (cs_ContainerID st)
  | _, _ => st
  end.

Definition ContainerStatuses_of (pod : Pod) (cap : Capsule) : list ContainerStatus :=
  imap (λ i spec, container_status cap spec (cap_Containers cap !! i)) (Containers (Spec pod)).

(** ** Addresses

    [cap.Addresses] is a map: a loop over it visits its networks in some order,
    [visit], that may differ from one loop to the next. *)
Definition addresses_in (visit : list string) (cap : Capsule) : list Address :=
  flat_map (λ n, opt_or [] (cap_Addresses cap !! n)) visit.

Definition CapsulePodIP (visit : list string) (cap : Capsule) : string :=
  opt_or "" (a_Addr <$> find (λ a, bool_decide (a_Version a = 4%Z ∧ a_Addr a ≠ ""))
                          (addresses_in visit cap)).

Definition PodSubnetID (visit : list string) (cap : Capsule) : string :=
  opt_or "" (a_SubnetID <$> find (λ a, bool_decide (a_Version a = 4%Z ∧ a_Addr a ≠ "" ∧
                                                    a_SubnetID a ≠ ""))
                              (addresses_in visit cap)).

Definition PortIDs (visit : list string) (cap : Capsule) : list string :=
  filter (λ p, p ≠ "") (map a_Port (addresses_in visit cap)).

(** A visit of the map: every network once. *)
Definition visits (visit : list string) (cap : Capsule) : Prop :=
  visit ≡ₚ map fst (map_to_list (cap_Addresses cap)).

(** ** Lemmas *)
Lemma exitCode_recorded c code :
  (- 2 ^ 31 ≤ code < 2 ^ 31)%Z → cc_StatusDetail c = "exit:" +:+ pretty code → exitCode c = code.
Proof.
  intros Hc Hd. unfold exitCode. rewrite Hd.
  replace (drop_prefix "exit:" ("exit:" +:+ pretty code)) with (Some (pretty code))
    by (symmetry; by apply drop_prefix_Some).
  by rewrite ParseInt_pretty.
Qed.

Lemma PhaseOf_cases cap :
  (PhaseOf cap = PodRunning ↔ cap_Status cap = "Running") ∧
  (PhaseOf cap = PodSucceeded ↔
     cap_Status cap = "Stopped" ∧ Forall (λ c, exitCode c = 0%Z) (cap_Containers cap)) ∧
  (PhaseOf cap = PodFailed ↔
     cap_Status cap ∈ ["Error"; "Dead"] ∨
     (cap_Status cap = "Stopped" ∧ ∃ c, c ∈ cap_Containers cap ∧ exitCode c ≠ 0%Z)).
Proof.
  assert (∀ l, existsb (λ c, negb (bool_decide (exitCode c = 0%Z))) l = true ↔
    ∃ c, c ∈ l ∧ exitCode c ≠ 0%Z) as Hex.
  { intros l. rewrite existsb_In. setoid_rewrite negb_true_iff.
    by setoid_rewrite bool_decide_eq_false. }
  assert (∀ l, existsb (λ c, negb (bool_decide (exitCode c = 0%Z))) l = false ↔
    Forall (λ c, exitCode c = 0%Z) l) as Hall.
  { intros l. rewrite <-not_true_iff_false, Hex, Forall_forall. split.
    - intros H c Hc. destruct (decide (exitCode c = 0%Z)); naive_solver.
    - intros H (c & Hc & Hne). by apply Hne, H. }
  unfold PhaseOf, PodPhase.
  destruct (decide (cap_Status cap = "Running")) as [->|Hr].
  { rewrite decide_True by done. rewrite !elem_of_cons, elem_of_nil. naive_solver. }
  destruct (decide (cap_Status cap = "Stopped")) as [Hs|Hs].
  { rewrite decide_False by naive_solver. rewrite Hs, !elem_of_cons, elem_of_nil.
    rewrite <-Hex, <-Hall. destruct (existsb _ _); naive_solver. }
  repeat case_decide; rewrite ?Hs; naive_solver.
Qed.

Lemma container_status_name cap spec c :
  cs_Name (container_status cap spec c) = c_Name spec ∧
  cs_Image (container_status cap spec c) = c_Image spec.
Proof. unfold container_status. by destruct c; repeat case_match; simplify_eq/=. Qed.

(** Ready is the prober's word on a running container. *)
Definition serving (c : CapsuleContainer) : Prop :=
  cc_Status c = "Running" ∧
  (HasReadinessProbe c = true → ∃ state v, probe_state c = Some state ∧
     jget state "ready" = Some v ∧ v ≠ JBool false) ∧
  (∀ state, probe_state c = Some state → jget state "ready" ≠ Some (JBool false)).

Lemma ContainerReady_spec c : ContainerReady c = true ↔ serving c.
Proof.
  unfold ContainerReady, serving, ProbeAnswered, Ready.
  destruct (decide (cc_Status c = "Running")) as [Hr|Hr];
    [rewrite decide_False by naive_solver|rewrite decide_True by done; naive_solver].
  destruct (probe_state c) as [state|] eqn:Hp.
  - destruct (jget state "ready") as [v|] eqn:Hj.
    + rewrite bool_decide_true by done. rewrite andb_false_r.
      destruct v as [|[]| | | | |]; naive_solver.
    + rewrite bool_decide_false by (by intros [? ?]). rewrite andb_true_r.
      destruct (HasReadinessProbe c); naive_solver.
  - rewrite andb_true_r. destruct (HasReadinessProbe c); naive_solver.
Qed.

Lemma container_status_state cap spec c :
  let st := container_status cap spec (Some c) in
  (cs_Ready st = ContainerReady c) ∧
  (cc_Status c = "Running" → ∃ t, cs_State st = CSRunning t) ∧
  (∀ code msg s f, cs_State st = CSTerminated code "Completed" msg s f →
     cc_Status c = "Stopped" ∧ code = 0%Z) ∧
  (∀ code r msg s f, cs_State st = CSTerminated code r msg s f →
     code = exitCode c ∧ cc_Status c ∈ ["Stopped"; "Error"; "Dead"]) ∧
  (∀ t, cs_State st = CSRunning t → cc_Status c = "Running") ∧
  (∀ r m, cs_State st = CSWaiting r m → capsuleFailure cap = Some (r, m) ∨
     (capsuleFailure cap = None ∧ r = tenantReason (cc_Status c) ∧ m = cc_StatusReason c)).
Proof.
  unfold container_status. simpl. unfold ContainerState_of.
  destruct (decide (cc_Status c = "Running")) as [Hr|Hr]; [simpl; naive_solver|].
  destruct (decide (cc_Status c = "Stopped")) as [Hs|Hs].
  { rewrite Hs. simpl. repeat split; try done; intros; simplify_eq/=; try set_solver.
    destruct (decide (exitCode c = 0%Z)) as [He|He]; [done|].
    rewrite decide_True in * by done. done. }
  destruct (decide (cc_Status c ∈ ["Error"; "Dead"])) as [He|He].
  { simpl. repeat split; try done; intros; simplify_eq/=; try set_solver.
    - rewrite !elem_of_cons, elem_of_nil in He. destruct He as [He|[He|[]]]; rewrite He in *; done.
    - rewrite !elem_of_cons, elem_of_nil in He. destruct He as [He|[He|[]]]; rewrite He in *; done. }
  simpl. destruct (capsuleFailure cap) as [[r m]|]; simpl; naive_solver.
Qed.

(** ** Properties *)

(** The phase a tenant reads follows the capsule and its containers: Running
    exactly for a running capsule, Succeeded exactly for one that stopped with
    every container at exit code zero, Failed exactly for one in error or one
    that stopped with a container that did not exit zero. *)
Theorem PhaseOf_correct (cap : Capsule) :
  (PhaseOf cap = PodRunning ↔ cap_Status cap = "Running") ∧
  (PhaseOf cap = PodSucceeded ↔
     cap_Status cap = "Stopped" ∧ Forall (λ c, exitCode c = 0%Z) (cap_Containers cap)) ∧
  (PhaseOf cap = PodFailed ↔
     cap_Status cap ∈ ["Error"; "Dead"] ∨
     (cap_Status cap = "Stopped" ∧ ∃ c, c ∈ cap_Containers cap ∧ exitCode c ≠ 0%Z)).
Proof. apply PhaseOf_cases. Qed.

(** The exit code Zun records survives the trip: a detail of [exit:<code>]
    is read as that code, for every 32-bit code, and a container that failed
    without a recorded code never reads as zero, the code callers take for
    success. *)
Theorem exitCode_roundtrip (c : CapsuleContainer) :
  (∀ code, (- 2 ^ 31 ≤ code < 2 ^ 31)%Z → cc_StatusDetail c = "exit:" +:+ pretty code →
     exitCode c = code) ∧
  (cc_Status c ∈ ["Error"; "Dead"] → (∀ rest, cc_StatusDetail c ≠ "exit:" +:+ rest) →
     exitCode c ≠ 0%Z) ∧
  (- 2 ^ 31 ≤ exitCode c < 2 ^ 31)%Z.
Proof.
  split; [intros; by apply exitCode_recorded|]. unfold exitCode. split.
  - intros Hs Hno. destruct (drop_prefix "exit:" (cc_StatusDetail c)) as [rest|] eqn:Hd.
    + apply drop_prefix_Some in Hd. by destruct (Hno rest).
    + by rewrite decide_True.
  - destruct (drop_prefix "exit:" (cc_StatusDetail c)) as [rest|]; [|case_decide; lia].
    destruct (ParseInt 32 rest) as [code|] eqn:Hp; [|case_decide; lia].
    unfold ParseInt in Hp. case_match; [|done]. case_decide; [|done]. by injection Hp as <-.
Qed.

(** A pod's container statuses are its containers', in order and under the
    names and images of its spec; a container reads Running only while Zun runs
    it, terminated only with the exit code it has, Completed only at exit code
    zero, ready only while running with its readiness probe not failing, and
    one that never started under a failed capsule says why the capsule failed. *)
Theorem ContainerStatuses_correct (pod : Pod) (cap : Capsule) (i : nat) (spec : Container) :
  Containers (Spec pod) !! i = Some spec →
  length (ContainerStatuses_of pod cap) = length (Containers (Spec pod)) ∧
  ∃ st, ContainerStatuses_of pod cap !! i = Some st ∧
    cs_Name st = c_Name spec ∧ cs_Image st = c_Image spec ∧
    match cap_Containers cap !! i with
    | None => cs_Ready st = false ∧ ∃ r m, cs_State st = CSWaiting r m
    | Some c =>
        (cs_Ready st = true ↔ serving c) ∧
        (∀ t, cs_State st = CSRunning t → cc_Status c = "Running") ∧
        (∀ code r msg s f, cs_State st = CSTerminated code r msg s f →
           code = exitCode c ∧ cc_Status c ∈ ["Stopped"; "Error"; "Dead"] ∧
           (r = "Completed" → code = 0%Z)) ∧
        (∀ r m, cs_State st = CSWaiting r m → capsuleFailure cap ≠ None →
           capsuleFailure cap = Some (r, m))
    end.
Proof.
  intros Hi. unfold ContainerStatuses_of. rewrite length_imap. split; [done|].
  exists (container_status cap spec (cap_Containers cap !! i)).
  rewrite list_lookup_imap, Hi. split; [done|].
  destruct (container_status_name cap spec (cap_Containers cap !! i)) as [-> ->].
  split; [done|]. split; [done|].
  destruct (cap_Containers cap !! i) as [c|].
  - destruct (container_status_state cap spec c) as (Hr & _ & Hc & Ht & Hrun & Hw).
    rewrite Hr, ContainerReady_spec. split; [done|]. split; [done|]. split.
    + intros code r msg s f Hs. destruct (Ht _ _ _ _ _ Hs) as [-> ?].
      split; [done|]. split; [done|]. intros ->. by destruct (Hc _ _ _ _ Hs).
    + intros r m Hs Hf. by destruct (Hw r m Hs) as [?|[? _]].
  - unfold container_status. simpl. destruct (capsuleFailure cap) as [[r m]|]; simpl; eauto.
Qed.

(** A pod is ready exactly when its capsule has containers and every one of
    them serves; then the capsule's conditions say Ready only while it runs. *)
Theorem CapsuleReady_correct (cap : Capsule) (t : Time) :
  (CapsuleReady cap = true ↔
     cap_Containers cap ≠ [] ∧ Forall serving (cap_Containers cap)) ∧
  (∀ ready, mkCondition "Ready" "True" "" t ∈ PodConditions (cap_Status cap) ready t ↔
     cap_Status cap = "Running" ∧ ready = true).
Proof.
  split.
  - unfold CapsuleReady. rewrite andb_true_iff, negb_true_iff, bool_decide_eq_false,
      forallb_In, Forall_forall. by setoid_rewrite ContainerReady_spec.
  - intros ready. unfold PodConditions.
    destruct (decide (cap_Status cap = "Running")) as [->|Hr].
    + rewrite !elem_of_cons, elem_of_nil. destruct ready; naive_solver.
    + destruct (decide _); rewrite !elem_of_cons, elem_of_nil; naive_solver.
Qed.

(** ** What modelling showed *)

(** A capsule that stopped without ever reaching a host is a failure to
    [capsuleFailure] and a success to [PhaseOf]: its containers wait with
    UnexpectedAdmissionError while the pod reads Succeeded, which a Job takes
    for work done. *)
Theorem stopped_unplaced_reads_Succeeded :
  let cap := mkCapsule "c1" "Stopped" "no valid host" "" None ∅
    [mkCapsuleContainer "u" "n" "i" "Creating" "" "" None None []] "" ∅ "" ∅ in
  PhaseOf cap = PodSucceeded ∧
  capsuleFailure cap = Some ("UnexpectedAdmissionError", "no valid host").
Proof. by vm_compute. Qed.

(** The subnet reported for a capsule need not be that of the address reported:
    both loops stop at the first address they like, and they like different ones. *)
Theorem PodSubnetID_of_another_address :
  let cap := mkCapsule "c1" "Running" "" "h" None
    {["net" := [mkAddress "10.0.0.5" "p1" 4 "" false; mkAddress "10.9.0.5" "p2" 4 "s2" false]]}
    [] "" ∅ "" ∅ in
  visits ["net"] cap ∧ CapsulePodIP ["net"] cap = "10.0.0.5" ∧ PodSubnetID ["net"] cap = "s2".
Proof. by vm_compute. Qed.

(** On two networks the address depends on the order the map is visited in. *)
Theorem PodIP_depends_on_visit :
  let cap := mkCapsule "c1" "Running" "" "h" None
    {["a" := [mkAddress "10.0.0.5" "p1" 4 "s1" false];
      "b" := [mkAddress "10.9.0.5" "p2" 4 "s2" false]]} [] "" ∅ "" ∅ in
  visits ["a"; "b"] cap ∧ visits ["b"; "a"] cap ∧
  CapsulePodIP ["a"; "b"] cap ≠ CapsulePodIP ["b"; "a"] cap.
Proof. split; [by vm_compute|]. split; [|by vm_compute]. unfold visits. vm_compute. constructor. Qed.

(** ** Witness *)
Definition ex_capsule : Capsule :=
  mkCapsule "c1" "Running" "" "host1" None
    {["net" := [mkAddress "10.0.0.5" "p1" 4 "s1" false]]}
    [mkCapsuleContainer "u" "n" "i" "Running" "" "" None None []] "" ∅ "" ∅.
Definition ex_status_pod : Pod :=
  mkPod "prod" "api-0" "u1" ∅ [] None
    (mkPodSpec false false false "" "default-scheduler" "" None None None "" None [] "" []
       [empty_container "app"]) empty_status.

Lemma ContainerStatuses_correct_witness : ∃ st,
  ContainerStatuses_of ex_status_pod ex_capsule !! 0 = Some st ∧ cs_Name st = "app" ∧
  cs_Ready st = true.
Proof.
  destruct (ContainerStatuses_correct ex_status_pod ex_capsule 0 (empty_container "app") eq_refl)
    as (_ & st & Hst & Hn & _ & Hr & _).
  exists st. split; [exact Hst|]. split; [exact Hn|].
  apply Hr. apply ContainerReady_spec. reflexivity.
Defined.
