(* ===== verification/ZunTemplate.v ===== *)
(** * pkg/zun/template.go, security.go, probe.go, files.go, preflight.go

    From a pod to the capsule template: what is refused ([Validate]), the
    security context a container ends up with, network probes turned into exec
    probes, volumes rendered as files, and the template with the JSON it is
    sent as. *)

From S2P Require Import Prelude GoStd K8s ZunCapsule.
From Stdlib Require Import Ascii.

Local Open Scope string_scope.
Local Open Scope list_scope.

(** ** Refusals *)

(** [errdefs.InvalidInputf] with the field and the reason. *)
Definition unsupported (field why : string) : gerror := ErrInvalidInput field why.

Definition opt_true (o : option bool) : bool := match o with Some b => b | None => false end.

(** [validateSecurity]'s loop body for one container. *)
Definition container_nonroot (pod : Pod) (c : Container) : bool :=
  let podNonRoot := match PodSecurity (Spec pod) with
    | Some ps => opt_true (ps_RunAsNonRoot ps) | None => false end in
  match c_SecurityContext c with
  | Some sc => match sc_RunAsNonRoot sc with Some b => b | None => podNonRoot end
  | None => podNonRoot
  end.

Definition container_user (pod : Pod) (c : Container) : option Z :=
  let podUser := match PodSecurity (Spec pod) with
    | Some ps => ps_RunAsUser ps | None => None end in
  match c_SecurityContext c with
  | Some sc => match sc_RunAsUser sc with Some u => Some u | None => podUser end
  | None => podUser
  end.

Definition privileged (c : Container) : bool :=
  match c_SecurityContext c with Some sc => opt_true (sc_Privileged sc) | None => false end.

Definition validate_container (pod : Pod) (c : Container) : result () :=
  if privileged c then
    Err (unsupported "securityContext.privileged"
      "the capsule API cannot express privileged containers")
  else
    let nonRoot := container_nonroot pod c in
    let user := container_user pod c in
    if nonRoot && bool_decide (user = None) then
      Err (unsupported "securityContext.runAsNonRoot without runAsUser"
        ("honouring it means inspecting the image's own user, which " +:+
         "this cannot do; set runAsUser to the uid you want"))
    else if bool_decide (user = Some 0%Z) && nonRoot then
      Err (unsupported "securityContext.runAsUser: 0 with runAsNonRoot"
        "the two contradict each other")
    else Ok ().

(** The containers, then the init containers. *)
Definition validateSecurity (pod : Pod) : result () :=
  check_each (validate_container pod) (Containers (Spec pod) ++ InitContainers (Spec pod)).

Definition validate_volume (pod : Pod) (v : Volume) : result () :=
  match v_HostPath v, v_ConfigMap v, v_Secret v, v_EmptyDir v,
        v_PersistentVolumeClaim v, v_Projected v with
  | Some _, _, _, _, _, _ =>
      Err (unsupported "spec.volumes[].hostPath"
        "there is no shared host filesystem behind a virtual node")
  | None, Some _, _, _, _, _ | None, _, Some _, _, _, _ => Ok ()
  | None, None, None, Some _, _, _ => Ok ()
  | None, None, None, None, Some _, _ => Ok ()
  | None, None, None, None, None, Some _ =>
      (* Both the opted-out token volume and the kept one are accepted. *)
      if has_prefix (v_Name v) "kube-api-access-" then Ok ()
      else Err (unsupported "spec.volumes[].projected"
        "projected volumes need a kubelet to refresh their contents")
  | None, None, None, None, None, None =>
      Err (unsupported ("volume " +:+ v_Name v)
        "only configMap and secret volumes can be carried into a capsule")
  end.

Definition local_host (h : string) : bool :=
  bool_decide (h = "") || bool_decide (h = "localhost") || bool_decide (h = "127.0.0.1").

Definition validateProbe (p : option Probe) : result () :=
  match p with
  | None => Ok ()
  | Some p =>
      match p_Exec p, p_HTTPGet p, p_TCPSocket p, p_GRPC p with
      | Some _, _, _, _ => Ok ()
      | None, Some h, _, _ =>
          if local_host (hg_Host h) then Ok ()
          else Err (unsupported "probe httpGet.host"
            ("a probe runs inside the container and can only reach the " +:+
             "container itself; leave host empty"))
      | None, None, Some t, _ =>
          if local_host (ts_Host t) then Ok ()
          else Err (unsupported "probe tcpSocket.host"
            ("a probe runs inside the container and can only reach the " +:+
             "container itself; leave host empty"))
      | None, None, None, Some _ => Ok ()
      | None, None, None, None => Err (unsupported "probe" "no handler is set on the probe")
      end
  end.

Definition container_probes (c : Container) : list (option Probe) :=
  [c_LivenessProbe c; c_ReadinessProbe c; c_StartupProbe c].

Definition Validate (pod : Pod) : result () :=
  _ ← validateSecurity pod;
  let s := Spec pod in
  if HostNetwork s then
    Err (unsupported "spec.hostNetwork"
      "each capsule owns a Neutron port and has no host network to share")
  else if HostPID s || HostIPC s then
    Err (unsupported "spec.hostPID/spec.hostIPC"
      "a capsule runs in its own microVM with no host namespaces to join")
  else if decide (NodeName s ≠ "" ∧ SchedulerName s = "") then
    Err (unsupported "spec.nodeName"
      "pods must be scheduled onto this node, not bound to it directly")
  else
    _ ← check_each (validate_volume pod) (Volumes s);
    check_each (λ c, check_each validateProbe (container_probes c))
      (Containers s ++ InitContainers s).

(** ** The security context a container gets *)
Record containerSecurity := mkSecurity {
  RunAsUser : option Z;
  RunAsGroup : option Z;
  FSGroup : option Z;
  ReadOnlyRootFilesystem : option bool;
  AllowPrivilegeEscalation : option bool;
  Capabilities : option (list string * list string);
  SeccompProfile : option string }.

Definition or_else {A} (o d : option A) : option A :=
  match o with Some _ => o | None => d end.

Definition effectiveSecurity (pod : Pod) (c : Container) : containerSecurity :=
  let out := match PodSecurity (Spec pod) with
    | Some ps => mkSecurity (ps_RunAsUser ps) (ps_RunAsGroup ps) (ps_FSGroup ps)
        None None None (ps_SeccompProfile ps)
    | None => mkSecurity None None None None None None None
    end in
  match c_SecurityContext c with
  | Some cs => mkSecurity
      (or_else (sc_RunAsUser cs) (RunAsUser out))
      (or_else (sc_RunAsGroup cs) (RunAsGroup out))
      (FSGroup out)
      (sc_ReadOnlyRootFilesystem cs) (sc_AllowPrivilegeEscalation cs) (sc_Capabilities cs)
      (or_else (sc_SeccompProfile cs) (SeccompProfile out))
  | None => out
  end.

Definition security_empty (s : containerSecurity) : bool :=
  bool_decide (RunAsUser s = None) && bool_decide (RunAsGroup s = None) &&
  bool_decide (FSGroup s = None) && bool_decide (ReadOnlyRootFilesystem s = None) &&
  bool_decide (AllowPrivilegeEscalation s = None) && bool_decide (Capabilities s = None) &&
  bool_decide (SeccompProfile s = None).

(** ** Probes *)
Definition ProbeHelper : string := "/.kubezun/probe".

Definition probeTimeout (p : Probe) : Z :=
  if decide (0 < p_TimeoutSeconds p)%Z then p_TimeoutSeconds p else 1%Z.

Definition resolveProbePort (port : IntOrString) (c : Container) : result Z :=
  if decide (Type_ port = TypeInt) then Ok (IntVal port)
  else match find (λ cp, bool_decide (cp_Name cp = StrVal port)) (c_Ports c) with
  | Some cp => Ok (cp_ContainerPort cp)
  | None => Err (unsupported "probe port"
      ("named port " +:+ go_quote (StrVal port) +:+
       " is not declared in the container's ports"))
  end.

Definition http_probe_url (h : HTTPGetAction) (port : Z) : string :=
  let scheme := if decide (hg_Scheme h = "HTTPS") then "https" else "http" in
  let path := if decide (hg_Path h = "") then "/" else hg_Path h in
  scheme +:+ "://127.0.0.1:" +:+ pretty port +:+ path.

Definition seconds (n : Z) : string := pretty n +:+ "s".

Definition grpc_command (g : GRPCAction) (timeout : Z) : string :=
  let svc := match gr_Service g with
    | Some s => if decide (s = "") then "" else " -service=" +:+ go_quote s
    | None => "" end in
  let dials := "127.0.0.1:" +:+ pretty (gr_Port g) +:+ svc +:+ " -connect-timeout=" +:+
    seconds timeout +:+ " -rpc-timeout=" +:+ seconds timeout +:+ "; " in
  "if command -v grpc_health_probe >/dev/null 2>&1; then exec grpc_health_probe -addr=" +:+
  dials +:+
  "elif command -v grpc-health-probe >/dev/null 2>&1; then exec grpc-health-probe -addr=" +:+
  dials +:+
  "elif command -v nc >/dev/null 2>&1; then exec nc -z -w " +:+ pretty timeout +:+
  " 127.0.0.1 " +:+ pretty (gr_Port g) +:+ "; " +:+
  "else echo " +:+ dquote +:+ "kubezun probe: image has no grpc_health_probe or nc" +:+
  dquote +:+ " >&2; exit 1; fi".

(** A copy of [p] with another set of handlers. *)
Definition with_handlers (p : Probe) (exec : option (list string))
    (h : option HTTPGetAction) (t : option TCPSocketAction) (g : option GRPCAction) : Probe :=
  mkProbe exec h t g (p_InitialDelaySeconds p) (p_TimeoutSeconds p) (p_PeriodSeconds p)
    (p_SuccessThreshold p) (p_FailureThreshold p).

Definition RewriteProbe (p : option Probe) (c : Container) : result (option Probe) :=
  match p with
  | None => Ok None
  | Some p =>
      let timeout := probeTimeout p in
      match p_Exec p, p_HTTPGet p, p_TCPSocket p, p_GRPC p with
      | Some _, _, _, _ => Ok (Some p)
      | None, Some h, t, g =>
          port ← resolveProbePort (hg_Port h) c;
          Ok (Some (with_handlers p
            (Some [ProbeHelper; "-http"; http_probe_url h port; "-timeout"; seconds timeout])
            None t g))
      | None, None, Some t, g =>
          port ← resolveProbePort (ts_Port t) c;
          Ok (Some (with_handlers p
            (Some [ProbeHelper; "-tcp"; "127.0.0.1:" +:+ pretty port; "-timeout"; seconds timeout])
            None None g))
      | None, None, None, Some g =>
          Ok (Some (with_handlers p (Some ["sh"; "-c"; grpc_command g timeout]) None None None))
      | None, None, None, None => Err (unsupported "probe" "no handler is set on the probe")
      end
  end.

(** ** Resources *)

(** CPU in thousandths, memory in MiB; a zero is left out of the JSON. *)
Record resourceValues := mkResourceValues { rv_CPU : Z; rv_Memory : Z }.

Definition quantity (m : gmap string Z) (k : string) : Z := opt_or 0%Z (m !! k).

Definition buildResources (r : ResourceRequirements) : option resourceValues :=
  let cpu := quantity (rr_Limits r) "cpu" in
  let mem := quantity (rr_Limits r) "memory" in
  if decide (cpu = 0 ∧ mem = 0)%Z then None
  else Some (mkResourceValues (if decide (cpu = 0)%Z then 0%Z else cpu)
    (if decide (mem = 0)%Z then 0%Z else Z.quot mem (1024 * 1024))).

(** ** Containers *)
Record capsulePort := mkPort { cpt_ContainerPort : Z; cpt_Protocol : string }.
Record volumeMount := mkMount { mt_Name : string; mt_MountPath : string }.

Record container := mkTplContainer {
  t_Name : string;
  t_Image : string;
  t_Command : list string;
  t_Args : list string;
  t_WorkDir : string;
  t_Env : gmap string string;
  t_Resources : option resourceValues;
  t_Ports : list capsulePort;
  t_Mounts : list volumeMount;
  t_Security : option containerSecurity;
  t_LivenessProbe : option Probe;
  t_ReadinessProbe : option Probe;
  t_StartupProbe : option Probe }.

Definition runtimeClass (pod : Pod) : string := opt_or "" (RuntimeClassName (Spec pod)).

Definition restartPolicy (pod : Pod) : string :=
  if decide (RestartPolicy (Spec pod) = "Never") then "Never"
  else if decide (RestartPolicy (Spec pod) = "OnFailure") then "OnFailure"
  else "Always".

(** Later entries of a name win; one with a source not resolved is left out. *)
Definition build_env (env : list EnvVar) : gmap string string :=
  fold_left (λ m e, match ev_ValueFrom e with
    | None => <[ev_Name e := ev_Value e]> m | Some _ => m end) env ∅.

Definition buildContainer (pod : Pod) (c : Container) : result container :=
  let sec := effectiveSecurity pod c in
  liveness ← RewriteProbe (c_LivenessProbe c) c;
  readiness ← RewriteProbe (c_ReadinessProbe c) c;
  startup ← RewriteProbe (c_StartupProbe c) c;
  Ok (mkTplContainer (c_Name c) (c_Image c) (c_Command c) (c_Args c) (c_WorkingDir c)
    (build_env (c_Env c)) (buildResources (c_Resources c))
    (map (λ p, mkPort (cp_ContainerPort p) (cp_Protocol p)) (c_Ports c)) []
    (if security_empty sec then None else Some sec) liveness readiness startup).

Definition set_mounts (c : container) (l : list volumeMount) : container :=
  mkTplContainer (t_Name c) (t_Image c) (t_Command c) (t_Args c) (t_WorkDir c) (t_Env c)
    (t_Resources c) (t_Ports c) l (t_Security c) (t_LivenessProbe c) (t_ReadinessProbe c)
    (t_StartupProbe c).

(** ** Volumes *)
Record ClaimMount := mkClaimMount { cm_Kind : string; cm_VolumeID : string; cm_Export : string }.
Record emptyDirData := mkEmptyDirData { ed_medium : string; ed_sizeLimit : Z }.

Inductive volumeData : Type :=
  | FileData (contents : string)
  | EmptyDirData (e : emptyDirData)
  | CinderData (volumeID : string) (fsGroup : Z)
  | NFSData (export shareID : string) (fsGroup : Z).

Record capsuleVolume := mkVol { vol_Name : string; vol_Data : volumeData }.

Definition fsGroupOf (pod : Pod) : Z :=
  match PodSecurity (Spec pod) with
  | Some sc => opt_or 0%Z (ps_FSGroup sc)
  | None => 0%Z
  end.

Definition emptyDirOf (src : EmptyDir) : emptyDirData :=
  mkEmptyDirData (ed_Medium src) (opt_or 0%Z (ed_SizeLimit src)).

Definition allContainers (pod : Pod) : list Container :=
  InitContainers (Spec pod) ++ Containers (Spec pod).

(** What [zunVolumeName] replaces is every character it does not list. *)
Definition volume_char (c : ascii) : bool :=
  let n := nat_of_ascii c in
  ((48 <=? n) && (n <=? 57) || (65 <=? n) && (n <=? 90) || (97 <=? n) && (n <=? 122) ||
   (n =? 95) || (n =? 46) || (n =? 45))%nat.

Fixpoint trim_left_punct (s : string) : string :=
  match s with
  | String c s' =>
      if decide (c = "-"%char ∨ c = "."%char ∨ c = "_"%char) then trim_left_punct s' else s
  | EmptyString => ""
  end.

Definition volumeName (volume key : string) : result string :=
  let name := trim_left_punct
    (string_map (λ c, if volume_char c then c else "-"%char) (volume +:+ "-" +:+ key)) in
  if decide (String.length name < 2)%nat then
    Err (ErrMsg ("volume " +:+ go_quote volume +:+ " key " +:+ go_quote key +:+
      ": no usable capsule volume name"))
  else if decide (255 < String.length name)%nat then
    Err (ErrMsg ("volume " +:+ go_quote volume +:+ " key " +:+ go_quote key +:+
      ": name is longer than the 255 characters Zun accepts"))
  else Ok name.

Definition dirs_of (pod : Pod) : gmap string EmptyDir :=
  fold_left (λ m v, match v_EmptyDir v with
    | Some e => <[v_Name v := e]> m | None => m end) (Volumes (Spec pod)) ∅.
Definition claims_of (pod : Pod) : gmap string string :=
  fold_left (λ m v, match v_PersistentVolumeClaim v with
    | Some c => <[v_Name v := c]> m | None => m end) (Volumes (Spec pod)) ∅.

Record volumeState := mkVolumeState {
  vs_volumes : list capsuleVolume;
  vs_mounts : gmap string (list volumeMount);
  vs_emitted : gset string }.

(** [if !emitted[name] { ...; emitted[name] = true }]. *)
Definition emit (name : string) (mk : result volumeData) (st : volumeState)
    : result volumeState :=
  if decide (name ∈ vs_emitted st) then Ok st
  else
    d ← mk;
    Ok (mkVolumeState (vs_volumes st ++ [mkVol name d]) (vs_mounts st)
      ({[name]} ∪ vs_emitted st)).

Definition add_mount (cname : string) (vm : volumeMount) (st : volumeState) : volumeState :=
  mkVolumeState (vs_volumes st)
    (<[cname := opt_or [] (vs_mounts st !! cname) ++ [vm]]> (vs_mounts st)) (vs_emitted st).

Definition claim_data (pod : Pod) (name claim : string) (r : ClaimMount) : result volumeData :=
  if decide (cm_Kind r = "cinder") then Ok (CinderData (cm_VolumeID r) (fsGroupOf pod))
  else if decide (cm_Kind r = "nfs") then
    Ok (NFSData (cm_Export r) (cm_VolumeID r) (fsGroupOf pod))
  else Err (ErrMsg ("volume " +:+ name +:+ ": claim " +:+ claim +:+
    " resolves to unknown storage " +:+ go_quote (cm_Kind r))).

(** The body of [for name, data := range content]. *)
Definition file_step (cname : string) (m : VolumeMount) (st : volumeState)
    (kv : string * string) : result volumeState :=
  let '(name, data) := kv in
  if decide (vm_SubPath m ≠ "" ∧ vm_SubPath m ≠ name) then Ok st
  else
    let target := if decide (vm_SubPath m ≠ "") then vm_MountPath m
                  else path_Join [vm_MountPath m; name] in
    volName ← volumeName (vm_Name m) name;
    st ← emit volName (Ok (FileData (b64_encode data))) st;
    Ok (add_mount cname (mkMount volName target) st).

Section volumes.
(** The order in which the [n]-th [range] over a map visits it. *)
Variable visit : nat → gmap string string → list (string * string).

Definition mount_step (pod : Pod) (files : gmap string (gmap string string))
    (claims : gmap string ClaimMount) (st : volumeState)
    (x : nat * (Container * VolumeMount)) : result volumeState :=
  let '(n, (c, m)) := x in
  let mounted st := Ok (add_mount (c_Name c) (mkMount (vm_Name m) (vm_MountPath m)) st) in
  match claims_of pod !! vm_Name m with
  | Some claim =>
      match claims !! vm_Name m with
      | None => Err (ErrMsg ("volume " +:+ vm_Name m +:+ ": claim " +:+ claim +:+
          " was not resolved"))
      | Some resolved =>
          st ← emit (vm_Name m) (claim_data pod (vm_Name m) claim resolved) st;
          mounted st
      end
  | None =>
      match dirs_of pod !! vm_Name m with
      | Some src =>
          st ← emit (vm_Name m) (Ok (EmptyDirData (emptyDirOf src))) st;
          mounted st
      | None =>
          match files !! vm_Name m with
          | None => Ok st
          | Some content =>
              if decide (vm_SubPathExpr m ≠ "") then
                Err (unsupported "volumeMounts[].subPathExpr"
                  "expanding a subPath needs the pod's environment resolved on the node")
              else fold_result (file_step (c_Name c) m) st (visit n content)
          end
      end
  end.

(** Every container with each of its mounts, in the order of the two loops. *)
Definition all_mounts (pod : Pod) : list (Container * VolumeMount) :=
  c ← allContainers pod; pair c <$> c_VolumeMounts c.

Definition buildFileVolumes (pod : Pod) (files : gmap string (gmap string string))
    (claims : gmap string ClaimMount)
    : result (list capsuleVolume * gmap string (list volumeMount)) :=
  st ← fold_result (mount_step pod files claims) (mkVolumeState [] ∅ ∅)
    (imap pair (all_mounts pod));
  Ok (vs_volumes st, vs_mounts st).

(** ** The template *)
Record TemplateOptions := mkOptions {
  NetworkID : string;
  PortID : string;
  AvailabilityZone : string;
  opt_NodeName : string;
  Files : gmap string (gmap string string);
  DNSSearches : list string;
  DNSNameservers : list string;
  SecurityGroups : list string;
  Claims : gmap string ClaimMount;
  Architecture : string }.

Record net := mkNet { net_Network : string; net_Port : string }.

Record template := mkTemplate {
  tpl_Name : string;
  tpl_Labels : gmap string string;
  tpl_Annotations : list (string * string);
  tpl_Containers : list container;
  tpl_InitContainers : list container;
  tpl_RestartPolicy : string;
  tpl_Volumes : list capsuleVolume;
  tpl_Nets : list net;
  tpl_SecurityGroups : list string;
  tpl_AvailabilityZone : string;
  tpl_Architecture : string;
  tpl_Runtime : string }.

(** The annotations in the order of their keys. *)
Definition annotationsFor (o : TemplateOptions) : list (string * string) :=
  (if decide (DNSNameservers o = []) then []
   else [("knaas.io/dns-nameservers", join "," (DNSNameservers o))]) ++
  (if decide (DNSSearches o = []) then []
   else [("knaas.io/dns-searches", join "," (DNSSearches o))]).

Definition template_nets (o : TemplateOptions) : list net :=
  if decide (PortID o ≠ "") then [mkNet "" (PortID o)]
  else if decide (NetworkID o ≠ "") then [mkNet (NetworkID o) ""]
  else [].

Definition template_labels (pod : Pod) (o : TemplateOptions) : gmap string string :=
  if decide (opt_NodeName o ≠ "") then <[LabelNodeName := opt_NodeName o]> (ownedLabels pod)
  else ownedLabels pod.

Definition mounted (mounts : gmap string (list volumeMount)) (c : container) : container :=
  set_mounts c (opt_or [] (mounts !! t_Name c)).

(** [BuildTemplate] up to the call of [json.Marshal]. *)
Definition build_template (pod : Pod) (o : TemplateOptions) : result template :=
  _ ← Validate pod;
  inits ← map_result (buildContainer pod) (InitContainers (Spec pod));
  containers ← map_result (buildContainer pod) (Containers (Spec pod));
  if decide (containers = []) then Err (ErrInvalidInput "" "pod has no containers")
  else
    vm ← buildFileVolumes pod (Files o) (Claims o);
    Ok (mkTemplate (CapsuleName pod) (template_labels pod o) (annotationsFor o)
      (map (mounted vm.2) containers) (map (mounted vm.2) inits)
      (restartPolicy pod) vm.1 (template_nets o) (SecurityGroups o)
      (AvailabilityZone o) (Architecture o) (runtimeClass pod)).
End volumes.

(** *** What is sent *)

(** How the API types that travel as they are get written is not under src/. *)
Class APIJson := {
  probe_json : Probe → json;
  capabilities_json : list string * list string → json;
  seccomp_json : string → json;
}.

(** The fields an [omitempty] tag keeps. *)
Definition omit_str (k v : string) : list (string * json) :=
  if decide (v = "") then [] else [(k, JString v)].
Definition omit_num (k : string) (n : Z) : list (string * json) :=
  if decide (n = 0)%Z then [] else [(k, JNumber n)].
Definition omit_list {A} (k : string) (f : A → json) (l : list A) : list (string * json) :=
  match l with [] => [] | _ => [(k, JArray (map f l))] end.
Definition omit_opt {A} (k : string) (f : A → json) (o : option A) : list (string * json) :=
  match o with None => [] | Some a => [(k, f a)] end.
(** A map is written in the order of its keys. *)
Definition map_json (m : gmap string string) : json :=
  JObject (map (λ k, (k, JString (opt_or "" (m !! k)))) (sort_strings (elements (dom m)))).
Definition omit_map (k : string) (m : gmap string string) : list (string * json) :=
  if decide (m = ∅) then [] else [(k, map_json m)].

Section marshal.
Context `{!APIJson}.

Definition security_json (s : containerSecurity) : json :=
  JObject (omit_opt "runAsUser" JNumber (RunAsUser s) ++
    omit_opt "runAsGroup" JNumber (RunAsGroup s) ++
    omit_opt "fsGroup" JNumber (FSGroup s) ++
    omit_opt "readOnlyRootFilesystem" JBool (ReadOnlyRootFilesystem s) ++
    omit_opt "allowPrivilegeEscalation" JBool (AllowPrivilegeEscalation s) ++
    omit_opt "capabilities" capabilities_json (Capabilities s) ++
    omit_opt "seccompProfile" seccomp_json (SeccompProfile s)).

Definition resources_json (r : resourceValues) : json :=
  JObject [("requests", JObject
    ((if decide (rv_CPU r = 0)%Z then [] else [("cpu", JMilli (rv_CPU r))]) ++
     omit_num "memory" (rv_Memory r)))].

Definition mount_json (m : volumeMount) : json :=
  JObject [("name", JString (mt_Name m)); ("mountPath", JString (mt_MountPath m))].
Definition port_json (p : capsulePort) : json :=
  JObject (("containerPort", JNumber (cpt_ContainerPort p)) ::
    omit_str "protocol" (cpt_Protocol p)).

Definition container_json (c : container) : json :=
  JObject ([("name", JString (t_Name c)); ("image", JString (t_Image c))] ++
    omit_list "command" JString (t_Command c) ++ omit_list "args" JString (t_Args c) ++
    omit_str "workDir" (t_WorkDir c) ++ omit_map "env" (t_Env c) ++
    omit_opt "resources" resources_json (t_Resources c) ++
    omit_list "ports" port_json (t_Ports c) ++
    omit_list "volumeMounts" mount_json (t_Mounts c) ++
    omit_opt "securityContext" security_json (t_Security c) ++
    omit_opt "livenessProbe" probe_json (t_LivenessProbe c) ++
    omit_opt "readinessProbe" probe_json (t_ReadinessProbe c) ++
    omit_opt "startupProbe" probe_json (t_StartupProbe c)).

Definition volume_json (v : capsuleVolume) : json :=
  JObject (("name", JString (vol_Name v)) ::
    match vol_Data v with
    | FileData s => [("file", JObject [("contents", JString s)])]
    | EmptyDirData e => [("emptyDir", JObject
        (omit_str "medium" (ed_medium e) ++ omit_num "sizeLimit" (ed_sizeLimit e)))]
    | CinderData id g => [("cinder", JObject
        (("volumeID", JString id) :: omit_num "fsGroup" g))]
    | NFSData e s g => [("nfs", JObject
        (("export", JString e) :: omit_str "shareID" s ++ omit_num "fsGroup" g))]
    end).

Definition net_json (n : net) : json :=
  JObject (omit_str "network" (net_Network n) ++ omit_str "port" (net_Port n)).

Definition template_json (t : template) : json :=
  JObject ([("kind", JString "capsule"); ("capsuleVersion", JString "beta");
     ("metadata", JObject (("name", JString (tpl_Name t)) ::
        omit_map "labels" (tpl_Labels t) ++
        match tpl_Annotations t with
        | [] => []
        | a => [("annotations", JObject (map (λ kv : string * string, (kv.1, JString kv.2)) a))]
        end));
     ("spec", JObject (("containers", JArray (map container_json (tpl_Containers t))) ::
        omit_list "initContainers" container_json (tpl_InitContainers t) ++
        omit_str "restartPolicy" (tpl_RestartPolicy t) ++
        omit_list "volumes" volume_json (tpl_Volumes t)))] ++
    omit_list "nets" net_json (tpl_Nets t) ++
    omit_list "securityGroups" JString (tpl_SecurityGroups t) ++
    omit_str "availabilityZone" (tpl_AvailabilityZone t) ++
    omit_str "architecture" (tpl_Architecture t) ++
    omit_str "runtime" (tpl_Runtime t)).

Definition BuildTemplate (visit : nat → gmap string string → list (string * string))
    (pod : Pod) (o : TemplateOptions) : result json :=
  t ← build_template visit pod o;
  Ok (template_json t).
End marshal.

(** ** Preflight *)
Definition knownArchitectures : gset string :=
  {["amd64"; "arm64"; "ppc64le"; "s390x"; "riscv64"]}.

Definition ValidateArchitecture (arch : string) : result () :=
  if decide (arch = "") then Ok ()
  else if decide (arch ∈ knownArchitectures) then Ok ()
  else Err (ErrMsg ("unknown architecture " +:+ go_quote arch +:+
    ": want one of amd64, arm64, ppc64le, s390x, riscv64")).

Definition refuseUnknownZone (zone : string) (zones : list string) : result () :=
  if decide (zone = "" ∨ zones = []) then Ok ()
  else if decide (zone ∈ zones) then Ok ()
  else Err (ErrMsg ("this deployment has no availability zone " +:+ go_quote zone +:+
    "; it offers " +:+ join ", " (sort_strings zones))).

(** The decoding of the answer: [availability_zone], else [name], else dropped. *)
Definition zone_names (body : list (string * string)) : list string :=
  omap (λ zn : string * string,
    if decide (zn.1 ≠ "") then Some zn.1
    else if decide (zn.2 ≠ "") then Some zn.2 else None) body.

(** Not being able to ask is not evidence the zone is missing. *)
Definition CheckAvailabilityZone {W} (newClient : M W ())
    (get : M W (list (string * string))) (zone : string) : M W () :=
  if decide (zone = "") then mret ()
  else
    newClient ≫= λ _,
    r ← try get;
    match r with
    | Err _ => mret ()
    | Ok body =>
        let zones := zone_names body in
        if decide (zones = []) then mret () else lift_result (refuseUnknownZone zone zones)
    end.

(** ** Lemmas: refusals *)

Lemma validate_container_ok pod c :
  validate_container pod c = Ok () ↔
  privileged c = false ∧
  (container_nonroot pod c = true → ∃ u, container_user pod c = Some u ∧ u ≠ 0%Z).
Proof.
  unfold validate_container. destruct (privileged c); [naive_solver|].
  destruct (container_nonroot pod c); simpl; [|by rewrite andb_false_r; naive_solver].
  destruct (container_user pod c) as [u|]; simpl; [|naive_solver].
  rewrite andb_true_r. case_bool_decide as Hu; split; try done.
  - injection Hu as ->. intros [_ H]. destruct (H eq_refl) as (? & [= <-] & ?). done.
  - intros _. split; [done|]. intros _. exists u. split; [done|]. congruence.
Qed.

(** The user the runtime is told is the user that was checked. *)
Lemma effective_user pod c : RunAsUser (effectiveSecurity pod c) = container_user pod c.
Proof.
  unfold effectiveSecurity, container_user.
  destruct (PodSecurity (Spec pod)), (c_SecurityContext c) as [sc|]; simpl; try done;
    by destruct (sc_RunAsUser sc).
Qed.

Lemma security_empty_spec s :
  security_empty s = true → s = mkSecurity None None None None None None None.
Proof.
  unfold security_empty. rewrite !andb_true_iff, !bool_decide_eq_true.
  destruct s; simpl. by intros ((((((-> & ->) & ->) & ->) & ->) & ->) & ->).
Qed.

Lemma Validate_inv pod :
  Validate pod = Ok () → validateSecurity pod = Ok () ∧
  HostNetwork (Spec pod) = false ∧ HostPID (Spec pod) = false ∧ HostIPC (Spec pod) = false ∧
  ¬ (NodeName (Spec pod) ≠ "" ∧ SchedulerName (Spec pod) = "") ∧
  check_each (validate_volume pod) (Volumes (Spec pod)) = Ok () ∧
  check_each (λ c, check_each validateProbe (container_probes c))
    (Containers (Spec pod) ++ InitContainers (Spec pod)) = Ok ().
Proof.
  unfold Validate, mbind, result_bind. destruct (validateSecurity pod) as [[]|]; [|done].
  destruct (HostNetwork _); [done|]. destruct (HostPID _), (HostIPC _); try done. simpl.
  destruct (decide _) as [|Hn]; [done|].
  destruct (check_each (validate_volume pod) _) as [[]|]; [|done]. auto 10.
Qed.

Lemma Validate_intro pod :
  validateSecurity pod = Ok () → HostNetwork (Spec pod) = false →
  HostPID (Spec pod) = false → HostIPC (Spec pod) = false →
  ¬ (NodeName (Spec pod) ≠ "" ∧ SchedulerName (Spec pod) = "") →
  check_each (validate_volume pod) (Volumes (Spec pod)) = Ok () →
  check_each (λ c, check_each validateProbe (container_probes c))
    (Containers (Spec pod) ++ InitContainers (Spec pod)) = Ok () →
  Validate pod = Ok ().
Proof.
  intros Hs Hn Hp Hi Hb Hv Hpr. unfold Validate, mbind, result_bind.
  by rewrite Hs, Hn, Hp, Hi, (decide_False (P := _ ∧ _)), Hv by done.
Qed.

(** What a pod must look like to be carried. *)
Definition carried_volume (v : Volume) : Prop :=
  v_HostPath v = None ∧
  (is_Some (v_ConfigMap v) ∨ is_Some (v_Secret v) ∨ is_Some (v_EmptyDir v) ∨
   is_Some (v_PersistentVolumeClaim v) ∨
   (is_Some (v_Projected v) ∧ has_prefix (v_Name v) "kube-api-access-" = true)).

Lemma validate_volume_ok pod v : validate_volume pod v = Ok () ↔ carried_volume v.
Proof.
  unfold carried_volume, validate_volume. destruct v as [n h cm se ed pvc pr]; cbn [v_Name
    v_HostPath v_ConfigMap v_Secret v_EmptyDir v_PersistentVolumeClaim v_Projected].
  assert (∀ A : Type, ¬ is_Some (@None A)) as HN by (by intros A [? ?]).
  destruct h; [split; [done|by intros [? _]]|].
  destruct cm; [split; [intros _; split; [done|left; by eexists]|done]|].
  destruct se; [split; [intros _; split; [done|right; left; by eexists]|done]|].
  destruct ed; [split; [intros _; split; [done|do 2 right; left; by eexists]|done]|].
  destruct pvc; [split; [intros _; split; [done|do 3 right; left; by eexists]|done]|].
  destruct pr as [u|].
  - destruct (has_prefix n _); split; try done.
    + intros _. split; [done|]. do 4 right. split; [by eexists|done].
    + intros [_ [H|[H|[H|[H|[_ H]]]]]]; try done; by apply HN in H.
  - split; [done|]. intros [_ [H|[H|[H|[H|[H _]]]]]]; by apply HN in H.
Qed.

(** A probe the container can run against itself. *)
Definition local_probe (p : option Probe) : Prop :=
  match p with
  | None => True
  | Some p =>
      is_Some (p_Exec p) ∨
      match p_HTTPGet p, p_TCPSocket p with
      | Some h, _ => local_host (hg_Host h) = true
      | None, Some t => local_host (ts_Host t) = true
      | None, None => is_Some (p_GRPC p)
      end
  end.

Lemma validateProbe_ok p : validateProbe p = Ok () ↔ local_probe p.
Proof.
  destruct p as [p|]; simpl; [|done].
  destruct (p_Exec p); [naive_solver|].
  destruct (p_HTTPGet p) as [h|]; [destruct (local_host _); naive_solver|].
  destruct (p_TCPSocket p) as [t|]; [destruct (local_host _); naive_solver|].
  destruct (p_GRPC p); naive_solver.
Qed.

(** ** Lemmas: the containers of a template *)

Lemma build_template_inv visit pod o t :
  build_template visit pod o = Ok t →
  Validate pod = Ok () ∧ ∃ inits containers vols mounts,
    map_result (buildContainer pod) (InitContainers (Spec pod)) = Ok inits ∧
    map_result (buildContainer pod) (Containers (Spec pod)) = Ok containers ∧
    containers ≠ [] ∧
    buildFileVolumes visit pod (Files o) (Claims o) = Ok (vols, mounts) ∧
    t = mkTemplate (CapsuleName pod) (template_labels pod o) (annotationsFor o)
      (map (mounted mounts) containers) (map (mounted mounts) inits)
      (restartPolicy pod) vols (template_nets o) (SecurityGroups o)
      (AvailabilityZone o) (Architecture o) (runtimeClass pod).
Proof.
  unfold build_template, mbind, result_bind. destruct (Validate pod) as [[]|]; [|done].
  destruct (map_result _ (InitContainers _)) as [inits|]; [|done].
  destruct (map_result _ (Containers _)) as [containers|]; [|done].
  destruct (decide _) as [|Hc]; [done|].
  destruct (buildFileVolumes _ _ _ _) as [[vols mounts]|]; [|done].
  intros [= <-]. split; [done|]. by exists inits, containers, vols, mounts.
Qed.

(** What [buildContainer] makes of a container, but for the probes. *)
Definition container_of (pod : Pod) (c : Container) (b : container) : Prop :=
  t_Name b = c_Name c ∧ t_Image b = c_Image c ∧ t_Command b = c_Command c ∧
  t_Args b = c_Args c ∧ t_WorkDir b = c_WorkingDir c ∧ t_Env b = build_env (c_Env c) ∧
  t_Resources b = buildResources (c_Resources c) ∧
  t_Ports b = map (λ p, mkPort (cp_ContainerPort p) (cp_Protocol p)) (c_Ports c) ∧
  t_Security b = (let s := effectiveSecurity pod c in if security_empty s then None else Some s) ∧
  RewriteProbe (c_LivenessProbe c) c = Ok (t_LivenessProbe b) ∧
  RewriteProbe (c_ReadinessProbe c) c = Ok (t_ReadinessProbe b) ∧
  RewriteProbe (c_StartupProbe c) c = Ok (t_StartupProbe b).

Lemma buildContainer_of pod c b : buildContainer pod c = Ok b → container_of pod c b.
Proof.
  unfold buildContainer, mbind, result_bind.
  destruct (RewriteProbe (c_LivenessProbe c) c) as [l|] eqn:Hl; [|done].
  destruct (RewriteProbe (c_ReadinessProbe c) c) as [r|] eqn:Hr; [|done].
  destruct (RewriteProbe (c_StartupProbe c) c) as [s|] eqn:Hs; [|done].
  intros [= <-]. by repeat split.
Qed.

Lemma built_mounted pod cs bs mounts :
  map_result (buildContainer pod) cs = Ok bs →
  Forall2 (λ c b, container_of pod c b ∧ t_Mounts b = opt_or [] (mounts !! c_Name c))
    cs (map (mounted mounts) bs).
Proof.
  intros H%map_result_Forall2. apply Forall2_fmap_r. eapply Forall2_impl; [exact H|].
  intros c b Hb%buildContainer_of. unfold mounted.
  split; [exact Hb|]. destruct Hb as (-> & _). done.
Qed.

(** The pod's containers and what the template says of each, in order. *)
Lemma template_containers visit pod o t :
  build_template visit pod o = Ok t →
  ∃ mounts, buildFileVolumes visit pod (Files o) (Claims o) = Ok (tpl_Volumes t, mounts) ∧
    Forall2 (λ c b, container_of pod c b ∧ t_Mounts b = opt_or [] (mounts !! c_Name c))
      (allContainers pod) (tpl_InitContainers t ++ tpl_Containers t).
Proof.
  intros (_ & inits & cs & vols & mounts & Hi & Hc & _ & Hv & ->)%build_template_inv.
  exists mounts. split; [exact Hv|]. apply Forall2_app; by apply built_mounted.
Qed.

(** Why none is built. *)
Lemma buildContainer_err pod c e :
  buildContainer pod c = Err e → ∃ p, p ∈ container_probes c ∧ RewriteProbe p c = Err e.
Proof.
  unfold buildContainer, container_probes, mbind, result_bind.
  destruct (RewriteProbe (c_LivenessProbe c) c) eqn:H1; [|intros [= ->]; eexists; split; [|exact H1]; set_solver].
  destruct (RewriteProbe (c_ReadinessProbe c) c) eqn:H2; [|intros [= ->]; eexists; split; [|exact H2]; set_solver].
  destruct (RewriteProbe (c_StartupProbe c) c) eqn:H3; [done|intros [= ->]; eexists; split; [|exact H3]; set_solver].
Qed.

Lemma containers_err pod cs e :
  map_result (buildContainer pod) cs = Err e → ∃ c p, c ∈ cs ∧ p ∈ container_probes c ∧ RewriteProbe p c = Err e.
Proof.
  induction cs as [|c cs IH]; simpl; [done|]. unfold mbind, result_bind.
  destruct (buildContainer pod c) as [b|e'] eqn:Hc.
  - destruct (map_result _ cs) as [bs|]; [done|]. intros [= ->].
    destruct (IH eq_refl) as (x & p & ? & ? & ?). exists x, p. set_solver.
  - intros [= ->]. destruct (buildContainer_err pod c e Hc) as (p & ? & ?). exists c, p. set_solver.
Qed.

Lemma build_template_err visit pod o e :
  build_template visit pod o = Err e →
  Validate pod = Err e ∨
  Validate pod = Ok () ∧ (Containers (Spec pod) = [] ∨
    (∃ c p, c ∈ allContainers pod ∧ p ∈ container_probes c ∧ RewriteProbe p c = Err e) ∨
    buildFileVolumes visit pod (Files o) (Claims o) = Err e).
Proof.
  unfold build_template, mbind, result_bind, allContainers. destruct (Validate pod) as [[]|]; [|intros [= ->]; by left].
  intros H. right. split; [done|]. destruct (map_result _ (InitContainers _)) as [inits|] eqn:Hi.
  - destruct (map_result _ (Containers _)) as [cs|] eqn:Hc.
    + destruct (decide (cs = [])) as [->|].
      * left. destruct (Containers (Spec pod)); [done|]. apply map_result_Forall2 in Hc. by inversion Hc.
      * destruct (buildFileVolumes _ _ _ _); [done|]. injection H as ->. auto.
    + injection H as ->. destruct (containers_err _ _ _ Hc) as (c & p & ? & ? & ?).
      right. left. exists c, p. set_solver.
  - injection H as ->. destruct (containers_err _ _ _ Hi) as (c & p & ? & ? & ?).
    right. left. exists c, p. set_solver.
Qed.

(** ** Lemmas: volumes *)

(** What a mount asks of the capsule: which volume, where. *)
Inductive wants (pod : Pod) (files : gmap string (gmap string string))
    (claims : gmap string ClaimMount) (m : VolumeMount) : capsuleVolume → string → Prop :=
  | wants_claim claim r d :
      claims_of pod !! vm_Name m = Some claim → claims !! vm_Name m = Some r →
      claim_data pod (vm_Name m) claim r = Ok d →
      wants pod files claims m (mkVol (vm_Name m) d) (vm_MountPath m)
  | wants_dir src :
      claims_of pod !! vm_Name m = None → dirs_of pod !! vm_Name m = Some src →
      wants pod files claims m (mkVol (vm_Name m) (EmptyDirData (emptyDirOf src)))
        (vm_MountPath m)
  | wants_file content key data name :
      claims_of pod !! vm_Name m = None → dirs_of pod !! vm_Name m = None →
      files !! vm_Name m = Some content → content !! key = Some data →
      (vm_SubPath m = "" ∨ vm_SubPath m = key) →
      volumeName (vm_Name m) key = Ok name →
      wants pod files claims m (mkVol name (FileData (b64_encode data)))
        (if decide (vm_SubPath m ≠ "") then vm_MountPath m else path_Join [vm_MountPath m; key]).

(** The mounts that come of one of a container's: itself for a claim or a
    directory, one for each file it shows, none for a volume there is nothing
    of. *)
Definition file_mount (m : VolumeMount) (kv : string * string) : option volumeMount :=
  let key := kv.1 in
  if decide (vm_SubPath m = "" ∨ vm_SubPath m = key) then
    match volumeName (vm_Name m) key with
    | Ok name => Some (mkMount name (if decide (vm_SubPath m = "") then path_Join [vm_MountPath m; key] else vm_MountPath m))
    | Err _ => None
    end
  else None.
Definition asked_mounts (pod : Pod) (files : gmap string (gmap string string)) (m : VolumeMount) : list volumeMount :=
  if decide (is_Some (claims_of pod !! vm_Name m) ∨ is_Some (dirs_of pod !! vm_Name m)) then
    [mkMount (vm_Name m) (vm_MountPath m)]
  else match files !! vm_Name m with Some content => omap (file_mount m) (map_to_list content) | None => [] end.
Lemma asked_whole pod files m :
  is_Some (claims_of pod !! vm_Name m) ∨ is_Some (dirs_of pod !! vm_Name m) →
  asked_mounts pod files m = [mkMount (vm_Name m) (vm_MountPath m)].
Proof. intros H. unfold asked_mounts. by rewrite decide_True. Qed.
Lemma asked_files pod files m :
  claims_of pod !! vm_Name m = None → dirs_of pod !! vm_Name m = None →
  asked_mounts pod files m = match files !! vm_Name m with Some content => omap (file_mount m) (map_to_list content) | None => [] end.
Proof. intros Hc Hd. unfold asked_mounts. rewrite decide_False; [done|]. rewrite Hc, Hd. by intros [[? ?]|[? ?]]. Qed.
Definition container_mounts (pod : Pod) (files : gmap string (gmap string string)) (cname : string) : list volumeMount :=
  c ← filter (λ c, c_Name c = cname) (allContainers pod); m ← c_VolumeMounts c; asked_mounts pod files m.

(** What the two loops have asked for when they have made these requests:
    volumes named once each, every one a request's, and the mounts of each
    container exactly its requests'. *)
Definition request : Type := string * capsuleVolume * string.
Definition mount_for (q : request) : volumeMount := mkMount (vol_Name q.1.2) q.2.

Record rendered (reqs : list request) (st : volumeState) : Prop := {
  rd_emitted : vs_emitted st = list_to_set (vol_Name <$> vs_volumes st);
  rd_nodup : NoDup (vol_Name <$> vs_volumes st);
  rd_only : ∀ v, v ∈ vs_volumes st → ∃ c target, (c, v, target) ∈ reqs;
  rd_all : ∀ c v target, (c, v, target) ∈ reqs → vol_Name v ∈ vol_Name <$> vs_volumes st;
  rd_mounts : ∀ cname, opt_or [] (vs_mounts st !! cname) =
    mount_for <$> filter (λ q : request, q.1.1 = cname) reqs }.

Lemma rendered_nil : rendered [] (mkVolumeState [] ∅ ∅).
Proof.
  constructor; simpl; try done; try constructor;
    intros; match goal with H : _ ∈ [] |- _ => by apply elem_of_nil in H end.
Qed.

Lemma rendered_request reqs st v target cname st' :
  rendered reqs st → emit (vol_Name v) (Ok (vol_Data v)) st = Ok st' →
  rendered (reqs ++ [(cname, v, target)]) (add_mount cname (mkMount (vol_Name v) target) st').
Proof.
  intros [He Hn Ho Ha Hm] Hst. unfold emit, mbind, result_bind in Hst.
  assert (∀ c v' t', (c, v', t') ∈ reqs → (c, v', t') ∈ reqs ++ [(cname, v, target)]) as Hin
    by (intros; apply elem_of_app; by left).
  assert (vs_mounts st' = vs_mounts st) as Hms by (case_decide; by simplify_eq/=).
  assert (vs_volumes st' = vs_volumes st ++
    (if decide (vol_Name v ∈ vs_emitted st) then [] else [v])) as Hvs.
  { case_decide; simplify_eq/=; [by rewrite app_nil_r|by destruct v]. }
  constructor; simpl.
  - case_decide; simplify_eq/=; [done|].
    rewrite He, fmap_app, list_to_set_app_L. simpl. set_solver.
  - rewrite Hvs, fmap_app. apply NoDup_app. split; [done|].
    case_decide as Hd; simpl; split; try (by intros ? ? ?%elem_of_nil); try constructor.
    + intros x Hx ->%list_elem_of_singleton. apply Hd. rewrite He. by apply elem_of_list_to_set.
    + by intros ?%elem_of_nil.
    + constructor.
  - intros v'. rewrite Hvs. intros [H|H]%elem_of_app.
    + destruct (Ho v' H) as (c & t & Hc). exists c, t. by apply Hin.
    + case_decide; [by apply elem_of_nil in H|]. apply list_elem_of_singleton in H as ->.
      exists cname, target. apply elem_of_app. right. by apply list_elem_of_singleton.
  - intros c v' t'. rewrite Hvs, fmap_app, !elem_of_app. intros [H|H%list_elem_of_singleton].
    + left. by apply (Ha c v' t').
    + injection H as -> -> ->. case_decide as Hd.
      * left. rewrite He in Hd. by apply elem_of_list_to_set in Hd.
      * right. simpl. by apply list_elem_of_singleton.
  - intros cn. rewrite Hms, filter_app, fmap_app, <-Hm.
    destruct (decide (cname = cn)) as [->|Hne].
    + rewrite lookup_insert_eq. rewrite filter_cons_True by done. done.
    + rewrite lookup_insert_ne by done. rewrite filter_cons_False by done.
      simpl. by rewrite app_nil_r.
Qed.

Section files.
Variable visit : nat → gmap string string → list (string * string).
Hypothesis visit_all : ∀ n m, visit n m ≡ₚ map_to_list m.

(** One [range] over a volume's keys. *)
Lemma file_loop pod files claims c m content kvs reqs st st' :
  claims_of pod !! vm_Name m = None → dirs_of pod !! vm_Name m = None →
  files !! vm_Name m = Some content → (∀ kv, kv ∈ kvs → content !! kv.1 = Some kv.2) →
  rendered reqs st → fold_result (file_step (c_Name c) m) st kvs = Ok st' →
  ∃ new, rendered (reqs ++ new) st' ∧
    mount_for <$> new = omap (file_mount m) kvs ∧
    (∀ q, q ∈ new → q.1.1 = c_Name c ∧ wants pod files claims m q.1.2 q.2) ∧
    (∀ key data, (key, data) ∈ kvs → vm_SubPath m = "" ∨ vm_SubPath m = key →
      ∃ v target, (c_Name c, v, target) ∈ new ∧ vol_Data v = FileData (b64_encode data) ∧
        volumeName (vm_Name m) key = Ok (vol_Name v) ∧
        target = (if decide (vm_SubPath m ≠ "") then vm_MountPath m
                  else path_Join [vm_MountPath m; key])).
Proof.
  intros Hc Hd Hf. revert reqs st. induction kvs as [|[key data] kvs IH]; intros reqs st Hkv Hr.
  { intros [= <-]. exists []. rewrite app_nil_r. do 2 (split; [done|]).
    split; [by intros q ?%elem_of_nil|by intros ? ? ?%elem_of_nil]. }
  assert (∀ kv, kv ∈ kvs → content !! kv.1 = Some kv.2) as Hkv' by (intros; apply Hkv; by right).
  cbn [fold_result file_step]. unfold mbind, result_bind. destruct (decide (vm_SubPath m ≠ "" ∧ vm_SubPath m ≠ key)) as [[H1 H2]|Hsub].
  - intros Hfold. destruct (IH reqs st Hkv' Hr Hfold) as (new & Hnew & Hms & Hw & Hall).
    exists new. split; [done|]. split.
    { rewrite Hms. simpl. unfold file_mount at 2. simpl. by rewrite decide_False by (intros [?|?]; done). }
    split; [done|]. intros k d [[= -> ->]|Hin]%elem_of_cons Hs.
    + by destruct Hs.
    + by apply Hall.
  - destruct (volumeName (vm_Name m) key) as [name|] eqn:Hn; [|done].
    destruct (emit name _ st) as [st1|] eqn:He; [|done].
    set (target := if decide (vm_SubPath m ≠ "") then _ else _).
    intros Hfold. set (v := mkVol name (FileData (b64_encode data))).
    pose proof (rendered_request reqs st v target (c_Name c) st1 Hr He) as Hr1.
    destruct (IH _ _ Hkv' Hr1 Hfold) as (new & Hnew & Hms & Hw & Hall).
    assert (vm_SubPath m = "" ∨ vm_SubPath m = key) as Hs.
    { destruct (decide (vm_SubPath m = "")); [by left|right].
      destruct (decide (vm_SubPath m = key)); [done|]. by destruct Hsub. }
    exists ((c_Name c, v, target) :: new). rewrite <-app_assoc in Hnew. split; [done|]. split.
    { rewrite fmap_cons, Hms. simpl. unfold file_mount at 2. simpl. rewrite decide_True by done. rewrite Hn. f_equal.
      unfold mount_for, target. simpl. by do 2 case_decide. }
    split.
    + intros q [->|Hq]%elem_of_cons; [|by apply Hw]. split; [done|].
      eapply wants_file; try done. apply (Hkv (key, data)). by left.
    + intros k d [[= -> ->]|Hin]%elem_of_cons Hs'.
      * exists v, target. split; [by left|]. done.
      * destruct (Hall k d Hin Hs') as (v' & t' & ? & ?). exists v', t'. split; [by right|done].
Qed.

(** One mount: it asks for all it wants and nothing else. *)
Lemma mount_step_requests pod files claims n c m reqs st st' :
  rendered reqs st → mount_step visit pod files claims st (n, (c, m)) = Ok st' →
  ∃ new, rendered (reqs ++ new) st' ∧
    mount_for <$> new ≡ₚ asked_mounts pod files m ∧
    (∀ q, q ∈ new → q.1.1 = c_Name c) ∧
    (∀ v target, wants pod files claims m v target → (c_Name c, v, target) ∈ new) ∧
    (∀ q, q ∈ new → q.1.2 ∈ vs_volumes st ∨ wants pod files claims m q.1.2 q.2).
Proof.
  intros Hr. unfold mount_step, mbind, result_bind.
  destruct (claims_of pod !! vm_Name m) as [claim|] eqn:Hc.
  { destruct (claims !! vm_Name m) as [r|] eqn:Hcl; [|done].
    destruct (claim_data pod (vm_Name m) claim r) as [d|e] eqn:Hd.
    - destruct (emit _ _ st) as [st1|] eqn:He; [|done]. intros [= <-].
      set (v := mkVol (vm_Name m) d).
      exists [(c_Name c, v, vm_MountPath m)].
      assert (wants pod files claims m v (vm_MountPath m)) as Hw by by eapply wants_claim.
      split; [by apply (rendered_request reqs st v)|].
      split; [by rewrite asked_whole by (left; rewrite Hc; by eexists)|].
      split; [by intros q ->%list_elem_of_singleton|]. split.
      + intros v' t' Hw'. inversion Hw'; simplify_eq. assert (d0 = d) as -> by congruence. by left.
      + intros q ->%list_elem_of_singleton. by right.
    - destruct (emit _ _ st) as [st1|] eqn:He; [|done]. intros [= <-].
      unfold emit in He. destruct (decide _) as [Hin|]; [|done]. injection He as <-.
      destruct (proj1 (list_elem_of_fmap _ _ _)
        (proj1 (elem_of_list_to_set _ _)
          (eq_ind _ (λ X, vm_Name m ∈ X) Hin _ (rd_emitted _ _ Hr)))) as (v & Hv & Hvin).
      exists [(c_Name c, v, vm_MountPath m)]. split.
      { rewrite Hv. apply (rendered_request reqs st v); [done|].
        unfold emit. by rewrite decide_True by (by rewrite <-Hv). }
      split; [rewrite asked_whole by (left; rewrite Hc; by eexists); unfold mount_for; simpl; by rewrite Hv|].
      split; [by intros q ->%list_elem_of_singleton|]. split.
      + intros v' t' Hw'. inversion Hw'; simplify_eq; congruence.
      + intros q ->%list_elem_of_singleton. by left. }
  destruct (dirs_of pod !! vm_Name m) as [src|] eqn:Hd.
  { destruct (emit _ _ st) as [st1|] eqn:He; [|done]. intros [= <-].
    set (v := mkVol (vm_Name m) (EmptyDirData (emptyDirOf src))).
    exists [(c_Name c, v, vm_MountPath m)].
    split; [by apply (rendered_request reqs st v)|].
    split; [by rewrite asked_whole by (right; rewrite Hd; by eexists)|].
    split; [by intros q ->%list_elem_of_singleton|]. split.
    - intros v' t' Hw'. inversion Hw'; simplify_eq. by left.
    - intros q ->%list_elem_of_singleton. right. by apply wants_dir. }
  destruct (files !! vm_Name m) as [content|] eqn:Hf.
  - destruct (decide _); [done|]. intros Hfold.
    destruct (file_loop pod files claims c m content (visit n content) reqs st st')
      as (new & Hnew & Hms & Hw & Hall); try done.
    { intros [k d] H. rewrite visit_all in H. by apply elem_of_map_to_list in H. }
    exists new. split; [done|]. split.
    { rewrite Hms, asked_files, Hf by done. apply omap_Permutation. by rewrite visit_all. }
    split; [intros q Hq; by apply Hw|]. split.
    + intros v' t' Hw'. inversion Hw'; simplify_eq.
      destruct (Hall key data) as (v & t & Hin & Hdata & Hnm & ->); [|done|].
      { rewrite visit_all. by apply elem_of_map_to_list. }
      destruct v as [nm dt]. simpl in *. simplify_eq.
      assert (name = nm) as -> by congruence. exact Hin.
    + intros q Hq. right. by apply Hw.
  - intros [= <-]. exists []. rewrite app_nil_r. split; [done|].
    split; [by rewrite asked_files, Hf|].
    split; [by intros q ?%elem_of_nil|]. split; [|by intros q ?%elem_of_nil].
    intros v' t' Hw'. inversion Hw'; simplify_eq.
Qed.

(** The mounts asked for by the containers of a name, over the two loops. *)
Definition loop_mounts (pod : Pod) (files : gmap string (gmap string string)) (cname : string)
    (xs : list (nat * (Container * VolumeMount))) : list volumeMount :=
  x ← filter (λ x, c_Name x.2.1 = cname) xs; asked_mounts pod files x.2.2.

Lemma loop_mounts_all pod files cname :
  loop_mounts pod files cname (imap pair (all_mounts pod)) = container_mounts pod files cname.
Proof.
  assert (∀ k l, loop_mounts pod files cname (imap (λ i, pair (k + i)) l) =
    (x ← filter (λ x, c_Name x.1 = cname) l; asked_mounts pod files x.2)) as Hl.
  { intros k l. revert k. induction l as [|x l IH]; intros k; [done|].
    unfold loop_mounts in *. simpl imap. rewrite !filter_cons. simpl.
    assert (imap ((λ i, pair (k + i)) ∘ S) l = imap (λ i, pair (S k + i)) l) as ->
      by (apply imap_ext; intros; simpl; f_equal; lia).
    case_decide; simpl; [f_equal|]; apply (IH (S k)). }
  etransitivity; [exact (Hl 0%nat (all_mounts pod))|]. clear Hl.
  unfold all_mounts, container_mounts. induction (allContainers pod) as [|c cs IH]; [done|].
  rewrite bind_cons, filter_app, bind_app, IH, filter_cons. case_decide as Hc; [rewrite bind_cons|].
  - f_equal. induction (c_VolumeMounts c) as [|m ms IHm]; [done|].
    rewrite fmap_cons, filter_cons_True, !bind_cons by done. by rewrite IHm.
  - assert (filter (λ x : Container * VolumeMount, c_Name x.1 = cname) (pair c <$> c_VolumeMounts c) = []) as ->; [|done].
    induction (c_VolumeMounts c) as [|m ms IHm]; [done|]. by rewrite fmap_cons, filter_cons_False.
Qed.

Lemma loops_requests pod files claims xs st :
  fold_result (mount_step visit pod files claims) (mkVolumeState [] ∅ ∅) xs = Ok st →
  ∃ reqs, rendered reqs st ∧
    (∀ cname, mount_for <$> filter (λ q : request, q.1.1 = cname) reqs ≡ₚ loop_mounts pod files cname xs) ∧
    (∀ n c m v target, (n, (c, m)) ∈ xs → wants pod files claims m v target →
      (c_Name c, v, target) ∈ reqs) ∧
    (∀ q, q ∈ reqs → ∃ n c m target, (n, (c, m)) ∈ xs ∧ wants pod files claims m q.1.2 target).
Proof.
  induction xs as [|[n [c m]] xs IH] using rev_ind in st |- *.
  - intros [= <-]. exists []. split; [apply rendered_nil|]. split; [done|]. split.
    + by intros ? ? ? ? ? ?%elem_of_nil.
    + by intros q ?%elem_of_nil.
  - rewrite fold_result_app. unfold mbind, result_bind.
    destruct (fold_result _ _ xs) as [st1|] eqn:H1; [|done].
    destruct (IH st1 eq_refl) as (reqs & Hr & Hmt & Hall & Honly). cbn [fold_result].
    unfold mbind, result_bind. destruct (mount_step _ _ _ _ st1 _) as [st2|] eqn:H2; [|done].
    intros [= <-].
    destruct (mount_step_requests pod files claims n c m reqs st1 st2 Hr H2)
      as (new & Hnew & Hms & Hname & Hw & Ho).
    exists (reqs ++ new). split; [done|]. split.
    { intros cname. unfold loop_mounts in *. rewrite !filter_app, fmap_app, bind_app, (Hmt cname).
      apply Permutation_app_head. rewrite filter_cons. simpl.
      destruct (decide (c_Name c = cname)) as [<-|Hne]; simpl.
      - rewrite app_nil_r, <-Hms. f_equiv. clear -Hname. induction new as [|q new IH]; [done|].
        rewrite filter_cons_True by (apply Hname; by left). f_equiv. apply IH. intros q' Hq'. apply Hname. by right.
      - assert (filter (λ q : request, q.1.1 = cname) new = []) as ->; [|done].
        clear -Hname Hne. induction new as [|q new IH]; [done|].
        rewrite filter_cons_False by (by rewrite (Hname q (list_elem_of_here _ _))). apply IH.
        intros q' Hq'. apply Hname. by right. }
    split.
    + intros n' c' m' v target [Hin|Hin%list_elem_of_singleton]%elem_of_app Hwant; apply elem_of_app.
      * left. by apply (Hall n' c' m').
      * right. injection Hin as -> -> ->. by apply Hw.
    + assert (∀ q, q ∈ reqs → ∃ n0 c0 m0 target,
        (n0, (c0, m0)) ∈ xs ++ [(n, (c, m))] ∧ wants pod files claims m0 q.1.2 target) as Hold.
      { intros q Hq. destruct (Honly q Hq) as (n0 & c0 & m0 & t & Hin & ?).
        exists n0, c0, m0, t. split; [apply elem_of_app; by left|done]. }
      intros q [Hq|Hq]%elem_of_app; [by apply Hold|]. destruct (Ho q Hq) as [Hv|Hwant].
      * destruct (rd_only _ _ Hr _ Hv) as (cn & t & Hin). apply (Hold _ Hin).
      * exists n, c, m, q.2. split; [|done]. apply elem_of_app. right. by left.
Qed.

Lemma all_mounts_spec pod c m :
  (∃ n, (n, (c, m)) ∈ imap pair (all_mounts pod)) ↔ c ∈ allContainers pod ∧ m ∈ c_VolumeMounts c.
Proof.
  assert ((∃ n, (n, (c, m)) ∈ imap pair (all_mounts pod)) ↔ (c, m) ∈ all_mounts pod) as ->.
  { rewrite list_elem_of_lookup. setoid_rewrite list_elem_of_lookup.
    setoid_rewrite list_lookup_imap. setoid_rewrite fmap_Some. naive_solver. }
  unfold all_mounts. rewrite list_elem_of_bind. setoid_rewrite list_elem_of_fmap. naive_solver.
Qed.
End files.

(** The capsule's volumes and each container's mounts, as the pod's containers ask
    for them. *)
Record volumes_asked (pod : Pod) (files : gmap string (gmap string string)) (claims : gmap string ClaimMount)
    (volumes : list capsuleVolume) (mounts : string → list volumeMount) : Prop := {
  va_nodup : NoDup (vol_Name <$> volumes);
  va_only : ∀ v, v ∈ volumes → ∃ c m target,
    c ∈ allContainers pod ∧ m ∈ c_VolumeMounts c ∧ wants pod files claims m v target;
  va_known : ∀ cname mt, mt ∈ mounts cname → mt_Name mt ∈ vol_Name <$> volumes;
  va_mounts : ∀ cname, mounts cname ≡ₚ container_mounts pod files cname;
  va_asked : ∀ c m v target, c ∈ allContainers pod → m ∈ c_VolumeMounts c → wants pod files claims m v target →
    mkMount (vol_Name v) target ∈ mounts (c_Name c);
  va_content : (∀ c1 m1 v1 t1 c2 m2 v2 t2,
      c1 ∈ allContainers pod → m1 ∈ c_VolumeMounts c1 → wants pod files claims m1 v1 t1 →
      c2 ∈ allContainers pod → m2 ∈ c_VolumeMounts c2 → wants pod files claims m2 v2 t2 →
      vol_Name v1 = vol_Name v2 → v1 = v2) →
    ∀ c m v target, c ∈ allContainers pod → m ∈ c_VolumeMounts c → wants pod files claims m v target → v ∈ volumes }.

Lemma buildFileVolumes_asked (visit : nat → gmap string string → list (string * string)) pod files claims volumes mounts :
  (∀ n m, visit n m ≡ₚ map_to_list m) →
  buildFileVolumes visit pod files claims = Ok (volumes, mounts) →
  volumes_asked pod files claims volumes (λ cname, opt_or [] (mounts !! cname)).
Proof.
  intros Hvisit Hb. unfold buildFileVolumes, mbind, result_bind in Hb.
  destruct (fold_result _ _ _) as [st|] eqn:Hfold; [|done]. injection Hb as <- <-.
  destruct (loops_requests visit Hvisit _ _ _ _ _ Hfold) as (reqs & Hr & Hmt & Hall & Honly).
  set (asks c m v target := c ∈ allContainers pod ∧ m ∈ c_VolumeMounts c ∧ wants pod files claims m v target).
  assert (∀ c m v target, asks c m v target → (c_Name c, v, target) ∈ reqs) as Hasked.
  { intros c m v target (Hc & Hm & Hw).
    destruct (proj2 (all_mounts_spec pod c m) (conj Hc Hm)) as [n Hn]. by apply (Hall n c m). }
  assert (∀ v, v ∈ vs_volumes st → ∃ c m target, asks c m v target) as Hvol.
  { intros v Hv. destruct (rd_only _ _ Hr v Hv) as (cn & t & Hin).
    destruct (Honly _ Hin) as (n & c & m & t' & Hx & Hw). exists c, m, t'.
    destruct (proj1 (all_mounts_spec pod c m) (ex_intro _ n Hx)). done. }
  split.
  - apply (rd_nodup _ _ Hr).
  - done.
  - intros cn mt. rewrite (rd_mounts _ _ Hr), list_elem_of_fmap.
    intros ([[cn' v] t] & -> & [_ Hin]%list_elem_of_filter). by eapply (rd_all _ _ Hr).
  - intros cname. rewrite (rd_mounts _ _ Hr), Hmt. by rewrite loop_mounts_all.
  - intros c m v target Hc Hm Hw. rewrite (rd_mounts _ _ Hr). apply list_elem_of_fmap.
    exists (c_Name c, v, target). split; [done|]. apply list_elem_of_filter. split; [done|]. by apply (Hasked c m).
  - intros Hinj c m v target Hc Hm Hw.
    pose proof (rd_all _ _ Hr _ _ _ (Hasked _ _ _ _ (conj Hc (conj Hm Hw)))) as (v' & Hn & Hv')%list_elem_of_fmap.
    destruct (Hvol v' Hv') as (c' & m' & t' & Hc' & Hm' & Hw').
    by rewrite (Hinj _ _ _ _ _ _ _ _ Hc Hm Hw Hc' Hm' Hw' Hn).
Qed.

(** ** Lemmas: probes and resources *)

(** Exactly one way of asking, or an exec. *)
Definition one_handler (p : Probe) : Prop :=
  match p_Exec p, p_HTTPGet p, p_TCPSocket p, p_GRPC p with
  | Some _, None, None, None | None, Some _, None, None
  | None, None, Some _, None | None, None, None, Some _ => True
  | _, _, _, _ => False
  end.

Definition same_schedule (p q : Probe) : Prop :=
  p_InitialDelaySeconds q = p_InitialDelaySeconds p ∧ p_TimeoutSeconds q = p_TimeoutSeconds p ∧
  p_PeriodSeconds q = p_PeriodSeconds p ∧ p_SuccessThreshold q = p_SuccessThreshold p ∧
  p_FailureThreshold q = p_FailureThreshold p.

(** The number a probe's port stands for in its container. *)
Definition port_of (port : IntOrString) (c : Container) : option Z :=
  if decide (Type_ port = TypeInt) then Some (IntVal port)
  else cp_ContainerPort <$> find (λ cp, bool_decide (cp_Name cp = StrVal port)) (c_Ports c).

Lemma resolveProbePort_ok port c n : resolveProbePort port c = Ok n ↔ port_of port c = Some n.
Proof.
  unfold resolveProbePort, port_of. case_decide; [naive_solver|].
  destruct (find _ _); simpl; naive_solver.
Qed.

Lemma buildResources_memory r rv :
  (0 ≤ quantity (rr_Limits r) "memory")%Z → buildResources r = Some rv →
  (rv_Memory rv * 2 ^ 20 ≤ quantity (rr_Limits r) "memory" < (rv_Memory rv + 1) * 2 ^ 20)%Z ∧
  rv_CPU rv = quantity (rr_Limits r) "cpu".
Proof.
  intros H0. unfold buildResources. case_decide; [done|]. intros [= <-]. simpl.
  set (mem := quantity (rr_Limits r) "memory") in *.
  change (1024 * 1024)%Z with (2 ^ 20)%Z. split; [|by case_decide].
  case_decide as Hm; [rewrite Hm; lia|].
  pose proof (Z.quot_rem' mem (2 ^ 20)). pose proof (Z.rem_bound_pos mem (2 ^ 20)). lia.
Qed.

(** ** Lemmas: what a template says of a container *)

(** The value of a variable: that of the last entry of its name with a value of
    its own. *)
Definition env_value (env : list EnvVar) (k v : string) : Prop :=
  ∃ l1 e l2, env = l1 ++ e :: l2 ∧ ev_Name e = k ∧ ev_ValueFrom e = None ∧ ev_Value e = v ∧
    ∀ x, x ∈ l2 → ev_Name x = k → ev_ValueFrom x ≠ None.

Lemma env_value_snoc env e k v :
  env_value (env ++ [e]) k v ↔
    (ev_Name e = k ∧ ev_ValueFrom e = None ∧ ev_Value e = v) ∨
    ((ev_Name e = k → ev_ValueFrom e ≠ None) ∧ env_value env k v).
Proof.
  split.
  - intros (l1 & x & l2 & Heq & Hn & Hf & Hv & Hl). destruct l2 as [|y l2 _] using rev_ind.
    + apply app_inj_2 in Heq as [_ [= ->]]; [|done]. by left.
    + rewrite app_comm_cons, app_assoc in Heq. apply app_inj_2 in Heq as [-> [= ->]]; [|done]. right.
      split; [apply Hl; set_solver|]. exists l1, x, l2. split; [done|]. do 3 (split; [done|]).
      intros z Hz. apply Hl. set_solver.
  - intros [(Hn & Hf & Hv)|(He & l1 & x & l2 & -> & Hn & Hf & Hv & Hl)].
    + exists env, e, []. do 4 (split; [done|]). by intros x ?%elem_of_nil.
    + exists l1, x, (l2 ++ [e]). rewrite <-app_assoc. do 4 (split; [done|]).
      intros z [Hz| ->%list_elem_of_singleton]%elem_of_app; auto.
Qed.

Lemma build_env_spec env k v : build_env env !! k = Some v ↔ env_value env k v.
Proof.
  unfold build_env. induction env as [|entry env IH] using rev_ind.
  - simpl. rewrite lookup_empty. split; [done|]. intros ([|] & x & l2 & Heq & _); discriminate Heq.
  - rewrite env_value_snoc, fold_left_app, <-IH. simpl. destruct (ev_ValueFrom entry) as [x|] eqn:Hf.
    + split; [intros H; right; by split|]. by intros [(_ & ? & _)|[_ ?]].
    + destruct (decide (ev_Name entry = k)) as [<-|Hne].
      * rewrite lookup_insert_eq. split; [intros [= <-]; by left|]. intros [(_ & _ & ->)|[Hn _]]; [done|by destruct Hn].
      * rewrite lookup_insert_ne by done. split; [intros H; right; by split|]. by intros [(? & _)|[_ ?]].
Qed.

(** What is sent of the limits; nothing sent is no limit. *)
Definition sent_cpu (b : container) : Z := match t_Resources b with Some rv => rv_CPU rv | None => 0%Z end.
Definition sent_memory (b : container) : Z := match t_Resources b with Some rv => rv_Memory rv | None => 0%Z end.
(** A limit, 0 for none: thousandths of a core, bytes. *)
Definition limit (c : Container) (k : string) : Z := match rr_Limits (c_Resources c) !! k with Some z => z | None => 0%Z end.

(** A probe and what is sent for it: nothing for none; an exec probe as it is;
    for one over HTTP or TCP the helper on the number its port stands for; and
    always the author's schedule. *)
Definition probe_sent (c : Container) (p q : option Probe) : Prop :=
  match p, q with
  | None, None => True
  | Some p, Some q => same_schedule p q ∧ is_Some (p_Exec q) ∧
      (∀ e, p_Exec p = Some e → q = p) ∧
      (p_Exec p = None → ∀ h, p_HTTPGet p = Some h → ∃ n, port_of (hg_Port h) c = Some n ∧
         p_Exec q = Some [ProbeHelper; "-http"; http_probe_url h n; "-timeout"; seconds (probeTimeout p)]) ∧
      (p_Exec p = None → p_HTTPGet p = None → ∀ t, p_TCPSocket p = Some t → ∃ n, port_of (ts_Port t) c = Some n ∧
         p_Exec q = Some [ProbeHelper; "-tcp"; "127.0.0.1:" +:+ pretty n; "-timeout"; seconds (probeTimeout p)])
  | _, _ => False
  end.

(** The container of a template is the pod's container.  A setting of the
    security context is the container's own, or else the pod's where the pod has
    one; memory is counted in whole MiB. *)
Record carries (pod : Pod) (c : Container) (b : container) : Prop := {
  ca_process : t_Name b = c_Name c ∧ t_Image b = c_Image c ∧ t_Command b = c_Command c ∧ t_Args b = c_Args c ∧
    t_WorkDir b = c_WorkingDir c;
  ca_env : ∀ k v, t_Env b !! k = Some v ↔ env_value (c_Env c) k v;
  ca_ports : Forall2 (λ p q, cpt_ContainerPort q = cp_ContainerPort p ∧ cpt_Protocol q = cp_Protocol p)
    (c_Ports c) (t_Ports b);
  ca_cpu : sent_cpu b = limit c "cpu";
  ca_memory : (0 ≤ limit c "memory")%Z → (sent_memory b * 2 ^ 20 ≤ limit c "memory" < (sent_memory b + 1) * 2 ^ 20)%Z;
  ca_user : (t_Security b ≫= RunAsUser) = (c_SecurityContext c ≫= sc_RunAsUser) ∪ (PodSecurity (Spec pod) ≫= ps_RunAsUser);
  ca_group : (t_Security b ≫= RunAsGroup) =
    (c_SecurityContext c ≫= sc_RunAsGroup) ∪ (PodSecurity (Spec pod) ≫= ps_RunAsGroup);
  ca_fsgroup : (t_Security b ≫= FSGroup) = (PodSecurity (Spec pod) ≫= ps_FSGroup);
  ca_readonly : (t_Security b ≫= ReadOnlyRootFilesystem) = (c_SecurityContext c ≫= sc_ReadOnlyRootFilesystem);
  ca_escalation : (t_Security b ≫= AllowPrivilegeEscalation) = (c_SecurityContext c ≫= sc_AllowPrivilegeEscalation);
  ca_capabilities : (t_Security b ≫= Capabilities) = (c_SecurityContext c ≫= sc_Capabilities);
  ca_seccomp : (t_Security b ≫= SeccompProfile) =
    (c_SecurityContext c ≫= sc_SeccompProfile) ∪ (PodSecurity (Spec pod) ≫= ps_SeccompProfile);
  ca_liveness : probe_sent c (c_LivenessProbe c) (t_LivenessProbe b);
  ca_readiness : probe_sent c (c_ReadinessProbe c) (t_ReadinessProbe b);
  ca_startup : probe_sent c (c_StartupProbe c) (t_StartupProbe b) }.

Lemma RewriteProbe_sent p c q : RewriteProbe p c = Ok q → probe_sent c p q.
Proof.
  unfold RewriteProbe, probe_sent, same_schedule, mbind, result_bind. destruct p as [p|]; [|by intros [= <-]].
  destruct (p_Exec p) as [x|] eqn:Hx.
  { intros [= <-]. split; [done|]. rewrite Hx. split; [by eexists|]. done. }
  destruct (p_HTTPGet p) as [h|] eqn:Hh.
  { destruct (resolveProbePort (hg_Port h) c) as [n|] eqn:Hn; [|done]. apply resolveProbePort_ok in Hn.
    intros [= <-]. simpl. split; [done|]. split; [by eexists|]. split; [done|]. split; [|done].
    intros _ h' [= <-]. by exists n. }
  destruct (p_TCPSocket p) as [t|] eqn:Ht.
  { destruct (resolveProbePort (ts_Port t) c) as [n|] eqn:Hn; [|done]. apply resolveProbePort_ok in Hn.
    intros [= <-]. simpl. split; [done|]. split; [by eexists|]. split; [done|]. split; [done|].
    intros _ _ t' [= <-]. by exists n. }
  destruct (p_GRPC p); [|done]. intros [= <-]. simpl. split; [done|]. by split; [eexists|].
Qed.

Lemma buildResources_limits c b :
  t_Resources b = buildResources (c_Resources c) →
  sent_cpu b = limit c "cpu" ∧
  ((0 ≤ limit c "memory")%Z → (sent_memory b * 2 ^ 20 ≤ limit c "memory" < (sent_memory b + 1) * 2 ^ 20)%Z).
Proof.
  intros Hb. assert (∀ k, limit c k = quantity (rr_Limits (c_Resources c)) k) as Hq
    by (intros k; unfold limit, quantity; by destruct (_ !! k)).
  unfold sent_cpu, sent_memory. rewrite Hb, !Hq. unfold buildResources. case_decide as Hz.
  - destruct Hz as [-> ->]. split; [done|]. lia.
  - simpl. split; [by case_decide|]. intros H0. case_decide as Hm; [rewrite Hm; lia|].
    set (mem := quantity (rr_Limits (c_Resources c)) "memory") in *. change (1024 * 1024)%Z with (2 ^ 20)%Z.
    pose proof (Z.quot_rem' mem (2 ^ 20)). pose proof (Z.rem_bound_pos mem (2 ^ 20)). lia.
Qed.

(** The security context sent has the settings of the effective one. *)
Lemma security_sent {A} pod c b (f : containerSecurity → option A) :
  t_Security b = (let s := effectiveSecurity pod c in if security_empty s then None else Some s) →
  f (mkSecurity None None None None None None None) = None →
  (t_Security b ≫= f) = f (effectiveSecurity pod c).
Proof.
  intros -> Hf. cbv zeta. destruct (security_empty _) eqn:He; [|done].
  apply security_empty_spec in He. by rewrite He, Hf.
Qed.

Lemma or_else_union {A} (o d : option A) : or_else o d = o ∪ d.
Proof. by destruct o, d. Qed.

Lemma container_carries pod c b : container_of pod c b → carries pod c b.
Proof.
  intros (H1 & H2 & H3 & H4 & H5 & Henv & Hres & Hports & Hsec & Hl & Hr & Hs).
  destruct (buildResources_limits c b Hres) as [Hcpu Hmem].
  split; try done; try by apply RewriteProbe_sent.
  all: try (rewrite (security_sent pod c b _ Hsec) by done; unfold effectiveSecurity;
    destruct (c_SecurityContext c) as [cs|], (PodSecurity (Spec pod)) as [ps|]; simpl; rewrite ?or_else_union;
    try done; by match goal with |- ?x = ?y => destruct x end).
  - intros k v. rewrite Henv. apply build_env_spec.
  - rewrite Hports. apply Forall2_fmap_r, Forall_Forall2_diag. by apply Forall_forall.
Qed.

Lemma template_labels_spec pod o :
  (∀ k, k ∈ [LabelManagedBy; LabelNamespace; LabelPodName; LabelPodUID] →
     template_labels pod o !! k = ownedLabels pod !! k) ∧
  label (template_labels pod o) LabelNodeName = opt_NodeName o.
Proof.
  unfold template_labels. case_decide as Hn; split.
  - intros k Hk. rewrite lookup_insert_ne; [done|]. intros <-. revert Hk.
    rewrite !elem_of_cons, elem_of_nil. by intros [?|[?|[?|[?|[]]]]].
  - unfold label. by rewrite lookup_insert_eq.
  - done.
  - destruct (decide (opt_NodeName o = "")) as [->|]; [|by destruct Hn].
    unfold label, ownedLabels. destruct (controller_of pod);
      by rewrite !lookup_insert_ne, lookup_empty by done.
Qed.

(** ** Properties *)

(** C17 A container whose effective runAsNonRoot is set is never started as root
    and never left to its image: a template that is built gives each such
    container -- init containers too -- a security context with a uid, and the
    uid is not zero.  No container of a built template was privileged. *)
Theorem runAsNonRoot_honoured (visit : nat → gmap string string → list (string * string))
    (pod : Pod) (o : TemplateOptions) (t : template) :
  build_template visit pod o = Ok t →
  Forall2 (λ c b, privileged c = false ∧
      (container_nonroot pod c = true → ∃ s uid,
         t_Security b = Some s ∧ RunAsUser s = Some uid ∧ uid ≠ 0%Z))
    (allContainers pod) (tpl_InitContainers t ++ tpl_Containers t).
Proof.
  intros Ht. destruct (template_containers visit pod o t Ht) as (mounts & _ & Hf).
  apply build_template_inv in Ht as [(Hs & _)%Validate_inv _].
  unfold validateSecurity in Hs. rewrite check_each_ok in Hs.
  eapply Forall2_impl; [exact (Forall2_elem_l _ _ _ Hf)|].
  intros c b (Hc & (_ & _ & _ & _ & _ & _ & _ & _ & Hsec & _) & _).
  assert (validate_container pod c = Ok ()) as [Hp Hu]%validate_container_ok.
  { apply Hs. unfold allContainers in Hc. rewrite elem_of_app in *. tauto. }
  split; [done|]. intros Hnr. destruct (Hu Hnr) as (u & Hu' & Hne).
  rewrite <-effective_user in Hu'. rewrite Hsec. cbv zeta.
  destruct (security_empty _) eqn:He; [|by exists (effectiveSecurity pod c), u].
  apply security_empty_spec in He. by rewrite He in Hu'.
Qed.

(** A network probe becomes the same check made inside the container: what
    is sent is an exec probe with the author's schedule, an exec probe is sent
    as written, an HTTP or TCP probe runs the helper against 127.0.0.1 on the
    number its port stands for in this container, and the only probes refused
    are those with no handler and those whose port name the container does not
    declare. *)
Theorem RewriteProbe_correct (p : Probe) (c : Container) :
  one_handler p →
  match RewriteProbe (Some p) c with
  | Ok q => ∃ q' command, q = Some q' ∧ same_schedule p q' ∧
      p_Exec q' = Some command ∧ one_handler q' ∧
      (is_Some (p_Exec p) → q' = p) ∧
      (∀ h, p_HTTPGet p = Some h → ∃ n, port_of (hg_Port h) c = Some n ∧
         command = [ProbeHelper; "-http"; http_probe_url h n; "-timeout";
                    seconds (probeTimeout p)]) ∧
      (∀ t, p_TCPSocket p = Some t → ∃ n, port_of (ts_Port t) c = Some n ∧
         command = [ProbeHelper; "-tcp"; "127.0.0.1:" +:+ pretty n; "-timeout";
                    seconds (probeTimeout p)])
  | Err _ => (∃ h, p_HTTPGet p = Some h ∧ port_of (hg_Port h) c = None) ∨
             (∃ t, p_TCPSocket p = Some t ∧ port_of (ts_Port t) c = None)
  end.
Proof.
  assert (∀ port, match resolveProbePort port c with
    | Ok n => port_of port c = Some n | Err _ => port_of port c = None end) as Hport.
  { intros port. pose proof (resolveProbePort_ok port c) as H.
    destruct (resolveProbePort port c) as [n|]; [by apply H|].
    destruct (port_of port c) as [n|]; [|done].
    pose proof (proj2 (H n) eq_refl). done. }
  unfold RewriteProbe, one_handler, same_schedule, mbind, result_bind.
  destruct p as [[e|] [h|] [t|] [g|] ? ? ? ? ?]; simpl; intros H1; try done.
  - by eexists _, _.
  - pose proof (Hport (hg_Port h)) as Hp. destruct (resolveProbePort (hg_Port h) c) as [n|];
      [|left; by exists h].
    eexists _, _. repeat split; try done; try (by intros []).
    intros h' [= <-]. by exists n.
  - pose proof (Hport (ts_Port t)) as Hp. destruct (resolveProbePort (ts_Port t) c) as [n|];
      [|right; by exists t].
    eexists _, _. repeat split; try done; try (by intros []).
    intros t' [= <-]. by exists n.
  - eexists _, _. repeat split; try done; try (by intros []).
Qed.

(** C35 The capsule's volumes and mounts are what the pod's containers ask for.
    Volumes are named once each and every one is some mount's; the mounts of a
    container are exactly those its own mounts ask for -- one for a claim or a
    directory, one for each file, at the place it named -- and each refers to a
    volume of the capsule.  Where no two requests of the pod collide on a volume
    name (see [volumeName_collision] for two that do), that volume has the content
    that was asked for.  This holds for whatever order the maps are visited in. *)
Theorem buildFileVolumes_correct (visit : nat → gmap string string → list (string * string))
    (pod : Pod) (files : gmap string (gmap string string)) (claims : gmap string ClaimMount)
    (volumes : list capsuleVolume) (mounts : gmap string (list volumeMount)) :
  (∀ n m, visit n m ≡ₚ map_to_list m) →
  buildFileVolumes visit pod files claims = Ok (volumes, mounts) →
  volumes_asked pod files claims volumes (λ cname, opt_or [] (mounts !! cname)).
Proof. by apply buildFileVolumes_asked. Qed.

(** C18 A built template is the pod's: it is named after the pod's UID; its
    labels lead back to the pod, its UID and the node that made it; its
    containers are the pod's in order, init containers apart, each with its
    image, command, directory, ports, the environment its entries resolve to, its
    limits -- the memory in whole MiB, rounded down --, the security settings that
    are its own or else the pod's, its probes made to run in the capsule, and the
    mounts it asks for of volumes that are some container's; a port given takes
    precedence over a network; restart policy, runtime, zone and groups are those
    asked for.  A pod is refused with its own refusal, or because it has no
    container, a probe cannot be rewritten or its volumes cannot be made. *)
Theorem BuildTemplate_faithful (visit : nat → gmap string string → list (string * string))
    (pod : Pod) (o : TemplateOptions) :
  Namespace pod ≠ "" → Name pod ≠ "" → (∀ n m, visit n m ≡ₚ map_to_list m) →
  match build_template visit pod o with
  | Ok t =>
      Validate pod = Ok () ∧ Containers (Spec pod) ≠ [] ∧
      tpl_Name t = "kubezun-" +:+ UID pod ∧
      PodKeyFromLabels (tpl_Labels t) = (Namespace pod, Name pod, true) ∧
      label (tpl_Labels t) LabelPodUID = UID pod ∧
      label (tpl_Labels t) LabelNodeName = opt_NodeName o ∧
      tpl_SecurityGroups t = SecurityGroups o ∧ tpl_AvailabilityZone t = AvailabilityZone o ∧
      tpl_Architecture t = Architecture o ∧ (∀ r, RuntimeClassName (Spec pod) = Some r → tpl_Runtime t = r) ∧
      (RestartPolicy (Spec pod) ∈ ["Always"; "OnFailure"; "Never"] → tpl_RestartPolicy t = RestartPolicy (Spec pod)) ∧
      (PortID o ≠ "" → tpl_Nets t = [mkNet "" (PortID o)]) ∧
      (PortID o = "" → NetworkID o ≠ "" → tpl_Nets t = [mkNet (NetworkID o) ""]) ∧
      Forall2 (carries pod) (InitContainers (Spec pod)) (tpl_InitContainers t) ∧
      Forall2 (carries pod) (Containers (Spec pod)) (tpl_Containers t) ∧
      ∃ mounts, volumes_asked pod (Files o) (Claims o) (tpl_Volumes t) mounts ∧
        Forall (λ b, t_Mounts b = mounts (t_Name b)) (tpl_InitContainers t ++ tpl_Containers t)
  | Err e => Validate pod = Err e ∨
      Validate pod = Ok () ∧ (Containers (Spec pod) = [] ∨
        (∃ c p, c ∈ allContainers pod ∧ p ∈ container_probes c ∧ RewriteProbe p c = Err e) ∨
        buildFileVolumes visit pod (Files o) (Claims o) = Err e)
  end.
Proof.
  intros Hns Hn Hvisit. destruct (build_template visit pod o) as [t|e] eqn:Ht; [|by apply build_template_err].
  pose proof (build_template_inv _ _ _ _ Ht) as (Hv & inits & cs & vols & mounts & Hi & Hcs & Hne & Hb & ->).
  split; [done|]. split.
  { intros Hnil. rewrite Hnil in Hcs. by injection Hcs as <-. }
  destruct (template_labels_spec pod o) as [Hl Hnode].
  destruct (ownedLabels_key pod (template_labels pod o) Hns Hn Hl) as [Hk Hu].
  do 7 (split; [done|]). simpl. split; [unfold runtimeClass; by intros r ->|]. split.
  { unfold restartPolicy. intros Hin. repeat case_decide; [congruence..|]. set_solver. }
  split; [intros Hp; unfold template_nets; by rewrite decide_True|].
  split; [intros Hp Hnet; unfold template_nets; by rewrite decide_False, decide_True by tauto|].
  assert (∀ cs bs, map_result (buildContainer pod) cs = Ok bs → Forall2 (carries pod) cs (map (mounted mounts) bs)) as Hf.
  { intros cs' bs Hm. eapply Forall2_impl; [by eapply built_mounted|]. intros c b [Hc _]. by apply container_carries. }
  split; [by apply Hf|]. split; [by apply Hf|]. exists (λ cname, opt_or [] (mounts !! cname)).
  split; [by eapply buildFileVolumes_asked|]. apply Forall_forall. intros b Hin.
  rewrite <-map_app in Hin. by apply list_elem_of_fmap in Hin as (b' & -> & _).
Qed.

(** The pods accepted are exactly those a capsule can carry. *)
Theorem Validate_exact (pod : Pod) :
  Validate pod = Ok () ↔
  (∀ c, c ∈ allContainers pod → privileged c = false ∧
     (container_nonroot pod c = true → ∃ u, container_user pod c = Some u ∧ u ≠ 0%Z) ∧
     ∀ p, p ∈ container_probes c → local_probe p) ∧
  HostNetwork (Spec pod) = false ∧ HostPID (Spec pod) = false ∧ HostIPC (Spec pod) = false ∧
  ¬ (NodeName (Spec pod) ≠ "" ∧ SchedulerName (Spec pod) = "") ∧
  (∀ v, v ∈ Volumes (Spec pod) → carried_volume v).
Proof.
  assert (∀ c, c ∈ Containers (Spec pod) ++ InitContainers (Spec pod) ↔ c ∈ allContainers pod)
    as Hc by (intros c; unfold allContainers; rewrite !elem_of_app; tauto).
  split.
  - intros (Hs & Hn & Hp & Hi & Hb & Hv & Hpr)%Validate_inv.
    unfold validateSecurity in Hs. rewrite check_each_ok in Hs. rewrite check_each_ok in Hv.
    rewrite check_each_ok in Hpr.
    split; [|do 4 (split; [done|]); intros v Hin; by eapply validate_volume_ok, Hv].
    intros c Hin%Hc. destruct (proj1 (validate_container_ok pod c) (Hs c Hin)).
    split; [done|]. split; [done|]. intros p Hpin. apply validateProbe_ok.
    pose proof (Hpr c Hin) as H'. rewrite check_each_ok in H'. by apply H'.
  - intros (Hs & Hn & Hp & Hi & Hb & Hv). apply Validate_intro; try done.
    + apply check_each_ok. intros c Hin%Hc. apply validate_container_ok.
      by destruct (Hs c Hin) as (? & ? & _).
    + apply check_each_ok. intros v Hin. by apply validate_volume_ok, Hv.
    + apply check_each_ok. intros c Hin%Hc. apply check_each_ok. intros p Hpin.
      apply validateProbe_ok. by apply (Hs c Hin).
Qed.

(** ** What the code does that its comments deny *)

(** A limit below one MiB is sent as no limit at all. *)
Theorem small_memory_limit_lost :
  resources_json <$> buildResources (mkResources {["memory" := 524288%Z]} ∅) =
  Some (JObject [("requests", JObject [])]).
Proof. reflexivity. Qed.

(** A path without its leading slash runs into the port. *)
Theorem relative_probe_path :
  http_probe_url (mkHTTPGet "healthz" (mkIntOrString TypeInt 8080 "") "" "HTTP" []) 8080 =
  "http://127.0.0.1:8080healthz".
Proof. reflexivity. Qed.

(** [omitempty] drops an empty list of security groups like a nil one. *)
Theorem empty_security_groups_omitted `{!APIJson} (t : template) :
  tpl_SecurityGroups t = [] →
  match template_json t with
  | JObject o => jget o "securityGroups" = None
  | _ => False
  end.
Proof.
  intros Hsg. unfold template_json. rewrite Hsg. simpl.
  unfold omit_list, omit_str. destruct (tpl_Nets t); repeat case_decide; reflexivity.
Qed.

(** Two files of one pod can share a capsule volume, and the second is then the
    first's content. *)
Definition in_order (n : nat) (m : gmap string string) : list (string * string) := map_to_list m.

Definition cm_volume (name : string) : Volume := mkVolume name None (Some (mkSource name None [])) None None None None.
Definition colliding_pod : Pod :=
  let s := empty_spec in
  mkPod "prod" "web-0" "u1" ∅ [] None
    (mkPodSpec false false false "" "default-scheduler" "Always" None None None "" None
      [cm_volume "a"; cm_volume "a-b"] "" []
      [mkContainer "web" "nginx" [] [] "" [] [] no_resources
        [mkVolumeMount "a" "/one" "" ""; mkVolumeMount "a-b" "/two" "" ""]
        None None None None])
    empty_status.

Theorem volumeName_collision :
  buildFileVolumes in_order colliding_pod
    (<["a" := {["b-c" := "one"]}]> {["a-b" := {["c" := "two"]}]}) ∅ =
  Ok ([mkVol "a-b-c" (FileData (b64_encode "one"))],
      {["web" := [mkMount "a-b-c" "/one/b-c"; mkMount "a-b-c" "/two/c"]]}).
Proof. reflexivity. Qed.

(** ** Witnesses *)

Definition web_container : Container :=
  mkContainer "web" "nginx" ["nginx"] ["-g"; "daemon off;"] "/srv"
    [mkEnvVar "PORT" "8080" None] [mkContainerPort "http" 8080 "TCP"]
    (mkResources (<["cpu" := 500%Z]> {["memory" := 134217728%Z]}) ∅)
    [mkVolumeMount "conf" "/etc/app" "" ""; mkVolumeMount "data" "/data" "" "";
     mkVolumeMount "tmp" "/tmp" "" ""]
    (Some (mkProbe None (Some (mkHTTPGet "/healthz" (mkIntOrString TypeString 0 "http") "" "HTTP" []))
      None None 5 0 10 1 3))
    None None
    (Some (mkSecurityContext None (Some 1000%Z) None (Some true) (Some true) (Some false) None None)).

Definition web_pod : Pod :=
  mkPod "prod" "web-0" "u1" ∅ [mkOwner "rs-1" (Some true)] None
    (mkPodSpec false false false "" "default-scheduler" "Always" None None
      (Some (mkPodSecurityContext None None (Some true) (Some 2000%Z) None)) "" None
      [cm_volume "conf"; mkVolume "data" None None None None (Some "pvc-1") None;
       mkVolume "tmp" None None None (Some (mkEmptyDir "" None)) None None] "" []
      [web_container])
    empty_status.

Definition web_options : TemplateOptions :=
  mkOptions "net-1" "" "az-1" "node-1" {["conf" := {["app.yaml" := "k: v"]}]}
    ["prod.svc.cluster.local"] [] ["sg-1"]
    {["data" := mkClaimMount "cinder" "vol-1" ""]} "amd64".

Lemma runAsNonRoot_honoured_witness :
  match build_template in_order web_pod web_options with
  | Ok t => Forall2 (λ c b, privileged c = false ∧
      (container_nonroot web_pod c = true → ∃ s uid,
         t_Security b = Some s ∧ RunAsUser s = Some uid ∧ uid ≠ 0%Z))
      [web_container] (tpl_Containers t)
  | Err _ => False
  end.
Proof.
  destruct (build_template in_order web_pod web_options) as [t|] eqn:Ht;
    [|by vm_compute in Ht].
  pose proof (runAsNonRoot_honoured in_order web_pod web_options t Ht) as H.
  vm_compute in Ht. injection Ht as <-. exact H.
Defined.

Lemma RewriteProbe_correct_witness :
  match RewriteProbe (c_LivenessProbe web_container) web_container with
  | Ok (Some q) => p_Exec q =
      Some ["/.kubezun/probe"; "-http"; "http://127.0.0.1:8080/healthz"; "-timeout"; "1s"]
  | _ => False
  end.
Proof.
  pose proof (RewriteProbe_correct (mkProbe None (Some (mkHTTPGet "/healthz"
    (mkIntOrString TypeString 0 "http") "" "HTTP" [])) None None 5 0 10 1 3) web_container I) as H.
  destruct H as (q & cmd & Hq & _ & Hx & _ & _ & Hh & _).
  destruct (Hh _ eq_refl) as (n & [= <-] & Hc).
  replace (RewriteProbe (c_LivenessProbe web_container) web_container) with (Ok (Some q))
    by (rewrite <-Hq; reflexivity).
  rewrite Hx, Hc. reflexivity.
Defined.

Lemma buildFileVolumes_correct_witness :
  match buildFileVolumes in_order web_pod (Files web_options) (Claims web_options) with
  | Ok (volumes, mounts) =>
      NoDup (vol_Name <$> volumes) ∧ (vol_Name <$> volumes) = ["conf-app.yaml"; "data"; "tmp"] ∧
      mkMount "conf-app.yaml" "/etc/app/app.yaml" ∈ opt_or [] (mounts !! "web")
  | Err _ => False
  end.
Proof.
  destruct (buildFileVolumes in_order web_pod (Files web_options) (Claims web_options))
    as [[volumes mounts]|] eqn:Hb; [|by vm_compute in Hb].
  destruct (buildFileVolumes_correct in_order web_pod _ _ volumes mounts
    (λ n m, Permutation_refl _) Hb) as [H1 _ _ _ H4 _].
  split; [done|]. split; [vm_compute in Hb; by injection Hb as <- _|].
  apply (H4 web_container (mkVolumeMount "conf" "/etc/app" "" "")
    (mkVol "conf-app.yaml" (FileData (b64_encode "k: v"))) "/etc/app/app.yaml"); [by left..|].
  apply (wants_file web_pod _ _ (mkVolumeMount "conf" "/etc/app" "" "")
    {["app.yaml" := "k: v"]} "app.yaml" "k: v" "conf-app.yaml"); try reflexivity. by left.
Defined.

Lemma BuildTemplate_faithful_witness :
  match build_template in_order web_pod web_options with
  | Ok t => PodKeyFromLabels (tpl_Labels t) = ("prod", "web-0", true) ∧
      label (tpl_Labels t) LabelNodeName = "node-1" ∧
      Forall (λ b, sent_cpu b = 500%Z) (tpl_Containers t)
  | Err _ => False
  end.
Proof.
  pose proof (BuildTemplate_faithful in_order web_pod web_options ltac:(done) ltac:(done)
    (λ n m, Permutation_refl _)) as H.
  destruct (build_template in_order web_pod web_options) as [t|] eqn:Ht;
    [|by vm_compute in Ht].
  destruct H as (_ & _ & _ & H1 & _ & H2 & _ & _ & _ & _ & _ & _ & _ & _ & H3 & _).
  split; [exact H1|]. split; [exact H2|].
  inversion H3 as [|c b cs bs Hcb Hrest]; subst. inversion Hrest; subst. constructor; [|constructor].
  rewrite (ca_cpu _ _ _ Hcb). reflexivity.
Defined.
