(* ===== verification/VirtualNode.v ===== *)
(** * pkg/node/node.go, pkg/provider/nodehealth.go, cmd/virtual-kubelet/nodespec.go

    The virtual node: the Node object it registers as, the command line form it
    is given in, and the health it reports -- which for a node without a
    machine is whether Zun answers. *)

From S2P Require Import Prelude GoStd K8s.
From Stdlib Require Import Ascii.

Local Open Scope string_scope.
Local Open Scope list_scope.

(** ** The Node object *)
Record Capacity := mkCapacity {
  cap_CPU : string; cap_Memory : string; cap_Pods : string; cap_EphemeralStorage : string }.

Record NodeOptions := mkNodeOptions {
  no_Name : string; no_Tenant : string; no_Zone : string; no_Region : string;
  no_Shard : string; no_Version : string; no_OS : string; no_Arch : string;
  no_Capacity : Capacity; no_InternalIP : string; no_KubeletPort : Z }.

Record NodeCondition := mkNodeCondition {
  nc_Status : string; nc_Reason : string; nc_Message : string; nc_Heartbeat : Time }.

Record Taint := mkTaint { taint_Key : string; taint_Value : string; taint_Effect : string }.

(** Quantities stay as the strings [resource.MustParse] is given. *)
Record Node := mkNode {
  n_Name : string;
  n_Labels : gmap string string;
  n_Taints : list Taint;
  n_OS : string;
  n_Arch : string;
  n_Version : string;
  n_Capacity : gmap string string;
  n_KubeletPort : Z;
  n_Conditions : list NodeCondition;
  n_Addresses : list string }.

Definition TenantTaintKey : string := "knaas.io/tenant".
Definition ServerlessTaintKey : string := "knaas.io/serverless".
Definition ShardLabelKey : string := "knaas.io/shard".
Definition PoolLabelKey : string := "kubezoo.io/pool".
Definition RoleLabelKey : string := "node-role.kubernetes.io/serverless".
Definition LabelRegion : string := "topology.kubernetes.io/region".
Definition LabelZone : string := "topology.kubernetes.io/zone".

Definition ReadyCondition (now : Time) : NodeCondition :=
  mkNodeCondition "True" "KubeletReady" "zun is reachable" now.
Definition NotReadyCondition (msg : string) (now : Time) : NodeCondition :=
  mkNodeCondition "False" "KubeletNotReady" msg now.

Definition str_or (s d : string) : string := if decide (s = "") then d else s.

Definition buildCapacity (c : Capacity) : gmap string string :=
  let out : gmap string string :=
    <["cpu" := str_or (cap_CPU c) "0"]> (<["memory" := str_or (cap_Memory c) "0"]>
      (<["pods" := str_or (cap_Pods c) "0"]> ∅)) in
  if decide (cap_EphemeralStorage c ≠ "") then
    <["ephemeral-storage" := cap_EphemeralStorage c]> out else out.

Definition insert_unless_empty (k v : string) (m : gmap string string) : gmap string string :=
  if decide (v ≠ "") then <[k := v]> m else m.

Definition node_labels (o : NodeOptions) : gmap string string :=
  insert_unless_empty LabelZone (no_Zone o)
    (insert_unless_empty LabelRegion (no_Region o)
      (insert_unless_empty ShardLabelKey (no_Shard o)
        (insert_unless_empty PoolLabelKey (no_Tenant o)
          (<["kubernetes.io/os" := str_or (no_OS o) "linux"]>
            (<["kubernetes.io/arch" := str_or (no_Arch o) "amd64"]>
              (<["kubernetes.io/hostname" := no_Name o]>
                (<["type" := "virtual-kubelet"]> (<[RoleLabelKey := ""]>
                  (<["node.kubernetes.io/instance-type" := "knaas.serverless"]> ∅))))))))).

Definition Build (o : NodeOptions) (now : Time) : Node :=
  let capacity := buildCapacity (no_Capacity o) in
  mkNode (no_Name o) (node_labels o)
    (if decide (no_Tenant o ≠ "") then [mkTaint TenantTaintKey (no_Tenant o) "NoSchedule"]
     else if decide (no_Shard o ≠ "") then [mkTaint ServerlessTaintKey "true" "NoSchedule"]
     else [])
    (str_or (no_OS o) "linux") (str_or (no_Arch o) "amd64") (no_Version o) capacity
    (if decide (no_KubeletPort o = 0%Z) then 10250%Z else no_KubeletPort o)
    [NotReadyCondition "Registering the node" now]
    (if decide (no_InternalIP o ≠ "") then [no_InternalIP o] else []).

(** ** A node on the command line *)
Record nodeSpec := mkNodeSpec {
  ns_name : string; ns_arch : string; ns_zone : string; ns_zunAZ : string; ns_listen : string }.

(** [strings.TrimSpace] on ASCII white space. *)
Definition is_space (c : ascii) : bool :=
  let n := nat_of_ascii c in ((n =? 32) || ((9 <=? n) && (n <=? 13)))%nat.
Fixpoint trim_left (s : string) : string :=
  match s with
  | String c s' => if is_space c then trim_left s' else s
  | EmptyString => ""
  end.
Fixpoint trim_right (s : string) : string :=
  match s with
  | String c s' =>
      let r := trim_right s' in
      if is_space c && bool_decide (r = "") then "" else String c r
  | EmptyString => ""
  end.
Definition TrimSpace (s : string) : string := trim_right (trim_left s).

Definition spec_field (s : string) (out : nodeSpec) (field : string) : result nodeSpec :=
  let field := TrimSpace field in
  if decide (field = "") then Ok out
  else match cut field "=" with
  | None => Err (ErrMsg ("node spec " +:+ go_quote s +:+ ": field " +:+ go_quote field +:+
      " is not key=value"))
  | Some (key, value) =>
      let key := TrimSpace key in
      let value := TrimSpace value in
      if decide (key = "name") then
        Ok (mkNodeSpec value (ns_arch out) (ns_zone out) (ns_zunAZ out) (ns_listen out))
      else if decide (key = "arch") then
        Ok (mkNodeSpec (ns_name out) value (ns_zone out) (ns_zunAZ out) (ns_listen out))
      else if decide (key = "zone") then
        Ok (mkNodeSpec (ns_name out) (ns_arch out) value (ns_zunAZ out) (ns_listen out))
      else if decide (key = "zun-az") then
        Ok (mkNodeSpec (ns_name out) (ns_arch out) (ns_zone out) value (ns_listen out))
      else if decide (key = "listen") then
        Ok (mkNodeSpec (ns_name out) (ns_arch out) (ns_zone out) (ns_zunAZ out) value)
      else Err (ErrMsg ("node spec " +:+ go_quote s +:+ ": unknown field " +:+ go_quote key +:+
        "; want name, arch, zone, zun-az or listen"))
  end.

Definition parseNodeSpec (s : string) (defaults : nodeSpec) : result nodeSpec :=
  out ← fold_result (spec_field s)
    (mkNodeSpec "" (ns_arch defaults) (ns_zone defaults) (ns_zunAZ defaults) (ns_listen defaults))
    (split_char "," s);
  if decide (ns_name out = "") then
    Err (ErrMsg ("node spec " +:+ go_quote s +:+ ": name is required"))
  else Ok out.

(** How a spec is written. *)
Definition print_spec (n : nodeSpec) : string :=
  "name=" +:+ ns_name n +:+ ",arch=" +:+ ns_arch n +:+ ",zone=" +:+ ns_zone n +:+
  ",zun-az=" +:+ ns_zunAZ n +:+ ",listen=" +:+ ns_listen n.

(** ** Health *)
Definition unhealthyAfter : Z := 3.

Section health.
(** [err.Error()]. *)
Variable error_text : gerror → string.

(** [notify] is seen as the list of the nodes handed to it, oldest first. *)
Record NodeHealth := mkHealth {
  h_failures : Z;
  h_healthy : bool;
  h_lastErr : option gerror;
  h_node : option Node;
  h_notified : list Node }.

Definition NewNodeHealth (node : option Node) : NodeHealth := mkHealth 0 true None node [].

Definition Ping (h : NodeHealth) : result () :=
  if h_healthy h then Ok ()
  else Err (ErrWrap "zun is unreachable" (default (ErrMsg "") (h_lastErr h))).

Definition with_conditions (n : Node) (l : list NodeCondition) : Node :=
  mkNode (n_Name n) (n_Labels n) (n_Taints n) (n_OS n) (n_Arch n) (n_Version n) (n_Capacity n)
    (n_KubeletPort n) l (n_Addresses n).

(** [probe] with what [ListManaged] answered: [None] for no error. *)
Definition probe (now : Time) (answer : option gerror) (h : NodeHealth) : NodeHealth :=
  let '(failures, healthy) :=
    match answer with
    | None => (0%Z, true)
    | Some _ => ((h_failures h + 1)%Z,
                 if decide (unhealthyAfter ≤ h_failures h + 1)%Z then false else h_healthy h)
    end in
  match h_node h with
  | Some node =>
      if decide (h_healthy h = healthy) then mkHealth failures healthy answer (Some node) (h_notified h)
      else
        let condition :=
          if healthy : bool then ReadyCondition now
          else NotReadyCondition ("zun is unreachable: " +:+
                 match answer with Some e => error_text e | None => "" end) now in
        let updated := with_conditions node [condition] in
        mkHealth failures healthy answer (Some updated) (h_notified h ++ [updated])
  | None => mkHealth failures healthy answer None (h_notified h)
  end.

(** The loop: one probe per tick. *)
Definition probes (h : NodeHealth) (ticks : list (Time * option gerror)) : NodeHealth :=
  fold_left (λ h t, probe t.1 t.2 h) ticks h.

(** How many probes in a row have failed by now. *)
Definition failing (ticks : list (Time * option gerror)) : Z :=
  fold_left (λ n t, match t.2 with None => 0%Z | Some _ => (n + 1)%Z end) ticks 0%Z.

Lemma failing_app ticks t :
  failing (ticks ++ [t]) = match t.2 with None => 0%Z | Some _ => (failing ticks + 1)%Z end.
Proof. unfold failing. by rewrite fold_left_app. Qed.

Lemma failing_nonneg ticks : (0 ≤ failing ticks)%Z.
Proof.
  induction ticks as [|t ticks IH] using rev_ind; [done|].
  rewrite failing_app. destruct (t.2); lia.
Qed.

Lemma probes_app h ticks t : probes h (ticks ++ [t]) = probe t.1 t.2 (probes h ticks).
Proof. unfold probes. by rewrite fold_left_app. Qed.

Lemma probe_state now answer h :
  h_failures (probe now answer h) =
    match answer with None => 0%Z | Some _ => (h_failures h + 1)%Z end ∧
  h_healthy (probe now answer h) =
    match answer with
    | None => true
    | Some _ => if decide (unhealthyAfter ≤ h_failures h + 1)%Z then false else h_healthy h
    end.
Proof.
  unfold probe. destruct answer as [e|].
  - destruct (h_node h); [|by split]. destruct (decide (h_healthy h = _)); by split.
  - destruct (h_node h); [|by split]. destruct (decide (h_healthy h = _)); by split.
Qed.

Lemma probes_state node ticks :
  let h := probes (NewNodeHealth node) ticks in
  h_failures h = failing ticks ∧ h_healthy h = bool_decide (failing ticks < unhealthyAfter)%Z.
Proof.
  induction ticks as [|t ticks IH] using rev_ind; [done|].
  simpl in *. destruct IH as [Hf Hh]. rewrite probes_app, failing_app.
  destruct (probe_state t.1 t.2 (probes (NewNodeHealth node) ticks)) as [-> ->].
  rewrite Hf, Hh. pose proof (failing_nonneg ticks). destruct (t.2); [|done].
  split; [done|]. unfold unhealthyAfter.
  destruct (decide (3 ≤ failing ticks + 1)%Z) as [H1|H1]; symmetry.
  - apply bool_decide_eq_false. lia.
  - rewrite (bool_decide_true (failing ticks < 3)%Z) by lia. apply bool_decide_eq_true. lia.
Qed.

(** What the node object says agrees with [healthy] once it has been said. *)
Definition says (n : Node) (healthy : bool) : Prop :=
  ∃ c, n_Conditions n = [c] ∧ nc_Status c = (if healthy then "True" else "False").

Lemma probe_notifies now answer h node :
  h_node h = Some node →
  let h' := probe now answer h in
  if decide (h_healthy h' = h_healthy h)
  then h_notified h' = h_notified h ∧ h_node h' = Some node
  else ∃ n, h_notified h' = h_notified h ++ [n] ∧ h_node h' = Some n ∧
       says n (h_healthy h') ∧ n_Name n = n_Name node ∧ n_Labels n = n_Labels node ∧
       n_Taints n = n_Taints node ∧ n_Capacity n = n_Capacity node.
Proof.
  intros Hn. cbv zeta. destruct (probe_state now answer h) as [_ Hh].
  unfold probe in *. rewrite Hn in *.
  destruct answer as [e|]; cbv beta iota zeta;
    [set (b := if decide (unhealthyAfter ≤ _)%Z then false else h_healthy h)|set (b := true)];
    (destruct (decide (h_healthy h = b)) as [He|He]; simpl;
      [by rewrite decide_True by congruence|rewrite decide_False by congruence]);
    eexists; repeat split; unfold says; simpl; eexists; (split; [done|]); by destruct b.
Qed.

(** C40 The node is taken out of service exactly while the last three or more
    probes in a row have failed, [Ping] reports just that, and the node
    controller is told exactly when it changes, with a condition that says it
    and the rest of the node as it was. *)
Theorem NodeHealth_tracks (node : Node) (ticks : list (Time * option gerror))
    (now : Time) (answer : option gerror) :
  let h := probes (NewNodeHealth (Some node)) ticks in
  let h' := probe now answer h in
  (is_ok (Ping h) = true ↔ (failing ticks < 3)%Z) ∧
  (if decide (is_ok (Ping h') = is_ok (Ping h)) then h_notified h' = h_notified h
   else ∃ n, h_notified h' = h_notified h ++ [n] ∧ says n (is_ok (Ping h')) ∧
        n_Name n = n_Name node ∧ n_Labels n = n_Labels node ∧ n_Taints n = n_Taints node ∧
        n_Capacity n = n_Capacity node).
Proof.
  assert (∀ h, is_ok (Ping h) = h_healthy h) as Hp
    by (intros h; unfold Ping; by destruct (h_healthy h)).
  assert (∀ ticks, ∃ n, h_node (probes (NewNodeHealth (Some node)) ticks) = Some n ∧
    n_Name n = n_Name node ∧ n_Labels n = n_Labels node ∧ n_Taints n = n_Taints node ∧
    n_Capacity n = n_Capacity node) as Hnode.
  { intros l. induction l as [|t l (n & Hn & H1 & H2 & H3 & H4)] using rev_ind; [by exists node|].
    rewrite probes_app. pose proof (probe_notifies t.1 t.2 _ n Hn) as H. cbv zeta in H.
    destruct (decide _); [exists n; by destruct H|].
    destruct H as (n' & _ & Hn' & _ & ? & ? & ? & ?). exists n'. repeat split; congruence. }
  cbv zeta. rewrite !Hp. split.
  - destruct (probes_state (Some node) ticks) as [_ ->]. apply bool_decide_eq_true.
  - destruct (Hnode ticks) as (n & Hn & <- & <- & <- & <-).
    pose proof (probe_notifies now answer _ n Hn) as H. cbv zeta in H.
    destruct (decide _); [apply H|]. destruct H as (n' & H1 & _ & H2 & H3). by exists n'.
Qed.
End health.

(** ** Lemmas: the command line form *)
Fixpoint no_space (s : string) : bool :=
  match s with EmptyString => true | String c s' => negb (is_space c) && no_space s' end.

Lemma no_space_app a b : no_space (a +:+ b) = no_space a && no_space b.
Proof. induction a as [|c a IH]; simpl; [done|]. by rewrite IH, andb_assoc. Qed.

Lemma TrimSpace_no_space s : no_space s = true → TrimSpace s = s.
Proof.
  intros H. unfold TrimSpace. assert (trim_left s = s) as ->.
  { destruct s as [|c s]; [done|]. simpl in *. by destruct (is_space c). }
  induction s as [|c s IH]; [done|]. simpl in *.
  apply andb_true_iff in H as [Hc Hs]. rewrite IH by done. by destruct (is_space c).
Qed.

(** A value that can be written in a spec. *)
Definition spec_value (s : string) : bool := no_space s && no_char "," s.

Lemma spec_field_ok s out key v :
  no_space key = true → no_char "=" key = true → key ≠ "" → spec_value v = true →
  spec_field s out (key +:+ "=" +:+ v) =
    (let set := λ n a z u l, Ok (mkNodeSpec n a z u l) in
     if decide (key = "name") then set v (ns_arch out) (ns_zone out) (ns_zunAZ out) (ns_listen out)
     else if decide (key = "arch") then set (ns_name out) v (ns_zone out) (ns_zunAZ out) (ns_listen out)
     else if decide (key = "zone") then set (ns_name out) (ns_arch out) v (ns_zunAZ out) (ns_listen out)
     else if decide (key = "zun-az") then set (ns_name out) (ns_arch out) (ns_zone out) v (ns_listen out)
     else if decide (key = "listen") then set (ns_name out) (ns_arch out) (ns_zone out) (ns_zunAZ out) v
     else Err (ErrMsg ("node spec " +:+ go_quote s +:+ ": unknown field " +:+ go_quote key +:+
        "; want name, arch, zone, zun-az or listen"))).
Proof.
  intros Hk He Hne Hv. apply andb_true_iff in Hv as [Hv _]. unfold spec_field.
  rewrite (TrimSpace_no_space (key +:+ _))
    by (rewrite !no_space_app, Hk, Hv; done).
  rewrite decide_False by (by destruct key).
  change ("=" +:+ v) with (String "=" v). rewrite cut_char_app by done.
  by rewrite !TrimSpace_no_space.
Qed.

(** A node spec is read back as it is written, whatever the defaults, and
    every spec that is accepted names its node: what a field leaves out comes
    from the defaults, the name never does. *)
Theorem parseNodeSpec_roundtrip (n defaults : nodeSpec) :
  ns_name n ≠ "" →
  forallb spec_value [ns_name n; ns_arch n; ns_zone n; ns_zunAZ n; ns_listen n] = true →
  parseNodeSpec (print_spec n) defaults = Ok n ∧
  parseNodeSpec ("name=" +:+ ns_name n) defaults =
    Ok (mkNodeSpec (ns_name n) (ns_arch defaults) (ns_zone defaults) (ns_zunAZ defaults)
          (ns_listen defaults)).
Proof.
  intros Hn Hv. cbn [forallb] in Hv. rewrite !andb_true_iff in Hv.
  destruct Hv as (H1 & H2 & H3 & H4 & H5 & _).
  assert (∀ key v, no_char "," key = true → spec_value v = true →
    no_char "," (key +:+ "=" +:+ v) = true) as Hc.
  { intros key v Hk [_ Hv]%andb_true_iff. by rewrite !no_char_app, Hk, Hv. }
  assert (∀ s out key v, key ∈ ["name"; "arch"; "zone"; "zun-az"; "listen"] →
    spec_value v = true → spec_field s out (key +:+ "=" +:+ v) = Ok (mkNodeSpec
      (if decide (key = "name") then v else ns_name out)
      (if decide (key = "arch") then v else ns_arch out)
      (if decide (key = "zone") then v else ns_zone out)
      (if decide (key = "zun-az") then v else ns_zunAZ out)
      (if decide (key = "listen") then v else ns_listen out))) as Hfld.
  { intros s out key v Hk Hv. rewrite !elem_of_cons, elem_of_nil in Hk.
    destruct Hk as [->|[->|[->|[->|[->|[]]]]]]; by rewrite spec_field_ok. }
  split; unfold parseNodeSpec, mbind, result_bind.
  - assert (split_char "," (print_spec n) = ["name" +:+ "=" +:+ ns_name n;
      "arch" +:+ "=" +:+ ns_arch n; "zone" +:+ "=" +:+ ns_zone n;
      "zun-az" +:+ "=" +:+ ns_zunAZ n; "listen" +:+ "=" +:+ ns_listen n]) as ->.
    { transitivity (split_char "," (("name" +:+ "=" +:+ ns_name n) +:+ String ","
        (("arch" +:+ "=" +:+ ns_arch n) +:+ String "," (("zone" +:+ "=" +:+ ns_zone n) +:+ String ","
        (("zun-az" +:+ "=" +:+ ns_zunAZ n) +:+ String "," ("listen" +:+ "=" +:+ ns_listen n)))))).
      - unfold print_spec. by rewrite !string_app_assoc.
      - rewrite !split_char_app, split_char_none by (by apply Hc). done. }
    cbn [fold_result]. unfold mbind, result_bind.
    rewrite !Hfld by (done || set_solver). simpl. rewrite decide_False by done. by destruct n.
  - change ("name=" +:+ ns_name n) with ("name" +:+ "=" +:+ ns_name n).
    rewrite (split_char_none _ _ (Hc "name" (ns_name n) eq_refl H1)).
    cbn [fold_result]. unfold mbind, result_bind.
    rewrite Hfld by (done || set_solver). simpl. by rewrite decide_False.
Qed.

Lemma parseNodeSpec_roundtrip_witness :
  parseNodeSpec "name=edge-1,arch=arm64,zone=z1,zun-az=nova,listen=:10250"
    (mkNodeSpec "x" "amd64" "" "" "") = Ok (mkNodeSpec "edge-1" "arm64" "z1" "nova" ":10250").
Proof.
  apply (parseNodeSpec_roundtrip (mkNodeSpec "edge-1" "arm64" "z1" "nova" ":10250")
    (mkNodeSpec "x" "amd64" "" "" "")); [done|reflexivity].
Defined.

(** The node a tenant registers keeps other workloads off and is found by
    its own: it carries the well-known labels with their defaults, exactly one
    taint when it names a tenant or a shard -- the tenant's first --, its zone
    and region where it has them, and it registers not ready. *)
Theorem Build_identity (o : NodeOptions) (now : Time) :
  let n := Build o now in
  n_Labels n !! "kubernetes.io/hostname" = Some (no_Name o) ∧
  n_Labels n !! "kubernetes.io/os" = Some (str_or (no_OS o) "linux") ∧
  n_Labels n !! "kubernetes.io/arch" = Some (str_or (no_Arch o) "amd64") ∧
  n_Labels n !! "type" = Some "virtual-kubelet" ∧
  n_Labels n !! PoolLabelKey = (if decide (no_Tenant o ≠ "") then Some (no_Tenant o) else None) ∧
  n_Labels n !! ShardLabelKey = (if decide (no_Shard o ≠ "") then Some (no_Shard o) else None) ∧
  n_Labels n !! LabelZone = (if decide (no_Zone o ≠ "") then Some (no_Zone o) else None) ∧
  n_Labels n !! LabelRegion = (if decide (no_Region o ≠ "") then Some (no_Region o) else None) ∧
  (∀ t, t ∈ n_Taints n ↔ taint_Effect t = "NoSchedule" ∧
     ((no_Tenant o ≠ "" ∧ taint_Key t = TenantTaintKey ∧ taint_Value t = no_Tenant o) ∨
      (no_Tenant o = "" ∧ no_Shard o ≠ "" ∧ taint_Key t = ServerlessTaintKey ∧
       taint_Value t = "true"))) ∧
  says n false.
Proof.
  cbv zeta. unfold Build, node_labels, insert_unless_empty. cbn [n_Labels n_Taints].
  do 8 (split; [repeat case_decide; simplify_map_eq; done|]). split; [|by eexists].
  intros [k v e]. destruct (decide (no_Tenant o ≠ "")) as [Ht|Ht].
  - rewrite list_elem_of_singleton. simpl. naive_solver.
  - destruct (decide (no_Shard o ≠ "")) as [Hs|Hs].
    + rewrite list_elem_of_singleton. simpl.
      assert (no_Tenant o = "") by (by apply dec_stable). naive_solver.
    + rewrite elem_of_nil. simpl. naive_solver.
Qed.
