(* ===== verification/ProviderStreams.v ===== *)
(** * pkg/provider/logfollow.go, the rates of stats.go, pkg/zun/logs.go

    A followed log as a cursor over repeated whole reads, the command line an
    exec is sent as, and CPU counters turned into rates on 64-bit integers. *)

From S2P Require Import Prelude GoStd K8s ZunCapsule.
From Stdlib Require Import Ascii.

Local Open Scope string_scope.
Local Open Scope list_scope.
#[local] Arguments String.append : simpl nomatch.

(** ** CPU rates *)

(** [uint64] arithmetic keeps the low 64 bits. *)
Definition wrap_u64 (n : Z) : Z := (n mod 2 ^ 64)%Z.

Record ContainerStats := mkStats {
  st_ContainerID : string;
  st_Name : string;
  st_Timestamp : Z;                 (* int64 nanoseconds *)
  st_CPUUsageCoreNanoseconds : Z;   (* uint64 *)
  st_MemoryWorkingSetBytes : Z;     (* uint64 *)
  st_MemoryUsageBytes : Z }.        (* uint64 *)

Record reading := mkReading { rd_at : Z; rd_coreNanos : Z; rd_generation : string }.

Abbreviation rates := (gmap string reading).

Definition observe (r : rates) (key : string) (s : ContainerStats) : rates * option Z :=
  let prev := r !! key in
  let r' := <[key := mkReading (st_Timestamp s) (st_CPUUsageCoreNanoseconds s)
                       (st_ContainerID s)]> r in
  match prev with
  | None => (r', None)
  | Some prev =>
      if decide (rd_generation prev ≠ st_ContainerID s) then (r', None)
      else if decide (st_Timestamp s ≤ rd_at prev ∨
                      st_CPUUsageCoreNanoseconds s < rd_coreNanos prev)%Z then (r', None)
      else
        let elapsed := wrap_u64 (st_Timestamp s - rd_at prev) in
        let used := wrap_u64 (st_CPUUsageCoreNanoseconds s - rd_coreNanos prev) in
        (r', Some (wrap_u64 (used * second) / elapsed)%Z)
  end.

Definition forget (r : rates) (live : gset string) : rates :=
  filter (λ kv : string * reading, kv.1 ∈ live) r.

(** ** Following a log *)
Section logs.
(** Whether [time.Parse(time.RFC3339Nano, _)] accepts. *)
Variable rfc3339 : string → bool.

Definition newline : ascii := ascii_of_nat 10.

Definition timestampOf (line : string) : string :=
  match cut line " " with
  | Some (stamp, _) => if decide (stamp = "") then "" else if rfc3339 stamp then stamp else ""
  | None => ""
  end.

Definition str_lt (a b : string) : Prop := ¬ String.le b a.
#[local] Instance str_lt_dec a b : Decision (str_lt a b).
Proof. unfold str_lt. apply _. Defined.

Definition line_step (cursor : string) (st : list string * string) (line : string)
    : list string * string :=
  let '(lines, newest) := st in
  if decide (line = "") then st
  else
    let stamp := timestampOf line in
    if decide (stamp = "") then st
    else if decide (cursor ≠ "" ∧ String.le stamp cursor) then st
    else (lines ++ [line], if decide (str_lt newest stamp) then stamp else newest).

Definition linesAfter (raw cursor : string) : list string * string :=
  fold_left (line_step cursor) (split_char newline raw) ([], cursor).

Definition render_line (keepTimestamps : bool) (line : string) : string :=
  let line := if keepTimestamps then line
              else match cut line " " with
                   | Some (stamp, rest) => if decide (stamp = "") then line else rest
                   | None => line
                   end in
  line +:+ String newline "".

Definition render (lines : list string) (keepTimestamps : bool) : string :=
  foldr (λ l s, render_line keepTimestamps l +:+ s) "" lines.

Record LogOptions := mkLogOptions {
  lo_Container : string; lo_Tail : Z; lo_Since : Time; lo_Timestamps : bool }.

(** [followLogs]: what is written, one element per poll, when the polls are
    answered as [read] answers them -- given the options and how many polls
    came before.  The stream ends with the first poll that fails. *)
Fixpoint follow_loop (polls : nat) (read : nat → LogOptions → option string) (wanted : bool)
    (n : nat) (poll : LogOptions) (last : string) : list string :=
  match polls with
  | O => []
  | S polls =>
      match read n poll with
      | None => []
      | Some raw =>
          let '(fresh, newest) := linesAfter raw last in
          let last := if decide (newest ≠ "") then newest else last in
          render fresh wanted ::
            follow_loop polls read wanted (S n)
              (mkLogOptions (lo_Container poll) 0 None (lo_Timestamps poll)) last
      end
  end.

Definition followLogs (polls : nat) (read : nat → LogOptions → option string)
    (opts : LogOptions) : list string :=
  follow_loop polls read (lo_Timestamps opts) 0
    (mkLogOptions (lo_Container opts) (lo_Tail opts) (lo_Since opts) true) "".

(** The stream's bytes. *)
Definition stream (l : list string) : string := foldr String.append "" l.

(** ** pkg/zun/logs.go *)

(** The query [Logs] asks with. *)
Definition log_query (opts : LogOptions) : list (string * string) :=
  (if decide (lo_Container opts ≠ "") then [("container", lo_Container opts)] else []) ++
  (if decide (0 < lo_Tail opts)%Z then [("tail", pretty (lo_Tail opts))] else []) ++
  (match lo_Since opts with Some t => [("since", pretty (t / second)%Z)] | None => [] end) ++
  (if lo_Timestamps opts then [("timestamps", "True")] else []).

(** The container an index of the pod's spec stands for. *)
Definition container_at (c : Capsule) (index : Z) : result CapsuleContainer :=
  match (if decide (0 ≤ index)%Z then cap_Containers c !! Z.to_nat index else None) with
  | Some cc => Ok cc
  | None => Err (ErrWrap ("the capsule has " +:+ pretty (length (cap_Containers c)) +:+
      " containers, so there is none at position " +:+ pretty index) ErrNotFound)
  end.

Section calls.
Context {W : Type} `{!CapsuleHTTP W}.
Variable http_Logs : string → list (string * string) → M W string.
Variable http_Execute : string → list (string * string) → M W (string * Z).

Definition LogsForPod (podUID : string) (index : Z) (opts : LogOptions) : M W string :=
  if decide (podUID = "") then fail (ErrMsg "a pod UID is required to find its capsule")
  else
    let name := "kubezun-" +:+ podUID in
    capsule ← Capsule_Get name;
    cc ← lift_result (container_at capsule index);
    translated (http_Logs name (log_query
      (mkLogOptions (cc_UUID cc) (lo_Tail opts) (lo_Since opts) (lo_Timestamps opts)))).

Fixpoint escape_quotes (s : string) : string :=
  match s with
  | EmptyString => ""
  | String c s' =>
      (if decide (c = "'"%char) then "'" +:+ dquote +:+ "'" +:+ dquote +:+ "'" else String c "")
        +:+ escape_quotes s'
  end.
Definition shellQuote (cmd : list string) : string :=
  join " " (map (λ arg, "'" +:+ escape_quotes arg +:+ "'") cmd).

Definition Exec (podUID : string) (index : Z) (cmd : list string) : M W (string * Z) :=
  if decide (podUID = "") then fail (ErrMsg "a pod UID is required to find its capsule")
  else if decide (cmd = []) then fail (ErrMsg "a command is required")
  else
    let name := "kubezun-" +:+ podUID in
    capsule ← Capsule_Get name;
    cc ← lift_result (container_at capsule index);
    translated (http_Execute name
      [("container", cc_UUID cc); ("command", shellQuote cmd); ("run", "True")]).
End calls.
End logs.

(** ** How a shell splits the quoted command

    The words of a line of single- and double-quoted and bare pieces, the part
    of a POSIX shell's quoting that [shellQuote] uses: in single quotes
    everything is itself, in double quotes too up to the closing quote. *)
Inductive quoting := Bare | Single | Double.

Fixpoint shell_words (q : quoting) (word : option string) (s : string) : option (list string) :=
  match s with
  | EmptyString =>
      match q, word with
      | Bare, None => Some []
      | Bare, Some w => Some [w]
      | _, _ => None
      end
  | String c s' =>
      let put := Some (default "" word +:+ String c "") in
      match q with
      | Bare =>
          if decide (c = "'"%char) then shell_words Single (Some (default "" word)) s'
          else if decide (c = ascii_of_nat 34) then shell_words Double (Some (default "" word)) s'
          else if decide (c = " "%char) then
            match word with
            | None => shell_words Bare None s'
            | Some w => cons w <$> shell_words Bare None s'
            end
          else shell_words Bare put s'
      | Single =>
          if decide (c = "'"%char) then shell_words Bare word s'
          else shell_words Single put s'
      | Double =>
          if decide (c = ascii_of_nat 34) then shell_words Bare word s'
          else shell_words Double put s'
      end
  end.

(** ** Lemmas: quoting *)

Lemma shell_single w arg rest :
  shell_words Single (Some w) (escape_quotes arg +:+ String "'" rest) =
  shell_words Bare (Some (w +:+ arg)) rest.
Proof.
  revert w. induction arg as [|c arg IH]; intros w.
  - simpl. by rewrite string_app_nil_r.
  - cbn [escape_quotes]. destruct (decide (c = "'"%char)) as [->|Hc].
    + change (shell_words Single (Some (w +:+ "'"))
        (escape_quotes arg +:+ String "'" rest) = shell_words Bare (Some (w +:+ String "'" arg)) rest).
      rewrite IH, string_app_assoc. done.
    + simpl. rewrite decide_False by done. simpl. rewrite IH, string_app_assoc. done.
Qed.

Lemma shell_word arg rest :
  shell_words Bare None ("'" +:+ escape_quotes arg +:+ String "'" rest) =
  shell_words Bare (Some arg) rest.
Proof. simpl. by rewrite shell_single. Qed.

Lemma shellQuote_words cmd : shell_words Bare None (shellQuote cmd) = Some cmd.
Proof.
  unfold shellQuote. induction cmd as [|a [|b cmd] IH]; [done| |].
  - exact (shell_word a "").
  - set (rest := join " " (map _ (b :: cmd))) in *.
    transitivity (shell_words Bare None
      ("'" +:+ escape_quotes a +:+ String "'" (String " " rest))).
    + f_equal. change (("'" +:+ escape_quotes a +:+ "'") +:+ " " +:+ rest =
        "'" +:+ escape_quotes a +:+ ("'" +:+ " " +:+ rest)). by rewrite !string_app_assoc.
    + rewrite shell_word. simpl. by rewrite IH.
Qed.

(** ** Lemmas: the cursor *)
Section cursor.
Variable rfc3339 : string → bool.
Local Abbreviation stamp := (timestampOf rfc3339).

(** A log as the runtime writes it: whole lines, each with a time stamp later
    than the one before. *)
Definition text (l : list string) : string := foldr (λ x s, x +:+ String newline s) "" l.

Definition written (all : list string) : Prop :=
  Forall (λ x, no_char newline x = true ∧ stamp x ≠ "") all ∧
  StronglySorted str_lt (map stamp all).

Lemma stamped_nonempty x : stamp x ≠ "" → x ≠ "".
Proof. intros H ->. by apply H. Qed.


Lemma split_text l :
  Forall (λ x, no_char newline x = true) l → split_char newline (text l) = l ++ [""].
Proof.
  induction 1 as [|x l Hx _ IH]; [done|]. simpl. by rewrite split_char_app, IH.
Qed.

Lemma str_le_refl a : String.le a a.
Proof. apply (reflexivity (R := String.le)). Qed.

Lemma str_lt_trans a b c : str_lt a b → str_lt b c → str_lt a c.
Proof.
  unfold str_lt. intros H1 H2 H3. apply H2.
  destruct (total String.le b a) as [?|?]; [done|]. by transitivity a.
Qed.

Lemma str_lt_le a b : str_lt a b → String.le a b.
Proof. unfold str_lt. destruct (total String.le a b); [done|]. by intros ?. Qed.
Lemma str_lt_empty a : a ≠ "" → str_lt "" a.
Proof. destruct a; [done|]. intros _ H. by vm_compute in H. Qed.

(** Lines already seen are passed over; later ones are all taken, and the last
    one's stamp is the new cursor. *)
Lemma fold_seen cursor pre st :
  cursor ≠ "" → Forall (λ x, String.le (stamp x) cursor) pre →
  fold_left (line_step rfc3339 cursor) pre st = st.
Proof.
  intros Hc. induction 1 as [|x pre Hx _ IH]; [done|]. simpl.
  replace (line_step rfc3339 cursor st x) with st; [done|].
  unfold line_step. destruct st. repeat (destruct (decide _); [done|]).
  exfalso. by apply n1.
Qed.

Lemma fold_fresh cursor post acc newest :
  Forall (λ x, stamp x ≠ "" ∧ (cursor = "" ∨ str_lt cursor (stamp x))) post →
  StronglySorted str_lt (map stamp post) → Forall (λ x, str_lt newest (stamp x)) post →
  fold_left (line_step rfc3339 cursor) post (acc, newest) =
  (acc ++ post, default newest (stamp <$> last post)).
Proof.
  revert acc newest. induction post as [|x post IH]; intros acc newest Hp Hs Hn.
  { simpl. by rewrite app_nil_r. }
  cbn [fold_left].
  inversion Hp as [|? ? [Hx Hcx] Hp']; subst. inversion Hn as [|? ? Hnx Hn']; subst.
  simpl in Hs. apply StronglySorted_inv in Hs as [Hs Hall].
  replace (line_step rfc3339 cursor (acc, newest) x) with (acc ++ [x], stamp x).
  - assert (Forall (λ y, str_lt (stamp x) (stamp y)) post) as Hx'.
    { rewrite Forall_forall in *. intros y Hy. by apply Hall, list_elem_of_fmap_2. }
    rewrite IH by done.
    rewrite <-app_assoc, last_cons. by destruct (last post).
  - unfold line_step. rewrite (decide_False (P := x = "")) by (by apply stamped_nonempty).
    rewrite (decide_False (P := stamp x = "")) by done.
    rewrite decide_False by (intros [Hc Hle]; destruct Hcx as [?|Hlt]; [done|by apply Hlt]).
    by rewrite decide_True.
Qed.

Section polls.
Local Open Scope nat_scope.
Variable all : list string.
Hypothesis Hall : written all.

Definition cursor_at (j : nat) : string := default "" (stamp <$> last (take j all)).

Lemma stamp_at x : x ∈ all → no_char newline x = true ∧ stamp x ≠ "".
Proof. destruct Hall as [H _]. rewrite Forall_forall in H. apply H. Qed.

Lemma written_app l1 l2 :
  all = l1 ++ l2 → ∀ x y, x ∈ l1 → y ∈ l2 → str_lt (stamp x) (stamp y).
Proof.
  intros -> x y Hx Hy. destruct Hall as [_ Hs]. rewrite map_app in Hs.
  apply StronglySorted_app in Hs as (H & _ & _).
  apply H; by apply list_elem_of_fmap_2.
Qed.

Lemma sorted_part l1 l2 l3 : all = l1 ++ l2 ++ l3 → StronglySorted str_lt (map stamp l2).
Proof.
  intros He. destruct Hall as [_ Hs]. rewrite He, !map_app in Hs.
  apply StronglySorted_app in Hs as (_ & _ & Hs). by apply StronglySorted_app in Hs as (_ & Hs & _).
Qed.

Lemma cursor_le j x : x ∈ take j all → String.le (stamp x) (cursor_at j) ∧ cursor_at j ≠ "".
Proof.
  unfold cursor_at. intros Hx. destruct (last (take j all)) as [y|] eqn:Hl;
    [|by apply last_None in Hl; rewrite Hl in Hx; apply elem_of_nil in Hx].
  apply last_Some in Hl as [l Hl]. simpl. split.
  - rewrite Hl, elem_of_app, list_elem_of_singleton in Hx.
    destruct Hx as [Hx| ->]; [|apply str_le_refl]. apply str_lt_le.
    apply (written_app l (y :: drop j all)); [|done|by left].
    rewrite <-(take_drop j all) at 1. by rewrite Hl, <-app_assoc.
  - apply stamp_at. rewrite <-(take_drop j all), Hl. set_solver.
Qed.

Lemma cursor_at_0 : cursor_at 0 = "".
Proof. done. Qed.

Lemma last_drop_take j m :
  j ≤ m → default (cursor_at j) (stamp <$> last (drop j (take m all))) = cursor_at m.
Proof.
  intros Hj. unfold cursor_at at 2.
  assert (take m all = take j all ++ drop j (take m all)) as Ht.
  { rewrite <-(take_drop j (take m all)) at 1. by rewrite take_take, Nat.min_l. }
  rewrite Ht at 2. rewrite last_app. by destruct (last (drop j (take m all))).
Qed.

(** One poll that answers with the lines from the [k]-th to the [m]-th, the
    first [j] having been shown: it shows the rest. *)
Lemma poll_from k j m :
  k ≤ j ≤ m →
  linesAfter rfc3339 (text (drop k (take m all))) (cursor_at j) =
  (drop j (take m all), cursor_at m).
Proof.
  intros [Hk Hj]. unfold linesAfter.
  set (post := drop j (take m all)). set (pre := drop k (take j all)).
  assert (all = take j all ++ post ++ drop m all) as Hsplit.
  { rewrite app_assoc. rewrite <-(take_drop m all) at 1. f_equal. unfold post.
    rewrite <-(take_drop j (take m all)) at 1. by rewrite take_take, Nat.min_l. }
  assert (drop k (take m all) = pre ++ post) as ->.
  { unfold pre, post. rewrite <-(take_drop j (take m all)) at 1.
    rewrite take_take, (Nat.min_l j m) by done.
    destruct (decide (k ≤ length (take j all))) as [Hl|Hl]; [by rewrite drop_app_le|].
    rewrite length_take in Hl. rewrite (drop_ge (take j all)) by (rewrite length_take; lia).
    rewrite !drop_ge; [done|rewrite length_take; lia|].
    rewrite length_app, length_take, length_drop, length_take. lia. }
  assert (∀ x, x ∈ pre → x ∈ take j all) as Hpre
    by (intros x Hx; rewrite <-(take_drop k (take j all)); apply elem_of_app; by right).
  assert (∀ x, x ∈ post → x ∈ all) as Hpost by (intros x Hx; rewrite Hsplit; set_solver).
  rewrite split_text, !fold_left_app.
  2: { apply Forall_app; split; apply Forall_forall; intros x Hx; apply stamp_at; [|by auto].
       rewrite <-(take_drop j all). apply elem_of_app. left. auto. }
  assert (fold_left (line_step rfc3339 (cursor_at j)) pre ([], cursor_at j) = ([], cursor_at j)) as ->.
  { destruct pre as [|x pre'] eqn:Hp; [done|]. apply fold_seen.
    - apply (cursor_le j x). apply Hpre. by left.
    - apply Forall_forall. intros y Hy. by apply cursor_le, Hpre. }
  assert (∀ x, x ∈ post → str_lt (cursor_at j) (stamp x)) as Hlt.
  { intros x Hx. unfold cursor_at. destruct (last (take j all)) as [y|] eqn:Hl; simpl.
    - apply (written_app (take j all) (post ++ drop m all)); [done| |set_solver].
      apply last_Some in Hl as [l ->]. set_solver.
    - by apply str_lt_empty, stamp_at, Hpost. }
  rewrite fold_fresh.
  - simpl. unfold post. by rewrite last_drop_take.
  - apply Forall_forall. intros x Hx. split; [by apply stamp_at, Hpost|]. right. by apply Hlt.
  - by apply (sorted_part (take j all) post (drop m all)).
  - apply Forall_forall. apply Hlt.
Qed.

Lemma render_app l1 l2 b : render (l1 ++ l2) b = render l1 b +:+ render l2 b.
Proof. induction l1 as [|x l1 IH]; [done|]. simpl. by rewrite IH, string_app_assoc. Qed.

(** How far the log had been read when the polls are over. *)
Fixpoint read_to (m : nat → nat) (polls n j : nat) : nat :=
  match polls with O => j | S polls => read_to m polls (S n) (m n) end.

Lemma read_to_le m polls n j : (∀ i, m i ≤ m (S i)) → j ≤ m n → j ≤ read_to m polls n j.
Proof.
  intros Hm. revert n j. induction polls as [|polls IH]; intros n j Hj; simpl; [done|].
  transitivity (m n); [done|]. apply IH, Hm.
Qed.

Lemma follow_rest m read polls wanted n poll j :
  (∀ i, m i ≤ m (S i)) → (∀ i o, 0 < i → read i o = Some (text (take (m i) all))) →
  0 < n → j ≤ m n →
  stream (follow_loop rfc3339 polls read wanted n poll (cursor_at j)) =
  render (drop j (take (read_to m polls n j) all)) wanted.
Proof.
  intros Hm Hread. revert n poll j. induction polls as [|polls IH]; intros n poll j Hn Hj; simpl.
  { by rewrite drop_ge by (rewrite length_take; lia). }
  rewrite Hread by done. pose proof (poll_from 0 j (m n) ltac:(lia)) as Hp.
  rewrite drop_0 in Hp. rewrite Hp. cbv beta iota.
  assert ((if decide (cursor_at (m n) ≠ "") then cursor_at (m n) else cursor_at j) =
    cursor_at (m n)) as ->.
  { case_decide as Hc; [done|]. rewrite Hc.
    destruct (take j all) as [|x l] eqn:Hl; [unfold cursor_at; by rewrite Hl|].
    destruct (cursor_le (m n) x) as [_ Hne]; [|done].
    rewrite <-(take_drop j (take (m n) all)), take_take, Nat.min_l, Hl by done. by left. }
  simpl. rewrite IH by (try lia; apply Hm). rewrite <-render_app. f_equal.
  set (f := read_to m polls (S n) (m n)).
  assert (m n ≤ f) as Hf by (apply read_to_le; [done|apply Hm]).
  rewrite <-(take_drop (m n) (take f all)) at 2. rewrite take_take, (Nat.min_l (m n) f) by done.
  destruct (decide (j ≤ length (take (m n) all))) as [Hl|Hl]; [by rewrite drop_app_le|].
  rewrite length_take in Hl.
  rewrite !drop_ge; [done|..]; repeat (rewrite length_app || rewrite length_drop ||
    rewrite length_take); simpl; lia.
Qed.
End polls.
End cursor.

(** ** Lemmas: rates *)
Lemma wrap_u64_id n : (0 ≤ n < 2 ^ 64)%Z → wrap_u64 n = n.
Proof. apply Z.mod_small. Qed.

(** ** Properties *)

(** A command reaches the container as it was given: the one string an exec
    sends is split by the shell into exactly the arguments of the command,
    whatever spaces and quotes they hold. *)
Theorem shellQuote_roundtrip (cmd : list string) :
  shell_words Bare None (shellQuote cmd) = Some cmd.
Proof. apply shellQuote_words. Qed.

(** A followed log is the log: where every poll answers with the log as it
    has grown, the lines stamped in increasing order, what the stream has
    written after any number of polls is every line from the first one the
    first poll answered with to the last one there is, once each and in order.
    The first poll may start anywhere but behind the log's end: a first answer
    with no line of a log that has some is excluded. *)
Theorem followLogs_exact (rfc3339 : string → bool) (all : list string) (m : nat → nat)
    (first polls : nat) (read : nat → LogOptions → option string) (opts : LogOptions) :
  written rfc3339 all →
  (∀ i, (m i ≤ m (S i) ≤ length all)%nat) →
  (first = 0 ∨ first < m 0 ≤ length all)%nat →
  (∀ o, read 0%nat o = Some (text (drop first (take (m 0%nat) all)))) →
  (∀ i o, (0 < i)%nat → read i o = Some (text (take (m i) all))) →
  stream (followLogs rfc3339 (S polls) read opts) =
  render (drop first (take (m polls) all)) (lo_Timestamps opts).
Proof.
  intros Hall Hm Hfirst Hr0 Hr. unfold followLogs. cbn [follow_loop]. rewrite Hr0.
  assert (∀ i, (m i ≤ m (S i))%nat) as Hm' by (intros i; apply Hm).
  assert (first ≤ m 0)%nat as Hle by lia.
  set (l := drop first (take (m 0%nat) all)).
  assert (all = take first (take (m 0%nat) all) ++ l ++ drop (m 0%nat) all) as Hl
    by (unfold l; by rewrite app_assoc, take_drop, take_drop).
  assert (written rfc3339 l) as Hwl.
  { split; [|by eapply (sorted_part rfc3339 all Hall)].
    apply Forall_forall. intros x Hx. apply (stamp_at rfc3339 all Hall). rewrite Hl. set_solver. }
  pose proof (poll_from rfc3339 l Hwl 0 0 (length l) ltac:(lia)) as Hp.
  rewrite !drop_0, !firstn_all, cursor_at_0 in Hp. rewrite Hp. cbv beta iota.
  assert (cursor_at rfc3339 l (length l) = cursor_at rfc3339 all (m 0%nat)) as Hc.
  { unfold cursor_at. rewrite firstn_all. f_equal. f_equal. unfold l.
    destruct Hfirst as [->|Hfirst]; [done|].
    rewrite <-(take_drop first (take (m 0%nat) all)) at 2. rewrite last_app.
    destruct (last (drop _ _)) eqn:He; [done|]. apply last_None in He.
    apply (f_equal length) in He. rewrite length_drop, length_take in He. simpl in He. lia. }
  rewrite Hc. assert ((if decide (cursor_at rfc3339 all (m 0%nat) ≠ "")
    then cursor_at rfc3339 all (m 0%nat) else "") = cursor_at rfc3339 all (m 0%nat)) as ->
    by (case_decide as Hd; [done|by rewrite Hd]).
  simpl. rewrite (follow_rest rfc3339 all Hall m) by (try done; lia || apply Hm).
  rewrite <-render_app. f_equal.
  assert (∀ n p, read_to m p (S n) (m n) = m (n + p)%nat) as Hto.
  { intros n p. revert n. induction p as [|p IH]; intros n; simpl; [by rewrite Nat.add_0_r|].
    rewrite IH. f_equal. lia. }
  rewrite (Hto 0%nat polls). simpl.
  assert (m 0 ≤ m polls)%nat as Hmp
    by (clear -Hm'; induction polls as [|p IH]; [done|]; etransitivity; [exact IH|apply Hm']).
  rewrite <-(take_drop (m 0%nat) (take (m polls) all)) at 2.
  rewrite take_take, (Nat.min_l (m 0%nat)) by done. unfold l.
  rewrite drop_app_le; [done|]. rewrite length_take. specialize (Hm 0%nat). lia.
Qed.

(** The rate of a container's CPU is reported only between two readings of
    the same container, the later one later on the clock and not lower on the
    counter, and it is then the used core time over the elapsed time, rounded
    down, in nanocores -- provided the used core time is below 2^64 / 10^9
    nanoseconds, eighteen seconds.  Every reading replaces the one before. *)
Theorem observe_correct (r : rates) (key : string) (s : ContainerStats) :
  (- 2 ^ 63 ≤ st_Timestamp s < 2 ^ 63)%Z → (0 ≤ st_CPUUsageCoreNanoseconds s < 2 ^ 64)%Z →
  (∀ k p, r !! k = Some p → (- 2 ^ 63 ≤ rd_at p < 2 ^ 63)%Z ∧ (0 ≤ rd_coreNanos p < 2 ^ 64)%Z) →
  (observe r key s).1 = <[key := mkReading (st_Timestamp s) (st_CPUUsageCoreNanoseconds s)
                                   (st_ContainerID s)]> r ∧
  match (observe r key s).2 with
  | None => ∀ p, r !! key = Some p → rd_generation p = st_ContainerID s →
      (st_Timestamp s ≤ rd_at p ∨ st_CPUUsageCoreNanoseconds s < rd_coreNanos p)%Z
  | Some rate => ∃ p, r !! key = Some p ∧ rd_generation p = st_ContainerID s ∧
      (rd_at p < st_Timestamp s)%Z ∧
      let used := (st_CPUUsageCoreNanoseconds s - rd_coreNanos p)%Z in
      (0 ≤ used)%Z ∧
      ((used * second < 2 ^ 64)%Z → rate = (used * second / (st_Timestamp s - rd_at p))%Z)
  end.
Proof.
  intros Ht Hc Hr. unfold observe. destruct (r !! key) as [p|] eqn:Hp; [|by split].
  destruct (Hr key p Hp) as [Hpt Hpc].
  destruct (decide (rd_generation p ≠ st_ContainerID s)) as [Hg|Hg].
  { split; [done|]. simpl. intros p' [= <-] He. done. }
  apply dec_stable in Hg.
  destruct (decide (st_Timestamp s ≤ rd_at p ∨
    st_CPUUsageCoreNanoseconds s < rd_coreNanos p)%Z) as [Hd|Hd].
  { split; [done|]. simpl. by intros p' [= <-] _. }
  split; [done|]. simpl. exists p. split; [done|]. split; [done|].
  apply Decidable.not_or in Hd as [Hd1 Hd2]. split; [lia|]. split; [lia|].
  intros Hov. rewrite !(wrap_u64_id (_ - _)) by lia. by rewrite wrap_u64_id by (unfold second in *; lia).
Qed.

(** ** What goes wrong outside those bounds *)

(** One core for twenty seconds is reported as less than a tenth of one. *)
Theorem observe_overflow :
  (observe {["c" := mkReading 0 0 "id"]} "c"
    (mkStats "id" "c" 20000000000 20000000000 0 0)).2 = Some 77662796%Z.
Proof. reflexivity. Qed.

(** A first poll that answers with nothing -- a quiet container followed with
    [since] -- is followed by the whole log. *)
Theorem followLogs_replays (line : string) :
  let rfc3339 := λ _ : string, true in
  let read := λ (n : nat) (o : LogOptions),
    Some (match lo_Since o with
          | Some _ => ""
          | None => text ["2026-01-01T00:00:00.1Z old"]
          end) in
  stream (followLogs rfc3339 2 read (mkLogOptions "" 0 (Some 1769904000000000000%Z) false)) =
  "old" +:+ String newline "".
Proof. reflexivity. Qed.

(** RFC3339Nano drops trailing zeros, and then the strings do not sort as the
    times do: a later line is taken for one already shown. *)
Theorem linesAfter_loses :
  linesAfter (λ _, true) (text ["2026-01-01T00:00:00.1Z a"; "2026-01-01T00:00:00.12Z b"])
    "2026-01-01T00:00:00.1Z" = ([], "2026-01-01T00:00:00.1Z").
Proof. reflexivity. Qed.

(** ** Witnesses *)
Lemma followLogs_exact_witness :
  let rfc3339 := λ _ : string, true in
  let all := ["01 a"; "02 b"; "03 c"] in
  let m := λ n : nat, match n with O => 2%nat | _ => 3%nat end in
  let read := λ (n : nat) (o : LogOptions),
    Some (if decide (n = 0%nat) then text (drop 1 (take (m n) all)) else text (take (m n) all)) in
  stream (followLogs rfc3339 2 read (mkLogOptions "" 1 None false)) =
  "b" +:+ String newline ("c" +:+ String newline "").
Proof.
  cbv zeta.
  rewrite (followLogs_exact (λ _ : string, true) ["01 a"; "02 b"; "03 c"]
    (λ n : nat, match n with O => 2%nat | _ => 3%nat end) 1 1); [reflexivity|..].
  - split; [repeat constructor; done|].
    repeat constructor; unfold str_lt; vm_compute; by intros ?.
  - intros [|i]; simpl; lia.
  - right. simpl. lia.
  - intros o. done.
  - intros i o Hi. by rewrite decide_False by lia.
Defined.

Lemma observe_correct_witness :
  (observe {["c" := mkReading 0 0 "id"]} "c" (mkStats "id" "c" 2000000000 1000000000 0 0)).2 =
  Some 500000000%Z.
Proof.
  destruct (observe_correct {["c" := mkReading 0 0 "id"]} "c"
    (mkStats "id" "c" 2000000000 1000000000 0 0)) as [_ H]; simpl; [lia|lia| |].
  - intros k p [_ <-]%lookup_singleton_Some. simpl. lia.
  - destruct (observe _ _ _).2 as [rate|] eqn:Ho; [|by vm_compute in Ho].
    destruct H as (p & Hp & _ & _ & _ & Hr).
    apply lookup_singleton_Some in Hp as [_ <-]. rewrite Hr by (unfold second; simpl; lia).
    reflexivity.
Defined.
