(* ===== verification/ProviderState.v ===== *)
(** * pkg/provider/provider.go, files.go, capsules.go: a pod's life on the node

    The provider's own record of its pods beside the tenants' capsules:
    creating, updating, deleting and reading pods, and everything a create
    gathers before a capsule exists -- files, tokens, claims, DNS, groups.
    [CapsulesAPI] is the interface [Capsules] of capsules.go over the capsule
    API; [CapsulesLaws] is what Zun documents of it. *)

From S2P Require Import Prelude GoStd K8s ZunCapsule ZunStatus ZunTemplate ProviderStreams.
From Stdlib Require Import Ascii.

Local Open Scope string_scope.
Local Open Scope list_scope.

(** ** The interface to the tenants' capsules *)

(** [capsules_tenants] is the tenants a walk reaches now: the ones with a
    usable credential. *)
Class CapsulesAPI (Z : Type) := {
  capsules_For : string → M Z string;
  capsules_tenants : Z → list string;
  capsules_TenantOf : string → option string;
  capsules_http : string → CapsuleHTTP Z;
}.

(** [StaticCapsules]: one API serves every namespace. *)
Definition StaticCapsules {Z} (api : CapsuleHTTP Z) : CapsulesAPI Z := {|
  capsules_For _ := mret "";
  capsules_tenants _ := [""];
  capsules_TenantOf _ := Some "";
  capsules_http _ := api;
|}.

(** ** Configuration *)
Record ConfigMapData := mkConfigMapData {
  cm_Data : gmap string string; cm_BinaryData : gmap string string }.

Record ObjectReader := mkObjectReader {
  read_ConfigMap : string → string → result ConfigMapData;
  read_Secret : string → string → result (gmap string string);
  (* the annotations of a Service *)
  read_Service : string → string → result (gmap string string) }.

(** A token request by namespace, service account and pod; the token and when
    it runs out. *)
Abbreviation TokenMinter := (string → string → Pod → result (string * Time)).

Record Config := mkConfig {
  ServesNamespace : string → bool;
  cfg_NetworkID : string;
  NetworkIDFor : option (string → result string);
  cfg_AvailabilityZone : string;
  cfg_Architecture : string;
  cfg_NodeName : string;
  ClusterDomain : string;
  Tenant : string;
  ClusterDNS : list string;
  DNSService : string;
  Tokens : option TokenMinter;
  ResolveClaim : option (string → string → result ClaimMount);
  HasEvents : bool }.

Record tokenExpiry := mkTokenExpiry { te_pod : string; te_volume : string; te_at : Time }.

(** [Provider]'s mutable fields.  [notify] and [Events] are seen through what
    they were handed. *)
Record Prov := mkProv {
  pods : gmap string Pod;
  deleted : gmap string string;
  notified : list Pod;
  unowned : gset string;
  cpuRates : rates;
  tokenExpiries : gmap string tokenExpiry;
  events : list (string * string) }.

Definition New : Prov := mkProv ∅ ∅ [] ∅ ∅ ∅ [].

Definition key_of (pod : Pod) : string := PodKey (Namespace pod) (Name pod).

Definition set_pods (f : gmap string Pod → gmap string Pod) (p : Prov) : Prov :=
  mkProv (f (pods p)) (deleted p) (notified p) (unowned p) (cpuRates p) (tokenExpiries p) (events p).
Definition set_deleted (f : gmap string string → gmap string string) (p : Prov) : Prov :=
  mkProv (pods p) (f (deleted p)) (notified p) (unowned p) (cpuRates p) (tokenExpiries p) (events p).
Definition notify (pod : Pod) (p : Prov) : Prov :=
  mkProv (pods p) (deleted p) (notified p ++ [pod]) (unowned p) (cpuRates p) (tokenExpiries p)
    (events p).
Definition set_unowned (f : gset string → gset string) (p : Prov) : Prov :=
  mkProv (pods p) (deleted p) (notified p) (f (unowned p)) (cpuRates p) (tokenExpiries p) (events p).
Definition set_rates (r : rates) (p : Prov) : Prov :=
  mkProv (pods p) (deleted p) (notified p) (unowned p) r (tokenExpiries p) (events p).
Definition set_expiries (f : gmap string tokenExpiry → gmap string tokenExpiry) (p : Prov) : Prov :=
  mkProv (pods p) (deleted p) (notified p) (unowned p) (cpuRates p) (f (tokenExpiries p)) (events p).
Definition add_event (k reason : string) (p : Prov) : Prov :=
  mkProv (pods p) (deleted p) (notified p) (unowned p) (cpuRates p) (tokenExpiries p)
    (events p ++ [(k, reason)]).

(** ** What a pod's status is set to *)
Definition set_status_containers (s : PodStatus) (l : list ContainerStatus) : PodStatus :=
  mkPodStatus (Phase s) (Reason s) (PodIP s) (HostIP s) (StartTime s) (Conditions s) l.

Definition waiting_status (c : Container) : ContainerStatus :=
  mkContainerStatus (c_Name c) (c_Image c) (CSWaiting "ContainerCreating" "") false 0 "".

(** The pod [trackPod] records. *)
Definition tracked_pod (now : Time) (phase reason : string) (pod : Pod) : Pod :=
  with_status pod (mkPodStatus phase reason (PodIP (Status pod)) (HostIP (Status pod))
    (Some now) (PodConditions reason false now) (map waiting_status (Containers (Spec pod)))).

(** The pod [adoptPod] records. *)
Definition adopted_pod (now : Time) (pod : Pod) : Pod :=
  let s := Status pod in
  if decide (Phase s = "") then
    with_status pod (mkPodStatus PodPending "Creating" (PodIP s) (HostIP s) (StartTime s)
      (PodConditions "Creating" false now) (ContainerStatuses s))
  else pod.

Definition deleted_container (now : Time) (c : ContainerStatus) : ContainerStatus :=
  mkContainerStatus (cs_Name c) (cs_Image c) (CSTerminated 0 "Deleted" "" None now) false
    (cs_RestartCount c) (cs_ContainerID c).

(** The pod [DeletePod] leaves behind to report. *)
Definition terminated_pod (now : Time) (tracked : Pod) : Pod :=
  let s := Status tracked in
  let statuses :=
    match ContainerStatuses s with
    | [] => map (λ c, mkContainerStatus (c_Name c) (c_Image c) CSNone false 0 "")
              (Containers (Spec tracked))
    | l => l
    end in
  with_status tracked (mkPodStatus PodSucceeded "Completed" (PodIP s) (HostIP s) (StartTime s)
    (PodConditions "Deleted" false now) (map (deleted_container now) statuses)).

Definition trackPod (now : Time) (pod : Pod) (phase reason : string) (p : Prov) : Prov :=
  let tracked := tracked_pod now phase reason pod in
  notify tracked (set_deleted (delete (key_of pod)) (set_pods <[key_of pod := tracked]> p)).

Definition adoptPod (now : Time) (pod : Pod) (p : Prov) : Prov :=
  set_deleted (delete (key_of pod)) (set_pods <[key_of pod := adopted_pod now pod]> p).

(** ** Small decisions *)
Definition declaresEphemeralStorage (pod : Pod) : bool :=
  existsb (λ c, bool_decide (is_Some (rr_Limits (c_Resources c) !! "ephemeral-storage")) ||
                bool_decide (is_Some (rr_Requests (c_Resources c) !! "ephemeral-storage")))
    (Containers (Spec pod)).

Definition optional (v : option bool) : bool := opt_true v.

Definition selectKeys (all : gmap string string) (items : list (string * string)) (source : string)
    : result (gmap string string) :=
  match items with
  | [] => Ok all
  | _ => fold_result (λ (out : gmap string string) (item : string * string),
           match all !! item.1 with
           | None => Err (ErrMsg (source +:+ " has no key " +:+ go_quote item.1))
           | Some data => Ok (<[if decide (item.2 = "") then item.1 else item.2 := data]> out)
           end) ∅ items
  end.

Definition serviceAccountVolume (v : Volume) : bool :=
  bool_decide (is_Some (v_Projected v)) && has_prefix (v_Name v) "kube-api-access-".

Definition wantsServiceAccountToken (pod : Pod) : bool :=
  match AutomountServiceAccountToken (Spec pod) with None => true | Some b => b end.

Definition mountPathOf (pod : Pod) (volume : string) : string :=
  opt_or "" (vm_MountPath <$> find (λ m, bool_decide (vm_Name m = volume))
    (flat_map c_VolumeMounts (Containers (Spec pod)))).

Definition composeSearches (namespace clusterDomain : string) : list string :=
  let base := trim_suffix clusterDomain "." in
  if decide (base = "") then []
  else
    let base := trim_prefix base "svc." in
    [namespace +:+ ".svc." +:+ base; "svc." +:+ base; base].

Fixpoint containerIndex_from (i : Z) (l : list Container) (name : string) : Z :=
  match l with
  | [] => -1
  | c :: l => if decide (c_Name c = name) then i else containerIndex_from (i + 1) l name
  end.
Definition containerIndex (pod : Pod) (name : string) : Z :=
  containerIndex_from 0 (Containers (Spec pod)) name.

(** ** The provider *)
Section provider.
Context {Z : Type} `{!CapsulesAPI Z}.
Variable cfg : Config.
Variable objects : option ObjectReader.
(** [policies.GroupsFor]. *)
Variable policies : option (Pod → result (list string)).
(** The order in which a map of files is ranged over. *)
Variable visit : nat → gmap string string → list (string * string).
Context `{!APIJson}.
Variable now : Time.

Definition PW : Type := Prov * Z.
Definition modify (f : Prov → Prov) : M PW () := own_modify f.

(** The capsule API of one tenant. *)
Definition api_ListManaged (t : string) : M Z (gmap string Capsule) :=
  @ListManaged Z (capsules_http t).
Definition api_ListManagedAll (t : string) : M Z (gmap string (list Capsule)) :=
  @ListManagedAll Z (capsules_http t).
Definition api_Create (t : string) (tpl : json) : M Z Capsule := @Capsule_Create Z (capsules_http t) tpl.
Definition api_Get (t id : string) : M Z Capsule := @Capsule_Get Z (capsules_http t) id.
Definition api_Delete (t id : string) : M Z () := @Capsule_Delete Z (capsules_http t) id.

Definition authorize (namespace : string) : result () :=
  if ServesNamespace cfg namespace then Ok ()
  else Err (ErrWrap ("namespace " +:+ go_quote namespace +:+ " is not served by node " +:+
    cfg_NodeName cfg) ErrNotFound).

Definition tenantNamespace (namespace : string) : string :=
  if decide (Tenant cfg = "") then namespace else trim_prefix namespace (Tenant cfg +:+ "-").

(** *** DNS *)
Definition clusterDNS : list string :=
  if decide (ClusterDNS cfg ≠ []) then ClusterDNS cfg
  else match objects with
  | None => []
  | Some o =>
      if decide (DNSService cfg = "") then []
      else match cut (DNSService cfg) "/" with
      | None => []
      | Some (ns, name) =>
          let ns := if decide (Tenant cfg ≠ "") then Tenant cfg +:+ "-" +:+ ns else ns in
          match read_Service o ns name with
          | Err _ => []
          | Ok annotations =>
              let addr := opt_or "" (annotations !! AddressAnnotation) in
              if decide (addr ≠ "") then [addr] else []
          end
      end
  end.

Definition dnsConfigFor (pod : Pod) : list string * list string :=
  let dc := DNSConfig (Spec pod) in
  if decide (DNSPolicy (Spec pod) = "None") then
    match dc with Some c => (dc_Searches c, dc_Nameservers c) | None => ([], []) end
  else if decide (DNSPolicy (Spec pod) = "Default") then ([], [])
  else
    let searches := composeSearches (tenantNamespace (Namespace pod)) (ClusterDomain cfg) in
    match dc with
    | None => (searches, clusterDNS)
    | Some c => (searches ++ dc_Searches c,
                 if decide (dc_Nameservers c ≠ []) then dc_Nameservers c else clusterDNS)
    end.

(** *** Claims *)
Definition resolveClaims (pod : Pod) : result (gmap string ClaimMount) :=
  fold_result (λ (out : gmap string ClaimMount) v,
    match v_PersistentVolumeClaim v with
    | None => Ok out
    | Some claim =>
        match ResolveClaim cfg with
        | None => Err (ErrMsg ("volume " +:+ v_Name v +:+
            ": this node was started without persistent volume support"))
        | Some resolve =>
            match resolve (Namespace pod) claim with
            | Err e => Err (ErrWrap ("volume " +:+ v_Name v) e)
            | Ok m => Ok (<[v_Name v := m]> out)
            end
        end
    end) ∅ (Volumes (Spec pod)).

(** *** Files: [None] is an optional source that is not there. *)
Definition configMapFiles (namespace : string) (src : ObjectSource)
    : result (option (gmap string string)) :=
  match objects with
  | None => Err (ErrMsg ("volume from ConfigMap " +:+ os_Name src +:+
      ": this node was started without a way to read objects"))
  | Some o =>
      match read_ConfigMap o namespace (os_Name src) with
      | Err e =>
          if bool_decide (root_cause e = ErrK8sNotFound) && optional (os_Optional src) then Ok None
          else Err (ErrWrap ("volume from ConfigMap " +:+ namespace +:+ "/" +:+ os_Name src) e)
      | Ok cm =>
          files ← selectKeys (cm_BinaryData cm ∪ cm_Data cm) (os_Items src)
            ("ConfigMap " +:+ namespace +:+ "/" +:+ os_Name src);
          Ok (Some files)
      end
  end.

Definition secretFiles (namespace : string) (src : ObjectSource)
    : result (option (gmap string string)) :=
  match objects with
  | None => Err (ErrMsg ("volume from Secret " +:+ os_Name src +:+
      ": this node was started without a way to read objects"))
  | Some o =>
      match read_Secret o namespace (os_Name src) with
      | Err e =>
          if bool_decide (root_cause e = ErrK8sNotFound) && optional (os_Optional src) then Ok None
          else Err (ErrWrap ("volume from Secret " +:+ namespace +:+ "/" +:+ os_Name src) e)
      | Ok data =>
          files ← selectKeys data (os_Items src)
            ("Secret " +:+ namespace +:+ "/" +:+ os_Name src);
          Ok (if decide (files = ∅) then None else Some files)
      end
  end.

Definition serviceAccountFiles (pod : Pod) : result (gmap string string * Time) :=
  match Tokens cfg with
  | None => Err (ErrMsg ("the pod wants a service account token but this node was started " +:+
      "without permission to request one"))
  | Some mint =>
      let account := if decide (ServiceAccountName (Spec pod) = "") then "default"
                     else ServiceAccountName (Spec pod) in
      match mint (Namespace pod) account pod with
      | Err e => Err (ErrWrap ("requesting a token for service account " +:+ Namespace pod +:+
          "/" +:+ account) e)
      | Ok (token, expiry) =>
          let files : gmap string string :=
            <["token" := token]> {["namespace" := tenantNamespace (Namespace pod)]} in
          let ca := match objects with
            | None => None
            | Some o => match read_ConfigMap o (Namespace pod) "kube-root-ca.crt" with
                        | Ok cm => cm_Data cm !! "ca.crt"
                        | Err _ => None
                        end
            end in
          Ok (match ca with Some ca => <["ca.crt" := ca]> files | None => files end, expiry)
      end
  end.

Definition trackTokenExpiry (pod : Pod) (volume : string) (at_ : Time) (p : Prov) : Prov :=
  match at_ with
  | None => p
  | Some _ => set_expiries <[key_of pod := mkTokenExpiry (key_of pod) volume at_]> p
  end.

(** The files of one volume, [None] where there are none to carry. *)
Definition volume_files (pod : Pod) (v : Volume) : M PW (option (gmap string string)) :=
  match v_ConfigMap v, v_Secret v with
  | Some src, _ => lift_result (configMapFiles (Namespace pod) src)
  | None, Some src => lift_result (secretFiles (Namespace pod) src)
  | None, None =>
      if serviceAccountVolume v then
        if wantsServiceAccountToken pod then
          '(files, expiry) ← lift_result (serviceAccountFiles pod);
          modify (trackTokenExpiry pod (v_Name v) expiry) ≫= λ _,
          mret (Some files)
        else mret None
      else mret None
  end.

Definition resolveFiles (pod : Pod) : M PW (gmap string (gmap string string)) :=
  fold_each (λ (out : gmap string (gmap string string)) v,
    files ← volume_files pod v;
    mret (match files with Some f => <[v_Name v := f]> out | None => out end))
    ∅ (Volumes (Spec pod)).

(** *** Security groups *)
Definition securityGroupsFor (pod : Pod) : result (list string) :=
  match policies with
  | None => Ok []
  | Some groupsFor =>
      match groupsFor pod with
      | Ok groups => Ok groups
      | Err e => Err (ErrWrap ("deciding the security groups for " +:+ Namespace pod +:+ "/" +:+
          Name pod) e)
      end
  end.

Definition portOf (visit : list string) (pod : Pod) : M Z string := λ z,
  match (t ← capsules_For (Namespace pod); api_Get t ("kubezun-" +:+ UID pod)) z with
  | (Ok capsule, z') =>
      (Ok (opt_or "" (a_Port <$> find (λ a, bool_decide (a_Port a ≠ ""))
             (addresses_in visit capsule))), z')
  | (Err _, z') => (Ok "", z')
  end.

Definition networkFor (pod : Pod) : result string :=
  match NetworkIDFor cfg with
  | None => Ok (cfg_NetworkID cfg)
  | Some f =>
      match f (Namespace pod) with
      | Err e => Err e
      | Ok "" => Ok (cfg_NetworkID cfg)
      | Ok resolved => Ok resolved
      end
  end.

(** *** The handlers *)

(** What follows the check for a capsule that is already there. *)
Definition create_capsule (t : string) (pod : Pod) : M PW () :=
  files ← resolveFiles pod;
  let '(searches, nameservers) := dnsConfigFor pod in
  claims ← lift_result (resolveClaims pod);
  networkID ← lift_result (networkFor pod);
  groups ← lift_result (securityGroupsFor pod);
  tpl ← lift_result (BuildTemplate visit pod
    (mkOptions networkID "" (cfg_AvailabilityZone cfg) (cfg_NodeName cfg) files searches
      nameservers groups claims (cfg_Architecture cfg)));
  on_service (api_Create t tpl) ≫= λ _,
  modify (trackPod now pod PodPending "Creating").

Definition CreatePod (pod : Pod) : M PW () :=
  lift_result (authorize (Namespace pod)) ≫= λ _,
  (if HasEvents cfg && declaresEphemeralStorage pod
   then modify (add_event (key_of pod) "EphemeralStorageNotEnforced") else mret ()) ≫= λ _,
  t ← on_service (capsules_For (Namespace pod));
  existing ← on_service (try (api_ListManaged t));
  let found := match existing with
    | Ok m => match m !! key_of pod with
              | Some c => bool_decide (PodUID c = UID pod) | None => false end
    | Err _ => false
    end in
  if found : bool then modify (adoptPod now pod) else create_capsule t pod.

Definition UpdatePod (pod : Pod) : M PW () :=
  lift_result (authorize (Namespace pod)) ≫= λ _,
  p ← own_get;
  let known := match pods p !! key_of pod with
    | Some tracked => bool_decide (UID tracked = UID pod) | None => false end in
  if known : bool then mret ()
  else if decide (DeletionTimestamp pod ≠ None) then mret ()
  else CreatePod pod.

Definition is_not_found (e : gerror) : bool := bool_decide (root_cause e = ErrNotFound).

Definition DeletePod (pod : Pod) : M PW () :=
  lift_result (authorize (Namespace pod)) ≫= λ _,
  t ← on_service (capsules_For (Namespace pod));
  on_service (ignoring is_not_found (api_Delete t (CapsuleName pod))) ≫= λ _,
  modify (λ p,
    let terminated := terminated_pod now (opt_or pod (pods p !! key_of pod)) in
    notify terminated (set_deleted <[key_of pod := UID terminated]>
      (set_pods <[key_of pod := terminated]> p))).

Definition not_running (namespace name : string) : gerror :=
  ErrWrap ("pod " +:+ namespace +:+ "/" +:+ name +:+ " is not running on this node") ErrNotFound.

Definition GetPod (p : Prov) (namespace name : string) : result Pod :=
  _ ← authorize namespace;
  match pods p !! PodKey namespace name with
  | None => Err (not_running namespace name)
  | Some pod =>
      if decide (deleted p !! PodKey namespace name = Some (UID pod))
      then Err (not_running namespace name) else Ok pod
  end.

Definition GetPodStatus (p : Prov) (namespace name : string) : result PodStatus :=
  pod ← GetPod p namespace name; Ok (Status pod).

(** In some order of the map. *)
Definition GetPods (p : Prov) : list Pod := (map_to_list (pods p)).*2.

Definition AttachToContainer (namespace : string) : result () :=
  _ ← authorize namespace;
  Err (ErrMsg "not implemented: attach is not supported on a KNaaS virtual node").
Definition PortForward (namespace : string) : result () :=
  _ ← authorize namespace;
  Err (ErrMsg "not implemented: port-forward is not supported on a KNaaS virtual node").

(** The pod and container a request for logs or a command is about. *)
Definition container_of_request (p : Prov) (namespace podName containerName : string)
    : result (Pod * BinInt.Z) :=
  _ ← authorize namespace;
  match pods p !! PodKey namespace podName with
  | None => Err (not_running namespace podName)
  | Some pod =>
      let index := containerIndex pod containerName in
      if decide (index < 0)%Z then
        Err (ErrWrap ("pod " +:+ namespace +:+ "/" +:+ podName +:+ " has no container named " +:+
          containerName) ErrNotFound)
      else Ok (pod, index)
  end.
End provider.
