(* ===== verification/ProviderCapsules.v ===== *)
(** * What Zun documents of the capsule API, and a service that keeps to it

    [CapsulesLaws] is what the provider relies on: what a listing, a read, a
    create and a delete say about the capsules of one tenant, errors included.
    [RefCapsules] is a concrete service for which the laws hold, to evaluate
    the provider's handlers on. *)

From S2P Require Import Prelude GoStd K8s ZunCapsule ZunTemplate ProviderStreams ProviderState.
From Stdlib Require Import Ascii.

Local Open Scope string_scope.
Local Open Scope list_scope.

(** ** Capsules by tenant and UUID *)
Abbreviation CapState := (gmap string (gmap string Capsule)).

Definition caps (s : CapState) (t : string) : gmap string Capsule := opt_or ∅ (s !! t).
Definition put (t : string) (c : Capsule) (s : CapState) : CapState :=
  <[t := <[cap_UUID c := c]> (caps s t)]> s.
Definition remove (t u : string) (s : CapState) : CapState :=
  <[t := delete u (caps s t)]> s.

Lemma caps_put t c s t' :
  caps (put t c s) t' = if decide (t = t') then <[cap_UUID c := c]> (caps s t') else caps s t'.
Proof.
  unfold caps, put. case_decide; [subst; by rewrite lookup_insert_eq|by rewrite lookup_insert_ne].
Qed.

Lemma caps_remove t u s t' :
  caps (remove t u s) t' = if decide (t = t') then delete u (caps s t') else caps s t'.
Proof.
  unfold caps, remove. case_decide; [subst; by rewrite lookup_insert_eq|by rewrite lookup_insert_ne].
Qed.

(** ** What a template says of the capsule it makes *)
Definition metadata_of (tpl : json) : list (string * json) :=
  match tpl with
  | JObject o => opt_or [] (as_object (jget o "metadata"))
  | _ => []
  end.
Definition string_of (j : option json) : string :=
  match j with Some (JString s) => s | _ => "" end.
Definition template_name (tpl : json) : string := string_of (jget (metadata_of tpl) "name").
Definition template_labels_of (tpl : json) : gmap string string :=
  list_to_map (map (λ kv : string * json, (kv.1, string_of (Some kv.2)))
    (opt_or [] (as_object (jget (metadata_of tpl) "labels")))).

Lemma map_json_read m :
  list_to_map (map (λ kv : string * json, (kv.1, string_of (Some kv.2)))
    (map (λ k, (k, JString (opt_or "" (m !! k)))) (sort_strings (elements (dom m))))) =
  (m : gmap string string).
Proof.
  rewrite List.map_map. simpl. apply map_eq. intros k.
  destruct (m !! k) as [v|] eqn:Hk.
  - apply elem_of_list_to_map_1.
    + change (map ?f ?l) with (f <$> l). rewrite <-list_fmap_compose. simpl.
      rewrite list_fmap_id. rewrite sort_strings_perm. apply NoDup_elements.
    + apply list_elem_of_fmap. exists k. rewrite Hk. split; [done|].
      rewrite elem_of_sort_strings. apply elem_of_elements, elem_of_dom. by eexists.
  - apply not_elem_of_list_to_map_1. change (map ?f ?l) with (f <$> l).
    rewrite <-list_fmap_compose. simpl. rewrite list_fmap_id, elem_of_sort_strings.
    rewrite elem_of_elements, elem_of_dom, Hk. by intros [? ?].
Qed.

(** A built template is read back: its name and its labels. *)
Lemma template_json_read `{!APIJson} t :
  tpl_Labels t ≠ ∅ →
  template_name (template_json t) = tpl_Name t ∧
  template_labels_of (template_json t) = tpl_Labels t.
Proof.
  intros Hl. unfold template_name, template_labels_of, metadata_of, template_json.
  simpl. unfold omit_map. rewrite decide_False by done. simpl. split; [done|].
  apply map_json_read.
Qed.

(** ** The laws *)
Class CapsulesLaws {Z} (api : CapsulesAPI Z) (view : Z → CapState) := {
  (* an identifier of this form is looked up as a UUID, any other as a name *)
  uuid_like : string → bool;
  names t id s u : Prop :=
    if uuid_like id then u = id else ∃ c, caps s t !! u = Some c ∧ Capsule_Name c = id;
  law_name_form uid : uuid_like ("kubezun-" +:+ uid) = false;
  law_For s ns :
    runs view s (capsules_For ns) (λ t s', s' = s ∧ capsules_TenantOf ns = Some t)
      (λ _ s', s' = s);
  law_List s t :
    runs view s (@http_List Z (capsules_http t))
      (λ l s', s' = s ∧ l ≡ₚ (map_to_list (caps s t)).*2 ∧
         ∀ u c, caps s t !! u = Some c → cap_UUID c = u ∧ uuid_like u = true)
      (λ _ s', s' = s);
  law_Get s t id :
    runs view s (@http_Get Z (capsules_http t) id)
      (λ c s', s' = s ∧ ∃ u, names t id s u ∧ caps s t !! u = Some c) (λ _ s', s' = s);
  law_Post s t tpl :
    let made c s' := caps s t !! cap_UUID c = None ∧ Capsule_Name c = template_name tpl ∧
      Capsule_Labels c = template_labels_of tpl ∧ s' = put t c s in
    runs view s (@http_Post Z (capsules_http t) tpl) made
      (λ _ s', s' = s ∨ ∃ c, made c s');
  law_Delete s t id :
    let gone s' := ∃ u, names t id s u ∧ s' = remove t u s ∧
      (uuid_like id = false → ∀ u', names t id s u' → u' = u) in
    runs view s (@http_Delete Z (capsules_http t) id) (λ _ s', gone s')
      (λ e s', (s' = s ∨ gone s') ∧
         (root_cause (translate e) = ErrNotFound →
            s' = s ∧ ∀ u, names t id s u → caps s t !! u = None));
}.

(** ** A service that keeps the laws *)
Section reference.
Variable tenant_of : string → option string.

Definition ref_uuid (id : string) : bool := negb (has_prefix id "kubezun-").

Definition ref_caps (z : CapState) (t : string) : gmap string Capsule :=
  filter (λ uc : string * Capsule, cap_UUID uc.2 = uc.1 ∧ ref_uuid uc.1 = true) (caps z t).

Definition named (z : CapState) (t id : string) : list Capsule :=
  if ref_uuid id then match ref_caps z t !! id with Some c => [c] | None => [] end
  else filter (λ c, Capsule_Name c = id) (map_to_list (ref_caps z t)).*2.

Definition RefCapsules : CapsulesAPI CapState := {|
  capsules_For ns z := (match tenant_of ns with
    | Some t => Ok t | None => Err (ErrMsg "no tenant serves this namespace") end, z);
  capsules_tenants z := elements (dom z);
  capsules_TenantOf := tenant_of;
  capsules_http t := {|
    http_List z := (Ok (map_to_list (ref_caps z t)).*2, z);
    http_Get id z := (match named z t id with
      | [c] => Ok c | [] => Err (ErrResponse 404 "") | _ => Err (ErrResponse 409 "") end, z);
    http_Post tpl z :=
      let c := mkCapsule (fresh_id (dom (caps z t))) "Creating" "" "" None ∅ []
        (template_name tpl) (template_labels_of tpl) "" (template_labels_of tpl) in
      (Ok c, put t c z);
    http_Delete id z := match named z t id with
      | [c] => (Ok (), remove t (cap_UUID c) z)
      | [] => (Err (ErrResponse 404 ""), z)
      | _ => (Err (ErrResponse 409 ""), z) end |} |}.
End reference.

(** *** The reference keeps the laws *)
Definition ref_ok (uc : string * Capsule) : Prop := cap_UUID uc.2 = uc.1 ∧ ref_uuid uc.1 = true.
#[export] Instance ref_ok_dec uc : Decision (ref_ok uc).
Proof. unfold ref_ok. apply _. Defined.

Definition ref_view (z : CapState) : CapState := (λ m, filter ref_ok m) <$> z.

Lemma caps_view z t : caps (ref_view z) t = ref_caps z t.
Proof.
  unfold caps, ref_view, ref_caps, caps. rewrite lookup_fmap.
  destruct (z !! t); simpl; [done|]. symmetry. apply map_filter_empty.
Qed.

Lemma ref_caps_lookup z t u c :
  ref_caps z t !! u = Some c ↔ caps z t !! u = Some c ∧ cap_UUID c = u ∧ ref_uuid u = true.
Proof. unfold ref_caps. by rewrite map_lookup_filter_Some. Qed.

Lemma view_put t c z :
  ref_uuid (cap_UUID c) = true → ref_view (put t c z) = put t c (ref_view z).
Proof.
  intros Hc. unfold put at 2. rewrite caps_view. unfold ref_view, put. rewrite fmap_insert.
  f_equal. rewrite map_filter_insert_True by done. done.
Qed.

Lemma view_remove t u z : ref_view (remove t u z) = remove t u (ref_view z).
Proof.
  unfold remove at 2. rewrite caps_view. unfold ref_view, remove. rewrite fmap_insert.
  f_equal. by rewrite map_filter_delete.
Qed.

Lemma ref_list z t c :
  c ∈ (map_to_list (ref_caps z t)).*2 ↔ ref_caps z t !! cap_UUID c = Some c.
Proof.
  rewrite list_elem_of_fmap. split.
  - intros ([u c'] & -> & Hin%elem_of_map_to_list). simpl.
    pose proof Hin as H. apply ref_caps_lookup in H as (_ & -> & _). done.
  - intros H. exists (cap_UUID c, c). split; [done|]. by apply elem_of_map_to_list.
Qed.

(** The capsules an identifier names, in the reference. *)
Definition ref_names (t id : string) (s : CapState) (u : string) : Prop :=
  if ref_uuid id then u = id else ∃ c, caps s t !! u = Some c ∧ Capsule_Name c = id.

Lemma named_spec z t id c :
  c ∈ named z t id ↔ ref_caps z t !! cap_UUID c = Some c ∧ ref_names t id (ref_view z) (cap_UUID c).
Proof.
  unfold named, ref_names. destruct (ref_uuid id) eqn:Hu.
  - destruct (ref_caps z t !! id) as [c'|] eqn:Hc.
    + rewrite list_elem_of_singleton. pose proof Hc as H. apply ref_caps_lookup in H as (_ & Hid & _).
      split; [intros ->; by rewrite Hid|]. intros [H1 H2]. rewrite H2, Hc in H1. by injection H1.
    + rewrite elem_of_nil. split; [done|]. intros [H1 H2]. rewrite H2 in H1. congruence.
  - rewrite list_elem_of_filter, ref_list, caps_view. naive_solver.
Qed.

Lemma named_cases z t id :
  match named z t id with
  | [] => ∀ u, ref_names t id (ref_view z) u → ref_caps z t !! u = None
  | [c] => ref_names t id (ref_view z) (cap_UUID c) ∧ ref_caps z t !! cap_UUID c = Some c ∧
           (ref_uuid id = false → ∀ u, ref_names t id (ref_view z) u → u = cap_UUID c)
  | _ => True
  end.
Proof.
  assert (∀ u c, ref_caps z t !! u = Some c → ref_names t id (ref_view z) u → c ∈ named z t id ∧
    cap_UUID c = u) as Hin.
  { intros u c Hc Hn. pose proof Hc as H. apply ref_caps_lookup in H as (_ & Hu & _).
    split; [|done]. apply named_spec. by rewrite Hu. }
  destruct (named z t id) as [|c [|? ?]] eqn:Hl; [| |done].
  - intros u Hn. destruct (ref_caps z t !! u) as [c|] eqn:Hc; [|done].
    destruct (Hin u c Hc Hn) as [H _]. by apply elem_of_nil in H.
  - assert (c ∈ named z t id) as Hc by (rewrite Hl; by left).
    apply named_spec in Hc as [Hc Hn]. split; [done|]. split; [done|].
    intros Hu u Hnu. pose proof Hnu as H. unfold ref_names in H. rewrite Hu in H.
    destruct H as (c' & Hc' & _). rewrite caps_view in Hc'.
    destruct (Hin u c' Hc' Hnu) as [->%list_elem_of_singleton <-]. done.
Qed.

Lemma RefCapsules_laws tenant_of : CapsulesLaws (RefCapsules tenant_of) ref_view.
Proof.
  refine {| uuid_like := ref_uuid |}.
  - intros uid. unfold ref_uuid. by rewrite has_prefix_app.
  - intros s ns z <-. simpl. by destruct (tenant_of ns).
  - intros s t z <-. simpl. split; [done|]. rewrite caps_view. split; [done|].
    intros u c Hc. by apply ref_caps_lookup in Hc as (_ & ? & ?).
  - intros s t id z <-. simpl. pose proof (named_cases z t id) as H.
    destruct (named z t id) as [|c [|? ?]]; [done| |done]. split; [done|].
    destruct H as (H1 & H2 & _). exists (cap_UUID c). split; [exact H1|by rewrite caps_view].
  - intros s t tpl. cbv zeta. intros z <-. simpl. set (c := mkCapsule _ _ _ _ _ _ _ _ _ _ _).
    split; [|split; [|split]].
    + rewrite caps_view. destruct (ref_caps z t !! cap_UUID c) as [c'|] eqn:Hc; [|done].
      apply ref_caps_lookup in Hc as (Hc & _ & _).
      destruct (fresh_id_spec (dom (caps z t))). apply elem_of_dom. by exists c'.
    + unfold Capsule_Name. simpl. case_decide as Hn; [done|].
      destruct (decide (template_name tpl = "")) as [->|]; [done|]. by destruct Hn.
    + unfold Capsule_Labels. simpl. by case_decide.
    + by apply view_put.
  - intros s t id. cbv zeta. intros z <-. simpl. pose proof (named_cases z t id) as H.
    destruct (named z t id) as [|c [|? ?]].
    + split; [by left|]. intros _. split; [done|]. intros u Hu. rewrite caps_view. by apply H.
    + destruct H as (H1 & H2 & H3). exists (cap_UUID c). rewrite view_remove. auto.
    + split; [by left|]. done.
Qed.
