(* ===== verification/ProviderPods.v ===== *)
(** * Creating and deleting pods: what the handlers of provider.go promise

    A create either adopts the capsule that is there or makes exactly one,
    labelled for its pod, and records the pod; a delete removes the pod's own
    capsule and no other, and leaves a terminal status to report; a failure
    leaves the record of pods as it was. *)

From S2P Require Import Prelude GoStd K8s ZunCapsule ZunStatus ZunTemplate ProviderStreams.
From S2P Require Import ProviderState ProviderCapsules.
From Stdlib Require Import Ascii.

Local Open Scope string_scope.
Local Open Scope list_scope.

(** ** Lemmas: the capsule API through its laws *)
Lemma runs_translated {W S A} (view : W → S) s (m : M W A) (Q : A → S → Prop)
    (E : gerror → S → Prop) :
  runs view s m Q (λ e s', E (translate e) s') → runs view s (translated m) Q E.
Proof.
  intros Hm w Hw. specialize (Hm w Hw). unfold translated.
  by destruct (m w) as [[a|e] w'].
Qed.

Section api.
Context {Z : Type} {api : CapsulesAPI Z} (view : Z → CapState) `{!CapsulesLaws api view}.

(** A tenant's capsules are known by their UUID. *)
Definition keyed (s : CapState) (t : string) : Prop :=
  ∀ u c, caps s t !! u = Some c → cap_UUID c = u ∧ uuid_like u = true.

Lemma keyed_listed s t l c :
  keyed s t → l ≡ₚ (map_to_list (caps s t)).*2 → c ∈ l ↔ caps s t !! cap_UUID c = Some c.
Proof.
  intros Hk ->. rewrite list_elem_of_fmap. split.
  - intros ([u c'] & -> & Hin%elem_of_map_to_list). simpl. by destruct (Hk u c' Hin) as [-> _].
  - intros H. exists (cap_UUID c, c). split; [done|]. by apply elem_of_map_to_list.
Qed.

Lemma keyed_NoDup s t l : keyed s t → l ≡ₚ (map_to_list (caps s t)).*2 → NoDup l.
Proof.
  intros Hk Hl. apply (NoDup_fmap_1 cap_UUID). rewrite Hl, <-list_fmap_compose.
  replace ((cap_UUID ∘ snd) <$> map_to_list (caps s t)) with ((map_to_list (caps s t)).*1);
    [apply NoDup_fst_map_to_list|].
  apply list_fmap_ext. intros i [u c] Hi. simpl.
  apply list_elem_of_lookup_2, elem_of_map_to_list in Hi. by destruct (Hk u c Hi).
Qed.

Lemma ListManagedAll_runs s t :
  runs view s (api_ListManagedAll t)
    (λ m s', s' = s ∧ ∃ l, m = group_managed l ∧ l ≡ₚ (map_to_list (caps s t)).*2 ∧
       keyed s t)
    (λ _ s', s' = s).
Proof.
  unfold api_ListManagedAll, ListManagedAll.
  eapply runs_bind; [apply (runs_translated view s _ _ (λ _ s', s' = s)), (law_List s t)|done|].
  cbv beta. intros l s' (-> & Hl & Hc). apply runs_ret. split; [done|]. exists l.
  done.
Qed.

(** Of the capsules of one key, none was created after this one. *)
Definition latest (s : CapState) (t k : string) (c : Capsule) : Prop :=
  ∀ u c', caps s t !! u = Some c' → is_for k c' = true → after (cap_CreatedAt c') (cap_CreatedAt c) = false.

(** What a listing says of a key is true of a capsule that is there, the latest. *)
Lemma ListManaged_runs s t :
  runs view s (api_ListManaged t)
    (λ m s', s' = s ∧
       ((∀ k c, m !! k = Some c → caps s t !! cap_UUID c = Some c ∧ is_for k c = true) ∧
       (∀ k, m !! k = None → ∀ u c, caps s t !! u = Some c → is_for k c = false)) ∧
       (∀ k c, m !! k = Some c → uuid_like (cap_UUID c) = true) ∧
       ∀ k c, m !! k = Some c → latest s t k c)
    (λ _ s', s' = s).
Proof.
  unfold api_ListManaged, ListManaged.
  eapply runs_bind; [apply (ListManagedAll_runs s t)|done|].
  cbv beta. intros all s' (-> & l & -> & Hl & Hc). apply runs_ret. split; [done|].
  unfold newest_managed.
  assert (∀ k c, omap newest (group_managed l) !! k = Some c →
    (caps s t !! cap_UUID c = Some c ∧ uuid_like (cap_UUID c) = true) ∧ is_for k c = true ∧ latest s t k c) as Hk.
  { intros k c. rewrite lookup_omap.
    destruct (group_managed l !! k) as [g|] eqn:Hg; simpl; [|done]. intros Hn.
    apply group_managed_Some in Hg as [-> _].
    apply newest_spec in Hn as [Hin Hmax]. apply list_elem_of_filter in Hin as [Hf Hin].
    rewrite (keyed_listed s t) in Hin by done. split; [split; [done|by apply (Hc _ c)]|]. split; [done|].
    intros u c' Hu Hf'. apply Hmax. apply list_elem_of_filter. split; [done|]. rewrite Hl.
    apply list_elem_of_fmap. exists (u, c'). split; [done|]. by apply elem_of_map_to_list. }
  split; [split|split]; [naive_solver| |naive_solver|naive_solver]. clear Hk.
  - intros k Hk u c Hu. apply not_true_iff_false. intros Hf. rewrite lookup_omap in Hk.
    destruct (group_managed l !! k) as [g|] eqn:Hg; simpl in Hk.
    + apply group_managed_Some in Hg as [_ Hne]. by destruct g.
    + pose proof (group_managed_lookup l k) as H. rewrite Hg in H. simpl in H.
      assert (c ∈ filter (λ c, is_for k c = true) l) as Hin.
      { apply list_elem_of_filter. split; [done|]. rewrite Hl. apply list_elem_of_fmap.
        exists (u, c). split; [done|]. by apply elem_of_map_to_list. }
      rewrite <-H in Hin. by apply elem_of_nil in Hin.
Qed.

(** A listing by key, as true as the tenant's capsules are. *)
Definition listing_of (s : CapState) (t : string) (m : gmap string Capsule) : Prop :=
  (∀ k c, m !! k = Some c → caps s t !! cap_UUID c = Some c ∧ is_for k c = true) ∧
  (∀ k, m !! k = None → ∀ u c, caps s t !! u = Some c → is_for k c = false).

(** Whether a tenant's capsules can be listed, where the service shows [s]. *)
Definition listable (s : CapState) (t : string) : Prop := cannot_fail view (api_ListManaged t) s.

Lemma try_ListManaged_runs s t :
  runs view s (try (api_ListManaged t))
    (λ r s', s' = s ∧ match r with
       | Ok m => listing_of s t m ∧ ∀ k c, m !! k = Some c → latest s t k c
       | Err _ => ¬ listable s t end) (λ _ _, False).
Proof.
  intros z Hz. pose proof (ListManaged_runs s t z Hz) as H. unfold try.
  destruct (api_ListManaged t z) as [[m|e] z'] eqn:Hl.
  { destruct H as (Hv & Hm & _ & Hn). done. }
  split; [done|].
  intros Hok. specialize (Hok z Hz). by rewrite Hl in Hok.
Qed.

(** The capsules of a tenant that a name stands for. *)
Definition has_name (s : CapState) (t id u : string) : Prop :=
  ∃ c, caps s t !! u = Some c ∧ Capsule_Name c = id.

Lemma names_of_name s t uid u :
  names t ("kubezun-" +:+ uid) s u ↔ has_name s t ("kubezun-" +:+ uid) u.
Proof. unfold names, has_name. by rewrite law_name_form. Qed.

(** Deleting by a pod's capsule name. *)
Lemma Delete_by_name_runs s t uid :
  let id := "kubezun-" +:+ uid in
  let gone s' := ∃ u, has_name s t id u ∧ s' = remove t u s ∧ ∀ u', has_name s t id u' → u' = u in
  runs view s (api_Delete t id) (λ _ s', gone s')
    (λ e s', (s' = s ∨ gone s') ∧
       (root_cause e = ErrNotFound → s' = s ∧ ∀ u, ¬ has_name s t id u)).
Proof.
  cbv zeta. unfold api_Delete, Capsule_Delete.
  assert (∀ s', (∃ u, names t ("kubezun-" +:+ uid) s u ∧ s' = remove t u s ∧
      (uuid_like ("kubezun-" +:+ uid) = false →
         ∀ u', names t ("kubezun-" +:+ uid) s u' → u' = u)) →
    ∃ u, has_name s t ("kubezun-" +:+ uid) u ∧ s' = remove t u s ∧
      ∀ u', has_name s t ("kubezun-" +:+ uid) u' → u' = u) as Hgone.
  { intros s' (u & Hn & -> & Hu). exists u. rewrite names_of_name in Hn. split; [done|].
    split; [done|]. intros u' Hu'. apply Hu; [apply law_name_form|by apply names_of_name]. }
  apply runs_translated. eapply runs_conseq; [apply (law_Delete s t)| |]; cbv beta zeta.
  - intros a s' H. by apply Hgone.
  - intros e s' [H1 H2]. split; [destruct H1 as [->|H1]; [by left|right; by apply Hgone]|].
    intros He. destruct (H2 He) as [-> Hnone]. split; [done|].
    intros u Hu. pose proof Hu as (c & Hc & _). apply names_of_name, Hnone in Hu. congruence.
Qed.

(** Deleting by UUID. *)
Lemma Delete_by_uuid_runs s t u :
  uuid_like u = true →
  runs view s (api_Delete t u) (λ _ s', s' = remove t u s) (λ _ s', s' = s ∨ s' = remove t u s).
Proof.
  intros Hu. unfold api_Delete, Capsule_Delete. apply runs_translated.
  assert (∀ s', (∃ u', names t u s u' ∧ s' = remove t u' s ∧
      (uuid_like u = false → ∀ u'', names t u s u'' → u'' = u')) → s' = remove t u s) as Hg.
  { intros s' (u' & Hn & -> & _). unfold names in Hn. rewrite Hu in Hn. by subst u'. }
  eapply runs_conseq; [apply (law_Delete s t)| |]; cbv beta zeta.
  - intros _ s' H. by apply Hg.
  - intros e s' [[->|H] _]; [by left|right; by apply Hg].
Qed.
End api.

(** ** Lemmas: what a create gathers *)

(** The record of pods is as it was; tokens and events may have been noted. *)
Definition same_record (p p' : Prov) : Prop :=
  pods p' = pods p ∧ deleted p' = deleted p ∧ notified p' = notified p ∧
  unowned p' = unowned p ∧ cpuRates p' = cpuRates p.

Lemma same_record_refl p : same_record p p.
Proof. by repeat split. Qed.

Lemma same_record_trans p1 p2 p3 : same_record p1 p2 → same_record p2 p3 → same_record p1 p3.
Proof. unfold same_record. intros (-> & -> & -> & -> & ->) (-> & -> & -> & -> & ->). done. Qed.

Lemma trackTokenExpiry_record pod v t p : same_record p (trackTokenExpiry pod v t p).
Proof. unfold trackTokenExpiry. by destruct t. Qed.

Section gather.
Context {Z : Type} {api : CapsulesAPI Z} (view : Z → CapState) `{!CapsulesLaws api view}.
Context {J : APIJson}.
Variable cfg : Config.
Variable objects : option ObjectReader.
Variable policies : option (Pod → result (list string)).
Variable visit : nat → gmap string string → list (string * string).
Variable now : Time.

Lemma volume_files_runs p s pod v :
  runs (beside view) (p, s) (volume_files cfg objects pod v)
    (λ _ ps, same_record p ps.1 ∧ ps.2 = s) (λ _ ps, same_record p ps.1 ∧ ps.2 = s).
Proof.
  assert (∀ A (r : result A) (Q : A → Prov * CapState → Prop) E,
    (∀ a, Q a (p, s)) → (∀ e, E e (p, s)) → runs (beside view) (p, s) (lift_result r) Q E) as Hl
    by (intros A r Q E HQ HE; apply runs_lift; destruct r; auto).
  assert (same_record p p ∧ s = s) as Hpp by (split; [apply same_record_refl|done]).
  unfold volume_files. destruct (v_ConfigMap v); [by apply Hl|].
  destruct (v_Secret v); [by apply Hl|].
  destruct (serviceAccountVolume v); [|by apply runs_ret].
  destruct (wantsServiceAccountToken pod); [|by apply runs_ret].
  eapply (runs_bind _ _ _ _ (λ _ ps, ps = (p, s)) _ (λ _ ps, ps = (p, s))); [by apply Hl|by intros e ps ->|].
  intros [files expiry] ps ->.
  apply own_modify_step. apply runs_ret. split; [apply trackTokenExpiry_record|done].
Qed.

Lemma resolveFiles_runs p s pod :
  runs (beside view) (p, s) (resolveFiles cfg objects pod)
    (λ _ ps, same_record p ps.1 ∧ ps.2 = s) (λ _ ps, same_record p ps.1 ∧ ps.2 = s).
Proof.
  unfold resolveFiles.
  apply (runs_fold_each _ (λ _ (_ : gmap string (gmap string string)) ps,
    same_record p ps.1 ∧ ps.2 = s)); [split; [apply same_record_refl|done]|].
  intros pre v post out [p1 s1] _ [Hp Hs]. simpl in Hp, Hs. subst s1.
  eapply runs_bind; [apply volume_files_runs| |]; cbv beta.
  - intros e [p2 s2] [Hr Hs]. split; [by eapply same_record_trans|done].
  - intros f [p2 s2] [Hr Hs]. apply runs_ret. split; [by eapply same_record_trans|done].
Qed.

(** The capsule a create makes: the pod's own. *)
Definition capsule_of (pod : Pod) (c : Capsule) : Prop :=
  Capsule_Name c = CapsuleName pod ∧
  PodKeyFromLabels (Capsule_Labels c) = (Namespace pod, Name pod, true) ∧
  PodUID c = UID pod ∧ Capsule_NodeName c = cfg_NodeName cfg.

Lemma built_capsule pod o t c :
  Namespace pod ≠ "" → Name pod ≠ "" → build_template visit pod o = Ok t →
  opt_NodeName o = cfg_NodeName cfg →
  Capsule_Name c = template_name (template_json t) →
  Capsule_Labels c = template_labels_of (template_json t) → capsule_of pod c.
Proof.
  intros Hns Hn Ht Ho Hname Hlab.
  destruct (build_template_inv _ _ _ _ Ht) as (_ & ? & ? & ? & ? & _ & _ & _ & _ & Htpl).
  destruct (template_labels_spec pod o) as [Hl Hnode].
  destruct (ownedLabels_key pod (template_labels pod o) Hns Hn Hl) as [Hk Hu].
  assert (tpl_Labels t = template_labels pod o) as Htl by by rewrite Htpl.
  destruct (template_json_read t) as [H1 H2].
  { rewrite Htl. intros He. rewrite He in Hk. by vm_compute in Hk. }
  rewrite H1 in Hname. rewrite H2, Htl in Hlab. unfold capsule_of, PodUID, Capsule_NodeName.
  rewrite Hlab, Hname, Htpl. split; [done|]. split; [done|]. split; [done|]. by rewrite <-Ho.
Qed.

(** Made by this create: new to its tenant, the pod's own, and nothing else
    changed. *)
Definition made (t : string) (pod : Pod) (s s' : CapState) : Prop :=
  ∃ c, caps s t !! cap_UUID c = None ∧ capsule_of pod c ∧ s' = put t c s.

(** What Zun makes of a template. *)
Definition posted (t : string) (tpl : json) (s : CapState) (c : Capsule) (s' : CapState) : Prop :=
  caps s t !! cap_UUID c = None ∧ Capsule_Name c = template_name tpl ∧
  Capsule_Labels c = template_labels_of tpl ∧ s' = put t c s.

Lemma api_Create_runs s t tpl :
  runs view s (api_Create t tpl) (λ _ s', ∃ c, posted t tpl s c s')
    (λ _ s', s' = s ∨ ∃ c, posted t tpl s c s').
Proof.
  unfold api_Create, Capsule_Create.
  apply (runs_translated view s _ _ (λ _ s', s' = s ∨ ∃ c, posted t tpl s c s')).
  eapply runs_conseq; [apply (law_Post s t)| |]; cbv beta zeta; [|done].
  intros c s' Hc. by exists c.
Qed.

Lemma create_capsule_runs p s t pod :
  Namespace pod ≠ "" → Name pod ≠ "" →
  runs (beside view) (p, s) (create_capsule cfg objects policies visit now t pod)
    (λ _ ps, (∃ p', same_record p p' ∧ ps.1 = trackPod now pod PodPending "Creating" p') ∧
       Validate pod = Ok () ∧ made t pod s ps.2)
    (λ _ ps, same_record p ps.1 ∧ (ps.2 = s ∨ made t pod s ps.2)).
Proof.
  intros Hns Hn. unfold create_capsule.
  eapply runs_bind; [apply resolveFiles_runs| |]; cbv beta.
  { intros e [p1 s1] [H1 H2]. simpl in *. split; [done|by left]. }
  intros files [p1 s1] [H1 H2]. simpl in *. subst s1.
  destruct (dnsConfigFor cfg objects pod) as [searches nameservers].
  assert (∀ A B (r : result A) (f : A → M (PW (Z:=Z)) B) (Q : B → Prov * CapState → Prop) E,
    (∀ a, r = Ok a → runs (beside view) (p1, s) (f a) Q E) → (∀ e, E e (p1, s)) →
    runs (beside view) (p1, s) (lift_result r ≫= f) Q E) as Hlift.
  { intros A B r f Q E HQ HE w Hw. unfold lift_result, mbind, M_bind.
    destruct r; [by apply (HQ a)|]. rewrite Hw. apply HE. }
  apply Hlift; [intros claims _|intros e; split; [done|by left]].
  apply Hlift; [intros networkID _|intros e; split; [done|by left]].
  apply Hlift; [intros groups _|intros e; split; [done|by left]].
  apply Hlift; [intros tpl Htpl|intros e; split; [done|by left]].
  unfold BuildTemplate, mbind, result_bind in Htpl.
  match type of Htpl with context [build_template visit pod ?o'] => set (o := o') in * end.
  destruct (build_template visit pod o) as [tp|] eqn:Ht; [|done]. injection Htpl as <-.
  assert (∀ c s', posted t (template_json tp) s c s' → made t pod s s') as Hmade.
  { intros c s' (Hf & Hcn & Hcl & ->). exists c. split; [done|]. split; [|done].
    by apply (built_capsule pod o tp c). }
  eapply on_service_step; [apply api_Create_runs| |]; cbv beta.
  - intros e s' [->|[c Hc]]; simpl; (split; [done|]); [by left|right; by eapply Hmade].
  - intros u s' [c Hc]. apply own_modify_last. simpl. split; [by exists p1|].
    split; [by apply build_template_inv in Ht as [? _]|by eapply Hmade].
Qed.
End gather.

(** ** The handlers *)
Section handlers.
Context {Z : Type} {api : CapsulesAPI Z} (view : Z → CapState) `{!CapsulesLaws api view}.
Context {J : APIJson}.
Variable cfg : Config.
Variable objects : option ObjectReader.
Variable policies : option (Pod → result (list string)).
Variable visit : nat → gmap string string → list (string * string).
Variable now : Time.

(** What a successful create leaves: the pod recorded as live, over a capsule
    that was there already or over one this create made. *)
Definition adopted (t : string) (pod : Pod) (p : Prov) (s : CapState) (ps : Prov * CapState) : Prop :=
  ps.2 = s ∧ pods ps.1 = <[key_of pod := adopted_pod now pod]> (pods p) ∧
  notified ps.1 = notified p ∧
  ∃ c, caps s t !! cap_UUID c = Some c ∧ is_for (key_of pod) c = true ∧ PodUID c = UID pod.

(** The tenant's capsules of the pod's name: the newest is this pod's, older than
    none; or none is this pod's. *)
Definition has_own (s : CapState) (t : string) (pod : Pod) : Prop :=
  ∃ u c, caps s t !! u = Some c ∧ is_for (key_of pod) c = true ∧ PodUID c = UID pod ∧
    ∀ u' c', caps s t !! u' = Some c' → is_for (key_of pod) c' = true → u' ≠ u →
      after (cap_CreatedAt c) (cap_CreatedAt c') = true.

Definition created (t : string) (pod : Pod) (p : Prov) (s : CapState) (ps : Prov * CapState) : Prop :=
  Validate pod = Ok () ∧ made cfg t pod s ps.2 ∧
  pods ps.1 = <[key_of pod := tracked_pod now PodPending "Creating" pod]> (pods p) ∧
  notified ps.1 = notified p ++ [tracked_pod now PodPending "Creating" pod].

Lemma authorize_step {B} (m : () → M (PW (Z:=Z)) B) p s ns (Q : B → Prov * CapState → Prop) E :
  (ServesNamespace cfg ns = true → runs (beside view) (p, s) (m ()) Q E) →
  (ServesNamespace cfg ns = false → ∀ e, is_not_found e = true → E e (p, s)) →
  runs (beside view) (p, s) (lift_result (authorize cfg ns) ≫= m) Q E.
Proof.
  intros HQ HE w Hw. unfold authorize, lift_result, mbind, M_bind.
  destruct (ServesNamespace cfg ns); [by apply HQ|]. rewrite Hw. by apply HE.
Qed.

(** A listing whose entry for the pod is not its own misses no capsule of its own
    that is the newest. *)
Lemma not_own_listed s t pod m :
  (listing_of s t m ∧ ∀ k c, m !! k = Some c → latest s t k c) → has_own s t pod →
  (match m !! key_of pod with Some c => bool_decide (PodUID c = UID pod) | None => false end) = true.
Proof.
  intros [[H1 H2] H3] (u & c & Hc & Hf & Huid & Hnew).
  destruct (m !! key_of pod) as [c0|] eqn:Hm; [|by rewrite (H2 _ Hm u c Hc) in Hf].
  destruct (H1 _ _ Hm) as [Hc0 Hf0]. apply bool_decide_eq_true.
  destruct (decide (cap_UUID c0 = u)) as [He|Hne]; [rewrite He, Hc in Hc0; congruence|].
  pose proof (Hnew _ _ Hc0 Hf0 Hne) as Ht. by rewrite (H3 _ _ Hm u c Hc Hf) in Ht.
Qed.

Lemma CreatePod_runs p s pod :
  Namespace pod ≠ "" → Name pod ≠ "" →
  runs (beside view) (p, s) (CreatePod cfg objects policies visit now pod)
    (λ _ ps, ServesNamespace cfg (Namespace pod) = true ∧
       ∃ t, capsules_TenantOf (Namespace pod) = Some t ∧
         deleted ps.1 = delete (key_of pod) (deleted p) ∧
         (adopted t pod p s ps ∨
          created t pod p s ps ∧ (listable view s t → ¬ has_own s t pod)))
    (λ e ps, same_record p ps.1 ∧
       (ps.2 = s ∨ ServesNamespace cfg (Namespace pod) = true ∧
          ∃ t, capsules_TenantOf (Namespace pod) = Some t ∧ made cfg t pod s ps.2) ∧
       (ServesNamespace cfg (Namespace pod) = false → ps = (p, s) ∧ is_not_found e = true)).
Proof.
  intros Hns Hn. unfold CreatePod.
  apply authorize_step; [intros Hserve|intros Hserve e He; split;
    [apply same_record_refl|split; [by left|done]]].
  eapply (runs_bind _ _ _ _ (λ _ ps, same_record p ps.1 ∧ ps.2 = s) _
    (λ _ ps, same_record p ps.1 ∧ ps.2 = s)).
  { destruct (_ && _); [apply own_modify_last; by split|apply runs_ret].
    split; [apply same_record_refl|done]. }
  { intros e [p1 s1] [H1 H2]. split; [done|]. split; [by left|by rewrite Hserve]. }
  intros _ [p1 s1] [H1 H2]. simpl in H1, H2. subst s1.
  eapply on_service_step; [apply (law_For s (Namespace pod))| |]; cbv beta.
  { intros e s' ->. split; [done|]. split; [by left|by rewrite Hserve]. }
  intros t s' [-> Ht].
  eapply on_service_step; [apply (try_ListManaged_runs view s t)|done|]; cbv beta.
  intros r s' [-> Hr].
  pose proof H1 as (Hp & Hd & Hno & _).
  match goal with |- runs _ _ (if ?b then _ else _) _ _ => destruct b eqn:Hb end.
  - apply own_modify_last. split; [done|]. exists t. split; [done|].
    simpl. rewrite Hd. split; [done|]. left.
    destruct r as [m|]; [|done]. destruct (m !! key_of pod) as [c|] eqn:Hm; [|done].
    apply bool_decide_eq_true in Hb. destruct Hr as [[Hr _] _]. destruct (Hr _ _ Hm).
    split; [done|]. simpl. rewrite Hp, Hno. split; [done|]. split; [done|]. by exists c.
  - eapply runs_conseq; [apply (create_capsule_runs view cfg objects policies visit now p1 s t pod)| |];
      try done; cbv beta.
    + intros _ ps [(p' & (Hp' & Hd' & Hno' & _) & Heq) [HV Hmade]]. split; [done|].
      exists t. split; [done|]. rewrite Heq. simpl. rewrite Hd', Hd. split; [done|]. right.
      split; [split; [done|]; split; [done|]; rewrite Heq; simpl; by rewrite Hp', Hp, Hno', Hno|].
      intros Hlist Hown. destruct r as [m|]; [|by apply Hr]. rewrite (not_own_listed s t pod m Hr Hown) in Hb. done.
    + intros e ps [Hr' Hs]. split; [by eapply same_record_trans|]. split; [|by rewrite Hserve].
      destruct Hs as [->|Hs]; [by left|right]. split; [done|]. by exists t.
Qed.

(** Everything of a tenant's but the capsule of this name. *)
Definition only_lost (t id : string) (s s' : CapState) : Prop :=
  (∀ t', t' ≠ t → caps s' t' = caps s t') ∧
  (∀ u c, caps s' t !! u = Some c ↔ caps s t !! u = Some c ∧ Capsule_Name c ≠ id).

Lemma only_lost_none t id s : (∀ u, ¬ has_name s t id u) → only_lost t id s s.
Proof.
  intros Hnone. split; [done|]. intros u c. split; [|by intros [? _]].
  intros Hc. split; [done|]. intros Hid. apply (Hnone u). by exists c.
Qed.

Lemma only_lost_remove t id s u :
  has_name s t id u → (∀ u', has_name s t id u' → u' = u) → only_lost t id s (remove t u s).
Proof.
  intros (cu & Hcu & Hid) Huniq. split.
  - intros t' Ht'. by rewrite caps_remove, decide_False.
  - intros u' c. rewrite caps_remove, decide_True, lookup_delete_Some by done. split.
    + intros [Hne Hc]. split; [done|]. intros Hc'. apply Hne. symmetry. apply Huniq.
      by exists c.
    + intros [Hc Hne]. split; [|done]. intros ->. rewrite Hcu in Hc. by injection Hc as ->.
Qed.

Lemma DeletePod_runs p s pod :
  let key := key_of pod in
  let terminated := terminated_pod now (opt_or pod (pods p !! key)) in
  runs (beside view) (p, s) (DeletePod cfg now pod)
    (λ _ ps, ServesNamespace cfg (Namespace pod) = true ∧
       ∃ t, capsules_TenantOf (Namespace pod) = Some t ∧ only_lost t (CapsuleName pod) s ps.2 ∧
         pods ps.1 = <[key := terminated]> (pods p) ∧
         deleted ps.1 = <[key := UID terminated]> (deleted p) ∧
         notified ps.1 = notified p ++ [terminated])
    (λ e ps, ps.1 = p ∧
       (ps.2 = s ∨ ServesNamespace cfg (Namespace pod) = true ∧
          ∃ t, capsules_TenantOf (Namespace pod) = Some t ∧
               only_lost t (CapsuleName pod) s ps.2)).
Proof.
  cbv zeta. unfold DeletePod.
  apply authorize_step; [intros Hserve|intros Hserve e He; by split; [|left]].
  eapply on_service_step; [apply (law_For s (Namespace pod))| |]; cbv beta.
  { intros e s' ->. by split; [|left]. }
  intros t s' [-> Ht].
  assert (∀ s', (∃ u, has_name s t (CapsuleName pod) u ∧ s' = remove t u s ∧
    ∀ u', has_name s t (CapsuleName pod) u' → u' = u) → only_lost t (CapsuleName pod) s s') as Hgone
    by (intros s' (u & Hu & -> & Huniq); by apply only_lost_remove).
  eapply (on_service_step _ _ _ _ _ (λ _ s', only_lost t (CapsuleName pod) s s')
    (λ _ s', s' = s ∨ only_lost t (CapsuleName pod) s s')).
  - apply runs_ignoring. eapply runs_conseq; [apply (Delete_by_name_runs view s t (UID pod))| |];
      cbv beta zeta.
    + intros u s' Hg. by apply Hgone.
    + intros e s' [Hg Hnf]. unfold is_not_found. case_bool_decide as He.
      * destruct (Hnf He) as [-> Hnone]. by apply only_lost_none.
      * destruct Hg as [->|Hg]; [by left|right; by apply Hgone].
  - intros e s' [->|Hg]; simpl; (split; [done|]); [by left|right]. split; [done|]. by exists t.
  - intros u s' Hg. apply own_modify_last. split; [done|]. exists t. split; [done|].
    split; [exact Hg|by repeat split].
Qed.
End handlers.

(** A status with nothing left to run. *)
Definition finished_status (s : PodStatus) : Prop :=
  Phase s = PodSucceeded ∧
  ∀ cs, cs ∈ ContainerStatuses s → cs_Ready cs = false ∧
    ∃ now, cs_State cs = CSTerminated 0 "Deleted" "" None now.

Lemma terminated_finished now pod :
  finished_status (Status (terminated_pod now pod)) ∧ UID (terminated_pod now pod) = UID pod ∧
  map cs_Name (ContainerStatuses (Status (terminated_pod now pod))) =
    match ContainerStatuses (Status pod) with
    | [] => map c_Name (Containers (Spec pod))
    | l => map cs_Name l
    end.
Proof.
  split; [|split; [done|]].
  - split; [done|]. intros cs. simpl. intros (c & -> & _)%list_elem_of_fmap. simpl.
    split; [done|]. by eexists.
  - simpl. rewrite List.map_map. simpl. by destruct (ContainerStatuses (Status pod));
      rewrite ?List.map_map.
Qed.

(** ** Properties *)

(** C2 A create makes at most one capsule, the pod's, and none beside one it can
    see.  A create that succeeds has
    recorded the pod as live -- whatever was known of a deleted one of its name
    is forgotten -- over a capsule of this pod that was already there, nothing
    being made, or over exactly one capsule it made, new, labelled for this pod
    and this node, of a pod that was accepted.  Where the tenant's capsules can be
    listed, it makes none if the newest capsule of the pod's name is the pod's own:
    that one is adopted.  A create that fails leaves the record of pods as it was
    and has made at most that one capsule; in a namespace this node does not serve
    it does nothing at all and answers not found. *)
Theorem CreatePod_correct {Z} {api : CapsulesAPI Z} (view : Z → CapState)
    `{!CapsulesLaws api view} `{!APIJson} (cfg : Config) (objects : option ObjectReader)
    (policies : option (Pod → result (list string)))
    (visit : nat → gmap string string → list (string * string)) (now : Time)
    (p : Prov) (s : CapState) (pod : Pod) :
  Namespace pod ≠ "" → Name pod ≠ "" →
  runs (beside view) (p, s) (CreatePod cfg objects policies visit now pod)
    (λ _ ps, ServesNamespace cfg (Namespace pod) = true ∧
       ∃ t, capsules_TenantOf (Namespace pod) = Some t ∧
         deleted ps.1 = delete (key_of pod) (deleted p) ∧
         (adopted now t pod p s ps ∨
          created cfg now t pod p s ps ∧ (listable view s t → ¬ has_own s t pod)))
    (λ e ps, same_record p ps.1 ∧
       (ps.2 = s ∨ ServesNamespace cfg (Namespace pod) = true ∧
          ∃ t, capsules_TenantOf (Namespace pod) = Some t ∧ made cfg t pod s ps.2) ∧
       (ServesNamespace cfg (Namespace pod) = false → ps = (p, s) ∧ is_not_found e = true)).
Proof. intros Hns Hn. by apply (CreatePod_runs view). Qed.

(** C21 Deleting a pod removes the capsule of that pod and no other, of any
    tenant; what is left on the node is a finished pod with every container
    terminated, reported once, which [GetPod] no longer finds.  A delete that
    fails leaves the pod's record alone, so it is tried again. *)
Theorem DeletePod_correct {Z} {api : CapsulesAPI Z} (view : Z → CapState)
    `{!CapsulesLaws api view} (cfg : Config) (now : Time) (p : Prov) (s : CapState) (pod : Pod) :
  runs (beside view) (p, s) (DeletePod cfg now pod)
    (λ _ ps, ∃ t left, capsules_TenantOf (Namespace pod) = Some t ∧
       only_lost t (CapsuleName pod) s ps.2 ∧
       pods ps.1 = <[key_of pod := left]> (pods p) ∧ notified ps.1 = notified p ++ [left] ∧
       finished_status (Status left) ∧ UID left = UID (opt_or pod (pods p !! key_of pod)) ∧
       GetPod cfg ps.1 (Namespace pod) (Name pod) = Err (not_running (Namespace pod) (Name pod)))
    (λ e ps, ps.1 = p ∧
       (ps.2 = s ∨ ∃ t, capsules_TenantOf (Namespace pod) = Some t ∧
                        only_lost t (CapsuleName pod) s ps.2)).
Proof.
  eapply runs_conseq; [apply (DeletePod_runs view cfg now p s pod)| |]; cbv beta zeta.
  - intros _ ps (Hserve & t & Ht & Hlost & Hp & Hd & Hno).
    set (left := terminated_pod now (opt_or pod (pods p !! key_of pod))) in *.
    exists t, left. do 4 (split; [done|]).
    destruct (terminated_finished now (opt_or pod (pods p !! key_of pod))) as (H1 & H2 & _).
    split; [done|]. split; [done|].
    unfold GetPod, authorize, mbind, result_bind. rewrite Hserve.
    fold (key_of pod). rewrite Hp, Hd, !lookup_insert_eq. by rewrite decide_True.
  - intros e ps [Hp [Hs|(_ & t & Ht & Hs)]]; (split; [done|]); [by left|right; by exists t].
Qed.

(** A pod deleted while another of its name is tracked: the other one is
    reported terminated, and its capsule runs on. *)
Theorem DeletePod_marks_successor (now : Time) (p : Prov) (pod successor : Pod) :
  pods p !! key_of pod = Some successor → UID successor ≠ UID pod →
  let terminated := terminated_pod now (opt_or pod (pods p !! key_of pod)) in
  UID terminated = UID successor ∧ finished_status (Status terminated).
Proof.
  intros Hs Hne. rewrite Hs. simpl.
  destruct (terminated_finished now successor) as (H1 & H2 & _). done.
Qed.

(** ** Witnesses *)
Definition ExJson : APIJson := {|
  probe_json _ := JNull; capabilities_json _ := JNull; seccomp_json s := JString s |}.

Definition ex_config : Config :=
  mkConfig (λ ns, bool_decide (ns = "prod")) "net-1" None "az-1" "amd64" "node-1"
    "cluster.local" "" ["10.0.0.10"] "" None
    (Some (λ _ _, Ok (mkClaimMount "cinder" "vol-1" ""))) false.

Definition ex_objects : ObjectReader :=
  mkObjectReader (λ _ _, Ok (mkConfigMapData {["app.yaml" := "k: v"]} ∅))
    (λ _ _, Err ErrK8sNotFound) (λ _ _, Err ErrK8sNotFound).

Definition ex_tenant (ns : string) : option string := if decide (ns = "prod") then Some "t1" else None.

Definition ex_create : result () * (Prov * CapState) :=
  @CreatePod CapState (RefCapsules ex_tenant) ex_config (Some ex_objects) None in_order ExJson
    (Some 0%Z) web_pod (New, ∅).

Lemma ex_create_ok : is_ok ex_create.1 = true.
Proof. vm_compute. reflexivity. Qed.

Lemma CreatePod_correct_witness :
  ex_create.1 = Ok () ∧ is_Some (pods ex_create.2.1 !! key_of web_pod).
Proof.
  pose proof (@CreatePod_correct CapState (RefCapsules ex_tenant) ref_view
    (RefCapsules_laws ex_tenant) ExJson ex_config (Some ex_objects) None in_order (Some 0%Z)
    New (ref_view ∅) web_pod ltac:(done) ltac:(done) (New, ∅) eq_refl) as H.
  pose proof ex_create_ok as Hok. unfold ex_create in *.
  destruct (CreatePod _ _ _ _ _ _ _) as [[[]|e] [p' s']]; [|discriminate Hok].
  split; [reflexivity|].
  assert (∀ m x, pods p' = <[key_of web_pod := x]> m → is_Some (pods p' !! key_of web_pod)) as Hi
    by (intros m x ->; rewrite lookup_insert_eq; by eexists).
  destruct H as (_ & t & _ & _ & [(_ & Hp & _)|[(_ & _ & Hp & _) _]]); exact (Hi _ _ Hp).
Defined.

(** Deleting the pod that was just created succeeds. *)
Definition ex_delete : result () * (Prov * CapState) :=
  @DeletePod CapState (RefCapsules ex_tenant) ex_config (Some 5%Z) web_pod ex_create.2.

Lemma ex_delete_ok : is_ok ex_delete.1 = true.
Proof. vm_compute. reflexivity. Qed.

Lemma DeletePod_correct_witness :
  ex_delete.1 = Ok () ∧ is_Some (pods ex_delete.2.1 !! key_of web_pod).
Proof.
  pose proof (@DeletePod_correct CapState (RefCapsules ex_tenant) ref_view
    (RefCapsules_laws ex_tenant) ex_config (Some 5%Z) ex_create.2.1 (ref_view ex_create.2.2)
    web_pod ex_create.2 eq_refl) as H.
  pose proof ex_delete_ok as Hok. fold ex_delete in H. revert Hok H. generalize ex_delete.
  intros [[[]|e] [p' s']] Hok H; [|discriminate Hok].
  split; [reflexivity|].
  destruct H as (t & left & _ & _ & Hp & _). simpl in Hp |- *. rewrite Hp, lookup_insert_eq. by eexists.
Defined.
