(* ===== verification/ProviderSync.v ===== *)
(** * pkg/provider/sync.go: capsule state into pod status

    One cycle lists every tenant's capsules and judges every tracked pod
    against what was listed: leave it, report it, fail it, forget it, or
    release the capsule of a finished one. *)

From S2P Require Import Prelude GoStd K8s ZunCapsule ZunStatus ZunTemplate ProviderStreams.
From S2P Require Import ProviderState ProviderCapsules ProviderPods.
From Stdlib Require Import Ascii.

Local Open Scope string_scope.
Local Open Scope list_scope.

Definition capsuleAppearGrace : Z := 30 * second.
Definition capsuleCreateTimeout : Z := 10 * minute.
Definition terminalCapsuleGrace : Z := 60 * minute.

(** [time.Since]; since the zero time it is the longest duration there is. *)
Definition since (now : Z) (t : Time) : Z :=
  match t with Some t => (now - t)%Z | None => (2 ^ 63 - 1)%Z end.

Definition isTerminal (pod : Pod) : bool :=
  bool_decide (Phase (Status pod) = PodSucceeded) || bool_decide (Phase (Status pod) = PodFailed).

(** ** Fingerprints *)
Definition unix (t : Time) : string :=
  pretty (match t with Some n => (n / second)%Z | None => (-62135596800)%Z end).

Definition containerStateKey (st : ContainerState) : string :=
  match st with
  | CSRunning started => "running@" +:+ unix started
  | CSTerminated code reason _ started _ =>
      "terminated:" +:+ reason +:+ ":" +:+ pretty code +:+ "@" +:+ unix started
  | CSWaiting reason _ => "waiting:" +:+ reason
  | CSNone => "unknown"
  end.

Definition boolKey (b : bool) : string := if b then "t" else "f".

Definition statusFingerprint (pod : Pod) : string :=
  let s := Status pod in
  let head := Phase s +:+ "|" +:+ Reason s +:+ "|" +:+ PodIP s in
  let containers := fold_left (λ s c, s +:+ "|" +:+ cs_Name c +:+ ":" +:+
      containerStateKey (cs_State c) +:+ ":" +:+ boolKey (cs_Ready c) +:+ ":" +:+
      pretty (cs_RestartCount c)) (ContainerStatuses s) head in
  fold_left (λ s c, s +:+ "|" +:+ pc_Type c +:+ "=" +:+ pc_Status c) (Conditions s) containers.

(** ** Changing a record *)
Definition failContainers (reason message : string) (t : Time) (l : list ContainerStatus)
    : list ContainerStatus :=
  map (λ st, match cs_State st with
    | CSTerminated _ _ _ _ _ => st
    | _ => mkContainerStatus (cs_Name st) (cs_Image st) (CSTerminated 1 reason message None t)
             false (cs_RestartCount st) (cs_ContainerID st)
    end) l.

Definition updateStatus (pod : Pod) (mutate : Pod → Pod) (p : Prov) : Prov :=
  match pods p !! key_of pod with
  | None => p
  | Some current =>
      let updated := mutate current in
      if decide (statusFingerprint updated = statusFingerprint current) then p
      else notify updated (set_pods <[key_of pod := updated]> p)
  end.

Definition finishedAt (pod : Pod) : Time :=
  let last := fold_left (λ last cs, match cs_State cs with
    | CSTerminated _ _ _ _ finished => if after finished last then finished else last
    | _ => last end) (ContainerStatuses (Status pod)) None in
  match last with
  | None => match StartTime (Status pod) with Some t => t | None => None end
  | Some _ => last
  end.

(** The mutations [syncOnce] hands to [updateStatus]. *)
Definition fail_pod (now : Z) (reason message : string) (pod : Pod) : Pod :=
  let s := Status pod in
  with_status pod (mkPodStatus PodFailed reason (PodIP s) (HostIP s) (StartTime s)
    (PodConditions "Error" false (Some now))
    (failContainers reason message (Some now) (ContainerStatuses s))).

Definition report_pod (now : Z) (cap : Capsule) (ready : bool) (statuses : list ContainerStatus)
    (ip : string) (pod : Pod) : Pod :=
  let s := Status pod in
  with_status pod (mkPodStatus (PhaseOf cap) (cap_StatusReason cap)
    (if decide (ip ≠ "") then ip else PodIP s) (if decide (ip ≠ "") then ip else HostIP s)
    (StartTime s) (PodConditions (cap_Status cap) ready (Some now)) statuses).

(** ** Judging one pod *)
Inductive verdict : Type :=
  | Leave
  | Forget
  | Reclaim (cap : Capsule)
  | Change (mutate : Pod → Pod).

(** The pod's own capsule in the listing. *)
Definition own_capsule (managed : gmap string Capsule) (pod : Pod) : option Capsule :=
  match managed !! key_of pod with
  | Some cap =>
      if decide (PodUID cap ≠ "" ∧ PodUID cap ≠ UID pod) then None else Some cap
  | None => None
  end.

Section sync.
Context {Z : Type} `{!CapsulesAPI Z}.
(** The clock at the cycle, and the orders in which [PodIP]'s two loops visit a
    capsule's addresses. *)
Variable now : BinInt.Z.
Variables nets1 nets2 : Capsule → list string.

Definition judge (managed : gmap string Capsule) (covered : gset string) (pod : Pod) : verdict :=
  match capsules_TenantOf (Namespace pod) with
  | None => Leave
  | Some t =>
      if decide (t ∉ covered) then Leave
      else match own_capsule managed pod with
      | None =>
          if isTerminal pod then Forget
          else
            let young := match StartTime (Status pod) with
              | Some t => bool_decide (since now t < capsuleAppearGrace)%Z
              | None => false end in
            if young : bool then Leave
            else if decide (Phase (Status pod) = PodPending ∨ Phase (Status pod) = PodRunning) then
              Change (fail_pod now "ContainerStatusUnknown"
                "the containers are gone and their outcome cannot be determined")
            else Leave
      | Some cap =>
          if isTerminal pod then Reclaim cap
          else if decide (cap_Status cap = "Creating" ∧ cap_CreatedAt cap ≠ None ∧
                          capsuleCreateTimeout < since now (cap_CreatedAt cap))%Z then
            Change (fail_pod now "FailedCreatePodSandBox"
              "the sandbox never finished being created; no machine claimed this pod")
          else
            let ready := bool_decide (cap_Status cap = "Running") &&
              negb (bool_decide (CapsulePodIP (nets1 cap) cap = "")) && CapsuleReady cap in
            Change (report_pod now cap ready (ContainerStatuses_of pod cap)
              (CapsulePodIP (nets2 cap) cap))
      end
  end.

(** An error here is logged and dropped. *)
Definition reclaimFinished (pod : Pod) (cap : Capsule) : M Z () := λ z,
  let finished := finishedAt pod in
  if decide (finished = None ∨ since now finished < terminalCapsuleGrace)%Z then (Ok (), z)
  else (Ok (), ((t ← capsules_For (Namespace pod); api_Delete t (cap_UUID cap)) z).2).

Definition sync_pod (managed : gmap string Capsule) (covered : gset string) (pod : Pod)
    : M (PW (Z:=Z)) () :=
  match judge managed covered pod with
  | Leave => mret ()
  | Forget => modify (λ p, set_deleted (delete (key_of pod)) (set_pods (delete (key_of pod)) p))
  | Reclaim cap => on_service (reclaimFinished pod cap)
  | Change mutate => modify (updateStatus pod mutate)
  end.

(** One listing per tenant; the first that fails ends the cycle. *)
Definition list_all : M Z (gmap string Capsule * gset string) := λ z,
  fold_each (λ '(managed, covered) t,
    part ← api_ListManaged t;
    mret (part ∪ managed, {[t]} ∪ covered))
    ((∅ : gmap string Capsule), (∅ : gset string)) (capsules_tenants z) z.

(** [tracked] is the pods the map held when the cycle began, in the order the
    range visited them. *)
Definition syncOnce (range_pods : gmap string Pod → list Pod) : M (PW (Z:=Z)) () :=
  p ← own_get;
  let tracked := range_pods (pods p) in
  '(managed, covered) ← on_service list_all;
  for_each tracked (sync_pod managed covered).
End sync.

(** ** Lemmas: listing every tenant *)

Section cycle.
Context {Z : Type} {api : CapsulesAPI Z} (view : Z → CapState) `{!CapsulesLaws api view}.

(** What the cycle knows: every entry of [managed] is a capsule of a covered
    tenant, the newest there that is labelled for its key, and a key without one
    has none there. *)
Definition listed (s : CapState) (managed : gmap string Capsule) (covered : gset string) : Prop :=
  (∀ k c, managed !! k = Some c → is_for k c = true ∧ uuid_like (cap_UUID c) = true ∧
     ∃ t, t ∈ covered ∧ caps s t !! cap_UUID c = Some c ∧ latest s t k c) ∧
  (∀ k, managed !! k = None → ∀ t u c, t ∈ covered → caps s t !! u = Some c → is_for k c = false).

Lemma listed_union s managed covered t part :
  listed s managed covered → listing_of s t part →
  (∀ k c, part !! k = Some c → uuid_like (cap_UUID c) = true ∧ latest s t k c) →
  listed s (part ∪ managed) ({[t]} ∪ covered).
Proof.
  intros [H1 H2] [Hp1 Hp2] Hu. split.
  - intros k c [Hk|[Hk Hm]]%lookup_union_Some_raw.
    + destruct (Hp1 k c Hk), (Hu k c Hk). split; [done|]. split; [done|].
      exists t. split; [set_solver|done].
    + destruct (H1 k c Hm) as (? & ? & t' & ? & ? & ?). split; [done|]. split; [done|].
      exists t'. split; [set_solver|done].
  - intros k [Hk Hm]%lookup_union_None t' u c [->%elem_of_singleton|Ht']%elem_of_union Hc.
    + by apply (Hp2 k Hk u).
    + by apply (H2 k Hm t' u).
Qed.

(** A cycle lists every tenant there is, or stops at one that cannot be listed. *)
Lemma list_all_covers z :
  match list_all z with
  | (Ok (managed, covered), z') =>
      view z' = view z ∧ covered = list_to_set (capsules_tenants z) ∧ listed (view z) managed covered
  | (Err _, z') => view z' = view z ∧ ∃ t, t ∈ capsules_tenants z ∧ ¬ listable view (view z) t
  end.
Proof.
  unfold list_all.
  pose proof (runs_fold_each view
    (λ pre '(managed, covered) s', s' = view z ∧ covered = list_to_set pre ∧ listed (view z) managed covered)
    (capsules_tenants z)
    (λ '(managed, covered) t, part ← api_ListManaged t;
       mret ((part ∪ managed : gmap string Capsule), ({[t]} ∪ covered : gset string)))
    (λ _ s', s' = view z ∧ ∃ t, t ∈ capsules_tenants z ∧ ¬ listable view (view z) t) (∅, ∅) (view z)) as H.
  assert (runs view (view z) (fold_each (λ '(managed, covered) t, part ← api_ListManaged t;
       mret ((part ∪ managed : gmap string Capsule), ({[t]} ∪ covered : gset string))) (∅, ∅) (capsules_tenants z))
    (λ '(managed, covered) s', s' = view z ∧ covered = list_to_set (capsules_tenants z) ∧ listed (view z) managed covered)
    (λ _ s', s' = view z ∧ ∃ t, t ∈ capsules_tenants z ∧ ¬ listable view (view z) t)) as Hall.
  2: { specialize (Hall z eq_refl). by destruct (fold_each _ _ _ z) as [[[managed covered]|e] z']. }
  apply H.
  - split; [done|]. split; [done|]. split; [intros k c Hk; by rewrite lookup_empty in Hk|].
    intros k _ t u c Ht. set_solver.
  - intros pre t post [managed covered] s' Hpre (-> & -> & Hl) z1 Hz1.
    pose proof (ListManaged_runs view (view z) t z1 Hz1) as Hp. unfold mbind, M_bind.
    destruct (api_ListManaged t z1) as [[part|e] z2] eqn:Hlist.
    + destruct Hp as (Hv & Hp & Hu & Hn). simpl. split; [done|]. split; [|apply listed_union; [done|done|]; intros k c Hk; split; [by apply (Hu k)|by apply (Hn k)]].
      rewrite list_to_set_app_L. simpl. set_solver.
    + split; [done|]. exists t. split; [rewrite Hpre; set_solver|]. intros Hok. specialize (Hok z1 Hz1).
      by rewrite Hlist in Hok.
Qed.
End cycle.

(** ** What a cycle promises of one pod *)
Section promise.
Context {Z : Type} `{!CapsulesAPI Z}.
Variable now : BinInt.Z.
Variables nets1 nets2 : Capsule → list string.

Definition judged (covered : gset string) (pod : Pod) : Prop :=
  ∃ t, capsules_TenantOf (Namespace pod) = Some t ∧ t ∈ covered.

Definition stuck (cap : Capsule) : Prop :=
  cap_Status cap = "Creating" ∧
  ∃ made, cap_CreatedAt cap = Some made ∧ (capsuleCreateTimeout < now - made)%Z.

Definition young (pod : Pod) : Prop :=
  ∃ started, StartTime (Status pod) = Some started ∧ (since now started < capsuleAppearGrace)%Z.

(** Nothing of the pod reads as running. *)
Definition all_over (pod : Pod) : Prop :=
  ∀ cs, cs ∈ ContainerStatuses (Status pod) →
    ∃ code reason msg s f, cs_State cs = CSTerminated code reason msg s f.

Definition failed_for (reason : string) (pod : Pod) : Prop :=
  Phase (Status pod) = PodFailed ∧ Reason (Status pod) = reason ∧ all_over pod.

Definition reports (cap : Capsule) (pod pod' : Pod) : Prop :=
  let ip := CapsulePodIP (nets2 cap) cap in
  Phase (Status pod') = PhaseOf cap ∧ Reason (Status pod') = cap_StatusReason cap ∧
  ContainerStatuses (Status pod') = ContainerStatuses_of pod cap ∧
  PodIP (Status pod') = (if decide (ip ≠ "") then ip else PodIP (Status pod)) ∧
  ((∃ t, mkCondition "Ready" "True" "" t ∈ Conditions (Status pod')) →
     cap_Status cap = "Running" ∧ CapsulePodIP (nets1 cap) cap ≠ "" ∧
     cap_Containers cap ≠ [] ∧ Forall serving (cap_Containers cap)).

Definition intended (managed : gmap string Capsule) (pod pod' : Pod) : Prop :=
  (Namespace pod' = Namespace pod ∧ Name pod' = Name pod ∧ UID pod' = UID pod ∧
   Spec pod' = Spec pod) ∧
  match own_capsule managed pod with
  | None => failed_for "ContainerStatusUnknown" pod' ∧ ¬ young pod ∧
            Phase (Status pod) ∈ [PodPending; PodRunning]
  | Some cap => (stuck cap ∧ failed_for "FailedCreatePodSandBox" pod') ∨
                (¬ stuck cap ∧ reports cap pod pod')
  end.

Definition settled (managed : gmap string Capsule) (covered : gset string) (pod : Pod)
    (after : option Pod) : Prop :=
  match after with
  | None => judged covered pod ∧ isTerminal pod = true ∧ own_capsule managed pod = None
  | Some pod' =>
      (pod' = pod ∧
         (¬ judged covered pod ∨ isTerminal pod = true ∨
          (own_capsule managed pod = None ∧
             (young pod ∨ Phase (Status pod) ∉ [PodPending; PodRunning])) ∨
          ∃ q, intended managed pod q ∧ statusFingerprint q = statusFingerprint pod)) ∨
      (judged covered pod ∧ isTerminal pod = false ∧ intended managed pod pod' ∧
         statusFingerprint pod' ≠ statusFingerprint pod)
  end.

(** Long finished, so its capsule may go. *)
Definition ripe (pod : Pod) : Prop :=
  isTerminal pod = true ∧
  ∃ f, finishedAt pod = Some f ∧ (terminalCapsuleGrace ≤ now - f)%Z.

(** *** Judging *)
Lemma failContainers_over reason msg t l cs :
  cs ∈ failContainers reason msg t l →
  ∃ code r m s f, cs_State cs = CSTerminated code r m s f.
Proof.
  unfold failContainers. intros (c & -> & _)%list_elem_of_fmap.
  destruct (cs_State c) eqn:Hs; simpl; rewrite ?Hs; eauto 10.
Qed.

Lemma fail_pod_failed reason msg pod : failed_for reason (fail_pod now reason msg pod).
Proof. split; [done|]. split; [done|]. intros cs. simpl. apply failContainers_over. Qed.

Lemma ready_condition status ready t t' :
  mkCondition "Ready" "True" "" t' ∈ PodConditions status ready t → status = "Running" ∧ ready = true.
Proof.
  unfold PodConditions. destruct (decide (status = "Running")) as [->|Hr].
  - rewrite !elem_of_cons, elem_of_nil. destruct ready; naive_solver.
  - destruct (decide _); rewrite !elem_of_cons, elem_of_nil; naive_solver.
Qed.

Lemma report_pod_reports cap pod :
  reports cap pod (report_pod now cap
    (bool_decide (cap_Status cap = "Running") &&
       negb (bool_decide (CapsulePodIP (nets1 cap) cap = "")) && CapsuleReady cap)
    (ContainerStatuses_of pod cap) (CapsulePodIP (nets2 cap) cap) pod).
Proof.
  split; [done|]. split; [done|]. split; [done|]. split; [done|].
  intros (t & [_ Hr]%ready_condition).
  rewrite !andb_true_iff, negb_true_iff, bool_decide_eq_true, bool_decide_eq_false in Hr.
  destruct Hr as [[Hr Hip] Hc]. split; [done|]. split; [done|].
  unfold CapsuleReady in Hc. rewrite andb_true_iff, negb_true_iff, bool_decide_eq_false,
    forallb_In in Hc. destruct Hc as [Hne Hc]. split; [done|].
  apply Forall_forall. intros c Hin. by apply ContainerReady_spec, Hc.
Qed.

Lemma stuck_spec cap :
  (cap_Status cap = "Creating" ∧ cap_CreatedAt cap ≠ None ∧
     capsuleCreateTimeout < since now (cap_CreatedAt cap))%Z ↔ stuck cap.
Proof.
  unfold stuck, since. destruct (cap_CreatedAt cap); naive_solver.
Qed.

Lemma judge_spec managed covered pod :
  match judge now nets1 nets2 managed covered pod with
  | Leave => ¬ judged covered pod ∨
      (own_capsule managed pod = None ∧
         (young pod ∨ Phase (Status pod) ∉ [PodPending; PodRunning]))
  | Forget => judged covered pod ∧ isTerminal pod = true ∧ own_capsule managed pod = None
  | Reclaim cap =>
      judged covered pod ∧ isTerminal pod = true ∧ own_capsule managed pod = Some cap
  | Change f => judged covered pod ∧ isTerminal pod = false ∧ intended managed pod (f pod)
  end.
Proof.
  unfold judge, judged. destruct (capsules_TenantOf (Namespace pod)) as [t|]; [|naive_solver].
  destruct (decide (t ∉ covered)) as [Hn|Ht%dec_stable]; [naive_solver|].
  assert (∃ t0, Some t = Some t0 ∧ t0 ∈ covered) as Hj by eauto.
  unfold intended. destruct (own_capsule managed pod) as [cap|] eqn:Hown.
  - destruct (isTerminal pod); [done|].
    destruct (decide (cap_Status cap = "Creating" ∧ _)) as [Hs%stuck_spec|Hs].
    + repeat (split; [done|]). left. split; [done|apply fail_pod_failed].
    + rewrite stuck_spec in Hs. repeat (split; [done|]). right.
      split; [done|apply report_pod_reports].
  - destruct (isTerminal pod); [done|].
    match goal with |- context [if ?b then Leave else _] => destruct b eqn:Hy end.
    + right. split; [done|]. left. unfold young. destruct (StartTime (Status pod)) as [t'|]; [|done].
      apply bool_decide_eq_true in Hy. by exists t'.
    + destruct (decide (Phase (Status pod) = PodPending ∨ _)) as [Hp|Hp].
      * repeat (split; [done|]). split; [apply fail_pod_failed|]. split; [|set_solver].
        intros (t' & Ht' & Hlt). rewrite Ht' in Hy. by apply bool_decide_eq_false in Hy.
      * right. split; [done|]. right. set_solver.
Qed.

(** What becomes of a pod, and what the node controller is told. *)
Definition settle (managed : gmap string Capsule) (covered : gset string) (pod : Pod) : option Pod :=
  match judge now nets1 nets2 managed covered pod with
  | Leave | Reclaim _ => Some pod
  | Forget => None
  | Change f => Some (if decide (statusFingerprint (f pod) = statusFingerprint pod) then pod else f pod)
  end.

Definition told (managed : gmap string Capsule) (covered : gset string) (pod : Pod) : option Pod :=
  match judge now nets1 nets2 managed covered pod with
  | Change f => if decide (statusFingerprint (f pod) = statusFingerprint pod) then None else Some (f pod)
  | _ => None
  end.

Lemma settle_settled managed covered pod :
  settled managed covered pod (settle managed covered pod).
Proof.
  pose proof (judge_spec managed covered pod) as H. unfold settle, settled.
  destruct (judge _ _ _ _ _ _); [naive_solver|done|naive_solver|].
  destruct H as (Hj & Ht & Hi). destruct (decide _) as [He|He]; [left|right]; naive_solver.
Qed.

Lemma told_settle managed covered pod pod' :
  told managed covered pod = Some pod' ↔ settle managed covered pod = Some pod' ∧ pod' ≠ pod.
Proof.
  unfold told, settle. destruct (judge _ _ _ _ _ _); [naive_solver|naive_solver|naive_solver|].
  destruct (decide _) as [He|He]; split; [done|naive_solver| |naive_solver].
  intros [= <-]. split; [done|]. intros Heq. by rewrite Heq in He.
Qed.
End promise.

(** ** Lemmas: one pod, then the cycle *)
Section syncing.
Context {Z : Type} {api : CapsulesAPI Z} (view : Z → CapState) `{!CapsulesLaws api view}.
Variable now : BinInt.Z.
Variables nets1 nets2 : Capsule → list string.
Abbreviation settle := (settle now nets1 nets2).
Abbreviation told := (told now nets1 nets2).

(** A capsule may go when it is a long finished pod's own. *)
Definition releasable (managed : gmap string Capsule) (covered : gset string) (pod : Pod)
    (t u : string) : Prop :=
  ripe now pod ∧ judged covered pod ∧ capsules_TenantOf (Namespace pod) = Some t ∧
  ∃ cap, own_capsule managed pod = Some cap ∧ cap_UUID cap = u.

Lemma reclaimFinished_runs s pod cap :
  uuid_like (cap_UUID cap) = true →
  runs view s (reclaimFinished now pod cap)
    (λ _ s', s' = s ∨ ((∃ f, finishedAt pod = Some f ∧ (terminalCapsuleGrace ≤ now - f)%Z) ∧
       ∃ t, capsules_TenantOf (Namespace pod) = Some t ∧ s' = remove t (cap_UUID cap) s))
    (λ _ _, False).
Proof.
  intros Hu z Hz. unfold reclaimFinished. destruct (decide _) as [Hd|Hd]; [by left|].
  assert (∃ f, finishedAt pod = Some f ∧ (terminalCapsuleGrace ≤ now - f)%Z) as Hf.
  { destruct (finishedAt pod) as [f|]; [|naive_solver]. exists f. split; [done|].
    destruct (decide (since now (Some f) < terminalCapsuleGrace)%Z); [naive_solver|].
    simpl in *. lia. }
  assert (runs view s (t ← capsules_For (Namespace pod); api_Delete t (cap_UUID cap))
    (λ _ s', s' = s ∨ ∃ t, capsules_TenantOf (Namespace pod) = Some t ∧ s' = remove t (cap_UUID cap) s)
    (λ _ s', s' = s ∨ ∃ t, capsules_TenantOf (Namespace pod) = Some t ∧ s' = remove t (cap_UUID cap) s))
    as H.
  { step_law (law_For s (Namespace pod)); [intros e s' ->; by left|].
    intros t s' [-> Ht]. eapply runs_conseq; [by apply (Delete_by_uuid_runs view s t)| |]; cbv beta.
    - intros _ s' ->. right. by exists t.
    - intros e s' [->| ->]; [by left|right; by exists t]. }
  specialize (H z Hz).
  match type of H with match ?r with _ => _ end => destruct r as [[[]|e] z'] end; simpl; naive_solver.
Qed.

Lemma sync_pod_runs p s managed covered pod :
  pods p !! key_of pod = Some pod →
  (∀ cap, own_capsule managed pod = Some cap → uuid_like (cap_UUID cap) = true) →
  runs (beside view) (p, s) (sync_pod now nets1 nets2 managed covered pod)
    (λ _ ps, pods ps.1 = partial_alter (λ _, settle managed covered pod) (key_of pod) (pods p) ∧
       notified ps.1 = notified p ++ option_list (told managed covered pod) ∧
       (ps.2 = s ∨ ∃ t u, releasable managed covered pod t u ∧ ps.2 = remove t u s))
    (λ _ _, False).
Proof.
  intros Hp Hu. unfold sync_pod, ProviderSync.settle, ProviderSync.told.
  assert (partial_alter (λ _, Some pod) (key_of pod) (pods p) = pods p) as Hid
    by exact (insert_id (pods p) (key_of pod) pod Hp).
  pose proof (judge_spec now nets1 nets2 managed covered pod) as Hj.
  destruct (judge now nets1 nets2 managed covered pod) as [| |cap|f].
  - apply runs_ret. simpl. rewrite Hid, app_nil_r. auto.
  - apply own_modify_last. simpl. rewrite app_nil_r. auto.
  - destruct Hj as (Hc & Ht & Hown).
    eapply on_service_last; [by apply reclaimFinished_runs, Hu| |done]; cbv beta.
    intros _ s' H. simpl. rewrite Hid, app_nil_r. split; [done|]. split; [done|].
    destruct H as [->|[Hf (t & Htn & ->)]]; [by left|right]. exists t, (cap_UUID cap).
    split; [|done]. split; [done|]. split; [done|]. split; [done|]. by exists cap.
  - apply own_modify_last. unfold updateStatus. simpl. rewrite Hp.
    destruct (decide _); simpl; [rewrite Hid, app_nil_r|]; auto.
Qed.

(** The pods a cycle goes through: every pod tracked, once. *)
Definition well_keyed (m : gmap string Pod) : Prop := ∀ k pod, m !! k = Some pod → key_of pod = k.

Lemma tracked_pods (m : gmap string Pod) tracked :
  well_keyed m → tracked ≡ₚ (map_to_list m).*2 →
  NoDup (map key_of tracked) ∧ ∀ pod, pod ∈ tracked ↔ m !! key_of pod = Some pod.
Proof.
  intros Hwk Hl. split.
  - change (NoDup (key_of <$> tracked)). rewrite Hl.
    replace (key_of <$> (map_to_list m).*2) with ((map_to_list m).*1); [apply NoDup_fst_map_to_list|].
    rewrite <-list_fmap_compose. apply list_fmap_ext. intros i [k pod] Hi. simpl. symmetry.
    apply Hwk. apply elem_of_map_to_list. by eapply list_elem_of_lookup_2.
  - intros pod. rewrite Hl, list_elem_of_fmap. split.
    + intros ([k pod'] & -> & Hin%elem_of_map_to_list). simpl. by rewrite (Hwk k pod').
    + intros H. exists (key_of pod, pod). split; [done|]. by apply elem_of_map_to_list.
Qed.

(** What the cycle leaves of the service: only capsules that may go are gone. *)
Definition only_released (managed : gmap string Capsule) (covered : gset string)
    (tracked : list Pod) (s s' : CapState) : Prop :=
  ∀ t u, caps s' t !! u = caps s t !! u ∨
    (caps s' t !! u = None ∧ ∃ pod, pod ∈ tracked ∧ releasable managed covered pod t u).

Lemma only_released_step managed covered tracked s s1 s2 :
  only_released managed covered tracked s s1 →
  (s2 = s1 ∨ ∃ pod t u, pod ∈ tracked ∧ releasable managed covered pod t u ∧ s2 = remove t u s1) →
  only_released managed covered tracked s s2.
Proof.
  intros H [->|(pod & t & u & Hin & Hr & ->)]; [done|]. intros t' u'. rewrite caps_remove.
  case_decide; [|apply H]. subst t'. destruct (decide (u = u')) as [->|Hne].
  - right. rewrite lookup_delete_eq. split; [done|]. by exists pod.
  - rewrite lookup_delete_ne by done. apply H.
Qed.

Definition progress (p : Prov) (managed : gmap string Capsule) (covered : gset string)
    (tracked : list Pod) (s : CapState) (pre : list Pod) (ps : Prov * CapState) : Prop :=
  (∀ pod, pod ∈ pre → pods ps.1 !! key_of pod = settle managed covered pod) ∧
  (∀ k, k ∉ map key_of pre → pods ps.1 !! k = pods p !! k) ∧
  notified ps.1 = notified p ++ omap (told managed covered) pre ∧
  only_released managed covered tracked s ps.2.

Lemma sync_all_runs p s managed covered tracked :
  NoDup (map key_of tracked) → (∀ pod, pod ∈ tracked → pods p !! key_of pod = Some pod) →
  (∀ pod cap, own_capsule managed pod = Some cap → uuid_like (cap_UUID cap) = true) →
  runs (beside view) (p, s) (for_each tracked (sync_pod now nets1 nets2 managed covered))
    (λ _ ps, progress p managed covered tracked s tracked ps) (λ _ _, False).
Proof.
  intros Hnd Htr Hu.
  apply (runs_for_each _ (λ pre ps, progress p managed covered tracked s pre ps)).
  { split; [by intros ? ?%elem_of_nil|]. split; [done|]. split; [by rewrite app_nil_r|].
    by intros t u; left. }
  intros pre pod post [p1 s1] Hsplit (H1 & H2 & H3 & H4). simpl in *.
  assert (pod ∈ tracked) as Hin by (rewrite Hsplit; set_solver).
  assert (key_of pod ∉ map key_of pre) as Hfresh.
  { rewrite Hsplit, map_app in Hnd. apply NoDup_app in Hnd as (_ & Hd & _). simpl in Hd.
    intros Hk. apply (Hd _ Hk). by left. }
  assert (pods p1 !! key_of pod = Some pod) as Hp1 by (rewrite H2 by done; by apply Htr).
  eapply runs_conseq; [exact (sync_pod_runs p1 s1 managed covered pod Hp1 (Hu pod))| |done].
  cbv beta. intros _ [p2 s2] (Hp & Hn & Hs). simpl in *.
  assert (∀ k, k ≠ key_of pod → pods p2 !! k = pods p1 !! k) as Hother
    by (intros k Hk; rewrite Hp; by rewrite lookup_partial_alter_ne by done).
  split; [|split; [|split]]; simpl.
  - intros q [Hq| ->%list_elem_of_singleton]%elem_of_app.
    + rewrite Hother; [by apply H1|]. intros Heq. apply Hfresh. rewrite <-Heq.
      by apply (list_elem_of_fmap_2 key_of).
    + by rewrite Hp, lookup_partial_alter_eq.
  - intros k Hk. rewrite map_app in Hk. simpl in Hk. rewrite not_elem_of_app in Hk.
    destruct Hk as [Hk1 Hk2]. rewrite Hother; [by apply H2|]. set_solver.
  - rewrite Hn, H3, omap_app, <-app_assoc. by f_equal.
  - eapply only_released_step; [exact H4|]. destruct Hs as [->|(t & u & Hr & ->)]; [by left|].
    right. by exists pod, t, u.
Qed.

(** What the pods it went through leave, said of every key. *)
Lemma cycle_settled p s managed covered tracked p' s' :
  well_keyed (pods p) → (∀ pod, pod ∈ tracked ↔ pods p !! key_of pod = Some pod) → listed view s managed covered →
  progress p managed covered tracked s tracked (p', s') →
  listed view s managed covered ∧
  (∀ k, match pods p !! k with
        | Some pod => settled now nets1 nets2 managed covered pod (pods p' !! k)
        | None => pods p' !! k = None
        end) ∧
  (∃ news, notified p' = notified p ++ news ∧ ∀ pod', pod' ∈ news ↔
     ∃ k pod, pods p !! k = Some pod ∧ pods p' !! k = Some pod' ∧ pod' ≠ pod) ∧
  ∀ t u, caps s' t !! u = caps s t !! u ∨
    (caps s' t !! u = None ∧ ∃ k pod, pods p !! k = Some pod ∧ releasable managed covered pod t u).
Proof.
  intros Hwk Htr Hl (H1 & H2 & H3 & H4). simpl in *.
  assert (∀ k pod, pods p !! k = Some pod → pods p' !! k = settle managed covered pod) as Hset.
  { intros k pod Hk. pose proof (Hwk k pod Hk) as <-. apply H1. by apply Htr. }
  split; [done|]. split; [|split].
  - intros k. destruct (pods p !! k) as [pod|] eqn:Hk.
    + rewrite (Hset k pod Hk). apply settle_settled.
    + rewrite H2; [done|]. change (map key_of ?l) with (key_of <$> l).
      intros (pod & -> & Hpod)%list_elem_of_fmap. apply Htr in Hpod. congruence.
  - eexists. split; [exact H3|]. intros pod'. rewrite list_elem_of_omap.
    setoid_rewrite told_settle. split.
    + intros (pod & Hin%Htr & Hs & Hne). exists (key_of pod), pod. by rewrite (Hset _ _ Hin).
    + intros (k & pod & Hk & Hs & Hne). pose proof (Hwk k pod Hk) as <-. exists pod.
      rewrite (Hset _ _ Hk) in Hs. split; [by apply Htr|done].
  - intros t u. destruct (H4 t u) as [H|(H & pod & Hin%Htr & Hr)]; [by left|right].
    split; [done|]. by exists (key_of pod), pod.
Qed.
End syncing.

(** ** Properties *)

(** C13 One cycle of the status sync.  It lists every tenant there is; where one
    cannot be listed nothing is touched.  Otherwise every tracked pod of a tenant
    is settled by what was listed, which is the newest capsule labelled for each
    pod: a pod that is finished, or too young to be missed, is left as it was; one
    whose capsule is lost, or never left Creating, is failed with no container
    reading as running; any other reports its own capsule, ready only when that
    serves; a finished one with no capsule left is forgotten.  Nothing else appears
    in or leaves the record, the node controller is told of exactly the pods that
    changed, and the only capsules gone are those of pods that finished over an
    hour before. *)
Theorem syncOnce_correct {Z} {api : CapsulesAPI Z} (view : Z → CapState)
    `{!CapsulesLaws api view} (now : BinInt.Z) (nets1 nets2 : Capsule → list string)
    (range_pods : gmap string Pod → list Pod) (p : Prov) (z : Z) :
  well_keyed (pods p) → range_pods (pods p) ≡ₚ (map_to_list (pods p)).*2 →
  let s := view z in
  let covered := list_to_set (capsules_tenants z) in
  match syncOnce now nets1 nets2 range_pods (p, z) with
  | (Ok _, (p', z')) => ∃ managed, listed view s managed covered ∧
       (∀ k, match pods p !! k with
             | Some pod => settled now nets1 nets2 managed covered pod (pods p' !! k)
             | None => pods p' !! k = None
             end) ∧
       (∃ news, notified p' = notified p ++ news ∧ ∀ pod', pod' ∈ news ↔
          ∃ k pod, pods p !! k = Some pod ∧ pods p' !! k = Some pod' ∧ pod' ≠ pod) ∧
       ∀ t u, caps (view z') t !! u = caps s t !! u ∨
         (caps (view z') t !! u = None ∧ ∃ k pod, pods p !! k = Some pod ∧
            releasable now managed covered pod t u)
  | (Err _, (p', z')) => p' = p ∧ view z' = s ∧ ∃ t, t ∈ capsules_tenants z ∧ ¬ listable view s t
  end.
Proof.
  intros Hwk Hperm s covered. destruct (tracked_pods (pods p) (range_pods (pods p)) Hwk Hperm) as [Hnd Htr].
  pose proof (list_all_covers view z) as Hla. unfold syncOnce, own_get, on_service, mbind, M_bind. simpl.
  destruct (list_all z) as [[[managed covered']|e] z1]; [|by destruct Hla as [? ?]].
  destruct Hla as (Hv & -> & Hl). fold covered in Hl |- *.
  pose proof (sync_all_runs view now nets1 nets2 p s managed covered _ Hnd) as Hrun.
  assert (∀ pod, pod ∈ range_pods (pods p) → pods p !! key_of pod = Some pod) as H1 by (intros pod; apply Htr).
  assert (∀ pod cap, own_capsule managed pod = Some cap → uuid_like (cap_UUID cap) = true) as H2.
  { intros pod cap Hown. destruct Hl as [Hl _]. unfold own_capsule in Hown.
    destruct (managed !! key_of pod) as [c|] eqn:Hm; [|done].
    destruct (decide _); [done|]. injection Hown as ->. by destruct (Hl _ _ Hm) as (_ & ? & _). }
  specialize (Hrun H1 H2 (p, z1)). unfold beside at 1 in Hrun. simpl in Hrun.
  specialize (Hrun ltac:(by rewrite Hv)). clear H1 H2.
  destruct (for_each (range_pods (pods p)) (sync_pod now nets1 nets2 managed covered) (p, z1)) as [[[]|e] [p' z']]; [|done].
  exists managed. by eapply cycle_settled.
Qed.

(** ** What modelling showed *)

(** The listings of several tenants are one map keyed by label: a capsule in
    another tenant's project that carries this pod's labels speaks for it. *)
Definition forged : Capsule :=
  mkCapsule "22222222" "Stopped" "" "h" None ∅ [] "x"
    (ownedLabels ex_status_pod) "" (ownedLabels ex_status_pod).
Definition genuine : Capsule :=
  mkCapsule "11111111" "Running" "" "h" None ∅ [] "x"
    (ownedLabels ex_status_pod) "" (ownedLabels ex_status_pod).
Definition two_tenants : CapState := {["t1" := {["11111111" := genuine]};
  "t2" := {["22222222" := forged]}]}.

Definition ex_running : Pod :=
  with_status ex_status_pod (mkPodStatus PodRunning "" "" "" (Some (Some 0%Z)) [] []).
Definition ex_tracked : Prov := set_pods <[key_of ex_running := ex_running]> New.
Definition all_pods (m : gmap string Pod) : list Pod := (map_to_list m).*2.

Theorem syncOnce_trusts_other_tenants :
  ex_tenant "prod" = Some "t1" ∧
  (Phase ∘ Status) <$> pods (@syncOnce CapState (RefCapsules ex_tenant) (90 * minute)
    (λ _, []) (λ _, []) all_pods (ex_tracked, two_tenants)).2.1 !! key_of ex_running =
    Some PodSucceeded.
Proof. split; vm_compute; reflexivity. Qed.

(** A cycle judges the pods it found at its start and writes to the pods there
    are at its end.  A pod created meanwhile under the name of a finished one is
    dropped from the record. *)
Theorem stale_pod_forgets_successor {Z} {api : CapsulesAPI Z} (now : BinInt.Z)
    (nets1 nets2 : Capsule → list string) managed covered (old successor : Pod) (p : Prov) (z : Z) :
  judge now nets1 nets2 managed covered old = Forget → key_of successor = key_of old →
  pods p !! key_of successor = Some successor →
  pods (sync_pod now nets1 nets2 managed covered old (p, z)).2.1 !! key_of successor = None.
Proof. intros Hj Hk Hs. unfold sync_pod. rewrite Hj, Hk. apply lookup_delete_eq. Qed.

(** A pod deleted meanwhile is brought back to life by the status of the capsule
    that was listed before it went. *)
Theorem stale_status_revives_deleted :
  let deleted_pod := terminated_pod (Some 0%Z) ex_running in
  let p := set_pods <[key_of ex_running := deleted_pod]> New in
  (Phase ∘ Status) <$> pods (@sync_pod CapState (RefCapsules ex_tenant) (90 * minute)
    (λ _, []) (λ _, []) {[key_of ex_running := genuine]} {["t1"]} ex_running
    (p, ∅)).2.1 !! key_of ex_running = Some PodRunning.
Proof. vm_compute. reflexivity. Qed.

(** ** Witness *)
Lemma syncOnce_correct_witness :
  ∃ ps, @syncOnce CapState (RefCapsules ex_tenant) (90 * minute) (λ _, []) (λ _, []) all_pods
    (ex_tracked, {["t1" := ∅]}) = (Ok (), ps) ∧
  ∃ pod', pods ps.1 !! key_of ex_running = Some pod'.
Proof.
  pose proof (@syncOnce_correct CapState (RefCapsules ex_tenant) ref_view
    (RefCapsules_laws ex_tenant) (90 * minute) (λ _, []) (λ _, []) all_pods ex_tracked {["t1" := ∅]}) as H.
  specialize (H ltac:(intros k pod; unfold ex_tracked; simpl; rewrite lookup_insert_Some,
    lookup_empty; intros [[<- <-]|[_ Hk]]; [reflexivity|discriminate Hk])).
  specialize (H ltac:(reflexivity)). cbv zeta in H.
  destruct (syncOnce _ _ _ _ _) as [[[]|e] [p' z']] eqn:Hs; [|vm_compute in Hs; discriminate Hs].
  exists (p', z'). split; [reflexivity|].
  destruct H as (managed & _ & Hset & _). specialize (Hset (key_of ex_running)).
  replace (pods ex_tracked !! key_of ex_running) with (Some ex_running) in Hset
    by (vm_compute; reflexivity).
  simpl in Hset |- *.
  destruct (pods p' !! key_of ex_running) as [pod'|]; [by exists pod'|].
  destruct Hset as (_ & Ht & _). vm_compute in Ht. discriminate Ht.
Defined.
