(* ===== verification/ProviderOrphans.v ===== *)
(** * pkg/provider/orphans.go: capsules nothing needs any more

    The sweep compares every capsule of every tenant with the cluster's own
    pods.  Deleting one still in use destroys a running workload, so what is
    proved is what a deleted capsule must have been. *)

From S2P Require Import Prelude GoStd K8s ZunCapsule ZunStatus ZunTemplate ProviderStreams.
From S2P Require Import ProviderState ProviderCapsules ProviderPods.
From Stdlib Require Import Ascii.

Local Open Scope string_scope.
Local Open Scope list_scope.

Definition orphanGrace : Z := 5 * minute.

(** [apierrors.IsNotFound]. *)
Definition k8s_not_found (e : gerror) : bool := bool_decide (root_cause e = ErrK8sNotFound).

(** [c.PodUID() != "" && c.PodUID() != podUID]. *)
Definition other_pod (podUID : string) (c : Capsule) : bool :=
  bool_decide (PodUID c ≠ "") && bool_decide (PodUID c ≠ podUID).

(** The loop that chooses the capsule a live pod keeps.  Pointers are compared
    there, so a capsule is known by its place in the list. *)
Definition keep_step (podUID : string) (keep : option (nat * Capsule)) (ic : nat * Capsule)
    : option (nat * Capsule) :=
  if other_pod podUID ic.2 then keep
  else match keep with
  | None => Some ic
  | Some k => if after (cap_CreatedAt ic.2) (cap_CreatedAt k.2) then Some ic else keep
  end.

Definition numbered (l : list Capsule) : list (nat * Capsule) := imap pair l.

Definition keep_of (podUID : string) (capsules : list Capsule) : option (nat * Capsule) :=
  fold_left (keep_step podUID) (numbered capsules) None.

(** Too young to judge. *)
Definition too_young (now : Z) (c : Capsule) : bool :=
  match cap_CreatedAt c with
  | Some made => bool_decide (now - made < orphanGrace)%Z
  | None => false
  end.

Definition orphans_but (now : Z) (keep : option (nat * Capsule)) (capsules : list Capsule)
    : list Capsule :=
  (filter (λ ic : nat * Capsule, fst <$> keep ≠ Some ic.1 ∧ too_young now ic.2 = false)
    (numbered capsules)).*2.

(** [reportedUnowned], called for its record. *)
Definition reportedUnowned (uuid : string) (p : Prov) : Prov := set_unowned (union {[uuid]}) p.

Section orphans.
Context {Z : Type} `{!CapsulesAPI Z}.
Variable cfg : Config.
Variable now : BinInt.Z.
(** [podLister.Pods(namespace).Get(name)], [nil] where there is no cache, and
    [podsSynced]. *)
Variable podLister : option (string → string → result Pod).
Variable podsSynced : option bool.
(** The order in which a listing is ranged over. *)
Variable range_managed : gmap string (list Capsule) → list (string * list Capsule).

(** The loop that keeps this node's capsules and mentions the unowned. *)
Definition mine_step (acc : list Capsule * Prov) (c : Capsule) : list Capsule * Prov :=
  if decide (Capsule_NodeName c = cfg_NodeName cfg) then (acc.1 ++ [c], acc.2)
  else if decide (Capsule_NodeName c = "") then (acc.1, reportedUnowned (cap_UUID c) acc.2)
  else acc.

Definition orphansAmong (lister : string → string → result Pod) (key : string)
    (capsules : list Capsule) (p : Prov) : list Capsule * Prov :=
  match SplitPodKey key with
  | Err _ => ([], p)
  | Ok (namespace, name) =>
      match authorize cfg namespace with
      | Err _ => ([], p)
      | Ok _ =>
          let '(mine, p) := fold_left mine_step capsules ([], p) in
          match mine with
          | [] => ([], p)
          | _ =>
              match lister namespace name with
              | Ok pod => (orphans_but now (keep_of (UID pod) mine) mine, p)
              | Err e => if k8s_not_found e then (orphans_but now None mine, p) else ([], p)
              end
          end
      end
  end.

(** Errors of a delete are logged. *)
Definition delete_logged (t : string) (c : Capsule) : M (PW (Z:=Z)) () :=
  _ ← on_service (try (api_Delete t (cap_UUID c))); mret ().

Definition sweep_key (lister : string → string → result Pod) (t : string)
    (kc : string * list Capsule) : M (PW (Z:=Z)) () :=
  p ← own_get;
  let '(orphans, p') := orphansAmong lister kc.1 kc.2 p in
  modify (λ _, p') ≫= λ _,
  for_each orphans (delete_logged t).

Definition sweep_tenant (lister : string → string → result Pod) (t : string) : M (PW (Z:=Z)) () :=
  r ← on_service (try (api_ListManagedAll t));
  match r with
  | Err _ => mret ()
  | Ok managed => for_each (range_managed managed) (sweep_key lister t)
  end.

Definition sweepOrphans : M (PW (Z:=Z)) () :=
  match podLister with
  | None => mret ()
  | Some lister =>
      if decide (podsSynced = Some false) then mret ()
      else λ pz, for_each (capsules_tenants pz.2) (sweep_tenant lister) pz
  end.
End orphans.

(** ** Lemmas: choosing *)
Lemma after_trans a b c : after a b = false → after b c = false → after a c = false.
Proof. unfold after. destruct a, b, c; intros; try done; lia. Qed.

Lemma after_irrefl a : after a a = false.
Proof. unfold after. destruct a; [lia|done]. Qed.

Lemma after_asym a b : after a b = true → after b a = false.
Proof. unfold after. destruct a, b; intros; try done; lia. Qed.

Lemma keep_fold_spec podUID l keep :
  match fold_left (keep_step podUID) l keep with
  | None => keep = None ∧ ∀ ic, ic ∈ l → other_pod podUID ic.2 = true
  | Some k => (keep = Some k ∨ k ∈ l ∧ other_pod podUID k.2 = false) ∧
      (∀ ic, keep = Some ic ∨ ic ∈ l ∧ other_pod podUID ic.2 = false →
         after (cap_CreatedAt ic.2) (cap_CreatedAt k.2) = false)
  end.
Proof.
  revert keep. induction l as [|c l IH]; intros keep; simpl.
  - destruct keep as [k|]; [|split; [done|]; by intros ? ?%elem_of_nil].
    split; [by left|]. intros ic [[= ->]|[[]%elem_of_nil _]]. apply after_irrefl.
  - specialize (IH (keep_step podUID keep c)). unfold keep_step in *.
    destruct (other_pod podUID c.2) eqn:Ho.
    { destruct (fold_left _ l keep) as [k|]; setoid_rewrite elem_of_cons; [|naive_solver].
      destruct IH as [IH1 IH2]. split; [naive_solver|].
      intros ic [H|[[->|H] H']]; [apply IH2; naive_solver|congruence|apply IH2; naive_solver]. }
    destruct keep as [k0|].
    + destruct (after (cap_CreatedAt c.2) (cap_CreatedAt k0.2)) eqn:Ha;
        destruct (fold_left _ l _) as [k|]; try (destruct IH as [? _]; discriminate);
        setoid_rewrite elem_of_cons; destruct IH as [IH1 IH2]; (split; [naive_solver|]).
      * intros ic [[= <-]|[[->|H] H']]; [|apply IH2; naive_solver|apply IH2; naive_solver].
        apply after_trans with (cap_CreatedAt c.2); [by apply after_asym|apply IH2; naive_solver].
      * intros ic [[= <-]|[[->|H] H']]; [apply IH2; naive_solver| |apply IH2; naive_solver].
        apply after_trans with (cap_CreatedAt k0.2); [done|apply IH2; naive_solver].
    + destruct (fold_left _ l _) as [k|]; [|destruct IH as [? _]; discriminate].
      setoid_rewrite elem_of_cons. destruct IH as [IH1 IH2]. split; [naive_solver|].
      intros ic [[=]|[[->|H] H']]; apply IH2; naive_solver.
Qed.

Lemma elem_of_numbered l i c : (i, c) ∈ numbered l ↔ l !! i = Some c.
Proof.
  unfold numbered. rewrite list_elem_of_lookup. setoid_rewrite list_lookup_imap_Some. naive_solver.
Qed.

(** ** Lemmas: what is chosen *)
Section chosen.
Variable cfg : Config.
Variable now : Z.
Variable lister : string → string → result Pod.

Definition own_node (c : Capsule) : Prop := Capsule_NodeName c = cfg_NodeName cfg.

Definition old_enough (c : Capsule) : Prop :=
  ∀ made, cap_CreatedAt c = Some made → (orphanGrace ≤ now - made)%Z.

(** Of the live pod itself, as far as its labels tell. *)
Definition of_pod (pod : Pod) (c : Capsule) : Prop := PodUID c = "" ∨ PodUID c = UID pod.

Lemma other_pod_false uid c : other_pod uid c = false ↔ PodUID c = "" ∨ PodUID c = uid.
Proof.
  unfold other_pod. rewrite andb_false_iff, !bool_decide_eq_false.
  destruct (decide (PodUID c = "")), (decide (PodUID c = uid)); naive_solver.
Qed.

Lemma too_young_false c : too_young now c = false ↔ old_enough c.
Proof.
  unfold too_young, old_enough. destruct (cap_CreatedAt c) as [m|]; [|naive_solver].
  rewrite bool_decide_eq_false. split; [intros H ? [= <-]; lia|intros H; specialize (H m eq_refl); lia].
Qed.

(** What a capsule must be for the sweep to choose it, among the tenant's. *)
Definition orphaned (among : Capsule → Prop) (key : string) (c : Capsule) : Prop :=
  ∃ ns name, SplitPodKey key = Ok (ns, name) ∧ ServesNamespace cfg ns = true ∧
    is_for key c = true ∧ own_node c ∧ old_enough c ∧
    match lister ns name with
    | Err e => k8s_not_found e = true
    | Ok pod => ¬ of_pod pod c ∨
        ∃ c', among c' ∧ c' ≠ c ∧ is_for key c' = true ∧ own_node c' ∧ of_pod pod c' ∧
          after (cap_CreatedAt c) (cap_CreatedAt c') = false
    end.

(** The record but for what has been mentioned. *)
Definition but_mentioned (p p' : Prov) : Prop :=
  pods p' = pods p ∧ deleted p' = deleted p ∧ notified p' = notified p ∧
  cpuRates p' = cpuRates p ∧ tokenExpiries p' = tokenExpiries p ∧ events p' = events p.

Lemma but_mentioned_trans p1 p2 p3 : but_mentioned p1 p2 → but_mentioned p2 p3 → but_mentioned p1 p3.
Proof.
  unfold but_mentioned. intros (-> & -> & -> & -> & -> & ->) (-> & -> & -> & -> & -> & ->). done.
Qed.

Lemma mine_fold l acc p :
  let r := fold_left (mine_step cfg) l (acc, p) in
  r.1 = acc ++ filter own_node l ∧ but_mentioned p r.2.
Proof.
  revert acc p. induction l as [|c l IH]; intros acc p; simpl; [by rewrite app_nil_r|].
  assert (mine_step cfg (acc, p) c =
    if decide (own_node c) then (acc ++ [c], p)
    else if decide (Capsule_NodeName c = "") then (acc, reportedUnowned (cap_UUID c) p)
    else (acc, p)) as -> by done.
  rewrite filter_cons. destruct (decide (own_node c)).
  - destruct (IH (acc ++ [c]) p) as [-> ?]. by rewrite <-app_assoc.
  - destruct (decide (Capsule_NodeName c = "")); [|apply IH].
    destruct (IH acc (reportedUnowned (cap_UUID c) p)) as [-> ?]. by split.
Qed.

Lemma orphans_but_spec keep l c :
  c ∈ orphans_but now keep l ↔ ∃ i, l !! i = Some c ∧ fst <$> keep ≠ Some i ∧ old_enough c.
Proof.
  unfold orphans_but. rewrite list_elem_of_fmap. setoid_rewrite list_elem_of_filter. split.
  - intros ([i c'] & -> & [Hk Hy] & Hin%elem_of_numbered). exists i. simpl in *.
    by rewrite <-too_young_false.
  - intros (i & Hi & Hk & Hy). exists (i, c). simpl. rewrite elem_of_numbered, too_young_false. done.
Qed.

(** A live pod's newest capsule is kept, and whatever is not kept is superseded
    by it. *)
Lemma keep_of_spec pod l :
  (∃ c, c ∈ l ∧ of_pod pod c) →
  ∃ i c, keep_of (UID pod) l = Some (i, c) ∧ l !! i = Some c ∧ of_pod pod c ∧
    ∀ c', c' ∈ l → of_pod pod c' → after (cap_CreatedAt c') (cap_CreatedAt c) = false.
Proof.
  intros (c0 & [i0 H0]%list_elem_of_lookup & Hof0). unfold keep_of.
  pose proof (keep_fold_spec (UID pod) (numbered l) None) as H.
  destruct (fold_left _ _ _) as [[i c]|].
  - destruct H as [[H|[Hin Ho]] Hmax]; [done|]. exists i, c. split; [done|].
    split; [by apply elem_of_numbered|]. split; [by apply other_pod_false|].
    intros c' [j Hj]%list_elem_of_lookup Hof. apply (Hmax (j, c')). right.
    split; [by apply elem_of_numbered|by apply other_pod_false].
  - destruct H as [_ H]. specialize (H (i0, c0)). rewrite elem_of_numbered in H. specialize (H H0).
    apply other_pod_false in Hof0. simpl in H. congruence.
Qed.

Lemma orphansAmong_spec key l p :
  NoDup l → (∀ c, c ∈ l → is_for key c = true) →
  let r := orphansAmong cfg now lister key l p in
  but_mentioned p r.2 ∧
  (∀ c, c ∈ r.1 → c ∈ l ∧ orphaned (λ c', c' ∈ l) key c) ∧
  (∀ ns name pod, SplitPodKey key = Ok (ns, name) → lister ns name = Ok pod →
     (∃ c, c ∈ l ∧ own_node c ∧ of_pod pod c) →
     ∃ c, c ∈ l ∧ own_node c ∧ of_pod pod c ∧ c ∉ r.1).
Proof.
  intros Hnd Hfor. cbv zeta. unfold orphansAmong.
  assert (∀ ns name pod, (∃ c, c ∈ l ∧ own_node c ∧ of_pod pod c) →
    SplitPodKey key = Ok (ns, name) → ∃ c, c ∈ l ∧ own_node c ∧ of_pod pod c ∧ c ∉ ([] : list Capsule))
    as Hkeepnil by (intros ns name pod (c & ? & ? & ?) _; exists c; rewrite elem_of_nil; auto).
  destruct (SplitPodKey key) as [[ns name]|e] eqn:Hk;
    [|split; [done|]; split; [by intros c ?%elem_of_nil|done]].
  unfold authorize. destruct (ServesNamespace cfg ns) eqn:Hs;
    [|split; [done|]; split; [by intros c ?%elem_of_nil|naive_solver]].
  destruct (mine_fold l [] p) as [Hm Hp]. simpl in Hm.
  destruct (fold_left (mine_step cfg) l ([], p)) as [mine p']. simpl in *.
  assert (∀ c, c ∈ mine ↔ own_node c ∧ c ∈ l) as Hmine
    by (intros c; rewrite Hm; apply list_elem_of_filter).
  assert (NoDup mine) as Hndm by (rewrite Hm; by apply NoDup_filter).
  destruct mine as [|m0 mine'] eqn:Hmeq.
  { split; [done|]. split; [by intros c ?%elem_of_nil|naive_solver]. }
  rewrite <-Hmeq in *. destruct (lister ns name) as [pod|e] eqn:Hl.
  - split; [done|]. simpl. split.
    + intros c (i & Hi & Hne & Hold)%orphans_but_spec.
      assert (c ∈ mine) as [Hown Hin]%Hmine by (by eapply list_elem_of_lookup_2).
      split; [done|]. exists ns, name. split; [done|]. split; [done|]. split; [by apply Hfor|].
      split; [done|]. split; [done|]. rewrite Hl.
      destruct (decide (PodUID c = "" ∨ PodUID c = UID pod)) as [Hof|Hof]; [right|by left].
      destruct (keep_of_spec pod mine) as (j & c' & Hkeep & Hj & Hof' & Hmax).
      { exists c. split; [by apply Hmine|done]. }
      assert (c' ∈ mine) as [Hown' Hin']%Hmine by (by eapply list_elem_of_lookup_2).
      exists c'. split; [done|]. split; [|split; [by apply Hfor|]].
      * intros ->. rewrite Hkeep in Hne. simpl in Hne. apply Hne. f_equal.
        by eapply NoDup_lookup.
      * split; [done|]. split; [done|]. apply Hmax; [by apply Hmine|done].
    + intros ns' name' pod' [= <- <-] Hpod. rewrite Hl in Hpod. injection Hpod as <-.
      intros (c & Hin & Hown & Hof).
      destruct (keep_of_spec pod mine) as (j & c' & Hkeep & Hj & Hof' & Hmax).
      { exists c. split; [by apply Hmine|done]. }
      assert (c' ∈ mine) as [Hown' Hin']%Hmine by (by eapply list_elem_of_lookup_2).
      exists c'. split; [done|]. split; [done|]. split; [done|].
      intros (i & Hi & Hne & _)%orphans_but_spec. apply Hne. rewrite Hkeep. simpl. f_equal.
      by eapply NoDup_lookup.
  - destruct (k8s_not_found e) eqn:He.
    + split; [done|]. split; [|intros ns' name' pod' [= <- <-] Hpod; congruence]. simpl.
      intros c (i & Hi & _ & Hold)%orphans_but_spec.
      assert (c ∈ mine) as [Hown Hin]%Hmine by (by eapply list_elem_of_lookup_2).
      split; [done|]. exists ns, name. rewrite Hl. split; [done|]. split; [done|].
      split; [by apply Hfor|done].
    + split; [done|]. split; [by intros c ?%elem_of_nil|].
      intros ns' name' pod' [= <- <-] Hpod; congruence.
Qed.
End chosen.

(** ** Lemmas: the sweep *)
Section sweep.
Context {Z : Type} {api : CapsulesAPI Z} (view : Z → CapState) `{!CapsulesLaws api view}.
Variable cfg : Config.
Variable now : BinInt.Z.
Variable lister : string → string → result Pod.
Variable range_managed : gmap string (list Capsule) → list (string * list Capsule).
Hypothesis Hrange : ∀ m, range_managed m ≡ₚ map_to_list m.

Definition in_tenant (s : CapState) (t : string) (c : Capsule) : Prop :=
  caps s t !! cap_UUID c = Some c.

(** A capsule of a live pod. *)
Definition serves (s : CapState) (t key : string) (pod : Pod) (c : Capsule) : Prop :=
  in_tenant s t c ∧ is_for key c = true ∧ own_node cfg c ∧ of_pod pod c.

Definition swept (s s' : CapState) : Prop :=
  (∀ t u, caps s' t !! u = caps s t !! u ∨
     (caps s' t !! u = None ∧ ∃ key c, caps s t !! u = Some c ∧
        orphaned cfg now lister (in_tenant s t) key c)) ∧
  (∀ t key ns name pod, SplitPodKey key = Ok (ns, name) → lister ns name = Ok pod →
     (∃ c, serves s t key pod c) → ∃ c, serves s' t key pod c).

Lemma nothing_swept s : swept s s.
Proof. split; [by left|done]. Qed.

Lemma sweeps_swept s1 s2 s3 : swept s1 s2 → swept s2 s3 → swept s1 s3.
Proof.
  intros [H1 K1] [H2 K2]. split; [|naive_solver].
  assert (∀ t u c, caps s2 t !! u = Some c → caps s1 t !! u = Some c) as Hsub.
  { intros t u c Hc. destruct (H1 t u) as [<-|[Hn _]]; [done|congruence]. }
  intros t u. destruct (H2 t u) as [Heq|(Hn & key & c & Hc & Ho)]; [rewrite Heq; apply H1|].
  right. split; [done|]. exists key, c. split; [by apply Hsub|].
  destruct Ho as (ns & name & ? & ? & ? & ? & ? & Hw). exists ns, name. repeat (split; [done|]).
  destruct (lister ns name) as [pod|]; [|done]. destruct Hw as [Hw|(c' & Hin & Hw)]; [by left|right].
  exists c'. split; [by apply Hsub|done].
Qed.

Lemma orphansAmong_indep key l p p' :
  (orphansAmong cfg now lister key l p).1 = (orphansAmong cfg now lister key l p').1.
Proof.
  unfold orphansAmong. destruct (SplitPodKey key) as [[ns name]|]; [|done].
  destruct (authorize cfg ns); [|done].
  destruct (mine_fold cfg l [] p) as [H1 _], (mine_fold cfg l [] p') as [H2 _].
  destruct (fold_left _ l ([], p)) as [m1 p1], (fold_left _ l ([], p')) as [m2 p2].
  simpl in *. rewrite H1, H2. destruct (filter _ l); [done|].
  destruct (lister ns name); [done|]. by destruct (k8s_not_found _).
Qed.

Lemma is_for_inj k1 k2 c : is_for k1 c = true → is_for k2 c = true → k1 = k2.
Proof.
  unfold is_for. destruct (PodKeyFromLabels _) as [[ns name] ok].
  rewrite !andb_true_iff, !bool_decide_eq_true. by intros [_ <-] [_ <-].
Qed.

(** The deletions of a tenant, whatever comes of each. *)
Definition deleted_from (t : string) (dead : list string) (s s' : CapState) : Prop :=
  (∀ t', t' ≠ t → caps s' t' = caps s t') ∧
  (∀ u, caps s' t !! u = caps s t !! u ∨ (caps s' t !! u = None ∧ u ∈ dead)).

Lemma deleted_from_step t dead s s1 s2 u :
  deleted_from t dead s s1 → (s2 = s1 ∨ s2 = remove t u s1) → deleted_from t (dead ++ [u]) s s2.
Proof.
  intros [H1 H2] Hs. assert (deleted_from t (dead ++ [u]) s s1) as Hw.
  { split; [done|]. intros u'. destruct (H2 u') as [|[? ?]]; [by left|right; set_solver]. }
  destruct Hs as [->| ->]; [done|]. destruct Hw as [_ Hw]. split.
  - intros t' Ht'. rewrite caps_remove, decide_False by done. by apply H1.
  - intros u'. rewrite caps_remove, decide_True by done.
    destruct (decide (u = u')) as [->|Hne].
    + right. rewrite lookup_delete_eq. split; [done|set_solver].
    + rewrite lookup_delete_ne by done. apply Hw.
Qed.

Lemma delete_all_runs p s0 s t dead orphans :
  deleted_from t dead s0 s → (∀ c, c ∈ orphans → uuid_like (cap_UUID c) = true) →
  runs (beside view) (p, s) (for_each orphans (delete_logged t))
    (λ _ ps, ps.1 = p ∧ deleted_from t (dead ++ map cap_UUID orphans) s0 ps.2) (λ _ _, False).
Proof.
  intros H0 Hu.
  apply (runs_for_each _ (λ pre ps, ps.1 = p ∧
    deleted_from t (dead ++ map cap_UUID pre) s0 ps.2)).
  { split; [done|]. by rewrite app_nil_r. }
  intros pre c post [p1 s1] Hsplit [Hp Hd]. simpl in *. subst p1. unfold delete_logged.
  eapply (on_service_step _ _ _ _ _ (λ _ s', s' = s1 ∨ s' = remove t (cap_UUID c) s1) (λ _ _, False));
    [|done|].
  - apply runs_try. eapply runs_conseq; [apply (Delete_by_uuid_runs view s1 t)| |]; cbv beta.
    + apply Hu. rewrite Hsplit. set_solver.
    + intros _ s' ->. by right.
    + intros e s' H. exact H.
  - intros r s' Hs'. apply runs_ret. split; [done|]. simpl.
    rewrite map_app, app_assoc. by eapply deleted_from_step.
Qed.

Section tenant.
Variables (t : string) (s : CapState) (l : list Capsule).
Hypothesis Hl : l ≡ₚ (map_to_list (caps s t)).*2.
Hypothesis Hk : keyed view s t.

Definition group (key : string) : list Capsule := filter (λ c, is_for key c = true) l.
Definition chosen (key : string) : list Capsule := (orphansAmong cfg now lister key (group key) New).1.

Lemma listed_in c : c ∈ l ↔ in_tenant s t c.
Proof. by apply (keyed_listed view s t). Qed.

Lemma group_in key c : c ∈ group key ↔ is_for key c = true ∧ in_tenant s t c.
Proof. unfold group. by rewrite list_elem_of_filter, listed_in. Qed.

Lemma chosen_spec key :
  (∀ c, c ∈ chosen key → in_tenant s t c ∧ is_for key c = true ∧
     orphaned cfg now lister (in_tenant s t) key c) ∧
  (∀ ns name pod, SplitPodKey key = Ok (ns, name) → lister ns name = Ok pod →
     (∃ c, serves s t key pod c) → ∃ c, serves s t key pod c ∧ c ∉ chosen key).
Proof.
  destruct (orphansAmong_spec cfg now lister key (group key) New) as (_ & H1 & H2).
  { apply NoDup_filter. by apply (keyed_NoDup view s t). }
  { intros c Hc. by apply group_in in Hc as [? _]. }
  split.
  - intros c Hc. destruct (H1 c Hc) as [[Hf Hin]%group_in Ho]. split; [done|]. split; [done|].
    destruct Ho as (ns & name & ? & ? & ? & ? & ? & Hw). exists ns, name. repeat (split; [done|]).
    destruct (lister ns name) as [pod|]; [|done]. destruct Hw as [Hw|(c' & Hin' & Hw)]; [by left|right].
    exists c'. split; [by apply group_in in Hin' as [_ ?]|done].
  - intros ns name pod Hs Hp (c & Hin & Hf & Hown & Hof).
    destruct (H2 ns name pod Hs Hp) as (c' & [Hf' Hin']%group_in & Hown' & Hof' & Hn).
    { exists c. by rewrite group_in. }
    by exists c'.
Qed.

Lemma sweep_keys_runs p :
  runs (beside view) (p, s) (for_each (range_managed (group_managed l)) (sweep_key cfg now lister t))
    (λ _ ps, but_mentioned p ps.1 ∧ swept s ps.2) (λ _ _, False).
Proof.
  set (kcs := range_managed (group_managed l)).
  assert (∀ key cs, (key, cs) ∈ kcs → cs = group key) as Hgroup.
  { intros key cs Hin. unfold kcs in Hin. rewrite Hrange, elem_of_map_to_list in Hin.
    by apply group_managed_Some in Hin as [-> _]. }
  eapply runs_conseq; [apply (runs_for_each _ (λ pre ps, but_mentioned p ps.1 ∧
    deleted_from t (flat_map (λ kc, map cap_UUID (chosen kc.1)) pre) s ps.2)
    kcs _ (λ _ _, False))| |done].
  - split; [done|]. split; [done|]. by left.
  - intros pre [key cs] post [p1 s1] Hsplit [Hp1 Hd1]. simpl in *.
    assert (cs = group key) as -> by (apply Hgroup; rewrite Hsplit; set_solver).
    unfold sweep_key. apply own_get_step. simpl.
    destruct (orphansAmong_spec cfg now lister key (group key) p1) as (Hbm & _).
    { apply NoDup_filter. by apply (keyed_NoDup view s t). }
    { intros c Hc. by apply group_in in Hc as [? _]. }
    pose proof (orphansAmong_indep key (group key) p1 New) as Hind. fold (chosen key) in Hind.
    destruct (orphansAmong cfg now lister key (group key) p1) as [os p2]. simpl in *. subst os.
    apply own_modify_step.
    eapply runs_conseq; [apply (delete_all_runs p2 s s1 t _ (chosen key) Hd1)| |done]; cbv beta.
    + intros c Hc. destruct (proj1 (chosen_spec key) c Hc) as (Hin & _). by apply (Hk _ c).
    + intros _ [p3 s3] [-> Hd3]. simpl in *. split; [by eapply but_mentioned_trans|].
      rewrite flat_map_app. simpl. by rewrite app_nil_r.
  - cbv beta. intros _ [p' s'] [Hbm [H1 H2]]. split; [done|]. simpl in *.
    assert (∀ c, in_tenant s t c → cap_UUID c ∈ flat_map (λ kc, map cap_UUID (chosen kc.1)) kcs →
      ∃ key, c ∈ chosen key) as Hdead.
    { intros c Hin ([key cs] & Hkc & Hu)%list_elem_of_In%in_flat_map. simpl in Hu.
      apply list_elem_of_In in Hu. apply (list_elem_of_fmap cap_UUID) in Hu as (c' & Heq & Hc').
      destruct (proj1 (chosen_spec key) c' Hc') as (Hin' & _). exists key.
      unfold in_tenant in *. rewrite Heq, Hin' in Hin. by injection Hin as ->. }
    assert (∀ t' c, t' ≠ t → in_tenant s t' c → in_tenant s' t' c) as Hoth
      by (intros t' c Hne Hin; unfold in_tenant; by rewrite H1).
    split.
    + intros t' u. destruct (decide (t' = t)) as [->|Hne]; [|left; by rewrite H1].
      destruct (H2 u) as [|[Hn Hu]]; [by left|].
      destruct (caps s t !! u) as [c|] eqn:Hcu; [right|left; by rewrite Hn]. split; [done|].
      destruct (Hk u c Hcu) as [<- _]. destruct (Hdead c Hcu Hu) as [key Hkey].
      exists key, c. split; [done|]. by destruct (proj1 (chosen_spec key) c Hkey) as (_ & _ & ?).
    + intros t' key ns name pod Hs Hp Hex. destruct (decide (t' = t)) as [->|Hne].
      * destruct (proj2 (chosen_spec key) ns name pod Hs Hp Hex) as (c & (Hin & Hf & Hw) & Hn).
        exists c. split; [|done]. unfold in_tenant. destruct (H2 (cap_UUID c)) as [->|[_ Hu]]; [done|].
        destruct (Hdead c Hin Hu) as [key' Hkey'].
        destruct (proj1 (chosen_spec key') c Hkey') as (_ & Hf' & _).
        by rewrite (is_for_inj key key' c) in Hn.
      * destruct Hex as (c & Hin & Hw). exists c. split; [by apply Hoth|done].
Qed.
End tenant.

Lemma sweep_tenant_runs p s t :
  runs (beside view) (p, s) (sweep_tenant cfg now range_managed lister t)
    (λ _ ps, but_mentioned p ps.1 ∧ swept s ps.2) (λ _ _, False).
Proof.
  unfold sweep_tenant.
  eapply (on_service_step _ _ _ _ _ (λ r s', s' = s ∧ match r with
    | Ok m => ∃ l, m = group_managed l ∧ l ≡ₚ (map_to_list (caps s t)).*2 ∧ keyed view s t
    | Err _ => True end) (λ _ _, False)); [|done|].
  - apply runs_try. eapply runs_conseq; [apply (ListManagedAll_runs view s t)| |]; cbv beta;
      [by intros m s' (-> & l & -> & Hl & Hk); eauto|by intros e s' ->].
  - intros [m|e] s' [-> H].
    + destruct H as (l & -> & Hl & Hk). by apply sweep_keys_runs.
    + apply runs_ret. split; [done|apply nothing_swept].
Qed.
End sweep.

(** ** Properties *)

(** C16 The orphan sweep never costs a live workload.  Without a pod cache, or
    before it has synced, it does nothing; a listing that fails skips its tenant;
    and every capsule that is gone afterwards was one of this node's, of a
    namespace it serves, past the grace period, whose pod the cache says is not
    there, or which belongs to an earlier pod of the name, or is a duplicate no
    newer than another of the same pod that stays.  A live pod that had a capsule
    still has one, and the provider's own record is untouched. *)
Theorem sweepOrphans_safe {Z} {api : CapsulesAPI Z} (view : Z → CapState)
    `{!CapsulesLaws api view} (cfg : Config) (now : BinInt.Z)
    (podLister : option (string → string → result Pod)) (podsSynced : option bool)
    (range_managed : gmap string (list Capsule) → list (string * list Capsule))
    (p : Prov) (s : CapState) :
  (∀ m, range_managed m ≡ₚ map_to_list m) →
  runs (beside view) (p, s) (sweepOrphans cfg now podLister podsSynced range_managed)
    (λ _ ps, but_mentioned p ps.1 ∧
       match podLister with
       | None => ps = (p, s)
       | Some lister =>
           (podsSynced = Some false → ps = (p, s)) ∧ swept cfg now lister s ps.2
       end)
    (λ _ _, False).
Proof.
  intros Hrange. unfold sweepOrphans. destruct podLister as [lister|]; [|by apply runs_ret].
  destruct (decide (podsSynced = Some false)) as [Hsync|Hsync].
  { apply runs_ret. split; [done|]. split; [done|apply nothing_swept]. }
  assert (∀ l, runs (beside view) (p, s) (for_each l (sweep_tenant cfg now range_managed lister))
    (λ _ ps, but_mentioned p ps.1 ∧ (podsSynced = Some false → ps = (p, s)) ∧
       swept cfg now lister s ps.2) (λ _ _, False)) as H.
  { intros l. eapply runs_conseq; [apply (runs_for_each _ (λ _ ps, but_mentioned p ps.1 ∧
      swept cfg now lister s ps.2) l _ (λ _ _, False))| |done].
    - split; [done|apply nothing_swept].
    - intros pre t post [p1 s1] _ [Hp1 Hs1].
      eapply runs_conseq; [by apply (sweep_tenant_runs view)| |done]; cbv beta.
      intros _ [p2 s2] [Hp2 Hs2]. simpl in *. split; [by eapply but_mentioned_trans|].
      by eapply sweeps_swept.
    - intros _ ps [Hbm Hsw]. split; [exact Hbm|]. by split. }
  intros pz Hpz. exact (H (capsules_tenants pz.2) pz Hpz).
Qed.

(** ** What modelling showed *)

(** A capsule with no creation time has no grace: its pod need only be missing
    from the cache. *)
Theorem no_CreatedAt_no_grace (cfg : Config) (now : Z) (lister : string → string → result Pod)
    (ns name : string) (c : Capsule) (e : gerror) :
  SplitPodKey (PodKey ns name) = Ok (ns, name) → ServesNamespace cfg ns = true →
  Capsule_NodeName c = cfg_NodeName cfg → lister ns name = Err e → root_cause e = ErrK8sNotFound →
  cap_CreatedAt c = None →
  (orphansAmong cfg now lister (PodKey ns name) [c] New).1 = [c].
Proof.
  intros Hk Hs Hn Hl He Hc. unfold orphansAmong, authorize. rewrite Hk, Hs. simpl.
  unfold mine_step. rewrite decide_True by done. simpl. rewrite Hl. unfold k8s_not_found.
  rewrite bool_decide_true by done. unfold orphans_but, numbered. simpl.
  rewrite filter_cons, decide_True; [done|]. by unfold too_young; simpl; rewrite Hc.
Qed.

(** ** Witness *)
Definition sweep_config : Config :=
  mkConfig (λ ns, bool_decide (ns = "prod")) "net-1" None "az-1" "amd64" "node-1"
    "cluster.local" "" ["10.0.0.10"] "" None None false.
Definition sweep_labels : gmap string string := <[LabelNodeName := "node-1"]>
  {[LabelManagedBy := ManagedByValue; LabelNamespace := "prod"; LabelPodName := "api-0";
    LabelPodUID := "u1"]}.
Definition old_capsule : Capsule :=
  mkCapsule "11111111" "Running" "" "h" (Some 0%Z) ∅ [] "x" sweep_labels "" sweep_labels.
Definition new_capsule : Capsule :=
  mkCapsule "22222222" "Running" "" "h" (Some second) ∅ [] "x" sweep_labels "" sweep_labels.
Definition sweep_pod : Pod :=
  mkPod "prod" "api-0" "u1" ∅ [] None
    (mkPodSpec false false false "" "default-scheduler" "" None None None "" None [] "" []
       [empty_container "app"]) empty_status.
Definition sweep_state : CapState :=
  {["t1" := {["11111111" := old_capsule; "22222222" := new_capsule]}]}.
Definition sweep_lister (ns name : string) : result Pod := Ok sweep_pod.

Definition ex_sweep : result () * (Prov * CapState) :=
  @sweepOrphans CapState (RefCapsules ex_tenant) sweep_config (60 * minute) (Some sweep_lister) (Some true)
    map_to_list (New, sweep_state).

(** The duplicate goes, the newest stays. *)
Lemma sweepOrphans_safe_witness :
  (caps ex_sweep.2.2 "t1" !! "11111111" = None ∧
   caps ex_sweep.2.2 "t1" !! "22222222" = Some new_capsule) ∧
  swept sweep_config (60 * minute) sweep_lister (ref_view sweep_state) (ref_view ex_sweep.2.2).
Proof.
  split; [split; vm_compute; reflexivity|].
  pose proof (@sweepOrphans_safe CapState (RefCapsules ex_tenant) ref_view
    (RefCapsules_laws ex_tenant) sweep_config (60 * minute) (Some sweep_lister) (Some true) map_to_list
    New (ref_view sweep_state) ltac:(reflexivity) (New, sweep_state) eq_refl) as H.
  fold ex_sweep in H. destruct ex_sweep as [[[]|e] [p' s']]; [|destruct H].
  destruct H as (_ & _ & Hsw). exact Hsw.
Defined.
