(* ===== verification/ProviderTokens.v ===== *)
(** * pkg/provider/satoken.go: renewing service account tokens

    When a token is due, what renewing one does, and what becomes of it when
    its pod has gone. *)

From S2P Require Import Prelude GoStd K8s ZunCapsule ZunStatus ZunTemplate ProviderStreams.
From S2P Require Import ProviderState ProviderCapsules ProviderPods.
From Stdlib Require Import Ascii.

Local Open Scope string_scope.
Local Open Scope list_scope.

(** [refreshAt]: [until] and [again] are the clock where [time.Until] and
    [time.Now] read it. *)
Definition refreshAt (until again expiry : Z) : Z :=
  let life := (expiry - until)%Z in
  if decide (life ≤ 0)%Z then again else (expiry + Z.quot (- life) 5)%Z.

(** [now.After(refreshAt(e.at))]. *)
Definition is_due (now : Z) (clock : Z * Z) (e : tokenExpiry) : bool :=
  match te_at e with
  | Some at_ => bool_decide (refreshAt clock.1 clock.2 at_ < now)%Z
  | None => false
  end.

(** The entries that are due; [clock i] is when the [i]th is looked at. *)
Definition due (now : Z) (clock : nat → Z * Z) (entries : list tokenExpiry) : list tokenExpiry :=
  (filter (λ ie : nat * tokenExpiry, is_due now (clock ie.1) ie.2 = true)
    (imap pair entries)).*2.

Section tokens.
Context {Z : Type} `{!CapsulesAPI Z}.
Variable cfg : Config.
Variable objects : option ObjectReader.
(** [POST .../update_file] of a tenant: capsule, path, contents. *)
Variable update_file : string → string → string → string → M Z ().

Definition UpdateFile (t id path contents : string) : M Z () :=
  translated (update_file t id path contents).

Definition refreshToken (e : tokenExpiry) : M (PW (Z:=Z)) () :=
  p ← own_get;
  match pods p !! te_pod e with
  | None => modify (set_expiries (delete (te_pod e)))
  | Some pod =>
      let mount := mountPathOf pod (te_volume e) in
      if decide (mount = "") then
        fail (ErrMsg ("volume " +:+ te_volume e +:+ " is mounted nowhere in this pod"))
      else
        '(files, expiry) ← lift_result (serviceAccountFiles cfg objects pod);
        match files !! "token" with
        | None => fail (ErrMsg "the new token was empty")
        | Some token =>
            t ← on_service (capsules_For (Namespace pod));
            capsules ← on_service (api_ListManaged t);
            match capsules !! te_pod e with
            | None => fail (ErrMsg "no capsule is running for this pod")
            | Some cap =>
                if decide (cap_UUID cap = "") then
                  fail (ErrMsg "no capsule is running for this pod")
                else
                  _ ← on_service (UpdateFile t (cap_UUID cap) (path_Join [mount; "token"]) token);
                  modify (trackTokenExpiry pod (te_volume e) expiry)
            end
        end
  end.

(** A failure is logged and left for the next tick. *)
Definition refreshDueTokens (now : BinInt.Z) (clock : nat → BinInt.Z * BinInt.Z)
    (range_expiries : gmap string tokenExpiry → list tokenExpiry) : M (PW (Z:=Z)) () :=
  p ← own_get;
  for_each (due now clock (range_expiries (tokenExpiries p)))
    (λ e, _ ← try (refreshToken e); mret ()).
End tokens.

(** ** Lemmas *)
Lemma refreshAt_not_before until again expiry :
  (until ≤ again)%Z → (until ≤ refreshAt until again expiry)%Z.
Proof.
  intros H. unfold refreshAt. destruct (decide _) as [Hl|Hl]; [done|].
  rewrite Z.quot_opp_l by lia. rewrite Z.quot_div_nonneg by lia.
  assert ((expiry - until) / 5 ≤ expiry - until)%Z by (apply Z.div_le_upper_bound; lia). lia.
Qed.

Section renewing.
Context {Z : Type} {api : CapsulesAPI Z} (view : Z → CapState) `{!CapsulesLaws api view}.
Variable cfg : Config.
Variable objects : option ObjectReader.
Variable update_file : string → string → string → string → M Z ().

(** The token came to the capsule: the last call was this update, of a world
    whose capsules are [s], and it was accepted. *)
Definition delivered (s : CapState) (t u path token : string) (z' : Z) : Prop :=
  ∃ z, view z = s ∧ update_file t u path token z = (Ok (), z').

Definition renewed (e : tokenExpiry) (pod : Pod) (s : CapState) (p' : Prov) (p : Prov) (z' : Z)
    : Prop :=
  ∃ files expiry token t u c,
    serviceAccountFiles cfg objects pod = Ok (files, expiry) ∧ files !! "token" = Some token ∧
    capsules_TenantOf (Namespace pod) = Some t ∧
    caps s t !! u = Some c ∧ cap_UUID c = u ∧ is_for (te_pod e) c = true ∧
    delivered s t u (path_Join [mountPathOf pod (te_volume e); "token"]) token z' ∧
    p' = trackTokenExpiry pod (te_volume e) expiry p.

Lemma refreshToken_runs e p z :
  match refreshToken cfg objects update_file e (p, z) with
  | (Ok _, (p', z')) =>
      match pods p !! te_pod e with
      | None => p' = set_expiries (delete (te_pod e)) p ∧ z' = z
      | Some pod => renewed e pod (view z) p' p z'
      end
  | (Err _, (p', _)) => p' = p ∧ is_Some (pods p !! te_pod e)
  end.
Proof.
  unfold refreshToken, own_get, mbind, M_bind. simpl.
  destruct (pods p !! te_pod e) as [pod|] eqn:Hp; [|done].
  destruct (decide (mountPathOf pod (te_volume e) = "")) as [Hm|Hm]; [done|].
  unfold lift_result. destruct (serviceAccountFiles cfg objects pod) as [[files expiry]|err] eqn:Hf;
    [|done].
  destruct (files !! "token") as [token|] eqn:Ht; [|done].
  unfold on_service. simpl.
  pose proof (law_For (view z) (Namespace pod) z eq_refl) as Hfor.
  destruct (capsules_For (Namespace pod) z) as [[t|err] z1]; [|done]. destruct Hfor as [Hv Htn]. simpl.
  pose proof (ListManaged_runs view (view z1) t z1 eq_refl) as Hl.
  destruct (api_ListManaged t z1) as [[m|err] z2]; [|done]. destruct Hl as (Hv2 & [Hl _] & _).
  destruct (m !! te_pod e) as [c|] eqn:Hc; [|done].
  destruct (decide (cap_UUID c = "")); [done|].
  unfold UpdateFile, translated. simpl.
  destruct (update_file _ _ _ _ z2) as [[[]|err] z3] eqn:Hu; [|done]. simpl.
  destruct (Hl _ _ Hc) as [Hcap Hfor]. rewrite Hv in Hcap.
  exists files, expiry, token, t, (cap_UUID c), c. repeat (split; [done|]).
  split; [|done]. exists z2. split; [by rewrite Hv2|done].
Qed.
End renewing.

(** ** Properties *)

(** Renewing a token: for a pod that has gone, the entry is forgotten and
    nothing is asked of anyone; otherwise a success means that a fresh token of
    the pod's own account was written to the token file under the volume's
    mount, in a capsule that is the pod's, in its own tenant, and that its expiry
    is what is waited for next; a failure leaves the entry as it was, to be tried
    again. *)
Theorem refreshToken_correct {Z} {api : CapsulesAPI Z} (view : Z → CapState)
    `{!CapsulesLaws api view} (cfg : Config) (objects : option ObjectReader)
    (update_file : string → string → string → string → M Z ()) (e : tokenExpiry) (p : Prov) (z : Z) :
  match refreshToken cfg objects update_file e (p, z) with
  | (Ok _, (p', z')) =>
      match pods p !! te_pod e with
      | None => p' = set_expiries (delete (te_pod e)) p ∧ z' = z
      | Some pod => renewed view cfg objects update_file e pod (view z) p' p z'
      end
  | (Err _, (p', _)) => p' = p ∧ is_Some (pods p !! te_pod e)
  end.
Proof. apply (refreshToken_runs view). Qed.

(** ** What modelling showed *)

(** No token is ever due.  [refreshAt] measures 80% of what is left of the token
    at the moment it is asked, so its answer is never in the past; a token that
    has run out answers with the present. *)
Theorem tokens_never_due (now : Z) (clock : nat → Z * Z) (entries : list tokenExpiry) :
  (∀ i, now ≤ (clock i).1 ≤ (clock i).2)%Z → due now clock entries = [].
Proof.
  intros Hclock. unfold due.
  assert (∀ l : list (nat * tokenExpiry), filter (λ ie : nat * tokenExpiry,
    is_due now (clock ie.1) ie.2 = true) l = []) as H; [|by rewrite H].
  induction l as [|[i e] l IH]; [done|]. rewrite filter_cons, decide_False; [done|].
  simpl. unfold is_due. destruct (te_at e) as [at_|]; [|done]. rewrite bool_decide_eq_true.
  pose proof (Hclock i). pose proof (refreshAt_not_before (clock i).1 (clock i).2 at_). lia.
Qed.

Theorem refreshDueTokens_does_nothing {Z} {api : CapsulesAPI Z} (cfg : Config)
    (objects : option ObjectReader) (update_file : string → string → string → string → M Z ())
    (now : BinInt.Z) (clock : nat → BinInt.Z * BinInt.Z) range_expiries (p : Prov) (z : Z) :
  (∀ i, now ≤ (clock i).1 ≤ (clock i).2)%Z →
  refreshDueTokens cfg objects update_file now clock range_expiries (p, z) = (Ok (), (p, z)).
Proof.
  intros H. unfold refreshDueTokens, own_get, mbind, M_bind. simpl. by rewrite tokens_never_due.
Qed.

(** ** Witness *)
Definition token_config : Config :=
  mkConfig (λ _, true) "net-1" None "az-1" "amd64" "node-1" "cluster.local" "" [] ""
    (Some (λ _ _ _, Ok ("jwt", Some 0%Z))) None false.
Definition token_container : Container :=
  mkContainer "app" "" [] [] "" [] [] (mkResources ∅ ∅)
    [mkVolumeMount "kube-api-access-x" "/run/sa" "" ""] None None None None.
Definition token_pod : Pod :=
  mkPod "prod" "api-0" "u1" ∅ [] None
    (mkPodSpec false false false "" "default-scheduler" "" None None None "" None [] "" []
       [token_container]) empty_status.
Definition token_entry : tokenExpiry := mkTokenExpiry "prod/api-0" "kube-api-access-x" (Some 0%Z).
Definition token_labels : gmap string string :=
  {[LabelManagedBy := ManagedByValue; LabelNamespace := "prod"; LabelPodName := "api-0";
    LabelPodUID := "u1"]}.
Definition token_state : CapState := {["t1" := {["11111111" :=
  mkCapsule "11111111" "Running" "" "h" (Some 0%Z) ∅ [] "x" token_labels "" token_labels]}]}.
Definition token_prov : Prov := set_pods <["prod/api-0" := token_pod]> New.
Definition accept_update (t id path contents : string) : M CapState () := mret ().
Definition ex_refresh : result () * (Prov * CapState) :=
  @refreshToken CapState (RefCapsules ex_tenant) token_config None accept_update token_entry
    (token_prov, token_state).

Lemma refreshToken_correct_witness :
  ex_refresh.1 = Ok () ∧
  @renewed CapState (RefCapsules ex_tenant) ref_view token_config None accept_update token_entry token_pod
    (ref_view token_state) ex_refresh.2.1 token_prov ex_refresh.2.2.
Proof.
  pose proof (@refreshToken_correct CapState (RefCapsules ex_tenant) ref_view
    (RefCapsules_laws ex_tenant) token_config None accept_update token_entry token_prov token_state)
    as H.
  fold ex_refresh in H. assert (is_ok ex_refresh.1 = true) as Hok by (vm_compute; reflexivity).
  assert (pods token_prov !! te_pod token_entry = Some token_pod) as Hp by (vm_compute; reflexivity).
  rewrite Hp in H. destruct ex_refresh as [[[]|e] [p' z']]; [|discriminate Hok].
  split; [reflexivity|exact H].
Defined.
