(* ===== verification/ProviderMetrics.v ===== *)
(** * pkg/provider/stats.go: what the pods of this node use

    The collection behind [GetStatsSummary] and [GetMetricsResource]: one
    listing per tenant, one stats call per pod, CPU counters turned into rates,
    and sums kept on 64-bit unsigned integers. *)

From S2P Require Import Prelude GoStd K8s ZunCapsule ZunStatus ZunTemplate ProviderStreams.
From S2P Require Import ProviderState ProviderCapsules ProviderPods ProviderTokens.
From Stdlib Require Import Ascii.

Local Open Scope string_scope.
Local Open Scope list_scope.

(** [statsv1alpha1.ContainerStats], its memory and CPU parts flat. *)
Record CStats := mkCStats {
  cst_Name : string;
  cst_StartTime : Time;
  cst_At : Z;                     (* both parts' [Time], nanoseconds *)
  cst_WorkingSetBytes : Z;
  cst_UsageBytes : Z;
  cst_UsageCoreNanoSeconds : Z;
  cst_UsageNanoCores : option Z }.

Record PStats := mkPStats {
  pst_Name : string;
  pst_Namespace : string;
  pst_UID : string;
  pst_StartTime : Time;
  pst_Containers : list CStats;
  pst_WorkingSetBytes : Z;
  pst_UsageNanoCores : option Z }.

(** [uint64] sums. *)
Definition add_u64 (a b : Z) : Z := wrap_u64 (a + b).
Definition sum_u64 (l : list Z) : Z := fold_left add_u64 l 0%Z.

(** The accumulators of the loop over one capsule's containers. *)
Record podAcc := mkPodAcc {
  pa_rates : rates;
  pa_live : gset string;
  pa_cores : Z;
  pa_known : bool;
  pa_memory : Z;
  pa_containers : list CStats }.

(** Zun renames containers: the position ties one back to the pod's. *)
Definition stat_name (pod : Pod) (i : nat) (s : ContainerStats) : string :=
  opt_or (st_Name s) (c_Name <$> Containers (Spec pod) !! i).
Definition stat_key (pod : Pod) (i : nat) (s : ContainerStats) : string :=
  Namespace pod +:+ "/" +:+ Name pod +:+ "/" +:+ stat_name pod i s.

Definition container_step (pod : Pod) (start : Time) (acc : podAcc) (nth : nat * ContainerStats)
    : podAcc :=
  let '(i, s) := nth in
  let key := stat_key pod i s in
  let '(r, rate) := observe (pa_rates acc) key s in
  let cs := mkCStats (stat_name pod i s) start (st_Timestamp s) (st_MemoryWorkingSetBytes s)
              (st_MemoryUsageBytes s) (st_CPUUsageCoreNanoseconds s) rate in
  mkPodAcc r ({[key]} ∪ pa_live acc)
    (match rate with Some n => add_u64 (pa_cores acc) n | None => pa_cores acc end)
    (match rate with Some _ => true | None => pa_known acc end)
    (add_u64 (pa_memory acc) (st_MemoryWorkingSetBytes s)) (pa_containers acc ++ [cs]).

Definition start_of (now : Time) (pod : Pod) : Time :=
  match StartTime (Status pod) with Some t => t | None => now end.

Definition pod_stats (now : Time) (pod : Pod) (r : rates) (live : gset string)
    (stats : list ContainerStats) : rates * gset string * PStats :=
  let acc := fold_left (container_step pod (start_of now pod)) (imap pair stats)
               (mkPodAcc r live 0 false 0 []) in
  (pa_rates acc, pa_live acc,
   mkPStats (Name pod) (Namespace pod) (UID pod) (start_of now pod) (pa_containers acc)
     (pa_memory acc) (if pa_known acc then Some (pa_cores acc) else None)).

Section stats.
Context {Z : Type} `{!CapsulesAPI Z}.
Variable cfg : Config.
(** [GET .../stats] of a tenant. *)
Variable stats_of : string → string → M Z (list ContainerStats).
Variable now : Time.

Definition Stats (t id : string) : M Z (list ContainerStats) := translated (stats_of t id).

(** The capsule whose usage is the pod's. *)
Definition stats_capsule (managed : gmap string Capsule) (pod : Pod) : option Capsule :=
  match managed !! key_of pod with
  | None => None
  | Some cap => if decide (cap_UUID cap = "" ∨ PodUID cap ≠ UID pod) then None else Some cap
  end.

(** The accumulators of the walk: the keys seen and the pods' stats. *)
Definition Walk : Type := gset string * list PStats.

Definition stats_pod (t : string) (managed : gmap string Capsule) (acc : Walk) (pod : Pod)
    : M (PW (Z:=Z)) Walk :=
  match stats_capsule managed pod with
  | None => mret acc
  | Some cap =>
      r ← on_service (try (Stats t (cap_UUID cap)));
      match r with
      | Err _ | Ok [] => mret acc
      | Ok stats =>
          p ← own_get;
          let '(rs, live, ps) := pod_stats now pod (cpuRates p) acc.1 stats in
          modify (set_rates rs) ≫= λ _, mret (live, acc.2 ++ [ps])
      end
  end.

Definition stats_tenant (tracked : list Pod) (acc : Walk) (t : string) : M (PW (Z:=Z)) Walk :=
  r ← on_service (try (api_ListManaged t));
  match r with
  | Err _ => mret acc
  | Ok managed => fold_each (stats_pod t managed) acc tracked
  end.

Definition podStats (range_pods : gmap string Pod → list Pod) : M (PW (Z:=Z)) (list PStats) := λ pz,
  let tracked := range_pods (pods pz.1) in
  (acc ← fold_each (stats_tenant tracked) (∅, []) (capsules_tenants pz.2);
   modify (λ p, set_rates (forget (cpuRates p) acc.1) p) ≫= λ _, mret acc.2) pz.

(** *** The summary API *)
Record Summary := mkSummary {
  sum_Node : string; sum_WorkingSetBytes : BinInt.Z; sum_UsageNanoCores : option BinInt.Z;
  sum_Pods : list PStats }.

Definition summarize (l : list PStats) : Summary :=
  mkSummary (cfg_NodeName cfg) (sum_u64 (map pst_WorkingSetBytes l))
    (if existsb (λ ps, bool_decide (is_Some (pst_UsageNanoCores ps))) l
     then Some (sum_u64 (omap pst_UsageNanoCores l)) else None) l.

Definition GetStatsSummary (range_pods : gmap string Pod → list Pod) : M (PW (Z:=Z)) Summary :=
  l ← podStats range_pods; mret (summarize l).

(** *** /metrics/resource

    A value is a [float64] made from an integer: seconds from a nanosecond
    counter divided by 1e9, or the integer itself. *)
Inductive mvalue : Type :=
  | Counter_seconds (nanos : BinInt.Z)
  | Gauge (n : BinInt.Z).
Record metric := mkMetric {
  mt_labels : list (string * string); mt_value : mvalue; mt_millis : option BinInt.Z }.
Record family := mkFamily { mf_name : string; mf_counter : bool; mf_metrics : list metric }.

Definition metric_labels (ps : PStats) (c : CStats) : list (string * string) :=
  [("container", cst_Name c); ("namespace", pst_Namespace ps); ("pod", pst_Name ps)].

Definition all_containers (l : list PStats) : list (PStats * CStats) :=
  flat_map (λ ps, map (pair ps) (pst_Containers ps)) l.

Definition millis (nanos : BinInt.Z) : BinInt.Z := (nanos / 1000000)%Z.
Definition unix_seconds (t : Time) : BinInt.Z :=
  match t with Some n => (n / second)%Z | None => (-62135596800)%Z end.

Definition metric_families (now_millis : BinInt.Z) (l : list PStats) : list family :=
  let cs := all_containers l in
  let containerCPU := map (λ pc, mkMetric (metric_labels pc.1 pc.2)
    (Counter_seconds (cst_UsageCoreNanoSeconds pc.2)) (Some (millis (cst_At pc.2)))) cs in
  let containerMem := map (λ pc, mkMetric (metric_labels pc.1 pc.2)
    (Gauge (cst_WorkingSetBytes pc.2)) (Some (millis (cst_At pc.2)))) cs in
  let containerStart := map (λ pc, mkMetric (metric_labels pc.1 pc.2)
    (Gauge (unix_seconds (cst_StartTime pc.2))) None) cs in
  [mkFamily "node_cpu_usage_seconds_total" true
     [mkMetric [] (Counter_seconds (sum_u64 (map (cst_UsageCoreNanoSeconds ∘ snd) cs)))
        (Some now_millis)];
   mkFamily "node_memory_working_set_bytes" false
     [mkMetric [] (Gauge (sum_u64 (map (cst_WorkingSetBytes ∘ snd) cs))) (Some now_millis)]] ++
  filter (λ f, mf_metrics f ≠ [])
    [mkFamily "container_cpu_usage_seconds_total" true containerCPU;
     mkFamily "container_memory_working_set_bytes" false containerMem;
     mkFamily "container_start_time_seconds" false containerStart].

Definition GetMetricsResource (now_millis : BinInt.Z) (range_pods : gmap string Pod → list Pod)
    : M (PW (Z:=Z)) (list family) :=
  l ← podStats range_pods; mret (metric_families now_millis l).
End stats.

(** ** Lemmas *)
Lemma sum_u64_acc l a :
  (0 ≤ a < 2 ^ 64)%Z → fold_left add_u64 l a = wrap_u64 (a + fold_right Z.add 0%Z l).
Proof.
  revert a. induction l as [|x l IH]; intros a Ha; simpl.
  - rewrite Z.add_0_r. symmetry. by apply wrap_u64_id.
  - rewrite IH by (unfold add_u64, wrap_u64; by apply Z.mod_pos_bound).
    unfold add_u64, wrap_u64. rewrite Z.add_mod_idemp_l by done. f_equal. lia.
Qed.

(** Wrapping once is wrapping at every step. *)
Lemma sum_u64_total l : sum_u64 l = wrap_u64 (fold_right Z.add 0%Z l).
Proof. unfold sum_u64. by rewrite sum_u64_acc by done. Qed.

Lemma observe_dom r key s : dom (observe r key s).1 = {[key]} ∪ dom r.
Proof.
  unfold observe. destruct (r !! key) as [p|]; [|apply dom_insert_L].
  destruct (decide _); [apply dom_insert_L|]. destruct (decide _); apply dom_insert_L.
Qed.

(** What one container adds. *)
Definition shows (start : Time) (pod : Pod) (nth : nat * ContainerStats) (c : CStats) : Prop :=
  cst_Name c = stat_name pod nth.1 nth.2 ∧ cst_StartTime c = start ∧
  cst_At c = st_Timestamp nth.2 ∧ cst_WorkingSetBytes c = st_MemoryWorkingSetBytes nth.2 ∧
  cst_UsageBytes c = st_MemoryUsageBytes nth.2 ∧
  cst_UsageCoreNanoSeconds c = st_CPUUsageCoreNanoseconds nth.2.

Definition keys_of (pod : Pod) (l : list (nat * ContainerStats)) : gset string :=
  list_to_set (map (λ nth, stat_key pod nth.1 nth.2) l).

Lemma container_fold pod start l acc :
  let r := fold_left (container_step pod start) l acc in
  ∃ cs, pa_containers r = pa_containers acc ++ cs ∧ Forall2 (shows start pod) l cs ∧
    pa_memory r = fold_left add_u64 (map cst_WorkingSetBytes cs) (pa_memory acc) ∧
    pa_cores r = fold_left add_u64 (omap cst_UsageNanoCores cs) (pa_cores acc) ∧
    pa_known r = pa_known acc || bool_decide (omap cst_UsageNanoCores cs ≠ []) ∧
    pa_live r = keys_of pod l ∪ pa_live acc ∧
    dom (pa_rates r) = keys_of pod l ∪ dom (pa_rates acc).
Proof.
  revert acc. induction l as [|[i s] l IH]; intros acc; simpl.
  - exists []. simpl. rewrite app_nil_r, orb_false_r. unfold keys_of. simpl.
    rewrite !(left_id_L ∅ (∪)). repeat split; constructor.
  - pose proof (observe_dom (pa_rates acc) (stat_key pod i s) s) as Hdom.
    destruct (observe (pa_rates acc) (stat_key pod i s) s) as [r rate] eqn:Ho.
    match goal with |- context [fold_left _ l ?a] => destruct (IH a) as
      (cs & H1 & H2 & H3 & H4 & H5 & H6 & H7) end. simpl in *.
    eexists (_ :: cs). rewrite H1, <-app_assoc. split; [reflexivity|].
    split; [constructor; [by repeat split|exact H2]|].
    split; [exact H3|]. rewrite H4, H5, H6, H7, Hdom. simpl.
    unfold keys_of. simpl. fold (keys_of pod l).
    split; [by destruct rate|]. split; [|split; set_solver].
    destruct rate; simpl; [by rewrite orb_true_r|done].
Qed.

(** What the stats of a pod say. *)
Definition describes (now : Time) (pod : Pod) (x : PStats) : Prop :=
  pst_Name x = Name pod ∧ pst_Namespace x = Namespace pod ∧ pst_UID x = UID pod ∧
  pst_StartTime x = start_of now pod ∧ pst_Containers x ≠ [] ∧
  (∀ i c spec, pst_Containers x !! i = Some c → Containers (Spec pod) !! i = Some spec →
     cst_Name c = c_Name spec) ∧
  pst_WorkingSetBytes x = sum_u64 (map cst_WorkingSetBytes (pst_Containers x)) ∧
  pst_UsageNanoCores x = match omap cst_UsageNanoCores (pst_Containers x) with
                         | [] => None | l => Some (sum_u64 l) end.

(** The keys whose counters are worth keeping for these pods. *)
Definition described_keys (l : list PStats) : gset string :=
  list_to_set (map (λ pc, pst_Namespace pc.1 +:+ "/" +:+ pst_Name pc.1 +:+ "/" +:+ cst_Name pc.2)
    (all_containers l)).

Lemma described_keys_snoc l x : described_keys (l ++ [x]) = described_keys l ∪ described_keys [x].
Proof.
  unfold described_keys, all_containers. rewrite flat_map_app, map_app, list_to_set_app_L. done.
Qed.

Lemma pod_stats_spec now pod r live stats :
  stats ≠ [] →
  let '(r', live', x) := pod_stats now pod r live stats in
  describes now pod x ∧ live' = described_keys [x] ∪ live.
Proof.
  intros Hne. unfold pod_stats.
  destruct (container_fold pod (start_of now pod) (imap pair stats) (mkPodAcc r live 0 false 0 []))
    as (cs & H1 & H2 & H3 & H4 & H5 & H6 & H7).
  destruct (fold_left _ _ _) as [r' live' cores known mem containers]. simpl in *. subst.
  split.
  - unfold describes. simpl. do 4 (split; [done|]). split; [|split; [|split; [done|]]].
    + intros ->. inversion H2 as [Hn|]. destruct stats; [done|]. simpl in Hn. done.
    + intros i c spec Hc Hspec.
      destruct (Forall2_lookup_r _ _ _ _ _ H2 Hc) as ([j s] & Hj & Hn & _).
      apply list_lookup_imap_Some in Hj as (s' & _ & [= -> ->]). rewrite Hn. unfold stat_name. simpl.
      by rewrite Hspec.
    + by destruct (omap cst_UsageNanoCores cs) eqn:Ho; rewrite ?Ho.
  - f_equal. unfold keys_of, described_keys, all_containers. simpl. rewrite app_nil_r. f_equal.
    rewrite List.map_map. simpl. clear -H2. induction H2 as [|nth c l k Hn _ IH]; [done|].
    simpl. rewrite IH. f_equal. destruct Hn as [-> _]. done.
Qed.

Section walk.
Context {Z : Type} {api : CapsulesAPI Z} (view : Z → CapState) `{!CapsulesLaws api view}.
Variable stats_of : string → string → M Z (list ContainerStats).
(** Reading usage changes nothing. *)
Hypothesis stats_reads : ∀ t id s,
  runs view s (stats_of t id) (λ _ s', s' = s) (λ _ s', s' = s).
Variable now : Time.

Definition walked (p : Prov) (s : CapState) (tracked : list Pod) (acc : Walk) (ps : Prov * CapState)
    : Prop :=
  ps.2 = s ∧ (∃ r, ps.1 = set_rates r p) ∧ acc.1 = described_keys acc.2 ∧
  ∀ x, x ∈ acc.2 → ∃ pod, pod ∈ tracked ∧ describes now pod x.

Lemma stats_pod_runs p s tracked t managed acc pod p1 :
  walked p s tracked acc (p1, s) → pod ∈ tracked →
  runs (beside view) (p1, s) (stats_pod stats_of now t managed acc pod)
    (λ acc ps, walked p s tracked acc ps) (λ _ _, False).
Proof.
  intros Hw Hin. unfold stats_pod.
  destruct (stats_capsule managed pod) as [cap|]; [|by apply runs_ret].
  eapply (on_service_step _ _ _ _ _ (λ _ s', s' = s) (λ _ _, False)); [|done|].
  { apply runs_try. apply runs_translated.
    eapply runs_conseq; [apply stats_reads|by intros ? ? ->|by intros ? ? ->]. }
  intros r s' ->. destruct r as [[|st stats]|]; [by apply runs_ret| |by apply runs_ret].
  apply own_get_step.
  pose proof (pod_stats_spec now pod (cpuRates p1) acc.1 (st :: stats) ltac:(done)) as H.
  destruct (pod_stats _ _ _ _ _) as [[r' live'] x]. destruct H as [Hx ->].
  apply own_modify_step, runs_ret.
  destruct Hw as (_ & (r0 & Hp1) & Hk & Hout). simpl in *. subst p1.
  split; [done|]. split; [by exists r'|]. simpl. split.
  - rewrite described_keys_snoc, Hk. apply union_comm_L.
  - intros y [Hy| ->%list_elem_of_singleton]%elem_of_app; [by apply Hout|]. by exists pod.
Qed.

Lemma stats_tenant_runs p s tracked acc t p1 :
  walked p s tracked acc (p1, s) →
  runs (beside view) (p1, s) (stats_tenant stats_of now tracked acc t)
    (λ acc ps, walked p s tracked acc ps) (λ _ _, False).
Proof.
  intros Hw. unfold stats_tenant.
  eapply on_service_step; [apply (try_ListManaged_runs view s t)|done|]; cbv beta.
  intros [m|e] s' [-> _]; [|by apply runs_ret].
  apply (runs_fold_each _ (λ _ acc ps, walked p s tracked acc ps)); [done|].
  intros pre pod post b [p2 s2] Hsplit Hw2. pose proof Hw2 as [Hs2 _]. simpl in Hs2. subst s2.
  apply stats_pod_runs; [done|]. rewrite Hsplit. set_solver.
Qed.

Lemma podStats_runs range_pods p s :
  runs (beside view) (p, s) (podStats stats_of now range_pods)
    (λ out ps, ps.2 = s ∧ (∃ r, ps.1 = set_rates r p ∧ dom r ⊆ described_keys out) ∧
       ∀ x, x ∈ out → ∃ pod, pod ∈ range_pods (pods p) ∧ describes now pod x) (λ _ _, False).
Proof.
  assert (∀ tenants, runs (beside view) (p, s)
    (acc ← fold_each (stats_tenant stats_of now (range_pods (pods p))) (∅, []) tenants;
     modify (λ p, set_rates (forget (cpuRates p) acc.1) p) ≫= λ _, mret acc.2)
    (λ out ps, ps.2 = s ∧ (∃ r, ps.1 = set_rates r p ∧ dom r ⊆ described_keys out) ∧
       ∀ x, x ∈ out → ∃ pod, pod ∈ range_pods (pods p) ∧ describes now pod x) (λ _ _, False)) as H;
    [|intros pz Hpz; unfold podStats; assert (pz.1 = p) as -> by (by injection Hpz);
      exact (H (capsules_tenants pz.2) pz Hpz)].
  intros tenants.
  eapply (runs_bind _ _ _ _ (λ acc ps, walked p s (range_pods (pods p)) acc ps) _ (λ _ _, False));
    [|done|].
  - apply (runs_fold_each _ (λ _ acc ps, walked p s (range_pods (pods p)) acc ps)).
    + split; [done|]. split; [exists (cpuRates p); by destruct p|]. split; [done|].
      by intros x ?%elem_of_nil.
    + intros pre t post acc [p2 s2] _ Hw. pose proof Hw as [Hs2 _]. simpl in Hs2. subst s2.
      by apply stats_tenant_runs.
  - intros [live out] [p2 s2] (Hs & (r & Hp) & Hk & Hout). simpl in *. subst.
    apply own_modify_step, runs_ret. simpl. split; [done|]. split; [|done].
    eexists. split; [reflexivity|]. unfold forget. intros k.
    rewrite elem_of_dom. by intros (rd & [_ Hlive]%map_lookup_filter_Some).
Qed.
End walk.

(** ** Properties *)

(** The summary API answers for what is there: it never fails, whatever the
    tenants' services do; every entry describes a pod this node tracks, with
    containers under the names of its spec in order, a memory figure that is
    their sum and a rate that is the sum of the known ones, absent when there is
    none; the node's own figures are its pods' sums, on 64 bits; and the counters
    kept for the next round are of reported containers only, so they never grow
    past what runs. *)
Theorem GetStatsSummary_correct {Z} {api : CapsulesAPI Z} (view : Z → CapState)
    `{!CapsulesLaws api view} (cfg : Config)
    (stats_of : string → string → M Z (list ContainerStats)) (now : Time)
    (range_pods : gmap string Pod → list Pod) (p : Prov) (s : CapState) :
  (∀ t id s, runs view s (stats_of t id) (λ _ s', s' = s) (λ _ s', s' = s)) →
  (∀ m pod, pod ∈ range_pods m → ∃ k, m !! k = Some pod) →
  runs (beside view) (p, s) (GetStatsSummary cfg stats_of now range_pods)
    (λ out ps, ps.2 = s ∧
       (∃ r, ps.1 = set_rates r p ∧ dom r ⊆ described_keys (sum_Pods out)) ∧
       (∀ x, x ∈ sum_Pods out → ∃ k pod, pods p !! k = Some pod ∧ describes now pod x) ∧
       sum_Node out = cfg_NodeName cfg ∧
       sum_WorkingSetBytes out =
         wrap_u64 (fold_right BinInt.Z.add 0%Z (map pst_WorkingSetBytes (sum_Pods out))) ∧
       sum_UsageNanoCores out = match omap pst_UsageNanoCores (sum_Pods out) with
         | [] => None | l => Some (wrap_u64 (fold_right BinInt.Z.add 0%Z l)) end)
    (λ _ _, False).
Proof.
  intros Hreads Hrange. unfold GetStatsSummary.
  eapply runs_bind; [by apply (podStats_runs view)|done|]; cbv beta.
  intros out [p' s'] (Hs & Hr & Hout). apply runs_ret. simpl. split; [done|]. split; [done|].
  split; [|split; [done|split; [apply sum_u64_total|]]].
  - intros x Hx. destruct (Hout x Hx) as (pod & Hpod & Hd). destruct (Hrange _ _ Hpod) as [k Hk].
    by exists k, pod.
  - rewrite !sum_u64_total.
    assert (existsb (λ ps, bool_decide (is_Some (pst_UsageNanoCores ps))) out =
      bool_decide (omap pst_UsageNanoCores out ≠ [])) as ->.
    { clear. induction out as [|x l IH]; [done|]. simpl. rewrite IH.
      by destruct (pst_UsageNanoCores x). }
    by destruct (omap pst_UsageNanoCores out).
Qed.

(** What a scrape gets: the two node families always, and of the container
    families only ones with something in them, each with one metric per
    container under its container, namespace and pod; the node's counters are
    the containers' sums. *)
Theorem metric_families_correct (now_millis : Z) (l : list PStats) :
  (∀ f, f ∈ metric_families now_millis l → mf_metrics f ≠ []) ∧
  NoDup (map mf_name (metric_families now_millis l)) ∧
  (∀ name counter metrics, mkFamily name counter metrics ∈ metric_families now_millis l →
     name = "container_memory_working_set_bytes" → Forall2 (λ pc m,
       mt_labels m = [("container", cst_Name pc.2); ("namespace", pst_Namespace pc.1);
                      ("pod", pst_Name pc.1)] ∧
       mt_value m = Gauge (cst_WorkingSetBytes pc.2)) (all_containers l) metrics) ∧
  (∃ m, mkFamily "node_memory_working_set_bytes" false [m] ∈ metric_families now_millis l ∧
     mt_value m = Gauge (wrap_u64 (fold_right Z.add 0%Z
       (map (λ pc, cst_WorkingSetBytes pc.2) (all_containers l))))) ∧
  (∃ m, mkFamily "node_cpu_usage_seconds_total" true [m] ∈ metric_families now_millis l ∧
     mt_value m = Counter_seconds (wrap_u64 (fold_right Z.add 0%Z
       (map (λ pc, cst_UsageCoreNanoSeconds pc.2) (all_containers l))))).
Proof.
  unfold metric_families.
  split; [|split; [|split; [|split]]].
  - intros f [Hf|[Hne _]%list_elem_of_filter]%elem_of_app; [|done].
    rewrite !elem_of_cons, elem_of_nil in Hf. naive_solver.
  - rewrite map_app. destruct (all_containers l); [vm_compute|]; simpl;
      rewrite ?filter_cons, ?decide_True by done; simpl;
      repeat (constructor; [rewrite ?elem_of_cons, ?elem_of_nil; naive_solver|]); constructor.
  - intros name counter metrics [Hf|[_ Hf]%list_elem_of_filter]%elem_of_app ->;
      rewrite !elem_of_cons, elem_of_nil in Hf.
    + destruct Hf as [Hf|[Hf|[]]]; by injection Hf.
    + destruct Hf as [Hf|[Hf|[Hf|[]]]]; injection Hf; try done. intros -> _. clear.
      induction (all_containers l); simpl; constructor; done.
  - eexists. split; [apply elem_of_app; left; right; left|]. simpl. by rewrite sum_u64_total.
  - eexists. split; [apply elem_of_app; left; left|]. simpl. by rewrite sum_u64_total.
Qed.

(** ** Witness *)
Definition fixed_stats (t id : string) : M CapState (list ContainerStats) :=
  mret [mkStats "c1" "zun-app" 5000000000 1000000000 2048 4096].
Definition ex_summary : result Summary * (Prov * CapState) :=
  @GetStatsSummary CapState (RefCapsules ex_tenant) token_config fixed_stats (Some 0%Z)
    (λ m, (map_to_list m).*2) (token_prov, token_state).

Lemma GetStatsSummary_correct_witness : ∃ out,
  ex_summary.1 = Ok out ∧ map pst_Name (sum_Pods out) = ["api-0"] ∧
  sum_WorkingSetBytes out =
    wrap_u64 (fold_right Z.add 0%Z (map pst_WorkingSetBytes (sum_Pods out))).
Proof.
  pose proof (@GetStatsSummary_correct CapState (RefCapsules ex_tenant) ref_view
    (RefCapsules_laws ex_tenant) token_config fixed_stats (Some 0%Z) (λ m, (map_to_list m).*2)
    token_prov (ref_view token_state)) as H.
  specialize (H ltac:(intros t id s z <-; split)).
  specialize (H ltac:(intros m pod ([k pod'] & -> & Hin%elem_of_map_to_list)%list_elem_of_fmap;
    by exists k)).
  specialize (H (token_prov, token_state) eq_refl). fold ex_summary in H.
  assert (map pst_Name <$> (sum_Pods <$> ex_summary.1) = Ok ["api-0"]) as Hn
    by (vm_compute; reflexivity).
  destruct ex_summary as [[out|e] [p' s']]; [|destruct H]. exists out.
  split; [reflexivity|]. split; [by injection Hn|].
  destruct H as (_ & _ & _ & _ & H & _). exact H.
Defined.
