(* ===== verification/ProviderSessions.v ===== *)
(** * Logs, commands and terminals: provider.go's requests and interactive.go

    [GetContainerLogs] and [RunInContainer], the channel framing a terminal
    rides on (pkg/zun/interactive.go), and the pumps that carry it
    (pkg/provider/interactive.go). *)

From S2P Require Import Prelude GoStd K8s ZunCapsule ZunStatus ZunTemplate ProviderStreams.
From S2P Require Import ProviderState ProviderCapsules ProviderPods.
From Stdlib Require Import Ascii.

Local Open Scope string_scope.
Local Open Scope list_scope.

(** ** pkg/zun/interactive.go: the framing *)
Definition ChannelStdin : ascii := ascii_of_nat 0.
Definition ChannelStdout : ascii := ascii_of_nat 1.
Definition ChannelStderr : ascii := ascii_of_nat 2.
Definition ChannelError : ascii := ascii_of_nat 3.
Definition ChannelResize : ascii := ascii_of_nat 4.

(** [json.Marshal] of a [TerminalSize]. *)
Definition EncodeResize (width height : Z) : string :=
  String ChannelResize ("{" +:+ dquote +:+ "Width" +:+ dquote +:+ ":" +:+ pretty width +:+ "," +:+
    dquote +:+ "Height" +:+ dquote +:+ ":" +:+ pretty height +:+ "}").

Record cause := mkCause { cause_Reason : string; cause_Message : string }.
Record ExecStatus := mkExecStatus {
  es_Status : string; es_Message : string; es_Details : option (list cause) }.

(** [fmt.Sscanf(s, "%d", &code)] into an [int]. *)
Definition is_blank (c : ascii) : bool :=
  bool_decide (c ∈ [" "%char; ascii_of_nat 9; ascii_of_nat 10; ascii_of_nat 13]).
Fixpoint skip_blank (s : string) : string :=
  match s with
  | String c s' => if is_blank c then skip_blank s' else s
  | EmptyString => ""
  end.
Fixpoint leading_digits (s : string) : string :=
  match s with
  | String c s' => match digit_val c with Some _ => String c (leading_digits s') | None => "" end
  | EmptyString => ""
  end.
Definition scan_int (s : string) : option Z :=
  let s := skip_blank s in
  let '(neg, s) := match s with
    | String c s' => if decide (c = "-"%char) then (true, s')
                     else if decide (c = "+"%char) then (false, s') else (false, s)
    | EmptyString => (false, s)
    end in
  match parse_nat (leading_digits s) with
  | None => None
  | Some n => let n := if neg : bool then (- n)%Z else n in
              if decide (- 2 ^ 63 ≤ n < 2 ^ 63)%Z then Some n else None
  end.

Definition named_code (causes : list cause) : option Z :=
  head (omap (λ c, if decide (cause_Reason c = "ExitCode") then scan_int (cause_Message c) else None)
    causes).

(** [ExitCodeOf] answers a code and an error together. *)
Definition ExitCodeOf (st : option ExecStatus) : Z * option gerror :=
  match st with
  | None => (0%Z, Some (ErrMsg "unreadable exec status"))
  | Some st =>
      if decide (es_Status st = "Success") then (0%Z, None)
      else match es_Details st ≫= named_code with
      | Some code => (code, None)
      | None => (1%Z, if decide (es_Message st ≠ "") then Some (ErrMsg (es_Message st)) else None)
      end
  end.

(** ** pkg/provider/interactive.go: the pumps *)

(** How the caller's end is read and written: whether it has each stream, and
    what the [n]th write of it answers. *)
Record AttachIO := mkAttach {
  at_Stdin : option (list string);
  at_Stdout : option (nat → option gerror);
  at_Stderr : option (nat → option gerror);
  at_TTY : bool;
  at_Resize : option (list (Z * Z)) }.

(** What [conn.ReadMessage] ends with. *)
Inductive closing : Type :=
  | CloseNormalClosure | CloseGoingAway | CloseAbnormalClosure
  | CloseOther (code : Z) | ClosedEOF | ClosedError (msg : string).

Definition isNormalClose (c : closing) : bool :=
  match c with
  | ClosedEOF | CloseNormalClosure | CloseGoingAway | CloseAbnormalClosure => true
  | CloseOther _ | ClosedError _ => false
  end.

Definition exit_error (code : Z) : gerror :=
  ErrMsg ("command terminated with exit code " +:+ pretty code).
Definition cut_off : gerror :=
  ErrWrap "the session ended unexpectedly" (ErrMsg "connection").

(** What has been written to the caller so far. *)
Record shown := mkShown { sh_out : list string; sh_err : list string }.

Section pump.
(** [json.Unmarshal] into an [ExecStatus]. *)
Variable unmarshal : string → option ExecStatus.
Variable attach : AttachIO.

(** One frame: what is written, and the error held, unless a write fails. *)
Definition frame_step (frame : string) (w : shown) (held : option gerror)
    : result (shown * option gerror) :=
  match frame with
  | EmptyString => Ok (w, held)
  | String channel data =>
      if decide (channel = ChannelStdout) then
        match at_Stdout attach with
        | Some write =>
            if decide (data = "") then Ok (w, held)
            else match write (length (sh_out w)) with
                 | Some e => Err e
                 | None => Ok (mkShown (sh_out w ++ [data]) (sh_err w), held)
                 end
        | None => Ok (w, held)
        end
      else if decide (channel = ChannelStderr) then
        match at_Stderr attach with
        | Some write =>
            if decide (data = "") then Ok (w, held)
            else match write (length (sh_err w)) with
                 | Some e => Err e
                 | None => Ok (mkShown (sh_out w) (sh_err w ++ [data]), held)
                 end
        | None => Ok (w, held)
        end
      else if decide (channel = ChannelError) then
        if decide (data = "") then Ok (w, held)
        else match ExitCodeOf (unmarshal data) with
        | (_, Some _) => Ok (w, held)
        | (code, None) =>
            if decide (code ≠ 0%Z) then Ok (w, Some (exit_error code)) else Ok (w, held)
        end
      else Ok (w, held)
  end.

(** The frames a session delivers, then how it ended; [done] is whether the
    request was over by then. *)
Fixpoint pumpOutput (frames : list string) (last : closing) (done : bool) (w : shown)
    (held : option gerror) : shown * option gerror :=
  match frames with
  | [] =>
      (w, if isNormalClose last || done then held
          else match held with Some e => Some e | None => Some cut_off end)
  | frame :: frames =>
      match frame_step frame w held with
      | Err e => (w, Some e)
      | Ok (w, held) => pumpOutput frames last done w held
      end
  end.

(** The frames sent for what is typed, each read at most 4096 bytes, until a
    write fails; [accepts n] is whether the [n]th is taken. *)
Fixpoint pump_frames (accepts : nat → bool) (n : nat) (frames : list string) : list string :=
  match frames with
  | [] => []
  | f :: frames => if accepts n then f :: pump_frames accepts (S n) frames else []
  end.
Definition pumpStdin (accepts : nat → bool) : list string :=
  match at_Stdin attach with
  | None => []
  | Some chunks => pump_frames accepts 0
      (map (String ChannelStdin) (filter (λ c, c ≠ "") chunks))
  end.
Definition pumpResize (accepts : nat → bool) : list string :=
  match at_Resize attach with
  | None => []
  | Some sizes => pump_frames accepts 0 (map (λ wh, EncodeResize wh.1 wh.2) sizes)
  end.
End pump.

(** ** The requests *)
Definition wrap_i64 (n : Z) : Z := ((n + 2 ^ 63) mod 2 ^ 64 - 2 ^ 63)%Z.

Record ContainerLogOpts := mkLogOpts {
  op_Tail : Z; op_LimitBytes : Z; op_Timestamps : bool; op_Follow : bool;
  op_SinceSeconds : Z; op_SinceTime : Time }.

Definition log_options (now : Z) (opts : ContainerLogOpts) : LogOptions :=
  mkLogOptions "" (op_Tail opts)
    (match op_SinceTime opts with
     | Some t => Some t
     | None => if decide (0 < op_SinceSeconds opts)%Z
               then Some (now + wrap_i64 (- wrap_i64 (op_SinceSeconds opts * second)))%Z else None
     end)
    (op_Timestamps opts).

(** [data[len(data)-limit:]]. *)
Definition keep_last (limit : Z) (data : string) : string :=
  if decide (0 < limit < Z.of_nat (String.length data))%Z
  then String.substring (String.length data - Z.to_nat limit) (Z.to_nat limit) data else data.

(** What a log request is answered with: the bytes, or a stream to follow. *)
Inductive log_reader : Type :=
  | Bytes (data : string)
  | Following (tenant podUID : string) (index : Z) (opts : LogOptions).

Section requests.
Context {Z : Type} `{!CapsulesAPI Z}.
Variable cfg : Config.
Variable http_Logs : string → string → list (string * string) → M Z string.
Variable http_Execute : string → string → list (string * string) → M Z (string * BinInt.Z).
(** An interactive execute: the url to attach to, empty where none came. *)
Variable http_Session : string → string → list (string * string) → M Z string.
(** Attaching to a session: what it delivers and how it ends. *)
Variable dial : string → result (list string * closing * bool).
Variable unmarshal : string → option ExecStatus.
Variable now : BinInt.Z.

Definition GetContainerLogs (p : Prov) (namespace podName containerName : string)
    (opts : ContainerLogOpts) : M Z log_reader :=
  '(pod, index) ← lift_result (container_of_request cfg p namespace podName containerName);
  let logOpts := log_options now opts in
  t ← capsules_For (Namespace pod);
  if op_Follow opts then mret (Following t (UID pod) index logOpts)
  else
    data ← @LogsForPod Z (capsules_http t) (http_Logs t) (UID pod) index logOpts;
    mret (Bytes (keep_last (op_LimitBytes opts) data)).

Definition ExecInteractive (t podUID : string) (index : BinInt.Z) (cmd : list string) : M Z string :=
  if decide (podUID = "") then fail (ErrMsg "a pod UID is required to find its capsule")
  else if decide (cmd = []) then fail (ErrMsg "a command is required")
  else
    let name := "kubezun-" +:+ podUID in
    capsule ← @Capsule_Get Z (capsules_http t) name;
    cc ← lift_result (container_at capsule index);
    url ← translated (http_Session t name [("container", cc_UUID cc);
      ("command", shellQuote cmd); ("run", "false"); ("interactive", "true")]);
    if decide (url = "") then fail (ErrMsg "no session was returned for an interactive exec")
    else mret url.

(** What the caller sees of a request: what was written to it, and the error. *)
Definition runInteractive (t podUID : string) (index : BinInt.Z) (cmd : list string)
    (attach : AttachIO) : M Z (shown * option gerror) :=
  url ← ExecInteractive t podUID index cmd;
  '(frames, last, over) ← lift_result (match dial url with
    | Ok c => Ok c | Err e => Err (ErrWrap "attaching to the session" e) end);
  mret (pumpOutput unmarshal attach frames last over (mkShown [] []) None).

Definition RunInContainer (p : Prov) (namespace podName containerName : string)
    (cmd : list string) (attach : option AttachIO) : M Z (shown * option gerror) :=
  '(pod, index) ← lift_result (container_of_request cfg p namespace podName containerName);
  t ← capsules_For (Namespace pod);
  match attach with
  | Some a =>
      if at_TTY a then runInteractive t (UID pod) index cmd a
      else
        '(output, code) ← @Exec Z (capsules_http t) (http_Execute t) (UID pod) index cmd;
        mret (match at_Stdout a with
          | None => (mkShown [] [], if decide (code ≠ 0%Z) then Some (exit_error code) else None)
          | Some write =>
              match write 0 with
              | Some e => (mkShown [] [], Some e)
              | None => (mkShown [output] [],
                         if decide (code ≠ 0%Z) then Some (exit_error code) else None)
              end
          end)
  | None =>
      '(_, code) ← @Exec Z (capsules_http t) (http_Execute t) (UID pod) index cmd;
      mret (mkShown [] [], if decide (code ≠ 0%Z) then Some (exit_error code) else None)
  end.
End requests.

(** ** Lemmas *)

(** What a channel carries, and the failures the error channel names. *)
Definition carried (ch : ascii) (frame : string) : option string :=
  match frame with
  | String c data => if decide (c = ch ∧ data ≠ "") then Some data else None
  | EmptyString => None
  end.
Definition on_channel (ch : ascii) (frames : list string) : list string := omap (carried ch) frames.

Definition failure (st : option ExecStatus) : option Z :=
  match ExitCodeOf st with
  | (code, None) => if decide (code ≠ 0%Z) then Some code else None
  | (_, Some _) => None
  end.
Definition failures (unmarshal : string → option ExecStatus) (frames : list string) : list Z :=
  omap (failure ∘ unmarshal) (on_channel ChannelError frames).

Definition writable {A} (o : option (nat → option A)) : Prop :=
  ∀ write n, o = Some write → write n = None.

Section pump_lemmas.
Variable unmarshal : string → option ExecStatus.
Variable attach : AttachIO.

Definition shown_out (ch : ascii) (o : option (nat → option gerror)) (frames : list string)
    : list string :=
  match o with Some _ => on_channel ch frames | None => [] end.

Ltac no_output := destruct (at_Stdout attach), (at_Stderr attach); simpl; by rewrite ?app_nil_r.

Lemma frame_step_spec frame w held :
  match frame_step unmarshal attach frame w held with
  | Ok (w', held') =>
      sh_out w' = sh_out w ++ shown_out ChannelStdout (at_Stdout attach) [frame] ∧
      sh_err w' = sh_err w ++ shown_out ChannelStderr (at_Stderr attach) [frame] ∧
      held' = match last (failures unmarshal [frame]) with
              | Some code => Some (exit_error code) | None => held end
  | Err _ => ¬ (writable (at_Stdout attach) ∧ writable (at_Stderr attach))
  end.
Proof.
  unfold frame_step, shown_out, failures, on_channel, failure, carried, writable.
  destruct frame as [|c d]; simpl.
  { destruct (at_Stdout attach), (at_Stderr attach); by rewrite ?app_nil_r. }
  destruct (decide (c = ChannelStdout)) as [->|H1].
  { rewrite (decide_False (P:=ChannelStdout = ChannelStderr ∧ d ≠ "")) by (by intros [? _]).
    rewrite (decide_False (P:=ChannelStdout = ChannelError ∧ d ≠ "")) by (by intros [? _]).
    destruct (at_Stdout attach) as [wr|] eqn:Ho, (at_Stderr attach) eqn:He; simpl;
      rewrite ?app_nil_r; try done;
      (destruct (decide (d = "")) as [->|Hd];
        [rewrite decide_False by (by intros [_ ?]); simpl; by rewrite app_nil_r|];
       destruct (wr (length (sh_out w))) as [er|] eqn:Hw;
        [intros [Hwr _]; by rewrite (Hwr wr) in Hw|];
       rewrite decide_True by done; simpl; by rewrite ?app_nil_r). }
  rewrite (decide_False (P:=c = ChannelStdout ∧ d ≠ "")) by (by intros [? _]).
  destruct (decide (c = ChannelStderr)) as [->|H2].
  { rewrite (decide_False (P:=ChannelStderr = ChannelError ∧ d ≠ "")) by (by intros [? _]).
    destruct (at_Stdout attach) eqn:Ho, (at_Stderr attach) as [wr|] eqn:He; simpl;
      rewrite ?app_nil_r; try done;
      (destruct (decide (d = "")) as [->|Hd];
        [rewrite decide_False by (by intros [_ ?]); simpl; by rewrite ?app_nil_r|];
       destruct (wr (length (sh_err w))) as [er|] eqn:Hw;
        [intros [_ Hwr]; by rewrite (Hwr wr) in Hw|];
       rewrite decide_True by done; simpl; by rewrite ?app_nil_r). }
  rewrite (decide_False (P:=c = ChannelStderr ∧ d ≠ "")) by (by intros [? _]).
  destruct (decide (c = ChannelError)) as [->|H3].
  - destruct (decide (d = "")) as [->|Hd].
    + rewrite decide_False by (by intros [_ ?]). no_output.
    + rewrite decide_True by done. simpl. destruct (ExitCodeOf (unmarshal d)) as [code [e|]] eqn:Hx;
        simpl; rewrite ?Hx; [no_output|].
      destruct (decide (code ≠ 0%Z)); simpl; no_output.
  - rewrite decide_False by (by intros [? _]). no_output.
Qed.

Lemma on_channel_cons ch f fs : on_channel ch (f :: fs) = on_channel ch [f] ++ on_channel ch fs.
Proof. unfold on_channel. by rewrite <-omap_app. Qed.

Lemma shown_out_cons ch o f fs : shown_out ch o (f :: fs) = shown_out ch o [f] ++ shown_out ch o fs.
Proof. unfold shown_out. destruct o; [apply on_channel_cons|done]. Qed.

Lemma failures_cons f fs : failures unmarshal (f :: fs) = failures unmarshal [f] ++ failures unmarshal fs.
Proof. unfold failures. by rewrite on_channel_cons, omap_app. Qed.

(** What the session's end makes of the failures it named. *)
Definition verdict_of (held : option gerror) (codes : list Z) (ending : closing) (over : bool)
    : option gerror :=
  match last codes with
  | Some code => Some (exit_error code)
  | None => match held with
            | Some e => Some e
            | None => if isNormalClose ending || over then None else Some cut_off
            end
  end.

Lemma pumpOutput_spec frames ending over w held :
  let '(w', e) := pumpOutput unmarshal attach frames ending over w held in
  ∃ out err, sh_out w' = sh_out w ++ out ∧ sh_err w' = sh_err w ++ err ∧
    out `prefix_of` shown_out ChannelStdout (at_Stdout attach) frames ∧
    err `prefix_of` shown_out ChannelStderr (at_Stderr attach) frames ∧
    (writable (at_Stdout attach) → writable (at_Stderr attach) →
       out = shown_out ChannelStdout (at_Stdout attach) frames ∧
       err = shown_out ChannelStderr (at_Stderr attach) frames ∧
       e = verdict_of held (failures unmarshal frames) ending over).
Proof.
  revert w held. induction frames as [|f fs IH]; intros w held; simpl.
  - exists [], []. rewrite !app_nil_r. do 2 (split; [done|]). split; [apply prefix_nil|].
    split; [apply prefix_nil|]. intros _ _.
    unfold verdict_of, shown_out. destruct (at_Stdout attach), (at_Stderr attach); simpl;
      by destruct (_ || _), held.
  - pose proof (frame_step_spec f w held) as Hf.
    destruct (frame_step _ _ _ _ _) as [[w1 held1]|e].
    + destruct Hf as (H1 & H2 & H3). specialize (IH w1 held1).
      destruct (pumpOutput _ _ _ _ _ w1 held1) as [w' e].
      destruct IH as (out & err & Ho & He & Hp1 & Hp2 & Hall). rewrite H1 in Ho. rewrite H2 in He.
      rewrite (shown_out_cons ChannelStdout), (shown_out_cons ChannelStderr), failures_cons.
      eexists _, _. split; [by rewrite Ho, <-app_assoc|]. split; [by rewrite He, <-app_assoc|].
      split; [by apply prefix_app|]. split; [by apply prefix_app|]. intros Hw1 Hw2.
      destruct (Hall Hw1 Hw2) as (-> & -> & ->). split; [done|]. split; [done|].
      unfold verdict_of. rewrite last_app, H3.
      destruct (last (failures unmarshal fs)); [done|].
      by destruct (last (failures unmarshal [f])).
    + exists [], []. rewrite !app_nil_r. do 2 (split; [done|]). split; [apply prefix_nil|].
      split; [apply prefix_nil|]. intros Hw1 Hw2. by destruct Hf.
Qed.
End pump_lemmas.

Lemma pump_frames_prefix accepts n frames :
  pump_frames accepts n frames `prefix_of` frames ∧
  ((∀ m, accepts m = true) → pump_frames accepts n frames = frames).
Proof.
  revert n. induction frames as [|f fs IH]; intros n; simpl; [done|].
  destruct (accepts n) eqn:Ha.
  - destruct (IH (S n)) as [H1 H2]. split; [by apply prefix_cons|]. intros H. by rewrite H2.
  - split; [apply prefix_nil|]. intros H. by rewrite H in Ha.
Qed.

(** The stream a list of pieces makes. *)
Definition spelled (l : list string) : string := foldr String.append "" l.

Lemma spelled_nonempty l : spelled (filter (λ c, c ≠ "") l) = spelled l.
Proof.
  induction l as [|c l IH]; [done|]. rewrite filter_cons.
  destruct (decide (c ≠ "")) as [Hc|Hc]; simpl; rewrite IH; [done|].
  apply dec_stable in Hc. by subst.
Qed.

(** ** Properties *)

(** A terminal's output is the command's: what is written to the caller's
    standard output is what the frames of that channel carry, in their order,
    and likewise for standard error -- a prefix of it when the caller stops
    taking it; and when it is all taken, the session ends in the last failure the
    command named, else without error when it was closed in order, else with the
    error that says it was cut off. *)
Theorem pumpOutput_correct (unmarshal : string → option ExecStatus) (attach : AttachIO)
    (frames : list string) (ending : closing) (over : bool) :
  let '(w, e) := pumpOutput unmarshal attach frames ending over (mkShown [] []) None in
  sh_out w `prefix_of` shown_out ChannelStdout (at_Stdout attach) frames ∧
  sh_err w `prefix_of` shown_out ChannelStderr (at_Stderr attach) frames ∧
  (writable (at_Stdout attach) → writable (at_Stderr attach) →
     sh_out w = shown_out ChannelStdout (at_Stdout attach) frames ∧
     sh_err w = shown_out ChannelStderr (at_Stderr attach) frames ∧
     e = match last (failures unmarshal frames) with
         | Some code => Some (exit_error code)
         | None => if isNormalClose ending || over then None else Some cut_off
         end).
Proof.
  pose proof (pumpOutput_spec unmarshal attach frames ending over (mkShown [] []) None) as H.
  destruct (pumpOutput _ _ _ _ _ _ _) as [w e].
  destruct H as (out & err & Ho & He & Hp1 & Hp2 & Hall). simpl in *. by rewrite Ho, He.
Qed.

(** What is typed arrives as typed: every frame sent is on the input channel,
    and while the session takes them their data put together is the input, no
    byte lost, added or moved. *)
Theorem pumpStdin_roundtrip (attach : AttachIO) (accepts : nat → bool) (chunks : list string) :
  at_Stdin attach = Some chunks →
  (∀ f, f ∈ pumpStdin attach accepts → ∃ data, f = String ChannelStdin data ∧ data ≠ "") ∧
  ((∀ n, accepts n = true) →
     spelled (on_channel ChannelStdin (pumpStdin attach accepts)) = spelled chunks).
Proof.
  intros Hin. unfold pumpStdin. rewrite Hin.
  destruct (pump_frames_prefix accepts 0 (map (String ChannelStdin) (filter (λ c, c ≠ "") chunks)))
    as [[tail Hpre] Hall].
  split.
  - intros f Hf. assert (f ∈ map (String ChannelStdin) (filter (λ c, c ≠ "") chunks)) as H
      by (rewrite Hpre; set_solver).
    apply (list_elem_of_fmap (String ChannelStdin)) in H as (d & -> & [Hd _]%list_elem_of_filter).
    by exists d.
  - intros Hok. rewrite (Hall Hok), <-(spelled_nonempty chunks). f_equal. clear.
    unfold on_channel. induction chunks as [|c l IH]; [done|]. rewrite filter_cons.
    destruct (decide (c ≠ "")) as [Hc|Hc]; [|done]. simpl. rewrite decide_True by done. simpl.
    by f_equal.
Qed.

(** ** What modelling showed *)

(** A failure whose status names no exit code but carries a message is read as an
    error of reading, and dropped: the session that failed so ends without error. *)
Theorem unnamed_failure_reads_as_success (attach : AttachIO) (msg data : string) :
  msg ≠ "" → data ≠ "" →
  let unmarshal _ := Some (mkExecStatus "Failure" msg None) in
  (ExitCodeOf (unmarshal data)).1 = 1%Z ∧
  (pumpOutput unmarshal attach [String ChannelError data] CloseNormalClosure false
     (mkShown [] []) None).2 = None.
Proof.
  intros Hm Hd. simpl. rewrite (decide_False (P:=data = "")) by done.
  unfold ExitCodeOf. simpl. by rewrite decide_True.
Qed.

(** A connection that drops without a closing handshake, which is how a session
    is cut off, is taken for an orderly end. *)
Theorem cut_off_reads_as_success (unmarshal : string → option ExecStatus) (attach : AttachIO) :
  (pumpOutput unmarshal attach [] CloseAbnormalClosure false (mkShown [] []) None).2 = None.
Proof. done. Qed.

(** ** Witness *)
Definition ex_attach : AttachIO :=
  mkAttach (Some ["ls"; ""; String newline ""]) (Some (λ _, None)) None true None.

Lemma pumpStdin_roundtrip_witness :
  spelled (on_channel ChannelStdin (pumpStdin ex_attach (λ _, true))) = "ls" +:+ String newline "".
Proof.
  destruct (pumpStdin_roundtrip ex_attach (λ _, true) ["ls"; ""; String newline ""] eq_refl)
    as [_ H].
  exact (H (λ _, eq_refl)).
Defined.
