(* ===== verification/Vknode.v ===== *)
(** * pkg/vknode: the namespaces a process serves, and the caches scoped to them

    [Namespaces] (namespaces.go) turns the namespace watch into the set that
    authorizes every pod; [Scoped] (scoped.go) keeps one informer factory per
    namespace of it.  The two are wired together in main.go:
    [watcher.OnChange(mt.scoped.Track)]. *)

From S2P Require Import Prelude GoStd K8s.
From Stdlib Require Import Ascii.

Local Open Scope string_scope.
Local Open Scope list_scope.

(** ** namespaces.go *)
Module Namespaces.

(** Each served namespace with its tenant. *)
Abbreviation Current := (gmap string string).

(** What an observer is told: added, removed. *)
Definition Note : Type := list string * list string.

(** What the informer delivers.  A namespace that stops matching the selector
    comes as a delete. *)
Inductive Event : Type :=
  | Added (name : string) (labels : gmap string string)
  | Deleted (name : string).

Section namespaces.
Variable tenantLabel : string.

Definition tenant_of_labels (labels : gmap string string) : string :=
  if decide (tenantLabel ≠ "") then opt_or "" (labels !! tenantLabel) else "".

Definition add (name : string) (labels : gmap string string) (n : Current) : Current * list Note :=
  let tenant := tenant_of_labels labels in
  if decide (n !! name = Some tenant) then (n, [])
  else (<[name := tenant]> n, [([name], [])]).

Definition remove (name : string) (n : Current) : Current * list Note :=
  match n !! name with
  | None => (n, [])
  | Some _ => (delete name n, [([], [name])])
  end.

Definition handle (e : Event) (n : Current) : Current * list Note :=
  match e with Added name labels => add name labels n | Deleted name => remove name n end.

Fixpoint handle_all (es : list Event) (n : Current) : Current * list Note :=
  match es with
  | [] => (n, [])
  | e :: es => let '(n, notes) := handle e n in
               let '(n, notes') := handle_all es n in (n, notes ++ notes')
  end.

(** What a new observer is told at once. *)
Definition OnChange (n : Current) : list Note :=
  match (map_to_list n).*1 with [] => [] | existing => [(existing, [])] end.
End namespaces.

Definition Serves (n : Current) (namespace : string) : bool := bool_decide (is_Some (n !! namespace)).
Definition TenantOf (n : Current) (namespace : string) : option string := n !! namespace.

(** Two orders of the map: whatever the range visits first. *)
Definition Tenants (visit : list (string * string)) : list string :=
  fold_left (λ out nt, if decide (nt.2 = "" ∨ nt.2 ∈ out) then out else out ++ [nt.2]) visit [].
Definition NamespacesOfTenant (visit : list (string * string)) (tenant : string) : list string :=
  (filter (λ nt : string * string, nt.2 = tenant ∧ tenant ≠ "") visit).*1.
Definition List_ (n : Current) : list string := (map_to_list n).*1.
End Namespaces.

(** ** scoped.go *)
Module Scoped.

Definition scopedKinds : list string := ["services"; "endpointslices"; "pods";
  "networkpolicies"; "ingresses"; "persistentvolumeclaims"].

(** A handler, by the kind it is for and who it is. *)
Definition scopedHandler : Type := string * nat.

Record scopedFactory := mkFactory { started : bool; registered : list scopedHandler }.
Record ScopedFactories := mkScoped {
  running : bool;                           (* [ctx] is set *)
  synced : bool;
  factories : gmap string scopedFactory;
  handlers : list scopedHandler }.

Definition NewScopedFactories : ScopedFactories := mkScoped false false ∅ [].

(** An unknown kind is an error nobody looks at. *)
Definition registerLocked (f : scopedFactory) (h : scopedHandler) : scopedFactory :=
  if decide (h.1 ∈ scopedKinds) then mkFactory (started f) (registered f ++ [h]) else f.

Definition startLocked (f : scopedFactory) : scopedFactory := mkFactory true (registered f).

Definition Start (s : ScopedFactories) : ScopedFactories :=
  mkScoped true (synced s) ((λ f, if started f : bool then f else startLocked f) <$> factories s)
    (handlers s).

Definition untrack (fs : gmap string scopedFactory) (ns : string) : gmap string scopedFactory :=
  delete ns fs.

Definition new_factory (s : ScopedFactories) : scopedFactory :=
  let f := fold_left registerLocked (handlers s) (mkFactory false []) in
  if running s then startLocked f else f.

Definition track (s : ScopedFactories) (fs : gmap string scopedFactory) (ns : string)
    : gmap string scopedFactory :=
  match fs !! ns with Some _ => fs | None => <[ns := new_factory s]> fs end.

Definition Track (added removed : list string) (s : ScopedFactories) : ScopedFactories :=
  mkScoped (running s) (synced s)
    (fold_left (track s) added (fold_left untrack removed (factories s))) (handlers s).

Definition subscribe (h : scopedHandler) (s : ScopedFactories) : ScopedFactories :=
  mkScoped (running s) (synced s) ((λ f, registerLocked f h) <$> factories s) (handlers s ++ [h]).

Section reading.
(** Whether one namespace's informer of a kind has synced. *)
Variable informer_synced : string → string → bool.

Definition HasSynced (s : ScopedFactories) : bool * ScopedFactories :=
  if synced s then (true, s)
  else if forallb (λ nf, negb (started nf.2) || forallb (informer_synced nf.1) scopedKinds)
            (map_to_list (factories s))
  then (true, mkScoped (running s) true (factories s) (handlers s))
  else (false, s).

(** What the stores hold, by namespace: objects of one kind by name. *)
Context {Obj : Type}.
Variable store : string → gmap string Obj.
Variable selects : Obj → bool.

(** The five listers are one. *)
Definition List_ (s : ScopedFactories) : list Obj :=
  flat_map (λ nf : string * scopedFactory,
    filter (λ o, selects o = true) (map_to_list (store nf.1)).*2) (map_to_list (factories s)).

Definition Get (s : ScopedFactories) (namespace name : string) : result Obj :=
  match factories s !! namespace with
  | None => Err ErrK8sNotFound
  | Some _ => match store namespace !! name with Some o => Ok o | None => Err ErrK8sNotFound end
  end.
End reading.

(** Everything that happens to it. *)
Inductive Op : Type :=
  | OpStart
  | OpTrack (added removed : list string)
  | OpSubscribe (h : scopedHandler)
  | OpHasSynced (informer_synced : string → string → bool).

Definition step (o : Op) (s : ScopedFactories) : ScopedFactories :=
  match o with
  | OpStart => Start s
  | OpTrack added removed => Track added removed s
  | OpSubscribe h => subscribe h s
  | OpHasSynced f => (HasSynced f s).2
  end.
Definition run (ops : list Op) (s : ScopedFactories) : ScopedFactories := fold_left (λ s o, step o s) ops s.
End Scoped.

(** ** Lemmas: the watch *)
Module NamespacesFacts.
Import Namespaces.
Section facts.
Variable tenantLabel : string.

(** What the last event about a namespace says. *)
Fixpoint last_word (es : list Event) (ns : string) (before : option string) : option string :=
  match es with
  | [] => before
  | Added name labels :: es =>
      last_word es ns (if decide (name = ns) then Some (tenant_of_labels tenantLabel labels) else before)
  | Deleted name :: es => last_word es ns (if decide (name = ns) then None else before)
  end.

Lemma handle_current e n ns :
  (handle tenantLabel e n).1 !! ns = last_word [e] ns (n !! ns).
Proof.
  destruct e as [name labels|name]; simpl.
  - unfold add. destruct (decide (n !! name = _)) as [He|He]; simpl;
      (destruct (decide (name = ns)) as [->|Hne]; [by rewrite ?lookup_insert_eq|]);
      [done|by rewrite lookup_insert_ne].
  - unfold remove. destruct (n !! name) eqn:Hn; simpl;
      (destruct (decide (name = ns)) as [->|Hne]; [by rewrite ?lookup_delete_eq|]);
      [by rewrite lookup_delete_ne|done].
Qed.

Lemma handle_all_current es n ns :
  (handle_all tenantLabel es n).1 !! ns = last_word es ns (n !! ns).
Proof.
  revert n. induction es as [|e es IH]; intros n; simpl; [done|].
  pose proof (handle_current e n ns) as He.
  destruct (handle tenantLabel e n) as [n1 notes]. specialize (IH n1).
  destruct (handle_all tenantLabel es n1) as [n2 notes']. simpl in *. rewrite IH, He.
  by destruct e.
Qed.

(** What an observer that keeps up believes. *)
Definition hear (known : gset string) (note : Note) : gset string :=
  (known ∖ list_to_set note.2) ∪ list_to_set note.1.
Definition hear_all (notes : list Note) (known : gset string) : gset string :=
  fold_left hear notes known.

Lemma handle_heard e n : hear_all (handle tenantLabel e n).2 (dom n) = dom (handle tenantLabel e n).1.
Proof.
  destruct e as [name labels|name]; simpl.
  - unfold add. destruct (decide (n !! name = _)); simpl; [done|]. unfold hear. simpl.
    rewrite dom_insert_L. set_solver.
  - unfold remove. destruct (n !! name) eqn:Hn; simpl; [|done]. unfold hear. simpl.
    rewrite dom_delete_L. set_solver.
Qed.

Lemma handle_all_heard es n :
  hear_all (handle_all tenantLabel es n).2 (dom n) = dom (handle_all tenantLabel es n).1.
Proof.
  revert n. induction es as [|e es IH]; intros n; simpl; [done|].
  pose proof (handle_heard e n) as He.
  destruct (handle tenantLabel e n) as [n1 notes]. specialize (IH n1).
  destruct (handle_all tenantLabel es n1) as [n2 notes']. simpl in *.
  unfold hear_all in *. by rewrite fold_left_app, He.
Qed.

Lemma OnChange_heard n : hear_all (OnChange n) ∅ = dom n.
Proof.
  unfold OnChange. assert (list_to_set (map_to_list n).*1 = dom n) as Hd.
  { apply set_eq. intros ns. rewrite elem_of_list_to_set, list_elem_of_fmap, elem_of_dom. split.
    - intros ([k v] & -> & Hin%elem_of_map_to_list). by exists v.
    - intros [v Hv]. exists (ns, v). by rewrite elem_of_map_to_list. }
  destruct (map_to_list n).*1 as [|k l]; simpl; [done|]. unfold hear. simpl. rewrite <-Hd. set_solver.
Qed.
End facts.
End NamespacesFacts.

(** ** Lemmas: the factories *)
Module ScopedFacts.
Import Namespaces NamespacesFacts Scoped.

(** Every factory has every handler of a kind there is, once and in the order of
    subscription, whichever came first; and runs exactly when the set does. *)
Definition good (s : ScopedFactories) : Prop :=
  ∀ ns f, factories s !! ns = Some f →
    registered f = filter (λ h : scopedHandler, h.1 ∈ scopedKinds) (handlers s) ∧
    started f = running s.

Lemma register_all hs f :
  registered (fold_left registerLocked hs f) =
    registered f ++ filter (λ h : scopedHandler, h.1 ∈ scopedKinds) hs ∧
  started (fold_left registerLocked hs f) = started f.
Proof.
  revert f. induction hs as [|h hs IH]; intros f; simpl; [by rewrite app_nil_r|].
  destruct (IH (registerLocked f h)) as [-> ->]. unfold registerLocked. rewrite filter_cons.
  destruct (decide (h.1 ∈ scopedKinds)); simpl; [by rewrite <-app_assoc|done].
Qed.

Lemma new_factory_good s :
  registered (new_factory s) = filter (λ h : scopedHandler, h.1 ∈ scopedKinds) (handlers s) ∧
  started (new_factory s) = running s.
Proof.
  unfold new_factory. destruct (register_all (handlers s) (mkFactory false [])) as [H1 H2].
  simpl in *. by destruct (running s).
Qed.

(** The factories after a [Track]: the tracked ones keep theirs. *)
Lemma untrack_lookup removed fs ns :
  fold_left untrack removed fs !! ns = if decide (ns ∈ removed) then None else fs !! ns.
Proof.
  revert fs. induction removed as [|r rs IH]; intros fs; simpl; [done|].
  rewrite IH. unfold untrack. destruct (decide (ns ∈ rs)) as [Hin|Hin].
  - rewrite decide_True by set_solver. done.
  - destruct (decide (ns = r)) as [->|Hne].
    + rewrite decide_True by set_solver. apply lookup_delete_eq.
    + rewrite decide_False by set_solver. by apply lookup_delete_ne.
Qed.

Lemma track_lookup s added fs ns :
  fold_left (track s) added fs !! ns =
    match fs !! ns with
    | Some f => Some f
    | None => if decide (ns ∈ added) then Some (new_factory s) else None
    end.
Proof.
  revert fs. induction added as [|a l IH]; intros fs; simpl; [by destruct (fs !! ns)|].
  rewrite IH. unfold track. destruct (fs !! a) as [fa|] eqn:Ha.
  - destruct (fs !! ns) eqn:Hns; [done|]. assert (ns ≠ a) by (by intros ->; congruence).
    destruct (decide (ns ∈ l)); [by rewrite decide_True by set_solver|].
    by rewrite decide_False by set_solver.
  - destruct (decide (ns = a)) as [->|Hne].
    + rewrite lookup_insert_eq, Ha. by rewrite decide_True by set_solver.
    + rewrite lookup_insert_ne by done. destruct (fs !! ns); [done|].
      destruct (decide (ns ∈ l)); [by rewrite decide_True by set_solver|].
      by rewrite decide_False by set_solver.
Qed.

Lemma Track_dom added removed s :
  dom (factories (Track added removed s)) = hear (dom (factories s)) (added, removed).
Proof.
  apply set_eq. intros ns. unfold hear. simpl.
  rewrite elem_of_dom, track_lookup, untrack_lookup, elem_of_union, elem_of_difference,
    !elem_of_list_to_set, elem_of_dom.
  destruct (decide (ns ∈ removed)), (decide (ns ∈ added)), (factories s !! ns); simpl;
    rewrite ?is_Some_alt; naive_solver.
Qed.

Lemma step_good o s : good s → good (step o s).
Proof.
  intros Hg. destruct o as [|added removed|h|f]; simpl.
  - intros ns f. simpl. rewrite lookup_fmap, fmap_Some. intros (f0 & Hf & ->).
    destruct (Hg ns f0 Hf) as [H1 H2]. by destruct (started f0) eqn:Hst.
  - intros ns f. simpl. rewrite track_lookup, untrack_lookup.
    assert ((if decide (ns ∈ added) then Some (new_factory s) else None) = Some f →
      registered f = filter (λ h : scopedHandler, h.1 ∈ scopedKinds) (handlers s) ∧
      started f = running s) as Hnew.
    { destruct (decide (ns ∈ added)); [|done]. intros [= <-]. apply new_factory_good. }
    destruct (decide (ns ∈ removed)); [exact Hnew|].
    destruct (factories s !! ns) as [f0|] eqn:Hf; [|exact Hnew]. intros [= <-]. exact (Hg ns f0 Hf).
  - intros ns f. simpl. rewrite lookup_fmap, fmap_Some. intros (f0 & Hf & ->).
    destruct (Hg ns f0 Hf) as [H1 H2]. unfold registerLocked. rewrite filter_app, filter_cons.
    destruct (decide (h.1 ∈ scopedKinds)); simpl; [by rewrite H1|by rewrite app_nil_r].
  - unfold HasSynced. destruct (synced s); [done|]. by destruct (forallb _ _).
Qed.

Lemma step_synced o s : synced s = true → synced (step o s) = true.
Proof. intros Hs. destruct o; simpl; try done. unfold HasSynced. by rewrite Hs. Qed.

Lemma step_factories o s :
  (∀ added removed, o ≠ OpTrack added removed) → dom (factories (step o s)) = dom (factories s).
Proof.
  intros Hno. destruct o as [|added removed|h|f]; simpl.
  - by rewrite dom_fmap_L.
  - by destruct (Hno added removed).
  - by rewrite dom_fmap_L.
  - unfold HasSynced. destruct (synced s); [done|]. by destruct (forallb _ _).
Qed.

(** *** Wired together *)
Inductive Act : Type :=
  | Watch (e : Event)
  | Do (o : Op).

(** The watcher's notes go to [Track] as they come. *)
Definition deliver (notes : list Note) (s : ScopedFactories) : ScopedFactories :=
  fold_left (λ s note, Track note.1 note.2 s) notes s.

Definition act (tenantLabel : string) (ns : Current * ScopedFactories) (a : Act)
    : Current * ScopedFactories :=
  match a with
  | Watch e => let '(n, notes) := handle tenantLabel e ns.1 in (n, deliver notes ns.2)
  | Do o => (ns.1, step o ns.2)
  end.

Definition wired (tenantLabel : string) (n : Current) (acts : list Act) : Current * ScopedFactories :=
  fold_left (act tenantLabel) acts (n, deliver (OnChange n) NewScopedFactories).

Lemma deliver_spec notes s :
  good s → good (deliver notes s) ∧ dom (factories (deliver notes s)) = hear_all notes (dom (factories s)).
Proof.
  revert s. induction notes as [|[added removed] notes IH]; intros s Hg; simpl; [done|].
  destruct (IH (Track added removed s)) as [H1 H2].
  { by apply (step_good (OpTrack added removed)). }
  split; [done|]. by rewrite H2, Track_dom.
Qed.

Lemma wired_spec tenantLabel n acts :
  (∀ a o, a ∈ acts → a = Do o → ∀ added removed, o ≠ OpTrack added removed) →
  let '(n', s) := wired tenantLabel n acts in dom (factories s) = dom n' ∧ good s.
Proof.
  intros Hacts. unfold wired.
  enough (∀ ns : Current * ScopedFactories, dom (factories ns.2) = dom ns.1 → good ns.2 →
    let '(n', s) := fold_left (act tenantLabel) acts ns in dom (factories s) = dom n' ∧ good s) as H.
  { destruct (deliver_spec (OnChange n) NewScopedFactories) as [Hg Hd]; [done|].
    apply (H (n, deliver (OnChange n) NewScopedFactories)); simpl; [|done].
    rewrite Hd. apply OnChange_heard. }
  induction acts as [|a acts IH]; intros [n' s] Hd Hg; simpl in *; [done|].
  specialize (IH ltac:(intros b o Hb; apply Hacts; by right)).
  destruct a as [e|o]; simpl.
  - pose proof (handle_heard tenantLabel e n') as He.
    destruct (handle tenantLabel e n') as [n1 notes]. simpl in *.
    destruct (deliver_spec notes s Hg) as [Hg' Hd'].
    apply IH; simpl; [|done]. by rewrite Hd', Hd.
  - apply IH; simpl; [|by apply step_good]. rewrite step_factories; [done|].
    apply (Hacts (Do o)); [by left|done].
Qed.
End ScopedFacts.

Import Namespaces NamespacesFacts Scoped ScopedFacts.

(** ** Properties *)

(** The set of served namespaces is what the watch last said, and nothing
    before it has said anything: a namespace is served, under a tenant, exactly
    when the last event about it was an addition, carrying that tenant's label;
    an observer registered at any moment, hearing what is known then and every
    change after, knows exactly the served namespaces; and walks by tenant visit
    every tenant with a label once, and no tenant without a name. *)
Theorem Namespaces_correct (tenantLabel : string) (es es' : list Event) (ns : string) :
  let n := (handle_all tenantLabel es ∅).1 in
  let n' := (handle_all tenantLabel es' n).1 in
  TenantOf n ns = last_word tenantLabel es ns None ∧
  Serves n ns = bool_decide (is_Some (last_word tenantLabel es ns None)) ∧
  hear_all (OnChange n ++ (handle_all tenantLabel es' n).2) ∅ = dom n' ∧
  NoDup (Tenants (map_to_list n)) ∧
  (∀ t, t ∈ Tenants (map_to_list n) ↔ t ≠ "" ∧ ∃ m, TenantOf n m = Some t) ∧
  (∀ t m, m ∈ NamespacesOfTenant (map_to_list n) t ↔ t ≠ "" ∧ TenantOf n m = Some t).
Proof.
  cbv zeta. set (n := (handle_all tenantLabel es ∅).1).
  assert (n !! ns = last_word tenantLabel es ns None) as Hn
    by (unfold n; by rewrite handle_all_current, lookup_empty).
  split; [done|]. split; [unfold Serves; by rewrite Hn|]. split; [|split; [|split]].
  - unfold hear_all. rewrite fold_left_app. fold (hear_all (OnChange n) ∅).
    rewrite OnChange_heard. apply handle_all_heard.
  - unfold Tenants. apply (fold_left_inv (λ l, NoDup l)); [constructor|].
    intros l [k t] _ Hl. destruct (decide _) as [|Hd]; [done|]. apply NoDup_app.
    split; [done|]. split; [|repeat constructor; set_solver]. set_solver.
  - intros t.
    assert (∀ l out, t ∈ fold_left (λ out nt, if decide (nt.2 = "" ∨ nt.2 ∈ out) then out
        else out ++ [nt.2]) l out ↔ t ∈ out ∨ t ≠ "" ∧ ∃ m : string, (m, t) ∈ l) as H.
    { induction l as [|[k v] l IH]; intros out; simpl; [set_solver|]. rewrite IH.
      setoid_rewrite elem_of_cons. destruct (decide _) as [Hd|Hd]; set_solver. }
    unfold Tenants. rewrite H. setoid_rewrite elem_of_map_to_list. unfold TenantOf. set_solver.
  - intros t m. unfold NamespacesOfTenant. rewrite list_elem_of_fmap.
    setoid_rewrite list_elem_of_filter. unfold TenantOf. split.
    + intros ([k v] & -> & [<- Ht] & Hin%elem_of_map_to_list). done.
    + intros [Ht Hm]. exists (m, t). by rewrite elem_of_map_to_list.
Qed.

(** C38 The caches follow the namespaces: wired to the watch from the start, and
    whatever is subscribed, started, asked or added in between and in whatever
    order, there is a factory for exactly the served namespaces, each with every
    subscribed handler exactly once in order and running when the set runs; so a
    read spans the served namespaces' objects and no other's, and an unserved
    namespace reads as empty. *)
Theorem Scoped_follows {Obj : Type} (store : string → gmap string Obj) (selects : Obj → bool)
    (tenantLabel : string) (acts : list Act) :
  (∀ a o, a ∈ acts → a = Do o → ∀ added removed, o ≠ OpTrack added removed) →
  let '(n, s) := wired tenantLabel ∅ acts in
  dom (factories s) = dom n ∧ good s ∧
  (∀ o, o ∈ Scoped.List_ store selects s ↔
     selects o = true ∧ ∃ ns name, Serves n ns = true ∧ store ns !! name = Some o) ∧
  (∀ ns name o, Get store s ns name = Ok o ↔ Serves n ns = true ∧ store ns !! name = Some o) ∧
  (∀ ns name, Serves n ns = false → Get store s ns name = Err ErrK8sNotFound).
Proof.
  intros Hacts. pose proof (wired_spec tenantLabel ∅ acts Hacts) as H.
  destruct (wired tenantLabel ∅ acts) as [n s]. destruct H as [Hd Hg].
  assert (∀ ns, is_Some (factories s !! ns) ↔ Serves n ns = true) as Hs.
  { intros ns. unfold Serves. by rewrite bool_decide_eq_true, <-!elem_of_dom, Hd. }
  split; [done|]. split; [done|]. split; [|split].
  - intros o. unfold Scoped.List_. rewrite list_elem_of_In, in_flat_map.
    setoid_rewrite <-list_elem_of_In. split.
    + intros ([ns f] & Hin%elem_of_map_to_list & [Hsel Ho]%list_elem_of_filter).
      apply list_elem_of_fmap in Ho as ([name o'] & -> & Ho%elem_of_map_to_list).
      split; [done|]. exists ns, name. split; [apply Hs; by exists f|done].
    + intros (Hsel & ns & name & [f Hf]%Hs & Ho). exists (ns, f). split; [by apply elem_of_map_to_list|].
      apply list_elem_of_filter. split; [done|]. apply list_elem_of_fmap. exists (name, o).
      split; [done|]. by apply elem_of_map_to_list.
  - intros ns name o. unfold Get. rewrite <-Hs.
    destruct (factories s !! ns) as [f|]; [|split; [done|by intros [[? ?] _]]].
    destruct (store ns !! name); [|split; [done|by intros [_ ?]]].
    split; [intros [= ->]; split; [by eexists|done]|by intros [_ [= ->]]].
  - intros ns name Hns. unfold Get. destruct (factories s !! ns) as [f|] eqn:Hf; [|done].
    rewrite (proj1 (Hs ns)) in Hns; [done|by exists f].
Qed.

(** ** What modelling showed *)

(** Asked before any namespace is tracked, the set says it has synced, and goes on
    saying so: namespaces that arrive afterwards are read as empty while their
    first list is still under way. *)
Theorem HasSynced_latches_on_nothing (ops : list Op) (f g : string → string → bool) :
  let s := run ops (step (OpHasSynced f) NewScopedFactories) in
  (HasSynced f NewScopedFactories).1 = true ∧ (HasSynced g s).1 = true.
Proof.
  cbv zeta. split; [done|].
  assert (∀ s, synced s = true → synced (run ops s) = true) as H.
  { unfold run. induction ops as [|o l IH]; intros s Hs; simpl; [done|]. by apply IH, step_synced. }
  unfold HasSynced at 1. by rewrite H.
Qed.

(** ** Witness *)
Definition ex_acts : list Act :=
  [Do (OpSubscribe ("pods", 1)); Do OpStart; Watch (Added "prod" {["tenant" := "t1"]});
   Do (OpSubscribe ("services", 2)); Watch (Added "dev" ∅); Watch (Deleted "dev")].
Definition ex_store (ns : string) : gmap string nat := {["x" := 7]}.

Lemma Scoped_follows_witness :
  Serves (wired "tenant" ∅ ex_acts).1 "prod" = true ∧
  Get ex_store (wired "tenant" ∅ ex_acts).2 "prod" "x" = Ok 7 ∧
  Get ex_store (wired "tenant" ∅ ex_acts).2 "dev" "x" = Err ErrK8sNotFound.
Proof.
  pose proof (Scoped_follows ex_store (λ _, true) "tenant" ex_acts) as H.
  specialize (H ltac:(intros a o Ha ->; unfold ex_acts in Ha;
    repeat (apply elem_of_cons in Ha as [Ha|Ha]; [inversion Ha; done|]);
    by apply elem_of_nil in Ha)).
  assert (Serves (wired "tenant" ∅ ex_acts).1 "prod" = true) as Hp by (vm_compute; reflexivity).
  assert (Serves (wired "tenant" ∅ ex_acts).1 "dev" = false) as Hd by (vm_compute; reflexivity).
  destruct (wired "tenant" ∅ ex_acts) as [n s]. destruct H as (_ & _ & _ & HG & HN).
  split; [exact Hp|]. split; [|exact (HN "dev" "x" Hd)].
  apply HG. split; [exact Hp|vm_compute; reflexivity].
Defined.
