(* ===== verification/Tenant.v ===== *)
(** * pkg/tenant, pkg/zun/resolved.go, cmd/virtual-kubelet/multitenant.go

    Which OpenStack session a namespace's work belongs in: credentials, the
    binding check, the sessions kept per tenant, the capsule APIs kept per
    project, and the reconcilers kept per tenant.  Picking the wrong session does
    not fail, it succeeds against the wrong project, so what is proved is what
    each answer must have come from. *)

From S2P Require Import Prelude GoStd K8s.
From Stdlib Require Import Ascii.

Local Open Scope string_scope.
Local Open Scope list_scope.

(** ** session.go *)
Record Credentials := mkCredentials {
  AuthURL : string;
  ApplicationCredID : string;
  ApplicationCredName : string;
  ApplicationCredSecret : string;
  Username : string;
  UserDomainName : string;
  cr_Region : string }.

Definition CredentialsFromEnv (getenv : string → string) : result Credentials :=
  let c := mkCredentials (getenv "OS_AUTH_URL") (getenv "OS_APPLICATION_CREDENTIAL_ID")
    (getenv "OS_APPLICATION_CREDENTIAL_NAME") (getenv "OS_APPLICATION_CREDENTIAL_SECRET")
    (getenv "OS_USERNAME") (getenv "OS_USER_DOMAIN_NAME") (getenv "OS_REGION_NAME") in
  if decide (AuthURL c = "") then Err (ErrMsg "OS_AUTH_URL is required")
  else if decide (ApplicationCredSecret c = "") then
    Err (ErrMsg ("OS_APPLICATION_CREDENTIAL_SECRET is required: " +:+
      "this provider authenticates with an application credential, not a password"))
  else if decide (ApplicationCredID c = "" ∧ ApplicationCredName c = "") then
    Err (ErrMsg ("either OS_APPLICATION_CREDENTIAL_ID or " +:+
      "OS_APPLICATION_CREDENTIAL_NAME is required"))
  else Ok (mkCredentials (AuthURL c) (ApplicationCredID c) (ApplicationCredName c)
    (ApplicationCredSecret c) (Username c) (UserDomainName c)
    (if decide (cr_Region c = "") then "RegionOne" else cr_Region c)).

Record AuthOptions := mkAuthOptions {
  IdentityEndpoint : string;
  ao_CredentialID : string;
  ao_CredentialName : string;
  ao_CredentialSecret : string;
  ao_Username : string;
  ao_DomainName : string }.

(** What an authentication answers: not a v3 token, or one with the project it
    is scoped to. *)
Inductive AuthResult : Type :=
  | OtherAuth
  | TokenV3 (project : result (option string)).

(** A session: how it authenticated, and what it turned out to be. *)
Record Session := mkSession {
  provider : AuthOptions; Region : string; Project : string }.

Definition projectOf (r : AuthResult) : result string :=
  match r with
  | OtherAuth => Ok ""
  | TokenV3 (Err e) => Err (ErrWrap "reading the project this credential authenticates as" e)
  | TokenV3 (Ok None) => Err (ErrMsg "this credential is not scoped to a project")
  | TokenV3 (Ok (Some p)) => Ok p
  end.

Definition auth_options (c : Credentials) : AuthOptions :=
  mkAuthOptions (AuthURL c) (ApplicationCredID c) (ApplicationCredName c) (ApplicationCredSecret c)
    (Username c) (UserDomainName c).

Definition NewSession {W} (authenticate : AuthOptions → M W AuthResult) (c : Credentials)
    : M W Session :=
  r ← wrap ("authenticate against " +:+ AuthURL c) (authenticate (auth_options c));
  project ← lift_result (projectOf r);
  mret (mkSession (auth_options c) (cr_Region c) project).

(** ** resolver.go *)
Definition ProjectAnnotation : string := "knaas.io/project-id".
Definition RegionAnnotation : string := "knaas.io/region".
Definition NetworkIDAnnotation : string := "knaas.io/network-id".
Definition VIPSubnetIDAnnotation : string := "knaas.io/vip-subnet-id".
Definition VIPNetworkIDAnnotation : string := "knaas.io/vip-network-id".

Record Secret := mkSecret {
  sec_Name : string; sec_Annotations : gmap string string; sec_Data : gmap string string }.

Record Binding := mkBinding {
  b_Session : Session; b_NetworkID : string; b_VIPSubnetID : string; b_VIPNetworkID : string }.

Definition value (m : gmap string string) (k : string) : string := opt_or "" (m !! k).

Definition credentialsFrom (s : Secret) : Credentials :=
  let get := value (sec_Data s) in
  mkCredentials (get "OS_AUTH_URL") (get "OS_APPLICATION_CREDENTIAL_ID")
    (get "OS_APPLICATION_CREDENTIAL_NAME") (get "OS_APPLICATION_CREDENTIAL_SECRET")
    (get "OS_USERNAME") (get "OS_USER_DOMAIN_NAME") (get "OS_REGION_NAME").

(** The platform namespace's Secrets, and Keystone. *)
Class SecretsAPI (W : Type) := {
  secret_Get : string → M W Secret;
  secret_Patch : string → gmap string string → M W ();
  authenticate : AuthOptions → M W AuthResult;
  (* building a service's client from a session: which service, and whether the
     catalog has it *)
  new_client : string → Session → result ();
}.

(** A tenant's copy of a reconciler template: what is swapped in it. *)
Record Reconciler := mkReconciler {
  r_Tenant : string;
  r_Session : Session;
  r_Serves : string → bool;
  r_VIPSubnetID : string;
  r_VIPNetworkID : string }.

(** The mutable fields: [Resolver]'s, [ResolvedCapsules]', [multiTenant]'s. *)
Record State := mkState {
  built : gmap string Binding;
  refused : gset string;
  apis : gmap string Session;
  services : gmap string Reconciler;
  volumes : gmap string Reconciler;
  ingresses : gmap string Reconciler;
  netpols : gmap string Reconciler }.

Definition Fresh : State := mkState ∅ ∅ ∅ ∅ ∅ ∅ ∅.
Definition set_built (f : gmap string Binding → gmap string Binding) (s : State) : State :=
  mkState (f (built s)) (refused s) (apis s) (services s) (volumes s) (ingresses s) (netpols s).
Definition set_refused (f : gset string → gset string) (s : State) : State :=
  mkState (built s) (f (refused s)) (apis s) (services s) (volumes s) (ingresses s) (netpols s).
Definition set_apis (f : gmap string Session → gmap string Session) (s : State) : State :=
  mkState (built s) (refused s) (f (apis s)) (services s) (volumes s) (ingresses s) (netpols s).
Definition set_services (f : gmap string Reconciler → gmap string Reconciler) (s : State) : State :=
  mkState (built s) (refused s) (apis s) (f (services s)) (volumes s) (ingresses s) (netpols s).
Definition set_volumes (f : gmap string Reconciler → gmap string Reconciler) (s : State) : State :=
  mkState (built s) (refused s) (apis s) (services s) (f (volumes s)) (ingresses s) (netpols s).
Definition set_ingresses (f : gmap string Reconciler → gmap string Reconciler) (s : State) : State :=
  mkState (built s) (refused s) (apis s) (services s) (volumes s) (f (ingresses s)) (netpols s).
Definition set_netpols (f : gmap string Reconciler → gmap string Reconciler) (s : State) : State :=
  mkState (built s) (refused s) (apis s) (services s) (volumes s) (ingresses s) (f (netpols s)).

Section resolver.
Context {W : Type} `{!SecretsAPI W}.
(** The namespace watch's answers. *)
Variable TenantOf : string → option string.
Variable SecretName : option (string → string).
(** The order in which the two recorded halves are compared. *)
Variable order : list string.

Abbreviation T := (M (State * W)).

Definition secretName (tenant : string) : string :=
  match SecretName with Some f => f tenant | None => tenant end.

Definition found (client : Session) (key : string) : string :=
  if decide (key = ProjectAnnotation) then Project client else Region client.

Definition refusal (tenant key recorded found : string) : gerror :=
  ErrMsg ("tenant " +:+ tenant +:+ " is bound to " +:+ key +:+ "=" +:+ recorded +:+
    " but its credential authenticates as " +:+ found +:+ "; " +:+
    "refusing to act. Changing the binding is a migration, not an edit: " +:+
    "drain the tenant under the old credential first, or its existing " +:+
    "capsules become invisible and unreclaimable").

Definition reportRefusal (tenant : string) : T () := own_modify (set_refused (union {[tenant]})).

(** The missing halves; the first that disagrees refuses. *)
Definition compare_step (tenant : string) (secret : Secret) (client : Session)
    (missing : list string) (key : string) : T (list string) :=
  let recorded := value (sec_Annotations secret) key in
  let found := found client key in
  if decide (recorded = "") then mret (missing ++ [key])
  else if decide (found = "") then mret missing
  else if decide (recorded ≠ found) then
    reportRefusal tenant ≫= λ _, fail (refusal tenant key recorded found)
  else mret missing.

(** A patch that fails is logged. *)
Definition record (secret : Secret) (client : Session) (missing : list string) : T () :=
  let annotations : gmap string string :=
    list_to_map (map (λ k, (k, found client k)) (filter (λ k, found client k ≠ "") missing)) in
  if decide (annotations = ∅) then mret ()
  else _ ← on_service (try (secret_Patch (sec_Name secret) annotations)); mret ().

Definition checkBinding (tenant : string) (secret : Secret) (client : Session) : T () :=
  missing ← fold_each (compare_step tenant secret client) [] order;
  if decide (missing = []) then mret () else record secret client missing.

Definition connect (tenant : string) : T Binding :=
  let name := secretName tenant in
  r ← on_service (try (secret_Get name));
  match r with
  | Err e =>
      if decide (root_cause e = ErrK8sNotFound) then
        fail (ErrMsg ("tenant " +:+ tenant +:+ " has no credential: secret " +:+ go_quote name +:+
          " does not exist"))
      else fail (ErrWrap ("reading the credential of tenant " +:+ tenant) e)
  | Ok secret =>
      client ← wrap ("authenticating tenant " +:+ tenant)
        (on_service (NewSession authenticate (credentialsFrom secret)));
      checkBinding tenant secret client ≫= λ _,
      let get := value (sec_Annotations secret) in
      mret (mkBinding client (get NetworkIDAnnotation) (get VIPSubnetIDAnnotation)
              (get VIPNetworkIDAnnotation))
  end.

Definition BindingFor (namespace : string) : T Binding :=
  match TenantOf namespace with
  | None => fail (ErrMsg ("namespace " +:+ go_quote namespace +:+ " is not served by this process"))
  | Some tenant =>
      if decide (tenant = "") then
        fail (ErrMsg ("namespace " +:+ go_quote namespace +:+
          " names no tenant, so no credential can be chosen for it"))
      else
        s ← own_get;
        match built s !! tenant with
        | Some b => mret b
        | None =>
            b ← connect tenant;
            s ← own_get;
            match built s !! tenant with
            | Some b => mret b
            | None => own_modify (set_built <[tenant := b]>) ≫= λ _, mret b
            end
        end
  end.

Definition For (namespace : string) : T Session :=
  b ← BindingFor namespace; mret (b_Session b).

(** ** pkg/zun/resolved.go *)
Definition apiFor (session : Session) : T Session :=
  s ← own_get;
  match apis s !! Project session with
  | Some api => mret api
  | None =>
      _ ← lift_result (new_client "container" session);
      own_modify (set_apis <[Project session := session]>) ≫= λ _, mret session
  end.

Definition Capsules_For (namespace : string) : T Session :=
  session ← For namespace; apiFor session.

(** A tenant whose credential or endpoint fails is skipped; [fn]'s error stops
    the walk. *)
Definition Capsules_Each (tenants : list string) (namespaceOf : string → option string)
    (fn : string → Session → T ()) : T () :=
  for_each tenants (λ t,
    match namespaceOf t with
    | None => mret ()
    | Some namespace =>
        r ← try (For namespace);
        match r with
        | Err _ => mret ()
        | Ok session =>
            r ← try (apiFor session);
            match r with Err _ => mret () | Ok api => fn t api end
        end
    end).

(** ** multitenant.go *)
Definition servesTenant (t namespace : string) : bool := bool_decide (TenantOf namespace = Some t).

Definition binding (namespace : string) : T (string * Binding) :=
  match TenantOf namespace with
  | None => fail (ErrMsg ("namespace " +:+ go_quote namespace +:+ " names no tenant"))
  | Some t =>
      if decide (t = "") then
        fail (ErrMsg ("namespace " +:+ go_quote namespace +:+ " names no tenant"))
      else b ← BindingFor namespace; mret (t, b)
  end.

Definition networkIDFor (namespace : string) : T string :=
  '(_, b) ← binding namespace;
  if decide (b_NetworkID b = "") then
    fail (ErrMsg ("namespace " +:+ go_quote namespace +:+ ": its tenant's binding names no network"))
  else mret (b_NetworkID b).

Definition not_running (what : string) : gerror :=
  ErrMsg ("the " +:+ what +:+ " controller is not running in this process").
Definition no_subnet (t : string) : gerror :=
  ErrMsg ("tenant " +:+ t +:+ " has no VIP subnet in its binding").

(** [template] says whether the process runs that controller. *)
Definition serviceFor (template : bool) (namespace : string) : T Reconciler :=
  '(t, b) ← binding namespace;
  if template then
    s ← own_get;
    match services s !! t with
    | Some r => mret r
    | None =>
        _ ← lift_result (new_client "load-balancer" (b_Session b));
        _ ← lift_result (new_client "network" (b_Session b));
        _ ← lift_result (new_client "container" (b_Session b));
        if decide (b_VIPSubnetID b = "") then fail (no_subnet t)
        else
          let r := mkReconciler t (b_Session b) (servesTenant t) (b_VIPSubnetID b) (b_VIPNetworkID b) in
          own_modify (set_services <[t := r]>) ≫= λ _, mret r
    end
  else fail (not_running "service").

Definition volumeFor (template : bool) (namespace : string) : T Reconciler :=
  '(t, b) ← binding namespace;
  if template then
    s ← own_get;
    match volumes s !! t with
    | Some r => mret r
    | None =>
        _ ← lift_result (new_client "container" (b_Session b));
        let r := mkReconciler t (b_Session b) (servesTenant t) "" "" in
        own_modify (set_volumes <[t := r]>) ≫= λ _, mret r
    end
  else fail (not_running "volume").

Definition ingressFor (template : bool) (namespace : string) : T Reconciler :=
  '(t, b) ← binding namespace;
  if template then
    s ← own_get;
    match ingresses s !! t with
    | Some r => mret r
    | None =>
        _ ← lift_result (new_client "load-balancer" (b_Session b));
        _ ← lift_result (new_client "network" (b_Session b));
        _ ← lift_result (new_client "container" (b_Session b));
        if decide (b_VIPSubnetID b = "") then fail (no_subnet t)
        else
          let r := mkReconciler t (b_Session b) (servesTenant t) (b_VIPSubnetID b) "" in
          own_modify (set_ingresses <[t := r]>) ≫= λ _, mret r
    end
  else fail (not_running "ingress").

Definition netpolFor (template : bool) (namespace : string) : T Reconciler :=
  '(t, b) ← binding namespace;
  if template then
    s ← own_get;
    match netpols s !! t with
    | Some r => mret r
    | None =>
        _ ← lift_result (new_client "network" (b_Session b));
        let r := mkReconciler "" (b_Session b) (servesTenant t) "" "" in
        own_modify (set_netpols <[t := r]>) ≫= λ _, mret r
    end
  else fail (not_running "netpol").

Definition eachTenant (tenants : list string) (namespacesOf : string → list string)
    (forNS : string → T Reconciler) (fn : Reconciler → T ()) : T () :=
  for_each tenants (λ t,
    match namespacesOf t with
    | [] => mret ()
    | ns :: _ =>
        r ← try (forNS ns);
        match r with Err _ => mret () | Ok r => fn r end
    end).
End resolver.

(** ** What Kubernetes and Keystone document *)
Definition patched (name : string) (annotations : gmap string string) (s : gmap string Secret)
    : gmap string Secret :=
  alter (λ x, mkSecret (sec_Name x) (annotations ∪ sec_Annotations x) (sec_Data x)) name s.

Class SecretsLaws {W} (api : SecretsAPI W) (view : W → gmap string Secret) := {
  law_secret_Get s name :
    runs view s (secret_Get name) (λ x s', s' = s ∧ s !! name = Some x ∧ sec_Name x = name)
      (λ e s', s' = s ∧ (root_cause e = ErrK8sNotFound → s !! name = None));
  law_secret_Patch s name annotations :
    runs view s (secret_Patch name annotations) (λ _ s', s' = patched name annotations s)
      (λ _ s', s' = s ∨ s' = patched name annotations s);
  law_authenticate s o :
    runs view s (authenticate o) (λ _ s', s' = s) (λ _ s', s' = s);
}.

(** ** Lemmas: the binding check *)
Section facts.
Context {W : Type} {api : SecretsAPI W} (view : W → gmap string Secret) `{!SecretsLaws api view}.
Variable TenantOf : string → option string.
Variable SecretName : option (string → string).
Variable order : list string.

(** The recorded binding and the session do not disagree. *)
Definition agrees_on (sec : Secret) (client : Session) (k : string) : Prop :=
  value (sec_Annotations sec) k = "" ∨ found client k = "" ∨
  value (sec_Annotations sec) k = found client k.
Definition agrees (sec : Secret) (client : Session) : Prop :=
  ∀ k, k ∈ order → agrees_on sec client k.

(** A recorded binding is never overwritten, and nothing but it is written. *)
Definition kept (s s' : gmap string Secret) : Prop :=
  ∀ name, match s !! name with
  | None => s' !! name = None
  | Some sec => ∃ sec', s' !! name = Some sec' ∧ sec_Data sec' = sec_Data sec ∧
      (∀ k, value (sec_Annotations sec) k ≠ "" → sec_Annotations sec' !! k = sec_Annotations sec !! k) ∧
      (∀ k, k ∉ order → sec_Annotations sec' !! k = sec_Annotations sec !! k)
  end.

Lemma kept_refl s : kept s s.
Proof. intros name. destruct (s !! name) as [sec|]; [by exists sec|done]. Qed.

(** What a session handed out for a tenant was made of. *)
Definition but_refused (r r' : State) : Prop :=
  built r' = built r ∧ apis r' = apis r ∧ services r' = services r ∧ volumes r' = volumes r ∧
  ingresses r' = ingresses r ∧ netpols r' = netpols r.

Lemma compare_runs r s t sec client :
  runs (beside view) (r, s) (fold_each (compare_step t sec client) [] order)
    (λ missing rs, rs = (r, s) ∧ missing = filter (λ k, value (sec_Annotations sec) k = "") order ∧
       agrees sec client)
    (λ _ rs, but_refused r rs.1 ∧ rs.2 = s ∧ ¬ agrees sec client).
Proof.
  eapply runs_conseq; [apply (runs_fold_each _ (λ pre missing rs, rs = (r, s) ∧
    missing = filter (λ k, value (sec_Annotations sec) k = "") pre ∧
    ∀ k, k ∈ pre → agrees_on sec client k) order _
    (λ _ rs, but_refused r rs.1 ∧ rs.2 = s ∧ ¬ agrees sec client))| |done].
  - split; [done|]. split; [done|]. by intros k ?%elem_of_nil.
  - intros pre k post missing rs Hsplit (-> & -> & Hpre). unfold compare_step. cbv zeta.
    rewrite filter_app, filter_cons.
    assert (∀ Q : Prop, agrees_on sec client k → Q → ∀ k', k' ∈ pre ++ [k] → agrees_on sec client k')
      as Hk by (intros Q Hk _ k' [H| ->%list_elem_of_singleton]%elem_of_app; [by apply Hpre|done]).
    destruct (decide (value (sec_Annotations sec) k = "")) as [He|He].
    { apply runs_ret. split; [done|]. split; [done|]. apply (Hk True); [by left|done]. }
    rewrite filter_nil, app_nil_r.
    destruct (decide (found client k = "")) as [Hf|Hf].
    { apply runs_ret. split; [done|]. split; [done|]. apply (Hk True); [by right; left|done]. }
    destruct (decide (value (sec_Annotations sec) k ≠ found client k)) as [Hne|Heq].
    + unfold reportRefusal. apply own_modify_step. apply runs_fail. split; [done|]. split; [done|].
      intros Hag. destruct (Hag k) as [?|[?|?]]; [rewrite Hsplit; set_solver|done|done|done].
    + apply dec_stable in Heq. apply runs_ret. split; [done|]. split; [done|].
      apply (Hk True); [by right; right|done].
  - cbv beta. intros missing rs (-> & -> & H). done.
Qed.

Lemma kept_patched s sec annotations :
  s !! sec_Name sec = Some sec →
  (∀ k, is_Some (annotations !! k) → k ∈ order ∧ value (sec_Annotations sec) k = "") →
  kept s (patched (sec_Name sec) annotations s).
Proof.
  intros Hs Ha name. unfold patched. destruct (decide (sec_Name sec = name)) as [<-|Hne].
  - rewrite Hs, lookup_alter_eq, Hs. simpl. eexists. split; [done|]. simpl. split; [done|].
    assert (∀ k, annotations !! k = None →
      (annotations ∪ sec_Annotations sec) !! k = sec_Annotations sec !! k) as Hu
      by (intros k Hk; by rewrite lookup_union, Hk, (left_id_L None (∪))).
    split; intros k Hk; apply Hu; apply eq_None_not_Some; intros Hsome;
      destruct (Ha k Hsome); done.
  - rewrite lookup_alter_ne by done. destruct (s !! name) as [x|]; [by exists x|done].
Qed.

Lemma checkBinding_runs r s t sec client :
  s !! sec_Name sec = Some sec →
  runs (beside view) (r, s) (checkBinding order t sec client)
    (λ _ rs, rs.1 = r ∧ agrees sec client ∧ kept s rs.2)
    (λ _ rs, but_refused r rs.1 ∧ rs.2 = s ∧ ¬ agrees sec client).
Proof.
  intros Hs. unfold checkBinding.
  eapply runs_bind; [apply compare_runs|done|]; cbv beta.
  intros missing rs (-> & -> & Hag).
  destruct (decide (filter _ order = [])) as [|Hne].
  { apply runs_ret. split; [done|]. split; [done|apply kept_refl]. }
  unfold record. destruct (decide (_ = ∅)).
  { apply runs_ret. split; [done|]. split; [done|apply kept_refl]. }
  eapply (on_service_step _ _ _ _ _ (λ _ s', kept s s') (λ _ _, False)); [|done|].
  - apply runs_try. set (ann := list_to_map _).
    assert (kept s (patched (sec_Name sec) ann s)) as Hk.
    { apply kept_patched; [done|]. intros k [v Hv]. unfold ann in Hv.
      apply elem_of_list_to_map_2 in Hv. apply list_elem_of_fmap in Hv as (k' & [= -> ->] & Hin).
      apply list_elem_of_filter in Hin as [_ [Hin Hk]%list_elem_of_filter]. done. }
    eapply runs_conseq; [apply law_secret_Patch| |]; cbv beta.
    + by intros _ s' ->.
    + intros e s' [->| ->]; [apply kept_refl|done].
  - intros res s' Hk. by apply runs_ret.
Qed.

(** Made of a credential: the session is what that secret's material
    authenticates as, and does not disagree with what is recorded there. *)
Definition made_of (sec : Secret) (b : Binding) : Prop :=
  provider (b_Session b) = auth_options (credentialsFrom sec) ∧
  Region (b_Session b) = value (sec_Data sec) "OS_REGION_NAME" ∧
  agrees sec (b_Session b) ∧
  b_NetworkID b = value (sec_Annotations sec) NetworkIDAnnotation ∧
  b_VIPSubnetID b = value (sec_Annotations sec) VIPSubnetIDAnnotation ∧
  b_VIPNetworkID b = value (sec_Annotations sec) VIPNetworkIDAnnotation.

Lemma NewSession_runs s c :
  runs view s (NewSession authenticate c)
    (λ x s', s' = s ∧ provider x = auth_options c ∧ Region x = cr_Region c) (λ _ s', s' = s).
Proof.
  unfold NewSession. eapply runs_bind_wrap; [apply law_authenticate|done|]; cbv beta.
  intros a s' ->. eapply (runs_bind _ _ _ _ (λ _ s', s' = s) _ (λ _ s', s' = s)); [|done|].
  - apply runs_lift. by destruct (projectOf a).
  - intros p s' ->. by apply runs_ret.
Qed.

Lemma connect_runs r s t :
  runs (beside view) (r, s) (connect SecretName order t)
    (λ b rs, rs.1 = r ∧ kept s rs.2 ∧
       ∃ sec, s !! secretName SecretName t = Some sec ∧ made_of sec b)
    (λ _ rs, but_refused r rs.1 ∧ rs.2 = s).
Proof.
  unfold connect. cbv zeta.
  eapply (on_service_step _ _ _ _ _ (λ res s', s' = s ∧ match res with
    | Ok x => s !! secretName SecretName t = Some x ∧ sec_Name x = secretName SecretName t
    | Err _ => True end) (λ _ _, False)); [|done|].
  { apply runs_try. eapply runs_conseq; [apply law_secret_Get| |]; cbv beta; naive_solver. }
  intros [sec|e] s' [-> Hsec].
  2:{ destruct (decide _); by apply runs_fail. }
  destruct Hsec as [Hsec Hname].
  eapply runs_bind_wrap.
  { eapply (on_service_last _ _ _ _ _ _ (λ x rs, rs = (r, s) ∧
      provider x = auth_options (credentialsFrom sec) ∧
      Region x = cr_Region (credentialsFrom sec)) (λ _ rs, rs = (r, s)));
      [apply NewSession_runs| |]; cbv beta.
    - by intros x s' (-> & ? & ?).
    - by intros e s' ->. }
  { by intros e rs ->. }
  intros client rs (-> & Hp & Hr).
  eapply runs_bind; [apply checkBinding_runs; by rewrite Hname| |]; cbv beta.
  { by intros e rs (? & ? & _). }
  intros _ [r' s'] (Hr' & Hag & Hk). simpl in *. subst r'. apply runs_ret. split; [done|].
  split; [done|]. exists sec. done.
Qed.

Lemma BindingFor_runs r s ns :
  runs (beside view) (r, s) (BindingFor TenantOf SecretName order ns)
    (λ b rs, ∃ t, TenantOf ns = Some t ∧ t ≠ "" ∧ built rs.1 !! t = Some b ∧ kept s rs.2 ∧
       ((built r !! t = Some b ∧ rs = (r, s)) ∨
        (built r !! t = None ∧ rs.1 = set_built <[t := b]> r ∧
           ∃ sec, s !! secretName SecretName t = Some sec ∧ made_of sec b)))
    (λ _ rs, but_refused r rs.1 ∧ rs.2 = s ∧
       ((TenantOf ns = None ∨ TenantOf ns = Some "") → rs = (r, s))).
Proof.
  unfold BindingFor. destruct (TenantOf ns) as [t|] eqn:Ht; [|by apply runs_fail].
  destruct (decide (t = "")) as [->|Hne]; [by apply runs_fail|].
  apply own_get_step. destruct (built r !! t) as [b|] eqn:Hb.
  { apply runs_ret. exists t. split; [done|]. split; [done|]. split; [done|].
    split; [apply kept_refl|by left]. }
  eapply runs_bind; [apply (connect_runs r s t)| |]; cbv beta.
  { intros e rs [H1 H2]. split; [done|]. split; [done|]. naive_solver. }
  intros b [r' s'] (Hr & Hk & Hsec). simpl in *. subst r'.
  apply own_get_step. rewrite Hb. apply own_modify_step, runs_ret. exists t.
  split; [done|]. split; [done|]. split; [by simpl; rewrite lookup_insert_eq|].
  split; [done|]. right. done.
Qed.
End facts.

(** ** Lemmas: what is kept per tenant *)
Section kept_per_tenant.
Context {W : Type} {api : SecretsAPI W} (view : W → gmap string Secret) `{!SecretsLaws api view}.
Variable TenantOf : string → option string.
Variable SecretName : option (string → string).
Variable order : list string.

(** The session of a tenant: what the material of its own secret authenticates as. *)
Definition own_session (s : gmap string Secret) (t : string) (x : Session) : Prop :=
  ∃ sec, s !! secretName SecretName t = Some sec ∧
    provider x = auth_options (credentialsFrom sec).

(** A reconciler that acts for one tenant and in its namespaces only. *)
Definition bounded (s : gmap string Secret) (t : string) (x : Reconciler) : Prop :=
  r_Serves x = servesTenant TenantOf t ∧ own_session s t (r_Session x).

Definition inv (r : State) (s : gmap string Secret) : Prop :=
  (∀ t b, built r !! t = Some b → own_session s t (b_Session b)) ∧
  (∀ p a, apis r !! p = Some a → Project a = p ∧ ∃ t b, built r !! t = Some b ∧ b_Session b = a) ∧
  (∀ t x, services r !! t = Some x → bounded s t x ∧ r_Tenant x = t ∧ r_VIPSubnetID x ≠ "") ∧
  (∀ t x, volumes r !! t = Some x → bounded s t x ∧ r_Tenant x = t) ∧
  (∀ t x, ingresses r !! t = Some x → bounded s t x ∧ r_Tenant x = t ∧ r_VIPSubnetID x ≠ "") ∧
  (∀ t x, netpols r !! t = Some x → bounded s t x).

Lemma own_session_kept s s' t x : kept order s s' → own_session s t x → own_session s' t x.
Proof.
  intros Hk (sec & Hs & Hp). specialize (Hk (secretName SecretName t)). rewrite Hs in Hk.
  destruct Hk as (sec' & Hs' & Hd & _). exists sec'. split; [done|]. rewrite Hp.
  unfold credentialsFrom. by rewrite Hd.
Qed.

Lemma inv_kept r r' s s' :
  inv r s → kept order s s' → but_refused r r' → inv r' s'.
Proof.
  intros (H1 & H2 & H3 & H4 & H5 & H6) Hk (E1 & E2 & E3 & E4 & E5 & E6).
  assert (∀ t x, bounded s t x → bounded s' t x) as Hb
    by (intros t x [? ?]; split; [done|by eapply own_session_kept]).
  unfold inv. rewrite E1, E2, E3, E4, E5, E6.
  split; [intros t b Ht; eapply own_session_kept; [done|by apply H1]|].
  split; [done|]. split; [intros t x Hx; destruct (H3 t x Hx); auto|].
  split; [intros t x Hx; destruct (H4 t x Hx); auto|].
  split; [intros t x Hx; destruct (H5 t x Hx); auto|]. intros t x Hx. auto.
Qed.

Lemma inv_built r s t b :
  inv r s → built r !! t = None → own_session s t (b_Session b) → inv (set_built <[t := b]> r) s.
Proof.
  intros (H1 & H2 & H) Hn Hs. split; [|split; [|done]]; simpl.
  - intros t' b'. rewrite lookup_insert_Some. intros [[<- <-]|[_ ?]]; [done|by apply H1].
  - intros p a Ha. destruct (H2 p a Ha) as (Hp & t' & b' & Hb & Hsess). split; [done|].
    exists t', b'. rewrite lookup_insert_ne; [done|]. intros ->. congruence.
Qed.

(** Every answer starts with the tenant's binding. *)
Lemma BindingFor_inv r s ns :
  inv r s →
  runs (beside view) (r, s) (BindingFor TenantOf SecretName order ns)
    (λ b rs, inv rs.1 rs.2 ∧ ∃ t, TenantOf ns = Some t ∧ t ≠ "" ∧ built rs.1 !! t = Some b)
    (λ _ rs, inv rs.1 rs.2).
Proof.
  intros Hi. eapply runs_conseq; [apply (BindingFor_runs view TenantOf SecretName order r s ns)| |]; cbv beta.
  - intros b [r' s'] (t & Ht & Hne & Hb & Hk & H). simpl in *. split; [|by exists t].
    destruct H as [[_ [= -> ->]]|(Hn & -> & sec & Hsec & Hp & _)]; [done|].
    assert (inv r s') as Hi' by (by eapply inv_kept).
    apply inv_built; [done|done|]. eapply own_session_kept; [done|]. by exists sec.
  - intros e [r' s'] (Hb & Hs & _). simpl in *. subst s'. eapply inv_kept; [done|apply kept_refl|done].
Qed.

Lemma binding_inv r s ns :
  inv r s →
  runs (beside view) (r, s) (binding TenantOf SecretName order ns)
    (λ tb rs, inv rs.1 rs.2 ∧ TenantOf ns = Some tb.1 ∧ tb.1 ≠ "" ∧ own_session rs.2 tb.1 (b_Session tb.2))
    (λ _ rs, inv rs.1 rs.2).
Proof.
  intros Hi. unfold binding. destruct (TenantOf ns) as [t|] eqn:Ht; [|by apply runs_fail].
  destruct (decide (t = "")) as [->|Hne]; [by apply runs_fail|].
  eapply runs_bind; [by apply BindingFor_inv|done|]; cbv beta.
  intros b [r' s'] (Hi' & t' & Ht' & _ & Hb). simpl in *. assert (t' = t) as -> by congruence.
  apply runs_ret. simpl. split; [done|]. split; [done|]. split; [done|].
  destruct Hi' as [Hown _]. by apply Hown.
Qed.

Lemma lift_step {A B} (x : result A) (f : A → M (State * W) B) rs (Q : B → State * gmap string Secret → Prop) E :
  (∀ a, runs (beside view) rs (f a) Q E) → (∀ e, E e rs) →
  runs (beside view) rs (lift_result x ≫= f) Q E.
Proof.
  intros HQ HE w Hw. unfold lift_result, mbind, M_bind. destruct x as [a|e].
  - by apply HQ.
  - rewrite Hw. apply HE.
Qed.

(** The requests that reach a tenant's reconcilers. *)
Inductive Request : Type := ForService | ForVolume | ForIngress | ForNetpol.

Definition answer (template : bool) (q : Request) (ns : string) : M (State * W) Reconciler :=
  match q with
  | ForService => serviceFor TenantOf SecretName order template ns
  | ForVolume => volumeFor TenantOf SecretName order template ns
  | ForIngress => ingressFor TenantOf SecretName order template ns
  | ForNetpol => netpolFor TenantOf SecretName order template ns
  end.

Definition needs_subnet (q : Request) : bool :=
  match q with ForService | ForIngress => true | _ => false end.

Ltac keep_others :=
  refine (conj _ (conj _ (conj _ (conj _ (conj _ _))))); simpl; try assumption.

Lemma answer_inv template q r s ns :
  inv r s →
  runs (beside view) (r, s) (answer template q ns)
    (λ x rs, inv rs.1 rs.2 ∧ ∃ t, TenantOf ns = Some t ∧ t ≠ "" ∧ bounded rs.2 t x ∧
       (needs_subnet q = true → r_VIPSubnetID x ≠ ""))
    (λ _ rs, inv rs.1 rs.2).
Proof.
  intros Hi. destruct q; simpl;
    (eapply runs_bind; [by apply binding_inv|done|]; cbv beta;
     intros [t b] [r' s'] (Hi' & Ht & Hne & Hown); simpl in Hi', Ht, Hne, Hown;
     destruct template; [|by apply runs_fail]; apply own_get_step;
     pose proof Hi' as (H1 & H2 & H3 & H4 & H5 & H6)).
  - destruct (services r' !! t) as [x|] eqn:Hx.
    { apply runs_ret. split; [done|]. exists t. destruct (H3 t x Hx) as (? & _ & ?). done. }
    do 3 (apply lift_step; [intros _|done]).
    destruct (decide (b_VIPSubnetID b = "")); [by apply runs_fail|].
    apply own_modify_step, runs_ret. simpl. split; [|by exists t].
    keep_others. intros t' x'. rewrite lookup_insert_Some.
    intros [[<- <-]|[_ ?]]; [by repeat split|by apply H3].
  - destruct (volumes r' !! t) as [x|] eqn:Hx.
    { apply runs_ret. split; [done|]. exists t. destruct (H4 t x Hx). done. }
    apply lift_step; [intros _|done].
    apply own_modify_step, runs_ret. simpl. split; [|by exists t].
    keep_others. intros t' x'. rewrite lookup_insert_Some.
    intros [[<- <-]|[_ ?]]; [by repeat split|by apply H4].
  - destruct (ingresses r' !! t) as [x|] eqn:Hx.
    { apply runs_ret. split; [done|]. exists t. destruct (H5 t x Hx) as (? & _ & ?). done. }
    do 3 (apply lift_step; [intros _|done]).
    destruct (decide (b_VIPSubnetID b = "")); [by apply runs_fail|].
    apply own_modify_step, runs_ret. simpl. split; [|by exists t].
    keep_others. intros t' x'. rewrite lookup_insert_Some.
    intros [[<- <-]|[_ ?]]; [by repeat split|by apply H5].
  - destruct (netpols r' !! t) as [x|] eqn:Hx.
    { apply runs_ret. split; [done|]. exists t. specialize (H6 t x Hx). done. }
    apply lift_step; [intros _|done].
    apply own_modify_step, runs_ret. simpl. split; [|by exists t].
    keep_others. intros t' x'. rewrite lookup_insert_Some.
    intros [[<- <-]|[_ ?]]; [by repeat split|by apply H6].
Qed.

(** The capsule API of a namespace authenticates in its tenant's project. *)
Lemma Capsules_For_inv r s ns :
  inv r s →
  runs (beside view) (r, s) (Capsules_For TenantOf SecretName order ns)
    (λ a rs, inv rs.1 rs.2 ∧ ∃ t b, TenantOf ns = Some t ∧ t ≠ "" ∧ built rs.1 !! t = Some b ∧
       Project a = Project (b_Session b) ∧ ∃ t' b', built rs.1 !! t' = Some b' ∧ b_Session b' = a)
    (λ _ rs, inv rs.1 rs.2).
Proof.
  intros Hi. unfold Capsules_For, For.
  eapply (runs_bind _ _ _ _ (λ x rs, inv rs.1 rs.2 ∧ ∃ t b, TenantOf ns = Some t ∧ t ≠ "" ∧
    built rs.1 !! t = Some b ∧ b_Session b = x) _ (λ _ rs, inv rs.1 rs.2)); [|done|].
  - eapply runs_bind; [by apply BindingFor_inv|done|]; cbv beta.
    intros b rs (Hi' & t & ? & ? & ?). apply runs_ret. split; [done|]. by exists t, b.
  - intros x [r' s'] (Hi' & t & b & Ht & Hne & Hb & Hx). simpl in *. unfold apiFor.
    apply own_get_step. pose proof Hi' as (H1 & H2 & H).
    destruct (apis r' !! Project x) as [a|] eqn:Ha.
    + apply runs_ret. split; [done|]. destruct (H2 _ _ Ha) as [Hp Hb'].
      exists t, b. simpl. rewrite Hx, Hp. done.
    + apply lift_step; [intros _|done]. apply own_modify_step, runs_ret. simpl. split.
      * split; [done|]. split; [|done]. intros p a'. simpl. rewrite lookup_insert_Some.
        intros [[<- <-]|[_ ?]]; [split; [done|by exists t, b]|by apply H2].
      * exists t, b. rewrite Hx. repeat (split; [done|]). by exists t, b.
Qed.
End kept_per_tenant.

Lemma Fresh_inv TenantOf SecretName s : inv TenantOf SecretName Fresh s.
Proof.
  unfold inv. simpl. setoid_rewrite lookup_empty.
  repeat (split; [intros ? ? ?; discriminate|]). intros ? ? ?. discriminate.
Qed.

(** ** Properties *)

(** C37 A namespace's binding is its own tenant's: an answer is the one kept for the
    tenant the namespace is labelled with, or one made from that tenant's own
    credential, whose session does not disagree with the project and region
    recorded on it; whatever happens, a recorded binding is not overwritten, only
    missing halves are filled in, and no credential changes.  A namespace that is
    not served, or names no tenant, gets an error and nothing is asked of anyone. *)
Theorem BindingFor_correct {W} {api : SecretsAPI W} (view : W → gmap string Secret)
    `{!SecretsLaws api view} (TenantOf : string → option string)
    (SecretName : option (string → string)) (order : list string)
    (r : State) (s : gmap string Secret) (ns : string) :
  runs (beside view) (r, s) (BindingFor TenantOf SecretName order ns)
    (λ b rs, ∃ t, TenantOf ns = Some t ∧ t ≠ "" ∧ built rs.1 !! t = Some b ∧ kept order s rs.2 ∧
       ((built r !! t = Some b ∧ rs = (r, s)) ∨
        (built r !! t = None ∧ rs.1 = set_built <[t := b]> r ∧
           ∃ sec, s !! secretName SecretName t = Some sec ∧ made_of order sec b)))
    (λ _ rs, but_refused r rs.1 ∧ rs.2 = s ∧
       ((TenantOf ns = None ∨ TenantOf ns = Some "") → rs = (r, s))).
Proof. apply (BindingFor_runs view). Qed.

(** C3 Tenants are kept apart: from a fresh start and after any requests, with any
    failures among them, a reconciler handed out for a namespace acts in the
    namespaces of that namespace's tenant and no other, on a session made of that
    tenant's own credential, with a VIP subnet wherever load balancers are made. *)
Theorem tenants_isolated {W} {api : SecretsAPI W} (view : W → gmap string Secret)
    `{!SecretsLaws api view} (TenantOf : string → option string)
    (SecretName : option (string → string)) (order : list string) (template : Request → bool)
    (before : list (Request * string)) (q : Request) (ns : string) (s : gmap string Secret) :
  runs (beside view) (Fresh, s)
    (for_each before (λ qn, _ ← try (answer TenantOf SecretName order (template qn.1) qn.1 qn.2);
                            mret ()) ≫= λ _,
     answer TenantOf SecretName order (template q) q ns)
    (λ x rs, ∃ t, TenantOf ns = Some t ∧ t ≠ "" ∧
       (∀ m, r_Serves x m = true ↔ TenantOf m = Some t) ∧
       (∃ sec, rs.2 !! secretName SecretName t = Some sec ∧
          provider (r_Session x) = auth_options (credentialsFrom sec)) ∧
       (needs_subnet q = true → r_VIPSubnetID x ≠ ""))
    (λ _ _, True).
Proof.
  eapply (runs_bind _ _ _ _ (λ _ rs, inv TenantOf SecretName rs.1 rs.2) _ (λ _ _, True)); [|done|].
  - apply (runs_for_each _ (λ _ rs, inv TenantOf SecretName rs.1 rs.2)); [apply Fresh_inv|].
    intros pre [q' ns'] post [r' s'] _ Hi.
    eapply (runs_bind _ _ _ _ (λ _ rs, inv TenantOf SecretName rs.1 rs.2) _ (λ _ _, True)); [|done|].
    + apply runs_try.
      eapply runs_conseq; [by apply (answer_inv view TenantOf SecretName order)| |]; cbv beta;
        [by intros x rs [? _]|done].
    + intros _ rs Hi'. by apply runs_ret.
  - intros _ [r' s'] Hi.
    eapply runs_conseq; [by apply (answer_inv view TenantOf SecretName order)| |done]; cbv beta.
    intros x rs (_ & t & Ht & Hne & [Hserves Hown] & Hv). exists t.
    split; [done|]. split; [done|]. split; [|done].
    intros m. rewrite Hserves. unfold servesTenant. by rewrite bool_decide_eq_true.
Qed.

(** ** What modelling showed *)

(** The capsule APIs are kept by project, and a project that could not be
    determined is the empty one: two tenants whose credentials do not report a
    project share the API of whichever came first. *)
Theorem apiFor_shared_without_project {W} {api : SecretsAPI W} (first second : Session)
    (r : State) (w : W) :
  Project first = "" → Project second = "" → apis r = ∅ → new_client "container" first = Ok () →
  (_ ← apiFor first; apiFor second) (r, w) =
    (Ok first, (set_apis <["" := first]> r, w)).
Proof.
  intros H1 H2 Hr Hc. unfold apiFor, mbind, M_bind, own_get, own_modify, lift_result, mret, M_ret. simpl.
  rewrite Hr, lookup_empty, Hc. simpl. rewrite H1, H2, Hr. by rewrite lookup_insert_eq.
Qed.

(** The same for two regions of one project: the second tenant is sent to the
    first one's region. *)
Theorem apiFor_shared_across_regions {W} {api : SecretsAPI W} (first second : Session)
    (r : State) (w : W) :
  Project second = Project first → Region second ≠ Region first → apis r = ∅ →
  new_client "container" first = Ok () →
  ∃ a r', (_ ← apiFor first; apiFor second) (r, w) = (Ok a, (r', w)) ∧ Region a ≠ Region second.
Proof.
  intros Hp Hreg Hr Hc.
  unfold apiFor, mbind, M_bind, own_get, own_modify, lift_result, mret, M_ret. simpl.
  rewrite Hr, lookup_empty, Hc. simpl. rewrite Hp, Hr, lookup_insert_eq.
  eexists first, _. split; [reflexivity|]. by intros ?.
Qed.

(** A binding read before its VIP subnet was annotated is kept: no retry ever
    sees the annotation. *)
Theorem serviceFor_never_sees_the_subnet {W} {api : SecretsAPI W} TenantOf SecretName order
    (t ns : string) (b : Binding) (r : State) (w : W) :
  TenantOf ns = Some t → t ≠ "" → built r !! t = Some b → b_VIPSubnetID b = "" →
  services r !! t = None → (∀ svc, new_client svc (b_Session b) = Ok ()) →
  serviceFor TenantOf SecretName order true ns (r, w) = (Err (no_subnet t), (r, w)).
Proof.
  intros Ht Hne Hb Hv Hs Hc.
  assert (binding TenantOf SecretName order ns (r, w) = (Ok (t, b), (r, w))) as Hbind.
  { unfold binding, BindingFor. rewrite Ht. destruct (decide (t = "")) as [|_]; [done|].
    unfold mbind, M_bind, own_get. destruct (decide (t = "")) as [|_]; [done|]. simpl. by rewrite Hb. }
  unfold serviceFor. unfold mbind, M_bind. rewrite Hbind. unfold own_get, lift_result.
  cbn -[decide]. rewrite Hs. cbn -[decide]. rewrite !Hc. by destruct (decide (b_VIPSubnetID b = "")).
Qed.

(** ** Witnesses *)
Definition RefSecrets : SecretsAPI (gmap string Secret) := {|
  secret_Get name w := (match w !! name with
    | Some x => Ok (mkSecret name (sec_Annotations x) (sec_Data x))
    | None => Err ErrK8sNotFound end, w);
  secret_Patch name annotations w := (Ok (), patched name annotations w);
  authenticate o w := (Ok (TokenV3 (Ok (Some (ao_CredentialID o)))), w);
  new_client _ _ := Ok () |}.

Definition secrets_view (w : gmap string Secret) : gmap string Secret :=
  map_imap (λ name x, Some (mkSecret name (sec_Annotations x) (sec_Data x))) w.

Lemma RefSecrets_laws : SecretsLaws RefSecrets secrets_view.
Proof.
  split.
  - intros s name w <-. simpl. unfold secrets_view. rewrite map_lookup_imap.
    destruct (w !! name) as [x|]; simpl; done.
  - intros s name annotations w <-. simpl. unfold secrets_view, patched. apply map_eq. intros k.
    rewrite map_lookup_imap. destruct (decide (name = k)) as [->|Hne].
    + rewrite !lookup_alter_eq, map_lookup_imap. by destruct (w !! k).
    + by rewrite !lookup_alter_ne, map_lookup_imap by done.
  - by intros s o w <-.
Qed.

Definition ex_secrets : gmap string Secret :=
  {["t1" := mkSecret "t1" {[VIPSubnetIDAnnotation := "sub-1"; NetworkIDAnnotation := "net-1"]}
              {["OS_APPLICATION_CREDENTIAL_ID" := "p1"; "OS_REGION_NAME" := "R1"]};
    "t2" := mkSecret "t2" {[VIPSubnetIDAnnotation := "sub-2"; ProjectAnnotation := "other"]}
              {["OS_APPLICATION_CREDENTIAL_ID" := "p2"; "OS_REGION_NAME" := "R1"]}]}.
Definition ex_tenants (ns : string) : option string :=
  if decide (ns = "prod") then Some "t1" else if decide (ns = "dev") then Some "t2" else None.
Definition ex_order : list string := [ProjectAnnotation; RegionAnnotation].

Definition ex_binding : result Binding * (State * gmap string Secret) :=
  @BindingFor _ RefSecrets ex_tenants None ex_order "prod" (Fresh, ex_secrets).

(** The first bind is written down; the other tenant's, which disagrees, is refused. *)
Lemma BindingFor_correct_witness :
  (∃ b, ex_binding.1 = Ok b ∧ Project (b_Session b) = "p1" ∧
     built ex_binding.2.1 !! "t1" = Some b) ∧
  is_ok (@BindingFor _ RefSecrets ex_tenants None ex_order "dev" (Fresh, ex_secrets)).1 = false.
Proof.
  split; [|vm_compute; reflexivity].
  pose proof (@BindingFor_correct _ RefSecrets secrets_view RefSecrets_laws ex_tenants None ex_order
    Fresh (secrets_view ex_secrets) "prod" (Fresh, ex_secrets) eq_refl) as H.
  fold ex_binding in H.
  assert ((λ b, Project (b_Session b)) <$> ex_binding.1 = Ok "p1") as Hp by (vm_compute; reflexivity).
  destruct ex_binding as [[b|e] [r s]]; [|discriminate Hp]. exists b. split; [reflexivity|].
  split; [by injection Hp|]. destruct H as (t & Ht & _ & Hb & _).
  assert (Some t = Some "t1") as Ht' by (rewrite <-Ht; reflexivity). injection Ht' as ->. exact Hb.
Defined.

Definition every_template (q : Request) : bool := true.
Definition ex_requests : result Reconciler * (State * gmap string Secret) :=
  (for_each [(ForService, "dev"); (ForVolume, "prod")]
     (λ qn, _ ← try (@answer _ RefSecrets ex_tenants None ex_order (every_template qn.1)
                  qn.1 qn.2); mret ()) ≫= λ _,
   @answer _ RefSecrets ex_tenants None ex_order (every_template ForService) ForService "prod") (Fresh, ex_secrets).

Lemma tenants_isolated_witness : ∃ x,
  ex_requests.1 = Ok x ∧ r_VIPSubnetID x ≠ "" ∧ (∀ m, r_Serves x m = true ↔ ex_tenants m = Some "t1").
Proof.
  pose proof (@tenants_isolated _ RefSecrets secrets_view RefSecrets_laws ex_tenants None ex_order
    every_template [(ForService, "dev"); (ForVolume, "prod")] ForService "prod" (secrets_view ex_secrets)
    (Fresh, ex_secrets) eq_refl) as H.
  fold ex_requests in H.
  assert (is_ok ex_requests.1 = true) as Hok by (vm_compute; reflexivity).
  revert Hok H. generalize ex_requests. intros [[x|e] [r s]] Hok H; [|discriminate Hok]. exists x. split; [reflexivity|].
  destruct H as (t & Ht & _ & Hs & _ & Hv). split; [exact (Hv eq_refl)|].
  assert (Some t = Some "t1") as Ht' by (rewrite <-Ht; reflexivity). injection Ht' as ->. exact Hs.
Defined.
