(* ===== verification/LoadBalancing.v ===== *)
(** * Octavia, Neutron's floating IPs and the Service API, as pkg/service and
    pkg/ingress use them

    The objects those packages read and write, the calls they make, one class
    per service, and the documented behaviour of the calls over what can be
    observed: [LBState].  [RefOctavia], [RefFloating] and [RefServices] are
    concrete services the laws hold for. *)

From S2P Require Import Prelude GoStd K8s.
From Stdlib Require Import Ascii.

Local Open Scope string_scope.
Local Open Scope list_scope.

(** ** Objects (gophercloud)

    A row is what a service stores under an id. *)
Record LBRow := mkLBRow {
  lr_Name : string; lr_Description : string; lr_VipSubnetID : string; lr_Provider : string;
  lr_VipAddress : string; lr_VipPortID : string }.
Record LoadBalancer := mkLB {
  lb_ID : string; lb_ProvisioningStatus : string; lb_row : LBRow }.

Record ListenerRow := mkListenerRow {
  lsr_Name : string; lsr_Protocol : string; lsr_ProtocolPort : Z;
  lsr_Loadbalancers : list string }.
(** What is live on a listener beside what it listens on: certificates, the pool
    nothing else claims a request for, the source whitelist, the timeouts. *)
Record ListenerSettings := mkSettings {
  lx_DefaultTlsContainerRef : string; lx_SniContainerRefs : list string;
  lx_DefaultPoolID : string; lx_AllowedCIDRs : list string;
  lx_TimeoutClientData : Z; lx_TimeoutMemberData : Z;
  lx_TimeoutMemberConnect : Z; lx_TimeoutTCPInspect : Z }.
Record Listener := mkListener {
  ls_ID : string; ls_row : ListenerRow; ls_settings : ListenerSettings }.

Record PoolRow := mkPoolRow {
  plr_Name : string; plr_Protocol : string; plr_LBMethod : string;
  plr_Listeners : list string; plr_Loadbalancers : list string; plr_MonitorID : string }.
Record Pool := mkPool { pl_ID : string; pl_row : PoolRow }.

Record Member := mkMember {
  mb_Address : string; mb_ProtocolPort : Z; mb_SubnetID : string; mb_Name : string }.

Record L7Rule := mkL7Rule { l7_RuleType : string; l7_CompareType : string; l7_Value : string }.
#[export] Instance L7Rule_eq_dec : EqDecision L7Rule.
Proof. solve_decision. Defined.
Record L7PolicyRow := mkL7Row {
  lp_Name : string; lp_Action : string; lp_RedirectPoolID : string; lp_rules : list L7Rule }.
Record L7Policy := mkL7Policy {
  l7_ID : string; l7_Name : string; l7_Action : string; l7_RedirectPoolID : string;
  l7_Position : Z }.

Record FIPRow := mkFIPRow {
  fr_FloatingIP : string; fr_FloatingNetworkID : string; fr_PortID : string;
  fr_Description : string }.
Record FloatingIP := mkFIP { fip_ID : string; fip_row : FIPRow }.

(** *** What is asked for *)
Record LBCreateOpts := mkLBOpts {
  lo_Name : string; lo_Description : string; lo_VipSubnetID : string; lo_Provider : string }.
(** The optional part of a listener: a timeout that is not given is the
    provider's business. *)
Record ListenerOptions := mkListenerOptions {
  lpo_DefaultTlsContainerRef : string; lpo_SniContainerRefs : list string;
  lpo_DefaultPoolID : string; lpo_AllowedCIDRs : list string;
  lpo_TimeoutClientData : option Z; lpo_TimeoutMemberData : option Z;
  lpo_TimeoutMemberConnect : option Z; lpo_TimeoutTCPInspect : option Z }.
Definition no_options : ListenerOptions := mkListenerOptions "" [] "" [] None None None None.
Record ListenerCreateOpts := mkListenerOpts {
  lso_Name : string; lso_Protocol : string; lso_ProtocolPort : Z; lso_LoadbalancerID : string;
  lso_options : ListenerOptions }.
(** Each field is written when it is given. *)
Record ListenerUpdateOpts := mkListenerUpdate {
  lu_DefaultTlsContainerRef : option string; lu_DefaultPoolID : option string;
  lu_AllowedCIDRs : option (list string);
  lu_TimeoutClientData : option Z; lu_TimeoutMemberData : option Z;
  lu_TimeoutMemberConnect : option Z; lu_TimeoutTCPInspect : option Z }.
(** A pool is made for a listener or for a load balancer. *)
Record PoolCreateOpts := mkPoolOpts {
  plo_Name : string; plo_Protocol : string; plo_LBMethod : string; plo_ListenerID : string;
  plo_LoadbalancerID : string }.
Record MonitorCreateOpts := mkMonitorOpts {
  mno_Name : string; mno_PoolID : string; mno_Type : string; mno_URLPath : string;
  mno_Delay : Z; mno_Timeout : Z; mno_MaxRetries : Z; mno_MaxRetriesDown : Z }.
Record L7CreateOpts := mkL7Opts {
  l7o_Name : string; l7o_ListenerID : string; l7o_Action : string; l7o_RedirectPoolID : string;
  l7o_Position : Z }.
Record MemberOpts := mkMemberOpts {
  mo_Address : string; mo_ProtocolPort : Z; mo_Name : option string; mo_SubnetID : option string }.
Record FIPCreateOpts := mkFIPOpts {
  fo_FloatingNetworkID : string; fo_PortID : string; fo_Description : string }.

Record FIPUpdateOpts := mkFIPUpdate {
  fu_Description : option string; fu_PortID : option string }.

(** A secret of the key manager, and the last part of the reference it is
    known by. *)
Record SecretRow := mkSecretRow { scr_Name : string; scr_Payload : string }.
Record Secret := mkSecret { sc_Name : string; sc_SecretRef : string }.
Fixpoint ref_id (ref : string) : string :=
  match ref with
  | "" => ""
  | String c rest =>
      if contains rest "/" then ref_id rest
      else if bool_decide (c = "/"%char) then rest else ref
  end.

(** ** Services (corev1) *)
Record ServicePort := mkServicePort { sp_Name : string; sp_Protocol : string; sp_Port : Z }.
#[export] Instance ServicePort_eq_dec : EqDecision ServicePort.
Proof. solve_decision. Defined.

Record Service := mkService {
  sv_Namespace : string;
  sv_Name : string;
  sv_ResourceVersion : Z;               (* the revision last written; 0 for none *)
  sv_Annotations : gmap string string;
  sv_DeletionTimestamp : option Time;
  sv_Type : string;
  sv_ClusterIP : string;
  sv_Ports : list ServicePort;
  sv_Ingress : list string }.            (* the IPs of Status.LoadBalancer.Ingress *)

Definition ServiceTypeLoadBalancer : string := "LoadBalancer".
Definition ClusterIPNone : string := "None".
Definition sv_key (svc : Service) : string * string := (sv_Namespace svc, sv_Name svc).
Definition annotation (svc : Service) (k : string) : string := opt_or "" (sv_Annotations svc !! k).

Definition with_annotation (k v : string) (svc : Service) : Service :=
  mkService (sv_Namespace svc) (sv_Name svc) (sv_ResourceVersion svc)
    (<[k := v]> (sv_Annotations svc)) (sv_DeletionTimestamp svc) (sv_Type svc) (sv_ClusterIP svc)
    (sv_Ports svc) (sv_Ingress svc).
Definition with_ingress (l : list string) (svc : Service) : Service :=
  mkService (sv_Namespace svc) (sv_Name svc) (sv_ResourceVersion svc) (sv_Annotations svc)
    (sv_DeletionTimestamp svc) (sv_Type svc) (sv_ClusterIP svc) (sv_Ports svc) l.
Definition with_version (v : Z) (svc : Service) : Service :=
  mkService (sv_Namespace svc) (sv_Name svc) v (sv_Annotations svc)
    (sv_DeletionTimestamp svc) (sv_Type svc) (sv_ClusterIP svc) (sv_Ports svc) (sv_Ingress svc).

(** ** Ingresses (networkingv1) *)
Record ServiceBackendPort := mkBackendPort { bp_Name : string; bp_Number : Z }.
#[export] Instance ServiceBackendPort_eq_dec : EqDecision ServiceBackendPort.
Proof. solve_decision. Defined.
(** [Backend.Service], [nil] where the backend is a resource. *)
Abbreviation IngressBackend := (option (string * ServiceBackendPort)) (only parsing).
Record HTTPIngressPath := mkPath {
  ip_Path : string; ip_PathType : option string; ip_Backend : IngressBackend }.
Record IngressRule := mkIngressRule {
  ir_Host : string; ir_HTTP : option (list HTTPIngressPath) }.
Record Ingress := mkIngress {
  in_Namespace : string;
  in_Name : string;
  in_ResourceVersion : Z;
  in_Annotations : gmap string string;
  in_DeletionTimestamp : option Time;
  in_IngressClassName : option string;
  in_DefaultBackend : option IngressBackend;
  in_Rules : list IngressRule;
  in_TLS : list string;                  (* the SecretName of each entry *)
  in_Ingress : list string }.            (* the IPs of Status.LoadBalancer.Ingress *)

Definition in_key (ing : Ingress) : string * string := (in_Namespace ing, in_Name ing).
Definition in_annotation (ing : Ingress) (k : string) : string := opt_or "" (in_Annotations ing !! k).
Definition in_with (v : Z) (annotations : gmap string string) (ips : list string) (ing : Ingress) : Ingress :=
  mkIngress (in_Namespace ing) (in_Name ing) v annotations (in_DeletionTimestamp ing)
    (in_IngressClassName ing) (in_DefaultBackend ing) (in_Rules ing) (in_TLS ing) ips.

(** ** The calls *)
Class Octavia (W : Type) := {
  loadbalancers_Get : string → M W LoadBalancer;
  (* by name, the empty one for all *)
  loadbalancers_List : string → M W (list LoadBalancer);
  loadbalancers_Create : LBCreateOpts → M W LoadBalancer;
  loadbalancers_Delete : string → M W ();          (* cascading *)
  listeners_List : string → M W (list Listener);   (* by name *)
  listeners_Create : ListenerCreateOpts → M W Listener;
  pools_List : string → string → M W (list Pool);  (* by load balancer and name, the empty one for all *)
  pools_Create : PoolCreateOpts → M W Pool;
  monitors_Create : MonitorCreateOpts → M W string;
  pools_ListMembers : string → M W (list Member);
  pools_BatchUpdateMembers : string → list MemberOpts → M W ();
}.

(** What only layer 7 needs. *)
Class OctaviaL7 (W : Type) := {
  listeners_Update : string → ListenerUpdateOpts → M W ();
  listeners_Delete : string → M W ();
  pools_Delete : string → M W ();
  l7policies_List : string → M W (list L7Policy);   (* by listener *)
  l7policies_Create : L7CreateOpts → M W L7Policy;
  l7policies_Delete : string → M W ();
  l7policies_ListRules : string → M W (list L7Rule);
  l7policies_CreateRule : string → L7Rule → M W ();
  providers_List : M W (list string);
}.

Class FloatingIPs (W : Type) := {
  floatingips_List : string → string → M W (list FloatingIP);   (* by port and address, the empty one for all *)
  floatingips_Create : FIPCreateOpts → M W FloatingIP;
  floatingips_Update : string → FIPUpdateOpts → M W ();
  floatingips_Delete : string → M W ();
}.

Class ServicesAPI (W : Type) := {
  services_Update : Service → M W Service;
  services_UpdateStatus : Service → M W Service;
}.

Class IngressesAPI (W : Type) := {
  ingresses_Update : Ingress → M W Ingress;
  ingresses_UpdateStatus : Ingress → M W Ingress;
}.

Class KeyManager (W : Type) := {
  secrets_List : string → M W (list Secret);   (* by name, the empty one for all *)
  secrets_Create : SecretRow → M W Secret;
  secrets_Delete : string → M W ();
}.

(** ** What is observed *)
Record LBState := mkLBState {
  s_lbs : gmap string LBRow;
  s_listeners : gmap string ListenerRow;
  s_pools : gmap string (PoolRow * list Member);
  s_monitors : gmap string MonitorCreateOpts;
  s_fips : gmap string FIPRow;
  s_services : gmap (string * string) Service;
  s_settings : gmap string ListenerSettings;   (* of each listener *)
  s_policies : gmap string (list (string * L7PolicyRow));   (* of each listener, by position *)
  s_ingresses : gmap (string * string) Ingress;
  s_secrets : gmap string SecretRow }.

Definition set_lbs f (s : LBState) : LBState := mkLBState (f (s_lbs s)) (s_listeners s) (s_pools s) (s_monitors s) (s_fips s)
  (s_services s) (s_settings s) (s_policies s) (s_ingresses s) (s_secrets s).
Definition set_listeners f (s : LBState) : LBState := mkLBState (s_lbs s) (f (s_listeners s)) (s_pools s) (s_monitors s) (s_fips s)
  (s_services s) (s_settings s) (s_policies s) (s_ingresses s) (s_secrets s).
Definition set_pools f (s : LBState) : LBState := mkLBState (s_lbs s) (s_listeners s) (f (s_pools s)) (s_monitors s) (s_fips s)
  (s_services s) (s_settings s) (s_policies s) (s_ingresses s) (s_secrets s).
Definition set_monitors f (s : LBState) : LBState := mkLBState (s_lbs s) (s_listeners s) (s_pools s) (f (s_monitors s)) (s_fips s)
  (s_services s) (s_settings s) (s_policies s) (s_ingresses s) (s_secrets s).
Definition set_fips f (s : LBState) : LBState := mkLBState (s_lbs s) (s_listeners s) (s_pools s) (s_monitors s) (f (s_fips s))
  (s_services s) (s_settings s) (s_policies s) (s_ingresses s) (s_secrets s).
Definition set_services f (s : LBState) : LBState := mkLBState (s_lbs s) (s_listeners s) (s_pools s) (s_monitors s) (s_fips s)
  (f (s_services s)) (s_settings s) (s_policies s) (s_ingresses s) (s_secrets s).
Definition set_settings f (s : LBState) : LBState := mkLBState (s_lbs s) (s_listeners s) (s_pools s) (s_monitors s) (s_fips s)
  (s_services s) (f (s_settings s)) (s_policies s) (s_ingresses s) (s_secrets s).
Definition set_policies f (s : LBState) : LBState := mkLBState (s_lbs s) (s_listeners s) (s_pools s) (s_monitors s) (s_fips s)
  (s_services s) (s_settings s) (f (s_policies s)) (s_ingresses s) (s_secrets s).
Definition set_ingresses f (s : LBState) : LBState := mkLBState (s_lbs s) (s_listeners s) (s_pools s) (s_monitors s) (s_fips s)
  (s_services s) (s_settings s) (s_policies s) (f (s_ingresses s)) (s_secrets s).
Definition set_secrets f (s : LBState) : LBState := mkLBState (s_lbs s) (s_listeners s) (s_pools s) (s_monitors s) (s_fips s)
  (s_services s) (s_settings s) (s_policies s) (s_ingresses s) (f (s_secrets s)).

(** What a listener nothing is known of reads. *)
Definition no_settings : ListenerSettings := mkSettings "" [] "" [] 0 0 0 0.
Definition settings_of (s : LBState) (id : string) : ListenerSettings := opt_or no_settings (s_settings s !! id).
Definition policies_of (s : LBState) (id : string) : list (string * L7PolicyRow) := opt_or [] (s_policies s !! id).

(** A new load balancer: an id nothing mentions, what was asked for, and the
    address and port Octavia gave it. *)
Definition lb_created (o : LBCreateOpts) (lb : LoadBalancer) (s s' : LBState) : Prop :=
  s_lbs s !! lb_ID lb = None ∧ lb_ID lb ≠ "" ∧
  (∀ i r, s_listeners s !! i = Some r → lb_ID lb ∉ lsr_Loadbalancers r) ∧
  (∀ i r, s_pools s !! i = Some r → lb_ID lb ∉ plr_Loadbalancers r.1) ∧
  (∀ k svc a, s_services s !! k = Some svc → sv_Annotations svc !! a ≠ Some (lb_ID lb)) ∧
  (∀ k ing a, s_ingresses s !! k = Some ing → in_Annotations ing !! a ≠ Some (lb_ID lb)) ∧
  (∃ address port, lb_row lb = mkLBRow (lo_Name o) (lo_Description o) (lo_VipSubnetID o) (lo_Provider o)
     address port ∧ address ≠ "" ∧ port ≠ "") ∧
  s' = set_lbs <[lb_ID lb := lb_row lb]> s.

Definition str_in (x : string) (l : list string) : bool := bool_decide (x ∈ l).

(** What a cascading delete takes with it; Neutron leaves a floating IP that was
    on the load balancer's port allocated, and on no port. *)
Definition detached (port : string) (f : FIPRow) : FIPRow :=
  if decide (fr_PortID f = port ∧ port ≠ "") then
    mkFIPRow (fr_FloatingIP f) (fr_FloatingNetworkID f) "" (fr_Description f) else f.
Definition cascaded (id : string) (s : LBState) : LBState :=
  let port := match s_lbs s !! id with Some r => lr_VipPortID r | None => "" end in
  let on i := match s_listeners s !! i with Some r => str_in id (lsr_Loadbalancers r) | None => false end in
  mkLBState (delete id (s_lbs s))
    (filter (λ ir : string * ListenerRow, id ∉ lsr_Loadbalancers ir.2) (s_listeners s))
    (filter (λ ir : string * (PoolRow * list Member), id ∉ plr_Loadbalancers ir.2.1) (s_pools s))
    (s_monitors s) (detached port <$> s_fips s) (s_services s)
    (filter (λ ix : string * ListenerSettings, on ix.1 = false) (s_settings s))
    (filter (λ ip : string * list (string * L7PolicyRow), on ip.1 = false) (s_policies s))
    (s_ingresses s) (s_secrets s).

Definition timeout_given (o : option Z) (live : Z) : Prop := match o with Some v => live = v | None => True end.
Definition settings_given (o : ListenerOptions) (x : ListenerSettings) : Prop :=
  lx_DefaultTlsContainerRef x = lpo_DefaultTlsContainerRef o ∧
  lx_SniContainerRefs x = lpo_SniContainerRefs o ∧
  lx_DefaultPoolID x = lpo_DefaultPoolID o ∧ lx_AllowedCIDRs x = lpo_AllowedCIDRs o ∧
  timeout_given (lpo_TimeoutClientData o) (lx_TimeoutClientData x) ∧
  timeout_given (lpo_TimeoutMemberData o) (lx_TimeoutMemberData x) ∧
  timeout_given (lpo_TimeoutMemberConnect o) (lx_TimeoutMemberConnect x) ∧
  timeout_given (lpo_TimeoutTCPInspect o) (lx_TimeoutTCPInspect x).
Definition listener_created (o : ListenerCreateOpts) (l : Listener) (s s' : LBState) : Prop :=
  s_listeners s !! ls_ID l = None ∧ ls_ID l ≠ "" ∧ policies_of s (ls_ID l) = [] ∧
  (∀ i r, s_pools s !! i = Some r → ls_ID l ∉ plr_Listeners r.1) ∧
  ls_row l = mkListenerRow (lso_Name o) (lso_Protocol o) (lso_ProtocolPort o) [lso_LoadbalancerID o] ∧
  settings_given (lso_options o) (ls_settings l) ∧
  s' = set_settings <[ls_ID l := ls_settings l]> (set_listeners <[ls_ID l := ls_row l]> s).

(** A pool made for a listener belongs to that listener's load balancers and
    becomes its default; one made for a load balancer belongs to it alone. *)
Definition with_default_pool (pool : string) (x : ListenerSettings) : ListenerSettings :=
  mkSettings (lx_DefaultTlsContainerRef x) (lx_SniContainerRefs x) pool (lx_AllowedCIDRs x)
    (lx_TimeoutClientData x) (lx_TimeoutMemberData x) (lx_TimeoutMemberConnect x) (lx_TimeoutTCPInspect x).
Definition pool_created (o : PoolCreateOpts) (p : Pool) (s s' : LBState) : Prop :=
  s_pools s !! pl_ID p = None ∧ pl_ID p ≠ "" ∧
  if decide (plo_ListenerID o = "") then
    pl_row p = mkPoolRow (plo_Name o) (plo_Protocol o) (plo_LBMethod o) [] [plo_LoadbalancerID o] "" ∧
    s' = set_pools <[pl_ID p := (pl_row p, [])]> s
  else
    (∃ l, s_listeners s !! plo_ListenerID o = Some l ∧
       pl_row p = mkPoolRow (plo_Name o) (plo_Protocol o) (plo_LBMethod o) [plo_ListenerID o]
                    (lsr_Loadbalancers l) "") ∧
    s' = set_settings <[plo_ListenerID o := with_default_pool (pl_ID p) (settings_of s (plo_ListenerID o))]>
           (set_pools <[pl_ID p := (pl_row p, [])]> s).

Definition monitored (id : string) (r : PoolRow) : PoolRow :=
  mkPoolRow (plr_Name r) (plr_Protocol r) (plr_LBMethod r) (plr_Listeners r) (plr_Loadbalancers r) id.
Definition monitor_created (o : MonitorCreateOpts) (id : string) (s s' : LBState) : Prop :=
  id ≠ "" ∧ s_monitors s !! id = None ∧ is_Some (s_pools s !! mno_PoolID o) ∧
  s' = set_monitors <[id := o]>
         (set_pools (alter (λ rm, (monitored id rm.1, rm.2)) (mno_PoolID o)) s).

Definition member_of (o : MemberOpts) : Member :=
  mkMember (mo_Address o) (mo_ProtocolPort o) (opt_or "" (mo_SubnetID o)) (opt_or "" (mo_Name o)).
Definition members_set (pool : string) (ms : list MemberOpts) (s s' : LBState) : Prop :=
  is_Some (s_pools s !! pool) ∧
  ∃ l, l ≡ₚ map member_of ms ∧ s' = set_pools (alter (λ rm, (rm.1, l)) pool) s.

Definition fip_created (o : FIPCreateOpts) (f : FloatingIP) (s s' : LBState) : Prop :=
  s_fips s !! fip_ID f = None ∧
  (∃ address, address ≠ "" ∧
     fip_row f = mkFIPRow address (fo_FloatingNetworkID o) (fo_PortID o) (fo_Description o)) ∧
  s' = set_fips <[fip_ID f := fip_row f]> s.

(** An update writes what it gives; a port given as "" takes the address off
    its port, one that is not given leaves it where it is. *)
Definition fip_written (u : FIPUpdateOpts) (f : FIPRow) : FIPRow :=
  mkFIPRow (fr_FloatingIP f) (fr_FloatingNetworkID f) (opt_or (fr_PortID f) (fu_PortID u))
    (opt_or (fr_Description f) (fu_Description u)).
Definition fip_updated (id : string) (u : FIPUpdateOpts) (s s' : LBState) : Prop :=
  is_Some (s_fips s !! id) ∧ s' = set_fips (alter (fip_written u) id) s.

(** *** Layer 7 *)
Definition listener_written (u : ListenerUpdateOpts) (x : ListenerSettings) : ListenerSettings :=
  mkSettings (opt_or (lx_DefaultTlsContainerRef x) (lu_DefaultTlsContainerRef u))
    (lx_SniContainerRefs x) (opt_or (lx_DefaultPoolID x) (lu_DefaultPoolID u))
    (opt_or (lx_AllowedCIDRs x) (lu_AllowedCIDRs u))
    (opt_or (lx_TimeoutClientData x) (lu_TimeoutClientData u))
    (opt_or (lx_TimeoutMemberData x) (lu_TimeoutMemberData u))
    (opt_or (lx_TimeoutMemberConnect x) (lu_TimeoutMemberConnect u))
    (opt_or (lx_TimeoutTCPInspect x) (lu_TimeoutTCPInspect u)).
Definition listener_updated (id : string) (u : ListenerUpdateOpts) (s s' : LBState) : Prop :=
  is_Some (s_listeners s !! id) ∧
  s' = set_settings <[id := listener_written u (settings_of s id)]> s.

(** A listener goes with its policies; its pools stay. *)
Definition without_listener (id : string) (rm : PoolRow * list Member) : PoolRow * list Member :=
  (mkPoolRow (plr_Name rm.1) (plr_Protocol rm.1) (plr_LBMethod rm.1)
     (filter (λ l, l ≠ id) (plr_Listeners rm.1)) (plr_Loadbalancers rm.1) (plr_MonitorID rm.1), rm.2).
Definition listener_gone (id : string) (s : LBState) : LBState :=
  set_listeners (delete id) (set_settings (delete id) (set_policies (delete id)
    (set_pools (fmap (without_listener id)) s))).

(** A pool goes from where it was the default. *)
Definition without_pool (id : string) (x : ListenerSettings) : ListenerSettings :=
  if decide (lx_DefaultPoolID x = id) then with_default_pool "" x else x.
Definition pool_gone (id : string) (s : LBState) : LBState :=
  set_pools (delete id) (set_settings (fmap (without_pool id)) s).

(** A policy is put before the one that held its position; those behind move
    on. *)
Definition policy_ids (s : LBState) : list string := flat_map (λ l, map fst l) (map_to_list (s_policies s)).*2.
Definition placed (position : Z) (p : string * L7PolicyRow) (l : list (string * L7PolicyRow)) :
    list (string * L7PolicyRow) :=
  take (Z.to_nat (position - 1)) l ++ p :: drop (Z.to_nat (position - 1)) l.
Definition policy_row (o : L7CreateOpts) : L7PolicyRow :=
  mkL7Row (l7o_Name o) (l7o_Action o) (l7o_RedirectPoolID o) [].
Definition policy_created (o : L7CreateOpts) (p : L7Policy) (s s' : LBState) : Prop :=
  is_Some (s_listeners s !! l7o_ListenerID o) ∧ (∀ l, l7_ID p ∉ map fst (policies_of s l)) ∧
  s' = set_policies <[l7o_ListenerID o :=
         placed (l7o_Position o) (l7_ID p, policy_row o) (policies_of s (l7o_ListenerID o))]> s.
Definition policy_gone (id : string) (s : LBState) : LBState :=
  set_policies (fmap (filter (λ p : string * L7PolicyRow, p.1 ≠ id))) s.
Definition with_rule (id : string) (rule : L7Rule) (p : string * L7PolicyRow) : string * L7PolicyRow :=
  if decide (p.1 = id) then
    (p.1, mkL7Row (lp_Name p.2) (lp_Action p.2) (lp_RedirectPoolID p.2) (lp_rules p.2 ++ [rule]))
  else p.
Definition rule_created (id : string) (rule : L7Rule) (s s' : LBState) : Prop :=
  (∃ l, id ∈ map fst (policies_of s l)) ∧
  s' = set_policies (fmap (map (with_rule id rule))) s.
(** What a listing of a listener's policies shows of them. *)
Definition policy_shown (i : nat) (p : string * L7PolicyRow) : L7Policy :=
  mkL7Policy p.1 (lp_Name p.2) (lp_Action p.2) (lp_RedirectPoolID p.2) (Z.of_nat i + 1).

(** An update is refused unless it starts from the revision that is stored, or
    names none, and makes a later one; the status is another resource. *)
Definition service_updated (svc fresh : Service) (s s' : LBState) : Prop :=
  ∃ cur v, s_services s !! sv_key svc = Some cur ∧ (0 < v)%Z ∧ (sv_ResourceVersion cur < v)%Z ∧
    (sv_ResourceVersion svc = 0%Z ∨ sv_ResourceVersion svc = sv_ResourceVersion cur) ∧
    fresh = with_version v (with_ingress (sv_Ingress cur) svc) ∧
    s' = set_services <[sv_key svc := fresh]> s.
Definition status_updated (svc fresh : Service) (s s' : LBState) : Prop :=
  ∃ cur v, s_services s !! sv_key svc = Some cur ∧ (0 < v)%Z ∧ (sv_ResourceVersion cur < v)%Z ∧
    (sv_ResourceVersion svc = 0%Z ∨ sv_ResourceVersion svc = sv_ResourceVersion cur) ∧
    fresh = with_version v (with_ingress (sv_Ingress svc) cur) ∧
    s' = set_services <[sv_key svc := fresh]> s.

Definition ingress_written (status : bool) (ing cur : Ingress) (v : Z) : Ingress :=
  if status then in_with v (in_Annotations cur) (in_Ingress ing) cur
  else in_with v (in_Annotations ing) (in_Ingress cur) ing.
Definition ingress_updated (status : bool) (ing fresh : Ingress) (s s' : LBState) : Prop :=
  ∃ cur v, s_ingresses s !! in_key ing = Some cur ∧ (0 < v)%Z ∧ (in_ResourceVersion cur < v)%Z ∧
    (in_ResourceVersion ing = 0%Z ∨ in_ResourceVersion ing = in_ResourceVersion cur) ∧
    fresh = ingress_written status ing cur v ∧
    s' = set_ingresses <[in_key ing := fresh]> s.

Definition secret_created (o : SecretRow) (c : Secret) (s s' : LBState) : Prop :=
  (∀ ref, is_Some (s_secrets s !! ref) → ref_id ref ≠ ref_id (sc_SecretRef c)) ∧
  sc_Name c = scr_Name o ∧ sc_SecretRef c ≠ "" ∧
  s' = set_secrets <[sc_SecretRef c := o]> s.
Definition secret_gone (id : string) (s : LBState) : LBState :=
  set_secrets (filter (λ rs : string * SecretRow, ref_id rs.1 ≠ id)) s.

(** ** Laws

    No error of a client is this package's own [ErrNotFound]. *)
Definition raw (e : gerror) : Prop := e ≠ ErrNotFound.

Class OctaviaLaws {W} (api : Octavia W) (view : W → LBState) := {
  law_lb_Get s id : runs view s (loadbalancers_Get id)
    (λ lb s', s' = s ∧ lb_ID lb = id ∧ s_lbs s !! id = Some (lb_row lb))
    (λ e s', s' = s ∧ raw e ∧ (ResponseCodeIs e 404 = true → s_lbs s !! id = None));
  law_lb_List s name : runs view s (loadbalancers_List name)
    (λ l s', s' = s ∧ lists lb_ID lb_row (s_lbs s) (λ r, name = "" ∨ lr_Name r = name) l)
    (λ e s', s' = s ∧ raw e);
  law_lb_Create s o : runs view s (loadbalancers_Create o)
    (λ lb s', lb_created o lb s s') (λ _ s', maybe s (λ s', ∃ lb, lb_created o lb s s') s');
  law_lb_Delete s id : runs view s (loadbalancers_Delete id)
    (λ _ s', s' = cascaded id s)
    (λ e s', maybe s (λ s', s' = cascaded id s) s' ∧
       (ResponseCodeIs e 404 = true → s' = s ∧ s_lbs s !! id = None));
  law_listeners_List s name : runs view s (listeners_List name)
    (λ l s', s' = s ∧ lists ls_ID ls_row (s_listeners s) (λ r, lsr_Name r = name) l ∧
       ∀ x, x ∈ l → ls_settings x = settings_of s (ls_ID x))
    (λ e s', s' = s ∧ raw e);
  law_listeners_Create s o : runs view s (listeners_Create o)
    (λ l s', listener_created o l s s') (λ _ s', maybe s (λ s', ∃ l, listener_created o l s s') s');
  law_pools_List s lb name : runs view s (pools_List lb name)
    (λ l s', s' = s ∧ lists pl_ID pl_row (fst <$> s_pools s)
       (λ r, lb ∈ plr_Loadbalancers r ∧ (name = "" ∨ plr_Name r = name)) l)
    (λ e s', s' = s ∧ raw e);
  law_pools_Create s o : runs view s (pools_Create o)
    (λ p s', pool_created o p s s') (λ _ s', maybe s (λ s', ∃ p, pool_created o p s s') s');
  law_monitors_Create s o : runs view s (monitors_Create o)
    (λ id s', monitor_created o id s s') (λ _ s', maybe s (λ s', ∃ id, monitor_created o id s s') s');
  law_ListMembers s pool : runs view s (pools_ListMembers pool)
    (λ l s', s' = s ∧ ∃ rm, s_pools s !! pool = Some rm ∧ l ≡ₚ rm.2) (λ _ s', s' = s);
  law_BatchUpdate s pool ms : runs view s (pools_BatchUpdateMembers pool ms)
    (λ _ s', members_set pool ms s s') (λ _ s', maybe s (members_set pool ms s) s');
}.

Class OctaviaL7Laws {W} (api : OctaviaL7 W) (view : W → LBState) := {
  law_listeners_Update s id u : runs view s (listeners_Update id u)
    (λ _ s', listener_updated id u s s') (λ _ s', maybe s (listener_updated id u s) s');
  law_listeners_Delete s id : runs view s (listeners_Delete id)
    (λ _ s', s' = listener_gone id s)
    (λ e s', maybe s (λ s', s' = listener_gone id s) s' ∧
       (ResponseCodeIs e 404 = true → s' = s ∧ s_listeners s !! id = None));
  law_pools_Delete s id : runs view s (pools_Delete id)
    (λ _ s', s' = pool_gone id s)
    (λ e s', maybe s (λ s', s' = pool_gone id s) s' ∧
       (ResponseCodeIs e 404 = true → s' = s ∧ s_pools s !! id = None));
  law_policies_List s listener : runs view s (l7policies_List listener)
    (λ l s', s' = s ∧ l ≡ₚ imap policy_shown (policies_of s listener)) (λ _ s', s' = s);
  law_policies_Create s o : runs view s (l7policies_Create o)
    (λ p s', policy_created o p s s') (λ _ s', maybe s (λ s', ∃ p, policy_created o p s s') s');
  law_policies_Delete s id : runs view s (l7policies_Delete id)
    (λ _ s', s' = policy_gone id s)
    (λ e s', maybe s (λ s', s' = policy_gone id s) s' ∧
       (ResponseCodeIs e 404 = true → s' = s ∧ ∀ l, id ∉ map fst (policies_of s l)));
  law_ListRules s id : runs view s (l7policies_ListRules id)
    (λ l s', s' = s ∧ ∃ listener row, (id, row) ∈ policies_of s listener ∧ l ≡ₚ lp_rules row)
    (λ _ s', s' = s);
  law_CreateRule s id rule : runs view s (l7policies_CreateRule id rule)
    (λ _ s', rule_created id rule s s') (λ _ s', maybe s (rule_created id rule s) s');
  law_providers_List s : runs view s providers_List (λ _ s', s' = s) (λ _ s', s' = s);
}.

Class ClockLaws {W} (c : Clock W) (api : Octavia W) (view : W → LBState) := {
  law_sleep s d : runs view s (sleep d) (λ _ s', s' = s) (λ _ s', s' = s);
  law_sleep_long d w : match sleep d w with (Ok _, w') => (now w + d ≤ now w')%Z | _ => True end;
  law_Get_forward id w : (now w ≤ now (loadbalancers_Get id w).2)%Z;
}.

Class FloatingLaws {W} (api : FloatingIPs W) (view : W → LBState) := {
  law_fips_List s port address : runs view s (floatingips_List port address)
    (λ l s', s' = s ∧ lists fip_ID fip_row (s_fips s)
       (λ r, (port = "" ∨ fr_PortID r = port) ∧ (address = "" ∨ fr_FloatingIP r = address)) l)
    (λ _ s', s' = s);
  law_fips_Create s o : runs view s (floatingips_Create o)
    (λ f s', fip_created o f s s') (λ _ s', maybe s (λ s', ∃ f, fip_created o f s s') s');
  law_fips_Update s id u : runs view s (floatingips_Update id u)
    (λ _ s', fip_updated id u s s')
    (λ e s', maybe s (fip_updated id u s) s' ∧
       (ResponseCodeIs e 404 = true → s' = s ∧ s_fips s !! id = None));
  law_fips_Delete s id : runs view s (floatingips_Delete id)
    (λ _ s', s' = set_fips (delete id) s)
    (λ e s', maybe s (λ s', s' = set_fips (delete id) s) s' ∧
       (ResponseCodeIs e 404 = true → s' = s ∧ s_fips s !! id = None));
}.

Class ServicesLaws {W} (api : ServicesAPI W) (view : W → LBState) := {
  law_Update s svc : runs view s (services_Update svc)
    (λ fresh s', service_updated svc fresh s s')
    (λ _ s', maybe s (λ s', ∃ fresh, service_updated svc fresh s s') s');
  law_UpdateStatus s svc : runs view s (services_UpdateStatus svc)
    (λ fresh s', status_updated svc fresh s s')
    (λ _ s', maybe s (λ s', ∃ fresh, status_updated svc fresh s s') s');
}.

Class IngressesLaws {W} (api : IngressesAPI W) (view : W → LBState) := {
  law_ingress_Update s ing : runs view s (ingresses_Update ing)
    (λ fresh s', ingress_updated false ing fresh s s')
    (λ _ s', maybe s (λ s', ∃ fresh, ingress_updated false ing fresh s s') s');
  law_ingress_UpdateStatus s ing : runs view s (ingresses_UpdateStatus ing)
    (λ fresh s', ingress_updated true ing fresh s s')
    (λ _ s', maybe s (λ s', ∃ fresh, ingress_updated true ing fresh s s') s');
}.

(** Secrets are known by their references, and deleted by the ids these end in. *)
Class KeyManagerLaws {W} (api : KeyManager W) (view : W → LBState) := {
  law_secrets_List s name : runs view s (secrets_List name)
    (λ l s', s' = s ∧ lists sc_SecretRef sc_Name (scr_Name <$> s_secrets s)
       (λ n, name = "" ∨ n = name) l) (λ _ s', s' = s);
  law_secrets_Create s o : runs view s (secrets_Create o)
    (λ c s', secret_created o c s s') (λ _ s', maybe s (λ s', ∃ c, secret_created o c s s') s');
  law_secrets_Delete s id : runs view s (secrets_Delete id)
    (λ _ s', s' = secret_gone id s)
    (λ e s', maybe s (λ s', s' = secret_gone id s) s' ∧
       (ResponseCodeIs e 404 = true → s' = s ∧ ∀ ref, is_Some (s_secrets s !! ref) → ref_id ref ≠ id));
}.

(** ** Services that keep the laws *)
Abbreviation RefWorld := (Ref LBState).
Definition missing : gerror := ErrResponse 404 "".

Definition values {R} (m : gmap string R) : list R := (map_to_list m).*2.
(** An id nothing refers to. *)
Definition in_use (s : LBState) : gset string := {[""]} ∪ dom (s_lbs s) ∪ dom (s_listeners s)
  ∪ dom (s_pools s) ∪ dom (s_monitors s) ∪ dom (s_fips s)
  ∪ list_to_set (flat_map lsr_Loadbalancers (values (s_listeners s)))
  ∪ list_to_set (flat_map (λ rm, plr_Loadbalancers rm.1 ++ plr_Listeners rm.1) (values (s_pools s)))
  ∪ list_to_set (flat_map (λ svc, values (sv_Annotations svc)) (map_to_list (s_services s)).*2)
  ∪ list_to_set (flat_map (λ ing, values (in_Annotations ing)) (map_to_list (s_ingresses s)).*2)
  ∪ list_to_set (policy_ids s) ∪ dom (s_policies s)
  ∪ set_map ref_id (dom (s_secrets s)).
Definition unused (s : LBState) : string := fresh_id (in_use s).

(** The same without any character an id is found by. *)
Definition plain_unused (s : LBState) : string := string_map (λ _, "i"%char) (unused s).

Definition ref_settings (o : ListenerOptions) : ListenerSettings :=
  mkSettings (lpo_DefaultTlsContainerRef o) (lpo_SniContainerRefs o) (lpo_DefaultPoolID o)
    (lpo_AllowedCIDRs o) (opt_or 50000%Z (lpo_TimeoutClientData o)) (opt_or 50000%Z (lpo_TimeoutMemberData o))
    (opt_or 5000%Z (lpo_TimeoutMemberConnect o)) (opt_or 0%Z (lpo_TimeoutTCPInspect o)).

Definition RefOctavia : Octavia RefWorld := {|
  loadbalancers_Get id := ref_read (λ s, match s_lbs s !! id with
    | Some r => Ok (mkLB id "ACTIVE" r) | None => Err missing end);
  loadbalancers_List name := ref_read (λ s, Ok (listing (λ i, mkLB i "ACTIVE")
    (λ r, bool_decide (name = "") || bool_decide (lr_Name r = name)) (s_lbs s)));
  loadbalancers_Create o := ref_write (λ s,
    let lb := mkLB (unused s) "PENDING_CREATE" (mkLBRow (lo_Name o) (lo_Description o)
      (lo_VipSubnetID o) (lo_Provider o) "192.0.2.10" ("port-" +:+ unused s)) in
    Ok (lb, set_lbs <[lb_ID lb := lb_row lb]> s));
  loadbalancers_Delete id := ref_write (λ s, match s_lbs s !! id with
    | Some _ => Ok ((), cascaded id s) | None => Err missing end);
  listeners_List name := ref_read (λ s, Ok (listing (λ i r, mkListener i r (settings_of s i))
    (λ r, bool_decide (lsr_Name r = name)) (s_listeners s)));
  listeners_Create o := ref_write (λ s,
    let l := mkListener (unused s) (mkListenerRow (lso_Name o) (lso_Protocol o) (lso_ProtocolPort o)
      [lso_LoadbalancerID o]) (ref_settings (lso_options o)) in
    Ok (l, set_settings <[ls_ID l := ls_settings l]> (set_listeners <[ls_ID l := ls_row l]> s)));
  pools_List lb name := ref_read (λ s, Ok (listing mkPool (λ r, str_in lb (plr_Loadbalancers r) &&
    (bool_decide (name = "") || bool_decide (plr_Name r = name))) (fst <$> s_pools s)));
  pools_Create o := ref_write (λ s,
    if decide (plo_ListenerID o = "") then
      let p := mkPool (unused s) (mkPoolRow (plo_Name o) (plo_Protocol o) (plo_LBMethod o)
        [] [plo_LoadbalancerID o] "") in
      Ok (p, set_pools <[pl_ID p := (pl_row p, [])]> s)
    else match s_listeners s !! plo_ListenerID o with
    | None => Err missing
    | Some l =>
        let p := mkPool (unused s) (mkPoolRow (plo_Name o) (plo_Protocol o) (plo_LBMethod o)
          [plo_ListenerID o] (lsr_Loadbalancers l) "") in
        Ok (p, set_settings <[plo_ListenerID o := with_default_pool (pl_ID p) (settings_of s (plo_ListenerID o))]>
          (set_pools <[pl_ID p := (pl_row p, [])]> s))
    end);
  monitors_Create o := ref_write (λ s, match s_pools s !! mno_PoolID o with
    | None => Err missing
    | Some _ => Ok (unused s, set_monitors <[unused s := o]>
        (set_pools (alter (λ rm, (monitored (unused s) rm.1, rm.2)) (mno_PoolID o)) s))
    end);
  pools_ListMembers pool := ref_read (λ s, match s_pools s !! pool with
    | Some rm => Ok rm.2 | None => Err missing end);
  pools_BatchUpdateMembers pool ms := ref_write (λ s, match s_pools s !! pool with
    | None => Err missing
    | Some _ => Ok ((), set_pools (alter (λ rm, (rm.1, map member_of ms)) pool) s) end) |}.

Definition has_policy (s : LBState) (id : string) : bool := str_in id (policy_ids s).
Definition rules_of (s : LBState) (id : string) : option (list L7Rule) :=
  lp_rules ∘ snd <$> find (λ p : string * L7PolicyRow, bool_decide (p.1 = id))
    (List.concat (map_to_list (s_policies s)).*2).
Definition RefOctaviaL7 : OctaviaL7 RefWorld := {|
  listeners_Update id u := ref_write (λ s, match s_listeners s !! id with
    | Some _ => Ok ((), set_settings <[id := listener_written u (settings_of s id)]> s)
    | None => Err missing end);
  listeners_Delete id := ref_write (λ s, match s_listeners s !! id with
    | Some _ => Ok ((), listener_gone id s) | None => Err missing end);
  pools_Delete id := ref_write (λ s, match s_pools s !! id with
    | Some _ => Ok ((), pool_gone id s) | None => Err missing end);
  l7policies_List listener := ref_read (λ s, Ok (imap policy_shown (policies_of s listener)));
  l7policies_Create o := ref_write (λ s, match s_listeners s !! l7o_ListenerID o with
    | None => Err missing
    | Some _ => Ok (mkL7Policy (unused s) (l7o_Name o) (l7o_Action o) (l7o_RedirectPoolID o) (l7o_Position o),
        set_policies <[l7o_ListenerID o :=
         placed (l7o_Position o) (unused s, policy_row o) (policies_of s (l7o_ListenerID o))]> s)
    end);
  l7policies_Delete id := ref_write (λ s,
    if has_policy s id then Ok ((), policy_gone id s) else Err missing);
  l7policies_ListRules id := ref_read (λ s, match rules_of s id with
    | Some rules => Ok rules | None => Err missing end);
  l7policies_CreateRule id rule := ref_write (λ s,
    if has_policy s id then Ok ((), set_policies (fmap (map (with_rule id rule))) s) else Err missing);
  providers_List := ref_read (λ s, Ok ["amphora"; "ovn"]) |}.

Abbreviation RefClock := (RefClockOf (S:=LBState)).

Definition RefFloating : FloatingIPs RefWorld := {|
  floatingips_List port address := ref_read (λ s, Ok (listing mkFIP (λ r,
    (bool_decide (port = "") || bool_decide (fr_PortID r = port)) &&
    (bool_decide (address = "") || bool_decide (fr_FloatingIP r = address))) (s_fips s)));
  floatingips_Create o := ref_write (λ s,
    let f := mkFIP (unused s) (mkFIPRow "203.0.113.9" (fo_FloatingNetworkID o) (fo_PortID o)
      (fo_Description o)) in
    Ok (f, set_fips <[fip_ID f := fip_row f]> s));
  floatingips_Update id u := ref_write (λ s, match s_fips s !! id with
    | Some _ => Ok ((), set_fips (alter (fip_written u) id) s) | None => Err missing end);
  floatingips_Delete id := ref_write (λ s, match s_fips s !! id with
    | Some _ => Ok ((), set_fips (delete id) s) | None => Err missing end) |}.

Definition next_version (v : Z) : Z := Z.max 0 v + 1.
Definition fresh_enough (svc cur : Service) : bool :=
  bool_decide (sv_ResourceVersion svc = 0%Z) || bool_decide (sv_ResourceVersion svc = sv_ResourceVersion cur).
Definition RefServices : ServicesAPI RefWorld := {|
  services_Update svc := ref_write (λ s, match s_services s !! sv_key svc with
    | None => Err missing
    | Some cur => if fresh_enough svc cur then
        let fresh := with_version (next_version (sv_ResourceVersion cur))
                       (with_ingress (sv_Ingress cur) svc) in
        Ok (fresh, set_services <[sv_key svc := fresh]> s)
      else Err (ErrResponse 409 "the object has been modified")
    end);
  services_UpdateStatus svc := ref_write (λ s, match s_services s !! sv_key svc with
    | None => Err missing
    | Some cur => if fresh_enough svc cur then
        let fresh := with_version (next_version (sv_ResourceVersion cur))
                       (with_ingress (sv_Ingress svc) cur) in
        Ok (fresh, set_services <[sv_key svc := fresh]> s)
      else Err (ErrResponse 409 "the object has been modified")
    end) |}.

Definition ref_ingress (status : bool) (ing : Ingress) : M RefWorld Ingress := ref_write (λ s,
  match s_ingresses s !! in_key ing with
  | None => Err missing
  | Some cur =>
      if bool_decide (in_ResourceVersion ing = 0%Z) ||
         bool_decide (in_ResourceVersion ing = in_ResourceVersion cur) then
        let fresh := ingress_written status ing cur (next_version (in_ResourceVersion cur)) in
        Ok (fresh, set_ingresses <[in_key ing := fresh]> s)
      else Err (ErrResponse 409 "the object has been modified")
  end).
Definition RefIngresses : IngressesAPI RefWorld := {|
  ingresses_Update := ref_ingress false;
  ingresses_UpdateStatus := ref_ingress true |}.

Definition RefKeyManager : KeyManager RefWorld := {|
  secrets_List name := ref_read (λ s, Ok (listing (λ ref n, mkSecret n ref)
    (λ n, bool_decide (name = "") || bool_decide (n = name)) (scr_Name <$> s_secrets s)));
  secrets_Create o := ref_write (λ s,
    let c := mkSecret (scr_Name o) ("https://keys/v1/secrets" +:+ "/" +:+ plain_unused s) in
    Ok (c, set_secrets <[sc_SecretRef c := o]> s));
  secrets_Delete id := ref_write (λ s,
    if existsb (λ ref, bool_decide (ref_id ref = id)) (map_to_list (s_secrets s)).*1
    then Ok ((), secret_gone id s) else Err missing) |}.

(** *** They keep them *)
Lemma elem_of_values {K R} `{Countable K} (m : gmap K R) i r : m !! i = Some r → r ∈ (map_to_list m).*2.
Proof.
  intros Hr. apply list_elem_of_fmap. exists (i, r). split; [done|]. by apply elem_of_map_to_list.
Qed.

Lemma not_in_flat_map {A} (f : A → list string) (l : list A) x a :
  x ∉ (list_to_set (flat_map f l) : gset string) → a ∈ l → x ∉ f a.
Proof.
  rewrite elem_of_list_to_set. intros H Ha Hx. apply H, list_elem_of_In, in_flat_map.
  exists a. by rewrite <-!list_elem_of_In.
Qed.

Lemma elem_of_policies s l i row : (i, row) ∈ policies_of s l → i ∈ policy_ids s.
Proof.
  unfold policies_of. destruct (s_policies s !! l) as [ps|] eqn:Hl; [|by intros ?%elem_of_nil].
  intros Hi. apply list_elem_of_In, in_flat_map. exists ps. rewrite <-!list_elem_of_In.
  split; [by eapply elem_of_values|]. apply list_elem_of_fmap. by exists (i, row).
Qed.

(** What an id out of use is not. *)
Record unmentioned (s : LBState) (id : string) : Prop := {
  um_blank : id ≠ "";
  um_lbs : s_lbs s !! id = None;
  um_listeners : s_listeners s !! id = None;
  um_pools : s_pools s !! id = None;
  um_monitors : s_monitors s !! id = None;
  um_fips : s_fips s !! id = None;
  um_on : ∀ i r, s_listeners s !! i = Some r → id ∉ lsr_Loadbalancers r;
  um_for : ∀ i r, s_pools s !! i = Some r →
    (id ∉ plr_Loadbalancers r.1) ∧ (id ∉ plr_Listeners r.1);
  um_services : ∀ k svc a, s_services s !! k = Some svc → sv_Annotations svc !! a ≠ Some id;
  um_ingresses : ∀ k ing a, s_ingresses s !! k = Some ing → in_Annotations ing !! a ≠ Some id;
  um_policies : ∀ l, id ∉ map fst (policies_of s l);
  um_listed : policies_of s id = [];
  um_secrets : ∀ ref, is_Some (s_secrets s !! ref) → ref_id ref ≠ id }.

Lemma not_in_use s id : id ∉ in_use s → unmentioned s id.
Proof.
  unfold in_use. rewrite !not_elem_of_union.
  intros ((((((((((((H1 & H2) & H3) & H4) & H5) & H6) & H7) & H8) & H9) & H10) & H11) & H12) & H13).
  rewrite !not_elem_of_dom in *. rewrite not_elem_of_singleton in H1.
  assert (∀ m a, (∃ k : string, m !! k = Some id) → id ∉ a ++ values m → False) as Hval.
  { intros m a [k Hk] Hn. apply not_elem_of_app in Hn as [_ Hn]. apply Hn. by eapply elem_of_values. }
  split; try done.
  - intros i r Hr. eapply (not_in_flat_map lsr_Loadbalancers); [exact H7|by eapply elem_of_values].
  - intros i r Hr. apply not_elem_of_app.
    eapply (not_in_flat_map (λ rm, plr_Loadbalancers rm.1 ++ plr_Listeners rm.1)); [exact H8|by eapply elem_of_values].
  - intros k svc a Hk Ha. eapply (Hval (sv_Annotations svc) []); [by exists a|].
    eapply (not_in_flat_map (λ svc, values (sv_Annotations svc))); [exact H9|by eapply elem_of_values].
  - intros k ing a Hk Ha. eapply (Hval (in_Annotations ing) []); [by exists a|].
    eapply (not_in_flat_map (λ ing, values (in_Annotations ing))); [exact H10|by eapply elem_of_values].
  - intros l ([i row] & -> & Hi)%list_elem_of_fmap. apply H11, elem_of_list_to_set.
    by eapply elem_of_policies.
  - unfold policies_of. by rewrite H12.
  - intros ref Hr Hid. apply H13, elem_of_map. exists ref. by rewrite elem_of_dom.
Qed.

Lemma unused_spec s : unmentioned s (unused s).
Proof. apply not_in_use, fresh_id_spec. Qed.

Lemma RefOctavia_laws : OctaviaLaws RefOctavia rw_state.
Proof.
  split; intros s; pose proof (unused_spec s) as [].
  - intros id. apply ref_read_runs. by destruct (s_lbs s !! id).
  - intros name. apply ref_read_runs. split; [done|]. apply listing_lists; [done..|].
    intros r. by rewrite orb_true_iff, !bool_decide_eq_true.
  - intros o. apply ref_write_runs. cbv zeta. do 3 (split; [done|]).
    split; [intros i r Hr; by apply (um_for0 i r)|]. do 2 (split; [done|]). split; [|done].
    by eexists _, _.
  - intros id. apply ref_write_runs. destruct (s_lbs s !! id) eqn:Hi; [done|].
    split; [by left|done].
  - intros name. apply ref_read_runs. split; [done|]. split.
    + apply listing_lists; [done..|]. intros r. by rewrite bool_decide_eq_true.
    + by intros x (ir & -> & _)%list_elem_of_fmap.
  - intros o. apply ref_write_runs. cbv zeta. do 3 (split; [done|]).
    split; [intros i r Hr; by apply (um_for0 i r)|]. split; [done|]. split; [|done].
    destruct o as [? ? ? ? [? ? ? ? t1 t2 t3 t4]]. repeat split; simpl; [by destruct t1|by destruct t2|by destruct t3|by destruct t4].
  - intros lb name. apply ref_read_runs. split; [done|]. apply listing_lists; [done..|].
    intros r. unfold str_in. by rewrite andb_true_iff, orb_true_iff, !bool_decide_eq_true.
  - intros o. apply ref_write_runs. unfold pool_created. destruct (decide (plo_ListenerID o = "")) as [He|He].
    + cbv zeta. do 2 (split; [done|]). done.
    + destruct (s_listeners s !! plo_ListenerID o) as [l|] eqn:Hi; [|by left].
      do 2 (split; [done|]). split; [by exists l|done].
  - intros o. apply ref_write_runs. destruct (s_pools s !! mno_PoolID o) eqn:Hi; [|by left].
    split; [done|]. split; [done|]. split; [by eexists|done].
  - intros pool. apply ref_read_runs. destruct (s_pools s !! pool) as [rm|] eqn:Hi; [|done].
    split; [done|]. by exists rm.
  - intros pool ms. apply ref_write_runs. destruct (s_pools s !! pool) eqn:Hi; [|by left].
    split; [by eexists|]. by eexists.
Qed.

Lemma has_policy_spec s id : has_policy s id = true ↔ ∃ l, id ∈ map fst (policies_of s l).
Proof.
  unfold has_policy, str_in. rewrite bool_decide_eq_true. unfold policy_ids. split.
  - intros (ps & Hps & Hid)%list_elem_of_In%in_flat_map. rewrite <-!list_elem_of_In in *.
    apply list_elem_of_fmap in Hps as ([l ps'] & -> & Hl). apply elem_of_map_to_list in Hl.
    exists l. unfold policies_of. by rewrite Hl.
  - intros [l ([i row] & -> & Hi)%list_elem_of_fmap]. by eapply elem_of_policies.
Qed.

Lemma rules_of_spec s id rules :
  rules_of s id = Some rules → ∃ l row, (id, row) ∈ policies_of s l ∧ rules = lp_rules row.
Proof.
  unfold rules_of. destruct (find _ _) as [[i row]|] eqn:Hf; [|done]. intros [= <-].
  apply find_some in Hf as [Hin Hi]. apply bool_decide_eq_true in Hi. simpl in Hi. subst i.
  apply in_concat in Hin as (ps & Hps & Hin). rewrite <-!list_elem_of_In in *.
  apply list_elem_of_fmap in Hps as ([l ps'] & -> & Hl). apply elem_of_map_to_list in Hl.
  exists l, row. unfold policies_of. by rewrite Hl.
Qed.

Lemma RefOctaviaL7_laws : OctaviaL7Laws RefOctaviaL7 rw_state.
Proof.
  split; intros s; pose proof (unused_spec s) as [].
  - intros id u. apply ref_write_runs. destruct (s_listeners s !! id) eqn:Hi; [|by left].
    split; [by eexists|done].
  - intros id. apply ref_write_runs. destruct (s_listeners s !! id) eqn:Hi; [done|]. split; [by left|done].
  - intros id. apply ref_write_runs. destruct (s_pools s !! id) eqn:Hi; [done|]. split; [by left|done].
  - intros listener. by apply ref_read_runs.
  - intros o. apply ref_write_runs. destruct (s_listeners s !! l7o_ListenerID o) eqn:Hi; [|by left].
    split; [by eexists|done].
  - intros id. apply ref_write_runs. destruct (has_policy s id) eqn:Hp; [done|].
    split; [by left|]. intros _. split; [done|]. intros l Hl.
    enough (has_policy s id = true) by congruence. apply has_policy_spec. by exists l.
  - intros id. apply ref_read_runs. destruct (rules_of s id) as [rules|] eqn:Hr; [|done].
    apply rules_of_spec in Hr as (l & row & Hin & ->). split; [done|]. by exists l, row.
  - intros id rule. apply ref_write_runs. destruct (has_policy s id) eqn:Hp; [|by left].
    apply has_policy_spec in Hp. by split.
  - by apply ref_read_runs.
Qed.

Lemma RefClock_laws : ClockLaws RefClock RefOctavia rw_state.
Proof.
  split.
  - by intros s d w <-.
  - intros d w. simpl. lia.
  - intros id w. simpl. lia.
Qed.

Lemma RefFloating_laws : FloatingLaws RefFloating rw_state.
Proof.
  split; intros s; pose proof (unused_spec s) as [].
  - intros port address. apply ref_read_runs. split; [done|]. apply listing_lists; [done..|].
    intros r. by rewrite andb_true_iff, !orb_true_iff, !bool_decide_eq_true.
  - intros o. apply ref_write_runs. cbv zeta. split; [done|]. split; [|done].
    by exists "203.0.113.9".
  - intros id u. apply ref_write_runs. destruct (s_fips s !! id) eqn:Hi; [|split; [by left|done]].
    split; [by eexists|done].
  - intros id. apply ref_write_runs. destruct (s_fips s !! id) eqn:Hi; [done|].
    split; [by left|done].
Qed.

Lemma next_version_new v : (0 < next_version v)%Z ∧ (v < next_version v)%Z.
Proof. unfold next_version. lia. Qed.

Lemma RefServices_laws : ServicesLaws RefServices rw_state.
Proof.
  split; intros s svc; apply ref_write_runs;
    (destruct (s_services s !! sv_key svc) as [cur|] eqn:Hc; [|by left]);
    (destruct (fresh_enough svc cur) eqn:Hf; [|by left]);
    unfold fresh_enough in Hf; rewrite orb_true_iff, !bool_decide_eq_true in Hf;
    destruct (next_version_new (sv_ResourceVersion cur)) as [H1 H2]; cbv zeta.
  - exists cur, (next_version (sv_ResourceVersion cur)). by repeat split.
  - exists cur, (next_version (sv_ResourceVersion cur)). by repeat split.
Qed.

Lemma ref_ingress_runs status s ing :
  runs rw_state s (ref_ingress status ing) (λ fresh s', ingress_updated status ing fresh s s')
    (λ _ s', maybe s (λ s', ∃ fresh, ingress_updated status ing fresh s s') s').
Proof.
  apply ref_write_runs. destruct (s_ingresses s !! in_key ing) as [cur|] eqn:Hc; [|by left].
  destruct (_ || _) eqn:Hf; [|by left]. rewrite orb_true_iff, !bool_decide_eq_true in Hf.
  destruct (next_version_new (in_ResourceVersion cur)) as [H1 H2]. cbv zeta.
  exists cur, (next_version (in_ResourceVersion cur)). by repeat split.
Qed.
Lemma RefIngresses_laws : IngressesLaws RefIngresses rw_state.
Proof. split; intros s ing; apply ref_ingress_runs. Qed.

(** *** References *)
Lemma contains_slash s : contains s "/" = negb (no_char "/"%char s).
Proof.
  induction s as [|c s IH]; [done|]. cbn [contains no_char]. rewrite IH, negb_andb. f_equal.
  unfold has_prefix. rewrite negb_involutive. apply bool_decide_ext. cbn [drop_prefix].
  case_decide as Hc; (split; [|by intros ->; (done || eexists)]); [by intros _|by intros [? [=]]].
Qed.

Lemma ref_id_app p id : no_char "/"%char id = true → ref_id (p +:+ "/" +:+ id) = id.
Proof.
  intros Hid. induction p as [|c p IH].
  - change (ref_id (String "/"%char id) = id). cbn [ref_id]. by rewrite contains_slash, Hid.
  - change (String c p +:+ "/" +:+ id) with (String c (p +:+ "/" +:+ id)). cbn [ref_id].
    rewrite contains_slash, no_char_app, IH. change ("/" +:+ id) with (String "/"%char id). simpl.
    by rewrite andb_false_r.
Qed.

Lemma length_string_map f s : String.length (string_map f s) = String.length s.
Proof. induction s as [|c s IH]; simpl; [done|by rewrite IH]. Qed.

Lemma plain_unused_spec s :
  unmentioned s (plain_unused s) ∧ no_char "/"%char (plain_unused s) = true.
Proof.
  split.
  - apply not_in_use. intros Hin%fresh_id_long. fold (unused s) in Hin. unfold plain_unused in Hin.
    rewrite length_string_map in Hin. lia.
  - unfold plain_unused. induction (unused s) as [|c x IH]; [done|]. simpl. by rewrite IH.
Qed.

Lemma RefKeyManager_laws : KeyManagerLaws RefKeyManager rw_state.
Proof.
  split; intros s.
  - intros name. apply ref_read_runs. split; [done|]. apply listing_lists; [done..|].
    intros r. by rewrite orb_true_iff, !bool_decide_eq_true.
  - intros o. apply ref_write_runs. cbv zeta. destruct (plain_unused_spec s) as [[] Hno].
    split; [|split; [done|split; [done|done]]]. simpl sc_SecretRef. intros ref Href.
    change (ref_id ref ≠ ref_id ("https://keys/v1/secrets" +:+ "/" +:+ plain_unused s)).
    rewrite ref_id_app; auto.
  - intros id. apply ref_write_runs. destruct (existsb _ _) eqn:He; [done|]. split; [by left|].
    intros _. split; [done|]. intros ref [row Hr] Hid.
    enough (existsb (λ ref, bool_decide (ref_id ref = id)) (map_to_list (s_secrets s)).*1 = true) by congruence.
    apply existsb_In. exists ref. rewrite bool_decide_eq_true. split; [|done].
    apply list_elem_of_fmap. exists (ref, row). split; [done|]. by apply elem_of_map_to_list.
Qed.
