(* ===== verification/ServiceOctavia.v ===== *)
(** * pkg/service/octavia.go and floatingip.go: the calls behind a load balancer

    Lookups that tell "not there" from "could not ask", the wait for a load
    balancer to settle, the member set that is replaced as a whole, and the
    public address found by the port it is on. *)

From S2P Require Import Prelude GoStd K8s LoadBalancing.
From Stdlib Require Import Ascii.

Local Open Scope string_scope.
Local Open Scope list_scope.

Definition activeTimeout : Z := 5 * minute.
Definition activePoll : Z := 2 * second.

(** ** octavia.go *)
Section octavia.
Context {W : Type} `{!Octavia W} `{!Clock W}.

Definition GetLoadBalancerByID (id : string) : M W LoadBalancer :=
  r ← try (loadbalancers_Get id);
  match r with
  | Ok lb => mret lb
  | Err e => if ResponseCodeIs e 404 then fail ErrNotFound else fail e
  end.

Definition GetLoadBalancerByName (name : string) : M W LoadBalancer :=
  all ← loadbalancers_List name;
  match all with
  | [] => fail ErrNotFound
  | [lb] => mret lb
  | _ => fail (ErrMsg (pretty (length all) +:+ " load balancers are named " +:+ go_quote name))
  end.

Definition ListLoadBalancers : M W (list LoadBalancer) := loadbalancers_List "".

(** The loop, [None] when [fuel] polls were not enough. *)
Fixpoint wait_loop (fuel : nat) (deadline : Z) (id : string) : M W (option LoadBalancer) :=
  match fuel with
  | O => mret None
  | S fuel =>
      lb ← GetLoadBalancerByID id;
      if decide (lb_ProvisioningStatus lb = "ACTIVE") then mret (Some lb)
      else if decide (lb_ProvisioningStatus lb = "ERROR") then
        fail (ErrMsg ("load balancer " +:+ id +:+ " is in ERROR"))
      else
        t ← time_now;
        if decide (deadline < t)%Z then
          fail (ErrMsg ("load balancer " +:+ id +:+ " was still " +:+ lb_ProvisioningStatus lb +:+
            " after 5m0s"))
        else sleep activePoll ≫= λ _, wait_loop fuel deadline id
  end.

(** One poll every [activePoll] until the deadline has passed, and the one that
    notices. *)
Definition polls : nat := 152.
Definition out_of_fuel : gerror := ErrMsg "out of fuel".

Definition WaitActive (id : string) : M W LoadBalancer :=
  t ← time_now;
  r ← wait_loop polls (t + activeTimeout) id;
  match r with Some lb => mret lb | None => fail out_of_fuel end.

Definition GetListenerByName (lbID name : string) : M W Listener :=
  all ← listeners_List name;
  match find (λ l, str_in lbID (lsr_Loadbalancers (ls_row l))) all with
  | Some l => mret l
  | None => fail ErrNotFound
  end.

Definition GetPoolByListener (lbID listenerID : string) : M W Pool :=
  all ← pools_List lbID "";
  match find (λ p, str_in listenerID (plr_Listeners (pl_row p))) all with
  | Some p => mret p
  | None => fail ErrNotFound
  end.

Definition CreateListener (lbID : string) (opts : ListenerCreateOpts) : M W Listener :=
  l ← listeners_Create opts; WaitActive lbID ≫= λ _, mret l.
Definition CreatePool (lbID : string) (opts : PoolCreateOpts) : M W Pool :=
  p ← pools_Create opts; WaitActive lbID ≫= λ _, mret p.
Definition CreateHealthMonitor (lbID : string) (opts : MonitorCreateOpts) : M W string :=
  m ← monitors_Create opts; WaitActive lbID ≫= λ _, mret m.

(** A member by what this controller sets: where it is, and its subnet. *)
Definition member_key (address : string) (port : Z) (subnet : string) : string :=
  address +:+ "|" +:+ pretty port +:+ "|" +:+ subnet.
Definition current_key (m : Member) : string :=
  member_key (mb_Address m) (mb_ProtocolPort m) (mb_SubnetID m).
Definition desired_key (m : MemberOpts) : string :=
  member_key (mo_Address m) (mo_ProtocolPort m) (opt_or "" (mo_SubnetID m)).

Definition sameMembers (current : list Member) (desired : list MemberOpts) : bool :=
  if decide (length current ≠ length desired) then false
  else
    let have : gset string := list_to_set (map current_key current) in
    forallb (λ d, bool_decide (desired_key d ∈ have)) desired.

Definition SetPoolMembers (lbID poolID : string) (members : list MemberOpts) : M W () :=
  current ← try (pools_ListMembers poolID);
  if match current with Ok c => sameMembers c members | Err _ => false end then mret ()
  else
    pools_BatchUpdateMembers poolID members ≫= λ _,
    WaitActive lbID ≫= λ _, mret ().

Definition DeleteLoadBalancer (id : string) : M W () :=
  ignoring (λ e, ResponseCodeIs e 404) (loadbalancers_Delete id).
End octavia.

(** ** floatingip.go *)
Definition InternalAnnotation : string := "service.beta.kubernetes.io/openstack-internal-load-balancer".
Definition FloatingNetworkAnnotation : string := "loadbalancer.openstack.org/floating-network-id".

Definition wantsPublicAddress (svc : Service) (defaultPublic : bool) : bool :=
  if decide (sv_Type svc ≠ ServiceTypeLoadBalancer) then false
  else if decide (annotation svc InternalAnnotation = "true") then false
  else if decide (annotation svc InternalAnnotation = "false") then true
  else defaultPublic.

Section floatingip.
Context {W : Type} `{!FloatingIPs W}.

(** The service behind a nil client cannot be called. *)
Definition nil_client : gerror := ErrMsg "invalid memory address or nil pointer dereference".
Definition on_client {A} (neutron : bool) (m : M W A) : M W A :=
  if neutron then m else fail nil_client.

Definition floatingIPForPort (neutron : bool) (portID : string) : M W (option FloatingIP) :=
  if decide (portID = "") then mret None
  else
    all ← wrap ("looking for a public address on port " +:+ portID)
      (on_client neutron (floatingips_List portID ""));
    mret (head all).

Definition ensureFloatingIP (neutron : bool) (vipPortID floatingNetworkID : string) : M W string :=
  existing ← floatingIPForPort neutron vipPortID;
  match existing with
  | Some fip => mret (fr_FloatingIP (fip_row fip))
  | None =>
      if decide (floatingNetworkID = "") then
        fail (ErrMsg ("no external network is configured, so a public address cannot be given; " +:+
          "set one on the node or ask for an internal load balancer"))
      else
        fip ← wrap ("allocating a public address on network " +:+ floatingNetworkID)
          (on_client neutron (floatingips_Create (mkFIPOpts floatingNetworkID vipPortID "")));
        mret (fr_FloatingIP (fip_row fip))
  end.

Definition releaseFloatingIP (neutron : bool) (vipPortID : string) : M W () :=
  existing ← floatingIPForPort neutron vipPortID;
  match existing with
  | None => mret ()
  | Some fip =>
      wrap ("releasing public address " +:+ fr_FloatingIP (fip_row fip))
        (ignoring (λ e, ResponseCodeIs e 404) (on_client neutron (floatingips_Delete (fip_ID fip))))
  end.
End floatingip.

(** ** Lemmas *)

(** *** Finding what there is *)
Lemma find_elem {A} (p : A → bool) l a : find p l = Some a → a ∈ l ∧ p a = true.
Proof. intros H. apply find_some in H as [Hin Hp]. by rewrite <-list_elem_of_In in Hin. Qed.
Lemma find_none_elem {A} (p : A → bool) l a : find p l = None → a ∈ l → p a = false.
Proof. intros H Ha. by apply (find_none _ _ H), list_elem_of_In. Qed.

Lemma lists_elem {A R} (id : A → string) (row : A → R) m P l a :
  lists id row m P l → a ∈ l → m !! id a = Some (row a) ∧ P (row a).
Proof. intros [_ H] Ha. apply H. by exists a. Qed.

(** *** Members *)

(** A pool holds the desired members, by what identifies one. *)
Definition pool_holds (current : list Member) (desired : list MemberOpts) : Prop :=
  map current_key current ≡ₚ map desired_key desired.
#[export] Instance pool_holds_Proper : Proper ((≡ₚ) ==> (=) ==> iff) pool_holds.
Proof. intros l l' Hl ms ? <-. unfold pool_holds. by rewrite Hl. Qed.

Lemma member_key_inj a1 p1 s1 a2 p2 s2 :
  no_char "|"%char a1 = true → no_char "|"%char a2 = true →
  member_key a1 p1 s1 = member_key a2 p2 s2 → a1 = a2 ∧ p1 = p2 ∧ s1 = s2.
Proof.
  intros H1 H2 H. unfold member_key in H.
  apply (sep_inj "|"%char) in H as [-> H]; [|done..].
  apply (sep_inj "|"%char) in H as [H ->]; [|apply pretty_bar..].
  by apply (inj pretty) in H.
Qed.

Lemma sameMembers_sound current desired :
  NoDup (map desired_key desired) → sameMembers current desired = true →
  pool_holds current desired.
Proof.
  intros Hnd. unfold sameMembers. destruct (decide _) as [|Hlen]; [done|]. rewrite forallb_In. intros H.
  unfold pool_holds. symmetry. apply submseteq_length_Permutation.
  - apply NoDup_submseteq; [done|]. intros k (d & -> & Hd)%list_elem_of_fmap.
    specialize (H d Hd). rewrite bool_decide_eq_true in H. by apply elem_of_list_to_set in H.
  - rewrite !length_map. lia.
Qed.

Lemma pool_holds_members ms l : l ≡ₚ map member_of ms → pool_holds l ms.
Proof. intros ->. unfold pool_holds. by rewrite List.map_map. Qed.


Section octavia_facts.
Context {W : Type} {api : Octavia W} {clock : Clock W} (view : W → LBState)
  `{!OctaviaLaws api view} `{!ClockLaws clock api view}.

Lemma GetLoadBalancerByID_runs s id :
  runs view s (GetLoadBalancerByID id)
    (λ lb s', s' = s ∧ lb_ID lb = id ∧ s_lbs s !! id = Some (lb_row lb))
    (λ e s', s' = s ∧ (e = ErrNotFound → s_lbs s !! id = None)).
Proof.
  unfold GetLoadBalancerByID. eapply runs_try_bind; [apply (law_lb_Get s id)| |]; cbv beta.
  { intros lb s' H. by apply runs_ret. }
  intros e s' (-> & Hraw & H404). destruct (ResponseCodeIs e 404) eqn:He; apply runs_fail; (split; [done|]);
    [intros _; by apply H404|done].
Qed.

Lemma GetLoadBalancerByName_runs s name :
  name ≠ "" →
  runs view s (GetLoadBalancerByName name)
    (λ lb s', s' = s ∧ s_lbs s !! lb_ID lb = Some (lb_row lb) ∧ lr_Name (lb_row lb) = name ∧
       ∀ i r, s_lbs s !! i = Some r → lr_Name r = name → i = lb_ID lb)
    (λ e s', s' = s ∧ (e = ErrNotFound → ∀ i r, s_lbs s !! i = Some r → lr_Name r ≠ name)).
Proof.
  intros Hne. unfold GetLoadBalancerByName.
  eapply runs_bind; [apply (law_lb_List s name)| |]; cbv beta; [by intros e s' [-> ?]|].
  intros l s' [-> Hl]. pose proof Hl as [_ Hrows].
  destruct l as [|lb [|lb' l]]; [apply runs_fail|apply runs_ret|by apply runs_fail].
  - split; [done|]. intros _ i r Hi Hn.
    destruct (proj2 (Hrows i r)) as (a & Ha & _); [by split; [|right]|]. by apply elem_of_nil in Ha.
  - destruct (lists_elem _ _ _ _ _ lb Hl) as [Hlb [|Hn]]; [by left|done|].
    split; [done|]. split; [done|]. split; [done|]. intros i r Hi Hr.
    destruct (proj2 (Hrows i r)) as (a & Ha & <- & _); [by split; [|right]|].
    by apply list_elem_of_singleton in Ha as ->.
Qed.

Lemma wait_loop_runs fuel deadline s id :
  runs view s (wait_loop fuel deadline id)
    (λ r s', s' = s ∧ match r with
       | Some lb => lb_ID lb = id ∧ s_lbs s !! id = Some (lb_row lb) ∧
                    lb_ProvisioningStatus lb = "ACTIVE"
       | None => True end)
    (λ _ s', s' = s).
Proof.
  revert s. induction fuel as [|fuel IH]; intros s; simpl; [by apply runs_ret|].
  eapply runs_bind; [apply GetLoadBalancerByID_runs| |]; cbv beta; [by intros e s' [-> _]|].
  intros lb s' (-> & Hid & Hlb). case_decide; [by apply runs_ret|].
  case_decide; [by apply runs_fail|]. apply (time_now_step view). intros t.
  case_decide; [by apply runs_fail|].
  eapply runs_bind; [apply (law_sleep s activePoll)|done|]; cbv beta. intros u s' ->. apply IH.
Qed.

Lemma WaitActive_runs s id :
  runs view s (WaitActive id)
    (λ lb s', s' = s ∧ lb_ID lb = id ∧ s_lbs s !! id = Some (lb_row lb) ∧
       lb_ProvisioningStatus lb = "ACTIVE")
    (λ _ s', s' = s).
Proof.
  unfold WaitActive. apply (time_now_step view). intros t.
  eapply runs_bind; [apply wait_loop_runs|done|]; cbv beta.
  intros [lb|] s' [-> H]; [by apply runs_ret|by apply runs_fail].
Qed.

(** Waiting changes nothing and then goes on, or fails. *)
Lemma WaitActive_then {A} s id (a : A) (Q : A → LBState → Prop) (E : gerror → LBState → Prop) :
  Q a s → (∀ e, E e s) → runs view s (WaitActive id ≫= λ _, mret a) Q E.
Proof.
  intros HQ HE. eapply runs_bind; [apply WaitActive_runs| |]; cbv beta; [by intros e s' ->|].
  intros lb s' (-> & _). by apply runs_ret.
Qed.

(** The clock only goes forward, so the polls are enough. *)
Lemma GetLoadBalancerByID_forward id w : (now w ≤ now (GetLoadBalancerByID id w).2)%Z.
Proof.
  pose proof (law_Get_forward id w) as H. unfold GetLoadBalancerByID, mbind, M_bind, try.
  destruct (loadbalancers_Get id w) as [[lb|e] w']; [done|]. by destruct (ResponseCodeIs e 404).
Qed.

Lemma wait_loop_enough fuel deadline id w :
  (deadline < now w + activePoll * Z.of_nat fuel)%Z →
  (wait_loop (S fuel) deadline id w).1 ≠ Ok None.
Proof.
  revert w. induction fuel as [|fuel IH]; intros w Hd; cbn [wait_loop];
    unfold mbind at 1, M_bind at 1;
    pose proof (GetLoadBalancerByID_forward id w) as Hf;
    (destruct (GetLoadBalancerByID id w) as [[lb|e] w1]; [|done]); simpl in Hf;
    (case_decide; [done|]); (case_decide; [done|]);
    unfold mbind at 1, M_bind at 1, time_now; (case_decide; [done|]); [lia|].
  unfold mbind at 1, M_bind at 1. pose proof (law_sleep_long activePoll w1) as Hs.
  destruct (sleep activePoll w1) as [[[]|e] w2]; [|done]. apply IH. unfold activePoll in *. lia.
Qed.

Lemma GetListenerByName_runs s lbID name :
  runs view s (GetListenerByName lbID name)
    (λ l s', s' = s ∧ s_listeners s !! ls_ID l = Some (ls_row l) ∧ lsr_Name (ls_row l) = name ∧
       lbID ∈ lsr_Loadbalancers (ls_row l) ∧ ls_settings l = settings_of s (ls_ID l))
    (λ e s', s' = s ∧ (e = ErrNotFound → ∀ i r, s_listeners s !! i = Some r →
       lsr_Name r = name → lbID ∉ lsr_Loadbalancers r)).
Proof.
  unfold GetListenerByName.
  eapply runs_bind; [apply (law_listeners_List s name)| |]; cbv beta; [by intros e s' [-> ?]|].
  intros l s' (-> & Hl & Hset). destruct (find _ l) as [x|] eqn:Hf.
  - apply runs_ret. apply find_elem in Hf as [Hx Hin]. apply bool_decide_eq_true in Hin.
    destruct (lists_elem _ _ _ _ _ x Hl Hx). by rewrite (Hset x Hx).
  - apply runs_fail. split; [done|]. intros _ i r Hi Hn Hin.
    destruct Hl as [_ Hl]. destruct (proj2 (Hl i r) (conj Hi Hn)) as (x & Hx & _ & <-).
    pose proof (find_none_elem _ _ _ Hf Hx) as H. simpl in H. unfold str_in in H.
    by apply bool_decide_eq_false in H.
Qed.

Lemma GetPoolByListener_runs s lbID listenerID :
  runs view s (GetPoolByListener lbID listenerID)
    (λ p s', s' = s ∧ (∃ ms, s_pools s !! pl_ID p = Some (pl_row p, ms)) ∧
       lbID ∈ plr_Loadbalancers (pl_row p) ∧ listenerID ∈ plr_Listeners (pl_row p))
    (λ e s', s' = s ∧ (e = ErrNotFound → ∀ i r, s_pools s !! i = Some r →
       lbID ∈ plr_Loadbalancers r.1 → listenerID ∉ plr_Listeners r.1)).
Proof.
  unfold GetPoolByListener.
  eapply runs_bind; [apply (law_pools_List s lbID "")| |]; cbv beta; [by intros e s' [-> ?]|].
  intros l s' [-> Hl]. destruct (find _ l) as [x|] eqn:Hf.
  - apply runs_ret. apply find_elem in Hf as [Hx Hin]. apply bool_decide_eq_true in Hin.
    destruct (lists_elem _ _ _ _ _ x Hl Hx) as [Hrow [Hlb _]]. split; [done|]. split; [|done].
    rewrite lookup_fmap in Hrow. destruct (s_pools s !! pl_ID x) as [[r ms]|]; [|done].
    simpl in Hrow. injection Hrow as ->. by exists ms.
  - apply runs_fail. split; [done|]. intros _ i r Hi Hlb Hin.
    destruct Hl as [_ Hl]. destruct (proj2 (Hl i r.1)) as (x & Hx & _ & Hrow).
    { rewrite lookup_fmap, Hi. split; [done|]. split; [done|by left]. }
    pose proof (find_none_elem _ _ _ Hf Hx) as H. simpl in H. unfold str_in in H.
    rewrite Hrow in H. by apply bool_decide_eq_false in H.
Qed.

(** After a success the pool holds exactly the desired members, and nothing
    else has changed; a failure has at most replaced the members. *)
Lemma SetPoolMembers_runs s lbID pool members row ms :
  s_pools s !! pool = Some (row, ms) → NoDup (map desired_key members) →
  runs view s (SetPoolMembers lbID pool members)
    (λ _ s', ∃ l, pool_holds l members ∧ s' = set_pools <[pool := (row, l)]> s)
    (λ _ s', maybe s (λ s', ∃ l, s' = set_pools <[pool := (row, l)]> s) s').
Proof.
  intros Hpool Hnd.
  assert (∀ l, set_pools (alter (λ rm, (rm.1, l)) pool) s = set_pools <[pool := (row, l)]> s) as Halter.
  { intros l. unfold set_pools. f_equal. apply map_eq. intros i.
    destruct (decide (pool = i)) as [<-|Hne].
    - by rewrite lookup_alter_eq, lookup_insert_eq, Hpool.
    - by rewrite lookup_alter_ne, lookup_insert_ne. }
  assert (set_pools <[pool := (row, ms)]> s = s) as Hsame.
  { destruct s. unfold set_pools. simpl in *. f_equal. by rewrite insert_id. }
  assert (runs view s (pools_BatchUpdateMembers pool members ≫= λ _, WaitActive lbID ≫= λ _, mret ())
    (λ _ s', ∃ l, pool_holds l members ∧ s' = set_pools <[pool := (row, l)]> s)
    (λ _ s', maybe s (λ s', ∃ l, s' = set_pools <[pool := (row, l)]> s) s')) as Hset.
  { eapply runs_bind; [apply (law_BatchUpdate s pool members)| |]; cbv beta.
    - intros e s' [->|(_ & l & _ & ->)]; [by left|]. right. exists l. apply Halter.
    - intros u s' (_ & l & Hl & ->). rewrite Halter. apply WaitActive_then.
      + exists l. split; [by apply pool_holds_members|done].
      + intros _. right. by exists l. }
  unfold SetPoolMembers.
  eapply runs_try_bind; [apply (law_ListMembers s pool)| |]; cbv beta.
  - intros c s' (-> & rm & Hrm & Hc). rewrite Hpool in Hrm. injection Hrm as <-. simpl in Hc.
    destruct (sameMembers c members) eqn:Hs; [|done].
    apply runs_ret. exists ms. split; [|done]. rewrite <-Hc. by apply sameMembers_sound.
  - intros e s' ->. done.
Qed.

Lemma DeleteLoadBalancer_runs s id :
  runs view s (DeleteLoadBalancer id)
    (λ _ s', s' = cascaded id s ∨ (s' = s ∧ s_lbs s !! id = None))
    (λ _ s', maybe s (λ s', s' = cascaded id s) s').
Proof.
  unfold DeleteLoadBalancer. apply runs_ignoring.
  eapply runs_conseq; [apply (law_lb_Delete s id)| |]; cbv beta; [by left|].
  intros e s' [Hm H404]. destruct (ResponseCodeIs e 404); [right; by apply H404|done].
Qed.
End octavia_facts.

(** *** Public addresses *)
Section floating_facts.
Context {W : Type} {api : FloatingIPs W} (view : W → LBState) `{!FloatingLaws api view}.

(** At most one address is on a port. *)
Definition one_fip_per_port (fips : gmap string FIPRow) : Prop :=
  ∀ i j f g, fips !! i = Some f → fips !! j = Some g → fr_PortID f = fr_PortID g →
    fr_PortID f ≠ "" → i = j.

Lemma floatingIPForPort_runs s neutron port :
  runs view s (floatingIPForPort neutron port)
    (λ o s', s' = s ∧ match o with
       | Some f => s_fips s !! fip_ID f = Some (fip_row f) ∧ fr_PortID (fip_row f) = port ∧ port ≠ ""
       | None => port = "" ∨ ∀ i r, s_fips s !! i = Some r → fr_PortID r ≠ port
       end)
    (λ _ s', s' = s).
Proof.
  unfold floatingIPForPort. case_decide; [by apply runs_ret; auto|].
  eapply runs_bind_wrap.
  - instantiate (1 := λ _ s', s' = s). destruct neutron; [apply (law_fips_List s port "")|by apply runs_fail].
  - done.
  - intros l s' [-> Hl]. apply runs_ret. split; [done|]. destruct l as [|f l]; simpl.
    + right. intros i r Hi Hp. destruct Hl as [_ Hl].
      destruct (proj2 (Hl i r)) as (x & Hx & _); [|by apply elem_of_nil in Hx].
      split; [done|]. split; [by right|by left].
    + destruct (lists_elem _ _ _ _ _ f Hl) as [Hf [[?|Hp] _]]; [by left|done..].
Qed.

(** The address is one on the port: the one that was there, or a new one on the
    network asked for. *)
Lemma ensureFloatingIP_runs s neutron port network :
  runs view s (ensureFloatingIP neutron port network)
    (λ a s', (s' = s ∧ ∃ i r, s_fips s !! i = Some r ∧ fr_PortID r = port ∧ a = fr_FloatingIP r) ∨
       (network ≠ "" ∧ ∃ f, fip_created (mkFIPOpts network port "") f s s' ∧ a = fr_FloatingIP (fip_row f)))
    (λ _ s', maybe s (λ s', ∃ f, fip_created (mkFIPOpts network port "") f s s') s').
Proof.
  unfold ensureFloatingIP.
  eapply runs_bind; [apply floatingIPForPort_runs|intros e s' ->; by left|]; cbv beta.
  intros [f|] s' [-> H].
  - apply runs_ret. left. split; [done|]. destruct H as (Hf & Hp & _). by exists (fip_ID f), (fip_row f).
  - case_decide as Hn; [by apply runs_fail; left|]. destruct neutron; simpl.
    + eapply runs_bind_wrap; [apply (law_fips_Create s (mkFIPOpts network port ""))|done|]; cbv beta.
      intros f s' Hf. apply runs_ret. right. split; [done|]. by exists f.
    + eapply (runs_bind _ _ _ _ (λ _ _, False) _ (λ _ s', s' = s)); [|by intros e s' ->; left|done].
      by apply runs_wrap, runs_fail.
Qed.

(** A release deletes at most the one address of the port. *)
Lemma releaseFloatingIP_runs s neutron port :
  runs view s (releaseFloatingIP neutron port)
    (λ _ s', (s' = s ∧ (port = "" ∨ ∀ i r, s_fips s !! i = Some r → fr_PortID r ≠ port)) ∨
       ∃ i r, s_fips s !! i = Some r ∧ fr_PortID r = port ∧ port ≠ "" ∧ s' = set_fips (delete i) s)
    (λ _ s', maybe s (λ s', ∃ i r, s_fips s !! i = Some r ∧ fr_PortID r = port ∧ port ≠ "" ∧
                               s' = set_fips (delete i) s) s').
Proof.
  unfold releaseFloatingIP.
  eapply runs_bind; [apply floatingIPForPort_runs|intros e s' ->; by left|]; cbv beta.
  intros [f|] s' [-> H]; [|by apply runs_ret; left]. destruct H as (Hf & Hp & Hne).
  apply runs_wrap, runs_ignoring. destruct neutron; simpl; [|by apply runs_fail; left].
  eapply runs_conseq; [apply (law_fips_Delete s (fip_ID f))| |]; cbv beta.
  - intros u s' ->. right. by exists (fip_ID f), (fip_row f).
  - intros e s' [[->| ->] H404]; (destruct (ResponseCodeIs e 404); [|first [by left|right]]).
    + destruct H404 as [_ Hnone]; [done|]. by rewrite Hf in Hnone.
    + destruct H404 as [_ Hnone]; [done|]. by rewrite Hf in Hnone.
    + by exists (fip_ID f), (fip_row f).
Qed.
End floating_facts.

(** ** Properties *)

(** Waiting for a load balancer ends, and changes nothing.  The polls made
    before the deadline has passed are always enough -- each takes the clock
    forward by the interval -- so the wait returns the load balancer settled, as
    it is, or an error, and whatever happens all objects are as they were. *)
Theorem WaitActive_terminates {W} {api : Octavia W} {clock : Clock W} (view : W → LBState)
    `{!OctaviaLaws api view} `{!ClockLaws clock api view} (id : string) (w : W) :
  (wait_loop polls (now w + activeTimeout) id w).1 ≠ Ok None ∧
  view (WaitActive id w).2 = view w ∧
  ∀ lb, (WaitActive id w).1 = Ok lb →
    lb_ID lb = id ∧ lb_ProvisioningStatus lb = "ACTIVE" ∧ s_lbs (view w) !! id = Some (lb_row lb).
Proof.
  split.
  - apply (wait_loop_enough view). unfold activeTimeout, activePoll, minute, second. lia.
  - pose proof (WaitActive_runs view (view w) id w eq_refl) as H.
    destruct (WaitActive id w) as [[lb|e] w']; simpl.
    + destruct H as (? & ? & ? & ?). split; [done|]. by intros ? [= <-].
    + split; [done|]. by intros lb.
Qed.

(** ** What modelling showed *)

(** Two endpoints that give the same member -- an address found in two slices --
    are taken for a pool that holds one of them and something else: the other
    member stays. *)
Theorem sameMembers_duplicates (a b : Member) (d : MemberOpts) :
  current_key a = desired_key d → sameMembers [a; b] [d; d] = true.
Proof.
  intros Ha. unfold sameMembers. rewrite decide_False by (simpl; lia).
  apply forallb_In. intros x Hx. rewrite bool_decide_eq_true, elem_of_list_to_set.
  assert (x = d) as -> by set_solver. rewrite <-Ha. by left.
Qed.

(** ** Witness *)
Definition ex_lb : LBRow := mkLBRow "kubezun_t1_prod_web" "kubezun Service prod/web" "vip-subnet" "ovn"
  "10.9.0.4" "port-lb".
Definition ex_lb_state : LBState := mkLBState {["lb-1" := ex_lb]} ∅ ∅ ∅ ∅ ∅ ∅ ∅ ∅ ∅.

Lemma WaitActive_terminates_witness :
  ∃ lb, (@WaitActive _ RefOctavia RefClock "lb-1" (mkRef ex_lb_state 0)).1 = Ok lb ∧
    lb_ProvisioningStatus lb = "ACTIVE" ∧ lb_row lb = ex_lb.
Proof.
  exists (mkLB "lb-1" "ACTIVE" ex_lb).
  destruct (@WaitActive_terminates _ RefOctavia RefClock rw_state RefOctavia_laws RefClock_laws
    "lb-1" (mkRef ex_lb_state 0)) as (_ & _ & H).
  split; [vm_compute; reflexivity|].
  destruct (H (mkLB "lb-1" "ACTIVE" ex_lb)) as (_ & Ha & _); [vm_compute; reflexivity|].
  split; [exact Ha|reflexivity].
Defined.
