(* ===== verification/ServiceMembers.v ===== *)
(** * pkg/service/members.go and subnet.go: who is behind a Service port

    The member set of a port, from the EndpointSlices, and the subnet each
    member is reached through, from the capsule of its pod.  [SubnetResolver] is
    the source's interface between the two; [CapsuleSubnets] is what
    implements it, with its cache. *)

From S2P Require Import Prelude GoStd K8s ZunCapsule ZunStatus LoadBalancing.

Local Open Scope string_scope.
Local Open Scope list_scope.

(** ** EndpointSlices (discoveryv1) *)
Record EndpointPort := mkEndpointPort { ept_Name : option string; ept_Port : option Z }.
Record Endpoint := mkEndpoint {
  en_Addresses : list string;
  en_Ready : option bool;
  en_TargetRef : option (string * string) }.   (* kind, name *)
Record EndpointSlice := mkSlice {
  es_Namespace : string;
  es_Labels : gmap string string;
  es_AddressType : string;
  es_Ports : list EndpointPort;
  es_Endpoints : list Endpoint }.

(** ** members.go *)
Class SubnetResolver (W : Type) := {
  SubnetFor : string → string → M W string;
}.

Definition resolveSlicePort (s : EndpointSlice) (svcPort : ServicePort) : Z :=
  match find (λ p, bool_decide (is_Some (ept_Port p)) &&
                   bool_decide (opt_or "" (ept_Name p) = sp_Name svcPort)) (es_Ports s) with
  | Some p => opt_or 0%Z (ept_Port p)
  | None => 0
  end.

Definition no_pod (ep : Endpoint) : gerror :=
  ErrMsg ("endpoint [" +:+ join " " (en_Addresses ep) +:+ "] has no pod to resolve a subnet from").

Section members.
Context {W : Type} `{!SubnetResolver W}.

(** What the inner loop does with one endpoint. *)
Definition endpoint_step (namespace : string) (port : Z) (members : list MemberOpts) (ep : Endpoint)
    : M W (list MemberOpts) :=
  if decide (en_Ready ep = Some false) then mret members
  else
    match en_Addresses ep with
    | [] => mret members
    | addr :: _ =>
        match en_TargetRef ep with
        | Some (kind, name) =>
            if decide (kind = "Pod") then
              subnetID ← wrap ("member " +:+ name) (SubnetFor namespace name);
              mret (members ++ [mkMemberOpts addr port (Some name) (Some subnetID)])
            else fail (no_pod ep)
        | None => fail (no_pod ep)
        end
    end.

Definition slice_step (svcPort : ServicePort) (family : string) (members : list MemberOpts)
    (s : EndpointSlice) : M W (list MemberOpts) :=
  if decide (es_AddressType s ≠ family) then mret members
  else
    let port := resolveSlicePort s svcPort in
    if decide (port = 0%Z) then mret members
    else fold_each (endpoint_step (es_Namespace s) port) members (es_Endpoints s).

Definition BuildMembers (slices : list EndpointSlice) (svcPort : ServicePort) (family : string)
    : M W (list MemberOpts) :=
  fold_each (slice_step svcPort family) [] slices.
End members.

(** ** subnet.go *)
Section subnets.
Context {Z : Type} `{!CapsuleHTTP Z}.
(** The order in which the networks of a capsule are visited. *)
Variable visit : Capsule → list string.

(** The mutable field of [CapsuleSubnets]. *)
Abbreviation Cache := (gmap string string).

Definition CapsuleSubnets_SubnetFor (namespace podName : string) : M (Cache * Z) string :=
  let key := PodKey namespace podName in
  cache ← own_get;
  match cache !! key with
  | Some cached => mret cached
  | None =>
      managed ← wrap ("listing capsules to resolve the subnet of " +:+ key)
        (on_service ListManaged);
      match managed !! key with
      | None => fail (ErrMsg ("no capsule for pod " +:+ key +:+ ", so its subnet is unknown"))
      | Some capsule =>
          let subnet := PodSubnetID (visit capsule) capsule in
          if decide (subnet = "") then
            fail (ErrMsg ("capsule for pod " +:+ key +:+ " reports no subnet; a member bound to the wrong " +:+
              "subnet drops traffic silently, so this is refused rather than guessed"))
          else own_modify <[key := subnet]> ≫= λ _, mret subnet
      end
  end.

Definition Forget (namespace podName : string) : M (Cache * Z) () :=
  own_modify (delete (PodKey namespace podName)).

#[export] Instance CapsuleSubnets : SubnetResolver (Cache * Z) := {|
  SubnetFor := CapsuleSubnets_SubnetFor |}.
End subnets.

(** ** Laws of the interface

    A resolver that answers does so without a trace, with the pod's subnet and
    never a blank one. *)
Class SubnetLaws {W S} (api : SubnetResolver W) (view : W → S)
    (subnet_of : string → string → option string) := {
  law_SubnetFor s ns name : runs view s (SubnetFor ns name)
    (λ subnet s', s' = s ∧ subnet_of ns name = Some subnet ∧ subnet ≠ "") (λ _ s', s' = s);
}.

(** ** What the members should be

    The endpoints that serve a port: in a slice of the family that carries the
    port, not known to be unready, with an address. *)
Definition ready_endpoint (ep : Endpoint) : bool :=
  negb (bool_decide (en_Ready ep = Some false)) && negb (bool_decide (en_Addresses ep = [])).
Definition slice_serves (svcPort : ServicePort) (family : string) (s : EndpointSlice) : bool :=
  bool_decide (es_AddressType s = family) && negb (bool_decide (resolveSlicePort s svcPort = 0%Z)).
Definition serving_in (svcPort : ServicePort) (family : string) (s : EndpointSlice)
    : list (EndpointSlice * Endpoint) :=
  if slice_serves svcPort family s then
    map (pair s) (filter (λ ep, ready_endpoint ep = true) (es_Endpoints s))
  else [].
Definition serving (slices : list EndpointSlice) (svcPort : ServicePort) (family : string)
    : list (EndpointSlice * Endpoint) :=
  flat_map (serving_in svcPort family) slices.

Definition member_for (subnet_of : string → string → option string) (svcPort : ServicePort)
    (se : EndpointSlice * Endpoint) (m : MemberOpts) : Prop :=
  ∃ addr pod subnet,
    head (en_Addresses se.2) = Some addr ∧ en_TargetRef se.2 = Some ("Pod", pod) ∧
    subnet_of (es_Namespace se.1) pod = Some subnet ∧ subnet ≠ "" ∧
    m = mkMemberOpts addr (resolveSlicePort se.1 svcPort) (Some pod) (Some subnet).

(** Why it can fail: an endpoint that serves has no pod, or its subnet was not
    to be had. *)
Definition endpoint_failure (ep : Endpoint) (e : gerror) : Prop :=
  (e = no_pod ep ∧ ∀ pod, en_TargetRef ep ≠ Some ("Pod", pod)) ∨
  ∃ pod cause, en_TargetRef ep = Some ("Pod", pod) ∧ e = ErrWrap ("member " +:+ pod) cause.

Section members_facts.
Context {W S : Type} {api : SubnetResolver W} (view : W → S) (subnet_of : string → string → option string)
  `{!SubnetLaws api view subnet_of}.

Lemma endpoint_step_runs svcPort sl s before ep :
  runs view s (endpoint_step (es_Namespace sl) (resolveSlicePort sl svcPort) before ep)
    (λ ms s', s' = s ∧ ∃ new, ms = before ++ new ∧
       Forall2 (member_for subnet_of svcPort)
         (map (pair sl) (filter (λ ep, ready_endpoint ep = true) [ep])) new)
    (λ e s', s' = s ∧ ready_endpoint ep = true ∧ endpoint_failure ep e).
Proof.
  unfold endpoint_step. rewrite filter_cons. destruct (decide (en_Ready ep = Some false)) as [Hf|Hf].
  { rewrite decide_False by (unfold ready_endpoint; by rewrite bool_decide_true).
    apply runs_ret. split; [done|]. exists []. by rewrite app_nil_r. }
  destruct (en_Addresses ep) as [|addr rest] eqn:Ha.
  { rewrite decide_False by (unfold ready_endpoint; by rewrite Ha, andb_false_r).
    apply runs_ret. split; [done|]. exists []. by rewrite app_nil_r. }
  assert (ready_endpoint ep = true) as Hr
    by (unfold ready_endpoint; by rewrite Ha, bool_decide_false).
  rewrite decide_True by done. unfold endpoint_failure.
  destruct (en_TargetRef ep) as [[kind pod]|] eqn:Ht; [|by apply runs_fail; naive_solver].
  destruct (decide (kind = "Pod")) as [->|Hk]; [|apply runs_fail; naive_solver].
  eapply runs_bind_wrap; [apply (law_SubnetFor s (es_Namespace sl) pod)| |]; cbv beta.
  - intros e s' ->. split; [done|]. split; [done|]. right. by exists pod, e.
  - intros subnet s' (-> & Hsub & Hne). apply runs_ret. split; [done|].
    eexists. split; [done|]. constructor; [|constructor].
    exists addr, pod, subnet. simpl. by rewrite Ha.
Qed.

Lemma slice_step_runs svcPort family sl s before :
  runs view s (slice_step svcPort family before sl)
    (λ ms s', s' = s ∧ ∃ new, ms = before ++ new ∧
       Forall2 (member_for subnet_of svcPort) (serving_in svcPort family sl) new)
    (λ e s', s' = s ∧ ∃ se, se ∈ serving_in svcPort family sl ∧ endpoint_failure se.2 e).
Proof.
  unfold slice_step, serving_in, slice_serves. case_decide as Hfam.
  { rewrite bool_decide_false by done. apply runs_ret. split; [done|]. exists []. by rewrite app_nil_r. }
  rewrite bool_decide_true by done. case_decide as Hport.
  { rewrite bool_decide_true by done. apply runs_ret. split; [done|]. exists []. by rewrite app_nil_r. }
  rewrite bool_decide_false by done. simpl.
  eapply runs_conseq; [apply (runs_fold_each _ (λ pre ms s', s' = s ∧ ∃ new, ms = before ++ new ∧
    Forall2 (member_for subnet_of svcPort)
      (map (pair sl) (filter (λ ep, ready_endpoint ep = true) pre)) new) (es_Endpoints sl) _
    (λ e s', s' = s ∧ ∃ ep, ep ∈ es_Endpoints sl ∧ ready_endpoint ep = true ∧ endpoint_failure ep e))| |];
    cbv beta; [| |done|].
  - split; [done|]. exists []. by rewrite app_nil_r.
  - intros pre ep post ms s' Heq (-> & new & -> & Hnew).
    eapply runs_conseq; [apply endpoint_step_runs| |]; cbv beta.
    + intros ms' s' (-> & new' & -> & Hnew'). split; [done|]. exists (new ++ new').
      rewrite app_assoc. split; [done|]. rewrite filter_app, map_app. by apply Forall2_app.
    + intros e s' (-> & Hr & He). split; [done|]. exists ep. rewrite Heq.
      split; [apply elem_of_app; right; by left|done].
  - intros e s' (-> & ep & Hin & Hr & He). split; [done|]. exists (sl, ep). split; [|done].
    apply list_elem_of_fmap. exists ep. split; [done|]. by apply list_elem_of_filter.
Qed.

Lemma BuildMembers_runs slices svcPort family s :
  runs view s (BuildMembers slices svcPort family)
    (λ ms s', s' = s ∧ Forall2 (member_for subnet_of svcPort) (serving slices svcPort family) ms)
    (λ e s', s' = s ∧ ∃ se, se ∈ serving slices svcPort family ∧ endpoint_failure se.2 e).
Proof.
  unfold BuildMembers.
  eapply runs_conseq; [apply (runs_fold_each _ (λ pre ms s', s' = s ∧
    Forall2 (member_for subnet_of svcPort) (serving pre svcPort family) ms) slices _
    (λ e s', s' = s ∧ ∃ se, se ∈ serving slices svcPort family ∧ endpoint_failure se.2 e))| |];
    cbv beta; [by split| |done|done].
  intros pre sl post ms s' Heq [-> Hms].
  eapply runs_conseq; [apply (slice_step_runs svcPort family)| |]; cbv beta.
  - intros ms' s' (-> & new & -> & Hnew). split; [done|].
    unfold serving. rewrite flat_map_app. simpl. rewrite app_nil_r. by apply Forall2_app.
  - intros e s' (-> & se & Hin & He). split; [done|]. exists se. split; [|done].
    rewrite Heq. unfold serving. rewrite flat_map_app. simpl. apply elem_of_app. right.
    apply elem_of_app. by left.
Qed.
End members_facts.

(** ** Properties *)

(** The member set of a port is whole or not at all.  A success is exactly the
    endpoints that serve the port, in their order and each once, at their first
    address and the port its slice gives, on the subnet of their pod -- never a
    blank one; a failure names an endpoint that serves and has no pod, or whose
    subnet could not be had.  Nothing is changed. *)
Theorem BuildMembers_complete {W S} {api : SubnetResolver W} (view : W → S)
    (subnet_of : string → string → option string) `{!SubnetLaws api view subnet_of}
    (slices : list EndpointSlice) (svcPort : ServicePort) (family : string) (s : S) :
  runs view s (BuildMembers slices svcPort family)
    (λ ms s', s' = s ∧ Forall2 (member_for subnet_of svcPort) (serving slices svcPort family) ms)
    (λ e s', s' = s ∧ ∃ se, se ∈ serving slices svcPort family ∧ endpoint_failure se.2 e).
Proof. by apply BuildMembers_runs. Qed.

(** A pod's subnet is asked for once.  A success is what was remembered, nothing
    being asked, or the subnet the newest capsule of the pod reports, which is
    remembered; after it every further question has the same answer and asks
    nothing.  A failure remembers nothing. *)
Theorem CapsuleSubnets_remembers {Z} {api : CapsuleHTTP Z} (visit : Capsule → list string)
    (ns pod : string) (cache : gmap string string) (z : Z) :
  let key := PodKey ns pod in
  match CapsuleSubnets_SubnetFor visit ns pod (cache, z) with
  | (Ok subnet, (cache', z')) =>
      ((cache !! key = Some subnet ∧ cache' = cache ∧ z' = z) ∨
       (cache !! key = None ∧ cache' = <[key := subnet]> cache ∧ subnet ≠ "" ∧
        ∃ managed capsule, ListManaged z = (Ok managed, z') ∧ managed !! key = Some capsule ∧
          subnet = PodSubnetID (visit capsule) capsule)) ∧
      ∀ later, CapsuleSubnets_SubnetFor visit ns pod (cache', later) = (Ok subnet, (cache', later))
  | (Err _, (cache', _)) => cache' = cache ∧ cache !! key = None
  end.
Proof.
  cbv zeta. unfold CapsuleSubnets_SubnetFor, mbind, M_bind, own_get. simpl.
  destruct (cache !! PodKey ns pod) as [c|] eqn:Hc; simpl.
  { split; [by left|]. intros later. by rewrite Hc. }
  unfold wrap, on_service. simpl. destruct (ListManaged z) as [[managed|e] z'] eqn:Hm; [|done].
  destruct (managed !! PodKey ns pod) as [capsule|] eqn:Hcap; [|done].
  destruct (decide _) as [|Hne]; [done|]. unfold own_modify. simpl. split.
  - right. split; [done|]. split; [done|]. split; [done|]. by exists managed, capsule.
  - intros later. by rewrite lookup_insert_eq.
Qed.

(** ** Witness *)
Definition ex_slices : list EndpointSlice := [
  mkSlice "prod" {["kubernetes.io/service-name" := "web"]} "IPv4" [mkEndpointPort (Some "http") (Some 8080%Z)]
    [mkEndpoint ["10.0.0.5"] (Some true) (Some ("Pod", "web-0"));
     mkEndpoint ["10.0.0.6"] (Some false) (Some ("Pod", "web-1"));
     mkEndpoint ["10.0.0.7"] None (Some ("Pod", "web-2"))];
  mkSlice "prod" {["kubernetes.io/service-name" := "web"]} "IPv6" [mkEndpointPort (Some "http") (Some 8080%Z)]
    [mkEndpoint ["2001:db8::5"] (Some true) (Some ("Pod", "web-0"))]].
Definition ex_subnets : SubnetResolver () := {|
  SubnetFor ns name w := (if decide (ns = "prod") then Ok "pods-subnet" else Err ErrNotFound, w) |}.
Definition ex_subnet_of (ns name : string) : option string :=
  if decide (ns = "prod") then Some "pods-subnet" else None.

Lemma ex_subnets_laws : SubnetLaws ex_subnets (λ u : (), u) ex_subnet_of.
Proof.
  split. intros s ns name w <-. simpl. unfold ex_subnet_of. by case_decide.
Qed.

Lemma BuildMembers_complete_witness :
  ∃ ms, (@BuildMembers _ ex_subnets ex_slices (mkServicePort "http" "TCP" 80) "IPv4" ()).1 = Ok ms ∧
    length ms = 2%nat ∧
    Forall2 (member_for ex_subnet_of (mkServicePort "http" "TCP" 80))
      (serving ex_slices (mkServicePort "http" "TCP" 80) "IPv4") ms.
Proof.
  pose proof (@BuildMembers_complete _ _ ex_subnets (λ u : (), u) ex_subnet_of ex_subnets_laws
    ex_slices (mkServicePort "http" "TCP" 80) "IPv4" () () eq_refl) as H.
  revert H. destruct (@BuildMembers _ ex_subnets ex_slices (mkServicePort "http" "TCP" 80) "IPv4" ())
    as [[ms|e] u] eqn:Hr; [|vm_compute in Hr; discriminate Hr].
  intros [_ H]. exists ms. split; [reflexivity|]. split; [|exact H].
  vm_compute in Hr. injection Hr as <- _. reflexivity.
Defined.
