(* ===== verification/ServiceReconciler.v ===== *)
(** * pkg/service/reconciler.go: a Service as a load balancer

    One pass over a Service: the load balancer found or made and recorded, a
    listener, a pool, a monitor and the members for every port, the public
    address given or taken back, the address published; and the way back, the
    public address first. *)

From S2P Require Import Prelude GoStd K8s ZunCapsule LoadBalancing ServiceOctavia ServiceMembers.
From Stdlib Require Import Ascii.

Local Open Scope string_scope.
Local Open Scope list_scope.

Definition ovnProvider : string := "ovn".
Definition lbIDAnnotation : string := "knaas.io/loadbalancer-id".
Definition LabelServiceName : string := "kubernetes.io/service-name".
Definition LBMethodSourceIpPort : string := "SOURCE_IP_PORT".

(** The fields of a [Reconciler]: the caches as functions, whether there is a
    Neutron client, and the settings. *)
Record Reconciler := mkReconciler {
  rc_Tenant : string;
  rc_Namespaces : option (list string);
  rc_Services : string → string → result Service;
  rc_Slices : string → result (list EndpointSlice);
  rc_VIPSubnetID : string;
  rc_Neutron : bool;
  rc_FloatingNetworkID : string;
  rc_PublicByDefault : bool }.

Definition lbName (r : Reconciler) (namespace name : string) : string :=
  "kubezun_" +:+ rc_Tenant r +:+ "_" +:+ namespace +:+ "_" +:+ name.

Definition proto_of (sp : ServicePort) : string :=
  let p := to_upper (sp_Protocol sp) in if decide (p = "") then "TCP" else p.
Definition port_name (base proto : string) (port : Z) : string :=
  base +:+ "_" +:+ to_lower proto +:+ "_" +:+ pretty port.
Definition family_of (address : string) : string :=
  if contains address ":" then "IPv6" else "IPv4".

Definition IsNotFound (e : gerror) : bool := bool_decide (root_cause e = ErrK8sNotFound).

Section reconciler.
Context {W : Type} `{!Octavia W} `{!Clock W} `{!FloatingIPs W} `{!ServicesAPI W} `{!SubnetResolver W}.
Variable r : Reconciler.

(** ** The Service object *)
Definition recordLoadBalancerID (svc : Service) (id : string) : M W () :=
  if decide (annotation svc lbIDAnnotation = id) then mret ()
  else services_Update (with_annotation lbIDAnnotation id svc) ≫= λ _, mret ().

(** The second half of [publishAddress]. *)
Definition publishStatus (svc : Service) (address : string) : M W () :=
  if decide (sv_Type svc ≠ ServiceTypeLoadBalancer) then mret ()
  else if decide (sv_Ingress svc = [address]) then mret ()
  else services_UpdateStatus (with_ingress [address] svc) ≫= λ _, mret ().

Definition publishAddress (svc : Service) (address : string) : M W () :=
  svc ← (if decide (annotation svc AddressAnnotation ≠ address) then
           services_Update (with_annotation AddressAnnotation address svc)
         else mret svc);
  publishStatus svc address.

(** ** The load balancer *)
(** The one that bears the derived name, or a new one, its address published
    before it has settled. *)
Definition find_or_create (svc : Service) : M W LoadBalancer :=
  let name := lbName r (sv_Namespace svc) (sv_Name svc) in
  found ← try (GetLoadBalancerByName name);
  match found with
  | Ok lb => mret lb
  | Err e =>
      if decide (e = ErrNotFound) then
        lb ← wrap ("creating load balancer " +:+ go_quote name +:+ " on subnet " +:+ rc_VIPSubnetID r)
          (loadbalancers_Create (mkLBOpts name
            ("kubezun Service " +:+ sv_Namespace svc +:+ "/" +:+ sv_Name svc)
            (rc_VIPSubnetID r) ovnProvider));
        try (publishAddress svc (lr_VipAddress (lb_row lb))) ≫= λ _, mret lb
      else fail (ErrWrap ("looking up load balancer " +:+ go_quote name) e)
  end.

Definition ensure_by_name (svc : Service) : M W LoadBalancer :=
  lb ← find_or_create svc;
  lb ← WaitActive (lb_ID lb);
  recordLoadBalancerID svc (lb_ID lb) ≫= λ _, mret lb.

Definition ensureLoadBalancer (svc : Service) : M W LoadBalancer :=
  let id := annotation svc lbIDAnnotation in
  if decide (id = "") then ensure_by_name svc
  else
    recorded ← try (GetLoadBalancerByID id);
    match recorded with
    | Ok lb => WaitActive (lb_ID lb)
    | Err e =>
        if decide (e = ErrNotFound) then ensure_by_name svc
        else fail (ErrWrap ("reading load balancer " +:+ id) e)
    end.

(** ** A port *)
Definition ensure_listener (lb : LoadBalancer) (name proto : string) (port : Z) : M W Listener :=
  found ← try (GetListenerByName (lb_ID lb) name);
  match found with
  | Ok l => mret l
  | Err e =>
      if decide (e = ErrNotFound) then
        wrap ("creating listener " +:+ go_quote name)
          (CreateListener (lb_ID lb) (mkListenerOpts name proto port (lb_ID lb) no_options))
      else fail (ErrWrap ("looking up listener " +:+ go_quote name) e)
  end.

Definition ensure_pool (lb : LoadBalancer) (name proto : string) (listener : Listener) : M W Pool :=
  found ← try (GetPoolByListener (lb_ID lb) (ls_ID listener));
  match found with
  | Ok p => mret p
  | Err e =>
      if decide (e = ErrNotFound) then
        wrap ("creating pool " +:+ go_quote name)
          (CreatePool (lb_ID lb) (mkPoolOpts name proto LBMethodSourceIpPort (ls_ID listener) ""))
      else fail (ErrWrap ("looking up the pool of listener " +:+ go_quote name) e)
  end.

Definition ensure_monitor (lb : LoadBalancer) (name proto : string) (pool : Pool) : M W () :=
  if decide (plr_MonitorID (pl_row pool) = "") then
    let hmType := if decide (proto = "UDP") then "UDP-CONNECT" else "TCP" in
    wrap ("creating the health monitor of pool " +:+ go_quote name)
      (CreateHealthMonitor (lb_ID lb) (mkMonitorOpts name (pl_ID pool) hmType "" 5 3 3 3)) ≫= λ _, mret ()
  else mret ().

Definition ensurePort (svc : Service) (lb : LoadBalancer) (slices : list EndpointSlice)
    (sp : ServicePort) : M W () :=
  let proto := proto_of sp in
  if decide (proto ≠ "TCP" ∧ proto ≠ "UDP" ∧ proto ≠ "SCTP") then
    fail (ErrMsg ("port " +:+ go_quote (sp_Name sp) +:+ ": the OVN provider does not carry " +:+ proto))
  else
    let name := port_name (lbName r (sv_Namespace svc) (sv_Name svc)) proto (sp_Port sp) in
    listener ← ensure_listener lb name proto (sp_Port sp);
    pool ← ensure_pool lb name proto listener;
    ensure_monitor lb name proto pool ≫= λ _,
    members ← BuildMembers slices sp (family_of (lr_VipAddress (lb_row lb)));
    wrap ("setting the " +:+ pretty (length members) +:+ " members of pool " +:+ go_quote name)
      (SetPoolMembers (lb_ID lb) (pl_ID pool) members).

Definition slicesFor (svc : Service) : result (list EndpointSlice) :=
  filter (λ s, es_Labels s !! LabelServiceName = Some (sv_Name svc)) <$> rc_Slices r (sv_Namespace svc).

(** ** Taking it down *)
Definition tearDown (namespace name id : string) : M W () :=
  (if rc_Neutron r then
     lb ← try (GetLoadBalancerByID id);
     match lb with
     | Ok lb => releaseFloatingIP (rc_Neutron r) (lr_VipPortID (lb_row lb))
     | Err e => if decide (e = ErrNotFound) then mret () else fail e
     end
   else mret ()) ≫= λ _,
  DeleteLoadBalancer id.

Definition deleteByName (namespace name : string) : M W () :=
  found ← try (GetLoadBalancerByName (lbName r namespace name));
  match found with
  | Ok lb => tearDown namespace name (lb_ID lb)
  | Err e => if decide (e = ErrNotFound) then mret () else fail e
  end.

Definition deleteLoadBalancer (svc : Service) : M W () :=
  let id := annotation svc lbIDAnnotation in
  if decide (id = "") then deleteByName (sv_Namespace svc) (sv_Name svc)
  else tearDown (sv_Namespace svc) (sv_Name svc) id.

(** ** One pass *)
Definition public_address (svc : Service) (lb : LoadBalancer) : M W string :=
  let portID := lr_VipPortID (lb_row lb) in
  if wantsPublicAddress svc (rc_PublicByDefault r) then
    let network := if decide (annotation svc FloatingNetworkAnnotation ≠ "")
                   then annotation svc FloatingNetworkAnnotation else rc_FloatingNetworkID r in
    ensureFloatingIP (rc_Neutron r) portID network
  else releaseFloatingIP (rc_Neutron r) portID ≫= λ _, mret (lr_VipAddress (lb_row lb)).

Definition Reconcile (namespace name : string) : M W () :=
  match rc_Services r namespace name with
  | Err e => if IsNotFound e then deleteByName namespace name else fail e
  | Ok svc =>
      if decide (sv_ClusterIP svc = ClusterIPNone) then mret ()
      else if decide (is_Some (sv_DeletionTimestamp svc)) then deleteLoadBalancer svc
      else
        lb ← ensureLoadBalancer svc;
        slices ← lift_result (slicesFor svc);
        for_each (sv_Ports svc) (ensurePort svc lb slices) ≫= λ _,
        address ← public_address svc lb;
        publishAddress svc address
  end.
End reconciler.

(** ** What a pass may touch

    [only_own key id port s s']: of the objects there were, only load balancer
    [id], its pools, the addresses on its port and the Service [key] may differ;
    nothing is taken from another, and a new listener is on [id] alone. *)
Definition only_own (key : string * string) (id port : string) (s s' : LBState) : Prop :=
  (∀ i, i ≠ id → s_lbs s' !! i = s_lbs s !! i) ∧
  (∀ i l, s_listeners s !! i = Some l → s_listeners s' !! i = Some l) ∧
  (∀ i l, s_listeners s' !! i = Some l → s_listeners s !! i = Some l ∨ lsr_Loadbalancers l = [id]) ∧
  (∀ i p, s_pools s !! i = Some p → id ∉ plr_Loadbalancers p.1 → s_pools s' !! i = Some p) ∧
  (∀ i f, s_fips s !! i = Some f → fr_PortID f ≠ port → s_fips s' !! i = Some f) ∧
  (∀ k, k ≠ key → s_services s' !! k = s_services s !! k).

Lemma only_own_refl key id port s : only_own key id port s s.
Proof. unfold only_own. naive_solver. Qed.

Lemma only_own_trans key id port s1 s2 s3 :
  only_own key id port s1 s2 → only_own key id port s2 s3 → only_own key id port s1 s3.
Proof.
  intros (A1 & A2 & A3 & A4 & A5 & A6) (B1 & B2 & B3 & B4 & B5 & B6).
  split; [intros i Hi; by rewrite B1, A1|]. split; [auto|].
  split; [intros i l Hl; destruct (B3 i l Hl) as [?|]; auto|].
  split; [auto|]. split; [auto|]. intros k Hk. by rewrite B6, A6.
Qed.

(** *** A port's step *)

(** The names a Service's listeners bear, and what bears them. *)
Definition protocols : list string := ["TCP"; "UDP"; "SCTP"].
Definition listener_row (id base proto : string) (port : Z) : ListenerRow :=
  mkListenerRow (port_name base proto port) proto port [id].

(** [pool_step name s s']: every pool is as it was, or is one that listens for
    [name] and may have been given a monitor and other members. *)
Definition pool_step (id name : string) (s s' : LBState) : Prop :=
  ∀ i pr ms, s_pools s !! i = Some (pr, ms) →
    s_pools s' !! i = Some (pr, ms) ∨
    (id ∈ plr_Loadbalancers pr ∧
     (∃ l lr, s_listeners s' !! l = Some lr ∧ lsr_Name lr = name ∧ l ∈ plr_Listeners pr) ∧
     ∃ mon ms', s_pools s' !! i = Some (monitored mon pr, ms') ∧
       (plr_MonitorID pr ≠ "" → mon ≠ "")).

(** A new pool is for one listener, and on that listener's load balancers. *)
Definition pools_new (s s' : LBState) : Prop :=
  ∀ i pr ms, s_pools s' !! i = Some (pr, ms) →
    (∃ pr0 ms0, s_pools s !! i = Some (pr0, ms0) ∧ plr_Listeners pr = plr_Listeners pr0 ∧
       plr_Loadbalancers pr = plr_Loadbalancers pr0) ∨
    ∃ l, plr_Listeners pr = [l].

Record port_step (id base proto : string) (port : Z) (s s' : LBState) : Prop := {
  ps_lbs : s_lbs s' = s_lbs s;
  ps_fips : s_fips s' = s_fips s;
  ps_services : s_services s' = s_services s;
  ps_kept : ∀ i l, s_listeners s !! i = Some l → s_listeners s' !! i = Some l;
  ps_new : ∀ i l, s_listeners s' !! i = Some l → s_listeners s !! i = Some l ∨
             (l = listener_row id base proto port ∧ i ≠ "");
  ps_pools : pool_step id (port_name base proto port) s s';
  ps_new_pools : pools_new s s' }.

Lemma monitored_id pr : monitored (plr_MonitorID pr) pr = pr.
Proof. by destruct pr. Qed.

Lemma port_step_refl id base proto port s : port_step id base proto port s s.
Proof.
  split; try done; [by left|by left|]. intros i pr ms H. left. by exists pr, ms.
Qed.

Lemma port_step_trans id base proto port s1 s2 s3 :
  port_step id base proto port s1 s2 → port_step id base proto port s2 s3 →
  port_step id base proto port s1 s3.
Proof.
  intros [A1 A2 A3 A4 A5 A6 A7] [B1 B2 B3 B4 B5 B6 B7].
  split; [congruence..|auto| | |].
  - intros i l Hl. destruct (B5 i l Hl); auto.
  - intros i pr ms Hi. destruct (A6 i pr ms Hi) as [H2|(Hid & (l & lr & Hl & Hn & Hin) & mon & ms' & H2 & Hm)].
    + by apply B6.
    + right. split; [done|]. split; [exists l, lr; auto|].
      destruct (B6 i _ _ H2) as [H3|(_ & _ & mon' & ms'' & H3 & Hm')].
      * by exists mon, ms'.
      * exists mon', ms''. split; [done|]. simpl in Hm'. auto.
  - intros i pr ms Hi. destruct (B7 i pr ms Hi) as [(pr0 & ms0 & H2 & E1 & E2)|?]; [|by right].
    destruct (A7 i pr0 ms0 H2) as [(pr1 & ms1 & H1 & F1 & F2)|(l & Hl)].
    + left. exists pr1, ms1. by rewrite E1, E2.
    + right. exists l. by rewrite E1.
Qed.

Lemma port_step_own key id vip base proto port s s' :
  port_step id base proto port s s' → only_own key id vip s s'.
Proof.
  intros [H1 H2 H3 H4 H5 H6 H7]. unfold only_own. rewrite H1, H2, H3.
  split; [done|]. split; [done|]. split.
  - intros i l Hl. destruct (H5 i l Hl) as [?|[-> _]]; [by left|by right].
  - split; [|done]. intros i [pr ms] Hi Hn. by destruct (H6 i pr ms Hi) as [?|(? & _)].
Qed.

(** *** What the ports rely on

    On a Service's load balancer a listener's name says what it is, and a pool
    is for one listener: this reconciler makes no others. *)
Definition well_made (base : string) (s : LBState) : Prop :=
  (∀ i l proto port, s_listeners s !! i = Some l → proto ∈ protocols →
     lsr_Name l = port_name base proto port → lsr_Protocol l = proto ∧ lsr_ProtocolPort l = port) ∧
  (∀ i pr ms l1 l2, s_pools s !! i = Some (pr, ms) → l1 ∈ plr_Listeners pr → l2 ∈ plr_Listeners pr → l1 = l2) ∧
  s_listeners s !! "" = None.

Lemma port_name_inj base proto1 port1 proto2 port2 :
  proto1 ∈ protocols → proto2 ∈ protocols →
  port_name base proto1 port1 = port_name base proto2 port2 → proto1 = proto2 ∧ port1 = port2.
Proof.
  intros H1 H2 H. unfold port_name in H. apply (inj (String.append base)) in H.
  change ("_" +:+ ?x) with (String "_"%char x) in H. injection H as H.
  assert (∀ p, p ∈ protocols → no_char "_"%char (to_lower p) = true) as Hno.
  { intros p Hp. unfold protocols in Hp. rewrite !elem_of_cons, elem_of_nil in Hp.
    by destruct Hp as [->|[->|[->|[]]]]. }
  apply (sep_inj "_"%char) in H as [Hp Hz]; [|by apply Hno..].
  apply (inj pretty) in Hz. split; [|done].
  unfold protocols in H1, H2. rewrite !elem_of_cons, elem_of_nil in H1, H2.
  destruct H1 as [->|[->|[->|[]]]], H2 as [->|[->|[->|[]]]]; by vm_compute in Hp |- *.
Qed.

Lemma port_step_well_made id base proto port s s' :
  proto ∈ protocols → port_step id base proto port s s' → well_made base s → well_made base s'.
Proof.
  intros Hproto [_ _ _ _ H5 H6 H7] (W1 & W2 & W3). split; [|split].
  - intros i l proto' port' Hl Hp Hn. destruct (H5 i l Hl) as [Hold|[-> _]]; [by apply (W1 i l)|].
    simpl in Hn |- *. by apply port_name_inj in Hn as [-> ->].
  - intros i pr ms l1 l2 Hi. destruct (H7 i pr ms Hi) as [(pr0 & ms0 & H0 & -> & _)|(l & ->)].
    + intros Hl1 Hl2. by apply (W2 i pr0 ms0).
    + set_solver.
  - destruct (s_listeners s' !! "") as [l|] eqn:Hl; [|done].
    destruct (H5 "" l Hl) as [?|[_ ?]]; [congruence|done].
Qed.

(** A port is served: a listener for it on the load balancer, a monitored pool
    behind it, and in the pool the members wanted. *)
Definition serves_port (id base : string) (sp : ServicePort) (wanted : list MemberOpts) (s : LBState) : Prop :=
  ∃ l lr p pr ms,
    s_listeners s !! l = Some lr ∧ id ∈ lsr_Loadbalancers lr ∧
    lsr_Name lr = port_name base (proto_of sp) (sp_Port sp) ∧
    lsr_Protocol lr = proto_of sp ∧ lsr_ProtocolPort lr = sp_Port sp ∧
    s_pools s !! p = Some (pr, ms) ∧ id ∈ plr_Loadbalancers pr ∧ l ∈ plr_Listeners pr ∧
    plr_MonitorID pr ≠ "" ∧ pool_holds ms wanted.

(** Another port's step leaves it served. *)
Lemma serves_port_kept id id' base sp wanted proto port s s' :
  well_made base s → port_name base proto port ≠ port_name base (proto_of sp) (sp_Port sp) →
  port_step id' base proto port s s' → serves_port id base sp wanted s → serves_port id base sp wanted s'.
Proof.
  intros (_ & W2 & _) Hne [_ _ _ H4 _ H6 _] (l & lr & p & pr & ms & Hl & Hlb & Hn & Hpr & Hpo & Hp & Hplb & Hin & Hmon & Hms).
  exists l, lr, p, pr, ms. do 5 (split; [by auto|]). split; [|done].
  destruct (H6 p pr ms Hp) as [?|(_ & (l2 & lr2 & Hl2 & Hn2 & Hin2) & _)]; [done|].
  assert (l2 = l) as -> by by apply (W2 p pr ms). apply H4 in Hl. congruence.
Qed.

(** *** Each call is a step *)
Lemma listener_created_step id base proto port l s s' :
  listener_created (mkListenerOpts (port_name base proto port) proto port id no_options) l s s' →
  port_step id base proto port s s' ∧ s_listeners s' !! ls_ID l = Some (ls_row l) ∧
  ls_row l = listener_row id base proto port.
Proof.
  intros (Hnew & Hne & _ & _ & Hrow & _ & ->). simpl. rewrite lookup_insert_eq. split; [|done]. split; try done; simpl.
  - intros i l' Hl. rewrite lookup_insert_ne; [done|]. intros <-. by rewrite Hl in Hnew.
  - intros i l' Hl. apply lookup_insert_Some in Hl as [[<- <-]|[_ Hl]]; [by right|by left].
  - intros i pr ms Hi. by left.
  - intros i pr ms Hi. left. by exists pr, ms.
Qed.

Lemma pool_created_step id base proto port listener lr p s s' :
  s_listeners s !! listener = Some lr → id ∈ lsr_Loadbalancers lr → listener ≠ "" →
  pool_created (mkPoolOpts (port_name base proto port) proto LBMethodSourceIpPort listener "") p s s' →
  port_step id base proto port s s' ∧
  s_pools s' !! pl_ID p = Some (pl_row p, []) ∧ id ∈ plr_Loadbalancers (pl_row p) ∧
  listener ∈ plr_Listeners (pl_row p).
Proof.
  intros Hl Hid Hne (Hnew & _ & H). simpl in H. rewrite decide_False in H by done.
  destruct H as ((lr' & Hl' & Hrow) & ->). simpl in *. rewrite Hl in Hl'. injection Hl' as <-.
  rewrite lookup_insert_eq, Hrow. simpl. split; [|split; [done|split; [done|by left]]].
  split; try done; simpl.
  - intros i l Hi. by left.
  - intros i pr ms Hi. left. simpl. rewrite lookup_insert_ne; [done|]. intros <-. by rewrite Hi in Hnew.
  - intros i pr ms Hi. simpl in Hi. apply lookup_insert_Some in Hi as [[_ [= <- <-]]|[_ Hi]].
    + right. by exists listener.
    + left. by exists pr, ms.
Qed.

(** Changing one pool that listens for the port. *)
Lemma pool_changed_step id base proto port listener lr p pr ms mon ms' s s' :
  s_pools s !! p = Some (pr, ms) → id ∈ plr_Loadbalancers pr → listener ∈ plr_Listeners pr →
  s_listeners s !! listener = Some lr → lsr_Name lr = port_name base proto port →
  (plr_MonitorID pr ≠ "" → mon ≠ "") →
  s_lbs s' = s_lbs s → s_fips s' = s_fips s → s_services s' = s_services s →
  s_listeners s' = s_listeners s → s_pools s' = <[p := (monitored mon pr, ms')]> (s_pools s) →
  port_step id base proto port s s'.
Proof.
  intros Hp Hid Hin Hl Hn Hmon E1 E2 E3 E4 E5. split; try done.
  - by rewrite E4.
  - rewrite E4. by left.
  - intros i pr' ms0 Hi. rewrite E5. destruct (decide (p = i)) as [<-|Hne].
    + rewrite Hp in Hi. injection Hi as <- <-. right. rewrite lookup_insert_eq, E4.
      split; [done|]. split; [by exists listener, lr|]. by exists mon, ms'.
    + left. by rewrite lookup_insert_ne.
  - intros i pr' ms0. rewrite E5, lookup_insert_Some. intros [[<- [= <- <-]]|[_ Hi]]; left.
    + by exists pr, ms.
    + by exists pr', ms0.
Qed.

(** The address a Service should be known under: one on its load balancer's
    port when it is to be public, else the load balancer's own, with none left on
    the port. *)
Definition network_of (r : Reconciler) (svc : Service) : string :=
  if decide (annotation svc FloatingNetworkAnnotation ≠ "")
  then annotation svc FloatingNetworkAnnotation else rc_FloatingNetworkID r.
Definition exposed (r : Reconciler) (svc : Service) (row : LBRow) (address : string)
    (before after : gmap string FIPRow) : Prop :=
  if wantsPublicAddress svc (rc_PublicByDefault r) then
    ∃ i f, after !! i = Some f ∧ fr_PortID f = lr_VipPortID row ∧ address = fr_FloatingIP f ∧
      (before !! i = Some f ∨ fr_FloatingNetworkID f = network_of r svc)
  else address = lr_VipAddress row ∧
    (lr_VipPortID row ≠ "" → ∀ i f, after !! i = Some f → fr_PortID f ≠ lr_VipPortID row).

Section reconciler_facts.
Context {W : Type} {api : Octavia W} {clock : Clock W} {fips : FloatingIPs W} {services : ServicesAPI W}
  {subnets : SubnetResolver W} (view : W → LBState) (subnet_of : string → string → option string)
  `{!OctaviaLaws api view} `{!ClockLaws clock api view} `{!FloatingLaws fips view}
  `{!ServicesLaws services view} `{!SubnetLaws subnets view subnet_of}.
Variable r : Reconciler.

Lemma ensure_listener_runs lb base proto port s :
  runs view s (ensure_listener lb (port_name base proto port) proto port)
    (λ l s', port_step (lb_ID lb) base proto port s s' ∧ s_listeners s' !! ls_ID l = Some (ls_row l) ∧
       lsr_Name (ls_row l) = port_name base proto port ∧ lb_ID lb ∈ lsr_Loadbalancers (ls_row l))
    (λ _ s', port_step (lb_ID lb) base proto port s s').
Proof.
  unfold ensure_listener.
  eapply runs_try_bind; [apply (GetListenerByName_runs view)| |]; cbv beta.
  - intros l s' (-> & H1 & H2 & H3 & _). apply runs_ret. split; [apply port_step_refl|done].
  - intros e s' [-> _]. case_decide; [|apply runs_fail, port_step_refl].
    apply runs_wrap. unfold CreateListener.
    eapply runs_bind; [apply law_listeners_Create| |]; cbv beta.
    + intros e' s' [->|(l & Hl)]; [apply port_step_refl|]. by apply listener_created_step in Hl as [? _].
    + intros l s' (Hstep & Hl & Hrow)%listener_created_step. apply (WaitActive_then view).
      * split; [done|]. split; [done|]. rewrite Hrow. simpl. split; [done|]. by left.
      * by intros _.
Qed.

Lemma ensure_pool_runs lb base proto port l s :
  s_listeners s !! ls_ID l = Some (ls_row l) → lb_ID lb ∈ lsr_Loadbalancers (ls_row l) → ls_ID l ≠ "" →
  runs view s (ensure_pool lb (port_name base proto port) proto l)
    (λ p s', port_step (lb_ID lb) base proto port s s' ∧
       (∃ ms, s_pools s' !! pl_ID p = Some (pl_row p, ms)) ∧
       lb_ID lb ∈ plr_Loadbalancers (pl_row p) ∧ ls_ID l ∈ plr_Listeners (pl_row p))
    (λ _ s', port_step (lb_ID lb) base proto port s s').
Proof.
  intros Hl Hid Hne. unfold ensure_pool.
  eapply runs_try_bind; [apply (GetPoolByListener_runs view)| |]; cbv beta.
  - intros p s' (-> & H1 & H2 & H3). apply runs_ret. split; [apply port_step_refl|done].
  - intros e s' [-> _]. case_decide; [|apply runs_fail, port_step_refl].
    apply runs_wrap. unfold CreatePool.
    eapply runs_bind; [apply law_pools_Create| |]; cbv beta.
    + intros e' s' [->|(p & Hp)]; [apply port_step_refl|].
      by eapply pool_created_step in Hp as [? _].
    + intros p s' Hp. eapply pool_created_step in Hp as (Hstep & Hrow & Hlb & Hin); [|done..].
      apply (WaitActive_then view); [|by intros _]. split; [done|]. split; [by exists []|done].
Qed.

Lemma ensure_monitor_runs lb base proto port p listener lr ms s :
  s_pools s !! pl_ID p = Some (pl_row p, ms) → lb_ID lb ∈ plr_Loadbalancers (pl_row p) →
  listener ∈ plr_Listeners (pl_row p) →
  s_listeners s !! listener = Some lr → lsr_Name lr = port_name base proto port →
  runs view s (ensure_monitor lb (port_name base proto port) proto p)
    (λ _ s', port_step (lb_ID lb) base proto port s s' ∧
       ∃ mon, mon ≠ "" ∧ s_pools s' !! pl_ID p = Some (monitored mon (pl_row p), ms))
    (λ _ s', port_step (lb_ID lb) base proto port s s').
Proof.
  intros Hp Hid Hin Hl Hn. unfold ensure_monitor. case_decide as Hm.
  2: { apply runs_ret. split; [apply port_step_refl|]. exists (plr_MonitorID (pl_row p)).
       by rewrite monitored_id. }
  assert (∀ o id s', monitor_created o id s s' → mno_PoolID o = pl_ID p →
    port_step (lb_ID lb) base proto port s s' ∧
    ∃ mon, mon ≠ "" ∧ s_pools s' !! pl_ID p = Some (monitored mon (pl_row p), ms)) as Hmade.
  { intros o id s' (Hne & _ & _ & ->) Ho. rewrite Ho. split.
    - eapply (pool_changed_step _ _ _ _ listener lr (pl_ID p) (pl_row p) ms id ms); try done.
      simpl. apply map_eq. intros i. destruct (decide (pl_ID p = i)) as [<-|?].
      + by rewrite lookup_alter_eq, lookup_insert_eq, Hp.
      + by rewrite lookup_alter_ne, lookup_insert_ne.
    - exists id. split; [done|]. simpl. by rewrite lookup_alter_eq, Hp. }
  eapply runs_bind_wrap.
  - unfold CreateHealthMonitor. eapply (runs_bind _ _ _ _ _ _ _
      (λ _ s', port_step (lb_ID lb) base proto port s s')); [apply law_monitors_Create| |]; cbv beta.
    + intros e s' [->|(m & H)]; [apply port_step_refl|]. exact (proj1 (Hmade _ _ _ H eq_refl)).
    + intros m s' H. apply (WaitActive_then view).
      * instantiate (1 := λ _ s', port_step (lb_ID lb) base proto port s s' ∧
          ∃ mon, mon ≠ "" ∧ s_pools s' !! pl_ID p = Some (monitored mon (pl_row p), ms)).
        exact (Hmade _ _ _ H eq_refl).
      * intros _. exact (proj1 (Hmade _ _ _ H eq_refl)).
  - done.
  - intros m s' H. by apply runs_ret.
Qed.

(** The members a port should have, and that no two of them are one. *)
Definition wanted_members (slices : list EndpointSlice) (vip : string) (sp : ServicePort)
    (ms : list MemberOpts) : Prop :=
  Forall2 (member_for subnet_of sp) (serving slices sp (family_of vip)) ms.
Definition distinct_members (slices : list EndpointSlice) (vip : string) (sp : ServicePort) : Prop :=
  ∀ ms, wanted_members slices vip sp ms → NoDup (map desired_key ms).

Lemma ensurePort_runs svc lb slices sp s :
  let base := lbName r (sv_Namespace svc) (sv_Name svc) in
  let step := port_step (lb_ID lb) base (proto_of sp) (sp_Port sp) in
  let vip := lr_VipAddress (lb_row lb) in
  well_made base s → distinct_members slices vip sp →
  runs view s (ensurePort r svc lb slices sp)
    (λ _ s', step s s' ∧ proto_of sp ∈ protocols ∧
       ∃ ms, wanted_members slices vip sp ms ∧ serves_port (lb_ID lb) base sp ms s')
    (λ _ s', step s s' ∧ (s' = s ∨ proto_of sp ∈ protocols)).
Proof.
  intros base step vip Hwell Hdist. unfold ensurePort. fold base.
  destruct (decide _) as [_|Hproto]; [apply runs_fail; split; [apply port_step_refl|by left]|].
  assert (proto_of sp ∈ protocols) as Hp.
  { unfold protocols. rewrite !elem_of_cons, elem_of_nil. destruct (decide (proto_of sp = "TCP")); [by left|].
    destruct (decide (proto_of sp = "UDP")); [by right; left|].
    destruct (decide (proto_of sp = "SCTP")); [by right; right; left|]. by destruct Hproto. }
  assert (∀ (e : gerror) s', step s s' → step s s' ∧ (s' = s ∨ proto_of sp ∈ protocols)) as HE
    by (intros; split; [done|by right]).
  eapply runs_bind; [apply (ensure_listener_runs lb base (proto_of sp) (sp_Port sp))|exact HE|]; cbv beta.
  intros l s1 (Hs1 & Hl & Hname & Hlb).
  assert (ls_ID l ≠ "") as Hlne.
  { intros He. destruct (port_step_well_made _ _ _ _ _ _ Hp Hs1 Hwell) as (_ & _ & W3). congruence. }
  eapply runs_bind; [by apply (ensure_pool_runs lb base (proto_of sp) (sp_Port sp))| |]; cbv beta.
  { intros e s' H. apply HE; [exact e|]. by eapply port_step_trans. }
  intros p s2 (Hs2 & (ms & Hpool) & Hplb & Hin).
  assert (step s s2) as H2 by by eapply port_step_trans.
  assert (s_listeners s2 !! ls_ID l = Some (ls_row l)) as Hl2 by by apply (ps_kept _ _ _ _ _ _ Hs2).
  eapply runs_bind; [by eapply (ensure_monitor_runs lb base (proto_of sp) (sp_Port sp))| |]; cbv beta.
  { intros e s' H. apply HE; [exact e|]. by eapply port_step_trans. }
  intros _ s3 (Hs3 & mon & Hmon & Hpool3).
  assert (step s s3) as H3 by by eapply port_step_trans.
  assert (s_listeners s3 !! ls_ID l = Some (ls_row l)) as Hl3 by by apply (ps_kept _ _ _ _ _ _ Hs3).
  eapply runs_bind; [apply (BuildMembers_runs view subnet_of)| |]; cbv beta.
  { intros e s' [-> _]. by apply (HE e). }
  intros members s' [-> Hmembers].
  assert (∀ l', port_step (lb_ID lb) base (proto_of sp) (sp_Port sp) s
    (set_pools <[pl_ID p := (monitored mon (pl_row p), l')]> s3)) as Hset.
  { intros l'. eapply port_step_trans; [exact H3|].
    eapply (pool_changed_step _ _ _ _ (ls_ID l) (ls_row l) (pl_ID p) (monitored mon (pl_row p)) ms mon l');
      try done. }
  apply runs_wrap. eapply runs_conseq.
  - eapply (SetPoolMembers_runs view); [exact Hpool3|by apply Hdist].
  - cbv beta. intros _ s' (l' & Hholds & ->). split; [apply Hset|]. split; [done|].
    exists members. split; [done|].
    destruct (port_step_well_made _ _ _ _ _ _ Hp H3 Hwell) as (W1 & _).
    destruct (W1 _ _ _ _ Hl3 Hp Hname) as [Hpr Hpo].
    exists (ls_ID l), (ls_row l), (pl_ID p), (monitored mon (pl_row p)), l'.
    simpl. rewrite lookup_insert_eq. done.
  - cbv beta. intros e s' [->|(l' & ->)]; apply (HE e); [exact H3|apply Hset].
Qed.

(** All the ports: each is served at the end, since no two share a name. *)
Definition port_id (sp : ServicePort) : string * Z := (proto_of sp, sp_Port sp).

Lemma ensurePorts_runs key vip_port svc lb slices ports s :
  let base := lbName r (sv_Namespace svc) (sv_Name svc) in
  let vip := lr_VipAddress (lb_row lb) in
  well_made base s → NoDup (map port_id ports) → (∀ sp, sp ∈ ports → distinct_members slices vip sp) →
  runs view s (for_each ports (ensurePort r svc lb slices))
    (λ _ s', only_own key (lb_ID lb) vip_port s s' ∧ s_lbs s' = s_lbs s ∧ s_fips s' = s_fips s ∧
       s_services s' = s_services s ∧
       ∀ sp, sp ∈ ports → ∃ ms, wanted_members slices vip sp ms ∧ serves_port (lb_ID lb) base sp ms s')
    (λ _ s', only_own key (lb_ID lb) vip_port s s' ∧ s_lbs s' = s_lbs s).
Proof.
  intros base vip Hwell Hnd Hdist.
  eapply runs_conseq; [apply (runs_for_each _ (λ pre s', well_made base s' ∧
    only_own key (lb_ID lb) vip_port s s' ∧ s_lbs s' = s_lbs s ∧ s_fips s' = s_fips s ∧
    s_services s' = s_services s ∧
    ∀ sp, sp ∈ pre → proto_of sp ∈ protocols ∧
      ∃ ms, wanted_members slices vip sp ms ∧ serves_port (lb_ID lb) base sp ms s') ports _
    (λ _ s', only_own key (lb_ID lb) vip_port s s' ∧ s_lbs s' = s_lbs s))| |]; cbv beta.
  - split; [done|]. split; [apply only_own_refl|]. do 3 (split; [done|]). intros sp Hsp. by apply elem_of_nil in Hsp.
  - intros pre sp post s' Heq (Hw & Hown & E1 & E2 & E3 & Hpre).
    assert (sp ∈ ports) as Hin by (rewrite Heq; set_solver).
    eapply runs_conseq; [apply (ensurePort_runs svc lb slices sp s' Hw (Hdist sp Hin))| |]; cbv beta.
    + intros _ s2 (Hstep & Hproto & Hserved). fold base in Hstep, Hserved.
      split; [by eapply port_step_well_made|].
      split; [eapply only_own_trans; [exact Hown|by eapply port_step_own]|].
      split; [rewrite <-E1; apply Hstep|]. split; [rewrite <-E2; apply Hstep|].
      split; [rewrite <-E3; apply Hstep|].
      intros sp' [Hsp'| ->%list_elem_of_singleton]%elem_of_app; [|done].
      destruct (Hpre sp' Hsp') as (Hproto' & ms & Hms & Hserve). split; [done|]. exists ms. split; [done|].
      eapply serves_port_kept; [exact Hw| |exact Hstep|exact Hserve].
      intros Hn. apply port_name_inj in Hn as [Hn1 Hn2]; [|done..].
      assert (port_id sp = port_id sp') as Hid by (unfold port_id; congruence).
      rewrite Heq, map_app in Hnd. apply NoDup_app in Hnd as (_ & Hnd & _).
      apply (Hnd (port_id sp')); [by apply list_elem_of_fmap_2|]. rewrite <-Hid. by left.
    + intros e s2 [Hstep _]. split; [|rewrite <-E1; apply Hstep].
      eapply only_own_trans; [exact Hown|by eapply port_step_own].
  - intros _ s' (_ & Hown & E1 & E2 & E3 & Hp). do 4 (split; [done|]). intros sp Hsp. by apply Hp.
  - done.
Qed.

(** *** Writing to the Service *)

(** At most the Service has been written, each time from its last revision. *)
Definition service_written (key : string * string) (s s' : LBState) : Prop :=
  s' = s ∨ ∃ cur cur', s_services s !! key = Some cur ∧ s' = set_services <[key := cur']> s ∧
    (sv_ResourceVersion cur < sv_ResourceVersion cur')%Z.

Lemma service_written_trans key s1 s2 s3 :
  service_written key s1 s2 → service_written key s2 s3 → service_written key s1 s3.
Proof.
  intros [->|(c & c' & Hc & -> & Hv)]; [done|]. intros [->|(d & d' & Hd & -> & Hv')]; right.
  - by exists c, c'.
  - exists c, d'. simpl in Hd. rewrite lookup_insert_eq in Hd. injection Hd as <-.
    split; [done|]. split; [|lia]. unfold set_services. simpl. by rewrite insert_insert_eq.
Qed.

Lemma service_written_own key id port s s' : service_written key s s' → only_own key id port s s'.
Proof.
  intros [->|(c & c' & _ & -> & _)]; [apply only_own_refl|]. unfold only_own. simpl.
  do 2 (split; [done|]). split; [by left|]. do 2 (split; [done|]).
  intros k Hk. by rewrite lookup_insert_ne.
Qed.

Lemma service_updated_written svc fresh s s' :
  service_updated svc fresh s s' → service_written (sv_key svc) s s'.
Proof. intros (cur & v & Hc & _ & Hv & _ & -> & ->). right. exists cur. by eexists. Qed.
Lemma status_updated_written svc fresh s s' :
  status_updated svc fresh s s' → service_written (sv_key svc) s s'.
Proof. intros (cur & v & Hc & _ & Hv & _ & -> & ->). right. exists cur. by eexists. Qed.

(** The same Service, but for annotations and status. *)
Definition same_spec (svc svc' : Service) : Prop :=
  sv_key svc' = sv_key svc ∧ sv_Type svc' = sv_Type svc ∧ sv_Ports svc' = sv_Ports svc ∧
  sv_ClusterIP svc' = sv_ClusterIP svc.
(** [cur] is what is stored under the key of [svc]: [svc] itself, or something
    written after it was read. *)
Definition read_or_stale (svc cur : Service) : Prop :=
  sv_ResourceVersion svc ≠ 0%Z ∧ (cur = svc ∨ (sv_ResourceVersion svc < sv_ResourceVersion cur)%Z).

Lemma not_stale svc cur :
  read_or_stale svc cur →
  sv_ResourceVersion svc = 0%Z ∨ sv_ResourceVersion svc = sv_ResourceVersion cur → cur = svc.
Proof. intros [H0 [->|Hlt]] [?|?]; [done..|lia]. Qed.

Lemma publishStatus_runs svc address cur s :
  s_services s !! sv_key svc = Some cur → read_or_stale svc cur →
  runs view s (publishStatus svc address)
    (λ _ s', service_written (sv_key svc) s s' ∧
       ((cur = svc ∧ ∃ svc', s_services s' !! sv_key svc = Some svc' ∧
           sv_Annotations svc' = sv_Annotations svc ∧ same_spec svc svc' ∧
           (sv_Type svc = ServiceTypeLoadBalancer → sv_Ingress svc' = [address])) ∨
        (s' = s ∧ (sv_Type svc = ServiceTypeLoadBalancer → sv_Ingress svc = [address]))))
    (λ _ s', service_written (sv_key svc) s s').
Proof.
  intros Hcur Hread. unfold publishStatus. case_decide as Hty.
  { apply runs_ret. split; [by left|]. by right. }
  case_decide as Hin; [apply runs_ret; split; [by left|by right]|].
  eapply runs_bind; [apply law_UpdateStatus| |]; cbv beta.
  { intros e s' [->|(fr & H)]; [by left|]. by apply status_updated_written in H. }
  intros fr s' Hup. apply runs_ret. split; [by apply status_updated_written in Hup|].
  destruct Hup as (c & v & Hc & _ & _ & Hm & -> & ->).
  change (sv_key (with_ingress [address] svc)) with (sv_key svc) in *.
  rewrite Hcur in Hc. injection Hc as <-. left.
  assert (cur = svc) as -> by by apply not_stale. split; [done|].
  eexists. simpl. rewrite lookup_insert_eq. by repeat split.
Qed.

(** What a published Service looks like beside the one it was read as. *)
Definition published (svc : Service) (address : string) (svc' : Service) : Prop :=
  annotation svc' AddressAnnotation = address ∧
  (∀ k, k ≠ AddressAnnotation → annotation svc' k = annotation svc k) ∧
  same_spec svc svc' ∧ (sv_Type svc = ServiceTypeLoadBalancer → sv_Ingress svc' = [address]).

Lemma annotation_set k v svc k' :
  annotation (with_annotation k v svc) k' = if decide (k = k') then v else annotation svc k'.
Proof.
  unfold annotation. simpl. case_decide as Hk.
  - subst. by rewrite lookup_insert_eq.
  - by rewrite lookup_insert_ne.
Qed.

Lemma publishAddress_runs svc address cur s :
  s_services s !! sv_key svc = Some cur → read_or_stale svc cur →
  runs view s (publishAddress svc address)
    (λ _ s', service_written (sv_key svc) s s' ∧
       ((cur = svc ∧ ∃ svc', s_services s' !! sv_key svc = Some svc' ∧ published svc address svc') ∨
        (s' = s ∧ annotation svc AddressAnnotation = address ∧
         (sv_Type svc = ServiceTypeLoadBalancer → sv_Ingress svc = [address]))))
    (λ _ s', service_written (sv_key svc) s s').
Proof.
  intros Hcur Hread. unfold publishAddress. case_decide as Haddr.
  - eapply runs_bind; [apply law_Update| |]; cbv beta.
    { intros e s' [->|(fresh & H)]; [by left|]. by apply service_updated_written in H. }
    intros fresh s1 Hup. pose proof (service_updated_written _ _ _ _ Hup) as Hw1.
    destruct Hup as (c & v & Hc & Hv0 & Hv & Hm & -> & ->).
    change (sv_key (with_annotation AddressAnnotation address svc)) with (sv_key svc) in *.
    rewrite Hcur in Hc. injection Hc as <-. assert (cur = svc) as -> by by apply not_stale.
    eapply runs_conseq.
    + eapply publishStatus_runs; [by apply lookup_insert_eq|]. split; [simpl; lia|by left].
    + cbv beta. intros _ s2 [Hw2 Hst]. split; [by eapply service_written_trans|]. left. split; [done|].
      assert (∀ svc', sv_Annotations svc' = <[AddressAnnotation := address]> (sv_Annotations svc) →
        annotation svc' AddressAnnotation = address ∧
        ∀ k, k ≠ AddressAnnotation → annotation svc' k = annotation svc k) as Hann.
      { intros svc' Ha. assert (∀ k, annotation svc' k = annotation (with_annotation AddressAnnotation address svc) k)
          as Hk by (intros k; unfold annotation; by rewrite Ha).
        split; [by rewrite Hk, annotation_set, decide_True|]. intros k Hne.
        by rewrite Hk, annotation_set, decide_False. }
      destruct Hst as [(_ & svc' & Hs' & Ha & Hsame & Hin)|[-> Hin]].
      * exists svc'. split; [exact Hs'|]. destruct (Hann svc' Ha) as [H1 H2]. done.
      * eexists. split; [apply lookup_insert_eq|].
        destruct (Hann (with_version v (with_ingress (sv_Ingress svc)
          (with_annotation AddressAnnotation address svc))) eq_refl) as [H1 H2].
        split; [exact H1|]. split; [exact H2|]. split; [by repeat split|exact Hin].
    + cbv beta. intros e s2 Hw2. by eapply service_written_trans.
  - eapply runs_bind; [by apply (runs_ret _ _ _ (λ x s', x = svc ∧ s' = s) (λ _ _, False))|done|].
    cbv beta. intros x s1 [-> ->].
    eapply runs_conseq; [by eapply publishStatus_runs| |done]; cbv beta.
    intros _ s' [Hw [(-> & svc' & Hs' & Ha & Hsame & Hin)|[-> Hin]]]; (split; [done|]); [left|by right].
    split; [done|]. exists svc'. split; [done|].
    assert (∀ k, annotation svc' k = annotation svc k) as Hk by (intros k; unfold annotation; by rewrite Ha).
    split; [by rewrite Hk|]. split; [intros k _; apply Hk|done].
Qed.

(** *** The load balancer *)

(** What a Service is after its load balancer's id was recorded on it, if it was
    not there already. *)
Definition id_recorded (svc : Service) (id : string) (cur : Service) : Prop :=
  read_or_stale svc cur ∧ annotation cur lbIDAnnotation = id ∧
  (∀ k, k ≠ lbIDAnnotation → annotation cur k = annotation svc k) ∧
  same_spec svc cur ∧ sv_Ingress cur = sv_Ingress svc.

Lemma recordLoadBalancerID_runs svc id cur s :
  s_services s !! sv_key svc = Some cur → read_or_stale svc cur →
  runs view s (recordLoadBalancerID svc id)
    (λ _ s', service_written (sv_key svc) s s' ∧
       ((annotation svc lbIDAnnotation = id ∧ s' = s) ∨
        (cur = svc ∧ ∃ cur', s_services s' !! sv_key svc = Some cur' ∧ id_recorded svc id cur')))
    (λ _ s', service_written (sv_key svc) s s').
Proof.
  intros Hcur Hread. unfold recordLoadBalancerID. case_decide as Hid.
  { apply runs_ret. split; [by left|by left]. }
  eapply runs_bind; [apply law_Update| |]; cbv beta.
  { intros e s' [->|(fresh & H)]; [by left|]. by apply service_updated_written in H. }
  intros fresh s' Hup. apply runs_ret. split; [by apply service_updated_written in Hup|]. right.
  destruct Hup as (c & v & Hc & Hv0 & Hv & Hm & -> & ->).
  change (sv_key (with_annotation lbIDAnnotation id svc)) with (sv_key svc) in *.
  rewrite Hcur in Hc. injection Hc as <-. assert (cur = svc) as -> by by apply not_stale.
  split; [done|]. eexists. split; [apply lookup_insert_eq|].
  assert (∀ k, annotation (with_version v (with_ingress (sv_Ingress svc) (with_annotation lbIDAnnotation id svc))) k
    = annotation (with_annotation lbIDAnnotation id svc) k) as Hann by done.
  split; [destruct Hread; split; [done|right; simpl; lia]|].
  split; [by rewrite Hann, annotation_set, decide_True|].
  split; [intros k Hk; by rewrite Hann, annotation_set, decide_False|]. by repeat split.
Qed.

(** The Service's own load balancer: the one it has recorded, or one of the name
    derived from it. *)
Definition own_lb (svc : Service) (id : string) (row : LBRow) : Prop :=
  id = annotation svc lbIDAnnotation ∨ lr_Name row = lbName r (sv_Namespace svc) (sv_Name svc).

Definition lb_ready (svc : Service) (lb : LoadBalancer) (s s' : LBState) : Prop :=
  only_own (sv_key svc) (lb_ID lb) (lr_VipPortID (lb_row lb)) s s' ∧
  s_lbs s' !! lb_ID lb = Some (lb_row lb) ∧ s_listeners s' = s_listeners s ∧
  s_pools s' = s_pools s ∧ s_fips s' = s_fips s ∧ own_lb svc (lb_ID lb) (lb_row lb) ∧
  ∃ cur, s_services s' !! sv_key svc = Some cur ∧ id_recorded svc (lb_ID lb) cur.

(** A pass that failed, and what it may have done: nothing, or something to the
    Service's own load balancer. *)
Definition failed_pass (svc : Service) (s s' : LBState) : Prop :=
  s' = s ∨ ∃ id row, s_lbs s' !! id = Some row ∧ own_lb svc id row ∧
    only_own (sv_key svc) id (lr_VipPortID row) s s'.

Lemma id_recorded_self svc :
  sv_ResourceVersion svc ≠ 0%Z → id_recorded svc (annotation svc lbIDAnnotation) svc.
Proof. intros H. split; [by split; [|left]|]. by repeat split. Qed.

Lemma service_written_lookup key s s' cur :
  service_written key s s' → s_services s !! key = Some cur →
  ∃ cur', s_services s' !! key = Some cur' ∧ (cur' = cur ∨ (sv_ResourceVersion cur < sv_ResourceVersion cur')%Z).
Proof.
  intros [->|(c & c' & Hc & -> & Hv)] Hcur; [exists cur; auto|].
  rewrite Hcur in Hc. injection Hc as <-. exists c'. simpl. rewrite lookup_insert_eq. auto.
Qed.

Lemma service_written_same key s s' :
  service_written key s s' →
  s_lbs s' = s_lbs s ∧ s_listeners s' = s_listeners s ∧ s_pools s' = s_pools s ∧ s_fips s' = s_fips s.
Proof. by intros [->|(c & c' & _ & -> & _)]. Qed.

(** From a load balancer that is there, settled and recorded. *)
Lemma settle_runs svc lb cur s1 s :
  s_services s1 !! sv_key svc = Some cur → read_or_stale svc cur →
  s_lbs s1 !! lb_ID lb = Some (lb_row lb) →
  only_own (sv_key svc) (lb_ID lb) (lr_VipPortID (lb_row lb)) s s1 →
  s_listeners s1 = s_listeners s → s_pools s1 = s_pools s → s_fips s1 = s_fips s →
  (annotation svc lbIDAnnotation = lb_ID lb → cur = svc) →
  lr_Name (lb_row lb) = lbName r (sv_Namespace svc) (sv_Name svc) →
  runs view s1 (lb' ← WaitActive (lb_ID lb);
                recordLoadBalancerID svc (lb_ID lb') ≫= λ _, mret lb')
    (λ lb' s', lb_ready svc lb' s s') (λ _ s', failed_pass svc s s').
Proof.
  intros Hcur Hread Hlb Hown E1 E2 E3 Hann Hname.
  eapply runs_bind; [apply (WaitActive_runs view)| |]; cbv beta.
  { intros e s' ->. right. exists (lb_ID lb), (lb_row lb). by split; [|split; [right|]]. }
  intros lb' s' (-> & Hid & Hlb' & _). rewrite Hlb in Hlb'. injection Hlb' as Hrow.
  assert (∀ s2, service_written (sv_key svc) s1 s2 →
    only_own (sv_key svc) (lb_ID lb) (lr_VipPortID (lb_row lb)) s s2) as Hown2
    by (intros s2 Hw; eapply only_own_trans; [exact Hown|by apply service_written_own]).
  eapply runs_bind; [by eapply recordLoadBalancerID_runs| |]; cbv beta.
  { intros e s2 Hw. right. exists (lb_ID lb), (lb_row lb).
    split; [|split; [by right|by apply Hown2]].
    destruct (service_written_same _ _ _ Hw) as (-> & _). done. }
  intros _ s2 [Hw Hrec]. apply runs_ret. destruct (service_written_same _ _ _ Hw) as (F1 & F2 & F3 & F4).
  unfold lb_ready. rewrite Hid, <-Hrow, F1, F2, F3, F4. split; [by apply Hown2|].
  do 4 (split; [done|]). split; [by right|]. rewrite Hid in Hrec.
  destruct Hrec as [[Ha ->]|(-> & cur' & Hcur' & Hr)]; [|by exists cur'].
  exists cur. split; [done|]. rewrite (Hann Ha), <-Ha. apply id_recorded_self. by destruct Hread.
Qed.

Lemma ensure_by_name_runs svc s :
  s_services s !! sv_key svc = Some svc → sv_ResourceVersion svc ≠ 0%Z →
  runs view s (ensure_by_name r svc) (λ lb s', lb_ready svc lb s s') (λ _ s', failed_pass svc s s').
Proof.
  intros Hcur Hver. unfold ensure_by_name.
  assert (lbName r (sv_Namespace svc) (sv_Name svc) ≠ "") as Hne by done.
  set (created lb s1 := lb_created (mkLBOpts (lbName r (sv_Namespace svc) (sv_Name svc))
    ("kubezun Service " +:+ sv_Namespace svc +:+ "/" +:+ sv_Name svc) (rc_VIPSubnetID r) ovnProvider) lb s s1).
  assert (∀ lb s1, created lb s1 →
    s_lbs s1 !! lb_ID lb = Some (lb_row lb) ∧
    only_own (sv_key svc) (lb_ID lb) (lr_VipPortID (lb_row lb)) s s1 ∧
    s_listeners s1 = s_listeners s ∧ s_pools s1 = s_pools s ∧ s_fips s1 = s_fips s ∧
    s_services s1 = s_services s ∧ annotation svc lbIDAnnotation ≠ lb_ID lb ∧
    lr_Name (lb_row lb) = lbName r (sv_Namespace svc) (sv_Name svc)) as Hmade.
  { intros lb s1 (Hnew & Hidne & _ & _ & Hsv & _ & (address & port & Hrow & _) & ->). simpl.
    split; [apply lookup_insert_eq|]. split.
    - unfold only_own. simpl. split; [intros i Hi; by rewrite lookup_insert_ne|].
      split; [done|]. split; [by left|]. done.
    - do 4 (split; [done|]). split; [|by rewrite Hrow].
      unfold annotation. destruct (sv_Annotations svc !! lbIDAnnotation) as [a|] eqn:Ha; simpl; [|done].
      intros ->. by apply (Hsv (sv_key svc) svc lbIDAnnotation Hcur). }
  eapply (runs_bind _ _ _ _ (λ lb s1, ∃ cur, s_services s1 !! sv_key svc = Some cur ∧
    read_or_stale svc cur ∧ s_lbs s1 !! lb_ID lb = Some (lb_row lb) ∧
    only_own (sv_key svc) (lb_ID lb) (lr_VipPortID (lb_row lb)) s s1 ∧
    s_listeners s1 = s_listeners s ∧ s_pools s1 = s_pools s ∧ s_fips s1 = s_fips s ∧
    (annotation svc lbIDAnnotation = lb_ID lb → cur = svc) ∧
    lr_Name (lb_row lb) = lbName r (sv_Namespace svc) (sv_Name svc)) _ (λ _ s', failed_pass svc s s'));
    [|done|].
  2: { intros lb s1 (cur & H1 & H2 & H3 & H4 & H5 & H6 & H7 & H8 & H9). by eapply settle_runs. }
  unfold find_or_create. eapply runs_try_bind; [by apply (GetLoadBalancerByName_runs view)| |]; cbv beta.
  - intros lb s' (-> & Hlb & Hname & _). apply runs_ret. exists svc.
    split; [done|]. split; [by split; [|left]|]. split; [done|]. split; [apply only_own_refl|done].
  - intros e s' [-> _]. case_decide; [|by apply runs_fail; left].
    eapply runs_bind_wrap; [apply law_lb_Create| |]; cbv beta.
    { intros e' s' [->|(lb & Hlb)]; [by left|]. right.
      apply Hmade in Hlb as (H1 & H2 & _ & _ & _ & _ & _ & H8).
      exists (lb_ID lb), (lb_row lb). by split; [|split; [right|]]. }
    intros lb s1 Hlb. apply Hmade in Hlb as (H1 & H2 & H3 & H4 & H5 & H6 & H7 & H8).
    assert (∀ s2, service_written (sv_key svc) s1 s2 →
      ∃ cur, s_services s2 !! sv_key svc = Some cur ∧ read_or_stale svc cur ∧
        s_lbs s2 !! lb_ID lb = Some (lb_row lb) ∧
        only_own (sv_key svc) (lb_ID lb) (lr_VipPortID (lb_row lb)) s s2 ∧
        s_listeners s2 = s_listeners s ∧ s_pools s2 = s_pools s ∧ s_fips s2 = s_fips s ∧
        (annotation svc lbIDAnnotation = lb_ID lb → cur = svc) ∧
        lr_Name (lb_row lb) = lbName r (sv_Namespace svc) (sv_Name svc)) as Hgo.
    { intros s2 Hw. destruct (service_written_lookup _ _ _ svc Hw) as (cur & Hc & Hlater); [by rewrite H6|].
      destruct (service_written_same _ _ _ Hw) as (-> & -> & -> & ->).
      exists cur. split; [done|]. split; [by split|]. split; [done|].
      split; [eapply only_own_trans; [exact H2|by apply service_written_own]|]. done. }
    eapply runs_try_bind.
    + eapply (publishAddress_runs svc _ svc); [by rewrite H6|by split; [|left]].
    + intros _ s2 [Hw _]. apply runs_ret. by apply Hgo.
    + intros e' s2 Hw. apply runs_ret. by apply Hgo.
Qed.

Lemma ensureLoadBalancer_runs svc s :
  s_services s !! sv_key svc = Some svc → sv_ResourceVersion svc ≠ 0%Z →
  runs view s (ensureLoadBalancer r svc) (λ lb s', lb_ready svc lb s s') (λ _ s', failed_pass svc s s').
Proof.
  intros Hcur Hver. unfold ensureLoadBalancer. case_decide; [by apply ensure_by_name_runs|].
  eapply runs_try_bind; [apply (GetLoadBalancerByID_runs view)| |]; cbv beta.
  - intros lb s' (-> & Hid & Hlb).
    eapply runs_conseq; [apply (WaitActive_runs view)| |by intros e s' ->; left]; cbv beta.
    intros lb' s' (-> & Hid' & Hlb' & _). unfold lb_ready. rewrite Hid' at 2.
    split; [apply only_own_refl|]. split; [done|]. do 3 (split; [done|]).
    split; [left; congruence|]. exists svc. split; [done|]. rewrite Hid', Hid. by apply id_recorded_self.
  - intros e s' [-> _]. case_decide; [by apply ensure_by_name_runs|by apply runs_fail; left].
Qed.

(** *** The address *)
Lemma fips_changed_own key id port fm s :
  (∀ i f, s_fips s !! i = Some f → fr_PortID f ≠ port → fm !! i = Some f) →
  only_own key id port s (set_fips (λ _, fm) s).
Proof. intros H. unfold only_own. simpl. do 2 (split; [done|]). split; [by left|]. done. Qed.

Lemma set_fips_const f s : set_fips f s = set_fips (λ _, f (s_fips s)) s.
Proof. done. Qed.

Definition fips_only (s s' : LBState) : Prop :=
  s_lbs s' = s_lbs s ∧ s_listeners s' = s_listeners s ∧ s_pools s' = s_pools s ∧
  s_services s' = s_services s.

Lemma public_address_runs svc lb s :
  let own := only_own (sv_key svc) (lb_ID lb) (lr_VipPortID (lb_row lb)) s in
  one_fip_per_port (s_fips s) →
  runs view s (public_address r svc lb)
    (λ address s', own s' ∧ fips_only s s' ∧ exposed r svc (lb_row lb) address (s_fips s) (s_fips s'))
    (λ _ s', own s' ∧ fips_only s s').
Proof.
  intros own Hone. unfold public_address, exposed.
  assert (∀ network f s', fip_created (mkFIPOpts network (lr_VipPortID (lb_row lb)) "") f s s' →
    own s' ∧ fips_only s s' ∧ s_fips s' !! fip_ID f = Some (fip_row f) ∧
    fr_PortID (fip_row f) = lr_VipPortID (lb_row lb) ∧ fr_FloatingNetworkID (fip_row f) = network) as Hmade.
  { intros network f s' (Hnew & (address & _ & Hrow) & ->). rewrite set_fips_const. split.
    - apply fips_changed_own. intros i g Hi _. rewrite lookup_insert_ne; [done|].
      intros <-. by rewrite Hi in Hnew.
    - split; [done|]. simpl. by rewrite lookup_insert_eq, Hrow. }
  assert (own s ∧ fips_only s s) as Hs by (split; [apply only_own_refl|done]).
  destruct (wantsPublicAddress _ _).
  - fold (network_of r svc). eapply runs_conseq; [apply (ensureFloatingIP_runs view)| |]; cbv beta.
    + intros a s' [(-> & i & f & Hi & Hp & ->)|(_ & f & Hf & ->)].
      * split; [apply Hs|]. split; [done|]. exists i, f. auto.
      * apply Hmade in Hf as (H1 & H2 & H3 & H4 & H5). split; [done|]. split; [done|].
        exists (fip_ID f), (fip_row f). auto.
    + intros e s' [->|(f & Hf)]; [done|]. by apply Hmade in Hf as (H1 & H2 & _).
  - assert (∀ i f s', s_fips s !! i = Some f → fr_PortID f = lr_VipPortID (lb_row lb) →
      s' = set_fips (delete i) s → own s' ∧ fips_only s s') as Hdel.
    { intros i f s' Hi Hp ->. rewrite set_fips_const. split; [|done]. apply fips_changed_own.
      intros j g Hj Hg. rewrite lookup_delete_ne; [done|]. intros <-. congruence. }
    eapply runs_bind; [apply (releaseFloatingIP_runs view)| |]; cbv beta.
    + intros e s' [->|(i & f & Hi & Hp & _ & Hs')]; [done|]. by eapply Hdel.
    + intros _ s' [[-> Hnone]|(i & f & Hi & Hp & Hne & Hs')]; apply runs_ret.
      * split; [apply Hs|]. split; [done|]. split; [done|]. intros Hne.
        destruct Hnone as [?|?]; [done|]. done.
      * destruct (Hdel i f s' Hi Hp Hs') as [H1 H2]. split; [done|]. split; [done|].
        split; [done|]. intros _ j g Hj Hg. rewrite Hs' in Hj. simpl in Hj.
        apply lookup_delete_Some in Hj as [Hij Hj]. apply Hij.
        apply (Hone i j f g); congruence.
Qed.

(** *** A pass over a Service that is there *)

(** Everything a pass is to bring about. *)
Definition in_place (slices : list EndpointSlice) (svc : Service) (s s' : LBState) : Prop :=
  ∃ id row address,
    s_lbs s' !! id = Some row ∧
    own_lb svc id row ∧
    only_own (sv_key svc) id (lr_VipPortID row) s s' ∧
    (∀ sp, sp ∈ sv_Ports svc → ∃ ms, wanted_members slices (lr_VipAddress row) sp ms ∧
       serves_port id (lbName r (sv_Namespace svc) (sv_Name svc)) sp ms s') ∧
    exposed r svc row address (s_fips s) (s_fips s') ∧
    ∃ svc', s_services s' !! sv_key svc = Some svc' ∧
      annotation svc' lbIDAnnotation = id ∧ annotation svc' AddressAnnotation = address ∧
      (∀ k, k ≠ lbIDAnnotation → k ≠ AddressAnnotation → annotation svc' k = annotation svc k) ∧
      same_spec svc svc' ∧ (sv_Type svc = ServiceTypeLoadBalancer → sv_Ingress svc' = [address]).

Lemma publish_recorded svc cur id address s :
  s_services s !! sv_key svc = Some cur → id_recorded svc id cur →
  runs view s (publishAddress svc address)
    (λ _ s', service_written (sv_key svc) s s' ∧ ∃ svc', s_services s' !! sv_key svc = Some svc' ∧
      annotation svc' lbIDAnnotation = id ∧ annotation svc' AddressAnnotation = address ∧
      (∀ k, k ≠ lbIDAnnotation → k ≠ AddressAnnotation → annotation svc' k = annotation svc k) ∧
      same_spec svc svc' ∧ (sv_Type svc = ServiceTypeLoadBalancer → sv_Ingress svc' = [address]))
    (λ _ s', service_written (sv_key svc) s s').
Proof.
  intros Hcur (Hread & Hid & Hann & Hsame & Hin).
  assert (lbIDAnnotation ≠ AddressAnnotation) as Hne by done.
  eapply runs_conseq; [by eapply publishAddress_runs| |done]; cbv beta.
  intros _ s' [Hw [(-> & svc' & Hs' & Ha & Hk & Hsame' & Hi)|(-> & Ha & Hi)]]; (split; [done|]).
  - exists svc'. split; [done|]. split; [by rewrite Hk|]. split; [done|].
    split; [intros k Hk1 Hk2; by apply Hk|done].
  - exists cur. split; [done|]. split; [done|]. split; [by rewrite Hann|].
    split; [intros k Hk1 _; by apply Hann|]. split; [done|]. rewrite Hin. exact Hi.
Qed.

(** What a pass reads: the Service as it is stored, with distinct ports, and
    slices in which no two endpoints are one member; and what earlier passes
    keep true. *)
Record live (namespace name : string) (svc : Service) (slices : list EndpointSlice) (s : LBState) : Prop := {
  lv_get : rc_Services r namespace name = Ok svc;
  lv_slices : slicesFor r svc = Ok slices;
  lv_address : sv_ClusterIP svc ≠ ClusterIPNone;
  lv_alive : sv_DeletionTimestamp svc = None;
  lv_stored : s_services s !! sv_key svc = Some svc;
  lv_version : sv_ResourceVersion svc ≠ 0%Z;
  lv_ports : NoDup (map port_id (sv_Ports svc));
  lv_members : ∀ vip sp, sp ∈ sv_Ports svc → distinct_members slices vip sp;
  lv_well_made : well_made (lbName r (sv_Namespace svc) (sv_Name svc)) s;
  lv_one_fip : one_fip_per_port (s_fips s) }.

Lemma Reconcile_live_runs namespace name svc slices s :
  live namespace name svc slices s →
  runs view s (Reconcile r namespace name)
    (λ _ s', in_place slices svc s s') (λ _ s', failed_pass svc s s').
Proof.
  intros [Hget Hslices Hhead Hdel Hcur Hver Hnd Hdist Hwell Hone].
  unfold Reconcile. rewrite Hget, decide_False by done. rewrite decide_False by (rewrite Hdel; by intros []).
  eapply runs_bind; [by apply ensureLoadBalancer_runs|done|]; cbv beta.
  intros lb s1 (Hown1 & Hlb1 & E1 & E2 & E3 & Hwhich & cur & Hcur1 & Hrec).
  assert (∀ s', s_lbs s' !! lb_ID lb = Some (lb_row lb) →
    only_own (sv_key svc) (lb_ID lb) (lr_VipPortID (lb_row lb)) s s' → failed_pass svc s s') as Hfail
    by (intros s' H1 H2; right; exists (lb_ID lb), (lb_row lb); by split; [|split]).
  rewrite Hslices.
  eapply (runs_bind _ _ _ _ (λ x s', x = slices ∧ s' = s1) _ (λ _ _, False)); [by apply runs_lift|done|].
  intros ? ? [-> ->]. cbv beta.
  assert (well_made (lbName r (sv_Namespace svc) (sv_Name svc)) s1) as Hwell1
    by (unfold well_made in *; by rewrite E1, E2).
  eapply runs_bind; [apply (ensurePorts_runs (sv_key svc) (lr_VipPortID (lb_row lb)) svc lb slices
    (sv_Ports svc) s1 Hwell1 Hnd); intros sp Hsp; by apply Hdist| |]; cbv beta.
  { intros e s' [Hown2 Hlbs]. apply Hfail; [by rewrite Hlbs|by eapply only_own_trans]. }
  intros _ s2 (Hown2 & F1 & F2 & F3 & Hserved).
  assert (only_own (sv_key svc) (lb_ID lb) (lr_VipPortID (lb_row lb)) s s2) as Hown12
    by by eapply only_own_trans.
  eapply runs_bind; [apply (public_address_runs svc lb s2); by rewrite F2, E3| |]; cbv beta.
  { intros e s' [Hown3 (G1 & _)]. apply Hfail; [by rewrite G1, F1|by eapply only_own_trans]. }
  intros address s3 (Hown3 & (G1 & G2 & G3 & G4) & Hexp).
  assert (only_own (sv_key svc) (lb_ID lb) (lr_VipPortID (lb_row lb)) s s3) as Hown13
    by by eapply only_own_trans.
  eapply runs_conseq; [eapply (publish_recorded svc cur (lb_ID lb)); [by rewrite G4, F3|done]| |]; cbv beta.
  - intros _ s4 [Hw Hpub]. destruct (service_written_same _ _ _ Hw) as (K1 & K2 & K3 & K4).
    exists (lb_ID lb), (lb_row lb), address. rewrite K1, K4. split; [by rewrite G1, F1|].
    split; [done|]. split; [eapply only_own_trans; [exact Hown13|by apply service_written_own]|].
    split; [|split; [by rewrite <-E3, <-F2|done]].
    intros sp Hsp. destruct (Hserved sp Hsp) as (ms & Hms & Hserve). exists ms. split; [done|].
    unfold serves_port in *. by rewrite K2, K3, G2, G3.
  - intros e s4 Hw. destruct (service_written_same _ _ _ Hw) as (K1 & _).
    apply Hfail; [by rewrite K1, G1, F1|].
    eapply only_own_trans; [exact Hown13|by apply service_written_own].
Qed.
End reconciler_facts.

(** ** Properties *)

(** C4 A pass over a Service puts it in place, and touches nothing else.  After a
    success there is a load balancer -- the recorded one, or one of the Service's
    name -- with, for every port, a listener of its protocol and number, a
    monitored pool behind it, and in the pool exactly the ready endpoints; the
    address is one on its port when the Service is to be public and its own
    otherwise, with none left charged for; and the stored Service says the load
    balancer's id and the address, in its status too where it is of type
    LoadBalancer.  After a success or a failure only the Service's own load
    balancer -- the one it has recorded, or one of its name -- may differ, with
    its pools, the addresses on its port and the Service itself: other load
    balancers, their listeners, pools and addresses, and all other Services are
    as they were.  The pass is one over the Service as it is stored, with ports
    that differ, endpoints of which no two are one member, pools of that name as
    passes make them, and one address to a port at most ([live]). *)
Theorem Reconcile_correct {W} {api : Octavia W} {clock : Clock W} {fips : FloatingIPs W}
    {services : ServicesAPI W} {subnets : SubnetResolver W} (view : W → LBState)
    (subnet_of : string → string → option string)
    `{!OctaviaLaws api view} `{!ClockLaws clock api view} `{!FloatingLaws fips view}
    `{!ServicesLaws services view} `{!SubnetLaws subnets view subnet_of}
    (r : Reconciler) (namespace name : string) (svc : Service) (slices : list EndpointSlice) (s : LBState) :
  live subnet_of r namespace name svc slices s →
  runs view s (Reconcile r namespace name)
    (λ _ s', in_place subnet_of r slices svc s s') (λ _ s', failed_pass r svc s s').
Proof. by apply Reconcile_live_runs. Qed.

(** ** What modelling showed *)

(** A listener is never taken away: a port a Service no longer has is still
    served after every pass, by whoever was behind it last. *)
Theorem Reconcile_keeps_old_listeners {W} {api : Octavia W} {clock : Clock W} {fips : FloatingIPs W}
    {services : ServicesAPI W} {subnets : SubnetResolver W} (view : W → LBState)
    (subnet_of : string → string → option string)
    `{!OctaviaLaws api view} `{!ClockLaws clock api view} `{!FloatingLaws fips view}
    `{!ServicesLaws services view} `{!SubnetLaws subnets view subnet_of}
    (r : Reconciler) (namespace name : string) (svc : Service) (slices : list EndpointSlice) (s : LBState)
    (i : string) (l : ListenerRow) :
  live subnet_of r namespace name svc slices s → s_listeners s !! i = Some l →
  runs view s (Reconcile r namespace name)
    (λ _ s', s_listeners s' !! i = Some l) (λ _ s', s_listeners s' !! i = Some l).
Proof.
  intros Hlive Hl. eapply runs_conseq; [by apply (Reconcile_live_runs view)| |]; cbv beta.
  - intros _ s' (id & row & address & _ & _ & (_ & Hkept & _) & _). by apply Hkept.
  - intros e s' [->|(id & row & _ & _ & (_ & Hkept & _))]; [done|by apply Hkept].
Qed.

(** Once a Service has been written, a second write from the copy that was read
    before it cannot succeed. *)
Theorem second_write_refused {W} {services : ServicesAPI W} (view : W → LBState)
    `{!ServicesLaws services view} (svc cur : Service) (id : string) (s : LBState) :
  s_services s !! sv_key svc = Some cur → sv_ResourceVersion svc ≠ 0%Z →
  (sv_ResourceVersion svc < sv_ResourceVersion cur)%Z → annotation svc lbIDAnnotation ≠ id →
  runs view s (recordLoadBalancerID svc id) (λ _ _, False) (λ _ _, True).
Proof.
  intros Hcur Hver Hlt Hid. unfold recordLoadBalancerID. rewrite decide_False by done.
  eapply runs_bind; [apply law_Update|done|]; cbv beta.
  intros fresh s' (c & v & Hc & _ & _ & Hm & _).
  change (sv_key (with_annotation lbIDAnnotation id svc)) with (sv_key svc) in *.
  rewrite Hcur in Hc. injection Hc as <-. simpl in Hm. destruct Hm; [done|lia].
Qed.

(** *** An example: a new Service

    The first pass makes the load balancer and publishes its address, and then
    fails to record the id, because publishing wrote the Service; the next one,
    over what is stored by then, succeeds. *)
Definition ex_port : ServicePort := mkServicePort "http" "TCP" 80.
Definition ex_service : Service :=
  mkService "prod" "web" 7 ∅ None "ClusterIP" "10.96.0.9" [ex_port] [].
Definition ex_rec (svc : Service) : Reconciler :=
  mkReconciler "t1" (Some ["prod"])
    (λ ns name, if decide ((ns, name) = ("prod", "web")) then Ok svc else Err ErrK8sNotFound)
    (λ ns, Ok ex_slices) "vip-subnet" true "public-net" false.
Definition RefSubnets : SubnetResolver RefWorld := {|
  SubnetFor ns name w := (if decide (ns = "prod") then Ok "pods-subnet" else Err ErrNotFound, w) |}.
Lemma RefSubnets_laws : SubnetLaws RefSubnets rw_state ex_subnet_of.
Proof. split. intros s ns name w <-. simpl. unfold ex_subnet_of. by case_decide. Qed.

Definition run_ref (svc : Service) (w : RefWorld) : result () * RefWorld :=
  @Reconcile RefWorld RefOctavia RefClock RefFloating RefServices RefSubnets (ex_rec svc) "prod" "web" w.
Definition ex_before : LBState := mkLBState ∅ ∅ ∅ ∅ ∅ {[("prod", "web") := ex_service]} ∅ ∅ ∅ ∅.
Definition ex_stored (w : RefWorld) : Service := opt_or ex_service (s_services (rw_state w) !! ("prod", "web")).

Theorem first_pass_conflicts :
  let '(first, w) := run_ref ex_service (mkRef ex_before 0) in
  let '(second, w') := run_ref (ex_stored w) w in
  first = Err (ErrResponse 409 "the object has been modified") ∧
  annotation (ex_stored w) AddressAnnotation = "192.0.2.10" ∧ second = Ok ().
Proof. vm_compute. auto. Qed.

(** *** Witness *)
Definition ex_second : RefWorld := (run_ref ex_service (mkRef ex_before 0)).2.
Definition ex_svc2 : Service := ex_stored ex_second.
Definition ex_serving : list EndpointSlice := ex_slices.

Lemma ex_distinct vip : distinct_members ex_subnet_of ex_serving vip ex_port.
Proof.
  intros ms Hms. unfold wanted_members, family_of in Hms. destruct (contains vip ":").
  - change (serving ex_serving ex_port "IPv6") with
      [(mkSlice "prod" {["kubernetes.io/service-name" := "web"]} "IPv6"
          [mkEndpointPort (Some "http") (Some 8080%Z)]
          [mkEndpoint ["2001:db8::5"] (Some true) (Some ("Pod", "web-0"))],
        mkEndpoint ["2001:db8::5"] (Some true) (Some ("Pod", "web-0")))] in Hms.
    inversion Hms as [|? m ? l _ Hl]; subst. inversion Hl; subst. apply NoDup_singleton.
  - inversion Hms as [|se1 m1 l1 k1 H1 Hl1 E1]; subst. inversion Hl1 as [|se2 m2 l2 k2 H2 Hl2]; subst.
    inversion Hl2; subst.
    destruct H1 as (a1 & p1 & s1 & Ha1 & _ & _ & _ & ->). destruct H2 as (a2 & p2 & s2 & Ha2 & _ & _ & _ & ->).
    simpl in Ha1, Ha2. injection Ha1 as <-. injection Ha2 as <-.
    simpl. apply NoDup_cons. split; [|apply NoDup_singleton].
    intros Hin%list_elem_of_singleton. unfold desired_key in Hin. simpl in Hin.
    by apply member_key_inj in Hin as [? _].
Qed.

Lemma ex_live : live ex_subnet_of (ex_rec ex_svc2) "prod" "web" ex_svc2 ex_serving (rw_state ex_second).
Proof.
  split.
  - vm_compute. reflexivity.
  - vm_compute. reflexivity.
  - vm_compute. discriminate.
  - vm_compute. reflexivity.
  - vm_compute. reflexivity.
  - vm_compute. discriminate.
  - change (sv_Ports ex_svc2) with [ex_port]. apply NoDup_singleton.
  - change (sv_Ports ex_svc2) with [ex_port]. intros vip sp ->%list_elem_of_singleton. apply ex_distinct.
  - assert (s_listeners (rw_state ex_second) = ∅ ∧ s_pools (rw_state ex_second) = ∅) as [H1 H2]
      by (vm_compute; auto).
    unfold well_made. rewrite H1, H2. split; [|split; [|done]]; intros *; rewrite lookup_empty; discriminate.
  - assert (s_fips (rw_state ex_second) = ∅) as -> by (vm_compute; reflexivity).
    intros i j f g. rewrite lookup_empty. discriminate.
Qed.

Definition ex_pass : result () * RefWorld := run_ref ex_svc2 ex_second.

Lemma Reconcile_correct_witness :
  ex_pass.1 = Ok () ∧
  in_place ex_subnet_of (ex_rec ex_svc2) ex_serving ex_svc2 (rw_state ex_second) (rw_state ex_pass.2).
Proof.
  pose proof (@Reconcile_correct RefWorld RefOctavia RefClock RefFloating RefServices RefSubnets rw_state
    ex_subnet_of RefOctavia_laws RefClock_laws RefFloating_laws RefServices_laws RefSubnets_laws
    (ex_rec ex_svc2) "prod" "web" ex_svc2 ex_serving (rw_state ex_second) ex_live ex_second eq_refl) as H.
  fold (run_ref ex_svc2 ex_second) in H. fold ex_pass in H.
  assert (is_ok ex_pass.1 = true) as Hok by (vm_compute; reflexivity).
  revert Hok H. generalize ex_pass. intros [[[]|e] w] Hok H; [|discriminate Hok].
  split; [reflexivity|exact H].
Defined.

