(* ===== verification/ServiceGC.v ===== *)
(** * pkg/service/gc.go and controller.go: sweeping, and the queue's worker

    The name of a load balancer read back, the sweep of those whose Service is
    gone, what a worker does with a key; and what taking a load balancer down
    leaves behind. *)

From S2P Require Import Prelude GoStd K8s ZunCapsule LoadBalancing ServiceOctavia ServiceMembers ServiceReconciler.
From Stdlib Require Import Ascii.

Local Open Scope string_scope.
Local Open Scope list_scope.

(** ** gc.go *)
Definition parseLBName (r : Reconciler) (name : string) : option (string * string) :=
  match drop_prefix ("kubezun_" +:+ rc_Tenant r +:+ "_") name with
  | None => None
  | Some rest =>
      if has_prefix rest "ing_" then None
      else match cut rest "_" with
           | None => None
           | Some (namespace, service) =>
               if decide (namespace = "" ∨ service = "") then None else Some (namespace, service)
           end
  end.

Section gc.
Context {W : Type} `{!Octavia W} `{!Clock W} `{!FloatingIPs W} `{!ServicesAPI W} `{!SubnetResolver W}.
(** Which namespaces the controller may build load balancers for, and the
    tenant's reconciler. *)
Variable serves : string → bool.
Variable r : Reconciler.

(** A failure to delete one is logged. *)
Definition sweep_lb (lb : LoadBalancer) : M W () :=
  match parseLBName r (lr_Name (lb_row lb)) with
  | None => mret ()
  | Some (namespace, name) =>
      if serves namespace then
        match rc_Services r namespace name with
        | Ok _ => mret ()
        | Err e => if IsNotFound e then
                     try (tearDown r namespace name (lb_ID lb)) ≫= λ _, mret ()
                   else mret ()
        end
      else try (tearDown r namespace name (lb_ID lb)) ≫= λ _, mret ()
  end.

Definition sweepOne : M W () :=
  match rc_Namespaces r with
  | None | Some [] => mret ()
  | Some _ =>
      all ← try ListLoadBalancers;
      match all with
      | Err _ => mret ()
      | Ok all => for_each all sweep_lb
      end
  end.
End gc.

(** ** controller.go *)

(** [ServesNamespace] may be nil, which serves nothing. *)
Definition serves (ServesNamespace : option (string → bool)) (namespace : string) : bool :=
  match ServesNamespace with Some f => f namespace | None => false end.

(** A key for a Service, and for a slice the Service it is labelled with. *)
Definition enqueueService (svc : Service) : list string :=
  [sv_Namespace svc +:+ "/" +:+ sv_Name svc].
Definition enqueueSlice (slice : EndpointSlice) : list string :=
  let name := opt_or "" (es_Labels slice !! LabelServiceName) in
  if decide (name = "") then [] else [es_Namespace slice +:+ "/" +:+ name].

Section controller.
Context {W : Type} `{!Octavia W} `{!Clock W} `{!FloatingIPs W} `{!ServicesAPI W} `{!SubnetResolver W}.
Variable ServesNamespace : option (string → bool).
(** The controller's own cache and recorder, and whose work a namespace is. *)
Variable own_services : string → string → result Service.
Variable has_events : bool.
Variable reconcilerOf : string → M W Reconciler.

Definition recordFailure (namespace name : string) : option Service :=
  if has_events then
    match own_services namespace name with Ok svc => Some svc | Err _ => None end
  else None.

Definition reconcile (key : string) : M W (Verdict * option Service) :=
  match SplitMetaNamespaceKey key with
  | None => mret (Forgotten, None)
  | Some (namespace, name) =>
      if serves ServesNamespace namespace then
        r ← try (reconcilerOf namespace);
        match r with
        | Err _ => mret (Requeued, None)
        | Ok r =>
            done ← try (Reconcile r namespace name);
            match done with
            | Err _ => mret (Requeued, recordFailure namespace name)
            | Ok _ => mret (Forgotten, None)
            end
        end
      else mret (Forgotten, None)
  end.
End controller.

(** ** What taking down leaves *)

(** Of the objects there were, only load balancers in [D] may be gone, with what
    was on them; an address is as it was -- still on its port -- or is gone with
    the load balancer whose port it was on; nothing is new. *)
Record torn (D : string → Prop) (s s' : LBState) : Prop := {
  tn_lbs : ∀ j, ¬ D j → s_lbs s' !! j = s_lbs s !! j;
  tn_lbs_old : ∀ j row, s_lbs s' !! j = Some row → s_lbs s !! j = Some row;
  tn_listeners : ∀ i l, s_listeners s !! i = Some l → (∀ j, j ∈ lsr_Loadbalancers l → ¬ D j) →
    s_listeners s' !! i = Some l;
  tn_pools : ∀ i p, s_pools s !! i = Some p → (∀ j, j ∈ plr_Loadbalancers p.1 → ¬ D j) →
    s_pools s' !! i = Some p;
  tn_services : s_services s' = s_services s;
  tn_fips : ∀ i f, s_fips s !! i = Some f → s_fips s' !! i = Some f ∨
    (s_fips s' !! i = None ∧ ∃ j row, D j ∧ s_lbs s !! j = Some row ∧
       fr_PortID f = lr_VipPortID row ∧ fr_PortID f ≠ "");
  tn_fips_old : ∀ i f, s_fips s' !! i = Some f → s_fips s !! i = Some f }.

Lemma torn_refl D s : torn D s s.
Proof. split; auto. Qed.

Lemma torn_trans D s1 s2 s3 : torn D s1 s2 → torn D s2 s3 → torn D s1 s3.
Proof.
  intros [A1 A2 A3 A4 A5 A6 A7] [B1 B2 B3 B4 B5 B6 B7]. split; [| |auto|auto|congruence| |auto].
  - intros j Hj. by rewrite B1, A1.
  - auto.
  - intros i f Hf. destruct (A6 i f Hf) as [H2|[H2 Hd]].
    + destruct (B6 i f H2) as [?|(H3 & j & row & Hj & Hrow & Hp)]; [by left|].
      right. split; [done|]. exists j, row. auto.
    + right. split; [|done]. destruct (s_fips s3 !! i) as [g|] eqn:Hg; [|done].
      apply B7 in Hg. congruence.
Qed.

Lemma torn_mono (D D' : string → Prop) s s' : (∀ j, D j → D' j) → torn D s s' → torn D' s s'.
Proof.
  intros HD [A1 A2 A3 A4 A5 A6 A7]. split; [| |intros i l Hl H; apply A3|intros i p Hp H; apply A4| | |];
    auto; [naive_solver..|].
  intros i f Hf. destruct (A6 i f Hf) as [?|(H & j & row & Hj & Hr)]; [by left|].
  right. split; [done|]. exists j, row. auto.
Qed.

Lemma torn_one_fip D s s' : torn D s s' → one_fip_per_port (s_fips s) → one_fip_per_port (s_fips s').
Proof. intros Ht Hone i j f g Hi Hj. apply Hone; by apply (tn_fips_old _ _ _ Ht). Qed.

(** A cascading delete strands nothing once the address has gone back. *)
Lemma cascaded_torn id s :
  (∀ row i f, s_lbs s !! id = Some row → s_fips s !! i = Some f → lr_VipPortID row ≠ "" →
     fr_PortID f ≠ lr_VipPortID row) →
  torn (λ j, j = id) s (cascaded id s).
Proof.
  intros Hfree. unfold cascaded.
  assert (∀ i, (detached match s_lbs s !! id with Some row => lr_VipPortID row | None => "" end
    <$> s_fips s) !! i = s_fips s !! i) as Hdet.
  { intros i. rewrite lookup_fmap. destruct (s_fips s !! i) as [f|] eqn:Hf; simpl; [|done]. f_equal.
    unfold detached. case_decide as Hp; [|done]. destruct Hp as [Hp Hne].
    destruct (s_lbs s !! id) as [row|] eqn:Hrow; [|done]. by destruct (Hfree row i f eq_refl Hf). }
  split; simpl.
  - intros j Hj. by rewrite lookup_delete_ne.
  - intros j row Hj. by apply lookup_delete_Some in Hj as [_ ?].
  - intros i l Hl Hj. apply map_lookup_filter_Some. split; [done|]. simpl. intros Hin. by apply (Hj id).
  - intros i p Hp Hj. apply map_lookup_filter_Some. split; [done|]. simpl. intros Hin. by apply (Hj id).
  - done.
  - intros i f Hf. left. by rewrite Hdet.
  - intros i f. by rewrite Hdet.
Qed.

(** What was made for a load balancer is gone with it: its listeners, its pools
    and the address on its port. *)
Record taken_down (id : string) (row : LBRow) (s : LBState) : Prop := {
  td_lb : s_lbs s !! id = None;
  td_listeners : ∀ i l, s_listeners s !! i = Some l → id ∉ lsr_Loadbalancers l;
  td_pools : ∀ i p, s_pools s !! i = Some p → id ∉ plr_Loadbalancers p.1;
  td_fips : lr_VipPortID row ≠ "" → ∀ i f, s_fips s !! i = Some f → fr_PortID f ≠ lr_VipPortID row }.

Lemma cascaded_taken_down id row s : s_lbs s !! id = Some row → taken_down id row (cascaded id s).
Proof.
  intros Hrow. unfold cascaded. rewrite Hrow. split; simpl.
  - apply lookup_delete_eq.
  - by intros i l [_ ?]%map_lookup_filter_Some.
  - by intros i p [_ ?]%map_lookup_filter_Some.
  - intros Hne i f. rewrite lookup_fmap. intros (g & Hg & ->)%fmap_Some.
    unfold detached. case_decide as Hd; simpl; [congruence|]. intros He. by apply Hd.
Qed.

Section gc_facts.
Context {W : Type} {api : Octavia W} {fips : FloatingIPs W} (view : W → LBState)
  `{!OctaviaLaws api view} `{!FloatingLaws fips view}.
Variable r : Reconciler.

Lemma released_torn id row i f s :
  s_lbs s !! id = Some row → s_fips s !! i = Some f → fr_PortID f = lr_VipPortID row →
  lr_VipPortID row ≠ "" → torn (λ j, j = id) s (set_fips (delete i) s).
Proof.
  intros Hrow Hf Hp Hne. split; simpl; auto.
  - intros j g Hj. destruct (decide (i = j)) as [<-|Hij].
    + right. split; [apply lookup_delete_eq|]. exists id, row. rewrite Hf in Hj. injection Hj as <-.
      split; [done|]. split; [done|]. split; [done|]. by rewrite Hp.
    + left. by rewrite lookup_delete_ne.
  - intros j g Hj. by apply lookup_delete_Some in Hj as [_ ?].
Qed.

Lemma tearDown_runs namespace name id s :
  rc_Neutron r = true → one_fip_per_port (s_fips s) →
  runs view s (tearDown r namespace name id)
    (λ _ s', torn (λ j, j = id) s s' ∧ ∀ row, s_lbs s !! id = Some row → taken_down id row s')
    (λ _ s', torn (λ j, j = id) s s').
Proof.
  intros Hn Hone. unfold tearDown. rewrite Hn.
  eapply (runs_bind _ _ _ _ (λ _ s1, torn (λ j, j = id) s s1 ∧ s_lbs s1 = s_lbs s ∧
    ∀ row i f, s_lbs s1 !! id = Some row →
    s_fips s1 !! i = Some f → lr_VipPortID row ≠ "" → fr_PortID f ≠ lr_VipPortID row)
    _ (λ _ s', torn (λ j, j = id) s s')); [|done|]; cbv beta.
  - eapply runs_try_bind; [apply (GetLoadBalancerByID_runs view)| |]; cbv beta.
    + intros lb s' (-> & Hid & Hlb).
      eapply runs_conseq; [apply (releaseFloatingIP_runs view)| |]; cbv beta.
      * intros _ s' [[-> Hnone]|(i & f & Hf & Hp & Hne & ->)].
        -- split; [apply torn_refl|]. split; [done|]. intros row i f Hrow Hf Hne. rewrite Hlb in Hrow. injection Hrow as <-.
           destruct Hnone as [?|Hnone]; [done|]. by eapply Hnone.
        -- split; [by eapply released_torn|]. split; [done|]. intros row j g Hrow Hg _ Hpg. simpl in Hrow, Hg.
           rewrite Hlb in Hrow. injection Hrow as <-. apply lookup_delete_Some in Hg as [Hij Hg].
           apply Hij. apply (Hone i j f g); congruence.
      * intros e s' [->|(i & f & Hf & Hp & Hne & ->)]; [apply torn_refl|]. by eapply released_torn.
    + intros e s' [-> Hnone]. case_decide; [|apply runs_fail, torn_refl].
      apply runs_ret. split; [apply torn_refl|]. split; [done|]. intros row i f Hrow. by rewrite Hnone in Hrow.
  - intros _ s1 (Ht & Hsame & Hfree).
    assert (torn (λ j, j = id) s (cascaded id s1)) as Hc
      by (eapply torn_trans; [exact Ht|by apply cascaded_torn]).
    eapply runs_conseq; [apply (DeleteLoadBalancer_runs view)| |]; cbv beta.
    + intros _ s' [->|[-> Hnone]]; (split; [done|]); intros row Hrow; rewrite <-Hsame in Hrow; [|congruence].
      by apply cascaded_taken_down.
    + intros e s' [->| ->]; done.
Qed.

Lemma deleteByName_runs namespace name s :
  rc_Neutron r = true → one_fip_per_port (s_fips s) →
  let own j := ∃ row, s_lbs s !! j = Some row ∧ lr_Name row = lbName r namespace name in
  runs view s (deleteByName r namespace name)
    (λ _ s', torn own s s' ∧ ∀ j row, own j → s_lbs s !! j = Some row → taken_down j row s')
    (λ _ s', torn own s s').
Proof.
  intros Hn Hone own. unfold deleteByName.
  eapply runs_try_bind; [by apply (GetLoadBalancerByName_runs view)| |]; cbv beta.
  - intros lb s' (-> & Hlb & Hname & Huniq).
    assert (∀ s', torn (λ j, j = lb_ID lb) s s' → torn own s s') as HD
      by (intros s'; apply torn_mono; intros j ->; by exists (lb_row lb)).
    eapply runs_conseq; [by apply tearDown_runs| |]; cbv beta.
    + intros _ s' [Ht Hgone]. split; [by apply HD|]. intros j row (row' & Hj & Hr).
      rewrite (Huniq j row' Hj Hr). apply Hgone.
    + intros e s' Ht. by apply HD.
  - intros e s' [-> Hnone]. case_decide as He.
    + apply runs_ret. split; [apply torn_refl|]. intros j row (row' & Hj & Hr). by destruct (Hnone He j row' Hj).
    + apply runs_fail, torn_refl.
Qed.

(** Which load balancer is a Service's: the one it has recorded, or one of its
    name where it has recorded none. *)
Definition service_lb (svc : Service) (s : LBState) (j : string) : Prop :=
  if decide (annotation svc lbIDAnnotation = "") then
    ∃ row, s_lbs s !! j = Some row ∧ lr_Name row = lbName r (sv_Namespace svc) (sv_Name svc)
  else j = annotation svc lbIDAnnotation.

Lemma deleteLoadBalancer_runs svc s :
  rc_Neutron r = true → one_fip_per_port (s_fips s) →
  runs view s (deleteLoadBalancer r svc)
    (λ _ s', torn (service_lb svc s) s s' ∧ ∀ j row, service_lb svc s j → s_lbs s !! j = Some row → taken_down j row s')
    (λ _ s', torn (service_lb svc s) s s').
Proof.
  intros Hn Hone. unfold deleteLoadBalancer, service_lb. case_decide; [by apply deleteByName_runs|].
  eapply runs_conseq; [by apply tearDown_runs| |done]; cbv beta. intros _ s' [Ht Hgone].
  split; [done|]. intros j row -> Hj. by apply Hgone.
Qed.

(** *** The sweep *)
Variable serves_ : string → bool.

(** Whether a load balancer is one to delete. *)
Definition doomed (row : LBRow) : bool :=
  match parseLBName r (lr_Name row) with
  | None => false
  | Some (namespace, name) =>
      negb (serves_ namespace) ||
      match rc_Services r namespace name with Ok _ => false | Err e => IsNotFound e end
  end.

Lemma sweep_lb_runs lb s :
  rc_Neutron r = true → one_fip_per_port (s_fips s) →
  runs view s (sweep_lb serves_ r lb)
    (λ _ s', torn (λ j, j = lb_ID lb ∧ doomed (lb_row lb) = true) s s') (λ _ _, False).
Proof.
  intros Hn Hone. unfold sweep_lb, doomed.
  destruct (parseLBName r _) as [[namespace name]|]; [|by apply runs_ret, torn_refl].
  assert (∀ b : bool, b = true → runs view s
    (try (tearDown r namespace name (lb_ID lb)) ≫= λ _, mret ())
    (λ _ s', torn (λ j, j = lb_ID lb ∧ b = true) s s') (λ _ _, False)) as Hdown.
  { intros b ->. eapply runs_try_bind; [by apply tearDown_runs| |]; cbv beta.
    - intros _ s' [Ht _]. apply runs_ret. eapply torn_mono; [|exact Ht]. by intros j ->.
    - intros e s' Ht. apply runs_ret. eapply torn_mono; [|exact Ht]. by intros j ->. }
  destruct (serves_ namespace); simpl; [|by apply Hdown].
  destruct (rc_Services r namespace name) as [svc|e]; [by apply runs_ret, torn_refl|].
  destruct (IsNotFound e); [by apply Hdown|by apply runs_ret, torn_refl].
Qed.

Lemma sweepOne_runs s :
  rc_Neutron r = true → one_fip_per_port (s_fips s) →
  runs view s (sweepOne serves_ r)
    (λ _ s', torn (λ j, ∃ row, s_lbs s !! j = Some row ∧ doomed row = true) s s' ∧
       (opt_or [] (rc_Namespaces r) = [] → s' = s)) (λ _ _, False).
Proof.
  intros Hn Hone. unfold sweepOne.
  destruct (rc_Namespaces r) as [[|ns nss]|]; try (apply runs_ret; split; [apply torn_refl|done]).
  eapply runs_try_bind; [apply (law_lb_List s "")| |]; cbv beta.
  2: { intros e s' [-> _]. apply runs_ret. by split; [apply torn_refl|]. }
  intros all s' [-> Hall].
  eapply runs_conseq; [apply (runs_for_each _ (λ _ s', torn
    (λ j, ∃ row, s_lbs s !! j = Some row ∧ doomed row = true) s s') all _ (λ _ _, False))| |];
    cbv beta; [apply torn_refl| |by intros _ s' ?|done].
  intros pre lb post s1 Heq Ht.
  eapply runs_conseq; [apply (sweep_lb_runs lb s1 Hn); by eapply torn_one_fip| |done]; cbv beta.
  intros _ s2 Ht2. eapply torn_trans; [exact Ht|]. eapply torn_mono; [|exact Ht2].
  intros j [-> Hd]. exists (lb_row lb). split; [|done].
  destruct (lists_elem _ _ _ _ _ lb Hall); [rewrite Heq; set_solver|done].
Qed.
End gc_facts.

(** *** Names *)
Lemma ing_prefix_app ns rest :
  no_char "_"%char ns = true → has_prefix (ns +:+ "_" +:+ rest) "ing_" = bool_decide (ns = "ing").
Proof.
  intros Hns. apply eq_true_iff_eq. rewrite has_prefix_spec, bool_decide_eq_true. split.
  - intros [x Hx]. change ("ing_" +:+ x) with ("ing" +:+ String "_"%char x) in Hx.
    change ("_" +:+ rest) with (String "_"%char rest) in Hx. by apply sep_inj in Hx as [-> _].
  - intros ->. by exists rest.
Qed.

Lemma not_ingress_name tenant ns name :
  no_char "_"%char ns = true →
  has_prefix ("kubezun_" +:+ tenant +:+ "_" +:+ ns +:+ "_" +:+ name) ("kubezun_" +:+ tenant +:+ "_ing_") =
  bool_decide (ns = "ing").
Proof.
  intros Hns. rewrite <-(ing_prefix_app ns name) by done. apply eq_true_iff_eq. rewrite !has_prefix_spec. split.
  - intros [x Hx]. exists x. rewrite !string_app_assoc in Hx. apply (inj (String.append "kubezun_")),
      (inj (String.append tenant)) in Hx. by apply (inj (String.append "_")) in Hx.
  - intros [x Hx]. exists x. rewrite Hx, !string_app_assoc. done.
Qed.

Lemma parseLBName_spec r lb ns name :
  parseLBName r lb = Some (ns, name) ↔
  lb = lbName r ns name ∧ ns ≠ "" ∧ name ≠ "" ∧ no_char "_"%char ns = true ∧ ns ≠ "ing".
Proof.
  unfold parseLBName, lbName. split.
  - destruct (drop_prefix _ lb) as [rest|] eqn:Hd; [|done]. apply drop_prefix_Some in Hd as ->.
    destruct (has_prefix rest "ing_") eqn:Hing; [done|].
    destruct (cut rest "_") as [[ns' name']|] eqn:Hcut; [|done].
    apply cut_char_Some in Hcut as [-> Hno]. case_decide as Hne; [done|]. intros [= -> ->].
    change (String "_"%char name) with ("_" +:+ name) in *.
    rewrite ing_prefix_app in Hing by done. apply bool_decide_eq_false in Hing.
    rewrite <-!string_app_assoc. split; [by rewrite !string_app_assoc|]. tauto.
  - intros (-> & Hns & Hname & Hno & Hing).
    replace ("kubezun_" +:+ rc_Tenant r +:+ "_" +:+ ns +:+ "_" +:+ name)
      with (("kubezun_" +:+ rc_Tenant r +:+ "_") +:+ (ns +:+ "_" +:+ name)) by (by rewrite !string_app_assoc).
    rewrite (proj2 (drop_prefix_Some _ _ _) eq_refl), ing_prefix_app by done.
    rewrite bool_decide_false by done.
    change ("_" +:+ name) with (String "_"%char name). rewrite cut_char_app by done.
    rewrite decide_False; [done|tauto].
Qed.

(** ** Properties *)

(** A load balancer's name leads back to its Service and to no other: what is
    parsed is exactly a name this tenant's reconciler derives, of a namespace
    and a Service with names in which the namespace holds no underscore and is
    not "ing"; and no name that another tenant's reconciler derives is parsed,
    where neither tenant's name holds an underscore. *)
Theorem lbName_roundtrip (r : Reconciler) (lb ns name : string) :
  (parseLBName r lb = Some (ns, name) ↔
     lb = lbName r ns name ∧ ns ≠ "" ∧ name ≠ "" ∧ no_char "_"%char ns = true ∧ ns ≠ "ing") ∧
  ∀ other ns' name', no_char "_"%char (rc_Tenant r) = true → no_char "_"%char (rc_Tenant other) = true →
    rc_Tenant other ≠ rc_Tenant r → parseLBName r (lbName other ns' name') = None.
Proof.
  split; [apply parseLBName_spec|]. intros other ns' name' H1 H2 Hne.
  destruct (parseLBName r _) as [[n m]|] eqn:Hp; [|done].
  apply parseLBName_spec in Hp as [Hn _]. unfold lbName in Hn.
  apply (inj (String.append "kubezun_")) in Hn.
  change ("_" +:+ ?x) with (String "_"%char x) in Hn. by apply sep_inj in Hn as [? _].
Qed.

(** C22 A Service that is gone, or being deleted, takes its own load balancer and
    nothing else.  Its own is, for one that is gone, that of its name; for one
    being deleted that it has recorded, or that of its name where it has recorded
    none.  A pass that succeeds has left nothing of it: not the load balancer, its
    listeners and pools, nor the address on its port.  After a success or a
    failure only that load balancer, what was on it and the address of its port
    may be gone, nothing is new, and no address is left allocated and attached to
    nothing.  The reconciler has its Neutron client, and a port one address at
    most. *)
Theorem Reconcile_gone {W} {api : Octavia W} {clock : Clock W} {fips : FloatingIPs W}
    {services : ServicesAPI W} {subnets : SubnetResolver W} (view : W → LBState)
    `{!OctaviaLaws api view} `{!FloatingLaws fips view}
    (r : Reconciler) (namespace name : string) (own : string → Prop) (s : LBState) :
  rc_Neutron r = true → one_fip_per_port (s_fips s) →
  match rc_Services r namespace name with
  | Ok svc => sv_ClusterIP svc ≠ ClusterIPNone ∧ is_Some (sv_DeletionTimestamp svc) ∧ own = service_lb r svc s
  | Err e => IsNotFound e = true ∧ own = λ j, ∃ row, s_lbs s !! j = Some row ∧ lr_Name row = lbName r namespace name
  end →
  runs view s (Reconcile r namespace name)
    (λ _ s', torn own s s' ∧ ∀ j row, own j → s_lbs s !! j = Some row → taken_down j row s')
    (λ _ s', torn own s s').
Proof.
  intros Hn Hone. unfold Reconcile. destruct (rc_Services r namespace name) as [svc|e].
  - intros (Hip & Hdel & ->). rewrite decide_False, decide_True by done. by apply (deleteLoadBalancer_runs view).
  - intros [Hnf ->]. rewrite Hnf. by apply (deleteByName_runs view).
Qed.

(** C27 The sweep deletes only load balancers of this tenant's names whose
    namespace is not served, or whose Service the cache says is not there --
    namespace and Service being the two parts of the name at the first underscore
    after the tenant's, and the name none an Ingress's load balancer has.
    Everything else it leaves, with what is on it -- an Ingress's, another
    tenant's, one whose Service could not be looked up -- and with no namespace
    known it does nothing.  A failure to delete stops nothing, and no address is
    left attached to nothing.  The reconciler has its Neutron client, and a port
    one address at most. *)
Theorem sweepOne_safe {W} {api : Octavia W} {fips : FloatingIPs W} (view : W → LBState)
    `{!OctaviaLaws api view} `{!FloatingLaws fips view}
    (serves : string → bool) (r : Reconciler) (s : LBState) :
  rc_Neutron r = true → one_fip_per_port (s_fips s) →
  runs view s (sweepOne serves r)
    (λ _ s',
       torn (λ j, ∃ row ns name, s_lbs s !! j = Some row ∧ lr_Name row = lbName r ns name ∧
         no_char "_"%char ns = true ∧ has_prefix (lr_Name row) ("kubezun_" +:+ rc_Tenant r +:+ "_ing_") = false ∧
         (serves ns = false ∨ ∃ e, rc_Services r ns name = Err e ∧ IsNotFound e = true)) s s' ∧
       (opt_or [] (rc_Namespaces r) = [] → s' = s))
    (λ _ _, False).
Proof.
  intros Hn Hone. eapply runs_conseq; [by apply (sweepOne_runs view r serves)| |done]; cbv beta.
  intros _ s' [Ht Hnone]. split; [|done]. eapply torn_mono; [|exact Ht].
  intros j (row & Hrow & Hd). unfold doomed in Hd.
  destruct (parseLBName r (lr_Name row)) as [[ns name]|] eqn:Hp; [|done].
  apply parseLBName_spec in Hp as (Hname & _ & _ & Hno & Hing).
  exists row, ns, name. do 3 (split; [done|]). split.
  { rewrite Hname. unfold lbName. rewrite not_ingress_name by done. by apply bool_decide_eq_false. }
  apply orb_true_iff in Hd as [Hs|Hs].
  - left. by apply negb_true_iff in Hs.
  - right. destruct (rc_Services r ns name) as [|e]; [done|]. by exists e.
Qed.

(** A worker never builds for a namespace that is not served, and gives no key up
    whose pass failed. *)
Theorem reconcile_retries {W} {api : Octavia W} {clock : Clock W} {fips : FloatingIPs W}
    {services : ServicesAPI W} {subnets : SubnetResolver W}
    (ServesNamespace : option (string → bool)) own has_events (r : Reconciler) (ns name : string) (w : W) :
  no_char "/"%char ns = true → no_char "/"%char name = true →
  reconcile ServesNamespace own has_events (λ _, mret r) (ns +:+ "/" +:+ name) w =
    if serves ServesNamespace ns then
      let '(result, w') := Reconcile r ns name w in
      (Ok (match result with Ok _ => (Forgotten, None)
           | Err _ => (Requeued, recordFailure own has_events ns name) end), w')
    else (Ok (Forgotten, None), w).
Proof.
  intros H1 H2. unfold reconcile, SplitMetaNamespaceKey.
  change ("/" +:+ name) with (String "/"%char name).
  rewrite split_char_app, split_char_none by done. destruct (serves ServesNamespace ns); [|done].
  unfold mbind, M_bind, try. simpl. by destruct (Reconcile r ns name w) as [[[]|e] w'].
Qed.

(** ** What modelling showed *)

(** A Service in a namespace called "ing" has a load balancer the sweep takes for
    an Ingress's: it is never collected. *)
Theorem ing_namespace_never_swept (r : Reconciler) (name : string) :
  parseLBName r (lbName r "ing" name) = None.
Proof.
  destruct (parseLBName r _) as [[ns n]|] eqn:Hp; [|done].
  apply parseLBName_spec in Hp as (Hn & _ & _ & Hno & Hing). unfold lbName in Hn.
  apply (inj (String.append "kubezun_")), (inj (String.append (rc_Tenant r))),
    (inj (String.append "_")) in Hn.
  change ("_" +:+ ?x) with (String "_"%char x) in Hn. by apply sep_inj in Hn as [? _].
Qed.

(** A tenant whose name begins like another's, up to an underscore: its load
    balancers parse as the shorter one's, of a namespace that is the rest. *)
Theorem tenant_prefix_shared (r longer : Reconciler) (rest ns name : string) :
  rc_Tenant longer = rc_Tenant r +:+ "_" +:+ rest → no_char "_"%char rest = true →
  rest ≠ "" → rest ≠ "ing" →
  parseLBName r (lbName longer ns name) = Some (rest, ns +:+ "_" +:+ name).
Proof.
  intros Hl Hno Hne Hing. apply parseLBName_spec. unfold lbName. rewrite Hl.
  split; [by rewrite !string_app_assoc|]. split; [done|]. split; [|done]. by destruct ns.
Qed.

(** ** Witnesses *)
Definition ex_gone : Reconciler :=
  mkReconciler "t1" (Some ["prod"]) (λ _ _, Err ErrK8sNotFound) (λ _, Ok []) "vip-subnet" true "public-net" false.
Definition ex_gone_state : LBState := mkLBState {["lb-1" := ex_lb]} ∅ ∅ ∅
  {["f1" := mkFIPRow "203.0.113.9" "public-net" "port-lb" ""]} ∅ ∅ ∅ ∅ ∅.

Lemma ex_gone_one_fip : one_fip_per_port (s_fips ex_gone_state).
Proof.
  intros i j f g Hi Hj _ _. simpl in Hi, Hj.
  apply lookup_singleton_Some in Hi as [<- _]. by apply lookup_singleton_Some in Hj as [<- _].
Qed.

Definition ex_gone_pass : result () * RefWorld :=
  @Reconcile RefWorld RefOctavia RefClock RefFloating RefServices RefSubnets ex_gone "prod" "web"
    (mkRef ex_gone_state 0).

Lemma Reconcile_gone_witness :
  ex_gone_pass.1 = Ok () ∧ s_fips (rw_state ex_gone_pass.2) !! "f1" = None ∧
  taken_down "lb-1" ex_lb (rw_state ex_gone_pass.2).
Proof.
  pose proof (@Reconcile_gone RefWorld RefOctavia RefClock RefFloating RefServices RefSubnets rw_state
    RefOctavia_laws RefFloating_laws ex_gone "prod" "web"
    (λ j, ∃ row, s_lbs ex_gone_state !! j = Some row ∧ lr_Name row = lbName ex_gone "prod" "web") ex_gone_state
    eq_refl ex_gone_one_fip (conj eq_refl eq_refl) (mkRef ex_gone_state 0) eq_refl) as H.
  fold ex_gone_pass in H.
  assert (is_ok ex_gone_pass.1 = true) as Hok by (vm_compute; reflexivity).
  assert (s_fips (rw_state ex_gone_pass.2) !! "f1" = None) as Hf by (vm_compute; reflexivity).
  revert Hok H Hf. generalize ex_gone_pass. intros [[[]|e] w] Hok H Hf; [|discriminate Hok].
  split; [reflexivity|]. split; [exact Hf|]. destruct H as [_ H]. apply H; [exists ex_lb; split; reflexivity|reflexivity].
Defined.

Definition ex_sweep : result () * RefWorld :=
  @sweepOne RefWorld RefOctavia RefFloating (λ ns, bool_decide (ns = "prod")) ex_gone
    (mkRef ex_gone_state 0).

Lemma sweepOne_safe_witness :
  ex_sweep.1 = Ok () ∧ s_lbs (rw_state ex_sweep.2) = ∅ ∧
  (∀ i f, s_fips (rw_state ex_sweep.2) !! i = Some f → s_fips ex_gone_state !! i = Some f).
Proof.
  pose proof (@sweepOne_safe RefWorld RefOctavia RefFloating rw_state
    RefOctavia_laws RefFloating_laws (λ ns, bool_decide (ns = "prod")) ex_gone ex_gone_state
    eq_refl ex_gone_one_fip (mkRef ex_gone_state 0) eq_refl) as H.
  fold ex_sweep in H.
  assert (s_lbs (rw_state ex_sweep.2) = ∅) as He by (vm_compute; reflexivity).
  revert H He. generalize ex_sweep. intros [[[]|e] w] H He; [|destruct H].
  split; [reflexivity|]. split; [exact He|]. destruct H as [Ht _]. exact (tn_fips_old _ _ _ Ht).
Defined.
