(* ===== verification/IngressTuning.v ===== *)
(** * pkg/ingress/tuning.go: what an Ingress says about its listener

    The source whitelist and the timeouts, read out of annotations.  The
    whitelist is a security control: what is proved is that a value that cannot
    be read never opens the listener. *)

From S2P Require Import Prelude GoStd GoNet K8s LoadBalancing.
From Stdlib Require Import Ascii.

Local Open Scope string_scope.
Local Open Scope list_scope.

Definition SourceRangesAnnotation : string := "octavia.ingress.kubernetes.io/whitelist-source-range".
Definition TimeoutClientDataAnnotation : string := "octavia.ingress.kubernetes.io/timeout-client-data".
Definition TimeoutMemberDataAnnotation : string := "octavia.ingress.kubernetes.io/timeout-member-data".
Definition TimeoutMemberConnectAnnotation : string := "octavia.ingress.kubernetes.io/timeout-member-connect".
Definition TimeoutTCPInspectAnnotation : string := "octavia.ingress.kubernetes.io/timeout-tcp-inspect".

Record listenerTuning := mkTuning {
  tn_AllowedCIDRs : list string;
  tn_TimeoutClientData : option Z;
  tn_TimeoutMemberData : option Z;
  tn_TimeoutMemberConnect : option Z;
  tn_TimeoutTCPInspect : option Z }.

(** One comma-separated part; a blank one is passed over. *)
Definition cidr_step (cidrs : list string) (part : string) : result (list string) :=
  let cidr := trim_space part in
  if decide (cidr = "") then Ok cidrs
  else match ParseCIDR cidr with
  | Some _ => Ok (cidrs ++ [cidr])
  | None => Err (ErrMsg (SourceRangesAnnotation +:+ ": " +:+ go_quote cidr +:+ " is not a CIDR"))
  end.

Definition allowed_cidrs (ing : Ingress) : result (list string) :=
  let raw := trim_space (in_annotation ing SourceRangesAnnotation) in
  if decide (raw = "") then Ok []
  else
    cidrs ← fold_result cidr_step [] (split_char ","%char raw);
    if decide (cidrs = []) then Err (ErrMsg (SourceRangesAnnotation +:+ " is set but contains no CIDR"))
    else Ok cidrs.

Definition timeout_of (ing : Ingress) (key : string) : result (option Z) :=
  let raw := trim_space (in_annotation ing key) in
  if decide (raw = "") then Ok None
  else match ParseInt 64 raw with
  | Some v => if decide (v < 0)%Z
              then Err (ErrMsg (key +:+ ": " +:+ go_quote raw +:+ " is not a non-negative integer (milliseconds)"))
              else Ok (Some v)
  | None => Err (ErrMsg (key +:+ ": " +:+ go_quote raw +:+ " is not a non-negative integer (milliseconds)"))
  end.

Definition tuningFromAnnotations (ing : Ingress) : result listenerTuning :=
  cidrs ← allowed_cidrs ing;
  client ← timeout_of ing TimeoutClientDataAnnotation;
  member ← timeout_of ing TimeoutMemberDataAnnotation;
  connect ← timeout_of ing TimeoutMemberConnectAnnotation;
  inspect ← timeout_of ing TimeoutTCPInspectAnnotation;
  Ok (mkTuning cidrs client member connect inspect).

Definition cidrsEqual (a b : list string) : bool :=
  if decide (length a ≠ length b) then false
  else bool_decide (sort_strings a = sort_strings b).

Definition timeoutDrift (desired : option Z) (live : Z) : bool :=
  match desired with Some v => negb (bool_decide (v = live)) | None => false end.

(** ** Lemmas *)
Lemma cidrsEqual_spec a b : cidrsEqual a b = true ↔ a ≡ₚ b.
Proof.
  unfold cidrsEqual. case_decide as Hl.
  - split; [done|]. by intros H%Permutation_length.
  - rewrite bool_decide_eq_true. split; [|apply sort_strings_unique].
    intros H. by rewrite <-(sort_strings_perm a), <-(sort_strings_perm b), H.
Qed.

Lemma timeoutDrift_false desired live : timeoutDrift desired live = false ↔ timeout_given desired live.
Proof. destruct desired as [v|]; simpl; [|done]. rewrite negb_false_iff, bool_decide_eq_true. naive_solver. Qed.

(** The parts of a whitelist that say something. *)
Definition cidr_parts (raw : string) : list string :=
  filter (λ c, c ≠ "") (map trim_space (split_char ","%char raw)).

Lemma cidr_fold parts cidrs :
  match fold_result cidr_step cidrs parts with
  | Ok l => l = cidrs ++ filter (λ c, c ≠ "") (map trim_space parts) ∧
      ∀ c, c ∈ filter (λ c, c ≠ "") (map trim_space parts) → is_Some (ParseCIDR c)
  | Err _ => ∃ c, c ∈ filter (λ c, c ≠ "") (map trim_space parts) ∧ ParseCIDR c = None
  end.
Proof.
  revert cidrs. induction parts as [|p parts IH]; intros cidrs; simpl.
  { rewrite app_nil_r. split; [done|]. by intros c ?%elem_of_nil. }
  unfold mbind, result_bind, cidr_step at 1. rewrite filter_cons.
  case_decide as Hp; [rewrite decide_False by tauto; apply IH|]. rewrite decide_True by done.
  destruct (ParseCIDR (trim_space p)) as [x|] eqn:Hc.
  - specialize (IH (cidrs ++ [trim_space p])). destruct (fold_result _ _ _) as [l|e].
    + destruct IH as [-> IH]. rewrite <-app_assoc. split; [done|].
      intros c [->|Hc']%elem_of_cons; [by eexists|auto].
    + destruct IH as (c & Hc' & Hn). exists c. split; [by right|done].
  - exists (trim_space p). split; [by left|done].
Qed.

Lemma allowed_cidrs_spec ing :
  let raw := trim_space (in_annotation ing SourceRangesAnnotation) in
  match allowed_cidrs ing with
  | Ok l => l = cidr_parts raw ∧ (∀ c, c ∈ l → is_Some (ParseCIDR c)) ∧ (raw ≠ "" → l ≠ [])
  | Err _ => raw ≠ "" ∧ (cidr_parts raw = [] ∨ ∃ c, c ∈ cidr_parts raw ∧ ParseCIDR c = None)
  end.
Proof.
  intros raw. unfold allowed_cidrs. fold raw. case_decide as Hr.
  { rewrite Hr. split; [done|]. split; [by intros c ?%elem_of_nil|done]. }
  pose proof (cidr_fold (split_char ","%char raw) []) as H. fold (cidr_parts raw) in H.
  unfold mbind, result_bind. destruct (fold_result _ _ _) as [l|e].
  - destruct H as [-> H]. simpl. case_decide as Hn; [by split; [|left]|]. done.
  - split; [done|]. by right.
Qed.

Lemma timeout_of_spec ing key :
  let raw := trim_space (in_annotation ing key) in
  match timeout_of ing key with
  | Ok None => raw = ""
  | Ok (Some v) => raw ≠ "" ∧ ParseInt 64 raw = Some v ∧ (0 ≤ v < 2 ^ 63)%Z
  | Err _ => raw ≠ "" ∧ ∀ v, ParseInt 64 raw = Some v → (v < 0)%Z
  end.
Proof.
  intros raw. unfold timeout_of. fold raw. case_decide as Hr; [done|].
  destruct (ParseInt 64 raw) as [v|] eqn:Hv; [|done]. case_decide as Hneg.
  - split; [done|]. by intros v' [= <-].
  - do 2 (split; [done|]). split; [lia|]. unfold ParseInt in Hv.
    repeat case_match; simplify_eq; lia.
Qed.

(** ** Properties *)

(** A whitelist that cannot be read never opens a listener.  A success is
    exactly the parts of the annotation that are not blank, each a CIDR, and is
    empty only where the annotation says nothing at all; a timeout is managed
    exactly where its annotation says something, and is then a number of
    milliseconds from 0 that fits 64 bits.  A failure is a part that is no CIDR,
    a whitelist of blanks, or a timeout that is no such number. *)
Theorem tuningFromAnnotations_strict (ing : Ingress) :
  let said key := trim_space (in_annotation ing key) in
  let timeout key (o : option Z) := match o with
    | None => said key = ""
    | Some v => said key ≠ "" ∧ ParseInt 64 (said key) = Some v ∧ (0 ≤ v < 2 ^ 63)%Z end in
  let unreadable key := said key ≠ "" ∧ ∀ v, ParseInt 64 (said key) = Some v → (v < 0)%Z in
  match tuningFromAnnotations ing with
  | Ok t =>
      tn_AllowedCIDRs t = cidr_parts (said SourceRangesAnnotation) ∧
      (∀ c, c ∈ tn_AllowedCIDRs t → is_Some (ParseCIDR c)) ∧
      (tn_AllowedCIDRs t = [] → said SourceRangesAnnotation = "") ∧
      timeout TimeoutClientDataAnnotation (tn_TimeoutClientData t) ∧
      timeout TimeoutMemberDataAnnotation (tn_TimeoutMemberData t) ∧
      timeout TimeoutMemberConnectAnnotation (tn_TimeoutMemberConnect t) ∧
      timeout TimeoutTCPInspectAnnotation (tn_TimeoutTCPInspect t)
  | Err _ =>
      (said SourceRangesAnnotation ≠ "" ∧ (cidr_parts (said SourceRangesAnnotation) = [] ∨
         ∃ c, c ∈ cidr_parts (said SourceRangesAnnotation) ∧ ParseCIDR c = None)) ∨
      unreadable TimeoutClientDataAnnotation ∨ unreadable TimeoutMemberDataAnnotation ∨
      unreadable TimeoutMemberConnectAnnotation ∨ unreadable TimeoutTCPInspectAnnotation
  end.
Proof.
  intros said timeout unreadable. unfold tuningFromAnnotations, mbind, result_bind.
  pose proof (allowed_cidrs_spec ing) as Hc. destruct (allowed_cidrs ing) as [cidrs|]; [|by left].
  pose proof (timeout_of_spec ing TimeoutClientDataAnnotation) as H1.
  destruct (timeout_of ing TimeoutClientDataAnnotation) as [t1|]; [|by right; left].
  pose proof (timeout_of_spec ing TimeoutMemberDataAnnotation) as H2.
  destruct (timeout_of ing TimeoutMemberDataAnnotation) as [t2|]; [|by do 2 right; left].
  pose proof (timeout_of_spec ing TimeoutMemberConnectAnnotation) as H3.
  destruct (timeout_of ing TimeoutMemberConnectAnnotation) as [t3|]; [|by do 3 right; left].
  pose proof (timeout_of_spec ing TimeoutTCPInspectAnnotation) as H4.
  destruct (timeout_of ing TimeoutTCPInspectAnnotation) as [t4|]; [|by do 4 right].
  destruct Hc as (-> & Hc & Hne). cbn [tn_AllowedCIDRs tn_TimeoutClientData tn_TimeoutMemberData
    tn_TimeoutMemberConnect tn_TimeoutTCPInspect].
  split; [done|]. split; [done|].
  split; [intros Hn; destruct (decide (said SourceRangesAnnotation = "")); [done|by destruct (Hne n)]|done].
Qed.
