(* ===== verification/IngressPlan.v ===== *)
(** * pkg/ingress/l7.go: an Ingress as pools and an ordered list of policies

    What an Ingress asks for, as the source computes it -- its backends, the
    pools they are, the policies in the order Octavia is to consult them -- and
    what a listener holding those policies does with a request. *)

From S2P Require Import Prelude GoStd K8s LoadBalancing.
From Stdlib Require Import Ascii.

Local Open Scope string_scope.
Local Open Scope list_scope.

(** ** Backends *)
Record backendRef := mkBackend { br_Service : string; br_Port : ServiceBackendPort }.
#[export] Instance backendRef_eq_dec : EqDecision backendRef.
Proof. solve_decision. Defined.

Definition portKey (b : backendRef) : string :=
  if decide (bp_Name (br_Port b) ≠ "") then bp_Name (br_Port b) else pretty (bp_Number (br_Port b)).

Definition backend_key (b : backendRef) : string := br_Service b +:+ "|" +:+ portKey b.

(** [add], over what was [seen] and [all]. *)
Definition add_backend (st : gset string * list backendRef) (b : option IngressBackend)
    : option backendRef * (gset string * list backendRef) :=
  match b with
  | Some (Some (service, port)) =>
      let ref := mkBackend service port in
      if decide (backend_key ref ∈ st.1) then (Some ref, st)
      else (Some ref, ({[backend_key ref]} ∪ st.1, st.2 ++ [ref]))
  | _ => (None, st)
  end.

Definition rule_paths (rule : IngressRule) : list HTTPIngressPath := opt_or [] (ir_HTTP rule).

Definition collectBackends (ing : Ingress) : option backendRef * list backendRef :=
  let '(default, st) := add_backend (∅, []) (in_DefaultBackend ing) in
  (default,
   (fold_left (λ st rule, fold_left (λ st p, (add_backend st (Some (ip_Backend p))).2) (rule_paths rule) st)
      (in_Rules ing) st).2).

Definition poolName (lbname : string) (b : backendRef) : string :=
  lbname +:+ "_" +:+ br_Service b +:+ "_" +:+ portKey b.

Definition resolveServicePort (svc : Service) (port : ServiceBackendPort) : result ServicePort :=
  match find (λ sp, (bool_decide (bp_Name port ≠ "") && bool_decide (sp_Name sp = bp_Name port)) ||
                    (bool_decide (bp_Name port = "") && bool_decide (sp_Port sp = bp_Number port)))
          (sv_Ports svc) with
  | Some sp => Ok sp
  | None => Err (ErrMsg ("service " +:+ sv_Name svc +:+ " has no port " +:+ go_quote (bp_Name port) +:+
                   "/" +:+ pretty (bp_Number port)))
  end.

(** ** Policies *)
Definition PathTypeExact : string := "Exact".
Definition PathTypePrefix : string := "Prefix".
Definition PathTypeImplementationSpecific : string := "ImplementationSpecific".

Record desiredPolicy := mkDesired {
  dp_Name : string; dp_PoolID : string; dp_Host : string; dp_Path : string; dp_PathType : string }.
#[export] Instance desiredPolicy_eq_dec : EqDecision desiredPolicy.
Proof. solve_decision. Defined.

Definition signature (d : desiredPolicy) : string :=
  dp_Name d +:+ "|" +:+ dp_PoolID d +:+ "|" +:+ dp_Host d +:+ "|" +:+ dp_Path d +:+ "|" +:+ dp_PathType d.

(** The policy of one path, not yet named: none for a resource backend, none
    where there is no pool. *)
Definition desired_path (lbname : string) (poolIDs : gmap string string) (host : string)
    (p : HTTPIngressPath) : option desiredPolicy :=
  match ip_Backend p with
  | None => None
  | Some (service, port) =>
      let poolID := opt_or "" (poolIDs !! poolName lbname (mkBackend service port)) in
      if decide (poolID = "") then None
      else Some (mkDesired "" poolID host (ip_Path p) (opt_or PathTypePrefix (ip_PathType p)))
  end.

Definition unordered_policies (ing : Ingress) (lbname : string) (poolIDs : gmap string string)
    : list desiredPolicy :=
  flat_map (λ rule, omap (desired_path lbname poolIDs (ir_Host rule)) (rule_paths rule)) (in_Rules ing).

(** [sort.SliceStable], by the length of the path, the longest first. *)
Fixpoint insert_longest (d : desiredPolicy) (l : list desiredPolicy) : list desiredPolicy :=
  match l with
  | [] => [d]
  | x :: l' => if decide (String.length (dp_Path d) < String.length (dp_Path x))%nat
               then x :: insert_longest d l' else d :: l
  end.
Fixpoint longest_first (l : list desiredPolicy) : list desiredPolicy :=
  match l with [] => [] | d :: l' => insert_longest d (longest_first l') end.

Definition name_policy (lbname : string) (i : nat) (d : desiredPolicy) : desiredPolicy :=
  mkDesired (lbname +:+ "_l7_" +:+ pretty (Z.of_nat i)) (dp_PoolID d) (dp_Host d) (dp_Path d) (dp_PathType d).

Definition buildDesiredPolicies (ing : Ingress) (lbname : string) (poolIDs : gmap string string)
    : list desiredPolicy :=
  imap (name_policy lbname) (longest_first (unordered_policies ing lbname poolIDs)).

(** *** As Octavia's rules *)
Definition TypeHostName : string := "HOST_NAME".
Definition TypePath : string := "PATH".
Definition CompareTypeEqual : string := "EQUAL_TO".
Definition CompareTypeStartWith : string := "STARTS_WITH".
Definition ActionRedirectToPool : string := "REDIRECT_TO_POOL".

Definition rulesFor (d : desiredPolicy) : list L7Rule :=
  (if decide (dp_Host d ≠ "") then [mkL7Rule TypeHostName CompareTypeEqual (dp_Host d)] else []) ++
  (if decide (dp_Path d ≠ "") then
     [mkL7Rule TypePath (if decide (dp_PathType d = PathTypeExact) then CompareTypeEqual
                         else CompareTypeStartWith) (dp_Path d)]
   else []).

(** The loop of [existingSignature] over a live policy's rules. *)
Definition read_rule (got : desiredPolicy) (rule : L7Rule) : desiredPolicy :=
  if decide (l7_RuleType rule = TypeHostName) then
    mkDesired (dp_Name got) (dp_PoolID got) (l7_Value rule) (dp_Path got) (dp_PathType got)
  else if decide (l7_RuleType rule = TypePath) then
    mkDesired (dp_Name got) (dp_PoolID got) (dp_Host got) (l7_Value rule)
      (if decide (l7_CompareType rule = CompareTypeEqual) then PathTypeExact else PathTypePrefix)
  else got.
Definition read_policy (name pool : string) (rules : list L7Rule) : desiredPolicy :=
  fold_left read_rule rules (mkDesired name pool "" "" "").

(** What the desired policy is on the listener. *)
Definition wanted_row (d : desiredPolicy) : L7PolicyRow :=
  mkL7Row (dp_Name d) ActionRedirectToPool (dp_PoolID d) (rulesFor d).

(** ** What a listener does with a request

    The rules of a policy are ANDed, a policy without rules claims nothing, the
    first policy by position decides, and what none claims goes to the
    listener's default pool ("" for none). *)
Record Request := mkRequest { rq_Host : string; rq_Path : string }.

Definition rule_matches (rq : Request) (rule : L7Rule) : bool :=
  if decide (l7_RuleType rule = TypeHostName) then
    bool_decide (l7_CompareType rule = CompareTypeEqual) && bool_decide (l7_Value rule = rq_Host rq)
  else if decide (l7_RuleType rule = TypePath) then
    if decide (l7_CompareType rule = CompareTypeEqual) then bool_decide (l7_Value rule = rq_Path rq)
    else bool_decide (l7_CompareType rule = CompareTypeStartWith) && has_prefix (rq_Path rq) (l7_Value rule)
  else false.
Definition policy_claims (rq : Request) (p : L7PolicyRow) : bool :=
  negb (bool_decide (lp_rules p = [])) && forallb (rule_matches rq) (lp_rules p).
Definition routed (policies : list L7PolicyRow) (default : string) (rq : Request) : string :=
  match find (policy_claims rq) policies with Some p => lp_RedirectPoolID p | None => default end.

(** ** What Kubernetes says

    A rule without a host serves every host, one with a wildcard host every
    host that has one label in place of the asterisk, any other its own host
    only.  The host is looked at first: of the rules that serve the request's
    host only those of the most specific kind of host count -- a host of its
    own before a wildcard before none.  Of their paths an Exact one is the path,
    a Prefix one covers it element by element, a trailing slash aside; of
    several that match the longest decides, and of two alike an Exact one.
    (A path of type ImplementationSpecific is the implementation's to match; it
    is taken for a Prefix one.) *)
Record Route := mkRoute { rt_Host : string; rt_Path : string; rt_Type : string; rt_Backend : option (string * ServiceBackendPort) }.
Definition k8s_routes (ing : Ingress) : list Route :=
  flat_map (λ rule, map (λ p, mkRoute (ir_Host rule) (ip_Path p) (opt_or PathTypePrefix (ip_PathType p)) (ip_Backend p))
    (rule_paths rule)) (in_Rules ing).

Definition k8s_host (host req : string) : bool :=
  if decide (host = "") then true
  else match drop_prefix "*." host with
  | Some domain =>
      match cut req "." with
      | Some (label, rest) => negb (bool_decide (label = "")) && bool_decide (rest = domain)
      | None => false
      end
  | None => bool_decide (host = req)
  end.
Definition host_rank (host : string) : nat :=
  if decide (host = "") then 0 else if has_prefix host "*." then 1 else 2.

Definition trim_slash (p : string) : string := trim_suffix p "/".
Definition k8s_path (pathType path req : string) : bool :=
  if decide (pathType = PathTypeExact) then bool_decide (req = path)
  else bool_decide (req = trim_slash path) || has_prefix req (trim_slash path +:+ "/").

(** The route is of a rule the request's host selects among [l], and covers its path. *)
Definition k8s_matches (l : list Route) (rq : Request) (x : Route) : bool :=
  k8s_host (rt_Host x) (rq_Host rq) &&
  forallb (λ y, negb (k8s_host (rt_Host y) (rq_Host rq)) || bool_decide (host_rank (rt_Host y) ≤ host_rank (rt_Host x))%nat) l &&
  k8s_path (rt_Type x) (rt_Path x) (rq_Path rq).
(** [better a b]: [a] has precedence over [b]. *)
Definition better (a b : Route) : Prop :=
  (String.length (rt_Path b) < String.length (rt_Path a))%nat ∨
  (String.length (rt_Path b) = String.length (rt_Path a) ∧
   rt_Type a = PathTypeExact ∧ rt_Type b ≠ PathTypeExact).
Definition k8s_chooses (l : list Route) (rq : Request) (x : Route) : Prop :=
  x ∈ l ∧ k8s_matches l rq x = true ∧ ∀ y, y ∈ l → k8s_matches l rq y = true → ¬ better y x.

(** The pool that was made for a route's backend, "" for none. *)
Definition pool_of (lbname : string) (poolIDs : gmap string string) (x : Route) : string :=
  match rt_Backend x with
  | Some (service, port) => opt_or "" (poolIDs !! poolName lbname (mkBackend service port))
  | None => ""
  end.

(** ** Lemmas: the order of policies *)
Abbreviation path_length d := (String.length (dp_Path d)) (only parsing).

(** What consulting the policies by length amounts to: of those that claim the
    request the longest, and of two as long the first of the manifest. *)
Fixpoint first_longest {A} (len : A → nat) (claims : A → bool) (l : list A) : option A :=
  match l with
  | [] => None
  | d :: l' =>
      if claims d then
        match first_longest len claims l' with
        | Some x => if decide (len d < len x)%nat then Some x else Some d
        | None => Some d
        end
      else first_longest len claims l'
  end.

Lemma insert_longest_perm d l : insert_longest d l ≡ₚ d :: l.
Proof.
  induction l as [|x l IH]; simpl; [done|]. case_decide; [|done]. rewrite IH. apply Permutation_swap.
Qed.
Lemma longest_first_perm l : longest_first l ≡ₚ l.
Proof. induction l as [|d l IH]; simpl; [done|]. by rewrite insert_longest_perm, IH. Qed.

Definition longest_order (a b : desiredPolicy) : Prop := (path_length b ≤ path_length a)%nat.
Lemma insert_longest_sorted d l :
  StronglySorted longest_order l → StronglySorted longest_order (insert_longest d l).
Proof.
  induction 1 as [|x l Hl IH Hx]; simpl; [by repeat constructor|]. case_decide as Hlt.
  - constructor; [done|]. rewrite insert_longest_perm. constructor; [|done]. unfold longest_order. lia.
  - constructor; [by constructor|]. constructor; [unfold longest_order; lia|].
    eapply Forall_impl; [exact Hx|]. unfold longest_order. simpl. lia.
Qed.
Lemma longest_first_sorted l : StronglySorted longest_order (longest_first l).
Proof. induction l as [|d l IH]; simpl; [constructor|by apply insert_longest_sorted]. Qed.

Lemma find_insert claims d l :
  StronglySorted longest_order l →
  find claims (insert_longest d l) =
    if claims d then
      match find claims l with
      | Some x => if decide (path_length d < path_length x)%nat then Some x else Some d
      | None => Some d
      end
    else find claims l.
Proof.
  induction 1 as [|x l Hl IH Hx]; simpl; [done|]. case_decide as Hlt; simpl.
  - destruct (claims x) eqn:Hcx; [|done]. destruct (claims d); [|done]. by rewrite decide_True.
  - destruct (claims d) eqn:Hcd; [|done]. destruct (claims x) eqn:Hcx.
    + by rewrite decide_False.
    + destruct (find claims l) as [y|] eqn:Hy; [|done]. apply find_some in Hy as [Hy _].
      rewrite Forall_forall in Hx. rewrite <-list_elem_of_In in Hy. specialize (Hx y Hy).
      unfold longest_order in Hx. rewrite decide_False; [done|lia].
Qed.

Lemma find_longest_first claims l :
  find claims (longest_first l) = first_longest (λ d, path_length d) claims l.
Proof.
  induction l as [|d l IH]; simpl; [done|]. rewrite find_insert by apply longest_first_sorted. by rewrite IH.
Qed.

Lemma first_longest_Some {A} len (claims : A → bool) l d :
  first_longest len claims l = Some d →
  ∃ l1 l2, l = l1 ++ d :: l2 ∧ claims d = true ∧
    (∀ x, x ∈ l1 → claims x = true → (len x < len d)%nat) ∧
    (∀ x, x ∈ l2 → claims x = true → (len x ≤ len d)%nat).
Proof.
  revert d. induction l as [|e l IH]; intros d; simpl; [done|].
  assert (first_longest len claims l = None → ∀ x, x ∈ l → claims x = true → False) as Hnone.
  { clear. induction l as [|y l IH]; simpl; [by intros _ x ?%elem_of_nil|].
    destruct (claims y) eqn:Hy; [by repeat case_match|]. intros Hn x [->|Hx]%elem_of_cons; [congruence|eauto]. }
  destruct (claims e) eqn:He.
  - destruct (first_longest len claims l) as [x|] eqn:Hx.
    + destruct (IH x eq_refl) as (l1 & l2 & -> & Hcx & H1 & H2). case_decide as Hlt; intros [= <-].
      * exists (e :: l1), l2. do 2 (split; [done|]). split; [|done].
        intros y [->|Hy]%elem_of_cons; auto.
      * exists [], (l1 ++ x :: l2). do 2 (split; [done|]). split; [by intros y ?%elem_of_nil|].
        intros y Hy Hcy. apply elem_of_app in Hy as [Hy|[->|Hy]%elem_of_cons].
        -- specialize (H1 y Hy Hcy). lia.
        -- lia.
        -- specialize (H2 y Hy Hcy). lia.
    + intros [= <-]. exists [], l. do 2 (split; [done|]). split; [by intros y ?%elem_of_nil|].
      intros y Hy Hcy. by destruct (Hnone eq_refl y).
  - intros Hd. destruct (IH d Hd) as (l1 & l2 & -> & Hcd & H1 & H2).
    exists (e :: l1), l2. do 2 (split; [done|]). split; [|done].
    intros y [->|Hy]%elem_of_cons; [congruence|auto].
Qed.
Lemma first_longest_None {A} len (claims : A → bool) l :
  first_longest len claims l = None → ∀ x, x ∈ l → claims x = false.
Proof.
  induction l as [|y l IH]; simpl; [by intros _ x ?%elem_of_nil|].
  destruct (claims y) eqn:Hy; [by repeat case_match|]. intros Hn x [->|Hx]%elem_of_cons; auto.
Qed.

Lemma first_longest_map {A B} (f : A → B) len claims l :
  first_longest len claims (map f l) = f <$> first_longest (λ x, len (f x)) (λ x, claims (f x)) l.
Proof.
  induction l as [|x l IH]; simpl; [done|]. rewrite IH. destruct (claims (f x)); [|done].
  destruct (first_longest _ _ l); simpl; [|done]. by case_decide.
Qed.

(** ** Lemmas: what a policy claims *)
Definition octavia_path (pathType path req : string) : bool :=
  if decide (pathType = PathTypeExact) then bool_decide (path = req) else has_prefix req path.

Lemma claims_wanted rq d :
  dp_Path d ≠ "" →
  policy_claims rq (wanted_row d) =
    (bool_decide (dp_Host d = "") || bool_decide (dp_Host d = rq_Host rq)) &&
    octavia_path (dp_PathType d) (dp_Path d) (rq_Path rq).
Proof.
  intros Hp. unfold policy_claims, wanted_row, rulesFor, octavia_path. simpl.
  rewrite (decide_True (P := dp_Path d ≠ "")) by done. destruct (decide (dp_PathType d = PathTypeExact));
    (destruct (decide (dp_Host d = "")) as [Hh|Hh];
     [rewrite decide_False by tauto|rewrite decide_True by done]); simpl;
    unfold rule_matches; simpl; rewrite ?(bool_decide_false (dp_Host d = "")) by done;
    rewrite ?(bool_decide_true (dp_Host d = "")) by done; simpl; by rewrite ?andb_true_r.
Qed.

(** The name does not matter to what is claimed. *)
Lemma find_named lbname (claims : L7PolicyRow → bool) l k :
  (∀ d d', dp_PoolID d = dp_PoolID d' → rulesFor d = rulesFor d' → claims (wanted_row d) = claims (wanted_row d')) →
  lp_RedirectPoolID <$> find claims (map wanted_row (imap (λ i, name_policy lbname (k + i)) l)) =
  dp_PoolID <$> find (λ d, claims (wanted_row d)) l.
Proof.
  intros Hc. revert k. induction l as [|d l IH]; intros k; simpl; [done|].
  rewrite (Hc (name_policy lbname (k + 0) d) d) by done. destruct (claims (wanted_row d)); [done|].
  rewrite <-(IH (S k)). f_equal. f_equal. f_equal. apply imap_ext. intros i x _. simpl. f_equal. lia.
Qed.

Lemma routed_desired ing lbname poolIDs default rq :
  routed (map wanted_row (buildDesiredPolicies ing lbname poolIDs)) default rq =
  match first_longest (λ d, path_length d) (λ d, policy_claims rq (wanted_row d)) (unordered_policies ing lbname poolIDs) with
  | Some d => dp_PoolID d
  | None => default
  end.
Proof.
  unfold routed, buildDesiredPolicies. rewrite <-find_longest_first.
  pose proof (find_named lbname (policy_claims rq)
    (longest_first (unordered_policies ing lbname poolIDs)) 0) as H. simpl in H.
  specialize (H ltac:(intros d d' Hp Hr; unfold policy_claims, wanted_row; simpl; by rewrite Hr)).
  repeat case_match; simplify_eq/=; congruence.
Qed.

(** ** Lemmas: paths, element by element *)

(** A Prefix path in the form tenants write it, and a request that no path
    covers half an element of. *)
Definition plain_path (p : string) : Prop := p = "/" ∨ has_suffix p "/" = false.
Definition no_sibling (p req : string) : Prop :=
  p = "/" ∨ ∀ x, req = p +:+ x → x = "" ∨ ∃ y, x = "/" +:+ y.

Lemma prefix_agrees t p req :
  t ≠ PathTypeExact → plain_path p → no_sibling p req → has_prefix req "/" = true →
  has_prefix req p = k8s_path t p req.
Proof.
  intros Ht Hp Hs Hr. unfold k8s_path. rewrite decide_False by done. unfold trim_slash.
  destruct (decide (p = "/")) as [->|Hne].
  { change (trim_suffix "/" "/") with "". change ("" +:+ "/") with "/". by rewrite Hr, orb_true_r. }
  destruct Hp as [?|Hp]; [done|]. destruct Hs as [?|Hs]; [done|].
  assert (trim_suffix p "/" = p) as ->.
  { unfold has_suffix in Hp. apply bool_decide_eq_false in Hp. unfold trim_suffix.
    destruct (drop_suffix "/" p); [by destruct Hp; eexists|done]. }
  apply eq_true_iff_eq. rewrite orb_true_iff, bool_decide_eq_true, !has_prefix_spec. split.
  - intros [x Hx]. destruct (Hs x Hx) as [->|[y ->]].
    + left. by rewrite string_app_nil_r in Hx.
    + right. exists y. by rewrite string_app_assoc.
  - intros [->|[y Hy]]; [exists ""; by rewrite string_app_nil_r|].
    exists ("/" +:+ y). by rewrite <-string_app_assoc.
Qed.

Lemma path_agrees d req :
  (dp_PathType d ≠ PathTypeExact → plain_path (dp_Path d) ∧ no_sibling (dp_Path d) req) →
  has_prefix req "/" = true →
  octavia_path (dp_PathType d) (dp_Path d) req = k8s_path (dp_PathType d) (dp_Path d) req.
Proof.
  intros Hd Hr. unfold octavia_path. destruct (decide (dp_PathType d = PathTypeExact)) as [He|He].
  - unfold k8s_path. rewrite decide_True by done. by apply bool_decide_ext.
  - destruct (Hd He) as [Hp Hs]. by apply prefix_agrees.
Qed.

(** Two paths as long that both cover a request are one path. *)
Lemma matched_same_path rq a b :
  octavia_path (dp_PathType a) (dp_Path a) (rq_Path rq) = true →
  octavia_path (dp_PathType b) (dp_Path b) (rq_Path rq) = true →
  path_length a = path_length b → dp_Path a = dp_Path b.
Proof.
  intros Ha Hb Hlen. unfold octavia_path in *.
  assert (∀ d, (if decide (dp_PathType d = PathTypeExact) then bool_decide (dp_Path d = rq_Path rq)
    else has_prefix (rq_Path rq) (dp_Path d)) = true → ∃ x, rq_Path rq = dp_Path d +:+ x) as Hpre.
  { intros d H. case_decide; [|by apply has_prefix_spec].
    apply bool_decide_eq_true in H as ->. exists "". by rewrite string_app_nil_r. }
  destruct (Hpre a Ha) as [x Hx], (Hpre b Hb) as [y Hy]. rewrite Hx in Hy. clear -Hy Hlen.
  revert Hy Hlen. generalize (dp_Path a), (dp_Path b). intros s.
  induction s as [|c s IH]; intros [|d t]; simpl; try done. intros [= -> Hy] [= Hlen]. f_equal. by apply IH.
Qed.

(** ** Lemmas: routes and policies *)
Definition desired_of (lbname : string) (poolIDs : gmap string string) (x : Route) : desiredPolicy :=
  mkDesired "" (pool_of lbname poolIDs x) (rt_Host x) (rt_Path x) (rt_Type x).

Lemma unordered_routes ing lbname poolIDs :
  (∀ x, x ∈ k8s_routes ing → pool_of lbname poolIDs x ≠ "") →
  unordered_policies ing lbname poolIDs = map (desired_of lbname poolIDs) (k8s_routes ing).
Proof.
  unfold unordered_policies, k8s_routes. induction (in_Rules ing) as [|rule rules IH]; simpl; [done|]. intros H.
  rewrite map_app, <-IH; [|intros x Hx; apply H, elem_of_app; by right]. f_equal.
  assert (∀ x, x ∈ map (λ p, mkRoute (ir_Host rule) (ip_Path p) (opt_or PathTypePrefix (ip_PathType p)) (ip_Backend p))
    (rule_paths rule) → pool_of lbname poolIDs x ≠ "") as Hr by (intros x Hx; apply H, elem_of_app; by left).
  clear -Hr. induction (rule_paths rule) as [|p ps IH]; simpl in *; [done|].
  rewrite <-IH by (intros x Hx; apply Hr; by right).
  specialize (Hr _ (list_elem_of_here _ _)). unfold desired_of, desired_path, pool_of in *. simpl in *.
  destruct (ip_Backend p) as [[service port]|]; [|done]. by rewrite decide_False.
Qed.

(** A host of its own, or none, is served by that host alone, or by all. *)
Lemma plain_host h req :
  (k8s_host h req = true → has_prefix h "*." = false) → k8s_host h req = bool_decide (h = "") || bool_decide (h = req).
Proof.
  unfold k8s_host, has_prefix. destruct (decide (h = "")) as [->|Hne]; [done|].
  rewrite (bool_decide_false (h = "")) by done. rewrite orb_false_l. destruct (drop_prefix "*." h) as [domain|] eqn:Hd; [|done].
  rewrite (bool_decide_true (is_Some (Some domain))) by (by eexists). apply drop_prefix_Some in Hd as ->. intros H.
  assert (bool_decide ("*." +:+ domain = req) = true →
    match cut req "." with
    | Some (label, rest) => negb (bool_decide (label = "")) && bool_decide (rest = domain)
    | None => false
    end = true) as Heq.
  { intros <-%bool_decide_eq_true. change ("*." +:+ domain) with ("*" +:+ String "."%char domain).
    rewrite (cut_char_app "."%char "*" domain) by done. simpl. by apply bool_decide_eq_true. }
  destruct (match cut req "." with Some _ => _ | None => _ end); [by specialize (H eq_refl)|].
  destruct (bool_decide ("*." +:+ domain = req)); [by specialize (Heq eq_refl)|done].
Qed.

(** ** Lemmas: a policy read back *)

(** The rules come back in any order; a host and a path are read all the same. *)
Lemma read_rules_perm name pool d rules :
  rules ≡ₚ rulesFor d →
  read_policy name pool rules = mkDesired name pool (dp_Host d) (dp_Path d)
    (if decide (dp_Path d = "") then "" else
     if decide (dp_PathType d = PathTypeExact) then PathTypeExact else PathTypePrefix).
Proof.
  intros Hr. unfold rulesFor in Hr.
  destruct (decide (dp_Host d ≠ "")) as [Hh|Hh]; destruct (decide (dp_Path d ≠ "")) as [Hp|Hp]; simpl in Hr.
  - symmetry in Hr. apply Permutation_length_2_inv in Hr as [->| ->];
      unfold read_policy; simpl; rewrite (decide_False (P := dp_Path d = "")) by done; by case_decide.
  - apply Permutation_singleton_r in Hr as ->. unfold read_policy; simpl.
    destruct (decide (dp_Path d = "")) as [->|]; done.
  - apply Permutation_singleton_r in Hr as ->. unfold read_policy; simpl.
    rewrite (decide_False (P := dp_Path d = "")) by done.
    destruct (decide (dp_Host d = "")) as [->|]; [by case_decide|done].
  - apply Permutation_nil_r in Hr as ->. unfold read_policy; simpl.
    destruct (decide (dp_Path d = "")) as [->|]; [|done]. by destruct (decide (dp_Host d = "")) as [->|].
Qed.

(** A policy whose path type Octavia's rules can tell. *)
Definition representable (d : desiredPolicy) : Prop :=
  dp_Path d ≠ "" ∧ (dp_PathType d = PathTypeExact ∨ dp_PathType d = PathTypePrefix).
#[export] Instance representable_dec d : Decision (representable d) := _.

Lemma read_back d rules :
  rules ≡ₚ rulesFor d → representable d → read_policy (dp_Name d) (dp_PoolID d) rules = d.
Proof.
  intros Hr [Hp Ht]. rewrite (read_rules_perm _ _ d) by done. rewrite decide_False by done.
  destruct d as [n po h pa ty]; simpl in *. by destruct Ht as [-> | ->].
Qed.

Lemma signature_type d t :
  signature (mkDesired (dp_Name d) (dp_PoolID d) (dp_Host d) (dp_Path d) t) = signature d → t = dp_PathType d.
Proof.
  unfold signature. simpl. intros H.
  do 4 (apply (inj (String.append _)) in H; apply (inj (String.append "|")) in H). exact H.
Qed.

(** ** Lemmas: backends *)

(** The backends an Ingress names, in the order the source meets them. *)
Definition named_backends (ing : Ingress) : list backendRef :=
  omap (λ b : IngressBackend, match b with Some (s, p) => Some (mkBackend s p) | None => None end)
    (match in_DefaultBackend ing with Some b => [b] | None => [] end ++ flat_map (λ rule, map ip_Backend (rule_paths rule)) (in_Rules ing)).

Definition collected (named : list backendRef) (st : gset string * list backendRef) : Prop :=
  NoDup (map backend_key st.2) ∧ (∀ k, k ∈ st.1 ↔ k ∈ map backend_key st.2) ∧
  (∀ b, b ∈ st.2 → b ∈ named) ∧ (∀ b, b ∈ named → backend_key b ∈ map backend_key st.2).

Lemma collected_add named st service port :
  collected named st →
  collected (named ++ [mkBackend service port]) (add_backend st (Some (Some (service, port)))).2.
Proof.
  intros (Hnd & Hseen & Hin & Hall). simpl. set (ref := mkBackend service port).
  case_decide as Hk; simpl.
  - split; [done|]. split; [done|]. split; [set_solver|].
    intros b [Hb|Hb%list_elem_of_singleton]%elem_of_app; [by apply Hall|]. subst b. by apply Hseen.
  - rewrite Hseen in Hk. unfold collected. simpl. rewrite map_app. simpl. split; [|split; [|split]].
    + apply NoDup_app. split; [done|]. split; [|apply NoDup_singleton].
      intros k Hin' Hk'%list_elem_of_singleton. by subst k.
    + intros k. rewrite elem_of_union, elem_of_singleton, Hseen, elem_of_app, list_elem_of_singleton. tauto.
    + intros b [Hb|Hb%list_elem_of_singleton]%elem_of_app; apply elem_of_app; [left; auto|right].
      by apply list_elem_of_singleton.
    + intros b [Hb|Hb%list_elem_of_singleton]%elem_of_app; apply elem_of_app; [left; auto|right].
      subst b. by apply list_elem_of_singleton.
Qed.

Lemma collected_paths named st (paths : list HTTPIngressPath) :
  collected named st →
  collected (named ++ omap (λ b : IngressBackend, match b with Some (s, p) => Some (mkBackend s p) | None => None end)
      (map ip_Backend paths))
    (fold_left (λ st p, (add_backend st (Some (ip_Backend p))).2) paths st).
Proof.
  revert named st. induction paths as [|p paths IH]; intros named st H; simpl; [by rewrite app_nil_r|].
  destruct (ip_Backend p) as [[s q]|] eqn:Hb; simpl.
  - change (?x :: ?y) with ([x] ++ y). rewrite app_assoc. apply IH. by apply (collected_add _ _ s q).
  - by apply IH.
Qed.

Lemma collected_rules named st rules :
  collected named st →
  collected (named ++ omap (λ b : IngressBackend, match b with Some (s, p) => Some (mkBackend s p) | None => None end)
      (flat_map (λ rule, map ip_Backend (rule_paths rule)) rules))
    (fold_left (λ st rule, fold_left (λ st p, (add_backend st (Some (ip_Backend p))).2) (rule_paths rule) st) rules st).
Proof.
  revert named st. induction rules as [|rule rules IH]; intros named st H; simpl; [by rewrite app_nil_r|].
  rewrite omap_app, app_assoc. apply IH. by apply collected_paths.
Qed.

Lemma collectBackends_spec ing :
  let '(default, all) := collectBackends ing in
  NoDup (map backend_key all) ∧ (∀ b, b ∈ all → b ∈ named_backends ing) ∧
  (∀ b, b ∈ named_backends ing → backend_key b ∈ map backend_key all) ∧
  default = match in_DefaultBackend ing with Some (Some (s, p)) => Some (mkBackend s p) | _ => None end.
Proof.
  unfold collectBackends, named_backends.
  assert (collected [] (∅ : gset string, [] : list backendRef)) as H0.
  { split; [apply NoDup_nil_2|]. split; [set_solver|]. split; [done|set_solver]. }
  destruct (in_DefaultBackend ing) as [[[s p]|]|].
  - pose proof (collected_add [] _ s p H0) as H1. simpl in H1 |- *.
    apply (collected_rules _ _ (in_Rules ing)) in H1 as (A & _ & B & C). done.
  - apply (collected_rules _ _ (in_Rules ing)) in H0 as (A & _ & B & C). done.
  - apply (collected_rules _ _ (in_Rules ing)) in H0 as (A & _ & B & C). done.
Qed.

(** Backends of one key are one pool. *)
Lemma poolName_key lbname a b :
  no_char "|"%char (br_Service a) = true → no_char "|"%char (br_Service b) = true →
  backend_key a = backend_key b → poolName lbname a = poolName lbname b.
Proof.
  intros Ha Hb H. unfold backend_key in H. change ("|" +:+ ?x) with (String "|"%char x) in H.
  apply sep_inj in H as [H1 H2]; [|done..]. unfold poolName. by rewrite H1, H2.
Qed.

(** *** Where the two agree *)
(** The rules that serve the request's host are of one host, and not of a
    wildcard one: the others are where Octavia is told something else (see
    [wildcard_host_never_claims] and [hostless_path_beats_host]). *)
Definition one_host (l : list Route) (host : string) : Prop :=
  ∀ x, x ∈ l → k8s_host (rt_Host x) host = true →
    has_prefix (rt_Host x) "*." = false ∧ ∀ y, y ∈ l → k8s_host (rt_Host y) host = true → rt_Host y = rt_Host x.
(** No Prefix path covers the request's path only in the middle of an element,
    and none has a trailing slash (see [prefix_claims_siblings]). *)
Definition whole_elements (l : list Route) (path : string) : Prop :=
  ∀ x, x ∈ l → rt_Type x ≠ PathTypeExact → plain_path (rt_Path x) ∧ no_sibling (rt_Path x) path.
(** No Prefix path is listed before an Exact one that is the same path (see
    [exact_loses_to_earlier_prefix]). *)
Definition exact_first (l : list Route) : Prop :=
  ∀ l1 a l2 b, l = l1 ++ a :: l2 → b ∈ l2 → rt_Path a = rt_Path b → rt_Type b = PathTypeExact →
    rt_Type a = PathTypeExact.

Lemma routes_claimed l lbname poolIDs rq x :
  has_prefix (rq_Path rq) "/" = true → one_host l (rq_Host rq) → whole_elements l (rq_Path rq) →
  x ∈ l → rt_Path x ≠ "" →
  policy_claims rq (wanted_row (desired_of lbname poolIDs x)) = k8s_matches l rq x.
Proof.
  intros Hslash Hhost Hplain Hx Hne. rewrite claims_wanted by done. unfold k8s_matches. simpl.
  rewrite (plain_host (rt_Host x)) by (intros H; by destruct (Hhost x Hx H)).
  rewrite (path_agrees (desired_of lbname poolIDs x)) by (done || by apply Hplain). simpl.
  destruct (_ || _) eqn:Hm; simpl; [|done].
  assert (forallb (λ y, negb (k8s_host (rt_Host y) (rq_Host rq)) ||
    bool_decide (host_rank (rt_Host y) ≤ host_rank (rt_Host x))%nat) l = true) as ->; [|done].
  apply forallb_forall. intros y Hy%list_elem_of_In.
  destruct (k8s_host (rt_Host y) (rq_Host rq)) eqn:Hh; [|done]. simpl.
  assert (k8s_host (rt_Host x) (rq_Host rq) = true) as Hxh.
  { rewrite plain_host; [done|]. intros H. by destruct (Hhost x Hx H). }
  destruct (Hhost x Hx Hxh) as [_ Heq]. by apply bool_decide_eq_true; rewrite (Heq y Hy Hh).
Qed.

(** ** Properties *)

(** C11 A request is sent where Kubernetes sends it, as far as Octavia can be told.
    For an Ingress whose paths all have a path and a backend with a pool, and a
    request whose path starts with "/", whose host is served by rules of one
    host only and no wildcard, and covers no Prefix path only in the middle of an
    element, and with no Prefix path listed before an Exact one that is the same:
    the listener sends it to the pool of the path Kubernetes chooses -- one that
    matches and that no matching path has precedence over -- or to the default
    pool when none matches.  Each of the last three conditions is needed: see
    [wildcard_host_never_claims], [hostless_path_beats_host],
    [prefix_claims_siblings] and [exact_loses_to_earlier_prefix]. *)
Theorem policies_route_as_kubernetes (ing : Ingress) (lbname : string) (poolIDs : gmap string string)
    (default : string) (rq : Request) :
  let l := k8s_routes ing in
  has_prefix (rq_Path rq) "/" = true →
  (∀ x, x ∈ l → rt_Path x ≠ "" ∧ pool_of lbname poolIDs x ≠ "") →
  one_host l (rq_Host rq) → whole_elements l (rq_Path rq) → exact_first l →
  let pool := routed (map wanted_row (buildDesiredPolicies ing lbname poolIDs)) default rq in
  (∃ x, k8s_chooses l rq x ∧ pool = pool_of lbname poolIDs x) ∨
  (pool = default ∧ ∀ x, x ∈ l → k8s_matches l rq x = false).
Proof.
  intros l Hslash Hne Hhost Hplain Htie pool.
  set (claims x := policy_claims rq (wanted_row (desired_of lbname poolIDs x))).
  assert (∀ x, x ∈ l → claims x = k8s_matches l rq x) as Hclaims
    by (intros x Hx; apply routes_claimed; [done..|by apply Hne]).
  assert (∀ x, x ∈ l → k8s_matches l rq x = true → octavia_path (rt_Type x) (rt_Path x) (rq_Path rq) = true) as Hpath.
  { intros x Hx Hm. rewrite <-Hclaims in Hm by done. unfold claims in Hm.
    rewrite claims_wanted in Hm by by apply Hne. by apply andb_true_iff in Hm as [_ ?]. }
  subst pool. rewrite routed_desired, unordered_routes by (intros x Hx; by apply Hne). fold l.
  rewrite first_longest_map. fold claims. simpl.
  destruct (first_longest _ _ l) as [x|] eqn:Hf; simpl.
  - left. exists x. split; [|done]. apply first_longest_Some in Hf as (l1 & l2 & Hl & Hx & H1 & H2).
    assert (x ∈ l) as Hin by (rewrite Hl; set_solver). rewrite (Hclaims x Hin) in Hx.
    split; [done|]. split; [done|]. intros y Hy Hmy [Hlt|(Hlen & Hex & Hed)]; pose proof Hy as Hy';
      rewrite Hl in Hy'; apply elem_of_app in Hy' as [Hy'|[->|Hy']%elem_of_cons]; try lia; try done.
    + specialize (H1 y Hy' ltac:(by rewrite Hclaims)). lia.
    + specialize (H2 y Hy' ltac:(by rewrite Hclaims)). lia.
    + specialize (H1 y Hy' ltac:(by rewrite Hclaims)). lia.
    + apply Hed. eapply (Htie l1 x l2 y); [done..| |done].
      by apply (matched_same_path rq (desired_of lbname poolIDs x) (desired_of lbname poolIDs y)); [apply Hpath..|].
  - right. split; [done|]. intros x Hx. rewrite <-Hclaims by done. by apply (first_longest_None _ _ _ Hf).
Qed.

(** What is on the listener is told apart from what should be.  A policy made
    for a desired one, read back with its rules in whatever order, is that
    desired policy exactly when its path is set and its type is Exact or
    Prefix. *)
Theorem existing_roundtrip (d : desiredPolicy) (rules : list L7Rule) :
  rules ≡ₚ rulesFor d →
  (representable d → read_policy (dp_Name d) (dp_PoolID d) rules = d) ∧
  (dp_Path d ≠ "" → ¬ representable d →
     signature (read_policy (dp_Name d) (dp_PoolID d) rules) ≠ signature d).
Proof.
  intros Hr. split; [by apply read_back|]. intros Hp Hn Hs. apply Hn. split; [done|].
  rewrite (read_rules_perm _ _ d) in Hs by done. rewrite (decide_False (P := dp_Path d = "")) in Hs by done.
  apply signature_type in Hs. rewrite <-Hs. case_decide; [by left|by right].
Qed.

(** ** What modelling showed *)

(** A Prefix path claims its siblings: "/foo" is sent "/foobar", which
    Kubernetes says it does not cover. *)
Theorem prefix_claims_siblings :
  let x := mkRoute "" "/foo" PathTypePrefix (Some ("foo", mkBackendPort "" 80)) in
  let rq := mkRequest "example.com" "/foobar" in
  policy_claims rq (wanted_row (desired_of "lb" {["lb_foo_80" := "pool-foo"]} x)) = true ∧ k8s_matches [x] rq x = false.
Proof. vm_compute. auto. Qed.

(** Of a Prefix and an Exact path that are the same path the one listed first
    decides, where Kubernetes gives the Exact one precedence. *)
Theorem exact_loses_to_earlier_prefix :
  let a := mkRoute "" "/a" PathTypePrefix None in
  let b := mkRoute "" "/a" PathTypeExact None in
  let rq := mkRequest "example.com" "/a" in
  let policies := map wanted_row (longest_first
    [mkDesired "" "pool-prefix" "" "/a" PathTypePrefix; mkDesired "" "pool-exact" "" "/a" PathTypeExact]) in
  routed policies "" rq = "pool-prefix" ∧ k8s_chooses [a; b] rq b ∧ ¬ k8s_chooses [a; b] rq a.
Proof.
  split; [reflexivity|]. split.
  - split; [by right; left|]. split; [reflexivity|]. intros x Hx Hm.
    apply elem_of_cons in Hx as [->| ->%list_elem_of_singleton]; intros [Hl|(_ & He & Hn)]; simpl in *; (lia || done).
  - intros (_ & _ & H). apply (H (mkRoute "" "/a" PathTypeExact None)); [by right; left|reflexivity|].
    right. done.
Qed.

(** A wildcard host is sent to Octavia as a host to be equal to, so its rules
    claim no request at all, of the hosts Kubernetes says it serves or others
    (no host has an asterisk in it). *)
Theorem wildcard_host_never_claims (d : desiredPolicy) (rq : Request) :
  has_prefix (dp_Host d) "*." = true → has_prefix (rq_Host rq) "*." = false →
  policy_claims rq (wanted_row d) = false ∧ k8s_host "*.example.com" "shop.example.com" = true.
Proof.
  intros Hd Hr. split; [|reflexivity]. unfold policy_claims, wanted_row, rulesFor. simpl.
  rewrite decide_True by (intros He; by rewrite He in Hd). simpl. unfold rule_matches at 1. simpl.
  rewrite bool_decide_false; [done|]. intros He. by rewrite He, Hr in Hd.
Qed.

(** A longer path of a rule without a host takes a request from the rule of the
    request's own host: policies are ordered by the path alone. *)
Theorem hostless_path_beats_host :
  let own := mkRoute "shop.example.com" "/" PathTypePrefix None in
  let any := mkRoute "" "/api" PathTypePrefix None in
  let rq := mkRequest "shop.example.com" "/api" in
  let policies := map wanted_row (longest_first
    [mkDesired "" "pool-own" "shop.example.com" "/" PathTypePrefix; mkDesired "" "pool-any" "" "/api" PathTypePrefix]) in
  routed policies "" rq = "pool-any" ∧ k8s_chooses [own; any] rq own ∧ k8s_matches [own; any] rq any = false.
Proof.
  split; [reflexivity|]. split; [|reflexivity]. split; [by left|]. split; [reflexivity|]. intros x Hx Hm.
  apply elem_of_cons in Hx as [->| ->%list_elem_of_singleton]; [|discriminate Hm].
  intros [Hl|(_ & He & Hn)]; simpl in *; (lia || done).
Qed.

(** A path of type ImplementationSpecific never reads back as itself: every pass
    finds a difference, tears all policies down and makes them again. *)
Theorem ImplementationSpecific_never_settles (name pool host path : string) (rules : list L7Rule) :
  path ≠ "" →
  let d := mkDesired name pool host path PathTypeImplementationSpecific in
  rules ≡ₚ rulesFor d → signature (read_policy name pool rules) ≠ signature d.
Proof.
  intros Hp d Hr Hs. rewrite (read_rules_perm _ _ d) in Hs by done.
  rewrite (decide_False (P := dp_Path d = "")) in Hs by done.
  apply (signature_type d) in Hs. by case_decide.
Qed.

(** ** Witnesses *)
Definition ex_ing_port : ServiceBackendPort := mkBackendPort "" 80.
Definition ex_ing_rules : list IngressRule := [
  mkIngressRule "shop.example.com" (Some [
    mkPath "/" (Some PathTypePrefix) (Some ("web", ex_ing_port));
    mkPath "/api" (Some PathTypePrefix) (Some ("api", ex_ing_port))])].
Definition ex_ing : Ingress :=
  mkIngress "prod" "shop" 4 {["octavia.ingress.kubernetes.io/whitelist-source-range" := "10.0.0.0/8"]} None (Some "knaas")
    None ex_ing_rules [] [].
Definition ex_pools : gmap string string := {["lb_web_80" := "p-web"; "lb_api_80" := "p-api"]}.

Lemma policies_route_as_kubernetes_witness :
  routed (map wanted_row (buildDesiredPolicies ex_ing "lb" ex_pools)) "" (mkRequest "shop.example.com" "/api/v1") = "p-api" ∧
  ((∃ x, k8s_chooses (k8s_routes ex_ing) (mkRequest "shop.example.com" "/api/v1") x ∧
     routed (map wanted_row (buildDesiredPolicies ex_ing "lb" ex_pools)) "" (mkRequest "shop.example.com" "/api/v1")
       = pool_of "lb" ex_pools x) ∨
   (routed (map wanted_row (buildDesiredPolicies ex_ing "lb" ex_pools)) "" (mkRequest "shop.example.com" "/api/v1") = "" ∧
    ∀ x, x ∈ k8s_routes ex_ing →
      k8s_matches (k8s_routes ex_ing) (mkRequest "shop.example.com" "/api/v1") x = false)).
Proof.
  split; [reflexivity|].
  assert (k8s_routes ex_ing =
    [mkRoute "shop.example.com" "/" PathTypePrefix (Some ("web", ex_ing_port));
     mkRoute "shop.example.com" "/api" PathTypePrefix (Some ("api", ex_ing_port))]) as Hl by reflexivity.
  apply (policies_route_as_kubernetes ex_ing "lb" ex_pools "" (mkRequest "shop.example.com" "/api/v1"));
    rewrite ?Hl; simpl.
  - reflexivity.
  - intros x Hx. by apply elem_of_cons in Hx as [->| ->%list_elem_of_singleton].
  - intros x Hx _. assert (∀ y, y ∈ [mkRoute "shop.example.com" "/" PathTypePrefix (Some ("web", ex_ing_port));
      mkRoute "shop.example.com" "/api" PathTypePrefix (Some ("api", ex_ing_port))] → rt_Host y = "shop.example.com") as Hh
      by (intros y Hy; by apply elem_of_cons in Hy as [->| ->%list_elem_of_singleton]).
    rewrite (Hh x Hx). split; [reflexivity|]. intros y Hy _. by apply Hh.
  - intros x Hx _. apply elem_of_cons in Hx as [->| ->%list_elem_of_singleton]; simpl.
    + by split; left.
    + split; [by right|]. right. simpl. intros z Hz. right. exists "v1".
      change "/api/v1" with ("/api" +:+ "/v1") in Hz. by apply (inj (String.append "/api")) in Hz.
  - intros l1 a l2 b Heq Hb _ Ht.
    assert (b ∈ l1 ++ a :: l2) as Hin by set_solver. rewrite <-Heq in Hin.
    apply elem_of_cons in Hin as [->| ->%list_elem_of_singleton]; discriminate Ht.
Defined.

Lemma existing_roundtrip_witness :
  let d := mkDesired "lb_l7_0" "p-api" "shop.example.com" "/api" PathTypePrefix in
  read_policy "lb_l7_0" "p-api" (rev (rulesFor d)) = d.
Proof.
  intros d. destruct (existing_roundtrip d (rev (rulesFor d))) as [H _].
  - apply Permutation_sym, Permutation_rev.
  - apply H. by split; [|right].
Defined.
