(* ===== verification/IngressOctavia.v ===== *)
(** * pkg/ingress/octavia.go and the converging half of l7.go

    The layer 7 calls, each waiting for the load balancer to settle, and what is
    built from them: the policies of a listener brought to the desired ones,
    pools nothing refers to removed, the one listener with its settings. *)

From S2P Require Import Prelude GoStd K8s LoadBalancing ServiceOctavia IngressTuning IngressPlan.
From Stdlib Require Import Ascii.

Local Open Scope string_scope.
Local Open Scope list_scope.

Section octavia.
Context {W : Type} `{!Octavia W} `{!Clock W} `{!OctaviaL7 W}.

(** ** octavia.go *)
Definition getPoolByName (lbID name : string) : M W Pool :=
  all ← pools_List lbID name;
  match all with [] => fail ErrNotFound | p :: _ => mret p end.
Definition listPools (lbID : string) : M W (list Pool) := pools_List lbID "".

(** A call that is then waited out; a 404 from one that deletes is agreement. *)
Definition settled {A} (lbID : string) (m : M W A) : M W A :=
  a ← m; WaitActive lbID ≫= λ _, mret a.
Definition delete_settled (lbID : string) (m : M W ()) : M W () :=
  r ← try m;
  match r with
  | Ok _ => WaitActive lbID ≫= λ _, mret ()
  | Err e => if ResponseCodeIs e 404 then mret () else fail e
  end.

Definition deletePool (lbID poolID : string) : M W () := delete_settled lbID (pools_Delete poolID).

Definition deleteListenerByName (lbID name : string) : M W () :=
  found ← try (GetListenerByName lbID name);
  match found with
  | Err e => if decide (e = ErrNotFound) then mret ()
             else fail (ErrWrap ("looking up listener " +:+ go_quote name) e)
  | Ok listener =>
      wrap ("deleting listener " +:+ go_quote name)
        (ignoring (λ e, ResponseCodeIs e 404) (listeners_Delete (ls_ID listener))) ≫= λ _,
      WaitActive lbID ≫= λ _, mret ()
  end.

Definition updateListener (lbID listenerID : string) (opts : ListenerUpdateOpts) : M W () :=
  settled lbID (listeners_Update listenerID opts).
Definition listL7Policies (listenerID : string) : M W (list L7Policy) := l7policies_List listenerID.
Definition listL7Rules (policyID : string) : M W (list L7Rule) := l7policies_ListRules policyID.
Definition createL7Policy (lbID : string) (opts : L7CreateOpts) : M W L7Policy :=
  settled lbID (l7policies_Create opts).
Definition createL7Rule (lbID policyID : string) (opts : L7Rule) : M W () :=
  settled lbID (l7policies_CreateRule policyID opts).
Definition deleteL7Policy (lbID policyID : string) : M W () :=
  delete_settled lbID (l7policies_Delete policyID).

(** ** A backend's pool *)
Definition ensure_named_pool (lbID name : string) : M W Pool :=
  found ← try (getPoolByName lbID name);
  match found with
  | Ok p => mret p
  | Err e =>
      if decide (e = ErrNotFound) then
        wrap ("creating pool " +:+ go_quote name)
          (CreatePool lbID (mkPoolOpts name "HTTP" "ROUND_ROBIN" "" lbID))
      else fail (ErrWrap ("looking up pool " +:+ go_quote name) e)
  end.
Definition ensureBackendPool (lb : LoadBalancer) (lbname : string) (b : backendRef) : M W Pool :=
  let name := poolName lbname b in
  pool ← ensure_named_pool (lb_ID lb) name;
  (if decide (plr_MonitorID (pl_row pool) = "") then
     wrap ("creating HTTP health monitor for pool " +:+ go_quote name)
       (CreateHealthMonitor (lb_ID lb) (mkMonitorOpts name (pl_ID pool) "HTTP" "/" 5 3 2 2)) ≫= λ _, mret ()
   else mret ()) ≫= λ _,
  mret pool.

(** ** Policies *)
Definition existingSignature (pol : L7Policy) : M W string :=
  rules ← wrap ("listing rules of l7policy " +:+ l7_Name pol) (listL7Rules (l7_ID pol));
  mret (signature (read_policy (l7_Name pol) (l7_RedirectPoolID pol) rules)).

(** [sort.SliceStable] by position. *)
Fixpoint insert_position (p : L7Policy) (l : list L7Policy) : list L7Policy :=
  match l with
  | [] => [p]
  | x :: l' => if decide (l7_Position x < l7_Position p)%Z then x :: insert_position p l' else p :: l
  end.
Fixpoint by_position (l : list L7Policy) : list L7Policy :=
  match l with [] => [] | p :: l' => insert_position p (by_position l') end.

(** The comparing loop, up to the first difference. *)
Fixpoint policies_match (existing : list L7Policy) (desired : list desiredPolicy) : M W bool :=
  match existing, desired with
  | e :: existing, d :: desired =>
      got ← existingSignature e;
      if decide (got ≠ signature d) then mret false else policies_match existing desired
  | _, _ => mret true
  end.

Definition ours (lbname name : string) : bool := has_prefix name (lbname +:+ "_l7_").

Definition delete_ours (lbID lbname : string) (e : L7Policy) : M W () :=
  if ours lbname (l7_Name e) then
    wrap ("deleting stale l7policy " +:+ l7_Name e) (deleteL7Policy lbID (l7_ID e))
  else mret ().
Definition create_desired (lbID listenerID : string) (id : nat * desiredPolicy) : M W () :=
  let '(i, d) := id in
  pol ← wrap ("creating l7policy " +:+ dp_Name d)
    (createL7Policy lbID (mkL7Opts (dp_Name d) listenerID ActionRedirectToPool (dp_PoolID d) (Z.of_nat i + 1)));
  for_each (rulesFor d) (λ rule,
    wrap ("creating l7rule for " +:+ dp_Name d) (createL7Rule lbID (l7_ID pol) rule)).

Definition rebuild_policies (lbID listenerID lbname : string) (existing : list L7Policy)
    (desired : list desiredPolicy) : M W () :=
  for_each existing (delete_ours lbID lbname) ≫= λ _,
  for_each (imap pair desired) (create_desired lbID listenerID).

Definition syncL7Policies (lbID listenerID lbname : string) (desired : list desiredPolicy) : M W () :=
  listed ← wrap "listing l7policies" (listL7Policies listenerID);
  let existing := by_position listed in
  same ← (if decide (length existing = length desired) then policies_match existing desired else mret false);
  if same : bool then mret () else rebuild_policies lbID listenerID lbname existing desired.

Definition gc_pool (lbID lbname : string) (keep : gset string) (defaultPoolID : string) (p : Pool) : M W () :=
  if negb (has_prefix (plr_Name (pl_row p)) (lbname +:+ "_")) || bool_decide (pl_ID p ∈ keep)
     || bool_decide (pl_ID p = defaultPoolID) then mret ()
  else wrap ("deleting stale pool " +:+ plr_Name (pl_row p)) (deletePool lbID (pl_ID p)).
Definition gcStalePools (lbID lbname : string) (keep : gset string) (defaultPoolID : string) : M W () :=
  all ← wrap "listing pools" (listPools lbID);
  for_each all (gc_pool lbID lbname keep defaultPoolID).

(** ** The listener *)
Definition http_name (lbname : string) : string := lbname +:+ "_http_80".
Definition https_name (lbname : string) : string := lbname +:+ "_https_443".
(** Protocol, port and name of the listener wanted, and the name of the other. *)
Definition listener_plan (lbname : string) (tlsRefs : list string) : string * Z * string * string :=
  match tlsRefs with
  | [] => ("HTTP", 80%Z, http_name lbname, https_name lbname)
  | _ => ("TERMINATED_HTTPS", 443%Z, https_name lbname, http_name lbname)
  end.

Definition listener_options (tlsRefs : list string) (defaultPoolID : string) (t : listenerTuning) : ListenerOptions :=
  mkListenerOptions (opt_or "" (head tlsRefs)) (tail tlsRefs) defaultPoolID (tn_AllowedCIDRs t)
    (tn_TimeoutClientData t) (tn_TimeoutMemberData t) (tn_TimeoutMemberConnect t) (tn_TimeoutTCPInspect t).

Definition drifted (desired : option Z) (live : Z) : option Z :=
  if timeoutDrift desired live then desired else None.
(** What differs, [None] for what does not. *)
Definition listener_drift (tlsRefs : list string) (defaultPoolID : string) (t : listenerTuning)
    (x : ListenerSettings) : ListenerUpdateOpts :=
  mkListenerUpdate
    (match tlsRefs with
     | ref :: _ => if decide (lx_DefaultTlsContainerRef x ≠ ref) then Some ref else None
     | [] => None end)
    (if decide (lx_DefaultPoolID x ≠ defaultPoolID) then Some defaultPoolID else None)
    (if cidrsEqual (lx_AllowedCIDRs x) (tn_AllowedCIDRs t) then None else Some (tn_AllowedCIDRs t))
    (drifted (tn_TimeoutClientData t) (lx_TimeoutClientData x))
    (drifted (tn_TimeoutMemberData t) (lx_TimeoutMemberData x))
    (drifted (tn_TimeoutMemberConnect t) (lx_TimeoutMemberConnect x))
    (drifted (tn_TimeoutTCPInspect t) (lx_TimeoutTCPInspect x)).
Definition no_drift : ListenerUpdateOpts := mkListenerUpdate None None None None None None None.
#[export] Instance ListenerUpdateOpts_eq_dec : EqDecision ListenerUpdateOpts.
Proof. solve_decision. Defined.

Definition align_listener (lbID name : string) (tlsRefs : list string) (defaultPoolID : string)
    (t : listenerTuning) (l : Listener) : M W Listener :=
  let update := listener_drift tlsRefs defaultPoolID t (ls_settings l) in
  if decide (update = no_drift) then mret l
  else
    wrap ("updating listener " +:+ go_quote name) (updateListener lbID (ls_ID l) update) ≫= λ _,
    GetListenerByName lbID name.

Definition ensureListener (lbID lbname : string) (tlsRefs : list string) (defaultPoolID : string)
    (t : listenerTuning) : M W Listener :=
  let '(proto, port, name, stale) := listener_plan lbname tlsRefs in
  deleteListenerByName lbID stale ≫= λ _,
  found ← try (GetListenerByName lbID name);
  match found with
  | Ok l => align_listener lbID name tlsRefs defaultPoolID t l
  | Err e =>
      if decide (e = ErrNotFound) then
        CreateListener lbID (mkListenerOpts name proto port lbID (listener_options tlsRefs defaultPoolID t))
      else fail (ErrWrap ("looking up listener " +:+ go_quote name) e)
  end.
End octavia.
