(* ===== verification/IngressPolicies.v ===== *)
(** * The policies of a listener, brought to what an Ingress asks for

    What [syncL7Policies] promises: after a success the listener holds the
    desired policies in order, ahead of what was made out of band; nothing else
    is touched, failure or not; and what it made it finds in order the next time. *)

From S2P Require Import Prelude GoStd K8s LoadBalancing ServiceOctavia IngressTuning IngressPlan IngressOctavia.
From Stdlib Require Import Ascii.

Local Open Scope string_scope.
Local Open Scope list_scope.

Abbreviation Policies := (list (string * L7PolicyRow)) (only parsing).

(** ** One listener's policies

    [holds l ps s s']: [s'] is [s] but for the policies of listener [l], which
    are [ps]. *)
Definition holds (l : string) (ps : Policies) (s s' : LBState) : Prop :=
  policies_of s' l = ps ∧ (∀ l', l' ≠ l → s_policies s' !! l' = s_policies s !! l') ∧
  s' = set_policies (λ _, s_policies s') s.

(** No policy of [ps] is on another listener, and each has its own id. *)
Definition own_ids (l : string) (ps : Policies) (s : LBState) : Prop :=
  NoDup (map fst ps) ∧ ∀ l' i, l' ≠ l → i ∈ map fst ps → i ∉ map fst (policies_of s l').

Lemma holds_refl l s : holds l (policies_of s l) s s.
Proof. split; [done|]. split; [done|]. by destruct s. Qed.

Lemma holds_same l ps s s' : holds l ps s s' →
  s_listeners s' = s_listeners s ∧ s_settings s' = s_settings s ∧ s_pools s' = s_pools s ∧
  s_lbs s' = s_lbs s ∧ s_monitors s' = s_monitors s ∧ s_fips s' = s_fips s ∧ s_services s' = s_services s ∧
  s_ingresses s' = s_ingresses s ∧ s_secrets s' = s_secrets s.
Proof. intros (_ & _ & ->). done. Qed.

Lemma holds_other l ps s s' l' : holds l ps s s' → l' ≠ l → policies_of s' l' = policies_of s l'.
Proof. intros (_ & H & _) Hl. unfold policies_of. by rewrite H. Qed.

Lemma holds_trans l ps ps' s s1 s2 : holds l ps s s1 → holds l ps' s1 s2 → holds l ps' s s2.
Proof.
  intros (_ & H1 & E1) (Hp & H2 & E2). split; [done|]. split; [intros l' Hl; by rewrite H2, H1|].
  rewrite E2, E1. done.
Qed.

(** *** Each call on the list *)
Lemma filter_ids_none (ps : Policies) id :
  id ∉ map fst ps → filter (λ p : string * L7PolicyRow, p.1 ≠ id) ps = ps.
Proof.
  induction ps as [|p ps IH]; [done|]. simpl. intros [Hp Hn]%not_elem_of_cons.
  rewrite filter_cons, decide_True by done. f_equal. by apply IH.
Qed.

Lemma policy_gone_holds l ps s s1 id :
  holds l ps s s1 → (∀ l', l' ≠ l → id ∉ map fst (policies_of s l')) →
  holds l (filter (λ p : string * L7PolicyRow, p.1 ≠ id) ps) s (policy_gone id s1).
Proof.
  intros (Hp & Ho & Heq) Hown. split; [|split].
  - unfold policies_of, policy_gone. simpl. rewrite lookup_fmap. unfold policies_of in Hp.
    destruct (s_policies s1 !! l); simpl in *; by subst.
  - intros l' Hl. unfold policy_gone. simpl. rewrite lookup_fmap, Ho by done.
    destruct (s_policies s !! l') as [ps'|] eqn:Hps; [|done]. simpl. f_equal.
    apply filter_ids_none. specialize (Hown l' Hl). unfold policies_of in Hown. by rewrite Hps in Hown.
  - rewrite Heq. done.
Qed.

Lemma policy_created_holds l ps s s1 s2 o p :
  holds l ps s s1 → own_ids l ps s → l7o_ListenerID o = l → policy_created o p s1 s2 →
  holds l (placed (l7o_Position o) (l7_ID p, policy_row o) ps) s s2 ∧
  (l7_ID p ∉ map fst ps) ∧ (∀ l', l' ≠ l → l7_ID p ∉ map fst (policies_of s l')).
Proof.
  intros Hh Hown Hl (_ & Hnew & ->). pose proof Hh as (Hp & Ho & Heq). rewrite Hl.
  split; [|split].
  - split; [|split].
    + unfold policies_of at 1. simpl. by rewrite lookup_insert_eq, Hp.
    + intros l' Hl'. simpl. rewrite lookup_insert_ne by done. by apply Ho.
    + rewrite Heq. done.
  - rewrite <-Hp. apply Hnew.
  - intros l' Hl'. rewrite <-(holds_other _ _ _ _ _ Hh Hl'). apply Hnew.
Qed.

Lemma with_rule_other id rule ps : id ∉ map fst ps → map (with_rule id rule) ps = ps.
Proof.
  induction ps as [|p ps IH]; simpl; [done|]. intros [Hp Hn]%not_elem_of_cons.
  rewrite IH by done. f_equal. unfold with_rule. by rewrite decide_False.
Qed.

Lemma rule_created_holds l ps s s1 s2 id rule :
  holds l ps s s1 → own_ids l ps s → id ∈ map fst ps → rule_created id rule s1 s2 →
  holds l (map (with_rule id rule) ps) s s2.
Proof.
  intros (Hp & Ho & Heq) (_ & Hown) Hid (_ & ->). split; [|split].
  - unfold policies_of in *. simpl. rewrite lookup_fmap.
    destruct (s_policies s1 !! l); simpl in *; by subst.
  - intros l' Hl. simpl. rewrite lookup_fmap, Ho by done.
    destruct (s_policies s !! l') as [ps'|] eqn:Hps; [|done]. simpl. f_equal.
    apply with_rule_other. specialize (Hown l' id Hl Hid). unfold policies_of in Hown. by rewrite Hps in Hown.
  - rewrite Heq. done.
Qed.

Lemma map_fst_with_rule id rule ps : map fst (map (with_rule id rule) ps) = map fst ps.
Proof.
  induction ps as [|p ps IH]; simpl; [done|]. rewrite IH. f_equal. unfold with_rule. by case_decide.
Qed.

Lemma sublist_map_fst (ps ps' : Policies) : sublist ps ps' → sublist (map fst ps) (map fst ps').
Proof. induction 1; simpl; by constructor. Qed.

Lemma own_ids_sub l ps ps' s : own_ids l ps s → sublist (map fst ps') (map fst ps) → own_ids l ps' s.
Proof.
  intros [Hnd Ho] Hs. split; [by eapply sublist_NoDup|]. intros l' i Hl Hi. apply Ho; [done|].
  by eapply elem_of_sublist.
Qed.

(** ** By position *)
Definition position_order (a b : L7Policy) : Prop := (l7_Position a ≤ l7_Position b)%Z.

Lemma insert_position_perm p l : insert_position p l ≡ₚ p :: l.
Proof.
  induction l as [|x l IH]; simpl; [done|]. case_decide; [|done]. rewrite IH. apply Permutation_swap.
Qed.
Lemma by_position_perm l : by_position l ≡ₚ l.
Proof. induction l as [|p l IH]; simpl; [done|]. by rewrite insert_position_perm, IH. Qed.
Lemma insert_position_sorted p l :
  StronglySorted position_order l → StronglySorted position_order (insert_position p l).
Proof.
  induction 1 as [|x l Hl IH Hx]; simpl; [by repeat constructor|]. case_decide as Hlt.
  - constructor; [done|]. rewrite insert_position_perm. constructor; [|done]. unfold position_order. lia.
  - constructor; [by constructor|]. constructor; [unfold position_order; lia|].
    eapply Forall_impl; [exact Hx|]. unfold position_order. simpl. lia.
Qed.
Lemma by_position_sorted l : StronglySorted position_order (by_position l).
Proof. induction l as [|p l IH]; simpl; [constructor|by apply insert_position_sorted]. Qed.

Lemma elem_of_shown k (ps : Policies) x :
  x ∈ imap (λ i, policy_shown (k + i)) ps →
  ∃ i p, ps !! i = Some p ∧ x = policy_shown (k + i) p.
Proof. intros (i & p & -> & Hp)%elem_of_lookup_imap. by exists i, p. Qed.

Lemma shown_sorted k (ps : Policies) : StronglySorted position_order (imap (λ i, policy_shown (k + i)) ps).
Proof.
  revert k. induction ps as [|p ps IH]; intros k; simpl; [constructor|].
  assert (imap ((λ i, policy_shown (k + i)) ∘ S) ps = imap (λ i, policy_shown (S k + i)) ps) as ->.
  { apply imap_ext. intros i x _. simpl. f_equal. lia. }
  constructor; [apply IH|]. apply Forall_forall. intros x Hx.
  apply elem_of_shown in Hx as (i & q & _ & ->).
  unfold position_order, policy_shown. simpl. lia.
Qed.

(** Whatever order a listing comes in, sorted it is the policies in order. *)
Lemma by_position_shown l (ps : Policies) :
  l ≡ₚ imap policy_shown ps → by_position l = imap policy_shown ps.
Proof.
  intros Hl. pose proof (shown_sorted 0 ps) as Hs. simpl in Hs.
  apply (StronglySorted_unique_strong position_order); [|apply by_position_sorted|exact Hs|by rewrite by_position_perm].
  intros x y Hx Hy Hxy Hyx. rewrite by_position_perm, Hl in Hx.
  apply (elem_of_shown 0) in Hx as (i & p & Hp & ->). apply (elem_of_shown 0) in Hy as (j & q & Hq & ->).
  unfold position_order, policy_shown in *. simpl in *. assert (i = j) as -> by lia. congruence.
Qed.

(** ** Reading what is there *)

(** A policy reads as a desired one, whatever order its rules come in. *)
Definition reads_as (p : string * L7PolicyRow) (d : desiredPolicy) : Prop :=
  ∃ rules, rules ≡ₚ lp_rules p.2 ∧
    signature (read_policy (lp_Name p.2) (lp_RedirectPoolID p.2) rules) = signature d.

Lemma wanted_reads d (p : string * L7PolicyRow) : representable d → p.2 = wanted_row d → ∀ rules, rules ≡ₚ lp_rules p.2 →
  signature (read_policy (lp_Name p.2) (lp_RedirectPoolID p.2) rules) = signature d.
Proof. intros Hd Hp rules Hr. rewrite Hp in *. simpl in *. by rewrite read_back. Qed.

Lemma own_row l (ps : Policies) s s1 id row row' l' :
  holds l ps s s1 → own_ids l ps s → (id, row) ∈ ps → (id, row') ∈ policies_of s1 l' → row' = row.
Proof.
  intros Hh [Hnd Ho] Hin Hin'. assert (id ∈ map fst ps) as Hid by (apply list_elem_of_fmap; by exists (id, row)).
  destruct (decide (l' = l)) as [->|Hl].
  - destruct Hh as [Hp _]. rewrite Hp in Hin'. clear -Hnd Hin Hin'.
    induction ps as [|[i r] ps IH]; [by apply elem_of_nil in Hin|]. simpl in Hnd.
    apply NoDup_cons in Hnd as [Hi Hnd].
    assert (∀ x, (id, x) ∈ ps → id ∈ map fst ps) as Hmem by (intros x Hx; apply list_elem_of_fmap; by exists (id, x)).
    apply elem_of_cons in Hin as [Heq|Hin]; apply elem_of_cons in Hin' as [Heq'|Hin']; simplify_eq; try done;
      [by destruct Hi; eapply Hmem| |by apply IH]. destruct Hi. apply list_elem_of_fmap. by exists (i, row).
  - destruct (Ho l' id Hl Hid). apply list_elem_of_fmap. exists (id, row'). split; [done|].
    by rewrite <-(holds_other _ _ _ _ _ Hh Hl).
Qed.

Lemma same_id (ps : Policies) p q : NoDup (map fst ps) → p ∈ ps → q ∈ ps → p.1 = q.1 → p = q.
Proof.
  induction ps as [|x ps IH]; simpl; [by intros _ ?%elem_of_nil|].
  intros [Hx Hnd]%NoDup_cons Hp Hq He.
  assert (∀ y, y ∈ ps → y.1 = x.1 → False) as Hno.
  { intros y Hy Hyx. apply Hx. rewrite <-Hyx. apply list_elem_of_fmap. by exists y. }
  apply elem_of_cons in Hp as [Hp|Hp]; apply elem_of_cons in Hq as [Hq|Hq]; subst; [done|..|by apply IH];
    exfalso; [by apply (Hno q)|by apply (Hno p)].
Qed.

(** What this controller did not make. *)
Definition foreign (lbname : string) (ps : Policies) : Policies :=
  filter (λ p : string * L7PolicyRow, ours lbname (lp_Name p.2) = false) ps.
Lemma foreign_idemp lbname ps : foreign lbname (foreign lbname ps) = foreign lbname ps.
Proof.
  unfold foreign. induction ps as [|p ps IH]; [done|]. rewrite filter_cons. case_decide; [|done].
  by rewrite filter_cons, decide_True, IH.
Qed.
Lemma foreign_app lbname a b : foreign lbname (a ++ b) = foreign lbname a ++ foreign lbname b.
Proof. apply filter_app. Qed.
Lemma foreign_none lbname (ps : Policies) :
  (∀ p, p ∈ ps → ours lbname (lp_Name p.2) = true) → foreign lbname ps = [].
Proof.
  induction ps as [|p ps IH]; intros H; [done|]. unfold foreign. rewrite filter_cons, decide_False.
  - apply IH. intros q Hq. apply H. by right.
  - rewrite H; [done|by left].
Qed.

(** After some policies have been seen and those of ours among them deleted. *)
Definition swept_ids (lbname : string) (seen : list string) (ps : Policies) : Policies :=
  filter (λ p : string * L7PolicyRow, ours lbname (lp_Name p.2) = false ∨ p.1 ∉ seen) ps.

Lemma swept_none lbname ps : swept_ids lbname [] ps = ps.
Proof.
  unfold swept_ids. induction ps as [|p ps IH]; [done|]. rewrite filter_cons, decide_True, IH; [done|].
  right. by intros ?%elem_of_nil.
Qed.
Lemma swept_all lbname ps : swept_ids lbname (map fst ps) ps = foreign lbname ps.
Proof.
  apply filter_ext_in. intros p Hp. split; [|by left]. intros [?|Hn]; [done|].
  destruct Hn. apply list_elem_of_fmap. by exists p.
Qed.
Lemma foreign_swept lbname seen ps : foreign lbname (swept_ids lbname seen ps) = foreign lbname ps.
Proof.
  unfold foreign, swept_ids. rewrite list_filter_filter. apply filter_ext_in. intros p _. tauto.
Qed.
Lemma swept_step lbname seen ps p :
  NoDup (map fst ps) → p ∈ ps →
  swept_ids lbname (seen ++ [p.1]) ps =
    if ours lbname (lp_Name p.2) then filter (λ q : string * L7PolicyRow, q.1 ≠ p.1) (swept_ids lbname seen ps)
    else swept_ids lbname seen ps.
Proof.
  intros Hnd Hp. unfold swept_ids. destruct (ours lbname (lp_Name p.2)) eqn:Ho;
    [rewrite list_filter_filter|]; apply filter_ext_in; intros q Hq;
    rewrite not_elem_of_app; (split;
      [|]); rewrite ?list_elem_of_singleton;
    destruct (decide (q.1 = p.1)) as [He|He]; try (pose proof (same_id ps q p Hnd Hq Hp He); subst q);
    intuition congruence.
Qed.

Section policies_facts.
Context {W : Type} {api : Octavia W} {clock : Clock W} {api7 : OctaviaL7 W} (view : W → LBState)
  `{!OctaviaLaws api view} `{!ClockLaws clock api view} `{!OctaviaL7Laws api7 view}.
Variables lbID listener lbname : string.

Lemma settled_runs {A} s (m : M W A) (Q : A → LBState → Prop) (E : gerror → LBState → Prop) :
  runs view s m Q E → (∀ a e s', Q a s' → E e s') → runs view s (settled lbID m) Q E.
Proof.
  intros Hm HQE. unfold settled. eapply runs_bind; [exact Hm|done|].
  intros a s' Ha. apply (WaitActive_then view); [done|]. intros e. by eapply HQE.
Qed.

Lemma delete_settled_runs s (m : M W ()) (Q : LBState → Prop) (E : LBState → Prop) :
  runs view s m (λ _ s', Q s') (λ e s', if ResponseCodeIs e 404 then Q s' else E s') →
  (∀ s', Q s' → E s') → runs view s (delete_settled lbID m) (λ _ s', Q s') (λ _ s', E s').
Proof.
  intros Hm HQE. unfold delete_settled. eapply runs_try_bind; [exact Hm| |]; cbv beta.
  - intros _ s' HQ. apply (WaitActive_then view); auto.
  - intros e s' H. destruct (ResponseCodeIs e 404); [by apply runs_ret|by apply runs_fail].
Qed.

(** The comparison finds agreement only where every policy reads as the one
    wanted there, and always where no order of rules reads as anything else. *)
Lemma policies_match_runs (ps0 : Policies) s k (ps : Policies) desired :
  own_ids listener ps0 s → policies_of s listener = ps0 → sublist ps ps0 →
  runs view s (policies_match (imap (λ i, policy_shown (k + i)) ps) desired)
    (λ b s', s' = s ∧
       (b = true → length ps = length desired → Forall2 reads_as ps desired) ∧
       (Forall2 (λ p d, ∀ rules, rules ≡ₚ lp_rules p.2 →
          signature (read_policy (lp_Name p.2) (lp_RedirectPoolID p.2) rules) = signature d) ps desired → b = true))
    (λ _ s', s' = s).
Proof.
  intros Hown Hps. revert k desired. induction ps as [|[id row] ps IH]; intros k desired Hsub.
  { simpl. destruct desired; apply runs_ret; (split; [done|split; [|done]]); [constructor|done]. }
  assert ((id, row) ∈ ps0) as Hin by (eapply elem_of_sublist; [by left|exact Hsub]).
  destruct desired as [|d desired].
  { simpl. apply runs_ret. split; [done|]. split; [done|]. done. }
  simpl. assert (imap ((λ i, policy_shown (k + i)) ∘ S) ps = imap (λ i, policy_shown (S k + i)) ps) as ->.
  { apply imap_ext. intros i x _. simpl. f_equal. lia. }
  eapply (runs_bind _ _ _ _ (λ got s', s' = s ∧ ∃ rules, rules ≡ₚ lp_rules row ∧
    got = signature (read_policy (lp_Name row) (lp_RedirectPoolID row) rules)) _ (λ _ s', s' = s)); [|done|].
  - unfold existingSignature. eapply runs_bind_wrap; [apply (law_ListRules s id)|done|]; cbv beta.
    intros rules s' (-> & l' & row' & Hin' & Hr). apply runs_ret. split; [done|].
    rewrite (own_row listener ps0 s s id row row' l') in Hr; [by exists rules| |done..].
    rewrite <-Hps. apply holds_refl.
  - intros got s' (-> & rules & Hr & ->). case_decide as Hd.
    + apply runs_ret. split; [done|]. split; [done|]. intros Hall. inversion Hall as [|? ? ? ? Hx]; subst.
      destruct Hd. by apply Hx.
    + eapply runs_conseq; [apply (IH (S k) desired); etrans; [by constructor|exact Hsub]| |done]; cbv beta.
      intros b s' (-> & H1 & H2). split; [done|]. split.
      * intros Hb Hlen. constructor; [|apply H1; [done|simpl in Hlen; lia]].
        by exists rules.
      * intros Hall. inversion Hall; subst. by apply H2.
Qed.

(** *** Tearing down *)
Lemma deleteL7Policy_runs s s1 ps id :
  holds listener ps s s1 → (∀ l', l' ≠ listener → id ∉ map fst (policies_of s l')) →
  runs view s1 (deleteL7Policy lbID id)
    (λ _ s', holds listener (filter (λ p : string * L7PolicyRow, p.1 ≠ id) ps) s s')
    (λ _ s', holds listener ps s s' ∨ holds listener (filter (λ p : string * L7PolicyRow, p.1 ≠ id) ps) s s').
Proof.
  intros Hh Ho. unfold deleteL7Policy. apply delete_settled_runs; [|by right].
  eapply runs_conseq; [apply (law_policies_Delete s1 id)| |]; cbv beta.
  - intros _ s' ->. by apply policy_gone_holds.
  - intros e s' [Hm H404]. destruct (ResponseCodeIs e 404).
    + destruct H404 as [-> Hno]; [done|]. specialize (Hno listener).
      destruct Hh as [Hp Hr]. rewrite Hp in Hno. rewrite filter_ids_none by done. done.
    + destruct Hm as [->| ->]; [by left|]. right. by apply policy_gone_holds.
Qed.

Definition kept_foreign (ps0 : Policies) (s s' : LBState) : Prop :=
  ∃ ps, holds listener ps s s' ∧ foreign lbname ps = foreign lbname ps0.

Lemma delete_loop_runs s ps0 :
  own_ids listener ps0 s → policies_of s listener = ps0 →
  runs view s (for_each (imap policy_shown ps0) (delete_ours lbID lbname))
    (λ _ s', holds listener (foreign lbname ps0) s s') (λ _ s', kept_foreign ps0 s s').
Proof.
  intros Hown Hps. rewrite <-swept_all.
  assert (map l7_ID (imap policy_shown ps0) = map fst ps0) as Hids.
  { generalize 0. clear. intros k. apply list_eq. intros i. rewrite !list_lookup_fmap, list_lookup_imap.
    by destruct (ps0 !! i). }
  eapply runs_conseq; [apply (runs_for_each _ (λ pre s', holds listener (swept_ids lbname (map l7_ID pre) ps0) s s')
    (imap policy_shown ps0) _ (λ _ s', kept_foreign ps0 s s'))| |]; cbv beta.
  - rewrite swept_none, <-Hps. apply holds_refl.
  - intros pre e post s1 Heq Hh.
    assert (e ∈ imap policy_shown ps0) as He by (rewrite Heq; set_solver).
    apply (elem_of_shown 0) in He as (i & p & Hp%list_elem_of_lookup_2 & ->). simpl.
    rewrite map_app. simpl. rewrite swept_step by (done || apply Hown).
    unfold delete_ours. simpl. destruct (ours lbname (lp_Name p.2)) eqn:Hours; [|by apply runs_ret].
    apply runs_wrap. eapply runs_conseq; [apply (deleteL7Policy_runs _ _ _ _ Hh)| |]; cbv beta.
    + intros l' Hl. apply Hown; [done|]. apply list_elem_of_fmap. by exists p.
    + done.
    + intros err s' [H|H]; [by eexists; split; [exact H|apply foreign_swept]|].
      eexists; split; [exact H|]. unfold foreign at 1. rewrite list_filter_filter.
      unfold swept_ids. rewrite list_filter_filter. apply filter_ext_in. intros q Hq. split; [tauto|].
      intros Hf. split; [split; [done|]|by left]. intros He.
      pose proof (same_id ps0 q p (proj1 Hown) Hq Hp He). by subst q; rewrite Hours in Hf.
  - intros _ s' H. by rewrite Hids in H.
  - done.
Qed.

(** *** Building up *)
Lemma placed_at (a b : Policies) p k :
  length a = k → placed (Z.of_nat k + 1) p (a ++ b) = a ++ p :: b.
Proof.
  intros Hk. unfold placed. replace (Z.to_nat (Z.of_nat k + 1 - 1)) with k by lia.
  rewrite <-Hk, take_app_length, drop_app_length. done.
Qed.

Lemma with_rule_here id rule (a b : Policies) row :
  id ∉ map fst a → id ∉ map fst b →
  map (with_rule id rule) (a ++ (id, row) :: b) =
    a ++ (id, mkL7Row (lp_Name row) (lp_Action row) (lp_RedirectPoolID row) (lp_rules row ++ [rule])) :: b.
Proof.
  intros Ha Hb. rewrite map_app. simpl. rewrite !with_rule_other by done.
  unfold with_rule at 1. simpl. by rewrite decide_True.
Qed.

Lemma own_ids_insert s (a b : Policies) id row :
  own_ids listener (a ++ b) s → id ∉ map fst (a ++ b) →
  (∀ l', l' ≠ listener → id ∉ map fst (policies_of s l')) →
  own_ids listener (a ++ (id, row) :: b) s.
Proof.
  intros [Hnd Ho] Hid Hother.
  assert (map fst (a ++ (id, row) :: b) ≡ₚ id :: map fst (a ++ b)) as Hperm.
  { rewrite !map_app. simpl. by rewrite <-Permutation_middle. }
  split.
  - rewrite Hperm. by apply NoDup_cons.
  - intros l' i Hl. rewrite Hperm. intros [->|Hi]%elem_of_cons; auto.
Qed.

Lemma create_rules_runs s s1 (a b : Policies) id row name rules :
  holds listener (a ++ (id, row) :: b) s s1 → own_ids listener (a ++ (id, row) :: b) s →
  runs view s1 (for_each rules (λ rule, wrap ("creating l7rule for " +:+ name) (createL7Rule lbID id rule)))
    (λ _ s', holds listener (a ++ (id, mkL7Row (lp_Name row) (lp_Action row) (lp_RedirectPoolID row)
                                      (lp_rules row ++ rules)) :: b) s s')
    (λ _ s', ∃ row', lp_Name row' = lp_Name row ∧ holds listener (a ++ (id, row') :: b) s s').
Proof.
  intros Hh Hown.
  set (grown rs := mkL7Row (lp_Name row) (lp_Action row) (lp_RedirectPoolID row) (lp_rules row ++ rs)).
  assert ((id ∉ map fst a) ∧ (id ∉ map fst b)) as [Ha Hb].
  { destruct Hown as [Hnd _]. rewrite map_app in Hnd. simpl in Hnd.
    apply NoDup_app in Hnd as (_ & Hab & [? _]%NoDup_cons). split; [|done]. intros Hin.
    apply (Hab id Hin). by left. }
  apply (runs_for_each view (λ pre s', holds listener (a ++ (id, grown pre) :: b) s s')).
  - unfold grown. rewrite app_nil_r. by destruct row.
  - intros pre rule post s2 _ Hh2. apply runs_wrap. unfold createL7Rule.
    assert (own_ids listener (a ++ (id, grown pre) :: b) s) as Hown2.
    { eapply own_ids_sub; [exact Hown|]. by rewrite !map_app. }
    assert (∀ s3, rule_created id rule s2 s3 → holds listener (a ++ (id, grown (pre ++ [rule])) :: b) s s3) as Hstep.
    { intros s3 Hc. assert (id ∈ map fst (a ++ (id, grown pre) :: b)) as Hin by (rewrite map_app; set_solver).
      pose proof (rule_created_holds _ _ _ _ _ _ _ Hh2 Hown2 Hin Hc) as H.
      rewrite with_rule_here in H by done. unfold grown in *. simpl in H. by rewrite <-app_assoc in H. }
    apply settled_runs.
    + eapply runs_conseq; [apply (law_CreateRule s2 id rule)| |]; cbv beta.
      * intros _ s3 H. by apply Hstep.
      * intros e s3 [->|H]; [by exists (grown pre)|]. exists (grown (pre ++ [rule])). auto.
    + intros _ _ s' H. by exists (grown (pre ++ [rule])).
Qed.

Lemma create_loop_runs s ps0 s1 desired :
  own_ids listener ps0 s → holds listener (foreign lbname ps0) s s1 →
  (∀ d, d ∈ desired → ours lbname (dp_Name d) = true) →
  runs view s1 (for_each (imap pair desired) (create_desired lbID listener))
    (λ _ s', ∃ made, map snd made = map wanted_row desired ∧
       holds listener (made ++ foreign lbname ps0) s s' ∧ own_ids listener (made ++ foreign lbname ps0) s)
    (λ _ s', kept_foreign ps0 s s').
Proof.
  intros Hown Hh Hours.
  eapply runs_conseq; [apply (runs_for_each view (λ pre s', ∃ made,
    map snd made = map wanted_row (map snd pre) ∧ holds listener (made ++ foreign lbname ps0) s s' ∧
    own_ids listener (made ++ foreign lbname ps0) s ∧ foreign lbname made = [])
    (imap pair desired) _ (λ _ s', kept_foreign ps0 s s'))| |]; cbv beta.
  - exists []. split; [done|]. split; [done|]. split; [|done].
    eapply own_ids_sub; [exact Hown|]. apply sublist_map_fst, sublist_filter.
  - intros pre [i d] post s2 Heq (made & Hrows & Hh2 & Hown2 & Hf).
    assert (i = length made ∧ d ∈ desired) as [-> Hd].
    { assert (imap pair desired !! length pre = Some (i, d)) as Hl by (rewrite Heq; apply list_lookup_middle; done).
      rewrite list_lookup_imap in Hl. destruct (desired !! length pre) as [d'|] eqn:Hd; [|done].
      injection Hl as <- <-. split; [|by eapply list_elem_of_lookup_2].
      apply (f_equal length) in Hrows. by rewrite !length_map in Hrows. }
    unfold create_desired. set (o := mkL7Opts _ _ _ _ _).
    assert (∀ p s3, policy_created o p s2 s3 →
      holds listener (made ++ (l7_ID p, policy_row o) :: foreign lbname ps0) s s3 ∧
      own_ids listener (made ++ (l7_ID p, policy_row o) :: foreign lbname ps0) s) as Hmade.
    { intros p s3 Hc. destruct (policy_created_holds _ _ _ _ _ o p Hh2 Hown2 eq_refl Hc) as (H & Hn & Ho).
      simpl in H. rewrite placed_at in H by done. split; [done|]. by apply own_ids_insert. }
    assert (∀ row (id : string) s3, lp_Name row = dp_Name d →
      holds listener (made ++ (id, row) :: foreign lbname ps0) s s3 → kept_foreign ps0 s s3) as Hkept.
    { intros row id s3 Hn H. exists (made ++ (id, row) :: foreign lbname ps0). split; [done|].
      rewrite foreign_app, Hf. simpl. unfold foreign at 1. rewrite filter_cons, decide_False.
      - apply foreign_idemp.
      - simpl. rewrite Hn, Hours by done. done. }
    eapply (runs_bind_wrap _ _ _ _ _ (λ p s3, policy_created o p s2 s3) _ (λ _ s', kept_foreign ps0 s s')); [|done|]; cbv beta.
    + unfold createL7Policy. apply settled_runs.
      * eapply runs_conseq; [apply (law_policies_Create s2 o)|done|]; cbv beta.
        intros e s3 [->|[p Hp]].
        -- exists (made ++ foreign lbname ps0). split; [done|]. by rewrite foreign_app, Hf, foreign_idemp.
        -- destruct (Hmade p s3 Hp) as [H _]. by eapply Hkept; [|exact H].
      * intros p _ s3 Hp. destruct (Hmade p s3 Hp) as [H _]. by eapply Hkept; [|exact H].
    + intros p s3 Hp. destruct (Hmade p s3 Hp) as [Hh3 Hown3].
      eapply runs_conseq; [apply (create_rules_runs _ _ _ _ _ _ _ _ Hh3 Hown3)| |]; cbv beta.
      * intros _ s4 H. exists (made ++ [(l7_ID p, wanted_row d)]). rewrite !map_app, Hrows. simpl.
        split; [done|]. rewrite <-!app_assoc. simpl. split; [exact H|]. split.
        -- eapply own_ids_sub; [exact Hown3|]. by rewrite !map_app.
        -- rewrite foreign_app, Hf. unfold foreign. rewrite filter_cons, decide_False; [done|].
           simpl. by rewrite Hours.
      * intros e s4 (row' & Hn & H). by eapply Hkept; [|exact H].
  - intros _ s' (made & Hrows & H & Ho & _). exists made. split; [|done]. rewrite Hrows. f_equal.
    apply list_eq. intros i. rewrite list_lookup_fmap, list_lookup_imap. by destruct (desired !! i).
  - done.
Qed.

(** What a listener holds once the desired policies are on it. *)
Definition in_order (ps0 : Policies) (desired : list desiredPolicy) (s s' : LBState) : Prop :=
  (s' = s ∧ Forall2 reads_as ps0 desired) ∨
  ∃ made, map snd made = map wanted_row desired ∧
    holds listener (made ++ foreign lbname ps0) s s' ∧ own_ids listener (made ++ foreign lbname ps0) s.

Lemma syncL7Policies_runs s desired :
  let ps0 := policies_of s listener in
  own_ids listener ps0 s → (∀ d, d ∈ desired → ours lbname (dp_Name d) = true) →
  runs view s (syncL7Policies lbID listener lbname desired)
    (λ _ s', in_order ps0 desired s s' ∧
       (map snd ps0 = map wanted_row desired → Forall representable desired → s' = s))
    (λ _ s', kept_foreign ps0 s s').
Proof.
  intros ps0 Hown Hours. unfold syncL7Policies.
  assert (kept_foreign ps0 s s) as Hsame by (exists ps0; split; [apply holds_refl|done]).
  eapply runs_bind_wrap; [apply (law_policies_List s listener)|by intros e s' ->|]; cbv beta.
  intros l s' [-> Hl]. rewrite (by_position_shown _ _ Hl). fold ps0. rewrite length_imap.
  eapply (runs_bind _ _ _ _ (λ b s', s' = s ∧ (b = true → Forall2 reads_as ps0 desired) ∧
    (map snd ps0 = map wanted_row desired → Forall representable desired → b = true)) _ (λ _ s', s' = s));
    [|by intros e s' ->|]; cbv beta.
  - case_decide as Hlen.
    + eapply runs_conseq; [apply (policies_match_runs ps0 s 0 ps0 desired Hown eq_refl); done| |done]; cbv beta.
      intros b s' (-> & H1 & H2). split; [done|]. split; [auto|]. intros Hrows Hrep. apply H2.
      apply Forall2_same_length_lookup. split; [done|]. intros i p d Hp Hd rules Hr.
      apply wanted_reads; [by eapply (Forall_lookup_1 _ _ _ _ Hrep)| |done].
      apply (f_equal (.!! i)) in Hrows. rewrite !list_lookup_fmap, Hp, Hd in Hrows. by injection Hrows.
    + apply runs_ret. split; [done|]. split; [done|]. intros Hrows. apply (f_equal length) in Hrows.
      by rewrite !length_map in Hrows.
  - intros [] s' (-> & Hm & Hs).
    + apply runs_ret. split; [left; auto|done].
    + unfold rebuild_policies.
      eapply runs_bind; [by apply (delete_loop_runs s ps0)|done|]; cbv beta.
      intros _ s1 Hh. eapply runs_conseq; [by apply (create_loop_runs s ps0 s1 desired)| |done]; cbv beta.
      intros _ s2 H. split; [by right|]. intros Hrows Hrep. by specialize (Hs Hrows Hrep).
Qed.
End policies_facts.

(** The names [buildDesiredPolicies] gives are this controller's own. *)
Lemma buildDesiredPolicies_ours ing lbname poolIDs d :
  d ∈ buildDesiredPolicies ing lbname poolIDs → ours lbname (dp_Name d) = true.
Proof.
  intros (i & x & -> & _)%elem_of_lookup_imap. unfold ours, name_policy. simpl.
  rewrite <-string_app_assoc. apply has_prefix_app.
Qed.

(** ** Properties *)

(** A listener's policies are brought to the ones desired.  After a success
    either nothing was done and every policy reads as the desired one in its
    place, or the desired policies, with their rules, stand first and in order,
    and behind them what was made out of band, untouched.  A listener that holds
    just the desired policies, of types the rules can tell, is left as it is.
    Pass or failure, no policy made out of band is gone and nothing but this
    listener's policies has changed. *)
Theorem syncL7Policies_converges {W} {api : Octavia W} {clock : Clock W} {api7 : OctaviaL7 W}
    (view : W → LBState) `{!OctaviaLaws api view} `{!ClockLaws clock api view} `{!OctaviaL7Laws api7 view}
    (lbID listener lbname : string) (desired : list desiredPolicy) (s : LBState) :
  let ps0 := policies_of s listener in
  own_ids listener ps0 s → (∀ d, d ∈ desired → ours lbname (dp_Name d) = true) →
  runs view s (syncL7Policies lbID listener lbname desired)
    (λ _ s', in_order listener lbname ps0 desired s s' ∧
       (map snd ps0 = map wanted_row desired → Forall representable desired → s' = s))
    (λ _ s', kept_foreign listener lbname ps0 s s').
Proof. by apply syncL7Policies_runs. Qed.

(** ** Witness *)
Definition ex_l7_state : LBState :=
  mkLBState {["lb-1" := ex_lb]} {["l-1" := mkListenerRow "lb_http_80" "HTTP" 80 ["lb-1"]]} ∅ ∅ ∅ ∅
    {["l-1" := no_settings]}
    {["l-1" := [("old", mkL7Row "lb_l7_0" ActionRedirectToPool "p-old" []);
                ("mine", mkL7Row "by-hand" "REJECT" "" [])]]} ∅ ∅.
Definition ex_desired : list desiredPolicy := buildDesiredPolicies ex_ing "lb" ex_pools.
Definition ex_l7_sync : result () * RefWorld :=
  @syncL7Policies RefWorld RefOctavia RefClock RefOctaviaL7 "lb-1" "l-1" "lb" ex_desired (mkRef ex_l7_state 0).

Lemma syncL7Policies_converges_witness :
  ex_l7_sync.1 = Ok () ∧
  map (lp_Name ∘ snd) (policies_of (rw_state ex_l7_sync.2) "l-1") = ["lb_l7_0"; "lb_l7_1"; "by-hand"] ∧
  in_order "l-1" "lb" (policies_of ex_l7_state "l-1") ex_desired ex_l7_state (rw_state ex_l7_sync.2).
Proof.
  assert (ex_l7_sync.1 = Ok ()) as Hok by (vm_compute; reflexivity).
  split; [exact Hok|]. split; [vm_compute; reflexivity|].
  pose proof (@syncL7Policies_converges RefWorld RefOctavia RefClock RefOctaviaL7 rw_state
    RefOctavia_laws RefClock_laws RefOctaviaL7_laws "lb-1" "l-1" "lb" ex_desired ex_l7_state) as H.
  assert (own_ids "l-1" (policies_of ex_l7_state "l-1") ex_l7_state) as Hown.
  { split; [by apply (bool_decide_unpack _); vm_compute|].
    intros l' i Hl _. unfold policies_of. simpl. rewrite lookup_singleton_ne by done. by intros ?%elem_of_nil. }
  specialize (H Hown (buildDesiredPolicies_ours _ _ _) (mkRef ex_l7_state 0) eq_refl).
  change (@syncL7Policies RefWorld RefOctavia RefClock RefOctaviaL7 "lb-1" "l-1" "lb" ex_desired
    (mkRef ex_l7_state 0)) with ex_l7_sync in H.
  revert Hok H. generalize ex_l7_sync. intros [[[]|e] w] Hok H; [exact (proj1 H)|discriminate Hok].
Defined.
