(* ===== verification/IngressFIP.v ===== *)
(** * pkg/ingress/fip.go: the public address of an Ingress, and whose it is

    Ownership of an address is written in its description, where a teardown
    without the Ingress can read it: the load balancer's name marks one this
    controller made and deletes, the same with "_keep" one it made and keeps,
    anything else a tenant's own.  What is proved is that an address is deleted
    only where that says so. *)

From S2P Require Import Prelude GoStd K8s LoadBalancing ServiceOctavia IngressPlan.
From Stdlib Require Import Ascii.

Local Open Scope string_scope.
Local Open Scope list_scope.

Definition InternalAnnotation : string := "octavia.ingress.kubernetes.io/internal".
Definition FloatingIPAnnotation : string := "octavia.ingress.kubernetes.io/floatingip".
Definition KeepFloatingIPAnnotation : string := "octavia.ingress.kubernetes.io/keep-floatingip".

Definition internal (ing : Ingress) : bool := negb (bool_decide (in_annotation ing InternalAnnotation = "false")).

Definition fipDescription (lbname : string) (keep : bool) : string :=
  if keep then lbname +:+ "_keep" else lbname.
Definition ownedBy (description lbname : string) : bool :=
  bool_decide (description = lbname) || bool_decide (description = lbname +:+ "_keep").

Section fip.
Context {W : Type} `{!FloatingIPs W}.

Definition fipForPort (portID : string) : M W (option FloatingIP) :=
  fips ← floatingips_List portID ""; mret (head fips).

Definition fipByAddress (addr : string) : M W FloatingIP :=
  fips ← wrap ("listing floating IP " +:+ addr) (floatingips_List "" addr);
  match fips with
  | [] => fail (ErrMsg ("floating IP " +:+ addr +:+ " does not exist in this project (the " +:+
            FloatingIPAnnotation +:+ " annotation must name an existing one)"))
  | f :: _ => mret f
  end.

(** An update that names no field: the port is the nil pointer. *)
Definition detach_opts : FIPUpdateOpts := mkFIPUpdate None None.

Definition releaseFIP (lbname vipPortID : string) : M W () :=
  if decide (vipPortID = "") then mret ()
  else
    fip ← fipForPort vipPortID;
    match fip with
    | None => mret ()
    | Some f =>
        if decide (fr_Description (fip_row f) = fipDescription lbname false) then
          wrap ("deleting floating IP " +:+ fr_FloatingIP (fip_row f))
            (ignoring (λ e, ResponseCodeIs e 404) (floatingips_Delete (fip_ID f)))
        else
          ignoring (λ e, ResponseCodeIs e 404) (floatingips_Update (fip_ID f) detach_opts)
    end.

(** The tenant's own address, put on the port. *)
Definition bind_named (addr vipPortID : string) : M W string :=
  fip ← fipByAddress addr;
  (if decide (fr_PortID (fip_row fip) ≠ vipPortID) then
     wrap ("associating floating IP " +:+ addr +:+ " with the listener")
       (floatingips_Update (fip_ID fip) (mkFIPUpdate None (Some vipPortID)))
   else mret ()) ≫= λ _,
  mret (fr_FloatingIP (fip_row fip)).

(** The address on the port, marked as the annotation says, or a new one. *)
Definition bind_ours (floatingNetworkID lbname vipPortID : string) (keep : bool) : M W string :=
  fip ← fipForPort vipPortID;
  match fip with
  | None =>
      if decide (floatingNetworkID = "") then
        fail (ErrMsg ("the Ingress asks for external exposure (" +:+ InternalAnnotation +:+
          "=false) but this deployment has no floating network"))
      else
        f ← wrap ("allocating a floating IP on network " +:+ floatingNetworkID)
          (floatingips_Create (mkFIPOpts floatingNetworkID vipPortID (fipDescription lbname keep)));
        mret (fr_FloatingIP (fip_row f))
  | Some f =>
      let want := fipDescription lbname keep in
      (if negb (bool_decide (fr_Description (fip_row f) = want)) && ownedBy (fr_Description (fip_row f)) lbname then
         wrap "updating floating IP ownership marker"
           (floatingips_Update (fip_ID f) (mkFIPUpdate (Some want) None))
       else mret ()) ≫= λ _,
      mret (fr_FloatingIP (fip_row f))
  end.

Definition ensureFIP (floatingNetworkID : string) (ing : Ingress) (lbname vipPortID : string) : M W string :=
  if internal ing then releaseFIP lbname vipPortID ≫= λ _, mret ""
  else
    let addr := in_annotation ing FloatingIPAnnotation in
    if decide (addr ≠ "") then bind_named addr vipPortID
    else bind_ours floatingNetworkID lbname vipPortID
           (bool_decide (in_annotation ing KeepFloatingIPAnnotation = "true")).
End fip.

(** ** Lemmas *)

(** [fip_freed lbname port s s']: nothing has changed, or the one address on the
    port is gone and its description said this load balancer owned it. *)
Definition fip_freed (lbname port : string) (s s' : LBState) : Prop :=
  s' = s ∨ ∃ i f, s_fips s !! i = Some f ∧ fr_PortID f = port ∧ port ≠ "" ∧
    fr_Description f = lbname ∧ s' = set_fips (delete i) s.

(** Only the description of an address of this load balancer's on the port, or
    only where the named address is, has changed. *)
Definition fip_rewritten (i : string) (f g : FIPRow) (s s' : LBState) : Prop :=
  s_fips s !! i = Some f ∧ s' = set_fips <[i := g]> s.

Lemma fip_updated_insert i u f s s' :
  s_fips s !! i = Some f → fip_updated i u s s' → fip_rewritten i f (fip_written u f) s s'.
Proof.
  intros Hf (_ & ->). split; [done|]. unfold set_fips. f_equal. apply map_eq. intros j.
  destruct (decide (i = j)) as [<-|Hj].
  - by rewrite lookup_alter_eq, lookup_insert_eq, Hf.
  - by rewrite lookup_alter_ne, lookup_insert_ne.
Qed.

Lemma fip_rewritten_same i f s s' : fip_rewritten i f f s s' → s' = s.
Proof. intros [Hf ->]. destruct s. unfold set_fips. simpl in *. f_equal. by rewrite insert_id. Qed.

Section fip_facts.
Context {W : Type} {api : FloatingIPs W} (view : W → LBState) `{!FloatingLaws api view}.

Lemma fipForPort_runs s port :
  port ≠ "" →
  runs view s (fipForPort port)
    (λ o s', s' = s ∧ match o with
       | Some f => s_fips s !! fip_ID f = Some (fip_row f) ∧ fr_PortID (fip_row f) = port
       | None => ∀ i r, s_fips s !! i = Some r → fr_PortID r ≠ port
       end)
    (λ _ s', s' = s).
Proof.
  intros Hp. unfold fipForPort. eapply runs_bind; [apply (law_fips_List s port "")|done|]; cbv beta.
  intros l s' [-> Hl]. apply runs_ret. split; [done|]. destruct l as [|f l]; simpl.
  - intros i r Hi Hr. destruct Hl as [_ Hl].
    destruct (proj2 (Hl i r)) as (x & Hx & _); [|by apply elem_of_nil in Hx].
    split; [done|]. split; [by right|by left].
  - destruct (lists_elem _ _ _ _ _ f Hl) as [Hf [[?|Hfp] _]]; [by left|done..].
Qed.

Lemma fipByAddress_runs s addr :
  addr ≠ "" →
  runs view s (fipByAddress addr)
    (λ f s', s' = s ∧ s_fips s !! fip_ID f = Some (fip_row f) ∧ fr_FloatingIP (fip_row f) = addr)
    (λ _ s', s' = s).
Proof.
  intros Ha. unfold fipByAddress. eapply runs_bind_wrap; [apply (law_fips_List s "" addr)|done|]; cbv beta.
  intros [|f l] s' [-> Hl]; [by apply runs_fail|]. apply runs_ret. split; [done|].
  by destruct (lists_elem _ _ _ _ _ f Hl) as [Hf [_ [?|Hfa]]]; [by left|..].
Qed.

Lemma update_runs s i f u :
  s_fips s !! i = Some f →
  runs view s (floatingips_Update i u) (λ _ s', fip_rewritten i f (fip_written u f) s s')
    (λ e s', maybe s (fip_rewritten i f (fip_written u f) s) s' ∧ (ResponseCodeIs e 404 = true → False)).
Proof.
  intros Hf. eapply runs_conseq; [apply (law_fips_Update s i u)| |]; cbv beta.
  - intros _ s'. by apply fip_updated_insert.
  - intros e s' [Hm H404]. split.
    + destruct Hm as [->|H]; [by left|right; by apply fip_updated_insert].
    + intros He. destruct (H404 He) as [_ Hn]. congruence.
Qed.

Lemma releaseFIP_runs s lbname port :
  runs view s (releaseFIP lbname port)
    (λ _ s', fip_freed lbname port s s' ∧
       (port ≠ "" → one_fip_per_port (s_fips s) →
        ∀ i f, s_fips s' !! i = Some f → fr_PortID f = port → fr_Description f ≠ lbname))
    (λ _ s', fip_freed lbname port s s').
Proof.
  unfold releaseFIP. case_decide as Hp; [apply runs_ret; by split; [left|]|].
  eapply runs_bind; [by apply fipForPort_runs|by intros e s' ->; left|]; cbv beta.
  intros [f|] s' [-> H]; [|apply runs_ret; split; [by left|]; intros _ _ i g Hg Hgp; by destruct (H i g)].
  destruct H as [Hf Hfp]. case_decide as Hd; simpl in Hd.
  - apply runs_wrap, runs_ignoring. eapply runs_conseq; [apply (law_fips_Delete s (fip_ID f))| |]; cbv beta.
    + intros _ s' ->. split; [right; by exists (fip_ID f), (fip_row f)|].
      intros _ Hone i g Hg Hgp. simpl in Hg. apply lookup_delete_Some in Hg as [Hi Hg].
      destruct Hi. apply (Hone (fip_ID f) i (fip_row f) g); congruence.
    + intros e s' [Hm H404]. destruct (ResponseCodeIs e 404).
      * destruct H404 as [_ Hn]; [done|congruence].
      * destruct Hm as [->| ->]; [by left|]. right. by exists (fip_ID f), (fip_row f).
  - apply runs_ignoring. eapply runs_conseq; [by apply update_runs| |]; cbv beta.
    + intros _ s' Hs'. assert (fip_written detach_opts (fip_row f) = fip_row f) as Hw by by destruct (fip_row f).
      rewrite Hw in Hs'. apply fip_rewritten_same in Hs' as ->. split; [by left|].
      intros _ Hone i g Hg Hgp Hgd.
      assert (fip_ID f = i) as <- by (apply (Hone (fip_ID f) i (fip_row f) g); congruence). congruence.
    + intros e s' [Hm H404]. destruct (ResponseCodeIs e 404); [by destruct H404|].
      destruct Hm as [->|Hs']; [by left|].
      assert (fip_written detach_opts (fip_row f) = fip_row f) as Hw by by destruct (fip_row f).
      rewrite Hw in Hs'. apply fip_rewritten_same in Hs' as ->. by left.
Qed.

(** What asking for an address does: at most one address has been freed, bound,
    marked or made, and which of these follows from the Ingress. *)
Definition fip_done (network lbname port : string) (ing : Ingress) (s s' : LBState) : Prop :=
  let addr := in_annotation ing FloatingIPAnnotation in
  let keep := bool_decide (in_annotation ing KeepFloatingIPAnnotation = "true") in
  if internal ing then fip_freed lbname port s s'
  else if decide (addr ≠ "") then
    s' = s ∨ ∃ i f, fr_FloatingIP f = addr ∧ fip_rewritten i f (fip_written (mkFIPUpdate None (Some port)) f) s s'
  else
    s' = s ∨
    (∃ i f, fr_PortID f = port ∧ ownedBy (fr_Description f) lbname = true ∧
       fip_rewritten i f (fip_written (mkFIPUpdate (Some (fipDescription lbname keep)) None) f) s s') ∨
    (network ≠ "" ∧ (∀ i f, s_fips s !! i = Some f → fr_PortID f ≠ port) ∧
     ∃ f, fip_created (mkFIPOpts network port (fipDescription lbname keep)) f s s').

(** The address answered: none for an internal Ingress, else one on the port --
    the one named when one is. *)
Definition fip_answer (port : string) (ing : Ingress) (a : string) (s' : LBState) : Prop :=
  if internal ing then a = ""
  else (∃ i f, s_fips s' !! i = Some f ∧ fr_PortID f = port ∧ fr_FloatingIP f = a) ∧
       (in_annotation ing FloatingIPAnnotation ≠ "" → a = in_annotation ing FloatingIPAnnotation).

Lemma bind_named_runs s addr port :
  addr ≠ "" →
  runs view s (bind_named addr port)
    (λ a s', a = addr ∧ (∃ i f, s_fips s' !! i = Some f ∧ fr_PortID f = port ∧ fr_FloatingIP f = a) ∧
       (s' = s ∨ ∃ i f, fr_FloatingIP f = addr ∧ fip_rewritten i f (fip_written (mkFIPUpdate None (Some port)) f) s s'))
    (λ _ s', s' = s ∨ ∃ i f, fr_FloatingIP f = addr ∧ fip_rewritten i f (fip_written (mkFIPUpdate None (Some port)) f) s s').
Proof.
  intros Ha. unfold bind_named. eapply runs_bind; [by apply fipByAddress_runs|by intros e s' ->; left|]; cbv beta.
  intros f s' (-> & Hf & Hfa).
  eapply (runs_bind _ _ _ _ (λ _ s', (∃ i g, s_fips s' !! i = Some g ∧ fr_PortID g = port ∧ fr_FloatingIP g = addr) ∧
    (s' = s ∨ ∃ i f, fr_FloatingIP f = addr ∧ fip_rewritten i f (fip_written (mkFIPUpdate None (Some port)) f) s s')));
    [|exact (λ e s' H, H)|]; cbv beta.
  - case_decide as Hp.
    + apply runs_wrap. eapply runs_conseq; [by apply update_runs| |]; cbv beta.
      * intros _ s' Hs'. split; [|right; by exists (fip_ID f), (fip_row f)].
        destruct Hs' as [_ ->]. exists (fip_ID f). simpl. rewrite lookup_insert_eq. by eexists.
      * intros e s' [[->|Hs'] _]; [by left|right; by exists (fip_ID f), (fip_row f)].
    + apply runs_ret. split; [|by left]. by exists (fip_ID f), (fip_row f).
  - intros _ s' H. apply runs_ret. by rewrite Hfa.
Qed.

Lemma bind_ours_runs s network lbname port keep :
  port ≠ "" →
  let step s' := s' = s ∨
    (∃ i f, fr_PortID f = port ∧ ownedBy (fr_Description f) lbname = true ∧
       fip_rewritten i f (fip_written (mkFIPUpdate (Some (fipDescription lbname keep)) None) f) s s') ∨
    (network ≠ "" ∧ (∀ i f, s_fips s !! i = Some f → fr_PortID f ≠ port) ∧
     ∃ f, fip_created (mkFIPOpts network port (fipDescription lbname keep)) f s s') in
  runs view s (bind_ours network lbname port keep)
    (λ a s', (∃ i f, s_fips s' !! i = Some f ∧ fr_PortID f = port ∧ fr_FloatingIP f = a) ∧ step s')
    (λ _ s', step s').
Proof.
  intros Hp step. unfold bind_ours.
  eapply runs_bind; [by apply fipForPort_runs|by intros e s' ->; left|]; cbv beta.
  intros [f|] s' [-> H].
  - destruct H as [Hf Hfp]. set (u := mkFIPUpdate (Some (fipDescription lbname keep)) None).
    eapply (runs_bind _ _ _ _ (λ _ s', (∃ i g, s_fips s' !! i = Some g ∧ fr_PortID g = port ∧
      fr_FloatingIP g = fr_FloatingIP (fip_row f)) ∧ step s')); [|exact (λ e s' H, H)|]; cbv beta.
    + destruct (negb _ && ownedBy _ _) eqn:Ho.
      * apply andb_true_iff in Ho as [_ Ho]. apply runs_wrap.
        eapply runs_conseq; [by eapply (update_runs s _ _ u)| |]; cbv beta.
        -- intros _ s' Hs'. split; [|right; left; by exists (fip_ID f), (fip_row f)].
           destruct Hs' as [_ ->]. exists (fip_ID f). simpl. rewrite lookup_insert_eq. by eexists.
        -- intros e s' [[->|Hs'] _]; [by left|right; left; by exists (fip_ID f), (fip_row f)].
      * apply runs_ret. split; [by exists (fip_ID f), (fip_row f)|by left].
    + intros _ s' Hs'. by apply runs_ret.
  - case_decide as Hn; [by apply runs_fail; left|].
    eapply runs_bind_wrap; [apply (law_fips_Create s (mkFIPOpts network port (fipDescription lbname keep)))| |]; cbv beta.
    + intros e s' [->|Hc]; [by left|]. by right; right.
    + intros f s' Hc. apply runs_ret. split; [|right; right; split; [done|]; split; [done|]; by exists f].
      destruct Hc as (_ & (a & _ & Hrow) & ->). exists (fip_ID f), (fip_row f). simpl.
      rewrite lookup_insert_eq. by rewrite Hrow.
Qed.

Lemma ensureFIP_runs s network ing lbname port :
  port ≠ "" →
  runs view s (ensureFIP network ing lbname port)
    (λ a s', fip_answer port ing a s' ∧ fip_done network lbname port ing s s')
    (λ _ s', fip_done network lbname port ing s s').
Proof.
  intros Hp. unfold ensureFIP, fip_answer, fip_done. destruct (internal ing).
  - eapply runs_bind; [apply releaseFIP_runs|done|]; cbv beta. intros _ s' [H _]. by apply runs_ret.
  - case_decide as Ha.
    + eapply runs_conseq; [by apply bind_named_runs| |done]; cbv beta.
      intros a s' (-> & H1 & H2). done.
    + eapply runs_conseq; [by apply bind_ours_runs| |done]; cbv beta. intros a s' [H1 H2]. by split; [split|].
Qed.
End fip_facts.

(** ** Properties *)

(** No address is deleted that is not this load balancer's to delete.  Whatever
    the Ingress asks, and whether the call succeeds or fails, an address that was
    there is there after it, unless it was on the load balancer's port with
    exactly its name as its description -- and then the Ingress asked for none;
    an address that is on another port and is not the one the annotation names is
    as it was.  After a success the answer is no address for an internal
    Ingress, and else one on the port. *)
Theorem ensureFIP_keeps_others {W} {api : FloatingIPs W} (view : W → LBState) `{!FloatingLaws api view}
    (network : string) (ing : Ingress) (lbname port : string) (s : LBState) :
  port ≠ "" →
  let kept s' :=
    (∀ i f, s_fips s !! i = Some f → s_fips s' !! i = None →
       internal ing = true ∧ fr_PortID f = port ∧ fr_Description f = lbname) ∧
    (∀ i f, s_fips s !! i = Some f → fr_PortID f ≠ port → fr_FloatingIP f ≠ in_annotation ing FloatingIPAnnotation →
       s_fips s' !! i = Some f) ∧
    s' = set_fips (λ _, s_fips s') s in
  runs view s (ensureFIP network ing lbname port)
    (λ a s', fip_answer port ing a s' ∧ kept s') (λ _ s', kept s').
Proof.
  intros Hp kept.
  assert (kept s) as H0 by (split; [congruence|split; [done|by destruct s]]).
  assert (∀ i f g s', fip_rewritten i f g s s' →
    fr_PortID f = port ∨ fr_FloatingIP f = in_annotation ing FloatingIPAnnotation → kept s') as Hre.
  { intros i f g s' [Hf ->] Hor. split; [|split; [|done]]; simpl; intros j h Hj.
    - rewrite lookup_insert_None. by intros [? _]; congruence.
    - intros Hjp Hja. rewrite lookup_insert_ne; [done|]. intros <-. rewrite Hf in Hj. injection Hj as <-. tauto. }
  assert (∀ s', fip_done network lbname port ing s s' → kept s') as Hdone.
  { intros s' H. unfold fip_done in H. destruct (internal ing) eqn:Hint.
    - destruct H as [->|(i & f & Hf & Hfp & _ & Hd & ->)]; [done|]. unfold kept. split; [|split; [|done]]; simpl.
      + intros j g Hj Hn. apply lookup_delete_None in Hn as [<-|Hn]; [|congruence].
        rewrite Hf in Hj. by injection Hj as <-.
      + intros j g Hj Hgp _. rewrite lookup_delete_ne; [done|]. intros <-. congruence.
    - case_decide.
      + destruct H as [->|(i & f & Ha & Hs')]; [done|]. eapply Hre; [exact Hs'|by right].
      + destruct H as [->|[(i & f & Hfp & _ & Hs')|(_ & _ & f & Hc)]]; [done|eapply Hre; [exact Hs'|by left]|].
        destruct Hc as (Hnew & _ & ->). split; [|split; [|done]]; simpl; intros j g Hj.
        * rewrite lookup_insert_None. intros [? _]. congruence.
        * intros _ _. rewrite lookup_insert_ne; [done|]. intros <-. congruence. }
  eapply runs_conseq; [by apply (ensureFIP_runs view)| |]; cbv beta.
  - intros a s' [Ha H]. split; [done|by apply Hdone].
  - intros e s' H. by apply Hdone.
Qed.

(** ** What modelling showed *)

(** An address that is not this controller's to delete is not taken off the port
    either: the update that is sent names no field, and the client leaves out
    what is nil.  An Ingress made internal again stays reachable at it. *)
Theorem releaseFIP_leaves_bound {W} {api : FloatingIPs W} (view : W → LBState) `{!FloatingLaws api view}
    (lbname port i : string) (f : FIPRow) (s : LBState) :
  s_fips s !! i = Some f → fr_PortID f = port → one_fip_per_port (s_fips s) →
  fr_Description f ≠ lbname →
  runs view s (releaseFIP lbname port) (λ _ s', s' = s) (λ _ s', s' = s).
Proof.
  intros Hf Hp Hone Hd.
  assert (∀ s', fip_freed lbname port s s' → s' = s) as Hsame.
  { intros s' [->|(j & g & Hg & Hgp & Hne & Hgd & _)]; [done|].
    assert (i = j) as -> by (apply (Hone i j f g); congruence). congruence. }
  eapply runs_conseq; [apply (releaseFIP_runs view)| |]; cbv beta.
  - intros _ s' [H _]. by apply Hsame.
  - intros e s' H. by apply Hsame.
Qed.

(** ** Witness *)
Definition ex_fip_state : LBState :=
  mkLBState ∅ ∅ ∅ ∅ {["f1" := mkFIPRow "203.0.113.5" "public-net" "port-a" "lb";
                       "f2" := mkFIPRow "203.0.113.6" "public-net" "" "theirs"]} ∅ ∅ ∅ ∅ ∅.
Definition ex_fip_run : result string * RefWorld :=
  @ensureFIP RefWorld RefFloating "public-net" ex_ing "lb" "port-a" (mkRef ex_fip_state 0).
Lemma ensureFIP_keeps_others_witness :
  ex_fip_run.1 = Ok "" ∧ s_fips (rw_state ex_fip_run.2) !! "f1" = None ∧
  (∀ i f, s_fips ex_fip_state !! i = Some f → s_fips (rw_state ex_fip_run.2) !! i = None →
     internal ex_ing = true ∧ fr_PortID f = "port-a" ∧ fr_Description f = "lb").
Proof.
  assert (ex_fip_run.1 = Ok "") as Hok by (vm_compute; reflexivity).
  split; [exact Hok|]. split; [vm_compute; reflexivity|].
  assert ("port-a" ≠ "") as Hp by discriminate.
  pose proof (@ensureFIP_keeps_others RefWorld RefFloating rw_state RefFloating_laws "public-net" ex_ing "lb"
    "port-a" ex_fip_state Hp (mkRef ex_fip_state 0) eq_refl) as H.
  change (@ensureFIP RefWorld RefFloating "public-net" ex_ing "lb" "port-a" (mkRef ex_fip_state 0)) with ex_fip_run in H.
  revert Hok H. generalize ex_fip_run. intros [[a|e] w] Hok H; [exact (proj1 (proj2 H))|discriminate Hok].
Defined.
