(* ===== verification/IngressBarbican.v ===== *)
(** * pkg/ingress/barbican.go and ensureTLS: certificates in the key manager

    A TLS Secret is mirrored as a bundle whose name holds a hash of what is in
    it, so a renewed certificate is another bundle, and the old one is deleted
    once the listener has been re-pointed.  SHA-256, PEM, X.509 and PKCS#12 are
    parameters. *)

From S2P Require Import Prelude GoStd K8s LoadBalancing ServiceOctavia IngressPlan.
From Stdlib Require Import Ascii.

Local Open Scope string_scope.
Local Open Scope list_scope.

(** A Secret (corev1), as far as it is read. *)
Record TLSSecret := mkTLSSecret {
  ts_Namespace : string; ts_Name : string; ts_Data : gmap string string }.
Definition TLSCertKey : string := "tls.crt".
Definition TLSPrivateKeyKey : string := "tls.key".

(** ** Encoding (crypto/x509, encoding/pem, go-pkcs12) *)
Class Bundles := {
  (* the type and bytes of the first block, and what follows it *)
  pem_Decode : string → option (string * string * string);
  ParseCertificate : string → result string;
  ParsePKCS8PrivateKey : string → result string;
  ParsePKCS1PrivateKey : string → result string;
  ParseECPrivateKey : string → result string;
  pkcs12_Encode : string → string → list string → result string;
  sha256_hex : string → string;
}.

Section encoding.
Context `{!Bundles}.

(** The loop over the blocks of the certificate file; a block that is read
    leaves less behind. *)
Fixpoint cert_chain (fuel : nat) (rest : string) (chain : list string) : result (list string) :=
  match fuel with
  | O => Ok chain
  | S fuel =>
      match pem_Decode rest with
      | None => Ok chain
      | Some (type, bytes, rest) =>
          if decide (type ≠ "CERTIFICATE") then cert_chain fuel rest chain
          else match ParseCertificate bytes with
          | Err e => Err (ErrWrap "parsing certificate" e)
          | Ok c => cert_chain fuel rest (chain ++ [c])
          end
      end
  end.

Definition parsePrivateKey (der : string) : result string :=
  match ParsePKCS8PrivateKey der with
  | Ok k => Ok k
  | Err _ => match ParsePKCS1PrivateKey der with
    | Ok k => Ok k
    | Err _ => match ParseECPrivateKey der with
      | Ok k => Ok k
      | Err _ => Err (ErrMsg "tls.key is not PKCS8/PKCS1/EC")
      end
    end
  end.

Definition toPKCS12 (crtPEM keyPEM : string) : result string :=
  chain ← cert_chain (S (String.length crtPEM)) crtPEM [];
  match chain with
  | [] => Err (ErrMsg "no CERTIFICATE block in tls.crt")
  | leaf :: cas =>
      match pem_Decode keyPEM with
      | None => Err (ErrMsg "no PEM block in tls.key")
      | Some (_, der, _) => key ← parsePrivateKey der; pkcs12_Encode key leaf cas
      end
  end.

(** ** The key manager *)
Definition bundle_name (name crt key : string) : string :=
  name +:+ "_" +:+ String.substring 0 10 (sha256_hex (crt +:+ key)).

Context {W : Type} `{!KeyManager W}.

Definition ensureBarbicanSecret (km : bool) (name : string) (tls : TLSSecret) : M W string :=
  if negb km then
    fail (ErrMsg "this deployment has no key-manager (Barbican) endpoint; TERMINATED_HTTPS Ingress needs one")
  else
    let crt := opt_or "" (ts_Data tls !! TLSCertKey) in
    let key := opt_or "" (ts_Data tls !! TLSPrivateKeyKey) in
    if decide (crt = "" ∨ key = "") then
      fail (ErrMsg ("TLS Secret " +:+ ts_Namespace tls +:+ "/" +:+ ts_Name tls +:+ " misses " +:+
        TLSCertKey +:+ " or " +:+ TLSPrivateKeyKey))
    else
      let full := bundle_name name crt key in
      existing ← wrap ("listing Barbican secrets " +:+ go_quote full) (secrets_List full);
      match existing with
      | c :: _ => mret (sc_SecretRef c)
      | [] =>
          pfx ← wrap ("encoding TLS Secret " +:+ ts_Namespace tls +:+ "/" +:+ ts_Name tls +:+ " as PKCS12")
                  (lift_result (toPKCS12 crt key));
          created ← wrap ("storing Barbican secret " +:+ go_quote full)
                      (secrets_Create (mkSecretRow full (b64_encode pfx)));
          mret (sc_SecretRef created)
      end.

Definition clean_secret (prefix : string) (keep : gset string) (c : Secret) : M W () :=
  if negb (has_prefix (sc_Name c) prefix) || bool_decide (sc_SecretRef c ∈ keep) then mret ()
  else wrap ("deleting Barbican secret " +:+ sc_Name c)
         (ignoring (λ e, ResponseCodeIs e 404) (secrets_Delete (ref_id (sc_SecretRef c)))).
Definition cleanupBarbicanSecrets (km : bool) (prefix : string) (keep : gset string) : M W () :=
  if negb km then mret ()
  else
    all ← wrap "listing Barbican secrets for cleanup" (secrets_List "");
    for_each all (clean_secret prefix keep).

(** ** ensureTLS (reconciler.go) *)
Variable Secrets : string → string → result TLSSecret.

Definition tls_prefix (lbname : string) : string := lbname +:+ "_tls_".
(** One entry of spec.tls, over the refs so far and the names seen. *)
Definition tls_step (km : bool) (namespace lbname : string) (st : list string * gset string)
    (secretName : string) : M W (list string * gset string) :=
  if decide (secretName = "" ∨ secretName ∈ st.2) then mret st
  else
    sec ← wrap ("reading TLS Secret " +:+ secretName) (lift_result (Secrets namespace secretName));
    ref ← ensureBarbicanSecret km (tls_prefix lbname +:+ secretName) sec;
    mret (st.1 ++ [ref], {[secretName]} ∪ st.2).
Definition ensureTLS (km : bool) (ing : Ingress) (lbname : string) : M W (list string) :=
  st ← fold_each (tls_step km (in_Namespace ing) lbname) ([], ∅) (in_TLS ing);
  mret st.1.
End encoding.

(** ** Lemmas *)
Definition one_secret_per_id (s : LBState) : Prop :=
  ∀ r1 r2, is_Some (s_secrets s !! r1) → is_Some (s_secrets s !! r2) → ref_id r1 = ref_id r2 → r1 = r2.

(** [cleaned dead s]: [s] without the secrets in [dead]. *)
Definition cleaned (dead : gset string) (s : LBState) : LBState :=
  set_secrets (filter (λ rs : string * SecretRow, rs.1 ∉ dead)) s.

Lemma cleaned_none s : cleaned ∅ s = s.
Proof.
  unfold cleaned, set_secrets. destruct s as [? ? ? ? ? ? ? ? ? sec]; simpl. f_equal.
  apply map_filter_id. intros i x _. set_solver.
Qed.

Lemma cleaned_lookup dead s r : s_secrets (cleaned dead s) !! r = if decide (r ∈ dead) then None else s_secrets s !! r.
Proof.
  unfold cleaned. simpl. case_decide as Hr.
  - apply map_lookup_filter_None. right. intros x _. simpl. tauto.
  - destruct (s_secrets s !! r) as [row|] eqn:Hl.
    + by apply map_lookup_filter_Some.
    + apply map_lookup_filter_None. by left.
Qed.

Lemma secret_gone_cleaned dead s r :
  one_secret_per_id s → is_Some (s_secrets s !! r) →
  secret_gone (ref_id r) (cleaned dead s) = cleaned ({[r]} ∪ dead) s.
Proof.
  intros Hone Hr. unfold secret_gone, cleaned, set_secrets. simpl. f_equal.
  apply map_eq. intros i. apply option_eq. intros row.
  rewrite !map_lookup_filter_Some. simpl. split.
  - intros [[Hi Hd] Hid]. split; [done|]. rewrite not_elem_of_union, not_elem_of_singleton. split; [|done].
    by intros ->.
  - rewrite not_elem_of_union, not_elem_of_singleton. intros (Hi & Hne & Hd). split; [done|].
    intros He. apply Hne. apply Hone; [by eexists|done|done].
Qed.

Section barbican_facts.
Context `{!Bundles} {W : Type} {api : KeyManager W} (view : W → LBState) `{!KeyManagerLaws api view}.

Definition doomed_secret (prefix : string) (keep : gset string) (s : LBState) (r : string) : Prop :=
  ∃ row, s_secrets s !! r = Some row ∧ has_prefix (scr_Name row) prefix = true ∧ r ∉ keep.

Lemma cleanupBarbicanSecrets_runs s km prefix keep :
  one_secret_per_id s →
  runs view s (cleanupBarbicanSecrets km prefix keep)
    (λ _ s', ∃ dead, s' = cleaned dead s ∧ (∀ r, r ∈ dead → doomed_secret prefix keep s r) ∧
       (km = true → ∀ r, doomed_secret prefix keep s r → r ∈ dead))
    (λ _ s', ∃ dead, s' = cleaned dead s ∧ ∀ r, r ∈ dead → doomed_secret prefix keep s r).
Proof.
  intros Hone. unfold cleanupBarbicanSecrets.
  assert (∀ r, r ∈ (∅ : gset string) → doomed_secret prefix keep s r) as Hnil by set_solver.
  destruct km; simpl; [|apply runs_ret; exists ∅; by rewrite cleaned_none].
  eapply runs_bind_wrap; [apply (law_secrets_List s "")| |]; cbv beta.
  { intros e s' ->. exists ∅. by rewrite cleaned_none. }
  intros all s' [-> Hall].
  eapply runs_conseq; [apply (runs_for_each view (λ pre s', ∃ dead, s' = cleaned dead s ∧
    (∀ r, r ∈ dead → doomed_secret prefix keep s r) ∧
    (∀ c, c ∈ pre → doomed_secret prefix keep s (sc_SecretRef c) → sc_SecretRef c ∈ dead)) all _
    (λ _ s', ∃ dead, s' = cleaned dead s ∧ ∀ r, r ∈ dead → doomed_secret prefix keep s r))| |]; cbv beta.
  - exists ∅. rewrite cleaned_none. split; [done|]. split; [done|]. by intros c ?%elem_of_nil.
  - intros pre c post s1 Heq (dead & -> & Hd & Hpre).
    assert (c ∈ all) as Hc by (rewrite Heq; set_solver).
    destruct (lists_elem _ _ _ _ _ c Hall Hc) as [Hrow _]. rewrite lookup_fmap in Hrow.
    destruct (s_secrets s !! sc_SecretRef c) as [row|] eqn:Hs; [|done]. simpl in Hrow. injection Hrow as Hname.
    unfold clean_secret. destruct (negb _ || _) eqn:Hk.
    + apply runs_ret. exists dead. split; [done|]. split; [done|].
      intros c' [Hc'| ->%list_elem_of_singleton]%elem_of_app; [by apply Hpre|].
      intros (row' & Hs' & Hp & Hn). rewrite Hs in Hs'. injection Hs' as <-.
      rewrite Hname in Hp. rewrite Hp in Hk. simpl in Hk. by apply bool_decide_eq_true in Hk.
    + apply orb_false_iff in Hk as [Hp Hn]. apply negb_false_iff in Hp. apply bool_decide_eq_false in Hn.
      assert (doomed_secret prefix keep s (sc_SecretRef c)) as Hdoom by (exists row; by rewrite Hname).
      assert (is_Some (s_secrets s !! sc_SecretRef c)) as Hsome by by eexists.
      assert (∃ dead', cleaned ({[sc_SecretRef c]} ∪ dead) s = cleaned dead' s ∧
        (∀ r, r ∈ dead' → doomed_secret prefix keep s r) ∧
        (∀ c', c' ∈ pre ++ [c] → doomed_secret prefix keep s (sc_SecretRef c') → sc_SecretRef c' ∈ dead')) as Hafter.
      { exists ({[sc_SecretRef c]} ∪ dead). split; [done|]. split.
        - intros r [->%elem_of_singleton|Hr]%elem_of_union; auto.
        - intros c' [Hc'| ->%list_elem_of_singleton]%elem_of_app Hd'; [|set_solver].
          apply elem_of_union. right. by apply Hpre. }
      apply runs_wrap, runs_ignoring.
      eapply runs_conseq; [apply (law_secrets_Delete (cleaned dead s) (ref_id (sc_SecretRef c)))| |]; cbv beta.
      * intros _ s' ->. by rewrite secret_gone_cleaned.
      * intros e s' [Hm H404]. destruct (ResponseCodeIs e 404).
        -- destruct H404 as [-> Hno]; [done|]. exists dead. split; [done|]. split; [done|].
           intros c' [Hc'| ->%list_elem_of_singleton]%elem_of_app Hd'; [by apply Hpre|].
           destruct (decide (sc_SecretRef c ∈ dead)) as [|Hnd]; [done|].
           destruct (Hno (sc_SecretRef c)); [|done]. rewrite cleaned_lookup, decide_False by done. done.
        -- destruct Hm as [->| ->]; [by exists dead|]. rewrite secret_gone_cleaned by done.
           destruct Hafter as (dead' & -> & H1 & _). by exists dead'.
  - intros _ s' (dead & -> & Hd & Hpre). exists dead. split; [done|]. split; [done|].
    intros _ r (row & Hr & Hp & Hn).
    destruct Hall as [_ Hall]. destruct (proj2 (Hall r (scr_Name row))) as (c & Hc & <- & _).
    { split; [by rewrite lookup_fmap, Hr|by left]. }
    apply Hpre; [done|]. by exists row.
  - done.
Qed.
End barbican_facts.

(** Only bundles of names that start with [prefix] have been added. *)
Record tls_grown (prefix : string) (s s' : LBState) : Prop := {
  tg_rest : s' = set_secrets (λ _, s_secrets s') s;
  tg_kept : ∀ r row, s_secrets s !! r = Some row → s_secrets s' !! r = Some row;
  tg_new : ∀ r row, s_secrets s' !! r = Some row →
    s_secrets s !! r = Some row ∨ has_prefix (scr_Name row) prefix = true;
  tg_ids : one_secret_per_id s → one_secret_per_id s' }.

Lemma tls_grown_refl prefix s : tls_grown prefix s s.
Proof. split; auto. by destruct s. Qed.
Lemma tls_grown_trans prefix s1 s2 s3 : tls_grown prefix s1 s2 → tls_grown prefix s2 s3 → tls_grown prefix s1 s3.
Proof.
  intros [A1 A2 A3 A4] [B1 B2 B3 B4]. split; auto.
  - by rewrite B1, A1.
  - intros r row Hr. destruct (B3 r row Hr); auto.
Qed.
Lemma secret_created_grown prefix o c s s' :
  has_prefix (scr_Name o) prefix = true → secret_created o c s s' → tls_grown prefix s s'.
Proof.
  intros Hp (Hnew & _ & _ & ->). split; simpl.
  - done.
  - intros r row Hr. rewrite lookup_insert_ne; [done|]. intros <-. by destruct (Hnew (sc_SecretRef c)).
  - intros r row [[_ <-]|[_ Hr]]%lookup_insert_Some; auto.
  - intros Hone r1 r2 [x1 H1] [x2 H2] He. simpl in H1, H2.
    apply lookup_insert_Some in H1 as [[E1 _]|[N1 H1]]; apply lookup_insert_Some in H2 as [[E2 _]|[N2 H2]].
    + congruence.
    + subst r1. by destruct (Hnew r2).
    + subst r2. by destruct (Hnew r1).
    + apply Hone; [by eexists..|done].
Qed.

(** The names of spec.tls that count: not blank, each once. *)
Fixpoint tls_names (seen : gset string) (l : list string) : list string :=
  match l with
  | [] => []
  | n :: l' => if decide (n = "" ∨ n ∈ seen) then tls_names seen l' else n :: tls_names ({[n]} ∪ seen) l'
  end.

Section tls_facts.
Context `{!Bundles} {W : Type} {api : KeyManager W} (view : W → LBState) `{!KeyManagerLaws api view}.
Variable Secrets : string → string → result TLSSecret.

(** [mirrored ns lbname n ref s]: [ref] is a bundle named after what the TLS
    Secret [n] holds now. *)
Definition mirrored (namespace lbname n ref : string) (s : LBState) : Prop :=
  ∃ tls row, Secrets namespace n = Ok tls ∧ s_secrets s !! ref = Some row ∧
    scr_Name row = bundle_name (tls_prefix lbname +:+ n) (opt_or "" (ts_Data tls !! TLSCertKey))
                     (opt_or "" (ts_Data tls !! TLSPrivateKeyKey)).

(** A bundle made for a TLS Secret: named after what it holds, and holding it. *)
Definition made_for (namespace lbname : string) (row : SecretRow) : Prop :=
  ∃ n tls pfx, Secrets namespace n = Ok tls ∧
    scr_Name row = bundle_name (tls_prefix lbname +:+ n) (opt_or "" (ts_Data tls !! TLSCertKey))
                     (opt_or "" (ts_Data tls !! TLSPrivateKeyKey)) ∧
    toPKCS12 (opt_or "" (ts_Data tls !! TLSCertKey)) (opt_or "" (ts_Data tls !! TLSPrivateKeyKey)) = Ok pfx ∧
    scr_Payload row = b64_encode pfx.
Definition all_made (namespace lbname : string) (s s' : LBState) : Prop :=
  ∀ r row, s_secrets s' !! r = Some row → s_secrets s !! r = Some row ∨ made_for namespace lbname row.
(** A bundle that carries what the TLS Secret [n] holds now, unless it was there
    under that name before. *)
Definition mirrored_from (s0 : LBState) (namespace lbname n ref : string) (s : LBState) : Prop :=
  ∃ tls row, Secrets namespace n = Ok tls ∧ s_secrets s !! ref = Some row ∧
    scr_Name row = bundle_name (tls_prefix lbname +:+ n) (opt_or "" (ts_Data tls !! TLSCertKey))
                     (opt_or "" (ts_Data tls !! TLSPrivateKeyKey)) ∧
    (s_secrets s0 !! ref = Some row ∨
     ∃ pfx, toPKCS12 (opt_or "" (ts_Data tls !! TLSCertKey)) (opt_or "" (ts_Data tls !! TLSPrivateKeyKey)) = Ok pfx ∧
       scr_Payload row = b64_encode pfx).

Lemma all_made_refl namespace lbname s : all_made namespace lbname s s.
Proof. by left. Qed.
Lemma all_made_trans namespace lbname s1 s2 s3 :
  all_made namespace lbname s1 s2 → all_made namespace lbname s2 s3 → all_made namespace lbname s1 s3.
Proof. intros H1 H2 r row Hr. destruct (H2 r row Hr) as [?|?]; [by apply H1|by right]. Qed.

(** Secret names hold no underscore, so a bundle's name tells which it is of. *)
Lemma mirrored_made namespace lbname n ref s0 s :
  (∀ m tls, Secrets namespace m = Ok tls → no_char "_"%char m = true) →
  all_made namespace lbname s0 s → mirrored namespace lbname n ref s → mirrored_from s0 namespace lbname n ref s.
Proof.
  intros Hdns Hmade (tls & row & Htls & Hrow & Hn). exists tls, row. split; [done|]. split; [done|]. split; [done|].
  destruct (Hmade ref row Hrow) as [?|(n' & tls' & pfx & Htls' & Hn' & Hp & Hpay)]; [by left|right].
  rewrite Hn in Hn'. unfold bundle_name, tls_prefix in Hn'. rewrite !string_app_assoc in Hn'.
  apply (inj (String.append lbname)), (inj (String.append "_tls_")) in Hn'.
  change ("_" +:+ ?x) with (String "_"%char x) in Hn'.
  apply sep_inj in Hn' as [<- _]; [|by eapply Hdns..]. rewrite Htls in Htls'. injection Htls' as <-. by exists pfx.
Qed.

Lemma mirrored_grown namespace lbname n ref prefix s s' :
  tls_grown prefix s s' → mirrored namespace lbname n ref s → mirrored namespace lbname n ref s'.
Proof. intros Hg (tls & row & H1 & H2 & H3). exists tls, row. split; [done|]. split; [by apply Hg|done]. Qed.

Lemma bundle_prefix lbname n crt key :
  has_prefix (bundle_name (tls_prefix lbname +:+ n) crt key) (tls_prefix lbname) = true.
Proof. unfold bundle_name. rewrite string_app_assoc. apply has_prefix_app. Qed.

Lemma ensureBarbicanSecret_runs s km namespace lbname n tls :
  Secrets namespace n = Ok tls →
  runs view s (ensureBarbicanSecret km (tls_prefix lbname +:+ n) tls)
    (λ ref s', tls_grown (tls_prefix lbname) s s' ∧ mirrored namespace lbname n ref s' ∧ all_made namespace lbname s s')
    (λ _ s', tls_grown (tls_prefix lbname) s s').
Proof.
  intros Htls. unfold ensureBarbicanSecret. destruct km; simpl; [|apply runs_fail, tls_grown_refl].
  case_decide; [apply runs_fail, tls_grown_refl|].
  set (full := bundle_name _ _ _).
  eapply runs_bind_wrap; [apply (law_secrets_List s full)|intros e s' ->; apply tls_grown_refl|]; cbv beta.
  intros [|c l] s' [-> Hl].
  - set (crt := opt_or "" (ts_Data tls !! TLSCertKey)) in *. set (key := opt_or "" (ts_Data tls !! TLSPrivateKeyKey)) in *.
    eapply runs_bind_wrap; [apply (runs_lift view s (toPKCS12 crt key)
      (λ pfx s', s' = s ∧ toPKCS12 crt key = Ok pfx) (λ _ s', s' = s))| |]; cbv beta.
    { by destruct (toPKCS12 _ _). }
    { intros e s' ->. apply tls_grown_refl. }
    intros pfx s' [-> Hpfx].
    assert (∀ c s', secret_created (mkSecretRow full (b64_encode pfx)) c s s' →
      tls_grown (tls_prefix lbname) s s') as Hgrow.
    { intros c s' Hc. eapply secret_created_grown; [|exact Hc]. apply bundle_prefix. }
    eapply runs_bind_wrap; [apply (law_secrets_Create s (mkSecretRow full (b64_encode pfx)))| |]; cbv beta.
    + intros e s' [->|[c Hc]]; [apply tls_grown_refl|by eapply Hgrow].
    + intros c s' Hc. apply runs_ret. split; [by eapply Hgrow|]. destruct Hc as (_ & _ & _ & ->). split.
      * exists tls, (mkSecretRow full (b64_encode pfx)). simpl. by rewrite lookup_insert_eq.
      * intros r row Hr. simpl in Hr. apply lookup_insert_Some in Hr as [[_ <-]|[_ Hr]]; [right|by left].
        by exists n, tls, pfx.
  - apply runs_ret. split; [apply tls_grown_refl|]. split; [|apply all_made_refl].
    destruct (lists_elem _ _ _ _ _ c Hl) as [Hrow Hn]; [by left|]. rewrite lookup_fmap in Hrow.
    destruct (s_secrets s !! sc_SecretRef c) as [row|] eqn:Hs; [|done]. simpl in Hrow. injection Hrow as Hrow.
    exists tls, row. split; [done|]. split; [done|]. rewrite Hrow. destruct Hn as [Hn|Hn]; [|done].
    exfalso. unfold full, bundle_name, tls_prefix in Hn.
    apply (f_equal String.length) in Hn. rewrite !string_length_app in Hn. simpl in Hn. lia.
Qed.

Lemma tls_step_runs km namespace lbname n s s1 refs seen :
  tls_grown (tls_prefix lbname) s s1 →
  runs view s1 (tls_step Secrets km namespace lbname (refs, seen) n)
    (λ st s', if decide (n = "" ∨ n ∈ seen) then st = (refs, seen) ∧ s' = s1
       else ∃ ref, st = (refs ++ [ref], {[n]} ∪ seen) ∧ tls_grown (tls_prefix lbname) s s' ∧
              tls_grown (tls_prefix lbname) s1 s' ∧ mirrored namespace lbname n ref s' ∧ all_made namespace lbname s1 s')
    (λ _ s', tls_grown (tls_prefix lbname) s s').
Proof.
  intros Hg. unfold tls_step. simpl. case_decide as Hn; [by apply runs_ret|].
  eapply runs_bind_wrap; [apply (runs_lift view s1 (Secrets namespace n) (λ sec s', Secrets namespace n = Ok sec ∧ s' = s1)
    (λ _ s', s' = s1)); by destruct (Secrets namespace n)|by intros e s' ->|]; cbv beta.
  intros sec s' [Hsec ->].
  eapply runs_bind; [by apply (ensureBarbicanSecret_runs s1 km namespace lbname n sec)| |]; cbv beta.
  - intros e s' Hst. by eapply tls_grown_trans.
  - intros ref s' (H1 & H2 & H3). apply runs_ret. exists ref. split; [done|]. split; [by eapply tls_grown_trans|done].
Qed.

Lemma tls_fold_runs km namespace lbname names s s1 refs seen done_ :
  tls_grown (tls_prefix lbname) s s1 → all_made namespace lbname s s1 →
  Forall2 (λ n ref, mirrored namespace lbname n ref s1) done_ refs →
  runs view s1 (fold_each (tls_step Secrets km namespace lbname) (refs, seen) names)
    (λ st s', tls_grown (tls_prefix lbname) s s' ∧ all_made namespace lbname s s' ∧
       Forall2 (λ n ref, mirrored namespace lbname n ref s') (done_ ++ tls_names seen names) st.1)
    (λ _ s', tls_grown (tls_prefix lbname) s s').
Proof.
  revert s1 refs seen done_. induction names as [|n names IH]; intros s1 refs seen done_ Hg Hmade Hall; simpl.
  { apply runs_ret. by rewrite app_nil_r. }
  eapply runs_bind; [apply (tls_step_runs km namespace lbname n s s1 refs seen Hg)|done|]; cbv beta.
  intros st s' Hst. case_decide as Hn; [destruct Hst as [-> ->]; by apply IH|].
  destruct Hst as (ref & -> & H1 & H2 & H3 & H4).
  replace (done_ ++ n :: tls_names ({[n]} ∪ seen) names)
    with ((done_ ++ [n]) ++ tls_names ({[n]} ∪ seen) names) by by rewrite <-app_assoc.
  apply IH; [done|by eapply all_made_trans|]. apply Forall2_app; [|by repeat constructor].
  eapply Forall2_impl; [exact Hall|]. intros x y. by apply mirrored_grown with (tls_prefix lbname).
Qed.

Lemma ensureTLS_made_runs km ing lbname s :
  runs view s (ensureTLS Secrets km ing lbname)
    (λ refs s', tls_grown (tls_prefix lbname) s s' ∧ all_made (in_Namespace ing) lbname s s' ∧
       Forall2 (λ n ref, mirrored (in_Namespace ing) lbname n ref s') (tls_names ∅ (in_TLS ing)) refs)
    (λ _ s', tls_grown (tls_prefix lbname) s s').
Proof.
  unfold ensureTLS. eapply runs_bind; [apply (tls_fold_runs km (in_Namespace ing) lbname (in_TLS ing) s s [] ∅ [])|done|];
    [apply tls_grown_refl|apply all_made_refl|constructor|]; cbv beta.
  intros st s' Hst. by apply runs_ret.
Qed.
Lemma ensureTLS_runs km ing lbname s :
  runs view s (ensureTLS Secrets km ing lbname)
    (λ refs s', tls_grown (tls_prefix lbname) s s' ∧
       Forall2 (λ n ref, mirrored (in_Namespace ing) lbname n ref s') (tls_names ∅ (in_TLS ing)) refs)
    (λ _ s', tls_grown (tls_prefix lbname) s s').
Proof. eapply runs_conseq; [apply ensureTLS_made_runs| |done]; cbv beta. by intros refs s' (? & _ & ?). Qed.
End tls_facts.

(** ** Properties *)


(** ** Witness *)
Definition RefBundles : Bundles := {|
  pem_Decode s := if decide (s = "") then None else Some ("CERTIFICATE", s, "");
  ParseCertificate := Ok;
  ParsePKCS8PrivateKey := Ok;
  ParsePKCS1PrivateKey := Ok;
  ParseECPrivateKey := Ok;
  pkcs12_Encode key leaf cas := Ok (key +:+ leaf +:+ join "" cas);
  sha256_hex s := s |}.
Definition ex_tls (ns n : string) : result TLSSecret :=
  if decide (n = "web-tls" ∨ n = "api-tls")
  then Ok (mkTLSSecret ns n {[TLSCertKey := n +:+ "-crt2"; TLSPrivateKeyKey := "key"]})
  else Err ErrK8sNotFound.
Definition ex_tls_ing : Ingress :=
  mkIngress "prod" "shop" 4 ∅ None (Some "knaas") None ex_ing_rules ["web-tls"; ""; "web-tls"] [].
Definition ex_tls_state : LBState :=
  mkLBState ∅ ∅ ∅ ∅ ∅ ∅ ∅ ∅ ∅
    {["https://keys/v1/secrets/a" := mkSecretRow "lb_tls_web-tls_old" "";
      "https://keys/v1/secrets/b" := mkSecretRow "other_tls_x_1" ""]}.
Definition ex_tls_run : result (list string) * RefWorld :=
  (refs ← @ensureTLS RefBundles RefWorld RefKeyManager ex_tls true ex_tls_ing "lb";
   @cleanupBarbicanSecrets RefWorld RefKeyManager true (tls_prefix "lb") (list_to_set refs) ≫= λ _, mret refs)
    (mkRef ex_tls_state 0).

Lemma ex_tls_one : one_secret_per_id ex_tls_state.
Proof.
  intros r1 r2 H1 H2. unfold ex_tls_state in *. simpl in *.
  assert (∀ r, is_Some (({["https://keys/v1/secrets/a" := mkSecretRow "lb_tls_web-tls_old" "";
      "https://keys/v1/secrets/b" := mkSecretRow "other_tls_x_1" ""]} : gmap string SecretRow) !! r) →
    r = "https://keys/v1/secrets/a" ∨ r = "https://keys/v1/secrets/b") as H.
  { intros r [x Hx]. apply lookup_insert_Some in Hx as [[<- _]|[_ Hx]]; [by left|].
    apply lookup_singleton_Some in Hx as [<- _]. by right. }
  destruct (H r1 H1) as [->| ->], (H r2 H2) as [->| ->]; done.
Qed.

Lemma ex_tls_dns n tls : ex_tls "prod" n = Ok tls → no_char "_"%char n = true.
Proof. unfold ex_tls. case_decide as H; [|done]. by destruct H as [->| ->]. Qed.

