(* ===== verification/IngressOwn.v ===== *)
(** * What a pass over one Ingress may touch

    [own key id port lbname addr s s']: of the objects there were, only the
    Ingress [key], what is on the load balancer [id] (itself kept), the addresses on
    its port and the one the Ingress names, and the bundles named after it may
    differ; nothing is taken from another, and a new listener is on [id] alone.
    Every call the reconciler makes is such a step, and steps compose. *)

From S2P Require Import Prelude GoStd K8s LoadBalancing ServiceOctavia IngressPlan IngressOctavia IngressPolicies IngressFIP IngressBarbican.
From Stdlib Require Import Ascii.

Local Open Scope string_scope.
Local Open Scope list_scope.

Definition same_but_pool (x y : ListenerSettings) : Prop := with_default_pool "" x = with_default_pool "" y.
Lemma same_but_pool_refl x : same_but_pool x x.
Proof. done. Qed.
#[local] Hint Resolve same_but_pool_refl : core.

Section own.
Variables (key : string * string) (id port lbname addr : string).

Record own (s s' : LBState) : Prop := {
  ow_lbs : ∀ j, j ≠ id → s_lbs s' !! j = s_lbs s !! j;
  ow_stays : ∀ j row, s_lbs s !! j = Some row → s_lbs s' !! j = Some row;
  ow_listeners : ∀ i l, s_listeners s !! i = Some l → id ∉ lsr_Loadbalancers l →
    s_listeners s' !! i = Some l ∧ policies_of s' i = policies_of s i ∧
    same_but_pool (settings_of s i) (settings_of s' i);
  ow_new : ∀ i l, s_listeners s' !! i = Some l → s_listeners s !! i = Some l ∨ lsr_Loadbalancers l = [id];
  ow_pools : ∀ i p, s_pools s !! i = Some p → id ∉ plr_Loadbalancers p.1 →
    ∃ p', s_pools s' !! i = Some p' ∧ p'.2 = p.2 ∧ plr_Loadbalancers p'.1 = plr_Loadbalancers p.1 ∧
      plr_Name p'.1 = plr_Name p.1 ∧ plr_MonitorID p'.1 = plr_MonitorID p.1;
  ow_services : s_services s' = s_services s;
  ow_ingresses : ∀ k, k ≠ key → s_ingresses s' !! k = s_ingresses s !! k;
  ow_fips : ∀ i f, s_fips s !! i = Some f → fr_PortID f ≠ port → fr_FloatingIP f ≠ addr →
    s_fips s' !! i = Some f;
  ow_secrets : ∀ r row, s_secrets s !! r = Some row → has_prefix (scr_Name row) (tls_prefix lbname) = false →
    s_secrets s' !! r = Some row }.

Lemma own_refl s : own s s.
Proof. split; auto. intros i p Hp _. by exists p. Qed.

Lemma own_trans s1 s2 s3 : own s1 s2 → own s2 s3 → own s1 s3.
Proof.
  intros [A1 A0 A2 A3 A4 A5 A6 A7 A8] [B1 B0 B2 B3 B4 B5 B6 B7 B8]. split; auto.
  - intros j Hj. by rewrite B1, A1.
  - intros i l Hl Hid. destruct (A2 i l Hl Hid) as (H1 & H2 & H3). destruct (B2 i l H1 Hid) as (H4 & H5 & H6).
    split; [done|]. split; [congruence|]. unfold same_but_pool in *. congruence.
  - intros i l Hl. destruct (B3 i l Hl); auto.
  - intros i p Hp Hid. destruct (A4 i p Hp Hid) as (p1 & H1 & E1 & E2 & E3 & E4).
    destruct (B4 i p1 H1) as (p2 & H2 & F1 & F2 & F3 & F4); [by rewrite E2|].
    exists p2. split; [done|]. repeat split; congruence.
  - congruence.
  - intros k Hk. by rewrite B6, A6.
Qed.

(** *** Each call *)
Lemma own_pools_only s f :
  (∀ i p, s_pools s !! i = Some p → id ∉ plr_Loadbalancers p.1 → f (s_pools s) !! i = Some p) →
  own s (set_pools f s).
Proof. intros H. split; simpl; auto. intros i p Hp Hid. exists p. auto. Qed.

Lemma own_pool_created o p s s' :
  plo_ListenerID o = "" → pool_created o p s s' → own s s'.
Proof.
  intros Ho (Hnew & _ & H). rewrite decide_True in H by done. destruct H as [_ ->].
  apply own_pools_only. intros i q Hq _. rewrite lookup_insert_ne; [done|]. intros <-. congruence.
Qed.

Lemma own_monitors f s : own s (set_monitors f s).
Proof. split; simpl; auto. intros i p Hp _. by exists p. Qed.

Lemma own_pool_altered s i pr ms g :
  s_pools s !! i = Some (pr, ms) → id ∈ plr_Loadbalancers pr → own s (set_pools (alter g i) s).
Proof.
  intros Hi Hid. apply own_pools_only. intros j q Hq Hn. rewrite lookup_alter_ne; [done|].
  intros <-. rewrite Hi in Hq. injection Hq as <-. done.
Qed.

Lemma own_pool_inserted s i pr ms x :
  s_pools s !! i = Some (pr, ms) → id ∈ plr_Loadbalancers pr → own s (set_pools <[i := x]> s).
Proof.
  intros Hi Hid. apply own_pools_only. intros j q Hq Hn. rewrite lookup_insert_ne; [done|].
  intros <-. rewrite Hi in Hq. injection Hq as <-. done.
Qed.

Lemma own_monitor_created o m pr ms s s' :
  s_pools s !! mno_PoolID o = Some (pr, ms) → id ∈ plr_Loadbalancers pr → monitor_created o m s s' → own s s'.
Proof.
  intros Hp Hid (_ & _ & _ & ->). eapply own_trans; [by eapply own_pool_altered|apply own_monitors].
Qed.

Lemma settings_of_insert s i j x :
  settings_of (set_settings <[i := x]> s) j = if decide (i = j) then x else settings_of s j.
Proof.
  unfold settings_of. simpl. case_decide as H; [subst; by rewrite lookup_insert_eq|by rewrite lookup_insert_ne].
Qed.

Lemma own_listener_created o l s s' :
  lso_LoadbalancerID o = id → listener_created o l s s' → own s s'.
Proof.
  intros Ho (Hnew & _ & _ & _ & Hrow & _ & ->). split; simpl; auto.
  - intros i l' Hl Hid. assert (ls_ID l ≠ i) by (intros <-; congruence).
    rewrite lookup_insert_ne by done. split; [done|]. split; [done|].
    unfold settings_of. simpl. by rewrite lookup_insert_ne.
  - intros i l' [[_ <-]|[_ Hl]]%lookup_insert_Some; [|by left]. right. by rewrite Hrow, Ho.
  - intros i p Hp _. by exists p.
Qed.

Lemma own_listener_updated i l u s s' :
  s_listeners s !! i = Some l → id ∈ lsr_Loadbalancers l → listener_updated i u s s' → own s s'.
Proof.
  intros Hi Hid (_ & ->). split; simpl; auto.
  - intros j l' Hl Hn. split; [done|]. split; [done|].
    unfold settings_of at 2. simpl. rewrite lookup_insert_ne; [done|]. intros <-. congruence.
  - intros j p Hp _. by exists p.
Qed.

Lemma own_listener_gone i l s :
  s_listeners s !! i = Some l → id ∈ lsr_Loadbalancers l → own s (listener_gone i s).
Proof.
  intros Hi Hid. unfold listener_gone. split; simpl; auto.
  - intros j l' Hl Hn. assert (i ≠ j) by (intros <-; congruence). rewrite lookup_delete_ne by done.
    split; [done|]. unfold policies_of, settings_of. simpl. by rewrite !lookup_delete_ne by done.
  - intros j l' [_ Hl]%lookup_delete_Some. by left.
  - intros j p Hp _. exists (without_listener i p). rewrite lookup_fmap, Hp. done.
Qed.

Lemma same_without_pool i x : same_but_pool x (without_pool i x).
Proof. unfold same_but_pool, without_pool. by case_decide. Qed.

Lemma own_pool_gone i pr ms s :
  s_pools s !! i = Some (pr, ms) → id ∈ plr_Loadbalancers pr → own s (pool_gone i s).
Proof.
  intros Hi Hid. unfold pool_gone. split; simpl; auto.
  - intros j l Hl _. split; [done|]. split; [done|]. unfold settings_of. simpl. rewrite lookup_fmap.
    destruct (s_settings s !! j); simpl; [apply same_without_pool|done].
  - intros j p Hp Hn. exists p. rewrite lookup_delete_ne; [done|]. intros <-. rewrite Hi in Hp. by injection Hp as <-.
Qed.

Lemma own_holds l row ps s s' :
  s_listeners s !! l = Some row → id ∈ lsr_Loadbalancers row → holds l ps s s' → own s s'.
Proof.
  intros Hl Hid Hh. pose proof (holds_same _ _ _ _ Hh) as (E1 & E2 & E3 & E4 & E5 & E6 & E7 & E8 & E9).
  split; rewrite ?E1, ?E3, ?E4, ?E6, ?E7, ?E8, ?E9; auto.
  - intros i r Hi Hn. split; [done|]. split; [|unfold settings_of; by rewrite E2].
    apply (holds_other _ _ _ _ _ Hh). intros ->. congruence.
  - intros i p Hp _. by exists p.
Qed.

Lemma own_secrets_only s s' :
  s' = set_secrets (λ _, s_secrets s') s →
  (∀ r row, s_secrets s !! r = Some row → has_prefix (scr_Name row) (tls_prefix lbname) = false →
     s_secrets s' !! r = Some row) →
  own s s'.
Proof.
  intros -> H. split; simpl; auto. intros i p Hp _. by exists p.
Qed.

Lemma own_tls_grown s s' : tls_grown (tls_prefix lbname) s s' → own s s'.
Proof. intros [H1 H2 _ _]. apply own_secrets_only; auto. Qed.

Lemma own_cleaned keep dead s :
  (∀ r, r ∈ dead → doomed_secret (tls_prefix lbname) keep s r) → own s (cleaned dead s).
Proof.
  intros Hd. apply own_secrets_only; [done|]. intros r row Hr Hp.
  rewrite cleaned_lookup, decide_False; [done|]. intros (row' & Hr' & Hp' & _)%Hd. congruence.
Qed.

Lemma own_fips_only s s' :
  s' = set_fips (λ _, s_fips s') s →
  (∀ i f, s_fips s !! i = Some f → fr_PortID f ≠ port → fr_FloatingIP f ≠ addr → s_fips s' !! i = Some f) →
  own s s'.
Proof. intros -> H. split; simpl; auto. intros i p Hp _. by exists p. Qed.

Lemma own_ingress_updated status ing fresh s s' :
  in_key ing = key → ingress_updated status ing fresh s s' → own s s'.
Proof.
  intros Hk (cur & v & _ & _ & _ & _ & _ & ->). split; simpl; auto.
  - intros i p Hp _. by exists p.
  - intros k Hne. rewrite lookup_insert_ne; [done|]. congruence.
Qed.

Lemma own_lb_created o lb s s' : lb_ID lb = id → lb_created o lb s s' → own s s'.
Proof.
  intros Hid (Hnew & _ & _ & _ & _ & _ & _ & ->). split; simpl; auto.
  - intros j Hj. rewrite lookup_insert_ne; [done|]. congruence.
  - intros j row Hj. rewrite lookup_insert_ne; [done|]. intros <-. congruence.
  - intros i p Hp _. by exists p.
Qed.
End own.
