(* ===== verification/IngressListener.v ===== *)
(** * Pools and the listener of an Ingress, brought to what it asks for

    What [ensureBackendPool], [ensureListener] and [gcStalePools] promise: a
    monitored pool of the backend's name; one listener, of the protocol the
    Ingress wants, with the settings it wants, and not the other one beside it;
    no pool of this Ingress's left that nothing refers to.  Each is a step of
    [own]. *)

From S2P Require Import Prelude GoStd K8s LoadBalancing ServiceOctavia IngressTuning IngressPlan IngressOctavia IngressPolicies IngressOwn.
From Stdlib Require Import Ascii.

Local Open Scope string_scope.
Local Open Scope list_scope.

(** ** Steps that leave something alone *)

(** All but what makes up a load balancer. *)
Definition l7_only (s s' : LBState) : Prop :=
  s_lbs s' = s_lbs s ∧ s_fips s' = s_fips s ∧ s_services s' = s_services s ∧
  s_ingresses s' = s_ingresses s ∧ s_secrets s' = s_secrets s.
Lemma l7_only_refl s : l7_only s s.
Proof. done. Qed.
Lemma l7_only_trans s1 s2 s3 : l7_only s1 s2 → l7_only s2 s3 → l7_only s1 s3.
Proof. unfold l7_only. intros (? & ? & ? & ? & ?) (? & ? & ? & ? & ?). repeat split; congruence. Qed.

(** Every pool is there as it was, but for a monitor it may have been given
    and listeners it may have lost. *)
Definition pools_like (s s' : LBState) : Prop :=
  ∀ i pr ms, s_pools s !! i = Some (pr, ms) → ∃ pr', s_pools s' !! i = Some (pr', ms) ∧
    plr_Name pr' = plr_Name pr ∧ plr_Loadbalancers pr' = plr_Loadbalancers pr ∧
    (plr_MonitorID pr ≠ "" → plr_MonitorID pr' ≠ "").
Lemma pools_like_eq s s' : s_pools s' = s_pools s → pools_like s s'.
Proof. intros E i pr ms Hi. exists pr. by rewrite E. Qed.
Lemma pools_like_trans s1 s2 s3 : pools_like s1 s2 → pools_like s2 s3 → pools_like s1 s3.
Proof.
  intros H1 H2 i pr ms Hi. destruct (H1 i pr ms Hi) as (pr1 & Hi1 & E1 & E2 & E3).
  destruct (H2 i pr1 ms Hi1) as (pr2 & Hi2 & F1 & F2 & F3). exists pr2.
  split; [done|]. split; [congruence|]. split; [congruence|auto].
Qed.

(** A pool of a name, on a load balancer, with a monitor. *)
Definition pool_there (id name pid : string) (s : LBState) : Prop :=
  ∃ pr ms, s_pools s !! pid = Some (pr, ms) ∧ plr_Name pr = name ∧ id ∈ plr_Loadbalancers pr ∧
    plr_MonitorID pr ≠ "".
Lemma pool_there_like id name pid s s' : pools_like s s' → pool_there id name pid s → pool_there id name pid s'.
Proof.
  intros Hl (pr & ms & Hi & H1 & H2 & H3). destruct (Hl pid pr ms Hi) as (pr' & Hi' & E1 & E2 & E3).
  exists pr', ms. split; [done|]. split; [congruence|]. split; [by rewrite E2|auto].
Qed.

(** *** Names and ids, one of each *)

(** A load balancer has at most one listener of a name. *)
Definition named_once (s : LBState) : Prop :=
  ∀ i j li lj id, s_listeners s !! i = Some li → s_listeners s !! j = Some lj →
    id ∈ lsr_Loadbalancers li → id ∈ lsr_Loadbalancers lj → lsr_Name li = lsr_Name lj → i = j.
Definition policies_own (s : LBState) : Prop := ∀ l, own_ids l (policies_of s l) s.

Lemma named_once_sub s s' :
  (∀ i l, s_listeners s' !! i = Some l → s_listeners s !! i = Some l) → named_once s → named_once s'.
Proof. intros H Hone i j li lj id Hi Hj. by apply (Hone i j li lj id); auto. Qed.

Lemma policies_own_sub s s' :
  (∀ l, policies_of s' l = policies_of s l ∨ policies_of s' l = []) → policies_own s → policies_own s'.
Proof.
  intros Hp Hown l. split.
  - destruct (Hp l) as [->| ->]; [apply Hown|constructor].
  - intros l' i Hl Hi Hi'. destruct (Hown l) as [_ Ho]. apply (Ho l' i Hl).
    + destruct (Hp l) as [E|E]; rewrite E in Hi; [done|by apply elem_of_nil in Hi].
    + destruct (Hp l') as [E|E]; rewrite E in Hi'; [done|by apply elem_of_nil in Hi'].
Qed.

(** *** What a listener should be set to *)
Definition aligned (tlsRefs : list string) (defaultPoolID : string) (t : listenerTuning) (x : ListenerSettings) : Prop :=
  (∀ ref rest, tlsRefs = ref :: rest → lx_DefaultTlsContainerRef x = ref) ∧
  lx_DefaultPoolID x = defaultPoolID ∧ lx_AllowedCIDRs x ≡ₚ tn_AllowedCIDRs t ∧
  timeout_given (tn_TimeoutClientData t) (lx_TimeoutClientData x) ∧
  timeout_given (tn_TimeoutMemberData t) (lx_TimeoutMemberData x) ∧
  timeout_given (tn_TimeoutMemberConnect t) (lx_TimeoutMemberConnect x) ∧
  timeout_given (tn_TimeoutTCPInspect t) (lx_TimeoutTCPInspect x).

Lemma drifted_written desired live : timeout_given desired (opt_or live (drifted desired live)).
Proof.
  unfold drifted. destruct (timeoutDrift desired live) eqn:Hd; [by destruct desired|].
  simpl. by apply timeoutDrift_false.
Qed.
Lemma drifted_none desired live : drifted desired live = None → timeout_given desired live.
Proof. intros H. pose proof (drifted_written desired live) as Hw. by rewrite H in Hw. Qed.

(** Writing what differs aligns it; where nothing differs it is aligned. *)
Lemma written_aligned tlsRefs default t x :
  aligned tlsRefs default t (listener_written (listener_drift tlsRefs default t x) x).
Proof.
  unfold aligned. simpl. split; [|split; [|split; [|split_and!; apply drifted_written]]].
  - intros ref rest ->. case_decide; [done|]. simpl. by destruct (decide (lx_DefaultTlsContainerRef x = ref)).
  - case_decide; [done|]. simpl. by destruct (decide (lx_DefaultPoolID x = default)).
  - destruct (cidrsEqual _ _) eqn:Hc; simpl; [by apply cidrsEqual_spec|done].
Qed.
Lemma no_drift_aligned tlsRefs default t x :
  listener_drift tlsRefs default t x = no_drift → aligned tlsRefs default t x.
Proof.
  intros H. pose proof (written_aligned tlsRefs default t x) as Ha. rewrite H in Ha. by destruct x.
Qed.
Lemma given_aligned tlsRefs default t x :
  settings_given (listener_options tlsRefs default t) x → aligned tlsRefs default t x.
Proof.
  unfold settings_given, aligned. simpl. intros (H1 & H2 & H3 & H4 & H5).
  split; [intros ref rest ->; done|]. split; [done|]. split; [by rewrite H4|done].
Qed.

Definition wanted_name (lbname : string) (tlsRefs : list string) : string := (listener_plan lbname tlsRefs).1.2.
Definition stale_name (lbname : string) (tlsRefs : list string) : string := (listener_plan lbname tlsRefs).2.

(** A listener's name says what it listens for: this controller makes no others. *)
Definition speaks (lbname : string) (tlsRefs : list string) (row : ListenerRow) : Prop :=
  lsr_Name row = wanted_name lbname tlsRefs ∧
  lsr_Protocol row = (listener_plan lbname tlsRefs).1.1.1 ∧ lsr_ProtocolPort row = (listener_plan lbname tlsRefs).1.1.2.
Definition well_named (lbname : string) (s : LBState) : Prop :=
  ∀ i row tlsRefs, s_listeners s !! i = Some row → lsr_Name row = wanted_name lbname tlsRefs →
    speaks lbname tlsRefs row.
Lemma well_named_sub lbname s s' :
  (∀ i l, s_listeners s' !! i = Some l → s_listeners s !! i = Some l) → well_named lbname s → well_named lbname s'.
Proof. intros H Hw i row refs Hi. by apply (Hw i row refs), H. Qed.

(** [listens id lbname refs pool t l s]: [l] is the listener the Ingress wants,
    set as it wants, and the one it does not want is not there. *)
Definition listens (id lbname : string) (tlsRefs : list string) (defaultPoolID : string) (t : listenerTuning)
    (l : string) (s : LBState) : Prop :=
  (∃ row, s_listeners s !! l = Some row ∧ id ∈ lsr_Loadbalancers row ∧ speaks lbname tlsRefs row) ∧
  aligned tlsRefs defaultPoolID t (settings_of s l) ∧
  (∀ i row, s_listeners s !! i = Some row → id ∈ lsr_Loadbalancers row →
     lsr_Name row ≠ stale_name lbname tlsRefs).

(** What a step on the listeners keeps. *)
Record listeners_step (s s' : LBState) : Prop := {
  lst_only : l7_only s s';
  lst_pools : pools_like s s';
  lst_policies : ∀ l, policies_of s' l = policies_of s l ∨ policies_of s' l = [];
  lst_once : named_once s → named_once s' }.
Lemma listeners_step_refl s : listeners_step s s.
Proof. split; [apply l7_only_refl|by apply pools_like_eq|by left|done]. Qed.
Lemma listeners_step_trans s1 s2 s3 : listeners_step s1 s2 → listeners_step s2 s3 → listeners_step s1 s3.
Proof.
  intros [A1 A2 A3 A4] [B1 B2 B3 B4]. split; [by eapply l7_only_trans|by eapply pools_like_trans| |auto].
  intros l. destruct (B3 l) as [->| ->]; auto.
Qed.
Lemma listeners_step_own s s' : listeners_step s s' → policies_own s → policies_own s'.
Proof. intros H. by apply policies_own_sub, lst_policies. Qed.

Lemma listener_gone_step i s : listeners_step s (listener_gone i s).
Proof.
  unfold listener_gone. split; [done| | |].
  - intros j pr ms Hj. exists (without_listener i (pr, ms)).1. simpl. by rewrite lookup_fmap, Hj.
  - intros l. unfold policies_of. simpl. destruct (decide (i = l)) as [<-|Hl].
    + right. by rewrite lookup_delete_eq.
    + left. by rewrite lookup_delete_ne.
  - apply named_once_sub. simpl. by intros j l [_ ?]%lookup_delete_Some.
Qed.

Lemma listener_updated_step i u s s' : listener_updated i u s s' → listeners_step s s'.
Proof. intros (_ & ->). split; [done|by apply pools_like_eq|by left|done]. Qed.

Lemma listener_created_own_step o l s s' :
  (∀ i row, s_listeners s !! i = Some row → lsr_Name row = lso_Name o → lso_LoadbalancerID o ∉ lsr_Loadbalancers row) →
  listener_created o l s s' → listeners_step s s'.
Proof.
  intros Hnone (Hnew & _ & _ & _ & Hrow & _ & ->). split; [done|by apply pools_like_eq|by left|].
  intros Hone i j li lj id Hi Hj Hin Hjn Hname. simpl in Hi, Hj.
  apply lookup_insert_Some in Hi as [[Ei <-]|[_ Hi]]; apply lookup_insert_Some in Hj as [[Ej <-]|[_ Hj]];
    [congruence|..|by apply (Hone i j li lj id)]; exfalso; rewrite Hrow in *; simpl in *.
  - apply list_elem_of_singleton in Hin as ->. by destruct (Hnone j lj Hj).
  - apply list_elem_of_singleton in Hjn as ->. by destruct (Hnone i li Hi).
Qed.

Section listener_facts.
Context {W : Type} {api : Octavia W} {clock : Clock W} {api7 : OctaviaL7 W} (view : W → LBState)
  `{!OctaviaLaws api view} `{!ClockLaws clock api view} `{!OctaviaL7Laws api7 view}.
Variables (key : string * string) (port addr lbname lbID : string).
Abbreviation Own := (own key lbID port lbname addr).

(** ** The listener *)
Definition gone_or_same (name : string) (s s' : LBState) : Prop :=
  s' = s ∨ ∃ i row, s_listeners s !! i = Some row ∧ lbID ∈ lsr_Loadbalancers row ∧
    lsr_Name row = name ∧ s' = listener_gone i s.

Lemma deleteListenerByName_runs s name :
  named_once s →
  runs view s (deleteListenerByName lbID name)
    (λ _ s', gone_or_same name s s' ∧
       ∀ i row, s_listeners s' !! i = Some row → lbID ∈ lsr_Loadbalancers row → lsr_Name row ≠ name)
    (λ _ s', gone_or_same name s s').
Proof.
  intros Hone. unfold deleteListenerByName.
  eapply runs_try_bind; [apply (GetListenerByName_runs view)| |]; cbv beta.
  - intros l s' (-> & Hl & Hn & Hid & _).
    assert (gone_or_same name s (listener_gone (ls_ID l) s)) as Hgone by (right; by exists (ls_ID l), (ls_row l)).
    assert (∀ i row, s_listeners (listener_gone (ls_ID l) s) !! i = Some row → lbID ∈ lsr_Loadbalancers row →
      lsr_Name row ≠ name) as Hno.
    { intros i row Hr Hin Hrn. simpl in Hr. apply lookup_delete_Some in Hr as [Hi Hr]. apply Hi.
      apply (Hone (ls_ID l) i (ls_row l) row lbID); congruence || done. }
    eapply (runs_bind_wrap _ _ _ _ _ (λ _ s', gone_or_same name s s' ∧ ∀ i row, s_listeners s' !! i = Some row →
      lbID ∈ lsr_Loadbalancers row → lsr_Name row ≠ name) _ (λ _ s', gone_or_same name s s')); [|done|]; cbv beta.
    + apply runs_ignoring. eapply runs_conseq; [apply (law_listeners_Delete s (ls_ID l))| |]; cbv beta.
      * by intros _ s' ->.
      * intros e s' [Hm H404]. destruct (ResponseCodeIs e 404).
        -- destruct H404 as [_ Hnone]; [done|]. congruence.
        -- destruct Hm as [->| ->]; [by left|done].
    + intros _ s' [H1 H2]. by apply (WaitActive_then view).
  - intros e s' [-> Hnone]. case_decide as He; [|apply runs_fail; by left].
    apply runs_ret. split; [by left|]. intros i row Hi Hin Hn. by apply (Hnone He i row).
Qed.

Lemma gone_or_same_step name s s' : gone_or_same name s s' → listeners_step s s' ∧ Own s s' ∧
  ∀ i row, s_listeners s' !! i = Some row → s_listeners s !! i = Some row.
Proof.
  intros [->|(i & row & Hi & Hid & _ & ->)]; [split; [apply listeners_step_refl|split; [apply own_refl|done]]|].
  split; [apply listener_gone_step|]. split; [by eapply own_listener_gone|].
  simpl. by intros j r [_ ?]%lookup_delete_Some.
Qed.

(** What is known of the listener once it has been seen to. *)
Definition listener_found (tlsRefs : list string) (default : string) (t : listenerTuning)
    (s : LBState) (l : Listener) (s' : LBState) : Prop :=
  listeners_step s s' ∧ Own s s' ∧ s_listeners s' !! ls_ID l = Some (ls_row l) ∧
  lbID ∈ lsr_Loadbalancers (ls_row l) ∧ speaks lbname tlsRefs (ls_row l) ∧
  aligned tlsRefs default t (settings_of s' (ls_ID l)) ∧
  (∀ i row, s_listeners s' !! i = Some row → s_listeners s !! i = Some row ∨ lsr_Name row = wanted_name lbname tlsRefs).

Lemma align_listener_runs s tlsRefs default t l :
  named_once s → s_listeners s !! ls_ID l = Some (ls_row l) → lbID ∈ lsr_Loadbalancers (ls_row l) →
  speaks lbname tlsRefs (ls_row l) → ls_settings l = settings_of s (ls_ID l) →
  runs view s (align_listener lbID (wanted_name lbname tlsRefs) tlsRefs default t l)
    (λ l' s', listener_found tlsRefs default t s l' s') (λ _ s', listeners_step s s' ∧ Own s s').
Proof.
  intros Hone Hl Hid Hsp Hset. unfold align_listener. case_decide as Hd.
  { apply runs_ret. split; [apply listeners_step_refl|]. split; [apply own_refl|]. do 3 (split; [done|]).
    split; [rewrite <-Hset; by apply no_drift_aligned|by left]. }
  set (u := listener_drift tlsRefs default t (ls_settings l)) in *.
  assert (∀ s', listener_updated (ls_ID l) u s s' → listeners_step s s' ∧ Own s s') as Hstep.
  { intros s' Hu. split; [by eapply listener_updated_step|by eapply own_listener_updated]. }
  eapply (runs_bind_wrap _ _ _ _ _ (λ _ s', listener_updated (ls_ID l) u s s') _ (λ _ s', listeners_step s s' ∧ Own s s'));
    [|done|]; cbv beta.
  - unfold updateListener. apply settled_runs; [done..| |].
    + eapply runs_conseq; [apply (law_listeners_Update s (ls_ID l) u)|done|]; cbv beta.
      intros e s' [->|Hu]; [split; [apply listeners_step_refl|apply own_refl]|by apply Hstep].
    + intros _ _ s' Hu. by apply Hstep.
  - intros _ s1 Hu. destruct (Hstep _ Hu) as [Hs1 Ho1]. destruct Hu as (_ & ->).
    eapply runs_conseq; [apply (GetListenerByName_runs view)| |]; cbv beta.
    + intros l' s' (-> & Hl' & Hn' & Hid' & _). simpl in Hl'.
      assert (ls_ID l' = ls_ID l) as Heq.
      { apply (Hone _ _ (ls_row l') (ls_row l) lbID); try done. rewrite Hn'. symmetry. apply Hsp. }
      assert (ls_row l' = ls_row l) as Hrow by (rewrite Heq, Hl in Hl'; by injection Hl').
      split; [done|]. split; [done|]. rewrite Heq, Hrow. do 3 (split; [done|]). split; [|by left].
      rewrite settings_of_insert, decide_True, <-Hset by done. apply written_aligned.
    + by intros e s' [-> _].
Qed.

Lemma ensureListener_runs s tlsRefs default t :
  named_once s → well_named lbname s →
  runs view s (ensureListener lbID lbname tlsRefs default t)
    (λ l s', listeners_step s s' ∧ Own s s' ∧ listens lbID lbname tlsRefs default t (ls_ID l) s')
    (λ _ s', listeners_step s s' ∧ Own s s').
Proof.
  intros Hone Hwell. unfold ensureListener.
  assert (wanted_name lbname tlsRefs ≠ stale_name lbname tlsRefs) as Hne.
  { destruct tlsRefs; unfold wanted_name, stale_name, http_name, https_name; simpl;
      by intros ?%(inj (String.append lbname)). }
  pose proof (Hwell : ∀ i row refs, _) as Hwell'.
  destruct (listener_plan lbname tlsRefs) as [[[proto lport] name] stale] eqn:Hplan.
  assert (name = wanted_name lbname tlsRefs) as -> by (unfold wanted_name; by rewrite Hplan).
  assert (stale = stale_name lbname tlsRefs) as -> by (unfold stale_name; by rewrite Hplan).
  eapply runs_bind; [by apply deleteListenerByName_runs|by intros e s' (H1 & H2 & _)%gone_or_same_step|]; cbv beta.
  intros _ s1 [Hg Hno]. apply gone_or_same_step in Hg as (Hst1 & Ho1 & Hsub).
  assert (∀ m, runs view s1 m (λ l s', listener_found tlsRefs default t s1 l s') (λ _ s', listeners_step s1 s' ∧ Own s1 s') →
    runs view s1 m (λ l s', listeners_step s s' ∧ Own s s' ∧ listens lbID lbname tlsRefs default t (ls_ID l) s')
      (λ _ s', listeners_step s s' ∧ Own s s')) as Hgo.
  { intros m Hm. eapply runs_conseq; [exact Hm| |]; cbv beta.
    - intros l s2 (Hst2 & Ho2 & Hl & Hid & Hsp & Hal & Hold).
      split; [by eapply listeners_step_trans|]. split; [by eapply own_trans|].
      split; [by exists (ls_row l)|]. split; [done|]. intros i row Hi Hin Hn.
      destruct (Hold i row Hi) as [Hi1|Hw]; [by apply (Hno i row)|congruence].
    - intros e s2 [Hst2 Ho2]. split; [by eapply listeners_step_trans|by eapply own_trans]. }
  assert (named_once s1) as Hone1 by by eapply lst_once.
  eapply runs_try_bind; [apply (GetListenerByName_runs view)| |]; cbv beta.
  - intros l s' (-> & Hl & Hn & Hid & Hset). apply Hgo, align_listener_runs; try done.
    by eapply Hwell; [apply Hsub|].
  - intros e s' [-> Hnone]. case_decide as He.
    + apply Hgo. unfold CreateListener. set (o := mkListenerOpts _ _ _ _ _).
      assert (∀ l s', listener_created o l s1 s' → listeners_step s1 s' ∧ Own s1 s') as Hmade.
      { intros l s' Hc. split; [by eapply (listener_created_own_step o); [exact (Hnone He)|]|by eapply (own_listener_created _ _ _ _ _ o)]. }
      eapply runs_bind; [apply (law_listeners_Create s1 o)| |]; cbv beta.
      { intros e' s' [->|[l Hc]]; [split; [apply listeners_step_refl|apply own_refl]|by eapply Hmade]. }
      intros l s2 Hc. destruct (Hmade _ _ Hc) as [Hst2 Ho2].
      apply (WaitActive_then view); [|done]. split; [done|]. split; [done|].
      destruct Hc as (_ & _ & _ & _ & Hrow & Hgiven & ->). simpl. rewrite lookup_insert_eq.
      split; [done|]. rewrite Hrow. split; [by apply list_elem_of_singleton|].
      split; [unfold speaks; by rewrite Hplan|].
      split; [rewrite settings_of_insert, decide_True by done; by apply given_aligned|].
      intros i row [[_ <-]|[_ Hi]]%lookup_insert_Some; [by right|by left].
    + apply runs_fail. done.
Qed.
End listener_facts.

(** ** Pools *)

(** What a step on the pools keeps. *)
Record pools_step (s s' : LBState) : Prop := {
  pst_only : l7_only s s';
  pst_listeners : s_listeners s' = s_listeners s;
  pst_settings : s_settings s' = s_settings s;
  pst_policies : s_policies s' = s_policies s;
  pst_like : pools_like s s' }.
Lemma pools_step_refl s : pools_step s s.
Proof. split; [done..|by apply pools_like_eq]. Qed.
Lemma pools_step_trans s1 s2 s3 : pools_step s1 s2 → pools_step s2 s3 → pools_step s1 s3.
Proof.
  intros [A1 A2 A3 A4 A5] [B1 B2 B3 B4 B5].
  split; [by eapply l7_only_trans|congruence..|by eapply pools_like_trans].
Qed.

Lemma pool_created_like o p s s' :
  plo_ListenerID o = "" → pool_created o p s s' →
  pools_step s s' ∧ s_pools s' !! pl_ID p = Some (pl_row p, []) ∧
  pl_row p = mkPoolRow (plo_Name o) (plo_Protocol o) (plo_LBMethod o) [] [plo_LoadbalancerID o] "".
Proof.
  intros Ho (Hnew & _ & H). rewrite decide_True in H by done. destruct H as [Hrow ->]. simpl.
  rewrite lookup_insert_eq. split; [|done]. split; [done..|].
  intros i pr ms Hi. exists pr. simpl. rewrite lookup_insert_ne; [done|]. intros <-. congruence.
Qed.

Lemma monitor_created_like o m pr ms s s' :
  s_pools s !! mno_PoolID o = Some (pr, ms) → monitor_created o m s s' →
  pools_step s s' ∧ s_pools s' !! mno_PoolID o = Some (monitored m pr, ms) ∧ m ≠ "".
Proof.
  intros Hp (Hm & _ & _ & ->). simpl. rewrite lookup_alter_eq, Hp. split; [|done]. split; [done..|].
  intros i pr' ms' Hi. simpl. destruct (decide (mno_PoolID o = i)) as [<-|Hne].
  - rewrite lookup_alter_eq, Hi. by exists (monitored m pr').
  - rewrite lookup_alter_ne by done. by exists pr'.
Qed.

Section pool_facts.
Context {W : Type} {api : Octavia W} {clock : Clock W} {api7 : OctaviaL7 W} (view : W → LBState)
  `{!OctaviaLaws api view} `{!ClockLaws clock api view} `{!OctaviaL7Laws api7 view}.
Variables (key : string * string) (port addr lbname lbID : string).
Abbreviation Own := (own key lbID port lbname addr).
Abbreviation Pools s s' := (pools_step s s' ∧ Own s s') (only parsing).

Lemma Pools_refl s : Pools s s.
Proof. split; [apply pools_step_refl|apply own_refl]. Qed.
Lemma Pools_trans s1 s2 s3 : Pools s1 s2 → Pools s2 s3 → Pools s1 s3.
Proof. intros [H1 H2] [H3 H4]. split; [by eapply pools_step_trans|by eapply own_trans]. Qed.

Lemma listed_pool s name l p :
  lists pl_ID pl_row (fst <$> s_pools s) (λ r, lbID ∈ plr_Loadbalancers r ∧ (name = "" ∨ plr_Name r = name)) l →
  p ∈ l → (∃ ms, s_pools s !! pl_ID p = Some (pl_row p, ms)) ∧ lbID ∈ plr_Loadbalancers (pl_row p) ∧
    (name = "" ∨ plr_Name (pl_row p) = name).
Proof.
  intros Hl Hp. destruct (lists_elem _ _ _ _ _ p Hl Hp) as [Hrow H]. split; [|done].
  rewrite lookup_fmap in Hrow. destruct (s_pools s !! pl_ID p) as [[r ms]|]; [|done].
  simpl in Hrow. injection Hrow as ->. by exists ms.
Qed.

Lemma ensure_named_pool_runs s name :
  name ≠ "" →
  runs view s (ensure_named_pool lbID name)
    (λ p s', Pools s s' ∧ (∃ ms, s_pools s' !! pl_ID p = Some (pl_row p, ms)) ∧
       lbID ∈ plr_Loadbalancers (pl_row p) ∧ plr_Name (pl_row p) = name)
    (λ _ s', Pools s s').
Proof.
  intros Hne. unfold ensure_named_pool.
  eapply (runs_try_bind _ _ _ _ (λ p s', s' = s ∧ (∃ ms, s_pools s !! pl_ID p = Some (pl_row p, ms)) ∧
    lbID ∈ plr_Loadbalancers (pl_row p) ∧ plr_Name (pl_row p) = name) (λ _ s', s' = s)); cbv beta.
  - unfold getPoolByName. eapply runs_bind; [apply (law_pools_List s lbID name)|by intros e s' [-> _]|]; cbv beta.
    intros [|p l] s' [-> Hl]; [by apply runs_fail|]. apply runs_ret. split; [done|].
    destruct (listed_pool _ _ _ p Hl) as (H1 & H2 & [?|H3]); [by left|done..].
  - intros p s' (-> & H). apply runs_ret. split; [apply Pools_refl|done].
  - intros e s' ->. case_decide; [|apply runs_fail, Pools_refl].
    set (o := mkPoolOpts name "HTTP" "ROUND_ROBIN" "" lbID).
    assert (∀ p s', pool_created o p s s' → Pools s s') as Hmade.
    { intros p s' Hc. split; [by eapply (pool_created_like o)|by eapply (own_pool_created _ _ _ _ _ o)]. }
    apply runs_wrap. unfold CreatePool.
    eapply runs_bind; [apply (law_pools_Create s o)| |]; cbv beta.
    + intros e' s' [->|[p Hp]]; [apply Pools_refl|by eapply Hmade].
    + intros p s1 Hp. pose proof (Hmade _ _ Hp) as HP.
      destruct (pool_created_like o p s s1 eq_refl Hp) as (_ & Hin & Hrow).
      apply (WaitActive_then view); [|done]. split; [done|]. split; [by eexists|].
      rewrite Hrow. split; [by apply list_elem_of_singleton|done].
Qed.

Lemma ensureBackendPool_runs s lb b :
  lb_ID lb = lbID →
  runs view s (ensureBackendPool lb lbname b)
    (λ p s', Pools s s' ∧ pool_there lbID (poolName lbname b) (pl_ID p) s') (λ _ s', Pools s s').
Proof.
  intros Hlb. unfold ensureBackendPool. rewrite Hlb. set (name := poolName lbname b).
  assert (name ≠ "") as Hne by (unfold name, poolName; by destruct lbname).
  eapply runs_bind; [by apply ensure_named_pool_runs|done|]; cbv beta.
  intros p s1 (HP1 & (ms & Hp) & Hid & Hname).
  eapply (runs_bind _ _ _ _ (λ _ s', Pools s s' ∧ pool_there lbID name (pl_ID p) s') _ (λ _ s', Pools s s'));
    [|done|intros _ s' H; by apply runs_ret].
  case_decide as Hmon.
  - set (o := mkMonitorOpts _ _ _ _ _ _ _ _).
    assert (∀ m s', monitor_created o m s1 s' → Pools s s' ∧ pool_there lbID name (pl_ID p) s') as Hmade.
    { intros m s' Hc. destruct (monitor_created_like o m (pl_row p) ms s1 s' Hp Hc) as (H1 & H2 & H3).
      split; [eapply Pools_trans; [exact HP1|]; split; [done|by eapply (own_monitor_created _ _ _ _ _ o)]|].
      by exists (monitored m (pl_row p)), ms. }
    eapply (runs_bind_wrap _ _ _ _ _ (λ _ s', Pools s s' ∧ pool_there lbID name (pl_ID p) s') _ (λ _ s', Pools s s'));
      [|done|intros _ s' H; by apply runs_ret].
    unfold CreateHealthMonitor. eapply runs_bind; [apply (law_monitors_Create s1 o)| |]; cbv beta.
    + intros e s' [->|[m Hm]]; [done|]. by apply Hmade in Hm as [? _].
    + intros m s2 Hm. apply Hmade in Hm. apply (WaitActive_then view); [done|]. intros _. apply Hm.
  - apply runs_ret. split; [done|]. by exists (pl_row p), ms.
Qed.
End pool_facts.

(** ** Pools nothing refers to *)
Section gc_facts.
Context {W : Type} {api : Octavia W} {clock : Clock W} {api7 : OctaviaL7 W} (view : W → LBState)
  `{!OctaviaLaws api view} `{!ClockLaws clock api view} `{!OctaviaL7Laws api7 view}.
Variables (key : string * string) (port addr lbname lbID : string) (keep : gset string) (default : string).
Abbreviation Own := (own key lbID port lbname addr).

(** A pool of this Ingress's on the load balancer that is not to be kept. *)
Definition stale_pool (i : string) (pr : PoolRow) : Prop :=
  lbID ∈ plr_Loadbalancers pr ∧ has_prefix (plr_Name pr) (lbname +:+ "_") = true ∧ (i ∉ keep) ∧ i ≠ default.

Record pools_swept (s s' : LBState) : Prop := {
  psw_only : l7_only s s';
  psw_own : Own s s';
  psw_listeners : s_listeners s' = s_listeners s;
  psw_policies : s_policies s' = s_policies s;
  psw_settings : ∀ l, lx_DefaultPoolID (settings_of s l) = default → settings_of s' l = settings_of s l;
  psw_pools : ∀ i pr ms, s_pools s !! i = Some (pr, ms) → ¬ stale_pool i pr → s_pools s' !! i = Some (pr, ms);
  psw_old : ∀ i p, s_pools s' !! i = Some p → s_pools s !! i = Some p }.

Lemma pools_swept_refl s : pools_swept s s.
Proof. by split; [|apply own_refl|..]. Qed.
Lemma pools_swept_trans s1 s2 s3 : pools_swept s1 s2 → pools_swept s2 s3 → pools_swept s1 s3.
Proof.
  intros [A1 A2 A3 A4 A5 A6 A7] [B1 B2 B3 B4 B5 B6 B7]. split; [by eapply l7_only_trans|by eapply own_trans|congruence..| | |auto].
  - intros l Hl. rewrite B5; [by apply A5|by rewrite A5].
  - intros i pr ms Hi Hn. apply B6; [by apply A6|done].
Qed.

Lemma settings_of_pool_gone i l s :
  lx_DefaultPoolID (settings_of s l) ≠ i → settings_of (pool_gone i s) l = settings_of s l.
Proof.
  unfold settings_of. simpl. rewrite lookup_fmap. destruct (s_settings s !! l) as [x|]; simpl; [|done].
  intros Hx. unfold without_pool. by rewrite decide_False.
Qed.

Lemma pool_gone_swept i pr ms s :
  s_pools s !! i = Some (pr, ms) → stale_pool i pr → pools_swept s (pool_gone i s).
Proof.
  intros Hi Hst. pose proof Hst as (Hid & _ & _ & Hd). split; [done|by eapply own_pool_gone|done..| | |].
  - intros l Hl. apply settings_of_pool_gone. congruence.
  - intros j pr' ms' Hj Hn. simpl. rewrite lookup_delete_ne; [done|]. intros <-. rewrite Hi in Hj. by injection Hj as <- <-.
  - simpl. by intros j p [_ ?]%lookup_delete_Some.
Qed.

Lemma gc_pool_runs s p ms :
  s_pools s !! pl_ID p = Some (pl_row p, ms) → lbID ∈ plr_Loadbalancers (pl_row p) →
  runs view s (gc_pool lbID lbname keep default p)
    (λ _ s', pools_swept s s' ∧ (∀ i, i ≠ pl_ID p → s_pools s' !! i = s_pools s !! i) ∧
       (stale_pool (pl_ID p) (pl_row p) → s_pools s' !! pl_ID p = None))
    (λ _ s', pools_swept s s').
Proof.
  intros Hp Hid. unfold gc_pool. destruct (_ || _) eqn:Hk.
  - apply runs_ret. split; [apply pools_swept_refl|]. split; [done|]. intros (_ & Hpre & Hn & Hd).
    rewrite Hpre, !bool_decide_false in Hk by done. done.
  - rewrite !orb_false_iff, negb_false_iff, !bool_decide_eq_false in Hk. destruct Hk as [[Hpre Hn] Hd].
    assert (stale_pool (pl_ID p) (pl_row p)) as Hst by done.
    apply runs_wrap. unfold deletePool.
    apply (delete_settled_runs view lbID _ _ (λ s', pools_swept s s' ∧ (∀ i, i ≠ pl_ID p → s_pools s' !! i = s_pools s !! i) ∧
      (stale_pool (pl_ID p) (pl_row p) → s_pools s' !! pl_ID p = None)) (pools_swept s)); [|by intros s' [? _]].
    assert (pools_swept s (pool_gone (pl_ID p) s)) as Hgone by by eapply pool_gone_swept.
    eapply runs_conseq; [apply (law_pools_Delete s (pl_ID p))| |]; cbv beta.
    + intros _ s' ->. split; [done|]. simpl. split; [intros i Hi; by rewrite lookup_delete_ne|].
      intros _. apply lookup_delete_eq.
    + intros e s' [Hm H404]. destruct (ResponseCodeIs e 404).
      * destruct H404 as [_ Hnone]; [done|congruence].
      * destruct Hm as [->| ->]; [apply pools_swept_refl|done].
Qed.

Lemma gcStalePools_runs s :
  runs view s (gcStalePools lbID lbname keep default)
    (λ _ s', pools_swept s s' ∧ ∀ i pr ms, s_pools s' !! i = Some (pr, ms) → ¬ stale_pool i pr)
    (λ _ s', pools_swept s s').
Proof.
  unfold gcStalePools, listPools.
  eapply runs_bind_wrap; [apply (law_pools_List s lbID "")|intros e s' [-> _]; apply pools_swept_refl|]; cbv beta.
  intros all s' [-> Hall].
  eapply runs_conseq; [apply (runs_for_each view (λ pre s', pools_swept s s' ∧
    (∀ i, i ∉ map pl_ID pre → s_pools s' !! i = s_pools s !! i) ∧
    (∀ p, p ∈ pre → stale_pool (pl_ID p) (pl_row p) → s_pools s' !! pl_ID p = None)) all _ (λ _ s', pools_swept s s'))| |];
    cbv beta; [| | |done].
  - split; [apply pools_swept_refl|]. split; [done|]. by intros p ?%elem_of_nil.
  - intros pre p post s1 Heq (Hs1 & Hrest & Hpre).
    assert (p ∈ all) as Hin by (rewrite Heq; set_solver).
    destruct (listed_pool lbID s "" all p Hall Hin) as ((ms & Hp) & Hid & _).
    assert (pl_ID p ∉ map pl_ID pre) as Hnew.
    { destruct Hall as [Hnd _]. rewrite Heq, map_app in Hnd. apply NoDup_app in Hnd as (_ & H & _).
      intros Hx. apply (H _ Hx). simpl. by left. }
    eapply runs_conseq; [eapply (gc_pool_runs s1 p ms); [by rewrite Hrest|done]| |]; cbv beta.
    + intros _ s2 (Hs2 & Hr2 & Hd2). split; [by eapply pools_swept_trans|]. rewrite map_app. simpl. split.
      * intros i Hi. apply not_elem_of_app in Hi as [Hi Hip]. rewrite Hr2; [by apply Hrest|set_solver].
      * intros q [Hq| ->%list_elem_of_singleton]%elem_of_app Hst; [|by apply Hd2].
        destruct (s_pools s2 !! pl_ID q) as [x|] eqn:Hx; [|done]. apply (psw_old _ _ Hs2) in Hx.
        by rewrite (Hpre q Hq Hst) in Hx.
    + intros e s2 Hs2. by eapply pools_swept_trans.
  - intros _ s' (Hs & _ & Hgone). split; [done|]. intros i pr ms Hi Hst.
    pose proof (psw_old _ _ Hs _ _ Hi) as Hi0. destruct Hall as [_ Hall].
    destruct (proj2 (Hall i pr)) as (p & Hp & <- & Hrow).
    { split; [by rewrite lookup_fmap, Hi0|]. split; [apply Hst|by left]. }
    rewrite (Hgone p Hp) in Hi; [done|]. by rewrite Hrow.
Qed.
End gc_facts.
