(* ===== verification/IngressReconciler.v ===== *)
(** * pkg/ingress/reconciler.go: an Ingress as a layer 7 load balancer

    One pass over an Ingress: the load balancer found or made and recorded, its
    certificates mirrored, a pool for every backend, the one listener, the
    members, the policies, what is stale removed, the address given or taken
    back and published; and the way down, the address first. *)

From S2P Require Import Prelude GoStd K8s ZunCapsule LoadBalancing ServiceOctavia ServiceMembers ServiceReconciler.
From S2P Require Import IngressTuning IngressPlan IngressOctavia IngressPolicies IngressFIP IngressBarbican IngressOwn IngressListener.
From Stdlib Require Import Ascii.

Local Open Scope string_scope.
Local Open Scope list_scope.

Definition LegacyClassAnnotation : string := "kubernetes.io/ingress.class".
Definition lbIDAnnotation : string := "knaas.io/loadbalancer-id".
Definition ProviderAnnotation : string := "knaas.io/ingress-provider".
Definition ovnProvider : string := "ovn".

(** The fields of a [Reconciler]: whether there is a key manager, the caches as
    functions, and the settings. *)
Record Reconciler := mkReconciler {
  ig_KeyManager : bool;
  ig_Ingresses : string → string → result Ingress;
  ig_Services : string → string → result Service;
  ig_Slices : string → result (list EndpointSlice);
  ig_Secrets : string → string → result TLSSecret;
  ig_VIPSubnetID : string;
  ig_FloatingNetworkID : string;
  ig_Provider : string;
  ig_ClassName : string;
  ig_Tenant : string;
  ig_ServesNamespace : option (string → bool);
  ig_Namespaces : option (list string) }.

Section pure.
Variable r : Reconciler.

Definition lbName (namespace name : string) : string :=
  "kubezun_" +:+ ig_Tenant r +:+ "_ing_" +:+ namespace +:+ "_" +:+ name.

Definition Ours (ing : Ingress) : bool :=
  let prefixed := ig_Tenant r +:+ "-" +:+ ig_ClassName r in
  let mine cls := bool_decide (cls = ig_ClassName r) || bool_decide (cls = prefixed) in
  match in_IngressClassName ing with Some cls => mine cls | None => false end ||
  mine (in_annotation ing LegacyClassAnnotation).

Definition resolveProvider (ing : Ingress) : result string :=
  let provider := trim_space (in_annotation ing ProviderAnnotation) in
  if decide (provider = "") then Ok (ig_Provider r)
  else if decide (provider = ovnProvider) then
    Err (ErrMsg (ProviderAnnotation +:+ "=" +:+ provider +:+ ": the ovn provider is layer 4 only and cannot serve an Ingress (it refuses TERMINATED_HTTPS listeners and l7policies); name a provider that terminates HTTP, such as amphora"))
  else Ok provider.

Definition slicesFor (namespace service : string) : result (list EndpointSlice) :=
  filter (λ s, es_Labels s !! LabelServiceName = Some service) <$> ig_Slices r namespace.
End pure.

(** [ParseLBName]. *)
Definition ParseLBName (tenant lbName : string) : option (string * string) :=
  match drop_prefix ("kubezun_" +:+ tenant +:+ "_ing_") lbName with
  | None => None
  | Some rest =>
      match cut rest "_" with
      | None => None
      | Some (namespace, name) =>
          if decide (namespace = "" ∨ name = "") then None else Some (namespace, name)
      end
  end.

Definition providerMatches (lb : LoadBalancer) (want : string) : result () :=
  let have := lr_Provider (lb_row lb) in
  if decide (have = "" ∨ want = "" ∨ have = want) then Ok ()
  else Err (ErrMsg ("load balancer " +:+ lb_ID lb +:+ " serves this Ingress on provider " +:+ go_quote have +:+
    " and " +:+ go_quote want +:+ " is now requested: Octavia cannot move a load balancer between providers. Delete the Ingress and create it again to move it -- its address, and any floating IP on it, will change")).

Section reconciler.
Context `{!Bundles} {W : Type} `{!Octavia W} `{!Clock W} `{!OctaviaL7 W} `{!FloatingIPs W}
  `{!IngressesAPI W} `{!KeyManager W} `{!SubnetResolver W}.
Variable r : Reconciler.

(** ** The load balancer *)
Definition checkProviderInstalled (want : string) : M W () :=
  listed ← try providers_List;
  match listed with
  | Err _ | Ok [] => mret ()
  | Ok names =>
      if decide (want ∈ names) then mret ()
      else fail (ErrMsg (ProviderAnnotation +:+ "=" +:+ want +:+
        ": this deployment has no such Octavia provider; it offers " +:+ join ", " names))
  end.

(** The one that bears the derived name, or a new one. *)
Definition find_or_create (ing : Ingress) (provider : string) : M W LoadBalancer :=
  let name := lbName r (in_Namespace ing) (in_Name ing) in
  found ← try (GetLoadBalancerByName name);
  match found with
  | Ok lb => lift_result (providerMatches lb provider) ≫= λ _, mret lb
  | Err e =>
      if decide (e = ErrNotFound) then
        (if decide (in_annotation ing ProviderAnnotation ≠ "") then checkProviderInstalled provider
         else mret ()) ≫= λ _,
        wrap ("creating load balancer " +:+ go_quote name +:+ " (provider=" +:+ provider +:+ ")")
          (loadbalancers_Create (mkLBOpts name
            ("kubezun Ingress " +:+ in_Namespace ing +:+ "/" +:+ in_Name ing) (ig_VIPSubnetID r) provider))
      else fail e
  end.

Definition with_lb_id (id : string) (ing : Ingress) : Ingress :=
  in_with (in_ResourceVersion ing) (<[lbIDAnnotation := id]> (in_Annotations ing)) (in_Ingress ing) ing.

Definition ensure_by_name (ing : Ingress) (provider : string) : M W LoadBalancer :=
  lb ← find_or_create ing provider;
  lb ← WaitActive (lb_ID lb);
  (if decide (in_annotation ing lbIDAnnotation ≠ lb_ID lb) then
     ingresses_Update (with_lb_id (lb_ID lb) ing) ≫= λ _, mret ()
   else mret ()) ≫= λ _,
  mret lb.

Definition ensureLoadBalancer (ing : Ingress) : M W LoadBalancer :=
  provider ← lift_result (resolveProvider r ing);
  let id := in_annotation ing lbIDAnnotation in
  if decide (id = "") then ensure_by_name ing provider
  else
    recorded ← try (GetLoadBalancerByID id);
    match recorded with
    | Ok lb => lift_result (providerMatches lb provider) ≫= λ _, WaitActive (lb_ID lb)
    | Err e =>
        if decide (e = ErrNotFound) then ensure_by_name ing provider
        else fail (ErrWrap ("reading load balancer " +:+ id) e)
    end.

(** ** Pools and their members *)

(** One backend, over the pools by name and those to keep. *)
Definition pool_step (lb : LoadBalancer) (lbname : string) (st : gmap string string * gset string)
    (b : backendRef) : M W (gmap string string * gset string) :=
  pool ← ensureBackendPool lb lbname b;
  mret (<[poolName lbname b := pl_ID pool]> st.1, {[pl_ID pool]} ∪ st.2).

(** [syncPoolMembers] (l7.go). *)
Definition syncPoolMembers (lb : LoadBalancer) (ing : Ingress) (b : backendRef) (poolID : string) : M W () :=
  svc ← wrap ("reading backend Service " +:+ br_Service b)
          (lift_result (ig_Services r (in_Namespace ing) (br_Service b)));
  sp ← lift_result (resolveServicePort svc (br_Port b));
  slices ← lift_result (slicesFor r (in_Namespace ing) (br_Service b));
  members ← BuildMembers slices sp (family_of (lr_VipAddress (lb_row lb)));
  wrap ("updating members of pool " +:+ poolID +:+ " (" +:+ pretty (length members) +:+ " members)")
    (SetPoolMembers (lb_ID lb) poolID members).

(** ** The address in the status *)
Definition publishStatus (ing : Ingress) (address : string) : M W () :=
  if decide (address ∈ in_Ingress ing) then mret ()
  else ingresses_UpdateStatus (in_with (in_ResourceVersion ing) (in_Annotations ing) [address] ing) ≫= λ _, mret ().

(** ** Taking it down *)

(** Certificates are best effort: a failure to delete them is logged. *)
Definition tearDown (lbname : string) (lb : LoadBalancer) : M W () :=
  releaseFIP lbname (lr_VipPortID (lb_row lb)) ≫= λ _,
  DeleteLoadBalancer (lb_ID lb) ≫= λ _,
  try (cleanupBarbicanSecrets (ig_KeyManager r) (tls_prefix lbname) ∅) ≫= λ _, mret ().

Definition tearDownByName (namespace name : string) : M W () :=
  let lbname := lbName r namespace name in
  found ← try (GetLoadBalancerByName lbname);
  match found with
  | Ok lb => tearDown lbname lb
  | Err e =>
      if decide (e = ErrNotFound) then
        try (cleanupBarbicanSecrets (ig_KeyManager r) (tls_prefix lbname) ∅) ≫= λ _, mret ()
      else fail e
  end.

(** ** One pass *)

(** From the listener on: what nothing needs any more goes after it, the members
    before the policies. *)
Definition converge (ing : Ingress) (lb : LoadBalancer) (lbname : string) (tlsRefs : list string)
    (backends : list backendRef) (poolIDs : gmap string string) (keepPools : gset string)
    (defaultPoolID : string) (listener : Listener) : M W () :=
  (if decide (tlsRefs ≠ []) then
     cleanupBarbicanSecrets (ig_KeyManager r) (tls_prefix lbname) (list_to_set tlsRefs)
   else mret ()) ≫= λ _,
  for_each backends (λ b, syncPoolMembers lb ing b (opt_or "" (poolIDs !! poolName lbname b))) ≫= λ _,
  syncL7Policies (lb_ID lb) (ls_ID listener) lbname (buildDesiredPolicies ing lbname poolIDs) ≫= λ _,
  gcStalePools (lb_ID lb) lbname keepPools defaultPoolID.

Definition serve (ing : Ingress) (lb : LoadBalancer) (lbname : string) : M W () :=
  tlsRefs ← ensureTLS (ig_Secrets r) (ig_KeyManager r) ing lbname;
  let '(defaultRef, backends) := collectBackends ing in
  pools ← fold_each (pool_step lb lbname) (∅, ∅) backends;
  let defaultPoolID := match defaultRef with
    | Some b => opt_or "" (pools.1 !! poolName lbname b) | None => "" end in
  tuning ← lift_result (tuningFromAnnotations ing);
  listener ← ensureListener (lb_ID lb) lbname tlsRefs defaultPoolID tuning;
  converge ing lb lbname tlsRefs backends pools.1 pools.2 defaultPoolID listener.

Definition Reconcile (namespace name : string) : M W () :=
  match ig_Ingresses r namespace name with
  | Err _ => tearDownByName namespace name
  | Ok ing =>
      if negb (Ours r ing) then tearDownByName namespace name
      else if decide (is_Some (in_DeletionTimestamp ing)) then tearDownByName namespace name
      else
        lb ← ensureLoadBalancer ing;
        let lbname := lbName r namespace name in
        serve ing lb lbname ≫= λ _,
        fip ← ensureFIP (ig_FloatingNetworkID r) ing lbname (lr_VipPortID (lb_row lb));
        publishStatus ing (if decide (fip = "") then lr_VipAddress (lb_row lb) else fip)
  end.
End reconciler.

(** ** What a pass brings about *)

(** What the Ingress looks like once the load balancer's id is recorded on it:
    itself, or something written after it was read. *)
Definition rewritten (ing : Ingress) (id : string) (ing' : Ingress) : Prop :=
  in_annotation ing' lbIDAnnotation = id ∧
  (∀ k, k ≠ lbIDAnnotation → in_annotation ing' k = in_annotation ing k) ∧
  ∃ v annotations ips, ing' = in_with v annotations ips ing.
Definition id_recorded (ing : Ingress) (id : string) (cur : Ingress) : Prop :=
  rewritten ing id cur ∧ in_Ingress cur = in_Ingress ing ∧
  (cur = ing ∨ (in_ResourceVersion ing < in_ResourceVersion cur)%Z).

(** All but the load balancers and the Ingresses. *)
Definition below (s : LBState) :=
  (s_listeners s, s_pools s, s_monitors s, s_fips s, s_services s, s_settings s, s_policies s, s_secrets s).

Section pass.
Context {bundles : Bundles}.
Variables (r : Reconciler) (subnet_of : string → string → option string).

(** The members a backend should have. *)
Definition backend_slices (namespace : string) (b : backendRef) (sp : ServicePort) (slices : list EndpointSlice) : Prop :=
  ∃ svc, ig_Services r namespace (br_Service b) = Ok svc ∧ resolveServicePort svc (br_Port b) = Ok sp ∧
    slicesFor r namespace (br_Service b) = Ok slices.
Definition backend_served (namespace vip : string) (b : backendRef) (pid : string) (s : LBState) : Prop :=
  ∃ sp slices ms row current, backend_slices namespace b sp slices ∧ wanted_members subnet_of slices vip sp ms ∧
    s_pools s !! pid = Some (row, current) ∧ pool_holds current ms.

Definition default_pool (ing : Ingress) (lbname : string) (poolIDs : gmap string string) : string :=
  match (collectBackends ing).1 with Some b => opt_or "" (poolIDs !! poolName lbname b) | None => "" end.

(** The policies stand as desired: each reads as it should, or they are the
    desired ones, ahead of what was made out of band. *)
Definition policies_stand (lbname : string) (desired : list desiredPolicy) (ps : Policies) : Prop :=
  Forall2 reads_as ps desired ∨
  ∃ made others, ps = made ++ others ∧ map snd made = map wanted_row desired ∧
    foreign lbname others = others.

(** [served ing lb s]: load balancer [lb] serves the Ingress. *)
Definition served (ing : Ingress) (lbname id vip : string) (s : LBState) : Prop :=
  ∃ tuning tlsRefs poolIDs l,
    tuningFromAnnotations ing = Ok tuning ∧
    Forall2 (λ n ref, mirrored (ig_Secrets r) (in_Namespace ing) lbname n ref s)
      (tls_names ∅ (in_TLS ing)) tlsRefs ∧
    (∀ b, b ∈ (collectBackends ing).2 → ∃ pid, poolIDs !! poolName lbname b = Some pid ∧
       pool_there id (poolName lbname b) pid s ∧ backend_served (in_Namespace ing) vip b pid s) ∧
    listens id lbname tlsRefs (default_pool ing lbname poolIDs) tuning l s ∧
    policies_stand lbname (buildDesiredPolicies ing lbname poolIDs) (policies_of s l) ∧
    (∀ i pr ms, s_pools s !! i = Some (pr, ms) → id ∈ plr_Loadbalancers pr →
       has_prefix (plr_Name pr) (lbname +:+ "_") = true →
       (∃ n, poolIDs !! n = Some i) ∨ i = default_pool ing lbname poolIDs).

Lemma served_ext ing lbname id vip s s' :
  s_listeners s' = s_listeners s → s_pools s' = s_pools s → s_settings s' = s_settings s →
  s_policies s' = s_policies s → s_secrets s' = s_secrets s →
  served ing lbname id vip s → served ing lbname id vip s'.
Proof.
  intros E1 E2 E3 E4 E5 (t & refs & ids & l & H). exists t, refs, ids, l.
  unfold mirrored, backend_served, pool_there, listens, settings_of, policies_of in *.
  by rewrite E1, E2, E3, E4, E5.
Qed.

(** What a pass reads, and what earlier passes keep true. *)
Record live (namespace name : string) (ing : Ingress) (s : LBState) : Prop := {
  li_get : ig_Ingresses r namespace name = Ok ing;
  li_key : in_key ing = (namespace, name);
  li_ours : Ours r ing = true;
  li_alive : in_DeletionTimestamp ing = None;
  li_stored : s_ingresses s !! in_key ing = Some ing;
  li_version : in_ResourceVersion ing ≠ 0%Z;
  li_dns : ∀ b, b ∈ named_backends ing →
    no_char "_"%char (br_Service b) = true ∧ no_char "|"%char (br_Service b) = true;
  li_members : ∀ b sp slices vip, backend_slices namespace b sp slices →
    distinct_members subnet_of slices vip sp;
  li_named_once : named_once s;
  li_well_named : well_named (lbName r namespace name) s;
  li_policies : policies_own s;
  li_secrets : one_secret_per_id s;
  li_ported : ∀ i row, s_lbs s !! i = Some row → lr_VipPortID row ≠ "" }.
End pass.

(** Pools of different backends have different names. *)
Lemma poolName_inj lbname a b :
  no_char "_"%char (br_Service a) = true → no_char "_"%char (br_Service b) = true →
  poolName lbname a = poolName lbname b → backend_key a = backend_key b.
Proof.
  intros Ha Hb H. unfold poolName in H. do 2 apply (inj (String.append _)) in H.
  change ("_" +:+ ?x) with (String "_"%char x) in H.
  apply sep_inj in H as [H1 H2]; [|done..]. unfold backend_key. by rewrite H1, H2.
Qed.

Lemma pool_names_distinct ing lbname :
  (∀ b, b ∈ named_backends ing → no_char "_"%char (br_Service b) = true) →
  NoDup (map (poolName lbname) (collectBackends ing).2).
Proof.
  intros Hdns. pose proof (collectBackends_spec ing) as Hs.
  destruct (collectBackends ing) as [d all]. simpl. destruct Hs as (Hnd & Hin & _).
  assert (∀ b, b ∈ all → no_char "_"%char (br_Service b) = true) as Hall by auto. clear Hin.
  induction all as [|b all IH]; simpl in *; [constructor|]. apply NoDup_cons in Hnd as [Hb Hnd].
  apply NoDup_cons. split; [|apply IH; [done|intros x Hx; apply Hall; by right]].
  intros (b' & Hn & Hb')%list_elem_of_fmap. apply Hb. apply list_elem_of_fmap. exists b'.
  split; [|done]. apply (poolName_inj lbname); [apply Hall; by left|apply Hall; by right|done].
Qed.

Lemma in_annotation_insert k v annotations version ips ing k' :
  in_annotation (in_with version (<[k := v]> annotations) ips ing) k' =
    if decide (k = k') then v else opt_or "" (annotations !! k').
Proof.
  unfold in_annotation. simpl. case_decide as H; [subst; by rewrite lookup_insert_eq|by rewrite lookup_insert_ne].
Qed.

Lemma ing_recorded_self ing : id_recorded ing (in_annotation ing lbIDAnnotation) ing.
Proof.
  split; [|split; [done|by left]]. split; [done|]. split; [done|].
  exists (in_ResourceVersion ing), (in_Annotations ing), (in_Ingress ing). by destruct ing.
Qed.

Section load_balancer.
Context {W : Type} {api : Octavia W} {clock : Clock W} {api7 : OctaviaL7 W} {ings : IngressesAPI W}
  (view : W → LBState) `{!OctaviaLaws api view} `{!ClockLaws clock api view} `{!OctaviaL7Laws api7 view}
  `{!IngressesLaws ings view}.
Variables (r : Reconciler) (lbname addr : string).

(** The Ingress's own load balancer: the one it has recorded, or one of the name
    derived from it. *)
Definition own_lb (ing : Ingress) (id : string) (row : LBRow) : Prop :=
  id = in_annotation ing lbIDAnnotation ∨ lr_Name row = lbName r (in_Namespace ing) (in_Name ing).

(** The load balancer is there and settled, on a provider the Ingress agrees
    with, and its id is on the Ingress. *)
Definition lb_ready (ing : Ingress) (lb : LoadBalancer) (s s' : LBState) : Prop :=
  own (in_key ing) (lb_ID lb) (lr_VipPortID (lb_row lb)) lbname addr s s' ∧ below s' = below s ∧
  s_lbs s' !! lb_ID lb = Some (lb_row lb) ∧
  own_lb ing (lb_ID lb) (lb_row lb) ∧
  (∃ p, resolveProvider r ing = Ok p ∧ providerMatches lb p = Ok ()) ∧
  ((∃ i, s_lbs s !! i = Some (lb_row lb)) ∨ lr_VipPortID (lb_row lb) ≠ "") ∧
  ∃ cur, s_ingresses s' !! in_key ing = Some cur ∧ id_recorded ing (lb_ID lb) cur.

(** A pass that failed, and what it may have done: nothing, or something to the
    Ingress's own load balancer, which is still there. *)
Definition failed_pass (ing : Ingress) (s s' : LBState) : Prop :=
  s' = s ∨ ∃ id row, s_lbs s' !! id = Some row ∧ own_lb ing id row ∧
    own (in_key ing) id (lr_VipPortID row) lbname addr s s'.
Lemma failed_nothing ing s : failed_pass ing s s.
Proof. by left. Qed.
Lemma failed_own ing lb s s1 s' :
  s_lbs s1 !! lb_ID lb = Some (lb_row lb) → own_lb ing (lb_ID lb) (lb_row lb) →
  own (in_key ing) (lb_ID lb) (lr_VipPortID (lb_row lb)) lbname addr s s1 →
  own (in_key ing) (lb_ID lb) (lr_VipPortID (lb_row lb)) lbname addr s1 s' → failed_pass ing s s'.
Proof.
  intros Hlb Hown H1 H2. right. exists (lb_ID lb), (lb_row lb). split; [by eapply ow_stays|].
  split; [done|by eapply own_trans].
Qed.

Lemma providerMatches_row lb lb' p :
  lr_Provider (lb_row lb) = lr_Provider (lb_row lb') → providerMatches lb p = Ok () → providerMatches lb' p = Ok ().
Proof. unfold providerMatches. intros ->. by case_decide. Qed.

Lemma providerMatches_spec lb p :
  providerMatches lb p = Ok () → lr_Provider (lb_row lb) = "" ∨ p = "" ∨ lr_Provider (lb_row lb) = p.
Proof. unfold providerMatches. cbv zeta. by destruct (decide _). Qed.

Lemma created_matches o lb s s' p : lo_Provider o = p → lb_created o lb s s' → providerMatches lb p = Ok ().
Proof.
  intros Ho (_ & _ & _ & _ & _ & _ & (a & q & Hrow & _) & _). unfold providerMatches. rewrite Hrow. simpl.
  rewrite decide_True; [done|]. by right; right.
Qed.

Lemma checkProviderInstalled_runs s want :
  runs view s (checkProviderInstalled want) (λ _ s', s' = s) (λ _ s', s' = s).
Proof.
  unfold checkProviderInstalled. eapply runs_try_bind; [apply (law_providers_List s)| |]; cbv beta.
  - intros [|n names] s' ->; [by apply runs_ret|]. case_decide; [by apply runs_ret|by apply runs_fail].
  - intros e s' ->. by apply runs_ret.
Qed.

(** What [find_or_create] leaves: the load balancer, there before or new. *)
Definition lb_found (ing : Ingress) (provider : string) (s : LBState) (lb : LoadBalancer) (s' : LBState) : Prop :=
  own (in_key ing) (lb_ID lb) (lr_VipPortID (lb_row lb)) lbname addr s s' ∧ below s' = below s ∧
  s_ingresses s' = s_ingresses s ∧ s_lbs s' !! lb_ID lb = Some (lb_row lb) ∧
  lr_Name (lb_row lb) = lbName r (in_Namespace ing) (in_Name ing) ∧ providerMatches lb provider = Ok () ∧
  ((∃ i, s_lbs s !! i = Some (lb_row lb)) ∨ lr_VipPortID (lb_row lb) ≠ "").

Lemma find_or_create_runs ing provider s :
  runs view s (find_or_create r ing provider)
    (λ lb s', lb_found ing provider s lb s') (λ _ s', failed_pass ing s s').
Proof.
  unfold find_or_create. eapply runs_try_bind; [by apply (GetLoadBalancerByName_runs view)| |]; cbv beta.
  - intros lb s' (-> & Hlb & Hname & _).
    eapply (runs_bind _ _ _ _ (λ _ s', s' = s ∧ providerMatches lb provider = Ok ()) _ (λ _ s', s' = s)).
    + apply runs_lift. by destruct (providerMatches lb provider) as [[]|].
    + intros e s' ->. apply failed_nothing.
    + intros _ s' [-> Hm]. apply runs_ret. split; [apply own_refl|]. do 5 (split; [done|]). left. by eexists.
  - intros e s' [-> _]. case_decide; [|apply runs_fail, failed_nothing].
    eapply (runs_bind _ _ _ _ (λ _ s', s' = s) _ (λ _ s', s' = s)); [|intros e' s' ->; apply failed_nothing|].
    { case_decide; [apply checkProviderInstalled_runs|by apply runs_ret]. }
    intros _ s' ->. set (o := mkLBOpts _ _ _ _).
    assert (∀ lb s', lb_created o lb s s' → lb_found ing provider s lb s') as Hmade.
    { intros lb s' Hc. split; [by eapply own_lb_created|].
      pose proof (created_matches o lb s s' provider eq_refl Hc) as Hm.
      destruct Hc as (_ & _ & _ & _ & _ & _ & (a & q & Hrow & _ & Hq) & ->). simpl. rewrite lookup_insert_eq.
      do 3 (split; [done|]). rewrite Hrow. split; [done|]. split; [done|]. right. done. }
    apply runs_wrap. eapply runs_conseq; [apply (law_lb_Create s o)|exact Hmade|]; cbv beta.
    intros e' s' [->|[lb Hc]]; [apply failed_nothing|]. apply Hmade in Hc as (Hown & _ & _ & Hlb & Hn & _).
    eapply failed_own; [exact Hlb|by right|exact Hown|apply own_refl].
Qed.

(** The cached copy cannot overwrite what was written after it. *)
Lemma ingress_update_stored status ing fresh s s' cur :
  s_ingresses s !! in_key ing = Some cur → in_ResourceVersion ing ≠ 0%Z →
  (cur = ing ∨ (in_ResourceVersion ing < in_ResourceVersion cur)%Z) →
  ∀ ing', in_key ing' = in_key ing → in_ResourceVersion ing' = in_ResourceVersion ing →
  ingress_updated status ing' fresh s s' → cur = ing ∧ (in_ResourceVersion ing < in_ResourceVersion fresh)%Z ∧
    s' = set_ingresses <[in_key ing := fresh]> s ∧ ∃ v, fresh = ingress_written status ing' ing v.
Proof.
  intros Hcur Hver Hlater ing' Hk Hv (c & v & Hc & Hv0 & Hlt & Hm & -> & ->).
  rewrite Hk, Hcur in Hc. injection Hc as <-. rewrite Hv in Hm.
  assert (cur = ing) as -> by (destruct Hlater as [|], Hm as [|]; done || lia).
  split; [done|]. split; [by destruct status|]. rewrite Hk. split; [done|]. by exists v.
Qed.

Lemma ensure_ingress_by_name_runs ing provider s :
  resolveProvider r ing = Ok provider →
  s_ingresses s !! in_key ing = Some ing → in_ResourceVersion ing ≠ 0%Z →
  runs view s (ensure_by_name r ing provider) (λ lb s', lb_ready ing lb s s') (λ _ s', failed_pass ing s s').
Proof.
  intros Hprov Hcur Hver. unfold ensure_by_name.
  eapply runs_bind; [apply find_or_create_runs|done|]; cbv beta.
  intros lb s1 (Hown & Hbelow & Hings & Hlb & Hname & Hmatch & Hport).
  assert (∀ s', own (in_key ing) (lb_ID lb) (lr_VipPortID (lb_row lb)) lbname addr s1 s' → failed_pass ing s s')
    as Hfail by (intros s' H; eapply failed_own; [exact Hlb|by right|exact Hown|exact H]).
  eapply runs_bind; [apply (WaitActive_runs view)|intros e s' ->; apply Hfail, own_refl|]; cbv beta.
  intros lb' s' (-> & Hid & Hlb' & _). rewrite Hlb in Hlb'. injection Hlb' as Hrow. rewrite Hid.
  set (ready s' := own (in_key ing) (lb_ID lb) (lr_VipPortID (lb_row lb)) lbname addr s s' ∧ below s' = below s ∧
    s_lbs s' !! lb_ID lb = Some (lb_row lb) ∧ ∃ cur, s_ingresses s' !! in_key ing = Some cur ∧ id_recorded ing (lb_ID lb) cur).
  eapply (runs_bind _ _ _ _ (λ _ s', ready s') _ (λ _ s', failed_pass ing s s')); [|done|].
  - case_decide as Hann.
    + assert (∀ fresh s', ingress_updated false (with_lb_id (lb_ID lb) ing) fresh s1 s' → ready s') as Hup.
      { intros fresh s' Hu. split.
        { eapply own_trans; [exact Hown|]. by eapply own_ingress_updated; [|exact Hu]. }
        assert (s_ingresses s1 !! in_key ing = Some ing) as Hc1 by by rewrite Hings.
        destruct (ingress_update_stored false ing fresh s1 s' ing Hc1 Hver (or_introl eq_refl)
          (with_lb_id (lb_ID lb) ing) eq_refl eq_refl Hu) as (_ & Hlt & -> & v & ->).
        simpl. split; [done|]. split; [done|]. rewrite lookup_insert_eq. eexists. split; [done|].
        split; [|split; [done|by right]]. unfold with_lb_id. simpl.
        split; [by rewrite in_annotation_insert, decide_True|].
        split; [intros k Hk; by rewrite in_annotation_insert, decide_False|]. by eexists _, _, _. }
      eapply runs_bind; [apply (law_ingress_Update s1 (with_lb_id (lb_ID lb) ing))| |]; cbv beta.
      * intros e s' [->|[fresh Hu]]; apply Hfail; [apply own_refl|]. by eapply own_ingress_updated; [|exact Hu].
      * intros fresh s' Hu. apply runs_ret. by eapply Hup.
    + apply runs_ret. split; [done|]. split; [done|]. split; [done|]. exists ing. rewrite Hings. split; [done|].
      destruct (decide (in_annotation ing lbIDAnnotation = lb_ID lb)) as [<-|]; [apply ing_recorded_self|tauto].
  - intros _ s' (H1 & H2 & H3 & H4). apply runs_ret. unfold lb_ready. rewrite Hid, <-Hrow.
    split; [done|]. split; [done|]. split; [done|]. split; [by right|]. split; [|by split].
    exists provider. split; [done|]. by eapply providerMatches_row; [|exact Hmatch]; rewrite Hrow.
Qed.

Lemma ensure_ingress_lb_runs ing s :
  s_ingresses s !! in_key ing = Some ing → in_ResourceVersion ing ≠ 0%Z →
  runs view s (ensureLoadBalancer r ing) (λ lb s', lb_ready ing lb s s') (λ _ s', failed_pass ing s s').
Proof.
  intros Hcur Hver. unfold ensureLoadBalancer.
  eapply (runs_bind _ _ _ _ (λ p s', s' = s ∧ resolveProvider r ing = Ok p) _ (λ _ s', s' = s)).
  { apply runs_lift. by destruct (resolveProvider r ing). }
  { intros e s' ->. apply failed_nothing. }
  intros p s' [-> Hp]. case_decide as Hid; [by apply ensure_ingress_by_name_runs|].
  eapply runs_try_bind; [apply (GetLoadBalancerByID_runs view)| |]; cbv beta.
  - intros lb s' (-> & Hlid & Hlb).
    eapply (runs_bind _ _ _ _ (λ _ s', s' = s ∧ providerMatches lb p = Ok ()) _ (λ _ s', s' = s)).
    { apply runs_lift. by destruct (providerMatches lb p) as [[]|]. }
    { intros e s' ->. apply failed_nothing. }
    intros _ s' [-> Hm].
    eapply runs_conseq; [apply (WaitActive_runs view)| |intros e s' ->; apply failed_nothing]; cbv beta.
    intros lb' s' (-> & Hid' & Hlb' & _). split; [apply own_refl|]. split; [done|].
    rewrite Hid', Hlid in *. split; [done|]. split; [by left|]. rewrite Hlb in Hlb'. injection Hlb' as Hrow.
    split; [exists p; split; [done|by eapply providerMatches_row; [|exact Hm]; rewrite Hrow]|].
    split; [left; eexists; by rewrite <-Hrow|]. exists ing. split; [done|]. apply ing_recorded_self.
  - intros e s' [-> _]. case_decide; [by apply ensure_ingress_by_name_runs|apply runs_fail, failed_nothing].
Qed.
End load_balancer.

(** *** Members *)

(** Only the members of pools of the load balancer have changed. *)
Record members_step (s s' : LBState) : Prop := {
  mst_only : l7_only s s';
  mst_listeners : s_listeners s' = s_listeners s;
  mst_settings : s_settings s' = s_settings s;
  mst_policies : s_policies s' = s_policies s;
  mst_rows : ∀ i, fst <$> s_pools s' !! i = fst <$> s_pools s !! i }.
Lemma members_step_refl s : members_step s s.
Proof. by split. Qed.
Lemma members_step_trans s1 s2 s3 : members_step s1 s2 → members_step s2 s3 → members_step s1 s3.
Proof.
  intros [A1 A2 A3 A4 A5] [B1 B2 B3 B4 B5]. split; [by eapply l7_only_trans|congruence..|].
  intros i. by rewrite B5, A5.
Qed.
Lemma members_step_there id name pid s s' :
  members_step s s' → pool_there id name pid s → pool_there id name pid s'.
Proof.
  intros Hs (pr & ms & Hp & H). pose proof (mst_rows _ _ Hs pid) as Hr. rewrite Hp in Hr. simpl in Hr.
  destruct (s_pools s' !! pid) as [[pr' ms']|] eqn:Hp'; [|done]. injection Hr as ->. by exists pr, ms'.
Qed.

Section members.
Context {W : Type} {api : Octavia W} {clock : Clock W} {subnets : SubnetResolver W} (view : W → LBState)
  (subnet_of : string → string → option string)
  `{!OctaviaLaws api view} `{!ClockLaws clock api view} `{!SubnetLaws subnets view subnet_of}.
Variables (r : Reconciler) (key : string * string) (lbname addr : string).
Abbreviation Members lb s s' :=
  (members_step s s' ∧ own key (lb_ID lb) (lr_VipPortID (lb_row lb)) lbname addr s s') (only parsing).

Lemma members_changed lb name pid row ms l s :
  s_pools s !! pid = Some (row, ms) → pool_there (lb_ID lb) name pid s →
  Members lb s (set_pools <[pid := (row, l)]> s).
Proof.
  intros Hp (pr & ms' & Hp' & _ & Hid & _). rewrite Hp in Hp'. injection Hp' as <- <-.
  split; [|by eapply own_pool_inserted]. split; [done..|]. intros i. simpl.
  destruct (decide (pid = i)) as [<-|Hi]; [by rewrite lookup_insert_eq, Hp|by rewrite lookup_insert_ne].
Qed.

Lemma syncPoolMembers_runs lb ing b name pid s :
  (∀ sp slices, backend_slices r (in_Namespace ing) b sp slices →
     distinct_members subnet_of slices (lr_VipAddress (lb_row lb)) sp) →
  pool_there (lb_ID lb) name pid s →
  runs view s (syncPoolMembers r lb ing b pid)
    (λ _ s', Members lb s s' ∧ (∀ i, i ≠ pid → s_pools s' !! i = s_pools s !! i) ∧
       backend_served r subnet_of (in_Namespace ing) (lr_VipAddress (lb_row lb)) b pid s')
    (λ _ s', Members lb s s').
Proof.
  intros Hdist Hthere. unfold syncPoolMembers.
  assert (Members lb s s) as Hrefl by (split; [apply members_step_refl|apply own_refl]).
  eapply runs_bind_wrap; [apply (runs_lift view s (ig_Services r (in_Namespace ing) (br_Service b))
    (λ svc s', s' = s ∧ ig_Services r (in_Namespace ing) (br_Service b) = Ok svc) (λ _ s', s' = s));
    by destruct (ig_Services r _ _)|by intros e s' ->|]; cbv beta.
  intros svc s' [-> Hsvc].
  eapply runs_bind; [apply (runs_lift view s (resolveServicePort svc (br_Port b))
    (λ sp s', s' = s ∧ resolveServicePort svc (br_Port b) = Ok sp) (λ _ s', s' = s));
    by destruct (resolveServicePort svc _)|by intros e s' ->|]; cbv beta.
  intros sp s' [-> Hsp].
  eapply runs_bind; [apply (runs_lift view s (slicesFor r (in_Namespace ing) (br_Service b))
    (λ sl s', s' = s ∧ slicesFor r (in_Namespace ing) (br_Service b) = Ok sl) (λ _ s', s' = s));
    by destruct (slicesFor r _ _)|by intros e s' ->|]; cbv beta.
  intros slices s' [-> Hslices].
  assert (backend_slices r (in_Namespace ing) b sp slices) as Hbs by by exists svc.
  eapply runs_bind; [apply (BuildMembers_runs view subnet_of)|by intros e s' [-> _]|]; cbv beta.
  intros members s' [-> Hms]. pose proof Hthere as (row & current & Hp & _).
  apply runs_wrap. eapply runs_conseq; [eapply (SetPoolMembers_runs view); [exact Hp|by apply (Hdist sp slices)]| |]; cbv beta.
  - intros _ s' (l & Hholds & ->). split; [by eapply members_changed|]. simpl.
    split; [intros i Hi; by rewrite lookup_insert_ne|].
    exists sp, slices, members, row, l. simpl. by rewrite lookup_insert_eq.
  - intros e s' [->|(l & ->)]; [done|by eapply members_changed].
Qed.

Lemma sync_members_runs lb ing backends (poolIDs : gmap string string) s :
  (∀ b sp slices, backend_slices r (in_Namespace ing) b sp slices →
     distinct_members subnet_of slices (lr_VipAddress (lb_row lb)) sp) →
  NoDup (map (poolName lbname) backends) →
  (∀ b, b ∈ backends → ∃ pid, poolIDs !! poolName lbname b = Some pid ∧
     pool_there (lb_ID lb) (poolName lbname b) pid s) →
  runs view s (for_each backends (λ b, syncPoolMembers r lb ing b (opt_or "" (poolIDs !! poolName lbname b))))
    (λ _ s', Members lb s s' ∧ ∀ b, b ∈ backends → ∃ pid, poolIDs !! poolName lbname b = Some pid ∧
       pool_there (lb_ID lb) (poolName lbname b) pid s' ∧
       backend_served r subnet_of (in_Namespace ing) (lr_VipAddress (lb_row lb)) b pid s')
    (λ _ s', Members lb s s').
Proof.
  intros Hdist Hnd Hall.
  eapply runs_conseq; [apply (runs_for_each view (λ pre s', Members lb s s' ∧ ∀ b, b ∈ pre → ∃ pid,
    poolIDs !! poolName lbname b = Some pid ∧
    backend_served r subnet_of (in_Namespace ing) (lr_VipAddress (lb_row lb)) b pid s') backends _ (λ _ s', Members lb s s'))| |];
    cbv beta; [| | |done].
  - split; [split; [apply members_step_refl|apply own_refl]|]. by intros b ?%elem_of_nil.
  - intros pre b post s1 Heq ([Hs1 Ho1] & Hpre).
    assert (b ∈ backends) as Hb by (rewrite Heq; set_solver).
    destruct (Hall b Hb) as (pid & Hpid & Hthere). rewrite Hpid. simpl.
    pose proof (members_step_there _ _ _ _ _ Hs1 Hthere) as Hthere1.
    eapply runs_conseq; [eapply (syncPoolMembers_runs lb ing b (poolName lbname b)); [intros sp sl; apply Hdist|done]| |]; cbv beta.
    + intros _ s2 ((Hs2 & Ho2) & Hrest & Hserved).
      split; [split; [by eapply members_step_trans|by eapply own_trans]|].
      intros b' [Hb'| ->%list_elem_of_singleton]%elem_of_app; [|by exists pid].
      destruct (Hpre b' Hb') as (pid' & Hpid' & sp & sl & ms & row & cur & H1 & H2 & H3 & H4).
      exists pid'. split; [done|]. exists sp, sl, ms, row, cur. rewrite Hrest; [done|]. intros ->.
      destruct (Hall b') as (pid0 & Hpid0 & (pr0 & ms0 & Hp0 & Hn0 & _)); [rewrite Heq; set_solver|].
      rewrite Hpid' in Hpid0. injection Hpid0 as <-. destruct Hthere as (pr & ms' & Hp & Hn & _).
      rewrite Hp in Hp0. injection Hp0 as <- <-. rewrite Heq, map_app in Hnd.
      apply NoDup_app in Hnd as (_ & Hdisj & _). apply (Hdisj (poolName lbname b')).
      * apply list_elem_of_fmap. by exists b'.
      * rewrite <-Hn0, Hn. simpl. by left.
    + intros e s2 [Hs2 Ho2]. split; [by eapply members_step_trans|by eapply own_trans].
  - intros _ s' [[Hs Ho] Hdone]. split; [done|]. intros b Hb.
    destruct (Hall b Hb) as (pid & Hpid & Hthere), (Hdone b Hb) as (pid' & Hpid' & Hserved).
    rewrite Hpid in Hpid'. injection Hpid' as <-. exists pid. split; [done|]. split; [|done].
    by eapply members_step_there.
Qed.
End members.

Section pass_facts.
Context {bundles : Bundles} {W : Type} {api : Octavia W} {clock : Clock W} {api7 : OctaviaL7 W} {fips : FloatingIPs W}
  {ings : IngressesAPI W} {km : KeyManager W} {subnets : SubnetResolver W} (view : W → LBState)
  (subnet_of : string → string → option string)
  `{!OctaviaLaws api view} `{!ClockLaws clock api view} `{!OctaviaL7Laws api7 view} `{!FloatingLaws fips view}
  `{!IngressesLaws ings view} `{!KeyManagerLaws km view} `{!SubnetLaws subnets view subnet_of}.
Variables (r : Reconciler) (key : string * string) (lbname addr : string).
Abbreviation Own lb := (own key (lb_ID lb) (lr_VipPortID (lb_row lb)) lbname addr).

(** *** Pools *)
Definition pools_made (lb : LoadBalancer) (backends : list backendRef) (st : gmap string string * gset string)
    (s : LBState) : Prop :=
  (∀ b, b ∈ backends → ∃ pid, st.1 !! poolName lbname b = Some pid ∧ pool_there (lb_ID lb) (poolName lbname b) pid s) ∧
  (∀ n, is_Some (st.1 !! n) → n ∈ map (poolName lbname) backends) ∧
  (∀ pid, pid ∈ st.2 ↔ ∃ n, st.1 !! n = Some pid).

Lemma pools_fold_runs lb backends s :
  NoDup (map (poolName lbname) backends) →
  runs view s (fold_each (pool_step lb lbname) (∅, ∅) backends)
    (λ st s', pools_step s s' ∧ Own lb s s' ∧ pools_made lb backends st s') (λ _ s', Own lb s s').
Proof.
  intros Hnd.
  eapply runs_conseq; [apply (runs_fold_each view (λ pre st s', (pools_step s s' ∧ Own lb s s') ∧
    pools_made lb pre st s') backends _ (λ _ s', Own lb s s'))| |]; cbv beta.
  - split; [split; [apply pools_step_refl|apply own_refl]|]. split; [by intros b ?%elem_of_nil|].
    split; [intros n; simpl; rewrite lookup_empty; by intros []|]. intros pid. simpl. split; [set_solver|].
    intros [n Hn]. by rewrite lookup_empty in Hn.
  - intros pre b post st s1 Heq ([Hs1 Ho1] & Hall & Hdom & Hkeep). unfold pool_step.
    assert (st.1 !! poolName lbname b = None) as Hnew.
    { destruct (st.1 !! poolName lbname b) eqn:Hb; [|done]. exfalso.
      rewrite Heq, map_app in Hnd. apply NoDup_app in Hnd as (_ & Hdisj & _).
      apply (Hdisj (poolName lbname b)); [apply Hdom; by rewrite Hb|simpl; by left]. }
    eapply runs_bind; [by apply (ensureBackendPool_runs view key (lr_VipPortID (lb_row lb)) addr lbname (lb_ID lb))| |]; cbv beta.
    { intros e s' [_ Ho]. by eapply own_trans. }
    intros p s2 [[Hs2 Ho2] Hthere]. apply runs_ret.
    split; [split; [by eapply pools_step_trans|by eapply own_trans]|]. unfold pools_made. cbn [fst snd]. split; [|split].
    + intros b' [Hb'| ->%list_elem_of_singleton]%elem_of_app.
      * destruct (Hall b' Hb') as (pid & Hpid & Hp). exists pid. rewrite lookup_insert_ne by congruence.
        split; [done|]. eapply pool_there_like; [|exact Hp]. apply Hs2.
      * exists (pl_ID p). by rewrite lookup_insert_eq.
    + intros n Hn. rewrite map_app, elem_of_app. simpl. destruct (decide (n = poolName lbname b)) as [->|Hne]; [right; by left|].
      rewrite lookup_insert_ne in Hn by done. left. by apply Hdom.
    + intros pid. rewrite elem_of_union, elem_of_singleton, Hkeep. split.
      * intros [->|[n Hn]]; [by exists (poolName lbname b); rewrite lookup_insert_eq|].
        exists n. rewrite lookup_insert_ne; [done|]. intros <-. congruence.
      * intros [n Hn]. apply lookup_insert_Some in Hn as [[_ ->]|[_ Hn]]; [by left|]. right. by exists n.
  - intros st s' [[H1 H2] H3]. done.
  - done.
Qed.

(** *** From the listener on *)
Lemma l7_only_secrets s s' : l7_only s s' → s_secrets s' = s_secrets s.
Proof. by intros (_ & _ & _ & _ & ?). Qed.

Lemma mirrored_secrets n ref s s' :
  s_secrets s' !! ref = s_secrets s !! ref →
  mirrored (ig_Secrets r) key.1 lbname n ref s → mirrored (ig_Secrets r) key.1 lbname n ref s'.
Proof. intros E (tls & row & H1 & H2 & H3). exists tls, row. by rewrite E. Qed.

Lemma cleanup_step_runs lb tlsRefs s :
  one_secret_per_id s →
  runs view s (if decide (tlsRefs ≠ []) then
      cleanupBarbicanSecrets (ig_KeyManager r) (tls_prefix lbname) (list_to_set tlsRefs) else mret ())
    (λ _ s', Own lb s s' ∧ s' = set_secrets (λ _, s_secrets s') s ∧
       ∀ ref, ref ∈ tlsRefs → s_secrets s' !! ref = s_secrets s !! ref)
    (λ _ s', Own lb s s').
Proof.
  intros Hone. case_decide as Hrefs; [|apply runs_ret; split; [apply own_refl|split; [by destruct s|done]]].
  eapply runs_conseq; [by apply (cleanupBarbicanSecrets_runs view)| |]; cbv beta.
  - intros _ s' (dead & -> & Hd & _). split; [by eapply own_cleaned|]. split; [done|].
    intros ref Hin. rewrite cleaned_lookup. case_decide as Hdead; [|done].
    apply Hd in Hdead as (row & _ & _ & Hn). by rewrite elem_of_list_to_set in Hn.
  - intros e s' (dead & -> & Hd). by eapply own_cleaned.
Qed.

Lemma in_order_stands l ps0 desired s s' :
  policies_of s l = ps0 → in_order l lbname ps0 desired s s' →
  policies_stand lbname desired (policies_of s' l) ∧
  (s' = s ∨ ∃ ps, holds l ps s s').
Proof.
  intros Hps [[-> H]|(made & Hrows & Hh & _)].
  - split; [left; by rewrite Hps|by left].
  - split; [|right; by eexists]. destruct Hh as [-> _]. right. exists made, (foreign lbname ps0).
    split; [done|]. split; [done|]. apply foreign_idemp.
Qed.

(** What the policies' step keeps. *)
Lemma holds_kept l ps s s' :
  s' = s ∨ holds l ps s s' → l7_only s s' ∧ s_listeners s' = s_listeners s ∧ s_pools s' = s_pools s ∧
    s_settings s' = s_settings s.
Proof. intros [->|Hh]; [done|]. apply holds_same in Hh. unfold l7_only. tauto. Qed.

(** The load balancers, addresses and Ingresses are as they were. *)
Definition outside (s s' : LBState) : Prop :=
  s_lbs s' = s_lbs s ∧ s_fips s' = s_fips s ∧ s_ingresses s' = s_ingresses s.
Lemma l7_only_outside s s' : l7_only s s' → outside s s'.
Proof. intros (? & ? & ? & ? & ?). done. Qed.
Lemma secrets_outside s s' : s' = set_secrets (λ _, s_secrets s') s → outside s s'.
Proof. intros ->. done. Qed.
Lemma outside_trans s1 s2 s3 : outside s1 s2 → outside s2 s3 → outside s1 s3.
Proof. unfold outside. intros (? & ? & ?) (? & ? & ?). split_and!; congruence. Qed.

(** What is known once the listener has been seen to. *)
Record ready_to_converge (ing : Ingress) (lb : LoadBalancer) (tlsRefs : list string) (tuning : listenerTuning)
    (st : gmap string string * gset string) (l : string) (s : LBState) : Prop := {
  rc_tuned : tuningFromAnnotations ing = Ok tuning;
  rc_mirrored : Forall2 (λ n ref, mirrored (ig_Secrets r) (in_Namespace ing) lbname n ref s)
    (tls_names ∅ (in_TLS ing)) tlsRefs;
  rc_pools : pools_made lb (collectBackends ing).2 st s;
  rc_listens : listens (lb_ID lb) lbname tlsRefs (default_pool ing lbname st.1) tuning l s;
  rc_policies : policies_own s;
  rc_secrets : one_secret_per_id s }.

Lemma converge_runs ing lb tlsRefs tuning poolIDs keep listener s :
  key = in_key ing →
  (∀ b sp slices, backend_slices r (in_Namespace ing) b sp slices →
     distinct_members subnet_of slices (lr_VipAddress (lb_row lb)) sp) →
  NoDup (map (poolName lbname) (collectBackends ing).2) →
  ready_to_converge ing lb tlsRefs tuning (poolIDs, keep) (ls_ID listener) s →
  runs view s (converge r ing lb lbname tlsRefs (collectBackends ing).2 poolIDs keep (default_pool ing lbname poolIDs) listener)
    (λ _ s', Own lb s s' ∧ outside s s' ∧ served r subnet_of ing lbname (lb_ID lb) (lr_VipAddress (lb_row lb)) s')
    (λ _ s', Own lb s s').
Proof.
  intros Hkey Hdist Hnd [Htuned Hmir (Hall & Hdom & Hkeep) Hlis Hpol Hsec]. unfold converge. simpl in *.
  eapply runs_bind; [by apply (cleanup_step_runs lb)|done|]; cbv beta.
  intros _ s1 (Ho1 & E1 & Hrefs).
  assert (outside s s1) as Hout1 by by apply secrets_outside.
  assert (∀ b, b ∈ (collectBackends ing).2 → ∃ pid, poolIDs !! poolName lbname b = Some pid ∧
    pool_there (lb_ID lb) (poolName lbname b) pid s1) as Hall1 by by rewrite E1.
  eapply runs_bind; [by apply (sync_members_runs view subnet_of r key lbname addr lb ing)| |]; cbv beta.
  { intros e s' [_ Ho]. by eapply own_trans. }
  intros _ s2 ([Hm2 Ho2] & Hserved).
  assert (outside s s2) as Hout2 by (eapply outside_trans; [exact Hout1|by apply l7_only_outside, mst_only]).
  assert (Own lb s s2) as Ho02 by by eapply own_trans.
  set (l := ls_ID listener) in *. set (desired := buildDesiredPolicies ing lbname poolIDs).
  destruct Hlis as ((row & Hrow & Hin & Hsp) & Hal & Hno).
  assert (s_listeners s2 = s_listeners s ∧ settings_of s2 = settings_of s ∧ s_policies s2 = s_policies s) as (L2 & S2 & P2).
  { split_and!; [rewrite (mst_listeners _ _ Hm2); by rewrite E1|unfold settings_of; rewrite (mst_settings _ _ Hm2); by rewrite E1|
      rewrite (mst_policies _ _ Hm2); by rewrite E1]. }
  assert (own_ids l (policies_of s2 l) s2) as Hown2.
  { pose proof (Hpol l) as H. unfold own_ids, policies_of in *. by rewrite P2. }
  eapply runs_bind; [by apply (syncL7Policies_runs view (lb_ID lb) l lbname s2 desired Hown2);
    apply buildDesiredPolicies_ours| |]; cbv beta.
  { intros e s' (ps & Hh & _). eapply own_trans; [exact Ho02|]. eapply own_holds; [by rewrite L2|done|done]. }
  intros _ s3 [Hord _].
  destruct (in_order_stands l (policies_of s2 l) desired s2 s3 eq_refl Hord) as [Hstand Hsame].
  assert (Own lb s2 s3) as Ho3.
  { destruct Hsame as [->|[ps Hh]]; [apply own_refl|]. eapply own_holds; [by rewrite L2|done|done]. }
  assert (∃ ps, s3 = s2 ∨ holds l ps s2 s3) as [ps Hh] by (destruct Hsame as [?|[ps ?]]; [exists []; by left|exists ps; by right]).
  destruct (holds_kept l ps s2 s3 Hh) as (Hl7 & L3 & Q3 & S3).
  assert (Own lb s s3) as Ho03 by by eapply own_trans.
  eapply runs_conseq; [apply (gcStalePools_runs view key (lr_VipPortID (lb_row lb)) addr lbname (lb_ID lb) keep (default_pool ing lbname poolIDs))| |]; cbv beta.
  2: { intros e s' Hsw. eapply own_trans; [exact Ho03|by apply psw_own in Hsw]. }
  intros _ s4 [Hsw Hstale]. split; [eapply own_trans; [exact Ho03|by apply psw_own in Hsw]|].
  split. { eapply outside_trans; [exact Hout2|]. eapply outside_trans; apply l7_only_outside; [exact Hl7|by apply psw_only in Hsw]. }
  assert (settings_of s4 l = settings_of s l) as S4.
  { rewrite (psw_settings _ _ _ _ _ _ _ _ _ Hsw); unfold settings_of; rewrite S3; fold (settings_of s2 l); rewrite S2; [done|].
    by destruct Hal as (_ & -> & _). }
  exists tuning, tlsRefs, poolIDs, l. split; [done|]. split; [|split; [|split; [|split]]].
  - apply Forall2_same_length_lookup. split; [by eapply Forall2_length|]. intros i n ref Hn Href.
    destruct (Forall2_lookup_lr _ _ _ _ _ _ Hmir Hn Href) as (tls & srow & H1 & H2 & H3).
    exists tls, srow. split; [done|]. split; [|done].
    rewrite (l7_only_secrets _ _ (psw_only _ _ _ _ _ _ _ _ _ Hsw)), (l7_only_secrets _ _ Hl7),
      (l7_only_secrets _ _ (mst_only _ _ Hm2)), Hrefs; [done|by eapply list_elem_of_lookup_2].
  - intros b Hb. destruct (Hserved b Hb) as (pid & Hpid & (pr & ms & Hp & Hthere) & sp & sl & wanted & prow & cur & H1 & H2 & H3 & H4).
    assert (s_pools s4 !! pid = Some (pr, ms)) as Hp4.
    { apply (psw_pools _ _ _ _ _ _ _ _ _ Hsw); [by rewrite Q3|]. intros (_ & _ & Hn & _). apply Hn, Hkeep. by eexists. }
    exists pid. split; [done|]. split; [by exists pr, ms|]. exists sp, sl, wanted, pr, ms.
    rewrite Hp in H3. by injection H3 as <- <-.
  - split; [exists row; by rewrite (psw_listeners _ _ _ _ _ _ _ _ _ Hsw), L3, L2|]. rewrite S4. split; [done|].
    by rewrite (psw_listeners _ _ _ _ _ _ _ _ _ Hsw), L3, L2.
  - unfold policies_of. by rewrite (psw_policies _ _ _ _ _ _ _ _ _ Hsw).
  - intros i pr ms Hi Hid Hpre. destruct (decide (i ∈ keep)) as [Hk|Hk]; [left; by apply Hkeep|].
    destruct (decide (i = default_pool ing lbname poolIDs)) as [?|Hd]; [by right|]. by destruct (Hstale i pr ms Hi).
Qed.

(** What earlier passes keep true, of what a pass relies on. *)
Record well_kept (s : LBState) : Prop := {
  wk_once : named_once s;
  wk_named : well_named lbname s;
  wk_policies : policies_own s;
  wk_secrets : one_secret_per_id s }.

Lemma serve_runs ing lb s :
  key = in_key ing →
  (∀ b sp slices, backend_slices r (in_Namespace ing) b sp slices →
     distinct_members subnet_of slices (lr_VipAddress (lb_row lb)) sp) →
  NoDup (map (poolName lbname) (collectBackends ing).2) → well_kept s →
  runs view s (serve r ing lb lbname)
    (λ _ s', Own lb s s' ∧ outside s s' ∧ served r subnet_of ing lbname (lb_ID lb) (lr_VipAddress (lb_row lb)) s')
    (λ _ s', Own lb s s').
Proof.
  intros Hkey Hdist Hnd [Honce Hnamed Hpol Hsec]. unfold serve.
  eapply runs_bind; [apply (ensureTLS_runs view)|intros e s' Hg; by apply own_tls_grown|]; cbv beta.
  intros tlsRefs s1 [Hg Hmir]. pose proof (tg_rest _ _ _ Hg) as E1.
  assert (Own lb s s1) as Ho1 by by apply own_tls_grown.
  rewrite (surjective_pairing (collectBackends ing)).
  eapply runs_bind; [by apply pools_fold_runs|intros e s' Ho; by eapply own_trans|]; cbv beta.
  intros st s2 (Hps & Ho2 & Hmade). fold (default_pool ing lbname st.1).
  assert (Own lb s s2) as Ho02 by by eapply own_trans.
  eapply (runs_bind _ _ _ _ (λ t s', s' = s2 ∧ tuningFromAnnotations ing = Ok t) _ (λ _ s', s' = s2)).
  { apply runs_lift. by destruct (tuningFromAnnotations ing). }
  { by intros e s' ->. }
  intros tuning s' [-> Htuned].
  assert (s_listeners s2 = s_listeners s) as L2 by (rewrite (pst_listeners _ _ Hps); by rewrite E1).
  assert (policies_own s2) as Hpol2.
  { intros l. pose proof (Hpol l) as H. unfold own_ids, policies_of in *.
    rewrite (pst_policies _ _ Hps). by rewrite E1. }
  eapply runs_bind; [apply (ensureListener_runs view key (lr_VipPortID (lb_row lb)) addr lbname (lb_ID lb))| |]; cbv beta.
  { unfold named_once. by rewrite L2. }
  { unfold well_named. by rewrite L2. }
  { intros e s' [_ Ho]. by eapply own_trans. }
  intros l s3 (Hst & Ho3 & Hlis). assert (Own lb s s3) as Ho03 by by eapply own_trans.
  pose proof (l7_only_trans _ _ _ (pst_only _ _ Hps) (lst_only _ _ Hst)) as Hl7.
  eapply runs_conseq; [apply (converge_runs ing lb tlsRefs tuning st.1 st.2 l s3 Hkey Hdist Hnd)| |]; cbv beta.
  - rewrite <-surjective_pairing. destruct Hmade as (Hall & Hdom & Hkeep). split; [done| | |done| |].
    + eapply Forall2_impl; [exact Hmir|]. intros n ref (tls & row & H1 & H2 & H3).
      exists tls, row. by rewrite (l7_only_secrets _ _ Hl7).
    + split; [|done]. intros b Hb. destruct (Hall b Hb) as (pid & Hpid & Hp). exists pid. split; [done|].
      eapply pool_there_like; [apply Hst|done].
    + by eapply listeners_step_own.
    + pose proof (tg_ids _ _ _ Hg Hsec) as H. unfold one_secret_per_id. by rewrite (l7_only_secrets _ _ Hl7).
  - intros _ s4 (Ho4 & Hout & Hserved). split; [by eapply own_trans|]. split; [|done].
    eapply outside_trans; [by apply secrets_outside|]. eapply outside_trans; [by apply l7_only_outside|done].
  - intros e s4 Ho4. by eapply own_trans.
Qed.
End pass_facts.

(** *** The address *)
Lemma fip_done_own key id network lbname port ing s s' :
  fip_done network lbname port ing s s' → own key id port lbname (in_annotation ing FloatingIPAnnotation) s s'.
Proof.
  assert (∀ i f g, (fr_PortID f = port ∨ fr_FloatingIP f = in_annotation ing FloatingIPAnnotation) →
    fip_rewritten i f g s s' → own key id port lbname (in_annotation ing FloatingIPAnnotation) s s') as Hrew.
  { intros i f g Hor [Hf ->]. apply own_fips_only; [done|]. intros j h Hj Hp Ha. simpl.
    rewrite lookup_insert_ne; [done|]. intros <-. rewrite Hf in Hj. injection Hj as <-. by destruct Hor. }
  unfold fip_done. destruct (internal ing); [|case_decide].
  - intros [->|(i & f & Hf & Hp & _ & _ & ->)]; [apply own_refl|]. apply own_fips_only; [done|].
    intros j g Hj Hg _. simpl. rewrite lookup_delete_ne; [done|]. intros <-. congruence.
  - intros [->|(i & f & Ha & Hr)]; [apply own_refl|]. eapply Hrew; [by right|done].
  - intros [->|[(i & f & Hp & _ & Hr)|(_ & _ & f & Hnew & _ & ->)]]; [apply own_refl|eapply Hrew; [by left|done]|].
    apply own_fips_only; [done|]. intros j g Hj _ _. simpl. rewrite lookup_insert_ne; [done|]. intros <-. congruence.
Qed.

Lemma fip_done_only network lbname port ing s s' :
  fip_done network lbname port ing s s' → s' = set_fips (λ _, s_fips s') s.
Proof.
  assert (s = set_fips (λ _, s_fips s) s) as Hs by by destruct s.
  unfold fip_done. destruct (internal ing); [|case_decide].
  - by intros [->|(i & f & _ & _ & _ & _ & ->)].
  - by intros [->|(i & f & _ & _ & ->)].
  - by intros [->|[(i & f & _ & _ & _ & ->)|(_ & _ & f & _ & _ & ->)]].
Qed.

(** The address published: one on the load balancer's port, or else its own. *)
Definition reachable (ing : Ingress) (row : LBRow) (address : string) (s : LBState) : Prop :=
  ∃ a, fip_answer (lr_VipPortID row) ing a s ∧ address = if decide (a = "") then lr_VipAddress row else a.

Section whole.
Context {bundles : Bundles} {W : Type} {api : Octavia W} {clock : Clock W} {api7 : OctaviaL7 W} {fips : FloatingIPs W}
  {ings : IngressesAPI W} {km : KeyManager W} {subnets : SubnetResolver W} (view : W → LBState)
  (subnet_of : string → string → option string)
  `{!OctaviaLaws api view} `{!ClockLaws clock api view} `{!OctaviaL7Laws api7 view} `{!FloatingLaws fips view}
  `{!IngressesLaws ings view} `{!KeyManagerLaws km view} `{!SubnetLaws subnets view subnet_of}.
Variable r : Reconciler.

Lemma publish_ingress_runs ing address id port lbname addr cur s :
  s_ingresses s !! in_key ing = Some cur → in_ResourceVersion ing ≠ 0%Z → id_recorded ing id cur →
  runs view s (publishStatus ing address)
    (λ _ s', own (in_key ing) id port lbname addr s s' ∧ s' = set_ingresses (λ _, s_ingresses s') s ∧
       ∃ ing', s_ingresses s' !! in_key ing = Some ing' ∧ rewritten ing id ing' ∧ address ∈ in_Ingress ing')
    (λ _ s', own (in_key ing) id port lbname addr s s').
Proof.
  intros Hcur Hver (Hrew & Hips & Hlater). unfold publishStatus. case_decide as Hin.
  { apply runs_ret. split; [apply own_refl|]. split; [by destruct s|]. exists cur. by rewrite Hips. }
  set (ing1 := in_with _ _ _ ing).
  assert (∀ fresh s', ingress_updated true ing1 fresh s s' → own (in_key ing) id port lbname addr s s') as Hown.
  { intros fresh s' Hu. by eapply own_ingress_updated; [|exact Hu]. }
  eapply runs_bind; [apply (law_ingress_UpdateStatus s ing1)| |]; cbv beta.
  - intros e s' [->|[fresh Hu]]; [apply own_refl|by eapply Hown].
  - intros fresh s' Hu. apply runs_ret. split; [by eapply Hown|].
    destruct (ingress_update_stored true ing fresh s s' cur Hcur Hver Hlater ing1 eq_refl eq_refl Hu)
      as (-> & _ & -> & v & ->).
    split; [done|]. simpl. rewrite lookup_insert_eq. eexists. split; [done|].
    split; [|by apply list_elem_of_singleton].
    destruct Hrew as (H1 & H2 & _). split; [exact H1|]. split; [exact H2|]. by eexists _, _, _.
Qed.

(** Everything a pass is to bring about. *)
Definition in_place (namespace name : string) (ing : Ingress) (s s' : LBState) : Prop :=
  let lbname := lbName r namespace name in
  ∃ id row address,
    s_lbs s' !! id = Some row ∧
    own_lb r ing id row ∧
    (∃ p, resolveProvider r ing = Ok p ∧ (lr_Provider row = "" ∨ p = "" ∨ lr_Provider row = p)) ∧
    own (in_key ing) id (lr_VipPortID row) lbname (in_annotation ing FloatingIPAnnotation) s s' ∧
    served r subnet_of ing lbname id (lr_VipAddress row) s' ∧
    reachable ing row address s' ∧
    ∃ ing', s_ingresses s' !! in_key ing = Some ing' ∧ rewritten ing id ing' ∧ address ∈ in_Ingress ing'.

Lemma Ingress_live_runs namespace name ing s :
  live r subnet_of namespace name ing s →
  runs view s (Reconcile r namespace name)
    (λ _ s', in_place namespace name ing s s')
    (λ _ s', failed_pass r (lbName r namespace name) (in_annotation ing FloatingIPAnnotation) ing s s').
Proof.
  intros [Hget Hkey Hours Halive Hcur Hver Hdns Hmem Honce Hnamed Hpol Hsec Hport].
  unfold Reconcile. rewrite Hget, Hours. simpl. rewrite decide_False by (rewrite Halive; by intros []).
  set (lbname := lbName r namespace name). set (addr := in_annotation ing FloatingIPAnnotation).
  assert (in_Namespace ing = namespace ∧ in_Name ing = name) as [Hns Hn] by (unfold in_key in Hkey; by injection Hkey).
  eapply runs_bind; [by apply (ensure_ingress_lb_runs view r lbname addr)|done|]; cbv beta.
  intros lb s1 (Ho1 & Hbelow & Hlb1 & Hwhich & (p & Hp & Hmatch) & Hports & cur & Hcur1 & Hrec).
  assert (∀ s', own (in_key ing) (lb_ID lb) (lr_VipPortID (lb_row lb)) lbname addr s1 s' → failed_pass r lbname addr ing s s')
    as Hfail by (intros s' H; by eapply failed_own).
  assert (lr_VipPortID (lb_row lb) ≠ "") as Hne by (destruct Hports as [[i Hi]|?]; [by apply (Hport i)|done]).
  unfold below in Hbelow. injection Hbelow as B1 B2 B3 B4 B5 B6 B7 B8.
  assert (well_kept lbname s1) as Hwk.
  { split; [unfold named_once|unfold well_named|unfold policies_own, own_ids, policies_of in *|unfold one_secret_per_id];
      by rewrite ?B1, ?B7, ?B8. }
  eapply runs_bind; [apply (serve_runs view subnet_of r (in_key ing) lbname addr ing lb s1 eq_refl)| |]; cbv beta.
  { rewrite Hns. intros b sp sl Hb. by apply (Hmem b sp sl). }
  { apply pool_names_distinct. intros b Hb. by apply Hdns. }
  { done. }
  { intros e s' Ho. by apply Hfail. }
  intros _ s2 (Ho2 & (O1 & O2 & O3) & Hserved).
  eapply runs_bind; [by apply (ensureFIP_runs view s2 (ig_FloatingNetworkID r) ing lbname)| |]; cbv beta.
  { intros e s' Hd. apply Hfail. eapply own_trans; [exact Ho2|by eapply fip_done_own]. }
  intros a s3 [Hans Hd]. pose proof (fip_done_only _ _ _ _ _ _ Hd) as E3.
  assert (own (in_key ing) (lb_ID lb) (lr_VipPortID (lb_row lb)) lbname addr s1 s3) as Ho13
    by (eapply own_trans; [exact Ho2|by eapply fip_done_own]).
  eapply runs_conseq; [eapply (publish_ingress_runs ing _ (lb_ID lb)); [|done|exact Hrec]| |]; cbv beta.
  - rewrite E3. simpl. by rewrite O3.
  - intros _ s4 (Ho4 & E4 & Hpub). exists (lb_ID lb), (lb_row lb). eexists.
    split; [rewrite E4; simpl; rewrite E3; simpl; by rewrite O1|].
    split; [done|].
    split; [exists p; split; [done|by apply providerMatches_spec]|].
    split; [eapply own_trans; [exact Ho1|by eapply own_trans]|]. split; [|split; [|exact Hpub]].
    + eapply served_ext; [..|exact Hserved]; rewrite E4; simpl; by rewrite E3.
    + exists a. split; [|done]. unfold fip_answer in *. by rewrite E4.
  - intros e s4 Ho4. apply Hfail. by eapply own_trans.
Qed.
End whole.

(** ** Properties *)

(** C5 A pass over an Ingress puts it in place, and touches nothing else.  After a
    success there is a load balancer -- the recorded one, or one of the Ingress's
    name -- on the provider asked for; on it the one listener the Ingress wants,
    with the current certificate, default pool, whitelist and managed timeouts,
    and not the other one; for every backend a monitored pool holding exactly
    its ready endpoints; the policies the rules call for, in order, ahead of any
    made out of band; every certificate mirrored; no pool left that nothing
    refers to; and the Ingress's status has an address that is on its port, or
    its own.  After a success or a failure only what is on the Ingress's own load
    balancer -- the one it has recorded, or one of its name -- may differ, with
    the addresses on its port or named by the Ingress, the bundles named after
    it and the Ingress itself; no load balancer is altered or removed, and other
    load balancers' listeners, policies and pools, other Ingresses, addresses
    and bundles are as they were.  The pass is one over the Ingress as it is
    stored, naming Services by DNS names, with endpoints of which no two are one
    member, over listeners, pools and policies as passes make them and load
    balancers that have a port ([live]). *)
Theorem Ingress_reconciled {bundles : Bundles} {W : Type} {api : Octavia W} {clock : Clock W} {api7 : OctaviaL7 W}
    {fips : FloatingIPs W} {ings : IngressesAPI W} {km : KeyManager W} {subnets : SubnetResolver W}
    (view : W → LBState) (subnet_of : string → string → option string)
    `{!OctaviaLaws api view} `{!ClockLaws clock api view} `{!OctaviaL7Laws api7 view} `{!FloatingLaws fips view}
    `{!IngressesLaws ings view} `{!KeyManagerLaws km view} `{!SubnetLaws subnets view subnet_of}
    (r : Reconciler) (namespace name : string) (ing : Ingress) (s : LBState) :
  live r subnet_of namespace name ing s →
  runs view s (Reconcile r namespace name)
    (λ _ s', in_place subnet_of r namespace name ing s s')
    (λ _ s', failed_pass r (lbName r namespace name) (in_annotation ing FloatingIPAnnotation) ing s s').
Proof. by apply Ingress_live_runs. Qed.

(** ** Witness *)
Definition ex_web : Service := mkService "prod" "web" 1 ∅ None "ClusterIP" "10.96.0.7" [ex_port] [].
Definition ex_shop : Ingress :=
  mkIngress "prod" "shop" 4 {["knaas.io/loadbalancer-id" := "lb-1"]} None (Some "knaas") None
    [mkIngressRule "shop.example.com" (Some [mkPath "/" (Some PathTypePrefix) (Some ("web", mkBackendPort "" 80))])]
    ["web-tls"] [].
Definition ex_ig : Reconciler :=
  mkReconciler true (λ _ _, Ok ex_shop)
    (λ _ n, if decide (n = "web") then Ok ex_web else Err ErrK8sNotFound) (λ _, Ok ex_slices) ex_tls
    "vip-subnet" "public-net" "amphora" "knaas" "t1" (Some (λ _, true)) (Some ["prod"]).
Definition ex_shop_lb : LBRow :=
  mkLBRow "kubezun_t1_ing_prod_shop" "kubezun Ingress prod/shop" "vip-subnet" "amphora" "10.9.0.8" "port-ing".
Definition ex_shop_state : LBState :=
  mkLBState {["lb-1" := ex_shop_lb]} ∅ ∅ ∅ ∅ ∅ ∅ ∅ {[("prod", "shop") := ex_shop]} ∅.
Definition ex_shop_pass : result () * RefWorld :=
  @Reconcile RefBundles RefWorld RefOctavia RefClock RefOctaviaL7 RefFloating RefIngresses RefKeyManager RefSubnets
    ex_ig "prod" "shop" (mkRef ex_shop_state 0).

Lemma ex_shop_live : live ex_ig ex_subnet_of "prod" "shop" ex_shop ex_shop_state.
Proof.
  split; try (vm_compute; reflexivity).
  - discriminate.
  - intros b Hb. change (named_backends ex_shop) with [mkBackend "web" (mkBackendPort "" 80)] in Hb.
    by apply list_elem_of_singleton in Hb as ->.
  - intros b sp slices vip (svc & Hsvc & Hsp & Hsl). simpl in Hsvc.
    destruct (decide (br_Service b = "web")) as [Hb|]; [|discriminate Hsvc]. injection Hsvc as <-.
    assert (sp = ex_port) as ->.
    { unfold resolveServicePort in Hsp. simpl in Hsp. destruct (_ || _); by inversion Hsp. }
    unfold slicesFor in Hsl. rewrite Hb in Hsl. vm_compute in Hsl. injection Hsl as <-. apply ex_distinct.
  - intros i j li lj id Hi. simpl in Hi. by rewrite lookup_empty in Hi.
  - intros i row refs Hi. simpl in Hi. by rewrite lookup_empty in Hi.
  - intros l. assert (policies_of ex_shop_state l = []) as ->.
    { unfold policies_of. simpl. by rewrite lookup_empty. }
    split; [apply NoDup_nil_2|]. intros l' i _ Hi. by apply elem_of_nil in Hi.
  - intros r1 r2 [x Hx]. simpl in Hx. by rewrite lookup_empty in Hx.
  - intros i row Hi. simpl in Hi. apply lookup_singleton_Some in Hi as [_ <-]. discriminate.
Qed.

Lemma Ingress_reconciled_witness :
  ex_shop_pass.1 = Ok () ∧
  @in_place RefBundles ex_subnet_of ex_ig "prod" "shop" ex_shop ex_shop_state (rw_state ex_shop_pass.2).
Proof.
  pose proof (@Ingress_reconciled RefBundles RefWorld RefOctavia RefClock RefOctaviaL7 RefFloating RefIngresses
    RefKeyManager RefSubnets rw_state ex_subnet_of RefOctavia_laws RefClock_laws RefOctaviaL7_laws RefFloating_laws
    RefIngresses_laws RefKeyManager_laws RefSubnets_laws ex_ig "prod" "shop" ex_shop ex_shop_state
    ex_shop_live (mkRef ex_shop_state 0) eq_refl) as H.
  fold ex_shop_pass in H.
  assert (is_ok ex_shop_pass.1 = true) as Hok by (vm_compute; reflexivity).
  revert Hok H. generalize ex_shop_pass. intros [[[]|e] w] Hok H; [|discriminate Hok].
  split; [reflexivity|exact H].
Defined.

(** ** What modelling showed *)

(** A renewed certificate that is not the first is never put on the listener:
    the pass succeeds, the bundle the listener still names for it is deleted,
    and the new one is named by nothing. *)
Definition ex_two : Ingress :=
  mkIngress "prod" "shop" 4 {["knaas.io/loadbalancer-id" := "lb-1"]} None (Some "knaas") None
    [mkIngressRule "" (Some [mkPath "/" (Some PathTypePrefix) (Some ("web", mkBackendPort "" 80))])]
    ["web-tls"; "api-tls"] [].
Definition ex_renewed (crt : string) (cached : Ingress) : Reconciler :=
  mkReconciler true (λ _ _, Ok cached)
    (λ _ n, if decide (n = "web") then Ok ex_web else Err ErrK8sNotFound) (λ _, Ok ex_slices)
    (λ ns n, Ok (mkTLSSecret ns n {[TLSCertKey := if decide (n = "api-tls") then crt else "first"; TLSPrivateKeyKey := "key"]}))
    "vip-subnet" "public-net" "amphora" "knaas" "t1" (Some (λ _, true)) (Some ["prod"]).
Definition ex_run_shop (r : Reconciler) (w : RefWorld) : result () * RefWorld :=
  @Reconcile RefBundles RefWorld RefOctavia RefClock RefOctaviaL7 RefFloating RefIngresses RefKeyManager RefSubnets
    r "prod" "shop" w.
Definition ex_first_cert : result () * RefWorld := ex_run_shop (ex_renewed "one" ex_two)
  (mkRef (mkLBState {["lb-1" := ex_shop_lb]} ∅ ∅ ∅ ∅ ∅ ∅ ∅ {[("prod", "shop") := ex_two]} ∅) 0).
Definition ex_second_cert : result () * RefWorld :=
  ex_run_shop (ex_renewed "two" (opt_or ex_two (s_ingresses (rw_state ex_first_cert.2) !! ("prod", "shop")))) ex_first_cert.2.
Definition dangling (s : LBState) : list string :=
  filter (λ ref, s_secrets s !! ref = None) (flat_map lx_SniContainerRefs (map_to_list (s_settings s)).*2).

Theorem renewed_SNI_dangles :
  ex_first_cert.1 = Ok () ∧ dangling (rw_state ex_first_cert.2) = [] ∧
  ex_second_cert.1 = Ok () ∧ length (dangling (rw_state ex_second_cert.2)) = 1%nat.
Proof. vm_compute. repeat split. Qed.

(** The first pass that makes a load balancer writes its id on the Ingress and
    then publishes the address from the copy it read before: refused. *)
Definition ex_new : Ingress :=
  mkIngress "prod" "shop" 4 ∅ None (Some "knaas") None
    [mkIngressRule "" (Some [mkPath "/" (Some PathTypePrefix) (Some ("web", mkBackendPort "" 80))])] [] [].
Theorem first_ingress_pass_conflicts :
  (ex_run_shop (ex_renewed "one" ex_new)
    (mkRef (mkLBState ∅ ∅ ∅ ∅ ∅ ∅ ∅ ∅ {[("prod", "shop") := ex_new]} ∅) 0)).1 =
  Err (ErrResponse 409 "the object has been modified").
Proof. vm_compute. reflexivity. Qed.
