(* ===== verification/IngressController.v ===== *)
(** * pkg/ingress/controller.go and the way down

    The queue's keys and its worker, the sweep of load balancers whose Ingress is
    gone, the name of one read back; and what taking one down leaves behind. *)

From S2P Require Import Prelude GoStd K8s ZunCapsule LoadBalancing ServiceOctavia ServiceMembers ServiceReconciler ServiceGC.
From S2P Require Import IngressPlan IngressOctavia IngressFIP IngressBarbican IngressReconciler.
From Stdlib Require Import Ascii.

Local Open Scope string_scope.
Local Open Scope list_scope.

(** ** Keys *)
Definition enqueueIngress (ing : Ingress) : list string := [in_Namespace ing +:+ "/" +:+ in_Name ing].

Section controller.
Context `{!Bundles} {W : Type} `{!Octavia W} `{!Clock W} `{!OctaviaL7 W} `{!FloatingIPs W}
  `{!IngressesAPI W} `{!KeyManager W} `{!SubnetResolver W}.
(** The controller's own reconciler, with its list of a namespace's Ingresses
    and recorder, and whose work a namespace is. *)
Variable own : Reconciler.
Variable ingresses_of : string → result (list Ingress).
Variable has_events : bool.
Variable reconcilerOf : string → M W Reconciler.

Definition serves (namespace : string) : bool :=
  match ig_ServesNamespace own with Some f => f namespace | None => false end.

(** The Ingresses a change of the slice's Service is a change of members for. *)
Definition enqueueSlice (slice : EndpointSlice) : list string :=
  let svcName := opt_or "" (es_Labels slice !! LabelServiceName) in
  if decide (svcName = "") then []
  else if negb (serves (es_Namespace slice)) then []
  else match ingresses_of (es_Namespace slice) with
  | Err _ => []
  | Ok ings =>
      flat_map (λ ing, if Ours own ing && existsb (λ b, bool_decide (br_Service b = svcName)) (collectBackends ing).2
                       then enqueueIngress ing else []) ings
  end.

(** ** The worker *)
Definition recordFailure (namespace name : string) : option Ingress :=
  if has_events then
    match ig_Ingresses own namespace name with Ok ing => Some ing | Err _ => None end
  else None.

Definition reconcile (key : string) : M W (Verdict * option Ingress) :=
  match SplitMetaNamespaceKey key with
  | None => mret (Forgotten, None)
  | Some (namespace, name) =>
      if serves namespace then
        r ← try (reconcilerOf namespace);
        match r with
        | Err _ => mret (Requeued, None)
        | Ok r =>
            done ← try (Reconcile r namespace name);
            match done with
            | Err _ => mret (Requeued, recordFailure namespace name)
            | Ok _ => mret (Forgotten, None)
            end
        end
      else mret (Forgotten, None)
  end.

(** ** The sweep *)
Definition alive (r : Reconciler) (ing : Ingress) : bool :=
  Ours r ing && bool_decide (in_DeletionTimestamp ing = None).
(** A failure to delete one is logged. *)
Definition sweep_lb (r : Reconciler) (lb : LoadBalancer) : M W () :=
  let down := try (tearDown r (lr_Name (lb_row lb)) lb) ≫= λ _, mret () in
  match ParseLBName (ig_Tenant r) (lr_Name (lb_row lb)) with
  | None => mret ()
  | Some (namespace, name) =>
      if negb (serves namespace) then down
      else match ig_Ingresses r namespace name with
      | Ok ing => if alive r ing then mret () else down
      | Err e => if negb (IsNotFound e) then mret () else down
      end
  end.

Definition sweepOne (r : Reconciler) : M W () :=
  match ig_Namespaces r with
  | None | Some [] => mret ()
  | Some _ =>
      all ← try ListLoadBalancers;
      match all with
      | Err _ => mret ()
      | Ok all => for_each all (sweep_lb r)
      end
  end.
End controller.

(** ** What taking down leaves

    [razed D N s s']: of the objects there were, only load balancers in [D] may be
    gone, with what was on them, and bundles of the names in [N]; an address is as
    it was, or was on such a load balancer's port: then it is off it, or deleted
    where its description is the load balancer's name; nothing is new. *)
Definition fip_fate (D : string → Prop) (s : LBState) (f : FIPRow) (o : option FIPRow) : Prop :=
  o = Some f ∨
  ∃ j row, D j ∧ s_lbs s !! j = Some row ∧ fr_PortID f = lr_VipPortID row ∧ fr_PortID f ≠ "" ∧
    (o = Some (detached (fr_PortID f) f) ∨ (o = None ∧ fr_Description f = lr_Name row)).

Record razed (D N : string → Prop) (s s' : LBState) : Prop := {
  rz_lbs : ∀ j, ¬ D j → s_lbs s' !! j = s_lbs s !! j;
  rz_lbs_old : ∀ j row, s_lbs s' !! j = Some row → s_lbs s !! j = Some row;
  rz_listeners : ∀ i l, s_listeners s !! i = Some l → (∀ j, j ∈ lsr_Loadbalancers l → ¬ D j) →
    s_listeners s' !! i = Some l ∧ policies_of s' i = policies_of s i ∧ settings_of s' i = settings_of s i;
  rz_pools : ∀ i p, s_pools s !! i = Some p → (∀ j, j ∈ plr_Loadbalancers p.1 → ¬ D j) →
    s_pools s' !! i = Some p;
  rz_services : s_services s' = s_services s;
  rz_ingresses : s_ingresses s' = s_ingresses s;
  rz_fips : ∀ i f, s_fips s !! i = Some f → fip_fate D s f (s_fips s' !! i);
  rz_fips_old : ∀ i f, s_fips s' !! i = Some f → is_Some (s_fips s !! i);
  rz_secrets : ∀ ref row, s_secrets s !! ref = Some row →
    (∀ n, N n → has_prefix (scr_Name row) (tls_prefix n) = false) → s_secrets s' !! ref = Some row;
  rz_secrets_old : ∀ ref row, s_secrets s' !! ref = Some row → s_secrets s !! ref = Some row }.

Lemma razed_refl D N s : razed D N s s.
Proof. split; auto. intros i f Hf. by left. Qed.

Lemma fip_fate_old D s1 s2 f o :
  (∀ j row, s_lbs s2 !! j = Some row → s_lbs s1 !! j = Some row) → fip_fate D s2 f o → fip_fate D s1 f o.
Proof. intros H [?|(j & row & HD & Hj & Hr)]; [by left|]. right. exists j, row. auto. Qed.

Lemma razed_trans D N s1 s2 s3 : razed D N s1 s2 → razed D N s2 s3 → razed D N s1 s3.
Proof.
  intros [A1 A2 A3 A4 A5 A6 A7 A8 A9 A10] [B1 B2 B3 B4 B5 B6 B7 B8 B9 B10].
  split; [| |intros i l Hl Hj|auto|congruence|congruence|intros i f Hf| |auto|auto].
  - intros j Hj. by rewrite B1, A1.
  - auto.
  - destruct (A3 i l Hl Hj) as (H1 & H2 & H3). destruct (B3 i l H1 Hj) as (H4 & H5 & H6).
    split; [done|]. split; congruence.
  - destruct (A7 i f Hf) as [H2|(j & row & HD & Hrow & Hp & Hne & [H2|[H2 Hd]])].
    + eapply fip_fate_old; [exact A2|by apply B7].
    + right. exists j, row. do 4 (split; [done|]). left.
      destruct (B7 i _ H2) as [->|(j' & row' & _ & _ & _ & Hne' & _)]; [done|].
      unfold detached in Hne'. by rewrite decide_True in Hne'.
    + right. exists j, row. do 4 (split; [done|]). right. split; [|done].
      destruct (s_fips s3 !! i) as [g|] eqn:Hg; [|done]. destruct (B8 i g Hg) as [x Hx]. congruence.
  - intros i f Hf. destruct (B8 i f Hf) as [g Hg]. by apply (A8 i g).
Qed.

Lemma razed_mono (D D' N N' : string → Prop) s s' :
  (∀ j, D j → D' j) → (∀ n, N n → N' n) → razed D N s s' → razed D' N' s s'.
Proof.
  intros HD HN [A1 A2 A3 A4 A5 A6 A7 A8 A9 A10].
  split; [| |intros i l Hl H; apply A3|intros i p Hp H; apply A4| | |intros i f Hf| |intros ref row Hr H; apply A9|];
    auto; [naive_solver..|].
  destruct (A7 i f Hf) as [?|(j & row & Hj & H)]; [by left|]. right. exists j, row. auto.
Qed.

Lemma freed_razed (D N : string → Prop) id row s s' :
  D id → s_lbs s !! id = Some row → fip_freed (lr_Name row) (lr_VipPortID row) s s' → razed D N s s'.
Proof.
  intros HD Hrow [->|(i & f & Hf & Hp & Hne & Hd & ->)]; [apply razed_refl|]. split; simpl; auto.
  - intros j g Hg. destruct (decide (i = j)) as [<-|Hij].
    + right. rewrite Hf in Hg. injection Hg as <-. exists id, row. rewrite lookup_delete_eq.
      do 3 (split; [done|]). split; [congruence|]. by right.
    + left. by rewrite lookup_delete_ne.
  - intros j g [_ Hg]%lookup_delete_Some. by eexists.
Qed.

Lemma cascaded_razed (D N : string → Prop) id row s :
  D id → s_lbs s !! id = Some row → razed D N s (cascaded id s).
Proof.
  intros HD Hrow. unfold cascaded. rewrite Hrow.
  assert (∀ l (row : ListenerRow), s_listeners s !! l = Some row → (∀ j, j ∈ lsr_Loadbalancers row → ¬ D j) →
    str_in id (lsr_Loadbalancers row) = false) as Hon.
  { intros l lrow _ Hj. apply bool_decide_eq_false. intros Hin. by apply (Hj id). }
  split; simpl; auto.
  - intros j Hj. rewrite lookup_delete_ne; [done|]. by intros <-.
  - by intros j r [_ ?]%lookup_delete_Some.
  - intros i l Hl Hj. specialize (Hon i l Hl Hj). pose proof Hon as Hin. apply bool_decide_eq_false in Hin.
    split; [by apply map_lookup_filter_Some|]. unfold policies_of, settings_of. simpl. rewrite !map_lookup_filter.
    split; [destruct (s_policies s !! i)|destruct (s_settings s !! i)]; simpl; try done;
      rewrite option_guard_True; [done| |done|]; simpl; by rewrite Hl.
  - intros i p Hp Hj. apply map_lookup_filter_Some. split; [done|]. simpl. intros Hin. by apply (Hj id).
  - intros i f Hf. rewrite lookup_fmap, Hf. simpl. unfold detached at 1. case_decide as Hp; [|by left].
    destruct Hp as [Hp Hne]. right. exists id, row. do 3 (split; [done|]). split; [congruence|]. left.
    unfold detached. rewrite decide_True; [done|]. split; [done|congruence].
  - intros i f. rewrite lookup_fmap. destruct (s_fips s !! i); [by eexists|done].
Qed.

Lemma cleaned_razed (D N : string → Prop) n dead s :
  N n → (∀ ref, ref ∈ dead → doomed_secret (tls_prefix n) ∅ s ref) → razed D N s (cleaned dead s).
Proof.
  intros HN Hd. split; simpl; auto.
  - intros i f Hf. by left.
  - intros ref row Hr Hn. change (s_secrets (cleaned dead s) !! ref = Some row).
    rewrite cleaned_lookup, decide_False; [done|]. intros (row' & Hr' & Hp & _)%Hd.
    rewrite Hr in Hr'. injection Hr' as <-. rewrite (Hn n HN) in Hp. done.
  - intros ref row Hr. change (s_secrets (cleaned dead s) !! ref = Some row) in Hr.
    rewrite cleaned_lookup in Hr. by case_decide.
Qed.

Lemma razed_one_fip D N s s' : razed D N s s' → one_fip_per_port (s_fips s) → one_fip_per_port (s_fips s').
Proof.
  intros Hr Hone i j f g Hi Hj Hp Hne.
  assert (∀ k h, s_fips s' !! k = Some h → fr_PortID h ≠ "" → ∃ h0, s_fips s !! k = Some h0 ∧ fr_PortID h0 = fr_PortID h)
    as Hold.
  { intros k h Hk Hk0. destruct (rz_fips_old _ _ _ _ Hr k h Hk) as [h0 Hh0]. exists h0. split; [done|].
    destruct (rz_fips _ _ _ _ Hr k h0 Hh0) as [H|(j' & row & _ & _ & _ & Hn & [H|[H _]])]; rewrite Hk in H; simplify_eq; [done|].
    simpl in Hk0. unfold detached in Hk0. by rewrite decide_True in Hk0. }
  destruct (Hold i f Hi Hne) as (f0 & Hf0 & E1). destruct (Hold j g Hj) as (g0 & Hg0 & E2); [congruence|].
  apply (Hone i j f0 g0); congruence.
Qed.

Lemma razed_one_secret D N s s' : razed D N s s' → one_secret_per_id s → one_secret_per_id s'.
Proof.
  intros Hr Hone r1 r2 [x1 H1] [x2 H2]. apply Hone; eexists; by apply (rz_secrets_old _ _ _ _ Hr).
Qed.

Section down_facts.
Context {W : Type} {api : Octavia W} {fips : FloatingIPs W} {km : KeyManager W} (view : W → LBState)
  `{!OctaviaLaws api view} `{!FloatingLaws fips view} `{!KeyManagerLaws km view}.
Variable r : Reconciler.

(** The bundles of a name are gone too, where there is a key manager that does not
    fail at clearing them: a failure there is only logged. *)
Definition certificates_gone (n : string) (s s' : LBState) : Prop :=
  ig_KeyManager r = true →
  cannot_fail view (cleanupBarbicanSecrets (ig_KeyManager r) (tls_prefix n) ∅) (set_secrets (λ _, s_secrets s) s') →
  ∀ ref row, s_secrets s' !! ref = Some row → has_prefix (scr_Name row) (tls_prefix n) = false.

Lemma cleanup_razed (D N : string → Prop) n s :
  N n → one_secret_per_id s →
  runs view s (try (cleanupBarbicanSecrets (ig_KeyManager r) (tls_prefix n) ∅) ≫= λ _, mret ())
    (λ _ s', razed D N s s' ∧ certificates_gone n s s' ∧ s' = set_secrets (λ _, s_secrets s') s) (λ _ _, False).
Proof.
  intros HN Hone.
  eapply runs_try_bind; [by apply (runs_can_fail view), (cleanupBarbicanSecrets_runs view)| |]; cbv beta.
  - intros _ s' (dead & -> & Hd & Hall). apply runs_ret. split; [by eapply cleaned_razed|]. split; [|done].
    intros Hkm _ ref row Hr. rewrite cleaned_lookup in Hr. case_decide as Hdead; [done|].
    destruct (has_prefix _ _) eqn:Hp; [|done]. destruct Hdead. apply Hall; [done|].
    exists row. split; [done|]. by split; [|apply not_elem_of_empty].
  - intros e s' [(dead & -> & Hd) Hfail]. apply runs_ret. split; [by eapply cleaned_razed|]. split; [|done].
    intros _ Hnever. destruct Hfail. by destruct s.
Qed.

(** Taking one down whole: the load balancer, what was on it, its address and its
    certificates. *)
Record down_whole (id : string) (row : LBRow) (s s' : LBState) : Prop := {
  dw_razed : razed (λ j, j = id) (λ n, n = lr_Name row) s s';
  dw_down : taken_down id row s';
  dw_address : lr_VipPortID row ≠ "" → ∀ i f, s_fips s !! i = Some f → fr_PortID f = lr_VipPortID row →
    fr_Description f = lr_Name row → s_fips s' !! i = None;
  dw_certificates : certificates_gone (lr_Name row) s s' }.

Lemma tearDown_ingress_runs lb s :
  s_lbs s !! lb_ID lb = Some (lb_row lb) → one_fip_per_port (s_fips s) → one_secret_per_id s →
  runs view s (tearDown r (lr_Name (lb_row lb)) lb)
    (λ _ s', down_whole (lb_ID lb) (lb_row lb) s s')
    (λ _ s', razed (λ j, j = lb_ID lb) (λ n, n = lr_Name (lb_row lb)) s s').
Proof.
  intros Hlb Hone Hsec. unfold tearDown.
  set (D := λ j, j = lb_ID lb). set (N := λ n, n = lr_Name (lb_row lb)).
  assert (D (lb_ID lb)) as HD by done. assert (N (lr_Name (lb_row lb))) as HN by done.
  eapply runs_bind; [apply (releaseFIP_runs view)|intros e s' H; by eapply freed_razed|]; cbv beta.
  intros _ s1 [Hfreed Hnone].
  assert (razed D N s s1) as H1 by by eapply freed_razed.
  assert (s_lbs s1 !! lb_ID lb = Some (lb_row lb)) as Hlb1.
  { by destruct Hfreed as [->|(i & f & _ & _ & _ & _ & ->)]. }
  assert (razed D N s1 (cascaded (lb_ID lb) s1)) as H2 by by eapply cascaded_razed.
  eapply (runs_bind _ _ _ _ (λ _ s', s' = cascaded (lb_ID lb) s1) _ (λ _ s', razed D N s s')).
  { eapply runs_conseq; [apply (DeleteLoadBalancer_runs view)| |]; cbv beta.
    - intros _ s' [->|[_ Hn]]; [done|congruence].
    - intros e s' [->| ->]; [exact H1|by eapply razed_trans]. }
  { done. }
  intros _ s2 ->. assert (razed D N s (cascaded (lb_ID lb) s1)) as H12 by by eapply razed_trans.
  eapply runs_conseq; [apply (cleanup_razed D N (lr_Name (lb_row lb))); [done|by eapply razed_one_secret]| |done]; cbv beta.
  intros _ s3 (H3 & Hcert & E3).
  pose proof (cascaded_taken_down (lb_ID lb) (lb_row lb) s1 Hlb1) as [T1 T2 T3 T4].
  split; [by eapply razed_trans|by split; rewrite E3| |].
  2: { intros Hkm Hnever. apply Hcert; [done|]. rewrite E3 in Hnever |- *. simpl in Hnever. simpl.
       destruct Hfreed as [->|(i & f & _ & _ & _ & _ & ->)]; exact Hnever. }
  intros Hp i f Hf Hfp Hd. rewrite E3. unfold cascaded. simpl. rewrite lookup_fmap.
  destruct (s_fips s1 !! i) as [g|] eqn:Hg; [|done]. exfalso.
  assert (g = f) as ->.
  { destruct Hfreed as [->|(i' & f' & _ & _ & _ & _ & ->)]; [congruence|].
    simpl in Hg. apply lookup_delete_Some in Hg as [_ ?]. congruence. }
  by destruct (Hnone Hp Hone i f).
Qed.

Lemma tearDownByName_runs namespace name s :
  one_fip_per_port (s_fips s) → one_secret_per_id s →
  let lbname := lbName r namespace name in
  let D j := ∃ row, s_lbs s !! j = Some row ∧ lr_Name row = lbname in
  runs view s (tearDownByName r namespace name)
    (λ _ s', razed D (λ n, n = lbname) s s' ∧ certificates_gone lbname s s' ∧
       (∀ j row, D j → s_lbs s !! j = Some row → down_whole j row s s'))
    (λ _ s', razed D (λ n, n = lbname) s s').
Proof.
  intros Hone Hsec lbname D. unfold tearDownByName. fold lbname.
  eapply runs_try_bind; [by apply (GetLoadBalancerByName_runs view)| |]; cbv beta.
  - intros lb s' (-> & Hlb & Hname & Huniq). fold lbname in Huniq.
    assert (∀ s', razed (λ j, j = lb_ID lb) (λ n, n = lr_Name (lb_row lb)) s s' → razed D (λ n, n = lbname) s s') as HD.
    { intros s'. apply razed_mono; [intros j ->; by exists (lb_row lb)|intros n ->; done]. }
    rewrite <-Hname at 1.
    eapply runs_conseq; [by apply tearDown_ingress_runs| |]; cbv beta; [|by intros e s' H; apply HD].
    intros _ s' Hw. split; [by apply HD; destruct Hw|]. split; [rewrite <-Hname; by destruct Hw|].
    intros j row (row' & Hj & Hn) Hrow. by rewrite (Huniq j row' Hj Hn), Hlb in *; injection Hrow as <-.
  - intros e s' [-> Hnone]. case_decide as He; [|apply runs_fail, razed_refl].
    eapply runs_conseq; [by apply (cleanup_razed D (λ n, n = lbname) lbname)| |done]; cbv beta.
    intros _ s' (Hr & Hcert & _). split; [done|]. split; [done|].
    intros j row (row' & Hj & Hn) _. by destruct (Hnone He j row' Hj).
Qed.

(** *** The sweep *)
Variable own : Reconciler.

(** Whether a load balancer is one to take down. *)
Definition doomed (row : LBRow) : bool :=
  match ParseLBName (ig_Tenant r) (lr_Name row) with
  | None => false
  | Some (namespace, name) =>
      negb (serves own namespace) ||
      match ig_Ingresses r namespace name with Ok ing => negb (alive r ing) | Err e => IsNotFound e end
  end.

Lemma sweep_ingress_runs lb s :
  s_lbs s !! lb_ID lb = Some (lb_row lb) → one_fip_per_port (s_fips s) → one_secret_per_id s →
  runs view s (sweep_lb own r lb)
    (λ _ s', razed (λ j, j = lb_ID lb ∧ doomed (lb_row lb) = true)
               (λ n, n = lr_Name (lb_row lb) ∧ doomed (lb_row lb) = true) s s') (λ _ _, False).
Proof.
  intros Hlb Hone Hsec. unfold sweep_lb, doomed.
  destruct (ParseLBName _ _) as [[namespace name]|]; [|by apply runs_ret, razed_refl].
  assert (∀ b : bool, b = true → runs view s (try (tearDown r (lr_Name (lb_row lb)) lb) ≫= λ _, mret ())
    (λ _ s', razed (λ j, j = lb_ID lb ∧ b = true) (λ n, n = lr_Name (lb_row lb) ∧ b = true) s s') (λ _ _, False)) as Hdown.
  { intros b ->. eapply runs_try_bind; [by apply tearDown_ingress_runs| |]; cbv beta.
    - intros _ s' [Hr _]. apply runs_ret. eapply razed_mono; [..|exact Hr]; by intros j ->.
    - intros e s' Hr. apply runs_ret. eapply razed_mono; [..|exact Hr]; by intros j ->. }
  destruct (serves own namespace); simpl; [|by apply Hdown].
  destruct (ig_Ingresses r namespace name) as [ing|e].
  - destruct (alive r ing); simpl; [by apply runs_ret, razed_refl|by apply Hdown].
  - destruct (IsNotFound e); simpl; [by apply Hdown|by apply runs_ret, razed_refl].
Qed.

Definition to_raze (s : LBState) (j : string) : Prop := ∃ row, s_lbs s !! j = Some row ∧ doomed row = true.
Definition names_of (s : LBState) (D : string → Prop) (n : string) : Prop :=
  ∃ j row, D j ∧ s_lbs s !! j = Some row ∧ n = lr_Name row.

Lemma sweep_ingresses_runs s :
  one_fip_per_port (s_fips s) → one_secret_per_id s →
  runs view s (sweepOne own r)
    (λ _ s', razed (to_raze s) (names_of s (to_raze s)) s s' ∧
       (opt_or [] (ig_Namespaces r) = [] → s' = s)) (λ _ _, False).
Proof.
  intros Hone Hsec. unfold sweepOne.
  destruct (ig_Namespaces r) as [[|ns nss]|]; try (apply runs_ret; split; [apply razed_refl|done]).
  eapply runs_try_bind; [apply (law_lb_List s "")| |]; cbv beta.
  2: { intros e s' [-> _]. apply runs_ret. by split; [apply razed_refl|]. }
  intros all s' [-> Hall].
  set (seen pre j := j ∈ map lb_ID pre ∧ to_raze s j).
  eapply runs_conseq; [apply (runs_for_each view (λ pre s', razed (seen pre) (names_of s (to_raze s)) s s') all _ (λ _ _, False))| |];
    cbv beta; [apply razed_refl| | |done].
  - intros pre lb post s1 Heq Hr.
    assert (s_lbs s !! lb_ID lb = Some (lb_row lb)) as Hlb
      by (destruct (lists_elem _ _ _ _ _ lb Hall); [rewrite Heq; set_solver|done]).
    assert (s_lbs s1 !! lb_ID lb = Some (lb_row lb)) as Hlb1.
    { rewrite (rz_lbs _ _ _ _ Hr); [done|]. intros [Hin _]. destruct Hall as [Hnd _]. rewrite Heq, fmap_app in Hnd.
      apply NoDup_app in Hnd as (_ & Hd & _). apply (Hd _ Hin). simpl. by left. }
    eapply runs_conseq; [apply (sweep_ingress_runs lb s1 Hlb1); [by eapply razed_one_fip|by eapply razed_one_secret]| |done]; cbv beta.
    intros _ s2 Hr2. eapply razed_trans; [eapply razed_mono; [..|exact Hr]; [|done]|eapply razed_mono; [..|exact Hr2]].
    + intros j [Hj Hz]. split; [|done]. rewrite map_app. apply elem_of_app. by left.
    + intros j [-> Hd]. split; [rewrite map_app; apply elem_of_app; right; simpl; by left|]. by exists (lb_row lb).
    + intros n [-> Hd]. exists (lb_ID lb), (lb_row lb). split; [by exists (lb_row lb)|done].
  - intros _ s' Hr. split; [|done]. eapply razed_mono; [..|exact Hr]; [by intros j [_ ?]|done].
Qed.
End down_facts.

(** *** Names *)
Lemma ing_name r ns name :
  lbName r ns name = ("kubezun_" +:+ ig_Tenant r +:+ "_ing_") +:+ (ns +:+ String "_"%char name).
Proof. unfold lbName. by rewrite !string_app_assoc. Qed.

Lemma ParseLBName_spec r lb ns name :
  ParseLBName (ig_Tenant r) lb = Some (ns, name) ↔
  lb = lbName r ns name ∧ ns ≠ "" ∧ name ≠ "" ∧ no_char "_"%char ns = true.
Proof.
  unfold ParseLBName. split.
  - destruct (drop_prefix _ lb) as [rest|] eqn:Hd; [|done]. apply drop_prefix_Some in Hd as ->.
    destruct (cut rest "_") as [[ns' name']|] eqn:Hcut; [|done].
    apply cut_char_Some in Hcut as [-> Hno]. case_decide as Hne; [done|]. intros [= -> ->].
    rewrite ing_name. tauto.
  - intros (-> & Hns & Hname & Hno). rewrite ing_name, (proj2 (drop_prefix_Some _ _ _) eq_refl), cut_char_app by done.
    rewrite decide_False; [done|tauto].
Qed.

(** *** Keys *)
Lemma names_backend ing svc :
  existsb (λ b, bool_decide (br_Service b = svc)) (collectBackends ing).2 = true ↔
  ∃ b, b ∈ (collectBackends ing).2 ∧ br_Service b = svc.
Proof.
  rewrite existsb_exists. split; intros (b & Hb & H); exists b; [rewrite list_elem_of_In|rewrite <-list_elem_of_In];
    by rewrite bool_decide_eq_true in *.
Qed.

Lemma collected_named ing svc :
  (∀ b, b ∈ named_backends ing → no_char "|"%char (br_Service b) = true) →
  (∃ b, b ∈ (collectBackends ing).2 ∧ br_Service b = svc) ↔ (∃ b, b ∈ named_backends ing ∧ br_Service b = svc).
Proof.
  intros Hdns. pose proof (collectBackends_spec ing) as Hs. destruct (collectBackends ing) as [d all].
  destruct Hs as (_ & Hin & Hall & _). simpl. split; [intros (b & Hb & Hs); exists b; auto|].
  intros (b & Hb & Hs). destruct (proj1 (list_elem_of_fmap _ _ _) (Hall b Hb)) as (b' & Hk & Hb').
  exists b'. split; [done|]. unfold backend_key in Hk. change ("|" +:+ ?x) with (String "|"%char x) in Hk.
  apply sep_inj in Hk as [Hk _]; [congruence|by apply Hdns|by apply Hdns, Hin].
Qed.

(** ** Properties *)

(** C29 An Ingress that is gone, has left the class or is being deleted is taken
    down whole, and nothing else is.  A pass that succeeds has left nothing of a
    load balancer of its name -- itself, its listeners, its pools, an address on
    its port: one that was its own is deleted, another is taken off -- and no
    certificate mirrored for the name, where the key manager can be relied on to
    clear them.  After a success or a failure only load balancers of that name
    with what was on them, their port's addresses and bundles of that name may
    have changed -- an address that was not its own stays allocated, off the
    port -- and nothing is new.  A port has one address at most, and no two
    secrets have references that end in one id. *)
Theorem Ingress_gone {bundles : Bundles} {W} {api : Octavia W} {clock : Clock W} {api7 : OctaviaL7 W}
    {fips : FloatingIPs W} {ings : IngressesAPI W} {km : KeyManager W} {subnets : SubnetResolver W}
    (view : W → LBState) `{!OctaviaLaws api view} `{!FloatingLaws fips view} `{!KeyManagerLaws km view}
    (r : Reconciler) (namespace name : string) (s : LBState) :
  match ig_Ingresses r namespace name with
  | Ok ing => Ours r ing = false ∨ in_DeletionTimestamp ing ≠ None | Err _ => True end →
  one_fip_per_port (s_fips s) → one_secret_per_id s →
  let lbname := lbName r namespace name in
  let D j := ∃ row, s_lbs s !! j = Some row ∧ lr_Name row = lbname in
  runs view s (Reconcile r namespace name)
    (λ _ s', razed D (λ n, n = lbname) s s' ∧ certificates_gone view r lbname s s' ∧
       (∀ j row, D j → s_lbs s !! j = Some row → down_whole view r j row s s'))
    (λ _ s', razed D (λ n, n = lbname) s s').
Proof.
  intros Hgone Hone Hsec lbname D.
  assert (Reconcile r namespace name = tearDownByName r namespace name) as ->.
  { unfold Reconcile. destruct (ig_Ingresses r namespace name) as [ing|e]; [|done].
    destruct (Ours r ing); [|done]. simpl. rewrite decide_True; [done|].
    destruct Hgone as [?|Hd]; [done|]. by apply not_eq_None_Some. }
  by apply (tearDownByName_runs view).
Qed.

(** The sweep takes down only load balancers of this tenant's Ingress names
    whose namespace is not served, whose Ingress the cache says is not there, or
    whose Ingress is being deleted or has left the class; everything else it
    leaves, with what is on it -- a Service's, another tenant's, one whose
    Ingress could not be looked up -- and with no namespace known it does
    nothing.  A failure to delete stops nothing. *)
Theorem ingress_sweep_safe {W} {api : Octavia W} {fips : FloatingIPs W} {km : KeyManager W}
    (view : W → LBState) `{!OctaviaLaws api view} `{!FloatingLaws fips view} `{!KeyManagerLaws km view}
    (own r : Reconciler) (s : LBState) :
  one_fip_per_port (s_fips s) → one_secret_per_id s →
  let D j := ∃ row ns name, s_lbs s !! j = Some row ∧ lr_Name row = lbName r ns name ∧
    (serves own ns = false ∨ (∃ e, ig_Ingresses r ns name = Err e ∧ IsNotFound e = true) ∨
     (∃ ing, ig_Ingresses r ns name = Ok ing ∧ (Ours r ing = false ∨ in_DeletionTimestamp ing ≠ None))) in
  runs view s (sweepOne own r)
    (λ _ s', razed D (names_of s D) s s' ∧ (opt_or [] (ig_Namespaces r) = [] → s' = s)) (λ _ _, False).
Proof.
  intros Hone Hsec D. eapply runs_conseq; [by apply (sweep_ingresses_runs view)| |done]; cbv beta.
  intros _ s' [Hr Hnone]. split; [|done].
  assert (∀ j, to_raze r own s j → D j) as HD.
  { intros j (row & Hrow & Hd). unfold doomed in Hd.
    destruct (ParseLBName (ig_Tenant r) (lr_Name row)) as [[ns name]|] eqn:Hp; [|done].
    apply ParseLBName_spec in Hp as (Hname & _). exists row, ns, name. do 2 (split; [done|]).
    apply orb_true_iff in Hd as [Hs|Hs]; [left; by apply negb_true_iff in Hs|]. right.
    destruct (ig_Ingresses r ns name) as [ing|e]; [right|left; by exists e]. exists ing. split; [done|].
    unfold alive in Hs. apply negb_true_iff, andb_false_iff in Hs as [?|Hs]; [by left|right].
    by apply bool_decide_eq_false in Hs. }
  eapply razed_mono; [exact HD| |exact Hr]. intros n (j & row & Hj & Hrow & ->). exists j, row. auto.
Qed.

(** Names divide the load balancers of a tenant.  What parses as an Ingress's is
    exactly a name this controller derives, of a namespace without an underscore;
    the Service sweep takes no such name for its own, and no name a Service's
    load balancer is given is taken for an Ingress's. *)
Theorem names_divide (r : Reconciler) (svc : ServiceReconciler.Reconciler) (lb ns name : string) :
  ServiceReconciler.rc_Tenant svc = ig_Tenant r →
  (ParseLBName (ig_Tenant r) lb = Some (ns, name) ↔
     lb = lbName r ns name ∧ ns ≠ "" ∧ name ≠ "" ∧ no_char "_"%char ns = true) ∧
  (is_Some (ParseLBName (ig_Tenant r) lb) → parseLBName svc lb = None) ∧
  ∀ ns' name', no_char "_"%char ns' = true → no_char "_"%char name' = true →
    ParseLBName (ig_Tenant r) (ServiceReconciler.lbName svc ns' name') = None.
Proof.
  intros Ht. split; [apply ParseLBName_spec|]. split.
  - intros [[n m] Hp]. apply ParseLBName_spec in Hp as (-> & _).
    destruct (parseLBName svc _) as [[n' m']|] eqn:Hp; [|done].
    apply parseLBName_spec in Hp as (Hn & _ & _ & Hno & Hing). unfold lbName, ServiceReconciler.lbName in Hn.
    rewrite Ht in Hn. do 2 apply (inj (String.append _)) in Hn.
    change ("_ing_" +:+ n +:+ "_" +:+ m) with (String "_"%char ("ing" +:+ String "_"%char (n +:+ "_" +:+ m))) in Hn.
    change ("_" +:+ n' +:+ "_" +:+ m') with (String "_"%char (n' +:+ String "_"%char m')) in Hn.
    injection Hn as Hn. apply sep_inj in Hn as [Hn _]; [by destruct Hing|done..].
  - intros ns' name' H1 H2. destruct (ParseLBName _ _) as [[n m]|] eqn:Hp; [|done].
    apply ParseLBName_spec in Hp as (Hn & Hn0 & Hm0 & Hno). unfold lbName, ServiceReconciler.lbName in Hn.
    rewrite Ht in Hn. do 2 apply (inj (String.append _)) in Hn.
    change ("_ing_" +:+ n +:+ "_" +:+ m) with (String "_"%char ("ing" +:+ String "_"%char (n +:+ String "_"%char m))) in Hn.
    change ("_" +:+ ns' +:+ "_" +:+ name') with (String "_"%char (ns' +:+ String "_"%char name')) in Hn.
    injection Hn as Hn. apply sep_inj in Hn as [_ ->]; [|done..].
    rewrite no_char_app in H2. simpl in H2. by rewrite andb_false_r in H2.
Qed.

(** A change of endpoints reaches every Ingress behind it.  The keys a slice puts
    on the queue are those of the Ingresses of its namespace, of this
    controller's class, that name the slice's Service as a backend anywhere --
    each one of them, no others, and none where the namespace is not served --
    and a key is taken apart into the Ingress it was made for. *)
Theorem enqueueSlice_reaches (own : Reconciler) (ingresses_of : string → result (list Ingress))
    (slice : EndpointSlice) (ings : list Ingress) (svc : string) :
  es_Labels slice !! LabelServiceName = Some svc → svc ≠ "" → serves own (es_Namespace slice) = true →
  ingresses_of (es_Namespace slice) = Ok ings →
  (∀ ing b, ing ∈ ings → b ∈ named_backends ing → no_char "|"%char (br_Service b) = true) →
  (∀ key, key ∈ enqueueSlice own ingresses_of slice ↔
     ∃ ing, ing ∈ ings ∧ Ours own ing = true ∧ key = in_Namespace ing +:+ "/" +:+ in_Name ing ∧
       ∃ b, b ∈ named_backends ing ∧ br_Service b = svc) ∧
  ∀ ing, no_char "/"%char (in_Namespace ing) = true → no_char "/"%char (in_Name ing) = true →
    SplitMetaNamespaceKey (in_Namespace ing +:+ "/" +:+ in_Name ing) = Some (in_key ing).
Proof.
  intros Hl Hne Hs Hings Hdns. split.
  - intros key. unfold enqueueSlice. rewrite Hl. simpl. rewrite decide_False by done. rewrite Hs. simpl. rewrite Hings.
    rewrite list_elem_of_In, in_flat_map. setoid_rewrite <-list_elem_of_In. split.
    + intros (ing & Hin & Hk). destruct (_ && _) eqn:Hb; [|by apply elem_of_nil in Hk].
      apply andb_true_iff in Hb as [Hours Hb]. apply names_backend, collected_named in Hb; [|by intros b; apply Hdns].
      apply list_elem_of_singleton in Hk. by exists ing.
    + intros (ing & Hin & Hours & -> & Hb). exists ing. split; [done|].
      apply collected_named, names_backend in Hb; [|by intros b; apply Hdns]. rewrite Hours, Hb. simpl.
      by apply list_elem_of_singleton.
  - intros ing H1 H2. unfold SplitMetaNamespaceKey. change ("/" +:+ ?x) with (String "/"%char x).
    by rewrite split_char_app, split_char_none.
Qed.

(** A worker never builds for a namespace that is not served, and gives no key up
    whose pass failed. *)
Theorem ingress_worker_retries {bundles : Bundles} {W} {api : Octavia W} {clock : Clock W} {api7 : OctaviaL7 W}
    {fips : FloatingIPs W} {ings : IngressesAPI W} {km : KeyManager W} {subnets : SubnetResolver W}
    (own r : Reconciler) has_events (ns name : string) (w : W) :
  no_char "/"%char ns = true → no_char "/"%char name = true →
  reconcile own has_events (λ _, mret r) (ns +:+ "/" +:+ name) w =
    if serves own ns then
      let '(result, w') := Reconcile r ns name w in
      (Ok (match result with Ok _ => (Forgotten, None)
           | Err _ => (Requeued, recordFailure own has_events ns name) end), w')
    else (Ok (Forgotten, None), w).
Proof.
  intros H1 H2. unfold reconcile, SplitMetaNamespaceKey.
  change ("/" +:+ name) with (String "/"%char name).
  rewrite split_char_app, split_char_none by done. destruct (serves own ns); [|done].
  unfold mbind, M_bind, try. simpl. by destruct (Reconcile r ns name w) as [[[]|e] w'].
Qed.

(** ** Witnesses *)
Definition ex_ing_gone : Reconciler :=
  mkReconciler true (λ _ _, Err ErrK8sNotFound) (λ _ _, Err ErrK8sNotFound) (λ _, Ok []) ex_tls
    "vip-subnet" "public-net" "amphora" "knaas" "t1" (Some (λ _, true)) (Some ["prod"]).
Definition ex_ing_gone_state : LBState :=
  mkLBState {["lb-1" := ex_shop_lb]} ∅ ∅ ∅
    {["f1" := mkFIPRow "203.0.113.9" "public-net" "port-ing" "kubezun_t1_ing_prod_shop"]} ∅ ∅ ∅ ∅ ∅.

Lemma ex_ing_gone_fips : one_fip_per_port (s_fips ex_ing_gone_state).
Proof.
  intros i j f g Hi Hj _ _. simpl in Hi, Hj.
  apply lookup_singleton_Some in Hi as [<- _]. by apply lookup_singleton_Some in Hj as [<- _].
Qed.
Lemma ex_ing_gone_secrets : one_secret_per_id ex_ing_gone_state.
Proof. intros r1 r2 [x Hx]. simpl in Hx. by rewrite lookup_empty in Hx. Qed.

Definition ex_ing_down : result () * RefWorld :=
  @Reconcile RefBundles RefWorld RefOctavia RefClock RefOctaviaL7 RefFloating RefIngresses RefKeyManager RefSubnets
    ex_ing_gone "prod" "shop" (mkRef ex_ing_gone_state 0).

Lemma Ingress_gone_witness :
  ex_ing_down.1 = Ok () ∧ s_fips (rw_state ex_ing_down.2) !! "f1" = None ∧
  taken_down "lb-1" ex_shop_lb (rw_state ex_ing_down.2).
Proof.
  pose proof (@Ingress_gone RefBundles RefWorld RefOctavia RefClock RefOctaviaL7 RefFloating RefIngresses
    RefKeyManager RefSubnets rw_state RefOctavia_laws RefFloating_laws RefKeyManager_laws
    ex_ing_gone "prod" "shop" ex_ing_gone_state I ex_ing_gone_fips ex_ing_gone_secrets
    (mkRef ex_ing_gone_state 0) eq_refl) as H.
  fold ex_ing_down in H.
  assert (is_ok ex_ing_down.1 = true) as Hok by (vm_compute; reflexivity).
  assert (s_fips (rw_state ex_ing_down.2) !! "f1" = None) as Hf by (vm_compute; reflexivity).
  revert Hok H Hf. generalize ex_ing_down. intros [[[]|e] w] Hok H Hf; [|discriminate Hok].
  split; [reflexivity|]. split; [exact Hf|]. destruct H as (_ & _ & H).
  apply (dw_down _ _ _ _ _ _ (H "lb-1" ex_shop_lb (ex_intro _ ex_shop_lb (conj eq_refl eq_refl)) eq_refl)).
Defined.

Definition ex_ing_sweep : result () * RefWorld :=
  @sweepOne RefWorld RefOctavia RefFloating RefKeyManager ex_ing_gone ex_ing_gone (mkRef ex_ing_gone_state 0).

Lemma ingress_sweep_safe_witness :
  ex_ing_sweep.1 = Ok () ∧ s_lbs (rw_state ex_ing_sweep.2) = ∅ ∧
  (∀ i f, s_fips (rw_state ex_ing_sweep.2) !! i = Some f → is_Some (s_fips ex_ing_gone_state !! i)).
Proof.
  pose proof (@ingress_sweep_safe RefWorld RefOctavia RefFloating RefKeyManager rw_state
    RefOctavia_laws RefFloating_laws RefKeyManager_laws ex_ing_gone ex_ing_gone ex_ing_gone_state
    ex_ing_gone_fips ex_ing_gone_secrets (mkRef ex_ing_gone_state 0) eq_refl) as H.
  fold ex_ing_sweep in H.
  assert (s_lbs (rw_state ex_ing_sweep.2) = ∅) as He by (vm_compute; reflexivity).
  revert H He. generalize ex_ing_sweep. intros [[[]|e] w] H He; [|destruct H].
  split; [reflexivity|]. split; [exact He|]. destruct H as [Hr _]. exact (rz_fips_old _ _ _ _ Hr).
Defined.

Lemma names_divide_witness :
  ParseLBName "t1" "kubezun_t1_ing_prod_shop" = Some ("prod", "shop") ∧
  ParseLBName "t1" (ServiceReconciler.lbName ex_gone "ing" "shop") = None.
Proof.
  pose proof (names_divide ex_ing_gone ex_gone "kubezun_t1_ing_prod_shop" "prod" "shop" eq_refl) as (H1 & _ & H2).
  split; [apply H1; vm_compute; repeat split; discriminate|exact (H2 "ing" "shop" eq_refl eq_refl)].
Defined.

Lemma enqueueSlice_reaches_witness :
  enqueueSlice ex_ig (λ _, Ok [ex_shop]) (mkSlice "prod" {[LabelServiceName := "web"]} "IPv4" [] []) = ["prod/shop"] ∧
  ∀ key, key ∈ enqueueSlice ex_ig (λ _, Ok [ex_shop]) (mkSlice "prod" {[LabelServiceName := "web"]} "IPv4" [] []) ↔
    ∃ ing, ing ∈ [ex_shop] ∧ Ours ex_ig ing = true ∧ key = in_Namespace ing +:+ "/" +:+ in_Name ing ∧
      ∃ b, b ∈ named_backends ing ∧ br_Service b = "web".
Proof.
  split; [vm_compute; reflexivity|].
  apply (enqueueSlice_reaches ex_ig (λ _, Ok [ex_shop]) (mkSlice "prod" {[LabelServiceName := "web"]} "IPv4" [] [])
    [ex_shop] "web"); [reflexivity|discriminate|reflexivity|reflexivity|].
  intros ing b ->%list_elem_of_singleton Hb. by apply list_elem_of_singleton in Hb as ->.
Defined.
