(* ===== verification/Storage.v ===== *)
(** * Storage: what pkg/volume calls, and what is observed of it

    Quantities of the apimachinery library, Cinder volumes and Manila shares,
    the claims and volumes of the Kubernetes API, the capsules a volume is
    attached to and the events a tenant reads -- as classes of operations, with
    their laws over [StState], and a world that keeps the laws. *)

From S2P Require Import Prelude GoStd K8s.
From Stdlib Require Import Ascii.

Local Open Scope string_scope.
Local Open Scope list_scope.

(** ** Quantities (k8s.io/apimachinery/pkg/api/resource)

    [Value] answers an int64, rounded up; [==] on two of them is equality. *)
Class Quantities := {
  Quantity : Type;
  Quantity_eq_dec :: EqDecision Quantity;
  Value : Quantity → Z;
  NewQuantity : Z → Quantity;   (* binary SI *)
  zeroQuantity : Quantity;
  QCmp : Quantity → Quantity → comparison;
  QString : Quantity → string;
}.

(** What a quantity amounts to, in nano-units, the finest the library keeps. *)
Definition nano : Z := 1000000000.
Class QuantityLaws (Q : Quantities) := {
  amount : Quantity → Z;
  Value_amount q : (0 ≤ amount q ≤ (2 ^ 63 - 1) * nano)%Z → Value q = ((amount q + nano - 1) / nano)%Z;
  NewQuantity_amount n : (- 2 ^ 63 ≤ n < 2 ^ 63)%Z → amount (NewQuantity n) = (n * nano)%Z;
  zero_amount : amount zeroQuantity = 0%Z;
  QCmp_amount a b : QCmp a b = (amount a ?= amount b)%Z;
}.

(** A concrete one: nano-units themselves. *)
Definition NanoQuantities : Quantities := {|
  Quantity := Z;
  Value q := ((q + nano - 1) / nano)%Z;
  NewQuantity n := (n * nano)%Z;
  zeroQuantity := 0%Z;
  QCmp := Z.compare;
  QString q := pretty q |}.
Lemma NanoQuantities_laws : QuantityLaws NanoQuantities.
Proof. by refine {| amount := (λ q : Z, q) : @Quantity NanoQuantities → Z |}. Defined.

(** ** Cinder and Manila *)
Record VolumeRow := mkVolumeRow {
  vr_Name : string; vr_Size : Z;
  vr_Pending : option Z;   (* the size an accepted extend is working towards *)
  vr_InUse : bool;
  vr_VolumeType : string; vr_AvailabilityZone : string; vr_Description : string }.
Record CinderVolume := mkCinderVolume { vo_ID : string; vo_Status : string; vo_Size : Z }.
Record VolumeCreateOpts := mkVolumeCreate {
  vc_Name : string; vc_Size : Z; vc_VolumeType : string; vc_AvailabilityZone : string;
  vc_Description : string }.

Record ExportLocation := mkExport { el_Path : string; el_Preferred : bool; el_IsAdminOnly : bool }.
Record AccessRule := mkAccess { ar_ID : string; ar_AccessType : string; ar_AccessTo : string; ar_AccessLevel : string }.
Record ShareRow := mkShareRow {
  sr_Name : string; sr_Size : Z; sr_Pending : option Z;
  sr_ShareProto : string; sr_ShareType : string; sr_AvailabilityZone : string; sr_Description : string;
  sr_Exports : list ExportLocation; sr_Access : list AccessRule }.
Record Share := mkShare { so_ID : string; so_Status : string; so_Size : Z }.
Record ShareCreateOpts := mkShareCreate {
  shc_Name : string; shc_Size : Z; shc_ShareProto : string; shc_ShareType : string;
  shc_AvailabilityZone : string; shc_Description : string }.

Class Cinder (W : Type) := {
  volumes_Get : string → M W CinderVolume;
  volumes_Create : VolumeCreateOpts → M W CinderVolume;
  volumes_ExtendSize : string → string → Z → M W ();   (* microversion, the empty one the client's own *)
  volumes_Delete : string → M W ();
}.
Class Manila (W : Type) := {
  shares_Get : string → M W Share;
  shares_Create : ShareCreateOpts → M W Share;
  shares_Extend : string → Z → M W ();
  shares_Delete : string → M W ();
  shares_ListExportLocations : string → M W (list ExportLocation);
  shares_GrantAccess : string → AccessRule → M W ();
  shares_RevokeAccess : string → string → M W ();
  shareaccessrules_List : string → M W (list AccessRule);
}.

(** ** Claims and volumes *)
Definition ResourceStorage : string := "storage".

Section objects.
Context {Q : Quantities}.

Record Claim := mkClaim {
  cl_Namespace : string; cl_Name : string; cl_UID : string; cl_ResourceVersion : Z;
  cl_Annotations : gmap string string;
  cl_DeletionTimestamp : option Time;
  cl_StorageClassName : option string;
  cl_VolumeName : string;
  cl_AccessModes : list string;
  cl_Requests : gmap string Quantity;
  cl_Capacity : gmap string Quantity;               (* status from here on *)
  cl_AllocatedResources : gmap string Quantity;
  cl_AllocatedResourceStatuses : gmap string string }.
Definition cl_key (c : Claim) : string * string := (cl_Namespace c, cl_Name c).

Record ClaimReference := mkClaimRef {
  cr_Kind : string; cr_APIVersion : string; cr_Namespace : string; cr_Name : string; cr_UID : string }.
Record CSISource := mkCSI {
  csi_Driver : string; csi_VolumeHandle : string; csi_VolumeAttributes : gmap string string }.
Record NodeSelectorRequirement := mkRequirement { nr_Key : string; nr_Operator : string; nr_Values : list string }.
(** [NodeSelectorTerms]: alternatives, each of requirements that all hold. *)
Definition NodeAffinity : Type := list (list NodeSelectorRequirement).

Record PersistentVolume := mkPV {
  pv_Name : string; pv_ResourceVersion : Z;
  pv_Annotations : gmap string string;
  pv_AccessModes : list string;
  pv_Capacity : gmap string Quantity;
  pv_ReclaimPolicy : string;
  pv_StorageClassName : string;
  pv_ClaimRef : option ClaimReference;
  pv_CSI : option CSISource;
  pv_NodeAffinity : option NodeAffinity;
  pv_Phase : string }.                              (* status *)

Record StorageClass := mkStorageClass {
  scl_Name : string; scl_Provisioner : string; scl_Parameters : gmap string string;
  scl_VolumeBindingMode : option string }.

(** The claim [cur] with the status of [c], at version [rv]. *)
Definition status_of (c cur : Claim) (rv : Z) : Claim :=
  mkClaim (cl_Namespace cur) (cl_Name cur) (cl_UID cur) rv (cl_Annotations cur)
    (cl_DeletionTimestamp cur) (cl_StorageClassName cur) (cl_VolumeName cur) (cl_AccessModes cur)
    (cl_Requests cur) (cl_Capacity c) (cl_AllocatedResources c) (cl_AllocatedResourceStatuses c).
Definition with_capacity (m : gmap string Quantity) (c : Claim) : Claim :=
  mkClaim (cl_Namespace c) (cl_Name c) (cl_UID c) (cl_ResourceVersion c) (cl_Annotations c)
    (cl_DeletionTimestamp c) (cl_StorageClassName c) (cl_VolumeName c) (cl_AccessModes c)
    (cl_Requests c) m (cl_AllocatedResources c) (cl_AllocatedResourceStatuses c).
Definition with_allocated (m : gmap string Quantity) (c : Claim) : Claim :=
  mkClaim (cl_Namespace c) (cl_Name c) (cl_UID c) (cl_ResourceVersion c) (cl_Annotations c)
    (cl_DeletionTimestamp c) (cl_StorageClassName c) (cl_VolumeName c) (cl_AccessModes c)
    (cl_Requests c) (cl_Capacity c) m (cl_AllocatedResourceStatuses c).
Definition with_statuses (m : gmap string string) (c : Claim) : Claim :=
  mkClaim (cl_Namespace c) (cl_Name c) (cl_UID c) (cl_ResourceVersion c) (cl_Annotations c)
    (cl_DeletionTimestamp c) (cl_StorageClassName c) (cl_VolumeName c) (cl_AccessModes c)
    (cl_Requests c) (cl_Capacity c) (cl_AllocatedResources c) m.

Definition pv_written (rv : Z) (phase : string) (pv : PersistentVolume) : PersistentVolume :=
  mkPV (pv_Name pv) rv (pv_Annotations pv) (pv_AccessModes pv) (pv_Capacity pv)
    (pv_ReclaimPolicy pv) (pv_StorageClassName pv) (pv_ClaimRef pv) (pv_CSI pv) (pv_NodeAffinity pv) phase.
Definition with_pv_capacity (m : gmap string Quantity) (pv : PersistentVolume) : PersistentVolume :=
  mkPV (pv_Name pv) (pv_ResourceVersion pv) (pv_Annotations pv) (pv_AccessModes pv) m
    (pv_ReclaimPolicy pv) (pv_StorageClassName pv) (pv_ClaimRef pv) (pv_CSI pv) (pv_NodeAffinity pv) (pv_Phase pv).

Class ClaimsAPI (W : Type) := {
  claims_Get : string → string → M W Claim;
  claims_UpdateStatus : Claim → M W Claim;
}.
Class VolumesAPI (W : Type) := {
  pvs_Get : string → M W PersistentVolume;
  pvs_Create : PersistentVolume → M W PersistentVolume;
  pvs_Update : PersistentVolume → M W PersistentVolume;
  pvs_Delete : string → M W ();
}.

(** ** What is observed *)
Record Event := mkEvent { ev_claim : string * string; ev_reason : string; ev_message : string }.
Record StState := mkStState {
  st_volumes : gmap string VolumeRow;
  st_shares : gmap string ShareRow;
  st_claims : gmap (string * string) Claim;
  st_pvs : gmap string PersistentVolume;
  st_grown : gmap (string * string) Z;   (* the filesystem of a capsule's volume, in GiB *)
  st_events : list Event }.
Definition set_volumes f (s : StState) := mkStState (f (st_volumes s)) (st_shares s) (st_claims s) (st_pvs s) (st_grown s) (st_events s).
Definition set_shares f (s : StState) := mkStState (st_volumes s) (f (st_shares s)) (st_claims s) (st_pvs s) (st_grown s) (st_events s).
Definition set_claims f (s : StState) := mkStState (st_volumes s) (st_shares s) (f (st_claims s)) (st_pvs s) (st_grown s) (st_events s).
Definition set_pvs f (s : StState) := mkStState (st_volumes s) (st_shares s) (st_claims s) (f (st_pvs s)) (st_grown s) (st_events s).
Definition set_grown f (s : StState) := mkStState (st_volumes s) (st_shares s) (st_claims s) (st_pvs s) (f (st_grown s)) (st_events s).
Definition set_events f (s : StState) := mkStState (st_volumes s) (st_shares s) (st_claims s) (st_pvs s) (st_grown s) (f (st_events s)).
End objects.

(** Growing the filesystem of a volume attached to a capsule, by the capsule's
    name; and the events of a claim. *)
Class CapsuleVolumes (W : Type) := { http_ExtendVolume : string → string → Z → M W () }.
Class EventRecorder (W : Type) := { Eventf : string * string → string → string → M W () }.

(** ** Laws *)
Section laws.
Context {Q : Quantities} {W : Type}.
Implicit Types s : StState (Q:=Q).

Definition volume_resized (size : Z) (pending : option Z) (r : VolumeRow) : VolumeRow :=
  mkVolumeRow (vr_Name r) size pending (vr_InUse r) (vr_VolumeType r) (vr_AvailabilityZone r) (vr_Description r).
Definition share_resized (size : Z) (pending : option Z) (r : ShareRow) : ShareRow :=
  mkShareRow (sr_Name r) size pending (sr_ShareProto r) (sr_ShareType r) (sr_AvailabilityZone r)
    (sr_Description r) (sr_Exports r) (sr_Access r).
Definition with_access (l : list AccessRule) (r : ShareRow) : ShareRow :=
  mkShareRow (sr_Name r) (sr_Size r) (sr_Pending r) (sr_ShareProto r) (sr_ShareType r) (sr_AvailabilityZone r)
    (sr_Description r) (sr_Exports r) l.

(** An extend that was accepted ends while it is looked at: at the size it
    worked towards or at the old one. *)
Definition volume_settles (id : string) s s' : Prop :=
  s' = s ∨ ∃ row n size, st_volumes s !! id = Some row ∧ vr_Pending row = Some n ∧
    (size = n ∨ size = vr_Size row) ∧ s' = set_volumes <[id := volume_resized size None row]> s.
Definition share_settles (id : string) s s' : Prop :=
  s' = s ∨ ∃ row n size, st_shares s !! id = Some row ∧ sr_Pending row = Some n ∧
    (size = n ∨ size = sr_Size row) ∧ s' = set_shares <[id := share_resized size None row]> s.

Definition volume_created (o : VolumeCreateOpts) (v : CinderVolume) s s' : Prop :=
  st_volumes s !! vo_ID v = None ∧ vo_ID v ≠ "" ∧ (vc_Size o ≤ vo_Size v)%Z ∧
  s' = set_volumes <[vo_ID v := mkVolumeRow (vc_Name o) (vo_Size v) None false (vc_VolumeType o)
         (vc_AvailabilityZone o) (vc_Description o)]> s.
Definition share_created (o : ShareCreateOpts) (v : Share) s s' : Prop :=
  st_shares s !! so_ID v = None ∧ so_ID v ≠ "" ∧ (shc_Size o ≤ so_Size v)%Z ∧
  ∃ exports, s' = set_shares <[so_ID v := mkShareRow (shc_Name o) (so_Size v) None (shc_ShareProto o)
         (shc_ShareType o) (shc_AvailabilityZone o) (shc_Description o) exports []]> s.
Definition volume_extending (mv id : string) (n : Z) s s' : Prop :=
  ∃ row, st_volumes s !! id = Some row ∧ (vr_InUse row = true → mv = "3.42") ∧
    s' = set_volumes <[id := volume_resized (vr_Size row) (Some n) row]> s.
Definition share_extending (id : string) (n : Z) s s' : Prop :=
  ∃ row, st_shares s !! id = Some row ∧
    s' = set_shares <[id := share_resized (sr_Size row) (Some n) row]> s.

Class CinderLaws (api : Cinder W) (view : W → StState) := {
  law_volumes_Get s id : runs view s (volumes_Get id)
    (λ v s', volume_settles id s s' ∧ vo_ID v = id ∧ ∃ row, st_volumes s' !! id = Some row ∧
       vo_Size v = vr_Size row ∧ (vo_Status v ≠ "extending" → vr_Pending row = None))
    (λ _ s', s' = s);
  law_volumes_Create s o : runs view s (volumes_Create o)
    (λ v s', volume_created o v s s') (λ _ s', maybe s (λ s', ∃ v, volume_created o v s s') s');
  law_volumes_Extend s mv id n : runs view s (volumes_ExtendSize mv id n)
    (λ _ s', volume_extending mv id n s s') (λ _ s', maybe s (volume_extending mv id n s) s');
  law_volumes_Delete s id : runs view s (volumes_Delete id)
    (λ _ s', s' = set_volumes (delete id) s)
    (λ e s', maybe s (λ s', s' = set_volumes (delete id) s) s' ∧
       (ResponseCodeIs e 404 = true → s' = s ∧ st_volumes s !! id = None));
}.

Class ManilaLaws (api : Manila W) (view : W → StState) := {
  law_shares_Get s id : runs view s (shares_Get id)
    (λ v s', share_settles id s s' ∧ so_ID v = id ∧ ∃ row, st_shares s' !! id = Some row ∧
       so_Size v = sr_Size row ∧ (so_Status v ≠ "extending" → sr_Pending row = None))
    (λ _ s', s' = s);
  law_shares_Create s o : runs view s (shares_Create o)
    (λ v s', share_created o v s s') (λ _ s', maybe s (λ s', ∃ v, share_created o v s s') s');
  law_shares_Extend s id n : runs view s (shares_Extend id n)
    (λ _ s', share_extending id n s s') (λ _ s', maybe s (share_extending id n s) s');
  law_shares_Delete s id : runs view s (shares_Delete id)
    (λ _ s', s' = set_shares (delete id) s)
    (λ e s', maybe s (λ s', s' = set_shares (delete id) s) s' ∧
       (ResponseCodeIs e 404 = true → s' = s ∧ st_shares s !! id = None));
  (* not there before the share is available *)
  law_exports s id : runs view s (shares_ListExportLocations id)
    (λ l s', s' = s ∧ (l = [] ∨ ∃ row, st_shares s !! id = Some row ∧ l = sr_Exports row))
    (λ _ s', s' = s);
  law_access_List s id : runs view s (shareaccessrules_List id)
    (λ l s', s' = s ∧ ∃ row, st_shares s !! id = Some row ∧ l = sr_Access row) (λ _ s', s' = s);
  (* a rule for an address that has one is refused, and says so *)
  law_Grant s id r : runs view s (shares_GrantAccess id r)
    (λ _ s', ∃ row i, st_shares s !! id = Some row ∧ (i ∉ map ar_ID (sr_Access row)) ∧
       s' = set_shares <[id := with_access (sr_Access row ++
              [mkAccess i (ar_AccessType r) (ar_AccessTo r) (ar_AccessLevel r)]) row]> s)
    (λ e s', s' = s ∧ (ResponseCodeIs e 400 = true → contains (to_lower (error_string e)) "exist" = true →
       ∃ row a, st_shares s !! id = Some row ∧ a ∈ sr_Access row ∧ ar_AccessTo a = ar_AccessTo r));
  law_Revoke s id i : runs view s (shares_RevokeAccess id i)
    (λ _ s', ∃ row, st_shares s !! id = Some row ∧
       s' = set_shares <[id := with_access (filter (λ a, ar_ID a ≠ i) (sr_Access row)) row]> s)
    (λ _ s', s' = s);
}.

Definition status_updated (c fresh : Claim) s s' : Prop :=
  ∃ cur rv, st_claims s !! cl_key c = Some cur ∧ cl_ResourceVersion c = cl_ResourceVersion cur ∧
    fresh = status_of c cur rv ∧ s' = set_claims <[cl_key c := fresh]> s.
Class ClaimsLaws (api : ClaimsAPI W) (view : W → StState) := {
  law_claims_Get s ns name : runs view s (claims_Get ns name)
    (λ c s', s' = s ∧ st_claims s !! (ns, name) = Some c ∧ cl_key c = (ns, name)) (λ _ s', s' = s);
  law_claims_UpdateStatus s c : runs view s (claims_UpdateStatus c)
    (λ fresh s', status_updated c fresh s s') (λ _ s', maybe s (λ s', ∃ fresh, status_updated c fresh s s') s');
}.

Definition pv_created (pv fresh : PersistentVolume) s s' : Prop :=
  st_pvs s !! pv_Name pv = None ∧ (∃ rv phase, fresh = pv_written rv phase pv) ∧
  s' = set_pvs <[pv_Name pv := fresh]> s.
Definition pv_updated (pv fresh : PersistentVolume) s s' : Prop :=
  ∃ cur rv, st_pvs s !! pv_Name pv = Some cur ∧ pv_ResourceVersion pv = pv_ResourceVersion cur ∧
    fresh = pv_written rv (pv_Phase cur) pv ∧ s' = set_pvs <[pv_Name pv := fresh]> s.
Class VolumesLaws (api : VolumesAPI W) (view : W → StState) := {
  law_pvs_Get s name : runs view s (pvs_Get name)
    (λ pv s', s' = s ∧ st_pvs s !! name = Some pv ∧ pv_Name pv = name) (λ _ s', s' = s);
  law_pvs_Create s pv : runs view s (pvs_Create pv)
    (λ fresh s', pv_created pv fresh s s')
    (λ e s', maybe s (λ s', ∃ fresh, pv_created pv fresh s s') s' ∧
       (root_cause e = ErrK8sAlreadyExists → s' = s ∧ is_Some (st_pvs s !! pv_Name pv)));
  law_pvs_Update s pv : runs view s (pvs_Update pv)
    (λ fresh s', pv_updated pv fresh s s') (λ _ s', maybe s (λ s', ∃ fresh, pv_updated pv fresh s s') s');
  law_pvs_Delete s name : runs view s (pvs_Delete name)
    (λ _ s', s' = set_pvs (delete name) s)
    (λ _ s', maybe s (λ s', s' = set_pvs (delete name) s) s');
}.

Class CapsuleVolumesLaws (api : CapsuleVolumes W) (view : W → StState) := {
  law_ExtendVolume s capsule volume n : runs view s (http_ExtendVolume capsule volume n)
    (λ _ s', s' = set_grown <[(capsule, volume) := n]> s)
    (λ _ s', maybe s (λ s', s' = set_grown <[(capsule, volume) := n]> s) s');
}.
Class EventLaws (api : EventRecorder W) (view : W → StState) := {
  law_Eventf s key reason message : runs view s (Eventf key reason message)
    (λ _ s', s' = set_events (λ l, l ++ [mkEvent key reason message]) s) (λ _ _, False);
}.

(** Time only goes forward, and sleeping takes at least what was asked. *)
Class StorageClockLaws (c : Clock W) (api : Cinder W) (api' : Manila W) (view : W → StState) := {
  law_storage_sleep s d : runs view s (sleep d) (λ _ s', s' = s) (λ _ s', s' = s);
  law_storage_sleep_long d w : match sleep d w with (Ok _, w') => (now w + d ≤ now w')%Z | _ => True end;
  law_volumes_forward id w : (now w ≤ now (volumes_Get id w).2)%Z;
  law_shares_forward id w : (now w ≤ now (shares_Get id w).2)%Z;
}.
End laws.

(** ** Services that keep the laws *)
Section reference.
Context {Q : Quantities}.
Abbreviation World := (Ref (StState (Q:=Q))).
Definition missing : gerror := ErrResponse 404 "itemNotFound".

Definition unused_in {A} (m : gmap string A) : string := fresh_id ({[""]} ∪ dom m).
Definition unused_rule (l : list AccessRule) : string := fresh_id (list_to_set (map ar_ID l)).

(** An extend that was accepted is done when it is next looked at, which still
    reads [extending]. *)
Definition RefCinder : Cinder World := {|
  volumes_Get id := ref_write (λ s, match st_volumes s !! id with
    | None => Err missing
    | Some row => match vr_Pending row with
        | Some n => Ok (mkCinderVolume id "extending" n, set_volumes <[id := volume_resized n None row]> s)
        | None => Ok (mkCinderVolume id (if vr_InUse row then "in-use" else "available") (vr_Size row), s)
        end
    end);
  volumes_Create o := ref_write (λ s,
    let v := mkCinderVolume (unused_in (st_volumes s)) "creating" (vc_Size o) in
    Ok (v, set_volumes <[vo_ID v := mkVolumeRow (vc_Name o) (vo_Size v) None false (vc_VolumeType o)
             (vc_AvailabilityZone o) (vc_Description o)]> s));
  volumes_ExtendSize mv id n := ref_write (λ s, match st_volumes s !! id with
    | None => Err missing
    | Some row => if vr_InUse row && negb (bool_decide (mv = "3.42")) then
        Err (ErrResponse 400 "status must be available to extend")
      else Ok ((), set_volumes <[id := volume_resized (vr_Size row) (Some n) row]> s)
    end);
  volumes_Delete id := ref_write (λ s, match st_volumes s !! id with
    | None => Err missing | Some _ => Ok ((), set_volumes (delete id) s) end) |}.

Definition RefManila : Manila World := {|
  shares_Get id := ref_write (λ s, match st_shares s !! id with
    | None => Err missing
    | Some row => match sr_Pending row with
        | Some n => Ok (mkShare id "extending" n, set_shares <[id := share_resized n None row]> s)
        | None => Ok (mkShare id "available" (sr_Size row), s)
        end
    end);
  shares_Create o := ref_write (λ s,
    let v := mkShare (unused_in (st_shares s)) "creating" (shc_Size o) in
    Ok (v, set_shares <[so_ID v := mkShareRow (shc_Name o) (so_Size v) None (shc_ShareProto o)
             (shc_ShareType o) (shc_AvailabilityZone o) (shc_Description o)
             [mkExport "10.0.0.9:/admin" false true; mkExport "10.0.0.9:/share" false false] []]> s));
  shares_Extend id n := ref_write (λ s, match st_shares s !! id with
    | None => Err missing
    | Some row => Ok ((), set_shares <[id := share_resized (sr_Size row) (Some n) row]> s) end);
  shares_Delete id := ref_write (λ s, match st_shares s !! id with
    | None => Err missing | Some _ => Ok ((), set_shares (delete id) s) end);
  shares_ListExportLocations id := ref_read (λ s, match st_shares s !! id with
    | None => Err missing | Some row => Ok (sr_Exports row) end);
  shares_GrantAccess id r := ref_write (λ s, match st_shares s !! id with
    | None => Err missing
    | Some row =>
        if bool_decide (ar_AccessTo r ∈ map ar_AccessTo (sr_Access row)) then
          Err (ErrResponse 400 "Share access exists")
        else Ok ((), set_shares <[id := with_access (sr_Access row ++
               [mkAccess (unused_rule (sr_Access row)) (ar_AccessType r) (ar_AccessTo r) (ar_AccessLevel r)]) row]> s)
    end);
  shares_RevokeAccess id i := ref_write (λ s, match st_shares s !! id with
    | None => Err missing
    | Some row => Ok ((), set_shares <[id := with_access (filter (λ a, ar_ID a ≠ i) (sr_Access row)) row]> s) end);
  shareaccessrules_List id := ref_read (λ s, match st_shares s !! id with
    | None => Err missing | Some row => Ok (sr_Access row) end) |}.

Definition conflict : gerror := ErrResponse 409 "the object has been modified".
Definition RefClaims : ClaimsAPI World := {|
  claims_Get ns name := ref_read (λ s, match st_claims s !! (ns, name) with
    | Some c => if decide (cl_key c = (ns, name)) then Ok c else Err ErrK8sNotFound
    | None => Err ErrK8sNotFound end);
  claims_UpdateStatus c := ref_write (λ s, match st_claims s !! cl_key c with
    | None => Err ErrK8sNotFound
    | Some cur => if decide (cl_ResourceVersion c = cl_ResourceVersion cur) then
        let fresh := status_of c cur (cl_ResourceVersion cur + 1) in
        Ok (fresh, set_claims <[cl_key c := fresh]> s)
      else Err conflict
    end) |}.
Definition RefVolumes : VolumesAPI World := {|
  pvs_Get name := ref_read (λ s, match st_pvs s !! name with
    | Some pv => if decide (pv_Name pv = name) then Ok pv else Err ErrK8sNotFound
    | None => Err ErrK8sNotFound end);
  pvs_Create pv := ref_write (λ s, match st_pvs s !! pv_Name pv with
    | Some _ => Err ErrK8sAlreadyExists
    | None => let fresh := pv_written 1 "Pending" pv in Ok (fresh, set_pvs <[pv_Name pv := fresh]> s) end);
  pvs_Update pv := ref_write (λ s, match st_pvs s !! pv_Name pv with
    | None => Err ErrK8sNotFound
    | Some cur => if decide (pv_ResourceVersion pv = pv_ResourceVersion cur) then
        let fresh := pv_written (pv_ResourceVersion cur + 1) (pv_Phase cur) pv in
        Ok (fresh, set_pvs <[pv_Name pv := fresh]> s)
      else Err conflict
    end);
  pvs_Delete name := ref_write (λ s, match st_pvs s !! name with
    | None => Err ErrK8sNotFound | Some _ => Ok ((), set_pvs (delete name) s) end) |}.
Definition RefCapsuleVolumes : CapsuleVolumes World := {|
  http_ExtendVolume capsule volume n := ref_write (λ s, Ok ((), set_grown <[(capsule, volume) := n]> s)) |}.
Definition RefEvents : EventRecorder World := {|
  Eventf key reason message := ref_write (λ s, Ok ((), set_events (λ l, l ++ [mkEvent key reason message]) s)) |}.

(** *** They keep them *)
Lemma unused_in_spec {A} (m : gmap string A) : m !! unused_in m = None ∧ unused_in m ≠ "".
Proof.
  pose proof (fresh_id_spec ({[""]} ∪ dom m)) as H. fold (unused_in m) in H.
  rewrite not_elem_of_union, not_elem_of_singleton, not_elem_of_dom in H. by destruct H.
Qed.

Lemma RefCinder_laws : CinderLaws RefCinder (rw_state (S:=StState)).
Proof.
  split; intros s.
  - intros id. apply ref_write_runs. destruct (st_volumes s !! id) as [row|] eqn:Hi; [|done].
    destruct (vr_Pending row) as [n|] eqn:Hp.
    + split; [right; exists row, n, n; auto|]. split; [done|]. eexists. simpl. rewrite lookup_insert_eq.
      by repeat split.
    + split; [by left|]. split; [done|]. by exists row.
  - intros o. apply ref_write_runs. destruct (unused_in_spec (st_volumes s)). repeat split; simpl; auto; lia.
  - intros mv id n. apply ref_write_runs. destruct (st_volumes s !! id) as [row|] eqn:Hi; [|by left].
    destruct (_ && _) eqn:Hb; [by left|]. exists row.
    split; [done|]. split; [|done]. intros Hu. rewrite Hu in Hb. simpl in Hb.
    by apply negb_false_iff, bool_decide_eq_true in Hb.
  - intros id. apply ref_write_runs. destruct (st_volumes s !! id) eqn:Hi; [done|]. split; [by left|done].
Qed.

Lemma RefManila_laws : ManilaLaws RefManila (rw_state (S:=StState)).
Proof.
  split; intros s.
  - intros id. apply ref_write_runs. destruct (st_shares s !! id) as [row|] eqn:Hi; [|done].
    destruct (sr_Pending row) as [n|] eqn:Hp.
    + split; [right; exists row, n, n; auto|]. split; [done|]. eexists. simpl. rewrite lookup_insert_eq.
      by repeat split.
    + split; [by left|]. split; [done|]. by exists row.
  - intros o. apply ref_write_runs. destruct (unused_in_spec (st_shares s)).
    repeat split; simpl; auto; [lia|]. by eexists.
  - intros id n. apply ref_write_runs. destruct (st_shares s !! id) as [row|] eqn:Hi; [|by left]. by exists row.
  - intros id. apply ref_write_runs. destruct (st_shares s !! id) eqn:Hi; [done|]. split; [by left|done].
  - intros id. apply ref_read_runs. destruct (st_shares s !! id) as [row|] eqn:Hi; [|done].
    split; [done|]. right. by exists row.
  - intros id. apply ref_read_runs. destruct (st_shares s !! id) as [row|] eqn:Hi; [|done].
    split; [done|]. by exists row.
  - intros id r. apply ref_write_runs. destruct (st_shares s !! id) as [row|] eqn:Hi; [|done].
    case_bool_decide as Hin.
    + split; [done|]. intros _ _. apply list_elem_of_fmap in Hin as (a & Ha & Hin). by exists row, a.
    + exists row, (unused_rule (sr_Access row)). split; [done|]. split; [|done].
      pose proof (fresh_id_spec (list_to_set (map ar_ID (sr_Access row)))) as H.
      by rewrite elem_of_list_to_set in H.
  - intros id i. apply ref_write_runs. destruct (st_shares s !! id) as [row|] eqn:Hi; [|done]. by exists row.
Qed.

Lemma RefClaims_laws : ClaimsLaws RefClaims (rw_state (S:=StState)).
Proof.
  split; intros s.
  - intros ns name. apply ref_read_runs. destruct (st_claims s !! (ns, name)) as [c|] eqn:Hc; [|done].
    by case_decide.
  - intros c. apply ref_write_runs. destruct (st_claims s !! cl_key c) as [cur|] eqn:Hc; [|by left].
    case_decide; [|by left]. by eexists cur, _.
Qed.

Lemma RefVolumes_laws : VolumesLaws RefVolumes (rw_state (S:=StState)).
Proof.
  split; intros s.
  - intros name. apply ref_read_runs. destruct (st_pvs s !! name) as [pv|] eqn:Hp; [|done]. by case_decide.
  - intros pv. apply ref_write_runs. destruct (st_pvs s !! pv_Name pv) as [cur|] eqn:Hp.
    + split; [by left|]. intros _. by split; [|eexists].
    + split; [done|]. split; [by eexists _, _|done].
  - intros pv. apply ref_write_runs. destruct (st_pvs s !! pv_Name pv) as [cur|] eqn:Hp; [|by left].
    case_decide; [|by left]. by eexists cur, _.
  - intros name. apply ref_write_runs. destruct (st_pvs s !! name) as [cur|] eqn:Hp; [done|by left].
Qed.

Lemma RefCapsuleVolumes_laws : CapsuleVolumesLaws RefCapsuleVolumes (rw_state (S:=StState)).
Proof. split. intros s c v n. by apply ref_write_runs. Qed.
Lemma RefEvents_laws : EventLaws RefEvents (rw_state (S:=StState)).
Proof. split. intros s k r m. by apply ref_write_runs. Qed.

Lemma RefStorageClock_laws : StorageClockLaws RefClockOf RefCinder RefManila (rw_state (S:=StState)).
Proof.
  split.
  - by intros s d w <-.
  - intros d w. simpl. lia.
  - intros id w. simpl. unfold ref_write. by repeat case_match; simplify_eq/=.
  - intros id w. simpl. unfold ref_write. by repeat case_match; simplify_eq/=.
Qed.
End reference.
