(* ===== verification/VolumeBackend.v ===== *)
(** * pkg/volume/backend.go and expand.go: the storage behind a claim

    Creating, finding, sharing and removing a Cinder volume or a Manila share,
    and growing one: an extend is asked for, waited on, and only the size that
    is read back is believed. *)

From S2P Require Import Prelude GoStd K8s Storage.
From Stdlib Require Import Ascii.

Local Open Scope string_scope.
Local Open Scope list_scope.

(** ** The code *)
Definition Kind : Type := string.
Definition Block : Kind := "cinder".
Definition Shared : Kind := "manila".
Definition BlockDriver : string := "cinder.knaas.io".
Definition SharedDriver : string := "manila.knaas.io".

(** The clients are there or not; calls made of them are the interfaces'. *)
Record Backend := mkBackend {
  be_Block : bool;
  be_Shared : bool;
  be_ShareType : string;
  be_ShareProto : string;
  be_VolumeType : string;
  be_AvailabilityZone : string }.

Record Provisioned := mkProvisioned { pr_Kind : Kind; pr_ID : string; pr_GiB : Z }.

Definition extendSettle : Z := 2 * minute.
Definition extendPoll : Z := 3 * second.
Definition no_block : gerror := ErrMsg "this deployment has no block storage endpoint".
Definition unknown_kind (kind : Kind) : gerror := ErrMsg ("unknown storage kind " +:+ go_quote kind).
(** One poll every [extendPoll] before the deadline, and the look at the clock
    that ends it. *)
Definition extend_polls : nat := 40.
Definition out_of_polls : gerror := ErrMsg "out of fuel".

Definition isAlreadyGranted (e : gerror) : bool :=
  ResponseCodeIs e 400 && contains (to_lower (error_string e)) "exist".

Section backend.
Context {W : Type} {cinder : Cinder W} {manila : Manila W} {clock : Clock W}.
Variable b : Backend.

Definition Backend_Create (name : string) (kind : Kind) (gib : Z) (description storageType az : string)
    : M W Provisioned :=
  let az := if decide (az = "") then be_AvailabilityZone b else az in
  let gib := if (gib <? 1)%Z then 1%Z else gib in
  if decide (kind = Block) then
    if negb (be_Block b) then fail no_block
    else
      let vtype := if decide (storageType = "") then be_VolumeType b else storageType in
      v ← wrap ("creating a " +:+ pretty gib +:+ "GiB volume")
            (volumes_Create (mkVolumeCreate name gib vtype az description));
      mret (mkProvisioned Block (vo_ID v) (vo_Size v))
  else if decide (kind = Shared) then
    if negb (be_Shared b) then
      fail (ErrMsg "this deployment has no shared filesystem endpoint; ReadWriteMany needs one")
    else
      let proto := if decide (be_ShareProto b = "") then "NFS" else be_ShareProto b in
      let stype := if decide (storageType = "") then be_ShareType b else storageType in
      s ← wrap ("creating a " +:+ pretty gib +:+ "GiB share")
            (shares_Create (mkShareCreate name gib proto stype az description));
      mret (mkProvisioned Shared (so_ID s) (so_Size s))
  else fail (unknown_kind kind).

Definition choose_export (l : list ExportLocation) : string :=
  match find (λ e, negb (el_IsAdminOnly e) && el_Preferred e) l with
  | Some e => el_Path e
  | None => match find (λ e, negb (el_IsAdminOnly e)) l with
      | Some e => el_Path e
      | None => "" end
  end.
Definition ExportOf (shareID : string) : M W string :=
  l ← shares_ListExportLocations shareID; mret (choose_export l).

Definition Grant (shareID client : string) : M W () :=
  wrap ("granting " +:+ client +:+ " access to share " +:+ shareID)
    (ignoring isAlreadyGranted (shares_GrantAccess shareID (mkAccess "" "ip" client "rw"))).

Definition revoke_rule (shareID client : string) (r : AccessRule) : M W () :=
  if decide (ar_AccessTo r = client) then shares_RevokeAccess shareID (ar_ID r) else mret ().
Definition Revoke (shareID client : string) : M W () :=
  rules ← shareaccessrules_List shareID;
  for_each rules (revoke_rule shareID client).

Definition Backend_Delete (kind : Kind) (id : string) : M W () :=
  if decide (kind = Block) then ignoring (λ e, ResponseCodeIs e 404) (volumes_Delete id)
  else if decide (kind = Shared) then ignoring (λ e, ResponseCodeIs e 404) (shares_Delete id)
  else mret ().

(** *** expand.go

    The wait of both kinds: [get] reads a status and a size, [broken] is the
    status that says the extend failed, and [None] is that [fuel] polls were
    not enough. *)
Fixpoint await_loop (get : M W (string * Z)) (broken what : string) (want : Z) (fuel : nat) (deadline : Z)
    : M W (option Z) :=
  match fuel with
  | O => mret None
  | S fuel =>
      t ← time_now;
      if negb (t <? deadline)%Z then
        fail (ErrMsg (what +:+ " was still extending after 2m0s"))
      else
        v ← get;
        if decide (v.1 = "extending") then
          sleep extendPoll ≫= λ _, await_loop get broken what want fuel deadline
        else if decide (v.1 = broken) then
          fail (ErrMsg (what +:+ " could not be extended to " +:+ pretty want +:+ "GiB; it is " +:+ v.1 +:+
            " at " +:+ pretty v.2 +:+ "GiB"))
        else if (want <=? v.2)%Z then mret (Some v.2)
        else fail (ErrMsg (what +:+ " settled at " +:+ pretty v.2 +:+ "GiB, short of the " +:+ pretty want +:+
          "GiB asked for"))
  end.
Definition await (get : M W (string * Z)) (broken what : string) (want : Z) : M W Z :=
  t ← time_now;
  r ← await_loop get broken what want (S extend_polls) (t + extendSettle);
  match r with Some size => mret size | None => fail out_of_polls end.

Definition read_volume (id : string) : M W (string * Z) :=
  v ← volumes_Get id; mret (vo_Status v, vo_Size v).
Definition read_share (id : string) : M W (string * Z) :=
  s ← shares_Get id; mret (so_Status s, so_Size s).
Definition awaitBlockSize (id : string) (want : Z) : M W Z :=
  await (read_volume id) "error_extending" ("volume " +:+ id) want.
Definition awaitShareSize (id : string) (want : Z) : M W Z :=
  await (read_share id) "extending_error" ("share " +:+ id) want.

Definition Expand (kind : Kind) (id : string) (gib : Z) : M W Z :=
  if decide (kind = Block) then
    if negb (be_Block b) then fail no_block
    else
      current ← wrap ("reading volume " +:+ id) (read_volume id);
      if (gib <=? current.2)%Z then mret current.2
      else
        wrap ("extending volume " +:+ id +:+ " to " +:+ pretty gib +:+ "GiB")
          (volumes_ExtendSize (if decide (current.1 = "in-use") then "3.42" else "") id gib) ≫= λ _,
        awaitBlockSize id gib
  else if decide (kind = Shared) then
    if negb (be_Shared b) then fail (ErrMsg "this deployment has no shared filesystem endpoint")
    else
      current ← wrap ("reading share " +:+ id) (read_share id);
      if (gib <=? current.2)%Z then mret current.2
      else
        wrap ("extending share " +:+ id +:+ " to " +:+ pretty gib +:+ "GiB") (shares_Extend id gib) ≫= λ _,
        awaitShareSize id gib
  else fail (unknown_kind kind).
End backend.

(** ** What the calls leave *)
Section facts.
Context {Q : Quantities} {W : Type} {cinder : Cinder W} {manila : Manila W} {clock : Clock W}.
Context (view : W → StState).
Context `{!CinderLaws cinder view} `{!ManilaLaws manila view} `{!StorageClockLaws clock cinder manila view}.
Implicit Types s : StState.

(** How big the storage is. *)
Definition size_of (kind : Kind) (id : string) s : option Z :=
  if decide (kind = Block) then vr_Size <$> st_volumes s !! id
  else if decide (kind = Shared) then sr_Size <$> st_shares s !! id
  else None.

(** At most the size of this storage, or what it is being extended to, differs. *)
Definition resized (kind : Kind) (id : string) s s' : Prop :=
  s' = s ∨
  (kind = Block ∧ ∃ row size p, st_volumes s !! id = Some row ∧
     s' = set_volumes <[id := volume_resized size p row]> s) ∨
  (kind = Shared ∧ ∃ row size p, st_shares s !! id = Some row ∧
     s' = set_shares <[id := share_resized size p row]> s).

Definition removed (kind : Kind) (id : string) s : StState :=
  if decide (kind = Block) then set_volumes (delete id) s
  else if decide (kind = Shared) then set_shares (delete id) s else s.

Definition or_default (d s : string) : string := if decide (s = "") then d else s.

(** What a creation makes, at least of the size asked for. *)
Definition made (b : Backend) (name : string) (kind : Kind) (gib : Z) (description storageType az : string)
    (p : Provisioned) s s' : Prop :=
  pr_Kind p = kind ∧ pr_ID p ≠ "" ∧ size_of kind (pr_ID p) s = None ∧ (Z.max 1 gib ≤ pr_GiB p)%Z ∧
  ((kind = Block ∧ s' = set_volumes <[pr_ID p := mkVolumeRow name (pr_GiB p) None false
      (or_default (be_VolumeType b) storageType) (or_default (be_AvailabilityZone b) az) description]> s) ∨
   (kind = Shared ∧ ∃ exports, s' = set_shares <[pr_ID p := mkShareRow name (pr_GiB p) None
      (or_default "NFS" (be_ShareProto b)) (or_default (be_ShareType b) storageType)
      (or_default (be_AvailabilityZone b) az) description exports []]> s)).

Lemma resized_refl kind id s : resized kind id s s.
Proof. by left. Qed.

Lemma resized_trans kind id s1 s2 s3 : resized kind id s1 s2 → resized kind id s2 s3 → resized kind id s1 s3.
Proof.
  intros [->|H1]; [done|]. intros [->|H2]; [by right|].
  right. destruct H1 as [(-> & row & z & p & Hr & ->)|(-> & row & z & p & Hr & ->)];
    destruct H2 as [(Hk & row2 & z2 & p2 & Hr2 & ->)|(Hk & row2 & z2 & p2 & Hr2 & ->)]; try done;
    simpl in Hr2; rewrite lookup_insert_eq in Hr2; injection Hr2 as <-.
  - left. split; [done|]. exists row, z2, p2. split; [done|].
    unfold set_volumes. simpl. by rewrite insert_insert_eq.
  - right. split; [done|]. exists row, z2, p2. split; [done|].
    unfold set_shares. simpl. by rewrite insert_insert_eq.
Qed.

Lemma resized_settles_volume id s s' : volume_settles id s s' → resized Block id s s'.
Proof.
  intros [->|(row & n & size & Hr & _ & _ & ->)]; [by left|]. right. left. split; [done|]. by exists row, size, None.
Qed.
Lemma resized_settles_share id s s' : share_settles id s s' → resized Shared id s s'.
Proof.
  intros [->|(row & n & size & Hr & _ & _ & ->)]; [by left|]. right. right. split; [done|]. by exists row, size, None.
Qed.

(** *** Reading *)
Lemma read_volume_runs s id :
  runs view s (read_volume id) (λ v s', resized Block id s s' ∧ size_of Block id s' = Some v.2) (λ _ s', s' = s).
Proof.
  eapply runs_bind; [apply (law_volumes_Get s id)|done|]; cbv beta.
  intros v s' (Hs & _ & row & Hr & Hsz & _). apply runs_ret. split; [by apply resized_settles_volume|].
  unfold size_of. simpl. by rewrite Hr, Hsz.
Qed.
Lemma read_share_runs s id :
  runs view s (read_share id) (λ v s', resized Shared id s s' ∧ size_of Shared id s' = Some v.2) (λ _ s', s' = s).
Proof.
  eapply runs_bind; [apply (law_shares_Get s id)|done|]; cbv beta.
  intros v s' (Hs & _ & row & Hr & Hsz & _). apply runs_ret. split; [by apply resized_settles_share|].
  unfold size_of. simpl. by rewrite Hr, Hsz.
Qed.

(** *** Waiting *)
Section wait.
Context (kind : Kind) (id : string) (get : M W (string * Z)) (broken what : string) (want : Z).
Hypothesis Hget : ∀ s, runs view s get
  (λ v s', resized kind id s s' ∧ size_of kind id s' = Some v.2) (λ _ s', s' = s).

Lemma await_loop_runs fuel deadline s :
  runs view s (await_loop get broken what want fuel deadline)
    (λ r s', resized kind id s s' ∧ match r with
       | Some got => size_of kind id s' = Some got ∧ (want ≤ got)%Z | None => True end)
    (λ _ s', resized kind id s s').
Proof.
  revert s. induction fuel as [|fuel IH]; intros s; cbn [await_loop]; [apply runs_ret; by split; [left|]|].
  apply (time_now_step view). intros t. destruct (t <? deadline)%Z; simpl; [|apply runs_fail; by left].
  eapply runs_bind; [apply Hget| |]; cbv beta; [intros e s' ->; by left|].
  intros [st size] s1 [H1 Hsz]. simpl in *. case_decide.
  { eapply runs_bind; [apply (law_storage_sleep s1)| |]; cbv beta; [by intros e s' ->|].
    intros _ s' ->. eapply runs_conseq; [apply IH| |]; cbv beta.
    - intros r s' [H2 Hr]. split; [by eapply resized_trans|done].
    - intros e s' H2. by eapply resized_trans. }
  case_decide; [by apply runs_fail|]. destruct (Z.leb_spec want size); [|by apply runs_fail].
  by apply runs_ret.
Qed.

Lemma await_runs s :
  runs view s (await get broken what want)
    (λ got s', resized kind id s s' ∧ size_of kind id s' = Some got ∧ (want ≤ got)%Z)
    (λ _ s', resized kind id s s').
Proof.
  apply (time_now_step view). intros t.
  eapply runs_bind; [apply await_loop_runs|done|]; cbv beta.
  intros [got|] s' [H Hr]; [by apply runs_ret|by apply runs_fail].
Qed.

(** The clock only goes forward, so the polls are enough. *)
Hypothesis Hforward : ∀ w, (now w ≤ now (get w).2)%Z.
Lemma await_loop_enough fuel deadline w :
  (deadline ≤ now w + extendPoll * Z.of_nat fuel)%Z →
  (await_loop get broken what want (S fuel) deadline w).1 ≠ Ok None.
Proof.
  revert w. induction fuel as [|fuel IH]; intros w Hd;
    unfold await_loop; fold await_loop; unfold mbind at 1, M_bind at 1, time_now;
    (destruct (Z.ltb_spec (now w) deadline) as [Hlt|Hlt]; [|done]); [lia|].
  cbn [negb]. unfold mbind at 1, M_bind at 1. pose proof (Hforward w) as Hf.
  destruct (get w) as [[[st size]|e] w1]; [|done]. simpl in Hf. cbn [fst snd]. case_decide.
  - unfold mbind at 1, M_bind at 1. pose proof (law_storage_sleep_long extendPoll w1) as Hs.
    destruct (sleep extendPoll w1) as [[[]|e] w2]; [|done]. apply IH. unfold extendPoll in *. lia.
  - case_decide; [done|]. by destruct (want <=? size)%Z.
Qed.
End wait.

(** *** Growing *)
Lemma Expand_runs b s kind id gib :
  runs view s (Expand b kind id gib)
    (λ got s', resized kind id s s' ∧ size_of kind id s' = Some got ∧ (gib ≤ got)%Z)
    (λ _ s', resized kind id s s').
Proof.
  unfold Expand. case_decide as Hb; [subst|case_decide as Hs; [subst|apply runs_fail; by left]].
  - destruct (be_Block b); simpl; [|apply runs_fail; by left].
    eapply runs_bind_wrap; [apply read_volume_runs| |]; cbv beta; [intros e s' ->; by left|].
    intros [st size] s1 [H1 Hsz]. simpl in *. destruct (Z.leb_spec gib size); [by apply runs_ret|].
    assert (∀ mv s', volume_extending mv id gib s1 s' → resized Block id s1 s') as Hx.
    { intros mv s' (row & Hr & _ & ->). right. left. split; [done|]. by eexists row, _, _. }
    eapply runs_bind_wrap; [apply (law_volumes_Extend s1)| |]; cbv beta.
    { intros e s' [->|H2%Hx]; [done|]. by eapply resized_trans. }
    intros _ s2 H2%Hx. eapply runs_conseq; [apply (await_runs Block id); intros; apply read_volume_runs| |]; cbv beta.
    + intros got s3 (H3 & ? & ?). split; [|done]. by do 2 (eapply resized_trans; [done|]).
    + intros e s3 H3. by do 2 (eapply resized_trans; [done|]).
  - destruct (be_Shared b); simpl; [|apply runs_fail; by left].
    eapply runs_bind_wrap; [apply read_share_runs| |]; cbv beta; [intros e s' ->; by left|].
    intros [st size] s1 [H1 Hsz]. simpl in *. destruct (Z.leb_spec gib size); [by apply runs_ret|].
    assert (∀ s', share_extending id gib s1 s' → resized Shared id s1 s') as Hx.
    { intros s' (row & Hr & ->). right. right. split; [done|]. by eexists row, _, _. }
    eapply runs_bind_wrap; [apply (law_shares_Extend s1)| |]; cbv beta.
    { intros e s' [->|H2%Hx]; [done|]. by eapply resized_trans. }
    intros _ s2 H2%Hx. eapply runs_conseq; [apply (await_runs Shared id); intros; apply read_share_runs| |]; cbv beta.
    + intros got s3 (H3 & ? & ?). split; [|done]. by do 2 (eapply resized_trans; [done|]).
    + intros e s3 H3. by do 2 (eapply resized_trans; [done|]).
Qed.

(** *** Creating and removing *)
Lemma Backend_Create_runs b s name kind gib description storageType az :
  runs view s (Backend_Create b name kind gib description storageType az)
    (λ p s', made b name kind gib description storageType az p s s')
    (λ _ s', maybe s (λ s', ∃ p, made b name kind gib description storageType az p s s') s').
Proof.
  unfold Backend_Create, made, or_default. set (g := if (gib <? 1)%Z then 1%Z else gib).
  assert (g = Z.max 1 gib) as <- by (unfold g; destruct (Z.ltb_spec gib 1); lia).
  case_decide as Hb; [subst|case_decide as Hs; [subst|apply runs_fail; by left]].
  - destruct (be_Block b); simpl; [|apply runs_fail; by left].
    eapply runs_bind_wrap; [apply (law_volumes_Create s)| |]; cbv beta.
    + intros e s' [->|(v & Hv & Hne & Hsz & ->)]; [by left|]. right. exists (mkProvisioned Block (vo_ID v) (vo_Size v)).
      simpl. do 2 (split; [done|]). split; [by unfold size_of; simpl; rewrite Hv|]. split; [done|]. by left.
    + intros v s' (Hv & Hne & Hsz & ->). apply runs_ret. simpl.
      do 2 (split; [done|]). split; [by unfold size_of; simpl; rewrite Hv|]. split; [done|]. by left.
  - destruct (be_Shared b); simpl; [|apply runs_fail; by left].
    eapply runs_bind_wrap; [apply (law_shares_Create s)| |]; cbv beta.
    + intros e s' [->|(v & Hv & Hne & Hsz & exports & ->)]; [by left|]. right.
      exists (mkProvisioned Shared (so_ID v) (so_Size v)).
      simpl. do 2 (split; [done|]). split; [by unfold size_of; simpl; rewrite Hv|]. split; [done|]. right.
      split; [done|]. by exists exports; case_decide; case_decide; simplify_eq.
    + intros v s' (Hv & Hne & Hsz & exports & ->). apply runs_ret. simpl.
      do 2 (split; [done|]). split; [by unfold size_of; simpl; rewrite Hv|]. split; [done|]. right.
      split; [done|]. by exists exports; case_decide; case_decide; simplify_eq.
Qed.

Lemma Backend_Delete_runs s kind id :
  runs view s (Backend_Delete kind id) (λ _ s', s' = removed kind id s)
    (λ _ s', maybe s (λ s', s' = removed kind id s) s').
Proof.
  unfold Backend_Delete, removed. case_decide; [|case_decide; [|by apply runs_ret]].
  - apply runs_ignoring. eapply runs_conseq; [apply (law_volumes_Delete s)|done|]; cbv beta.
    intros e s' [Hm Hn]. destruct (ResponseCodeIs e 404); [|done].
    destruct Hn as [-> Hn]; [done|]. unfold set_volumes. rewrite delete_id by done. by destruct s.
  - apply runs_ignoring. eapply runs_conseq; [apply (law_shares_Delete s)|done|]; cbv beta.
    intros e s' [Hm Hn]. destruct (ResponseCodeIs e 404); [|done].
    destruct Hn as [-> Hn]; [done|]. unfold set_shares. rewrite delete_id by done. by destruct s.
Qed.
End facts.
