(* ===== verification/VolumePlan.v ===== *)
(** * pkg/volume/reconciler.go: what a claim gets, and where

    Whose claim it is, which service and type its class buys, how much, in which
    zone, and which nodes the volume can be attached on. *)

From S2P Require Import Prelude GoStd K8s Storage VolumeBackend.
From Stdlib Require Import Ascii.

Local Open Scope string_scope.
Local Open Scope list_scope.

Definition KindAnnotation : string := "knaas.io/storage-kind".
Definition IDAnnotation : string := "knaas.io/storage-id".
Definition ExportAnnotation : string := "knaas.io/storage-export".
Definition provisionerAnnotation : string := "volume.kubernetes.io/storage-provisioner".
Definition selectedNodeAnnotation : string := "volume.kubernetes.io/selected-node".
Definition ReclaimAnnotation : string := "knaas.io/reclaim-policy".

Definition ReadWriteMany : string := "ReadWriteMany".
Definition ReadOnlyMany : string := "ReadOnlyMany".
Definition WaitForFirstConsumer : string := "WaitForFirstConsumer".
Definition NodeSelectorOpIn : string := "In".
Definition LabelTopologyRegion : string := "topology.kubernetes.io/region".
Definition LabelTopologyZone : string := "topology.kubernetes.io/zone".

(** [int64] arithmetic. *)
Definition wrap64 (n : Z) : Z := ((n + 2 ^ 63) mod 2 ^ 64 - 2 ^ 63)%Z.

(** [int((v + (1 << 30) - 1) / (1 << 30))], and [int64(gib) << 30]. *)
Definition gib_of (v : Z) : Z := Z.quot (wrap64 (wrap64 (v + 2 ^ 30) - 1)) (2 ^ 30).
Definition bytes_of (gib : Z) : Z := wrap64 (Z.shiftl gib 30).

Record Placement := mkPlacement { pm_Zone : string; pm_AZ : string; pm_Region : string }.

Definition annotation (m : gmap string string) (k : string) : string := opt_or "" (m !! k).

Section plan.
Context {Q : Quantities}.

(** [None] for a nil lister, function or client. *)
Record Reconciler := mkReconciler {
  rc_Backend : Backend;
  rc_Claims : string → string → result Claim;
  rc_Volumes : string → result PersistentVolume;
  rc_AllVolumes : result (list PersistentVolume);
  rc_Classes : option (string → result StorageClass);
  rc_Events : bool;
  rc_Capsules : bool;
  rc_Pods : option (string → result (list Pod));
  rc_PlacementOf : option (string → option Placement);
  rc_Tenant : string;
  rc_ServesNamespace : string → bool }.

Variable r : Reconciler.

Definition storageName (namespace name : string) : string :=
  if decide (rc_Tenant r ≠ "") then "kubezun_" +:+ rc_Tenant r +:+ "_pvc_" +:+ namespace +:+ "_" +:+ name
  else "kubezun_pvc_" +:+ namespace +:+ "_" +:+ name.
Definition pvName (claim : Claim) : string := "pvc-" +:+ cl_UID claim.

Definition classOf (claim : Claim) : option StorageClass :=
  match cl_StorageClassName claim, rc_Classes r with
  | Some name, Some get =>
      match get name with
      | Ok sc => Some sc
      | Err _ =>
          let prefix := rc_Tenant r +:+ "-" in
          if bool_decide (rc_Tenant r ≠ "") && has_prefix name prefix then
            match get (trim_prefix name prefix) with Ok sc => Some sc | Err _ => None end
          else None
      end
  | _, _ => None
  end.

Definition Ours (claim : Claim) : bool :=
  match cl_StorageClassName claim with
  | None => false
  | Some _ => match classOf claim with
      | Some sc => bool_decide (scl_Provisioner sc = BlockDriver ∨ scl_Provisioner sc = SharedDriver)
      | None => false end
  end.

Definition claim_text (claim : Claim) : string := cl_Namespace claim +:+ "/" +:+ cl_Name claim.

Definition planFor (claim : Claim) : result (Kind * string) :=
  match classOf claim with
  | None => Err (ErrMsg ("claim " +:+ claim_text claim +:+ " names no catalog class"))
  | Some sc =>
      if decide (scl_Provisioner sc = BlockDriver) then
        match find (λ m, bool_decide (m = ReadWriteMany ∨ m = ReadOnlyMany)) (cl_AccessModes claim) with
        | Some m => Err (ErrMsg ("class " +:+ scl_Name sc +:+ " is a block device and cannot serve " +:+ m +:+
                      "; use a shared filesystem class"))
        | None => Ok (Block, annotation (scl_Parameters sc) "type")
        end
      else if decide (scl_Provisioner sc = SharedDriver) then
        Ok (Shared, annotation (scl_Parameters sc) "share_type")
      else Err (ErrMsg ("class " +:+ scl_Name sc +:+ " is not served here"))
  end.

Definition waitingForConsumer (claim : Claim) : bool :=
  match classOf claim with
  | Some class =>
      bool_decide (scl_VolumeBindingMode class = Some WaitForFirstConsumer) &&
      bool_decide (annotation (cl_Annotations claim) selectedNodeAnnotation = "")
  | None => false
  end.

Definition placementFor (claim : Claim) : Placement :=
  let where_ := mkPlacement "" (be_AvailabilityZone (rc_Backend r)) "" in
  let node := annotation (cl_Annotations claim) selectedNodeAnnotation in
  match rc_PlacementOf r with
  | None => where_
  | Some f =>
      if decide (node = "") then where_
      else match f node with
      | Some p => mkPlacement (pm_Zone p) (pm_AZ where_) (pm_Region p)
      | None => where_ end
  end.

Definition requirement_step (kv : string * string) : list NodeSelectorRequirement :=
  if decide (kv.2 = "") then [] else [mkRequirement kv.1 NodeSelectorOpIn [kv.2]].
Definition nodeAffinityFor (where_ : Placement) : option NodeAffinity :=
  match flat_map requirement_step
          [(LabelTopologyRegion, pm_Region where_); (LabelTopologyZone, pm_Zone where_)] with
  | [] => None
  | match_ => Some [match_]
  end.

Definition storage_request (claim : Claim) : Quantity := opt_or zeroQuantity (cl_Requests claim !! ResourceStorage).

(** The volume object of a claim, over the storage [made] for it. *)
Definition new_volume (claim : Claim) (made : Provisioned) (export : string) (where_ : Placement)
    : PersistentVolume :=
  let driver := if decide (pr_Kind made = Shared) then SharedDriver else BlockDriver in
  mkPV (pvName claim) 0
    (<[KindAnnotation := pr_Kind made]> (<[IDAnnotation := pr_ID made]>
      (<[ExportAnnotation := export]> (<[provisionerAnnotation := driver]> ∅))))
    (cl_AccessModes claim)
    {[ResourceStorage := NewQuantity (bytes_of (pr_GiB made))]}
    (if decide (annotation (cl_Annotations claim) ReclaimAnnotation = "Retain") then "Retain" else "Delete")
    (opt_or "" (cl_StorageClassName claim))
    (Some (mkClaimRef "PersistentVolumeClaim" "v1" (cl_Namespace claim) (cl_Name claim) (cl_UID claim)))
    (Some (mkCSI driver (pr_ID made) {["export" := export]}))
    (nodeAffinityFor where_) "".

Definition provisionedByUs (pv : PersistentVolume) : bool :=
  match pv_CSI pv with
  | Some csi => bool_decide (csi_Driver csi = BlockDriver ∨ csi_Driver csi = SharedDriver)
  | None => false
  end.

Definition usesClaim (pod : Pod) (claim : string) : bool :=
  existsb (λ v, bool_decide (v_PersistentVolumeClaim v = Some claim)) (Volumes (Spec pod)).
End plan.

(** [ExportHost]: the part before the first colon, unless that is empty. *)
Definition ExportHost (export : string) : string :=
  match cut export ":" with
  | Some (host, _) => host   (* "" where the colon comes first *)
  | None => ""
  end.

(** ** Sizes *)
Lemma wrap64_id n : (- 2 ^ 63 ≤ n < 2 ^ 63)%Z → wrap64 n = n.
Proof. intros H. unfold wrap64. rewrite Z.mod_small; lia. Qed.

Lemma gib_of_ceil v : (0 ≤ v ≤ 2 ^ 63 - 1 - 2 ^ 30)%Z → (v ≤ gib_of v * 2 ^ 30 < v + 2 ^ 30)%Z ∧ (0 ≤ gib_of v)%Z.
Proof.
  intros H. unfold gib_of. rewrite (wrap64_id (v + 2 ^ 30)) by lia. rewrite wrap64_id by lia.
  rewrite Z.quot_div_nonneg by lia.
  pose proof (Z.div_mod (v + 2 ^ 30 - 1) (2 ^ 30) ltac:(lia)).
  pose proof (Z.mod_pos_bound (v + 2 ^ 30 - 1) (2 ^ 30) ltac:(lia)). lia.
Qed.

Lemma bytes_of_exact gib : (0 ≤ gib < 2 ^ 33)%Z → bytes_of gib = (gib * 2 ^ 30)%Z.
Proof. intros H. unfold bytes_of. rewrite Z.shiftl_mul_pow2 by lia. apply wrap64_id. lia. Qed.

(** Above that the sum overflows, and the size that is asked for is negative. *)
Lemma gib_of_overflow v : (2 ^ 63 - 2 ^ 30 < v < 2 ^ 63)%Z → (gib_of v < 0)%Z.
Proof.
  intros H. assert (wrap64 (v + 2 ^ 30) = v + 2 ^ 30 - 2 ^ 64)%Z as Hw.
  { unfold wrap64. replace (v + 2 ^ 30 + 2 ^ 63)%Z with (v + 2 ^ 30 - 2 ^ 63 + 1 * 2 ^ 64)%Z by lia.
    rewrite Z.mod_add by lia. rewrite Z.mod_small; lia. }
  unfold gib_of. rewrite Hw, wrap64_id by lia. set (x := Z.quot _ _).
  enough (x ≤ -1)%Z by lia. apply Z.quot_le_upper_bound; lia.
Qed.

Lemma Value_bounds {Q : Quantities} `{!QuantityLaws Q} q :
  (0 ≤ amount q ≤ (2 ^ 63 - 1) * nano)%Z → (amount q ≤ Value q * nano < amount q + nano)%Z.
Proof.
  intros H. rewrite Value_amount by done. unfold nano in *.
  pose proof (Z.div_mod (amount q + 1000000000 - 1) 1000000000 ltac:(lia)).
  pose proof (Z.mod_pos_bound (amount q + 1000000000 - 1) 1000000000 ltac:(lia)). lia.
Qed.

Lemma gib_of_enough {Q : Quantities} `{!QuantityLaws Q} q got :
  (0 ≤ amount q ≤ (2 ^ 63 - 1 - 2 ^ 30) * nano)%Z → (gib_of (Value q) ≤ got)%Z →
  (amount q ≤ got * 2 ^ 30 * nano)%Z.
Proof.
  intros H Hle. assert (0 ≤ amount q ≤ (2 ^ 63 - 1) * nano)%Z as Hb by (unfold nano in *; lia).
  pose proof (Value_bounds q Hb) as Hv.
  assert (0 ≤ Value q ≤ 2 ^ 63 - 1 - 2 ^ 30)%Z as Hr by (unfold nano in *; lia).
  pose proof (gib_of_ceil _ Hr) as [[Hc _] _]. unfold nano in *. lia.
Qed.

(** ** Nodes a volume can be attached on

    Kubernetes: a node is selected when it satisfies every requirement of some
    term, and a term without requirements selects none. *)
Definition satisfies (labels : gmap string string) (q : NodeSelectorRequirement) : Prop :=
  nr_Operator q = NodeSelectorOpIn ∧ ∃ v, labels !! nr_Key q = Some v ∧ v ∈ nr_Values q.
Definition admits (a : option NodeAffinity) (labels : gmap string string) : Prop :=
  match a with
  | None => True
  | Some terms => ∃ t, t ∈ terms ∧ t ≠ [] ∧ Forall (satisfies labels) t
  end.

Lemma satisfies_step labels key v :
  Forall (satisfies labels) (requirement_step (key, v)) ↔ (v = "" ∨ labels !! key = Some v).
Proof.
  unfold requirement_step. simpl. case_decide as Hv; [split; [by left|by constructor]|].
  rewrite Forall_singleton. unfold satisfies. simpl. split.
  - intros [_ (x & Hx & ->%list_elem_of_singleton)]. by right.
  - intros [?|Hl]; [done|]. split; [done|]. exists v. split; [done|by apply list_elem_of_singleton].
Qed.

Lemma nodeAffinityFor_admits where_ labels :
  admits (nodeAffinityFor where_) labels ↔
    (pm_Region where_ = "" ∨ labels !! LabelTopologyRegion = Some (pm_Region where_)) ∧
    (pm_Zone where_ = "" ∨ labels !! LabelTopologyZone = Some (pm_Zone where_)).
Proof.
  unfold nodeAffinityFor. set (l := flat_map _ _).
  transitivity (Forall (satisfies labels) l).
  - destruct l as [|q l]; [split; [by constructor|done]|]. simpl. split.
    + by intros (t & ->%list_elem_of_singleton & _ & Ht).
    + intros Ht. exists (q :: l). split; [by apply list_elem_of_singleton|done].
  - unfold l. simpl. rewrite app_nil_r, Forall_app, !satisfies_step. done.
Qed.

(** ** Properties *)

(** C39 The size that is asked for is the request rounded up, up to eight exbibytes.
    The gibibytes a request is turned into are the fewest that hold it, and are
    written back as exactly that many bytes; a request within a gibibyte of the
    largest 64-bit number comes out negative. *)
Theorem storage_size_bounds {Q : Quantities} `{!QuantityLaws Q} (request : Quantity) :
  let gib := gib_of (Value request) in
  ((0 ≤ amount request ≤ (2 ^ 63 - 1 - 2 ^ 30) * nano)%Z →
     (0 ≤ gib < 2 ^ 33)%Z ∧
     (amount request ≤ amount (NewQuantity (bytes_of gib)) < amount request + 2 ^ 30 * nano)%Z) ∧
  (((2 ^ 63 - 2 ^ 30) * nano < amount request ≤ (2 ^ 63 - 1) * nano)%Z → (gib < 0)%Z).
Proof.
  intros gib. split; intros H.
  - assert (0 ≤ amount request ≤ (2 ^ 63 - 1) * nano)%Z as Hb by (unfold nano in *; lia).
    pose proof (Value_bounds request Hb) as Hv.
    assert (0 ≤ Value request ≤ 2 ^ 63 - 1 - 2 ^ 30)%Z as Hr by (unfold nano in *; lia).
    pose proof (gib_of_ceil _ Hr) as [Hc H0]. fold gib in Hc, H0.
    assert (gib < 2 ^ 33)%Z as Hg by lia. split; [done|].
    rewrite bytes_of_exact, NewQuantity_amount by lia. unfold nano in *. lia.
  - assert (0 ≤ amount request ≤ (2 ^ 63 - 1) * nano)%Z as Hb by (unfold nano in *; lia).
    pose proof (Value_bounds request Hb) as Hv. apply gib_of_overflow. unfold nano in *. lia.
Qed.

(** ** Witness *)
Lemma storage_size_bounds_witness :
  let q : @Quantity NanoQuantities := (2684354560 * nano)%Z in
  gib_of (Value q) = 3%Z ∧ (0 ≤ gib_of (Value q) < 2 ^ 33)%Z.
Proof.
  intros q. split; [vm_compute; reflexivity|].
  destruct (@storage_size_bounds NanoQuantities NanoQuantities_laws q) as [H _].
  apply H. split; vm_compute; discriminate.
Defined.
