(* ===== verification/VolumeExpand.v ===== *)
(** * pkg/volume/reconciler.go: growing a claim

    What a claim says of itself while the storage behind it grows: the size
    this has undertaken to reach, how far it has got, and -- last, and only
    when filesystem and storage are both there -- the size it has. *)

From S2P Require Import Prelude GoStd K8s ZunCapsule Storage VolumeBackend VolumePlan.
From Stdlib Require Import Ascii.

Local Open Scope string_scope.
Local Open Scope list_scope.

(** [ClaimResourceStatus]. *)
Definition ControllerResizeInProgress : string := "ControllerResizeInProgress".
Definition ControllerResizeInfeasible : string := "ControllerResizeInfeasible".
Definition NodeResizeInProgress : string := "NodeResizeInProgress".

Definition nil_map : gerror := ErrMsg "panic: assignment to entry in nil map".

Section expand.
Context {Q : Quantities} {W : Type} {cinder : Cinder W} {manila : Manila W} {clock : Clock W}.
Context {claims : ClaimsAPI W} {pvs : VolumesAPI W} {capsules : CapsuleVolumes W} {events : EventRecorder W}.
Variable r : Reconciler.

(** [CapsuleAPI.ExtendVolume] (pkg/zun/extend.go). *)
Definition ExtendVolume (podUID volumeID : string) (gib : Z) : M W () :=
  if decide (podUID = "" ∨ volumeID = "") then
    fail (ErrMsg "a pod UID and a volume id are required to extend")
  else translated (http_ExtendVolume ("kubezun-" +:+ podUID) volumeID gib).

Definition report (claim : Claim) (reason message : string) : M W () :=
  if rc_Events r then Eventf (cl_key claim) reason message else mret ().

Definition settleAllocation (claim : Claim) (want have : Quantity) : M W () :=
  match cl_AllocatedResources claim !! ResourceStorage with
  | None => mret ()
  | Some allocated =>
      if decide (QCmp allocated want ≠ Gt) then mret ()
      else if decide (is_Some (cl_AllocatedResourceStatuses claim !! ResourceStorage)) then mret ()
      else if decide (QCmp have want = Gt) then mret ()
      else
        fresh ← claims_Get (cl_Namespace claim) (cl_Name claim);
        (* an empty map arrives as a nil one *)
        if decide (cl_AllocatedResources fresh = ∅) then fail nil_map
        else
          claims_UpdateStatus (with_allocated (<[ResourceStorage := want]> (cl_AllocatedResources fresh)) fresh)
            ≫= λ _, mret ()
  end.

(** The status [recordAllocation] writes, [None] where it leaves it as it is. *)
Definition allocation (size : Quantity) (state : string) (fresh : Claim) : option Claim :=
  let was := annotation (cl_AllocatedResourceStatuses fresh) ResourceStorage in
  let already := cl_AllocatedResources fresh !! ResourceStorage in
  if match already with Some a => bool_decide (QCmp a size ≠ Lt) && bool_decide (was = state) | None => false end then None
  else if match already with
          | Some a => bool_decide (QCmp a size = Eq) && bool_decide (was = ControllerResizeInfeasible) &&
                      bool_decide (state = ControllerResizeInProgress)
          | None => false end then None
  else
    let allocated := match already with
      | Some a => if decide (QCmp a size = Lt) then <[ResourceStorage := size]> (cl_AllocatedResources fresh)
                  else cl_AllocatedResources fresh
      | None => <[ResourceStorage := size]> (cl_AllocatedResources fresh) end in
    Some (with_statuses (<[ResourceStorage := state]> (cl_AllocatedResourceStatuses fresh))
            (with_allocated allocated fresh)).
Definition recordAllocation (claim : Claim) (size : Quantity) (state : string) : M W () :=
  fresh ← claims_Get (cl_Namespace claim) (cl_Name claim);
  match allocation size state fresh with
  | None => mret ()
  | Some updated =>
      wrap ("recording what " +:+ claim_text claim +:+ " is being grown to") (claims_UpdateStatus updated)
        ≫= λ _, mret ()
  end.

Definition grow_step (claim : Claim) (volumeID : string) (gib : Z) (failed : option gerror) (pod : Pod)
    : M W (option gerror) :=
  if negb (usesClaim pod (cl_Name claim)) then mret failed
  else
    e ← try (ExtendVolume (UID pod) volumeID gib);
    mret (match e with Ok _ => failed | Err e => Some e end).
Definition growFilesystems (claim : Claim) (volumeID : string) (gib : Z) : M W () :=
  match rc_Pods r with
  | None => mret ()
  | Some list =>
      if negb (rc_Capsules r) then mret ()
      else
        pods ← lift_result (list (cl_Namespace claim));
        failed ← fold_each (grow_step claim volumeID gib) None pods;
        match failed with None => mret () | Some e => fail e end
  end.

Definition recordVolumeSize (pv : PersistentVolume) (size : Quantity) : M W () :=
  if decide (opt_or zeroQuantity (pv_Capacity pv !! ResourceStorage) = size) then mret ()
  else
    wrap ("recording the new size on " +:+ pv_Name pv)
      (pvs_Update (with_pv_capacity (<[ResourceStorage := size]> (pv_Capacity pv)) pv)) ≫= λ _, mret ().

(** The status [recordClaimSize] writes. *)
Definition sized (size : Quantity) (fresh : Claim) : Claim :=
  let allocated := match cl_Requests fresh !! ResourceStorage, cl_AllocatedResources fresh !! ResourceStorage with
    | Some want, Some a =>
        if decide (QCmp a want = Gt ∧ QCmp size want ≠ Gt)
        then <[ResourceStorage := want]> (cl_AllocatedResources fresh) else cl_AllocatedResources fresh
    | _, _ => cl_AllocatedResources fresh end in
  with_statuses (delete ResourceStorage (cl_AllocatedResourceStatuses fresh))
    (with_allocated allocated
      (with_capacity (<[ResourceStorage := size]> (cl_Capacity fresh)) fresh)).
Definition recordClaimSize (claim : Claim) (size : Quantity) : M W () :=
  fresh ← claims_Get (cl_Namespace claim) (cl_Name claim);
  wrap ("recording the new size on claim " +:+ claim_text claim) (claims_UpdateStatus (sized size fresh))
    ≫= λ _, mret ().

(** What follows once the storage is [got] GiB. *)
Definition expanded (claim : Claim) (pv : PersistentVolume) (kind : Kind) (id : string) (want : Quantity)
    (got : Z) : M W () :=
  let actual := NewQuantity (bytes_of got) in
  recordVolumeSize pv actual ≫= λ _,
  (if decide (kind = Block) then
     recordAllocation claim want NodeResizeInProgress ≫= λ _,
     grown ← try (growFilesystems claim id got);
     match grown with
     | Ok _ => mret ()
     | Err e =>
         report claim "FileSystemResizePending" ("the volume is now " +:+ QString actual +:+
           " but the filesystem has not been grown yet: " +:+ error_string e) ≫= λ _, fail e
     end
   else mret ()) ≫= λ _,
  recordClaimSize claim actual.

Definition expandIfAsked (claim : Claim) : M W () :=
  match cl_Requests claim !! ResourceStorage with
  | None => mret ()
  | Some want =>
      let have := opt_or zeroQuantity (cl_Capacity claim !! ResourceStorage) in
      if decide (QCmp want have ≠ Gt) then settleAllocation claim want have
      else match rc_Volumes r (cl_VolumeName claim) with
      | Err _ => mret ()
      | Ok pv =>
          if negb (provisionedByUs pv) then mret ()
          else
            let kind := annotation (pv_Annotations pv) KindAnnotation in
            let id := annotation (pv_Annotations pv) IDAnnotation in
            if decide (id = "") then fail (ErrMsg ("volume " +:+ pv_Name pv +:+ " records no storage id"))
            else
              let gib := gib_of (Value want) in
              recordAllocation claim want ControllerResizeInProgress ≫= λ _,
              got ← try (Expand (rc_Backend r) kind id gib);
              match got with
              | Ok got => expanded claim pv kind id want got
              | Err e =>
                  try (recordAllocation claim want ControllerResizeInfeasible) ≫= λ _,
                  report claim "ExpansionFailed" (error_string e) ≫= λ _, fail e
              end
      end
  end.
End expand.

(** ** What growing a claim may touch

    [touches claim kind id pv s s']: of everything there was, only the size of
    this storage, the status of this claim, this volume object, the filesystems
    of the capsules of pods that use the claim and the claim's events differ. *)
Section facts.
Context {Q : Quantities} {W : Type} {cinder : Cinder W} {manila : Manila W} {clock : Clock W}.
Context {claims : ClaimsAPI W} {pvs : VolumesAPI W} {capsules : CapsuleVolumes W} {events : EventRecorder W}.
Context (view : W → StState).
Context `{!CinderLaws cinder view} `{!ManilaLaws manila view} `{!StorageClockLaws clock cinder manila view}
  `{!ClaimsLaws claims view} `{!VolumesLaws pvs view} `{!CapsuleVolumesLaws capsules view} `{!EventLaws events view}.
Implicit Types (s : StState) (c : Claim) (pv : PersistentVolume).

Record touches (claim : Claim) (kind : Kind) (id : string) (pv : PersistentVolume) s s' : Prop := {
  to_volumes : ∀ j, st_volumes s' !! j = st_volumes s !! j ∨
    kind = Block ∧ j = id ∧ ∃ row z p, st_volumes s !! j = Some row ∧ st_volumes s' !! j = Some (volume_resized z p row);
  to_shares : ∀ j, st_shares s' !! j = st_shares s !! j ∨
    kind = Shared ∧ j = id ∧ ∃ row z p, st_shares s !! j = Some row ∧ st_shares s' !! j = Some (share_resized z p row);
  to_claims : ∀ k, st_claims s' !! k = st_claims s !! k ∨
    k = cl_key claim ∧ ∃ cur new rv, st_claims s !! k = Some cur ∧ st_claims s' !! k = Some (status_of new cur rv);
  to_pvs : ∀ n, st_pvs s' !! n = st_pvs s !! n ∨
    n = pv_Name pv ∧ is_Some (st_pvs s !! n) ∧ ∃ rv phase cap,
      st_pvs s' !! n = Some (pv_written rv phase (with_pv_capacity cap pv));
  to_grown : ∀ k, st_grown s' !! k = st_grown s !! k ∨
    ∃ pod, usesClaim pod (cl_Name claim) = true ∧ k = ("kubezun-" +:+ UID pod, id);
  to_events : ∃ l, st_events s' = st_events s ++ l ∧ Forall (λ e, ev_claim e = cl_key claim) l }.

Lemma touches_refl claim kind id pv s : touches claim kind id pv s s.
Proof. split; intros; auto. exists []. by rewrite app_nil_r. Qed.
#[local] Hint Resolve touches_refl : core.

Lemma touches_trans claim kind id pv s1 s2 s3 :
  touches claim kind id pv s1 s2 → touches claim kind id pv s2 s3 → touches claim kind id pv s1 s3.
Proof.
  intros [V1 S1 C1 P1 G1 (l1 & E1 & F1)] [V2 S2 C2 P2 G2 (l2 & E2 & F2)]. split.
  - intros j. destruct (V2 j) as [->|(Hk & Hj & row & z & p & Hr & Hr')]; [apply V1|].
    right. do 2 (split; [done|]). destruct (V1 j) as [Hv|(_ & _ & row1 & z1 & p1 & Hr1 & Hr1')].
    + rewrite <-Hv. by exists row, z, p.
    + rewrite Hr1' in Hr. injection Hr as <-. by exists row1, z, p.
  - intros j. destruct (S2 j) as [->|(Hk & Hj & row & z & p & Hr & Hr')]; [apply S1|].
    right. do 2 (split; [done|]). destruct (S1 j) as [Hv|(_ & _ & row1 & z1 & p1 & Hr1 & Hr1')].
    + rewrite <-Hv. by exists row, z, p.
    + rewrite Hr1' in Hr. injection Hr as <-. by exists row1, z, p.
  - intros k. destruct (C2 k) as [->|(Hk & cur & new & rv & Hc & Hc')]; [apply C1|].
    right. split; [done|]. destruct (C1 k) as [Hv|(_ & cur1 & new1 & rv1 & Hc1 & Hc1')].
    + rewrite <-Hv. by exists cur, new, rv.
    + rewrite Hc1' in Hc. injection Hc as <-. by exists cur1, new, rv.
  - intros n. destruct (P2 n) as [->|(Hn & Hs & rest)]; [apply P1|].
    right. split; [done|]. split; [|done]. by destruct (P1 n) as [<-|(_ & ? & _)].
  - intros k. destruct (G2 k) as [->|H]; [apply G1|by right].
  - exists (l1 ++ l2). rewrite E2, E1, app_assoc. split; [done|]. by apply Forall_app.
Qed.

Lemma touches_resized claim kind id pv s s' : resized kind id s s' → touches claim kind id pv s s'.
Proof.
  intros [->|[(-> & row & z & p & Hr & ->)|(-> & row & z & p & Hr & ->)]]; [done|..]; split; simpl; intros; auto;
    try (by exists []; rewrite app_nil_r);
    (destruct (decide (j = id)) as [->|Hj];
      [rewrite lookup_insert_eq; right; eauto 10|rewrite lookup_insert_ne by done; by left]).
Qed.

(** The status of one claim rewritten, as [f] has it. *)
Definition rewritten (k : string * string) (f : Claim → Claim) s s' : Prop :=
  ∃ cur rv, st_claims s !! k = Some cur ∧ s' = set_claims <[k := status_of (f cur) cur rv]> s.
Lemma touches_rewritten claim kind id pv f s s' : rewritten (cl_key claim) f s s' → touches claim kind id pv s s'.
Proof.
  intros (cur & rv & Hc & ->). split; simpl; intros; auto; [|by exists []; rewrite app_nil_r].
  destruct (decide (k = cl_key claim)) as [->|Hk];
    [rewrite lookup_insert_eq; right; eauto 10|rewrite lookup_insert_ne by done; by left].
Qed.

(** *** The calls *)
Lemma report_runs r s c reason message :
  runs view s (report r c reason message)
    (λ _ s', ∃ l, s' = set_events (λ es, es ++ l) s ∧ Forall (λ e, ev_claim e = cl_key c) l ∧
       (rc_Events r = true → l = [mkEvent (cl_key c) reason message]))
    (λ _ _, False).
Proof.
  unfold report. destruct (rc_Events r).
  - eapply runs_conseq; [apply (law_Eventf s)| |done]; cbv beta. intros _ s' ->.
    exists [mkEvent (cl_key c) reason message]. split; [done|]. split; [by constructor|done].
  - apply runs_ret. exists []. split; [|by split]. unfold set_events. rewrite app_nil_r. by destruct s.
Qed.

Lemma touches_events claim kind id pv l s :
  Forall (λ e, ev_claim e = cl_key claim) l → touches claim kind id pv s (set_events (λ es, es ++ l) s).
Proof. intros Hl. split; simpl; auto. by exists l. Qed.

(** A status written over what was just read. *)
Lemma update_status_runs s (f : Claim → Claim) fresh :
  st_claims s !! cl_key fresh = Some fresh → (∀ c, cl_key (f c) = cl_key c) →
  (∀ c, cl_ResourceVersion (f c) = cl_ResourceVersion c) →
  runs view s (claims_UpdateStatus (f fresh)) (λ _ s', rewritten (cl_key fresh) f s s')
    (λ _ s', maybe s (rewritten (cl_key fresh) f s) s').
Proof.
  intros Hc Hk Hv. assert (∀ new s', status_updated (f fresh) new s s' → rewritten (cl_key fresh) f s s') as H.
  { intros new s' (cur & rv & Hcur & _ & -> & ->). rewrite Hk in *. rewrite Hc in Hcur. injection Hcur as <-.
    by exists fresh, rv. }
  eapply runs_conseq; [apply law_claims_UpdateStatus| |]; cbv beta; [by eauto|].
  intros e s' [->|[new Hn]]; [by left|right; by eauto].
Qed.

Definition recorded (size : Quantity) (state : string) (c : Claim) : Claim := opt_or c (allocation size state c).

Lemma recordAllocation_runs s claim size state :
  runs view s (recordAllocation claim size state)
    (λ _ s', maybe s (rewritten (cl_key claim) (recorded size state) s) s')
    (λ _ s', maybe s (rewritten (cl_key claim) (recorded size state) s) s').
Proof.
  unfold recordAllocation. eapply runs_bind; [apply (law_claims_Get s)| |]; cbv beta; [intros e s' ->; by left|].
  intros fresh s' (-> & Hc & Hk). fold (cl_key claim) in Hc, Hk.
  destruct (allocation size state fresh) as [updated|] eqn:Ha; [|apply runs_ret; by left].
  assert (updated = recorded size state fresh) as -> by (unfold recorded; by rewrite Ha).
  assert (∀ c, cl_key (recorded size state c) = cl_key c ∧
    cl_ResourceVersion (recorded size state c) = cl_ResourceVersion c) as Hf.
  { intros c. unfold recorded, allocation. cbv zeta. by do 2 (destruct (match _ with Some _ => _ | None => _ end); [done|]). }
  eapply runs_bind_wrap; [apply update_status_runs| |]; cbv beta; try apply Hf; try (intros; by apply Hf).
  - by rewrite Hk.
  - intros e s'. rewrite Hk. done.
  - intros _ s' Hr. apply runs_ret. rewrite Hk in Hr. by right.
Qed.

Lemma recordClaimSize_runs s claim size :
  runs view s (recordClaimSize claim size) (λ _ s', rewritten (cl_key claim) (sized size) s s')
    (λ _ s', maybe s (rewritten (cl_key claim) (sized size) s) s').
Proof.
  unfold recordClaimSize. eapply runs_bind; [apply (law_claims_Get s)| |]; cbv beta; [intros e s' ->; by left|].
  intros fresh s' (-> & Hc & Hk). fold (cl_key claim) in Hc, Hk.
  eapply runs_bind_wrap; [apply update_status_runs| |]; cbv beta; try done.
  - by rewrite Hk.
  - intros e s'. by rewrite Hk.
  - intros _ s' Hr. apply runs_ret. by rewrite Hk in Hr.
Qed.

Definition volume_recorded (pv : PersistentVolume) (size : Quantity) s s' : Prop :=
  ∃ cur rv, st_pvs s !! pv_Name pv = Some cur ∧ s' = set_pvs <[pv_Name pv :=
    pv_written rv (pv_Phase cur) (with_pv_capacity (<[ResourceStorage := size]> (pv_Capacity pv)) pv)]> s.
Lemma recordVolumeSize_runs s pv size :
  runs view s (recordVolumeSize pv size)
    (λ _ s', (opt_or zeroQuantity (pv_Capacity pv !! ResourceStorage) = size ∧ s' = s) ∨ volume_recorded pv size s s')
    (λ _ s', maybe s (volume_recorded pv size s) s').
Proof.
  unfold recordVolumeSize. case_decide; [apply runs_ret; by left|].
  eapply runs_bind_wrap; [apply (law_pvs_Update s)| |]; cbv beta.
  - intros e s' [->|(fresh & cur & rv & Hc & _ & -> & ->)]; [by left|]. right. by exists cur, rv.
  - intros fresh s' (cur & rv & Hc & _ & -> & ->). apply runs_ret. right. by exists cur, rv.
Qed.
Lemma touches_recorded claim kind id pv size s s' : volume_recorded pv size s s' → touches claim kind id pv s s'.
Proof.
  intros (cur & rv & Hc & ->). split; simpl; intros; auto; [|by exists []; rewrite app_nil_r].
  destruct (decide (n = pv_Name pv)) as [->|Hn]; [|rewrite lookup_insert_ne by done; by left].
  rewrite lookup_insert_eq. right. split; [done|]. rewrite Hc. split; [by eexists|]. eauto.
Qed.

(** *** Filesystems *)
Definition filesystem (uid id : string) : string * string := ("kubezun-" +:+ uid, id).
Lemma ExtendVolume_runs s uid id gib :
  runs view s (ExtendVolume uid id gib) (λ _ s', s' = set_grown <[filesystem uid id := gib]> s)
    (λ _ s', maybe s (λ s', s' = set_grown <[filesystem uid id := gib]> s) s').
Proof.
  unfold ExtendVolume. case_decide; [apply runs_fail; by left|]. intros w Hw.
  pose proof (law_ExtendVolume s ("kubezun-" +:+ uid) id gib w Hw) as Hl. unfold translated.
  by destruct (http_ExtendVolume _ _ _ w) as [[[]|e] w'].
Qed.

Lemma touches_grown claim kind id pv pod gib s :
  usesClaim pod (cl_Name claim) = true →
  touches claim kind id pv s (set_grown <[filesystem (UID pod) id := gib]> s).
Proof.
  intros Hu. split; simpl; intros; auto; [|by exists []; rewrite app_nil_r].
  destruct (decide (k = filesystem (UID pod) id)) as [->|Hk];
    [right; by exists pod|rewrite lookup_insert_ne by done; by left].
Qed.

(** Everything but the filesystems as it was. *)
Definition same_but_grown s s' : Prop := s' = set_grown (λ _, st_grown s') s.
(** The filesystem of every pod of [pods] that uses the claim is [gib] big. *)
Definition all_grown (pods : list Pod) claim (id : string) (gib : Z) s : Prop :=
  ∀ pod, pod ∈ pods → usesClaim pod (cl_Name claim) = true → st_grown s !! filesystem (UID pod) id = Some gib.
Record growing (pods : list Pod) claim kind id pv gib (failed : option gerror) s s' : Prop := {
  gr_touches : touches claim kind id pv s s';
  gr_same : same_but_grown s s';
  gr_all : failed = None → all_grown pods claim id gib s' }.

Lemma grow_step_runs pre claim kind id pv gib failed pod s0 s :
  growing pre claim kind id pv gib failed s0 s →
  runs view s (grow_step claim id gib failed pod)
    (λ failed' s', growing (pre ++ [pod]) claim kind id pv gib failed' s0 s') (λ _ _, False).
Proof.
  intros [Ht Hs Ha]. unfold grow_step. destruct (usesClaim pod (cl_Name claim)) eqn:Hu; simpl.
  - assert (∀ p, p ∈ pre ++ [pod] → p ∈ pre ∨ p = pod) as Hin.
    { intros p [?|?%list_elem_of_singleton]%elem_of_app; auto. }
    assert (touches claim kind id pv s0 (set_grown <[filesystem (UID pod) id := gib]> s) ∧
      same_but_grown s0 (set_grown <[filesystem (UID pod) id := gib]> s)) as [Ht' Hs'].
    { split; [eapply touches_trans; [done|by apply touches_grown]|]. unfold same_but_grown in *. by rewrite Hs. }
    eapply runs_try_bind; [apply ExtendVolume_runs| |]; cbv beta.
    + intros u s' ->. apply runs_ret. split; [done..|]. intros Hf p Hp Hup. simpl.
      destruct (decide (filesystem (UID p) id = filesystem (UID pod) id)) as [->|Hne]; [apply lookup_insert_eq|].
      rewrite lookup_insert_ne by done. apply Hin in Hp as [Hp| ->]; [by apply Ha|done].
    + intros e s' [->| ->]; apply runs_ret; by split.
  - apply runs_ret. split; [done..|]. intros Hf p [Hp|Hp%list_elem_of_singleton]%elem_of_app Hup; [by apply Ha|congruence].
Qed.

(** The pods of the claim's namespace, those that use it among them. *)
Definition consumers (r : Reconciler) (claim : Claim) : list Pod :=
  match rc_Pods r with
  | Some list => match list (cl_Namespace claim) with Ok l => l | Err _ => [] end
  | None => [] end.
(** The reconciler has what growing a filesystem takes: the capsule service, and
    the list of the pods.  Without them that half is left undone, in silence
    (see [growth_without_capsules]). *)
Definition can_grow (r : Reconciler) : Prop := rc_Capsules r = true ∧ is_Some (rc_Pods r).

Lemma growFilesystems_runs r s claim kind id pv gib :
  can_grow r →
  runs view s (growFilesystems r claim id gib)
    (λ _ s', growing (consumers r claim) claim kind id pv gib None s s')
    (λ _ s', touches claim kind id pv s s' ∧ same_but_grown s s').
Proof.
  assert (growing [] claim kind id pv gib None s s) as H0.
  { split; [done|by destruct s|]. intros _ p ?%elem_of_nil. done. }
  intros [Hcaps [list Hpods]]. unfold growFilesystems, consumers. rewrite Hpods, Hcaps. simpl.
  destruct (list (cl_Namespace claim)) as [pods|e]; simpl.
  2:{ eapply (runs_bind _ _ _ _ (λ _ _, False) _ (λ _ s', s' = s)); [by apply runs_lift| |done].
      intros ? ? ->. by split; destruct H0. }
  eapply (runs_bind _ _ _ _ (λ l s', l = pods ∧ s' = s) _ (λ _ _, False)); [by apply runs_lift|done|].
  intros l s' [-> ->]. eapply (runs_bind _ _ _ _ (λ failed s', growing pods claim kind id pv gib failed s s') _ (λ _ _, False)).
  - apply (runs_fold_each view (λ pre failed s', growing pre claim kind id pv gib failed s s')); [done|].
    intros pre pod post failed s' _ Hg. by apply grow_step_runs.
  - done.
  - intros [e|] s' Hg; [apply runs_fail|by apply runs_ret]. by split; destruct Hg.
Qed.

(** *** The whole *)
Definition capacity_of (claim : Claim) s : option (gmap string Quantity) := cl_Capacity <$> st_claims s !! cl_key claim.

(** The storage is [got] GiB, and so is the filesystem wherever it is used. *)
Definition grown_to (r : Reconciler) (claim : Claim) (kind : Kind) (id : string) (got : Z) s : Prop :=
  size_of kind id s = Some got ∧ (kind = Block → all_grown (consumers r claim) claim id got s).
(** The claim says it has what it has. *)
Definition claim_sized (r : Reconciler) (claim : Claim) (kind : Kind) (id : string) (got : Z) s s' : Prop :=
  ∃ c c', grown_to r claim kind id got s' ∧
    st_claims s !! cl_key claim = Some c ∧ st_claims s' !! cl_key claim = Some c' ∧
    cl_Capacity c' = <[ResourceStorage := NewQuantity (bytes_of got)]> (cl_Capacity c) ∧
    cl_AllocatedResourceStatuses c' !! ResourceStorage = None.

Lemma size_of_same kind id s s' :
  st_volumes s' = st_volumes s → st_shares s' = st_shares s → size_of kind id s' = size_of kind id s.
Proof. unfold size_of. by intros -> ->. Qed.

Lemma rewritten_keeps k f s s' : rewritten k f s s' →
  st_volumes s' = st_volumes s ∧ st_shares s' = st_shares s ∧ st_grown s' = st_grown s ∧ st_pvs s' = st_pvs s ∧
  ∀ claim, (∀ c, cl_Capacity (f c) = cl_Capacity c) → capacity_of claim s' = capacity_of claim s.
Proof.
  intros (cur & rv & Hc & ->). do 4 (split; [done|]). intros claim Hf. unfold capacity_of. simpl.
  destruct (decide (cl_key claim = k)) as [->|]; [|by rewrite lookup_insert_ne].
  rewrite lookup_insert_eq, Hc. simpl. by rewrite Hf.
Qed.
Lemma recorded_capacity size state c : cl_Capacity (recorded size state c) = cl_Capacity c.
Proof.
  unfold recorded, allocation. cbv zeta. by do 2 (destruct (match _ with Some _ => _ | None => _ end); [done|]).
Qed.

(** What [s0] held of capacity and [s] holds of size is the same still, before
    the last write. *)
Record midway (claim : Claim) kind id pv (got : Z) s0 s : Prop := {
  mw_touches : touches claim kind id pv s0 s;
  mw_capacity : capacity_of claim s = capacity_of claim s0;
  mw_size : size_of kind id s = Some got }.

Lemma recordAllocation_midway s0 s claim kind id pv got size state :
  midway claim kind id pv got s0 s →
  runs view s (recordAllocation claim size state) (λ _ s', midway claim kind id pv got s0 s' ∧ st_grown s' = st_grown s ∧ st_pvs s' = st_pvs s)
    (λ _ s', midway claim kind id pv got s0 s').
Proof.
  intros Hm. assert (∀ s', maybe s (rewritten (cl_key claim) (recorded size state) s) s' →
    midway claim kind id pv got s0 s' ∧ st_grown s' = st_grown s ∧ st_pvs s' = st_pvs s) as H.
  { intros s' [->|Hr]; [done|]. pose proof (rewritten_keeps _ _ _ _ Hr) as (Hv & Hs & Hg & Hp & Hcap).
    destruct Hm as [Ht Hc Hz]. split; [|done]. split.
    - eapply touches_trans; [done|]. by eapply touches_rewritten.
    - rewrite <-Hc. apply Hcap. apply recorded_capacity.
    - rewrite <-Hz. by apply size_of_same. }
  eapply runs_conseq; [apply recordAllocation_runs| |]; cbv beta; intros a s' Hs; by apply H.
Qed.

Lemma report_midway r s0 s claim kind id pv got reason message :
  midway claim kind id pv got s0 s →
  runs view s (report r claim reason message) (λ _ s', midway claim kind id pv got s0 s') (λ _ _, False).
Proof.
  intros [Ht Hc Hz]. eapply runs_conseq; [apply report_runs| |done]; cbv beta.
  intros _ s' (l & -> & Hl & _). split; [|done..]. eapply touches_trans; [done|]. by apply touches_events.
Qed.

Lemma sized_claim r claim kind id got s0 s s' :
  capacity_of claim s = capacity_of claim s0 → grown_to r claim kind id got s →
  rewritten (cl_key claim) (sized (NewQuantity (bytes_of got))) s s' → claim_sized r claim kind id got s0 s'.
Proof.
  intros Hcap Hg (cur & rv & Hc & ->). unfold capacity_of in Hcap. rewrite Hc in Hcap. simpl in Hcap.
  destruct (st_claims s0 !! cl_key claim) as [c0|] eqn:Hc0; [|done]. injection Hcap as Hcap.
  eexists c0, _. split; [done|]. split; [done|]. split; [apply lookup_insert_eq|].
  split; [by rewrite <-Hcap|]. simpl. apply lookup_delete_eq.
Qed.

(** The volume object says [size], in what was read of it or in what is stored. *)
Definition volume_says (pv : PersistentVolume) (size : Quantity) s : Prop :=
  opt_or zeroQuantity (pv_Capacity pv !! ResourceStorage) = size ∨
  ∃ new, st_pvs s !! pv_Name pv = Some new ∧ pv_Capacity new !! ResourceStorage = Some size.
(** What a failure leaves of the claim: the size it had, unless the last write
    took effect, and then it is true. *)
Definition not_oversized (r : Reconciler) (claim : Claim) kind id pv gib s s' : Prop :=
  touches claim kind id pv s s' ∧ (capacity_of claim s' = capacity_of claim s ∨
    ∃ got, (gib ≤ got)%Z ∧ claim_sized r claim kind id got s s').

Lemma midway_not_oversized r claim kind id pv got gib s0 s :
  midway claim kind id pv got s0 s → not_oversized r claim kind id pv gib s0 s.
Proof. intros [Ht Hc _]. split; [done|by left]. Qed.

Lemma grow_midway r s0 s claim id pv got :
  can_grow r → midway claim Block id pv got s0 s →
  runs view s (growFilesystems r claim id got)
    (λ _ s', midway claim Block id pv got s0 s' ∧ grown_to r claim Block id got s' ∧ st_pvs s' = st_pvs s)
    (λ _ s', midway claim Block id pv got s0 s').
Proof.
  intros Hgrow [Ht Hc Hz]. assert (∀ s', touches claim Block id pv s s' → same_but_grown s s' →
    midway claim Block id pv got s0 s' ∧ st_pvs s' = st_pvs s) as H.
  { intros s' Ht' Hs. unfold same_but_grown in Hs. split; [|by rewrite Hs]. split.
    - by eapply touches_trans.
    - rewrite <-Hc. unfold capacity_of. by rewrite Hs.
    - rewrite <-Hz, Hs. by apply size_of_same. }
  eapply runs_conseq; [by apply (growFilesystems_runs r s claim Block id pv got)| |]; cbv beta.
  - intros _ s' [Ht' Hs Hall]. destruct (H s') as [Hm Hp]; [done..|]. split; [done|]. split; [|done].
    split; [by destruct Hm|]. intros _. by apply Hall.
  - intros e s' [Ht' Hs]. by destruct (H s').
Qed.

Lemma expanded_runs r s0 s claim kind id pv want got gib :
  (kind = Block → can_grow r) → (gib ≤ got)%Z → midway claim kind id pv got s0 s →
  runs view s (expanded r claim pv kind id want got)
    (λ _ s', touches claim kind id pv s0 s' ∧ claim_sized r claim kind id got s0 s' ∧
       volume_says pv (NewQuantity (bytes_of got)) s')
    (λ _ s', not_oversized r claim kind id pv gib s0 s').
Proof.
  intros Hgrow Hle Hm. unfold expanded. set (actual := NewQuantity (bytes_of got)).
  assert (∀ s', volume_recorded pv actual s s' → midway claim kind id pv got s0 s' ∧ volume_says pv actual s') as Hrec.
  { intros s' Hr. split.
    - destruct Hm as [Ht Hc Hz]. split; [eapply touches_trans; [done|by eapply touches_recorded]|..];
        destruct Hr as (cur & rv & Hcur & ->); [done|]. rewrite <-Hz. by apply size_of_same.
    - destruct Hr as (cur & rv & Hcur & ->). right. eexists. simpl. rewrite lookup_insert_eq. split; [done|].
      simpl. apply lookup_insert_eq. }
  eapply runs_bind; [apply recordVolumeSize_runs| |]; cbv beta.
  { intros e s' [->|Hr]; [by eapply midway_not_oversized|]. eapply midway_not_oversized. by apply Hrec. }
  intros _ s1 H1. assert (midway claim kind id pv got s0 s1 ∧ volume_says pv actual s1) as [Hm1 Hs1].
  { destruct H1 as [[Hcap ->]|Hr]; [|by apply Hrec]. split; [done|by left]. }
  eapply (runs_bind _ _ _ _ (λ _ s2, midway claim kind id pv got s0 s2 ∧ grown_to r claim kind id got s2 ∧ st_pvs s2 = st_pvs s1)
            _ (λ _ s', midway claim kind id pv got s0 s')).
  - case_decide as Hk; [|apply runs_ret; split; [done|]; split; [|done]; by split; [destruct Hm1|]].
    subst kind. eapply runs_bind; [by apply recordAllocation_midway|done|]; cbv beta.
    intros _ s2 (Hm2 & _ & Hp2). eapply runs_try_bind; [by apply (grow_midway r); [apply Hgrow|]| |]; cbv beta.
    + intros u s3 (Hm3 & Hg3 & Hp3). apply runs_ret. split; [done|]. split; [done|congruence].
    + intros e s3 Hm3. eapply runs_bind; [by apply report_midway| |]; cbv beta; [done|].
      intros _ s4 Hm4. by apply runs_fail.
  - intros e s' Hm'. by eapply midway_not_oversized.
  - intros _ s2 (Hm2 & Hg2 & Hp2).
    assert (∀ s', rewritten (cl_key claim) (sized actual) s2 s' →
      touches claim kind id pv s0 s' ∧ claim_sized r claim kind id got s0 s' ∧ st_pvs s' = st_pvs s2) as H.
    { intros s' Hr. split; [eapply touches_trans; [apply Hm2|by eapply touches_rewritten]|].
      split; [|by eapply rewritten_keeps]. eapply sized_claim; [apply Hm2|done|done]. }
    eapply runs_conseq; [apply recordClaimSize_runs| |]; cbv beta.
    + intros _ s' (Ht & Hcs & Hp)%H. do 2 (split; [done|]). destruct Hs1 as [?|(new & Hn & ?)]; [by left|right].
      exists new. by rewrite Hp, Hp2.
    + intros e s' [->|(Ht & Hcs & _)%H]; [by eapply midway_not_oversized|]. split; [done|]. right. by exists got.
Qed.

(** A claim whose request has outgrown what it has, on storage made here. *)
Record outgrown (r : Reconciler) (claim : Claim) (pv : PersistentVolume) (kind id : string) (want : Quantity) : Prop := {
  og_want : cl_Requests claim !! ResourceStorage = Some want;
  og_have : QCmp want (opt_or zeroQuantity (cl_Capacity claim !! ResourceStorage)) = Gt;
  og_pv : rc_Volumes r (cl_VolumeName claim) = Ok pv;
  og_ours : provisionedByUs pv = true;
  og_kind : annotation (pv_Annotations pv) KindAnnotation = kind;
  og_id : annotation (pv_Annotations pv) IDAnnotation = id;
  og_known : id ≠ "" }.

Lemma expandIfAsked_runs r s claim pv kind id want :
  outgrown r claim pv kind id want → (kind = Block → can_grow r) →
  let gib := gib_of (Value want) in
  runs view s (expandIfAsked r claim)
    (λ _ s', touches claim kind id pv s s' ∧ ∃ got, (gib ≤ got)%Z ∧ claim_sized r claim kind id got s s' ∧
       volume_says pv (NewQuantity (bytes_of got)) s')
    (λ _ s', not_oversized r claim kind id pv gib s s').
Proof.
  intros [Hwant Hhave Hpv Hours <- <- Hid] Hgrow gib. unfold expandIfAsked. rewrite Hwant, decide_False by (rewrite Hhave; auto).
  rewrite Hpv, Hours. simpl negb. cbv iota. rewrite decide_False by done. fold gib.
  set (kind := annotation (pv_Annotations pv) KindAnnotation) in *. set (id := annotation (pv_Annotations pv) IDAnnotation) in *.
  assert (∀ size state s s', maybe s (rewritten (cl_key claim) (recorded size state) s) s' →
    touches claim kind id pv s s' ∧ capacity_of claim s' = capacity_of claim s) as Hrec.
  { intros size state s1 s' [->|Hr]; [done|]. split; [by eapply touches_rewritten|].
    pose proof (rewritten_keeps _ _ _ _ Hr) as (_ & _ & _ & _ & Hcap). apply Hcap, recorded_capacity. }
  assert (∀ s1 s', resized kind id s1 s' → touches claim kind id pv s1 s' ∧ capacity_of claim s' = capacity_of claim s1) as Hrz.
  { intros s1 s' Hr. split; [by apply touches_resized|].
    by destruct Hr as [->|[(_ & row & z & p & _ & ->)|(_ & row & z & p & _ & ->)]]. }
  eapply runs_bind; [apply recordAllocation_runs| |]; cbv beta.
  { intros e s' (Ht & Hc)%Hrec. split; [done|by left]. }
  intros _ s1 (Ht1 & Hc1)%Hrec. eapply runs_try_bind; [apply (Expand_runs view)| |]; cbv beta.
  - intros got s2 (Hr & Hsz & Hle). apply Hrz in Hr as [Ht2 Hc2].
    eapply runs_conseq; [apply (expanded_runs r s s2 claim kind id pv want got gib); [done|done|]| |done]; cbv beta.
    + split; [by eapply touches_trans|congruence|done].
    + intros _ s' (Ht & Hcs & Hv). split; [done|]. by exists got.
  - intros e s2 (Ht2 & Hc2)%Hrz.
    eapply (runs_try_bind _ _ _ _ (λ _ s', touches claim kind id pv s s' ∧ capacity_of claim s' = capacity_of claim s)
      (λ _ s', touches claim kind id pv s s' ∧ capacity_of claim s' = capacity_of claim s)).
    { eapply runs_conseq; [apply recordAllocation_runs| |]; cbv beta; intros a s3 (Ht3 & Hc3)%Hrec;
        (split; [by do 2 (eapply touches_trans; [done|])|congruence]). }
    all: intros a s3 [Ht3 Hc3]; (eapply runs_bind; [apply report_runs|done|]); cbv beta;
      intros _ s4 (l & -> & Hl & _); apply runs_fail; (split; [|by left]);
      (eapply touches_trans; [done|by apply touches_events]).
Qed.

(** Settling writes the request over an allocation that is larger, and only
    where the cached claim says that nothing is in progress and that it has no
    more than it asks for. *)
Lemma settleAllocation_runs s claim want have :
  let lowered s' := (∃ a, cl_AllocatedResources claim !! ResourceStorage = Some a ∧ QCmp a want = Gt) ∧
    cl_AllocatedResourceStatuses claim !! ResourceStorage = None ∧ QCmp have want ≠ Gt ∧
    rewritten (cl_key claim) (λ c, with_allocated (<[ResourceStorage := want]> (cl_AllocatedResources c)) c) s s' in
  runs view s (settleAllocation claim want have) (λ _ s', maybe s lowered s') (λ _ s', maybe s lowered s').
Proof.
  intros lowered. unfold settleAllocation.
  destruct (cl_AllocatedResources claim !! ResourceStorage) as [a|] eqn:Ha; [|apply runs_ret; by left].
  case_decide as Hgt; [apply runs_ret; by left|]. case_decide as Hb; [apply runs_ret; by left|].
  case_decide as Hh; [apply runs_ret; by left|].
  eapply runs_bind; [apply (law_claims_Get s)| |]; cbv beta; [intros e s' ->; by left|].
  intros fresh s' (-> & Hc & Hk). fold (cl_key claim) in Hc, Hk. case_decide; [apply runs_fail; by left|].
  assert (∀ s', rewritten (cl_key fresh) (λ c, with_allocated (<[ResourceStorage:=want]> (cl_AllocatedResources c)) c) s s' →
    lowered s') as Hl.
  { intros s' Hr. rewrite Hk in Hr. split; [exists a; split; [done|by destruct (QCmp a want); auto]|].
    split; [by apply eq_None_not_Some|done]. }
  eapply (runs_bind view s _ _ (λ _ s', lowered s') _ (λ _ s', maybe s lowered s')).
  - eapply runs_conseq.
    + apply (update_status_runs s (λ c, with_allocated (<[ResourceStorage:=want]> (cl_AllocatedResources c)) c));
        [by rewrite Hk|done|done].
    + cbv beta. auto.
    + cbv beta. intros e s' [->|Hr]; [by left|right; auto].
  - done.
  - intros _ s' Hs. apply runs_ret. by right.
Qed.
End facts.

(** ** Properties *)

(** C7 Growing a claim never says more than there is, given -- for a block volume
    -- a reconciler with the capsule service and the list of the pods, which every
    reconciler of the process has ([growth_without_capsules] is one that has
    not).  After a success the storage is at least as big as the request, its
    filesystem has been grown in the capsule of every pod of the namespace that
    uses the claim, the volume object says that size, and
    the claim's capacity is exactly it with nothing left in progress.  After a
    failure the claim has the capacity it had, or one that is true in the same
    way.  Nothing but this storage, this claim's status, this volume, these
    filesystems and this claim's events is touched.  The request is one whose
    gibibytes 64 bits hold. *)
Theorem Claim_grows {Q : Quantities} `{!QuantityLaws Q} {W} {cinder : Cinder W} {manila : Manila W} {clock : Clock W}
    {claims : ClaimsAPI W} {pvs : VolumesAPI W} {capsules : CapsuleVolumes W} {events : EventRecorder W}
    (view : W → StState)
    `{!CinderLaws cinder view} `{!ManilaLaws manila view} `{!StorageClockLaws clock cinder manila view}
    `{!ClaimsLaws claims view} `{!VolumesLaws pvs view} `{!CapsuleVolumesLaws capsules view} `{!EventLaws events view}
    (r : Reconciler) (s : StState) (claim : Claim) (pv : PersistentVolume) (kind id : string) (want : Quantity) :
  outgrown r claim pv kind id want → (kind = Block → can_grow r) →
  (0 ≤ amount want ≤ (2 ^ 63 - 1 - 2 ^ 30) * nano)%Z →
  let enough got := (amount want ≤ got * 2 ^ 30 * nano)%Z in
  let true_size got s' := enough got ∧ claim_sized r claim kind id got s s' in
  runs view s (expandIfAsked r claim)
    (λ _ s', touches claim kind id pv s s' ∧
       ∃ got, true_size got s' ∧ volume_says pv (NewQuantity (bytes_of got)) s')
    (λ _ s', touches claim kind id pv s s' ∧
       (capacity_of claim s' = capacity_of claim s ∨ ∃ got, true_size got s')).
Proof.
  intros Hog Hgrow Hb enough true_size.
  assert (∀ got, (gib_of (Value want) ≤ got)%Z → enough got) as Hen.
  { intros got. by apply gib_of_enough. }
  eapply runs_conseq; [by apply (expandIfAsked_runs view)| |]; cbv beta.
  - intros _ s' (Ht & got & Hle & Hcs & Hv). split; [done|]. exists got. split; [|done]. split; auto.
  - intros e s' [Ht [Hc|(got & Hle & Hcs)]]; (split; [done|]); [by left|right; exists got; split; auto].
Qed.

(** What a claim has undertaken to reach is never lowered while it is being
    reached.  Recording an allocation leaves the larger of what was recorded and
    what is asked for, and the state asked for -- except that an expansion found
    infeasible is not said to have started again for the same size -- and leaves
    everything else of the claim as it was. *)
Theorem allocation_floor {Q : Quantities} `{!QuantityLaws Q} (size : Quantity) (state : string) (c : Claim) :
  let c' := recorded size state c in
  let allocated c := cl_AllocatedResources c !! ResourceStorage in
  let status c := annotation (cl_AllocatedResourceStatuses c) ResourceStorage in
  state ≠ "" →
  (∃ a', allocated c' = Some a' ∧
     amount a' = match allocated c with Some a => Z.max (amount a) (amount size) | None => amount size end) ∧
  (status c' = state ∨
     status c' = ControllerResizeInfeasible ∧ c' = c ∧ state = ControllerResizeInProgress ∧
     ∃ a, allocated c = Some a ∧ amount a = amount size) ∧
  (∀ k, k ≠ ResourceStorage → cl_AllocatedResources c' !! k = cl_AllocatedResources c !! k ∧
     cl_AllocatedResourceStatuses c' !! k = cl_AllocatedResourceStatuses c !! k) ∧
  with_statuses ∅ (with_allocated ∅ c') = with_statuses ∅ (with_allocated ∅ c).
Proof.
  intros c' allocated status Hst. unfold c', allocated, status, recorded, allocation. cbv zeta.
  set (was := annotation (cl_AllocatedResourceStatuses c) ResourceStorage).
  destruct (cl_AllocatedResources c !! ResourceStorage) as [a|] eqn:Ha.
  - destruct (bool_decide (QCmp a size ≠ Lt) && bool_decide (was = state)) eqn:H1.
    { apply andb_true_iff in H1 as [H1%bool_decide_eq_true H2%bool_decide_eq_true]. simpl. rewrite Ha.
      split; [exists a; split; [done|]|split; [by left|done]].
      rewrite QCmp_amount in H1. destruct (Z.compare_spec (amount a) (amount size)); [lia|done|lia]. }
    destruct (bool_decide (QCmp a size = Eq) && _ && _) eqn:H2.
    { apply andb_true_iff in H2 as [[H2%bool_decide_eq_true H3%bool_decide_eq_true]%andb_true_iff H4%bool_decide_eq_true].
      rewrite QCmp_amount in H2. apply Z.compare_eq in H2. simpl. rewrite Ha.
      split; [exists a; split; [done|lia]|]. split; [|done]. right. do 3 (split; [done|]). by exists a. }
    simpl. split; [|split; [left; unfold annotation; by rewrite lookup_insert_eq|split; [|done]]].
    + destruct (decide (QCmp a size = Lt)) as [Hlt|Hlt].
      * rewrite lookup_insert_eq. eexists. split; [done|].
        assert (amount a < amount size)%Z by (by rewrite <-Z.compare_lt_iff, <-QCmp_amount). lia.
      * exists a. split; [done|].
        assert (¬ (amount a < amount size)%Z) by (by rewrite <-Z.compare_lt_iff, <-QCmp_amount). lia.
    + intros k Hk. rewrite lookup_insert_ne by done. split; [|done].
      destruct (decide (QCmp a size = Lt)); [by rewrite lookup_insert_ne|done].
  - simpl. split; [rewrite lookup_insert_eq; by eexists|].
    split; [left; unfold annotation; by rewrite lookup_insert_eq|]. split; [|done].
    intros k Hk. by rewrite !lookup_insert_ne.
Qed.

(** Waiting for an extend ends.  The polls made are enough for the two minutes it
    is given, for a volume and for a share, whatever they answer. *)
Theorem Expand_terminates {Q : Quantities} {W} {cinder : Cinder W} {manila : Manila W} {clock : Clock W}
    (view : W → StState) `{!StorageClockLaws clock cinder manila view} (id : string) (want : Z) (w : W) :
  let ends get broken what := (await_loop get broken what want (S extend_polls) (now w + extendSettle) w).1 ≠ Ok None in
  ends (read_volume id) "error_extending" ("volume " +:+ id) ∧ ends (read_share id) "extending_error" ("share " +:+ id).
Proof.
  split; apply (await_loop_enough view); try (unfold extendPoll, extendSettle, minute, second, extend_polls; lia).
  - intros w0. pose proof (law_volumes_forward id w0) as H. unfold read_volume, mbind, M_bind.
    by destruct (volumes_Get id w0) as [[v|e] w1].
  - intros w0. pose proof (law_shares_forward id w0) as H. unfold read_share, mbind, M_bind.
    by destruct (shares_Get id w0) as [[v|e] w1].
Qed.

(** ** Witnesses *)
Abbreviation ExState := (StState (Q:=NanoQuantities)).
Abbreviation ExWorld := (Ref ExState).
Definition ex_gib (n : Z) : @Quantity NanoQuantities := (n * 2 ^ 30 * nano)%Z.
Definition ex_claim : Claim (Q:=NanoQuantities) :=
  mkClaim "prod" "data" "u-1" 3 ∅ None (Some "fast") "pvc-u-1" ["ReadWriteOnce"]
    {[ResourceStorage := ex_gib 3]} {[ResourceStorage := ex_gib 1]} ∅ ∅.
Definition ex_pv : PersistentVolume (Q:=NanoQuantities) :=
  mkPV "pvc-u-1" 2 {[KindAnnotation := Block; IDAnnotation := "vol-1"]} ["ReadWriteOnce"]
    {[ResourceStorage := ex_gib 1]} "Delete" "fast" None (Some (mkCSI BlockDriver "vol-1" ∅)) None "Bound".
Definition ex_user (name uid : string) : Pod :=
  mkPod "prod" name uid ∅ [] None
    (mkPodSpec false false false "" "" "" None None None "" None
       [mkVolume "d" None None None None (Some "data") None] "" [] []) empty_status.
Definition ex_grower (pods : list Pod) : Reconciler (Q:=NanoQuantities) :=
  mkReconciler (mkBackend true true "" "" "" "") (λ _ _, Ok ex_claim) (λ _, Ok ex_pv) (Ok [ex_pv]) None true true
    (Some (λ _, Ok pods)) None "t1" (λ _, true).
Definition ex_volumes : ExState :=
  mkStState {["vol-1" := mkVolumeRow "kubezun_t1_pvc_prod_data" 1 None true "ssd" "nova" ""]} ∅
    {[("prod", "data") := ex_claim]} {["pvc-u-1" := ex_pv]} ∅ [].
Definition ex_expand (capsules : CapsuleVolumes ExWorld) (pods : list Pod) : result () * ExWorld :=
  @expandIfAsked NanoQuantities ExWorld RefCinder RefManila RefClockOf RefClaims RefVolumes capsules RefEvents
    (ex_grower pods) ex_claim (mkRef ex_volumes 0).
Definition ex_expansion : result () * ExWorld := ex_expand RefCapsuleVolumes [ex_user "api" "p-1"].

Lemma ex_outgrown : outgrown (ex_grower [ex_user "api" "p-1"]) ex_claim ex_pv Block "vol-1" (ex_gib 3).
Proof. split; try reflexivity; discriminate. Qed.

Lemma Claim_grows_witness :
  ex_expansion.1 = Ok () ∧
  ∃ got, (ex_gib 3 ≤ got * 2 ^ 30 * nano)%Z ∧
    claim_sized (ex_grower [ex_user "api" "p-1"]) ex_claim Block "vol-1" got ex_volumes (rw_state ex_expansion.2).
Proof.
  pose proof (@Claim_grows NanoQuantities NanoQuantities_laws ExWorld RefCinder RefManila RefClockOf RefClaims RefVolumes
    RefCapsuleVolumes RefEvents rw_state RefCinder_laws RefManila_laws RefStorageClock_laws RefClaims_laws
    RefVolumes_laws RefCapsuleVolumes_laws RefEvents_laws (ex_grower [ex_user "api" "p-1"]) ex_volumes ex_claim ex_pv
    Block "vol-1" (ex_gib 3) ex_outgrown (λ _, conj eq_refl (ex_intro _ _ eq_refl)) ltac:(split; vm_compute; discriminate) (mkRef ex_volumes 0) eq_refl) as H.
  fold (ex_expand RefCapsuleVolumes [ex_user "api" "p-1"]) in H. fold ex_expansion in H.
  assert (is_ok ex_expansion.1 = true) as Hok by (vm_compute; reflexivity).
  revert Hok H. generalize ex_expansion. intros [[[]|e] w] Hok H; [|discriminate Hok].
  split; [reflexivity|]. destruct H as (_ & got & [Hen Hcs] & _). exists got. split; [exact Hen|exact Hcs].
Defined.

Lemma allocation_floor_witness :
  cl_AllocatedResources (recorded (ex_gib 2) ControllerResizeInProgress
    (with_allocated {[ResourceStorage := ex_gib 5]} ex_claim)) !! ResourceStorage = Some (ex_gib 5).
Proof.
  destruct (@allocation_floor NanoQuantities NanoQuantities_laws (ex_gib 2) ControllerResizeInProgress
    (with_allocated {[ResourceStorage := ex_gib 5]} ex_claim)) as ((a & Ha & Hm) & _); [discriminate|].
  rewrite Ha. f_equal. vm_compute in Hm. vm_compute. exact Hm.
Defined.

Lemma Expand_terminates_witness :
  (@await_loop ExWorld RefClockOf (read_volume (cinder:=RefCinder) "vol-1") "error_extending" "volume vol-1" 3
     (S extend_polls) extendSettle (mkRef ex_volumes 0)).1 ≠ Ok None.
Proof.
  exact (proj1 (@Expand_terminates NanoQuantities ExWorld RefCinder RefManila RefClockOf rw_state RefStorageClock_laws
    "vol-1" 3 (mkRef ex_volumes 0))).
Defined.

(** ** What modelling showed *)

(** One pod that uses the claim and has no capsule -- it has finished, or has
    not been started -- keeps the claim at its old size, however often it is
    tried: its filesystem cannot be grown, and that fails the pass. *)
Definition ex_capsules : CapsuleVolumes ExWorld := {|
  http_ExtendVolume capsule volume n :=
    if decide (capsule = "kubezun-done") then fail (ErrResponse 404 "Capsule not found")
    else @http_ExtendVolume _ RefCapsuleVolumes capsule volume n |}.
Theorem finished_pod_blocks_growth :
  let run := ex_expand ex_capsules [ex_user "api" "p-1"; ex_user "job" "done"] in
  run.1 = Err ErrNotFound ∧
  size_of Block "vol-1" (rw_state run.2) = Some 3%Z ∧
  st_grown (rw_state run.2) !! filesystem "p-1" "vol-1" = Some 3%Z ∧
  capacity_of ex_claim (rw_state run.2) = Some {[ResourceStorage := ex_gib 1]}.
Proof. vm_compute. repeat split. Qed.

(** Without the capsule service the claim is said to have its new size while the
    filesystem of the pod that uses it was never grown, and nothing is said of
    it: the reconciler's comment has it said on the claim. *)
Definition ex_no_capsules : Reconciler (Q:=NanoQuantities) :=
  mkReconciler (mkBackend true true "" "" "" "") (λ _ _, Ok ex_claim) (λ _, Ok ex_pv) (Ok [ex_pv]) None true false
    (Some (λ _, Ok [ex_user "api" "p-1"])) None "t1" (λ _, true).
Theorem growth_without_capsules :
  let run := @expandIfAsked NanoQuantities ExWorld RefCinder RefManila RefClockOf RefClaims RefVolumes RefCapsuleVolumes
    RefEvents ex_no_capsules ex_claim (mkRef ex_volumes 0) in
  run.1 = Ok () ∧
  st_grown (rw_state run.2) !! filesystem "p-1" "vol-1" = None ∧
  capacity_of ex_claim (rw_state run.2) = Some {[ResourceStorage := ex_gib 3]} ∧
  st_events (rw_state run.2) = [].
Proof. vm_compute. repeat split. Qed.
