(* ===== verification/VolumeReconciler.v ===== *)
(** * pkg/volume/reconciler.go and controller.go: claims and the storage behind them

    A pass over a claim, the storage made for it and given back when its volume
    cannot be written, the sweep of released volumes, what a pod is told to
    mount, and the worker. *)

From S2P Require Import Prelude GoStd K8s ZunCapsule Storage VolumeBackend VolumePlan VolumeExpand.
From Stdlib Require Import Ascii.

Local Open Scope string_scope.
Local Open Scope list_scope.

Definition VolumeReleased : string := "Released".
Definition VolumeFailed : string := "Failed".
Definition claim_not_found (e : gerror) : bool := bool_decide (root_cause e = ErrK8sNotFound).
Definition already_exists (e : gerror) : bool := bool_decide (root_cause e = ErrK8sAlreadyExists).

Record Mount := mkMount { mt_Kind : Kind; mt_ID : string; mt_Export : string }.

Section reconciler.
Context {Q : Quantities} {W : Type} {cinder : Cinder W} {manila : Manila W} {clock : Clock W}.
Context {claims : ClaimsAPI W} {pvs : VolumesAPI W} {capsules : CapsuleVolumes W} {events : EventRecorder W}.
Variable r : Reconciler.

(** [export, _ = r.Backend.ExportOf(...)]. *)
Definition export_of (made : Provisioned) : M W string :=
  if decide (pr_Kind made = Shared) then
    e ← try (ExportOf (pr_ID made));
    mret (match e with Ok e => e | Err _ => "" end)
  else mret "".

Definition provision (claim : Claim) (kind : Kind) (storageType : string) : M W PersistentVolume :=
  let gib := gib_of (Value (storage_request claim)) in
  let where_ := placementFor r claim in
  made ← Backend_Create (rc_Backend r) (storageName r (cl_Namespace claim) (cl_Name claim)) kind gib
           ("kubezun claim " +:+ claim_text claim) storageType (pm_AZ where_);
  export ← export_of made;
  let pv := new_volume claim made export where_ in
  created ← try (pvs_Create pv);
  match created with
  | Ok created => mret created
  | Err e =>
      try (Backend_Delete (pr_Kind made) (pr_ID made)) ≫= λ _,
      if already_exists e then pvs_Get (pv_Name pv)
      else fail (ErrWrap ("creating the volume for claim " +:+ claim_text claim) e)
  end.

Definition Reconcile (namespace name : string) : M W () :=
  if negb (rc_ServesNamespace r namespace) then mret ()
  else match rc_Claims r namespace name with
  | Err e => if claim_not_found e then mret () else fail e
  | Ok claim =>
      if negb (Ours r claim) || bool_decide (is_Some (cl_DeletionTimestamp claim)) then mret ()
      else if decide (cl_VolumeName claim ≠ "") then expandIfAsked r claim
      else
        plan ← wrap ("claim " +:+ namespace +:+ "/" +:+ name) (lift_result (planFor r claim));
        if waitingForConsumer r claim then mret ()
        else match rc_Volumes r (pvName claim) with
        | Ok _ => mret ()
        | Err e =>
            if claim_not_found e then provision claim plan.1 plan.2 ≫= λ _, mret () else fail e
        end
  end.

(** *** The sweep *)
Definition sweep_volume (pv : PersistentVolume) : M W () :=
  if negb (provisionedByUs pv) then mret ()
  else if decide (pv_Phase pv ≠ VolumeReleased ∧ pv_Phase pv ≠ VolumeFailed) then mret ()
  else if decide (pv_ReclaimPolicy pv ≠ "Delete") then mret ()
  else
    let kind := annotation (pv_Annotations pv) KindAnnotation in
    let id := annotation (pv_Annotations pv) IDAnnotation in
    if decide (id = "") then mret ()
    else
      gone ← try (Backend_Delete kind id);
      match gone with
      | Err _ => mret ()
      | Ok _ => try (pvs_Delete (pv_Name pv)) ≫= λ _, mret ()
      end.
Definition SweepReleased : M W () :=
  match rc_AllVolumes r with
  | Err _ => mret ()
  | Ok all => for_each all sweep_volume
  end.

(** *** What a capsule is told to mount *)
Definition mount_of (pv : PersistentVolume) : M W Mount :=
  let kind := annotation (pv_Annotations pv) KindAnnotation in
  let id := annotation (pv_Annotations pv) IDAnnotation in
  let id := match pv_CSI pv with
    | Some csi => if decide (id = "") then csi_VolumeHandle csi else id
    | None => id end in
  let export := annotation (pv_Annotations pv) ExportAnnotation in
  let no_export := ErrMsg ("share " +:+ id +:+ " has no export location yet") in
  export ← (if decide (kind = Shared ∧ export = "") then
              e ← try (ExportOf id);
              match e with
              | Ok e => if decide (e = "") then fail no_export else mret e
              | Err _ => fail no_export
              end
            else mret export);
  if decide (kind = "" ∨ id = "") then fail (ErrMsg ("volume " +:+ pv_Name pv +:+ " does not say what backs it"))
  else mret (mkMount kind id export).
Definition MountFor (namespace claimName : string) : M W Mount :=
  claim ← wrap ("claim " +:+ namespace +:+ "/" +:+ claimName) (lift_result (rc_Claims r namespace claimName));
  if decide (cl_VolumeName claim = "") then
    fail (ErrMsg ("claim " +:+ namespace +:+ "/" +:+ claimName +:+ " has no volume yet"))
  else
    pv ← lift_result (rc_Volumes r (cl_VolumeName claim));
    mount_of pv.
End reconciler.

(** ** controller.go: one key off the queue, and the key of an event *)
Section controller.
Context {Q : Quantities} {W : Type} {cinder : Cinder W} {manila : Manila W} {clock : Clock W}.
Context {claims : ClaimsAPI W} {pvs : VolumesAPI W} {capsules : CapsuleVolumes W} {events : EventRecorder W}.
Variable reconcilerOf : string → M W Reconciler.

Definition enqueue (claim : Claim) : string := claim_text claim.
Definition processNext (key : string) : M W Verdict :=
  match SplitMetaNamespaceKey key with
  | None => mret Forgotten
  | Some (namespace, name) =>
      done ← try (r ← reconcilerOf namespace; Reconcile r namespace name);
      mret (match done with Ok _ => Forgotten | Err _ => Requeued end)
  end.
End controller.

(** ** What the calls leave *)
Section facts.
Context {Q : Quantities} {W : Type} {cinder : Cinder W} {manila : Manila W} {clock : Clock W}.
Context {claims : ClaimsAPI W} {pvs : VolumesAPI W} {capsules : CapsuleVolumes W} {events : EventRecorder W}.
Context (view : W → StState).
Context `{!CinderLaws cinder view} `{!ManilaLaws manila view} `{!VolumesLaws pvs view}.
Implicit Types (s : StState) (claim : Claim) (pv : PersistentVolume).

(** The storage made for a claim: of the claim's name, kind, type and zone, and
    at least the size it asks for. *)
Definition placed (r : Reconciler) claim (kind : Kind) (storageType : string) (p : Provisioned) s s' : Prop :=
  made (rc_Backend r) (storageName r (cl_Namespace claim) (cl_Name claim)) kind
    (gib_of (Value (storage_request claim))) ("kubezun claim " +:+ claim_text claim) storageType
    (pm_AZ (placementFor r claim)) p s s'.
(** The volume of a claim put beside what is there. *)
Definition volume_put (r : Reconciler) claim (p : Provisioned) s1 s' : Prop :=
  st_pvs s1 !! pvName claim = None ∧ ∃ export rv phase, (pr_Kind p = Block → export = "") ∧
    s' = set_pvs <[pvName claim := pv_written rv phase (new_volume claim p export (placementFor r claim))]> s1.

Lemma made_removed b name kind gib d t az p s s' : made b name kind gib d t az p s s' → removed kind (pr_ID p) s' = s.
Proof.
  intros (Hk & Hne & Hnone & Hle & H). unfold removed, size_of in *.
  destruct H as [(-> & ->)|(-> & exports & ->)]; simpl in *.
  - apply fmap_None in Hnone. unfold set_volumes. simpl. rewrite delete_insert_id by done. by destruct s.
  - apply fmap_None in Hnone. unfold set_shares. simpl. rewrite delete_insert_id by done. by destruct s.
Qed.
Lemma made_pvs b name kind gib d t az p s s' : made b name kind gib d t az p s s' → st_pvs s' = st_pvs s.
Proof. by intros (_ & _ & _ & _ & [(-> & ->)|(-> & exports & ->)]). Qed.
Lemma removed_pvs kind id f s : removed kind id (set_pvs f s) = set_pvs f (removed kind id s).
Proof. unfold removed. by repeat case_decide. Qed.

Lemma export_of_runs s p :
  runs view s (export_of p) (λ export s', s' = s ∧ (pr_Kind p = Block → export = "")) (λ _ _, False).
Proof.
  unfold export_of. case_decide as Hk; [|by apply runs_ret].
  unfold ExportOf. eapply (runs_try_bind _ _ _ _ (λ _ s', s' = s) (λ _ s', s' = s)).
  - eapply runs_bind; [apply (law_exports s)|done|]; cbv beta. intros l s' [-> _]. by apply runs_ret.
  - intros e s' ->. apply runs_ret. split; [done|]. by rewrite Hk.
  - intros e s' ->. by apply runs_ret.
Qed.

(** Storage can fail to be given back, or the answer to making it be lost. *)
Definition kept (kind : Kind) (p : Provisioned) s : Prop :=
  ¬ cannot_fail view (Backend_Delete kind (pr_ID p)) s.
Definition unanswered (r : Reconciler) claim (kind : Kind) (storageType : string) s : Prop :=
  ¬ cannot_fail view (Backend_Create (rc_Backend r) (storageName r (cl_Namespace claim) (cl_Name claim)) kind
    (gib_of (Value (storage_request claim))) ("kubezun claim " +:+ claim_text claim) storageType
    (pm_AZ (placementFor r claim))) s.

(** What a pass that made storage [p] leaves: the volume beside it; or another
    pass's volume, and the storage gone; or, failed, ... *)
Definition provisioned (r : Reconciler) claim (kind : Kind) (p : Provisioned) s s1 s' : Prop :=
  volume_put r claim p s1 s' ∨
  is_Some (st_pvs s !! pvName claim) ∧ (s' = s ∨ s' = s1 ∧ kept kind p s1).
Definition unprovisioned (r : Reconciler) claim (kind : Kind) (storageType : string) (p : Provisioned) s s1 s' : Prop :=
  (s' = s1 ∧ unanswered r claim kind storageType s) ∨
  volume_put r claim p s s' ∨
  (s' = s1 ∨ volume_put r claim p s1 s') ∧ kept kind p s'.

Lemma provision_runs r s claim kind t :
  runs view s (provision r claim kind t)
    (λ _ s', ∃ p s1, placed r claim kind t p s s1 ∧ provisioned r claim kind p s s1 s')
    (λ _ s', s' = s ∨ ∃ p s1, placed r claim kind t p s s1 ∧ unprovisioned r claim kind t p s s1 s').
Proof.
  unfold provision. eapply runs_bind; [apply (runs_can_fail view), (Backend_Create_runs view)| |]; cbv beta.
  { intros e s' [[->|[p Hp]] Hun]; [by left|]. right. exists p, s'. split; [done|]. by left. }
  intros p s1 Hp. pose proof (made_removed _ _ _ _ _ _ _ _ _ _ Hp) as Hrm.
  pose proof (made_pvs _ _ _ _ _ _ _ _ _ _ Hp) as Hpvs. fold (placed r claim kind t p s s1) in Hp.
  eapply runs_bind; [apply export_of_runs|done|]; cbv beta. intros export s' [-> Hexp].
  set (pv := new_volume claim p export (placementFor r claim)).
  assert (∀ fresh s', pv_created pv fresh s1 s' → volume_put r claim p s1 s') as Hput.
  { intros fresh s' (Hn & (rv & phase & ->) & ->). split; [done|]. by exists export, rv, phase. }
  eapply runs_try_bind; [apply (law_pvs_Create s1)| |]; cbv beta.
  { intros created s' Hc%Hput. apply runs_ret. exists p, s1. split; [done|]. by left. }
  intros e s' [Hm Hex].
  assert (s' = s1 ∨ volume_put r claim p s1 s') as Hs'.
  { destruct Hm as [->|[fresh Hf%Hput]]; auto. }
  assert (pr_Kind p = kind) as Hk by apply Hp. rewrite Hk.
  assert (removed kind (pr_ID p) s' = s ∨ volume_put r claim p s (removed kind (pr_ID p) s')) as Hback.
  { destruct Hs' as [->|(Hn & ex & rv & ph & He & ->)]; [by left|right].
    split; [by rewrite <-Hpvs|]. exists ex, rv, ph. split; [done|]. by rewrite removed_pvs, Hrm. }
  assert (∀ s2, s2 = removed kind (pr_ID p) s' ∨ s2 = s' ∧ kept kind p s' →
    runs view s2 (if already_exists e then pvs_Get (pv_Name pv)
                  else fail (ErrWrap ("creating the volume for claim " +:+ claim_text claim) e))
      (λ _ s', ∃ p s1, placed r claim kind t p s s1 ∧ provisioned r claim kind p s s1 s')
      (λ _ s', s' = s ∨ ∃ p s1, placed r claim kind t p s s1 ∧ unprovisioned r claim kind t p s s1 s')) as Hend.
  { intros s2 Hs2. destruct (already_exists e) eqn:He.
    - apply bool_decide_eq_true in He. destruct (Hex He) as [-> Hsome]. rewrite Hpvs in Hsome. rewrite Hrm in Hs2.
      eapply runs_conseq; [apply (law_pvs_Get s2)| |]; cbv beta.
      + intros _ s3 (-> & _). exists p, s1. split; [done|]. right. split; [done|].
        by destruct Hs2 as [->|[-> Hk2]]; [left|right].
      + intros _ s3 ->. destruct Hs2 as [->|[-> Hk2]]; [by left|right]. exists p, s1.
        split; [done|]. right. right. split; [by left|done].
    - apply runs_fail. destruct Hs2 as [->|[-> Hk2]].
      + destruct Hback as [->|Hb]; [by left|right]. exists p, s1. split; [done|]. right. by left.
      + right. exists p, s1. split; [done|]. by right; right. }
  eapply (runs_try_bind _ _ _ _ (λ _ s2, s2 = removed kind (pr_ID p) s' ∨ s2 = s' ∧ kept kind p s')
    (λ _ s2, s2 = removed kind (pr_ID p) s' ∨ s2 = s' ∧ kept kind p s')); [|intros _ s2; apply Hend..].
  eapply runs_conseq; [apply (runs_can_fail view), (Backend_Delete_runs view)| |]; cbv beta; [intros u s2 ->; by left|].
  intros e' s2 [[->|Hs2] Hk2]; [by right|by left].
Qed.

(** *** The sweep *)
Record condemned (pv : PersistentVolume) : Prop := {
  cd_ours : provisionedByUs pv = true;
  cd_phase : pv_Phase pv = VolumeReleased ∨ pv_Phase pv = VolumeFailed;
  cd_policy : pv_ReclaimPolicy pv = "Delete";
  cd_id : annotation (pv_Annotations pv) IDAnnotation ≠ "" }.
Definition storage_of (pv : PersistentVolume) : Kind * string :=
  (annotation (pv_Annotations pv) KindAnnotation, annotation (pv_Annotations pv) IDAnnotation).

(** Of what was there only the storage of condemned volumes is gone, and the
    volume objects whose storage is. *)
Record reclaimed (all : list PersistentVolume) s s' : Prop := {
  rl_volumes : ∀ j, st_volumes s' !! j = st_volumes s !! j ∨
    st_volumes s' !! j = None ∧ ∃ pv, pv ∈ all ∧ condemned pv ∧ storage_of pv = (Block, j);
  rl_shares : ∀ j, st_shares s' !! j = st_shares s !! j ∨
    st_shares s' !! j = None ∧ ∃ pv, pv ∈ all ∧ condemned pv ∧ storage_of pv = (Shared, j);
  rl_pvs : ∀ n, st_pvs s' !! n = st_pvs s !! n ∨
    st_pvs s' !! n = None ∧ ∃ pv, pv ∈ all ∧ condemned pv ∧ pv_Name pv = n ∧
      size_of (storage_of pv).1 (storage_of pv).2 s' = None;
  rl_rest : st_claims s' = st_claims s ∧ st_grown s' = st_grown s ∧ st_events s' = st_events s }.

Lemma size_of_removed kind id k i s : size_of k i s = None → size_of k i (removed kind id s) = None.
Proof.
  unfold size_of, removed. repeat case_decide; simpl; try done; subst; intros Hn%fmap_None;
    (destruct (decide (id = i)) as [->|]; [by rewrite lookup_delete_eq|by rewrite lookup_delete_ne, Hn]).
Qed.
Lemma size_of_gone kind id s : size_of kind id (removed kind id s) = None.
Proof. unfold size_of, removed. repeat case_decide; simpl; try done; by rewrite lookup_delete_eq. Qed.

Lemma reclaimed_storage all pv s s' :
  pv ∈ all → condemned pv → reclaimed all s s' →
  reclaimed all s (removed (storage_of pv).1 (storage_of pv).2 s').
Proof.
  intros Hin Hc [V S P (C & G & E)]. destruct (storage_of pv) as [kind id] eqn:Hst. simpl.
  assert (st_pvs (removed kind id s') = st_pvs s' ∧ st_claims (removed kind id s') = st_claims s' ∧
    st_grown (removed kind id s') = st_grown s' ∧ st_events (removed kind id s') = st_events s') as (Hp & Hc' & Hg & He)
    by (unfold removed; by repeat case_decide).
  split; [| | |rewrite Hc', Hg, He; auto].
  - intros j. unfold removed. case_decide; [|case_decide]; simpl; [|apply V..].
    destruct (decide (id = j)) as [->|]; [|by rewrite lookup_delete_ne].
    rewrite lookup_delete_eq. right. split; [done|]. exists pv. subst. auto.
  - intros j. unfold removed. case_decide; [simpl; apply S|case_decide]; simpl; [|apply S].
    destruct (decide (id = j)) as [->|]; [|by rewrite lookup_delete_ne].
    rewrite lookup_delete_eq. right. split; [done|]. exists pv. subst. auto.
  - intros n. rewrite Hp. destruct (P n) as [?|(? & pv' & ? & ? & ? & Hn)]; [by left|right].
    split; [done|]. exists pv'. do 3 (split; [done|]). by apply size_of_removed.
Qed.

Lemma reclaimed_object all pv s s' :
  pv ∈ all → condemned pv → size_of (storage_of pv).1 (storage_of pv).2 s' = None → reclaimed all s s' →
  reclaimed all s (set_pvs (delete (pv_Name pv)) s').
Proof.
  intros Hin Hc Hn [V S P R]. split; simpl; [done..| |done]. intros n.
  destruct (decide (pv_Name pv = n)) as [<-|Hne]; [|rewrite lookup_delete_ne by done; apply P].
  rewrite lookup_delete_eq. right. split; [done|]. by exists pv.
Qed.

Lemma sweep_volume_runs all pv s s1 :
  pv ∈ all → reclaimed all s s1 → runs view s1 (sweep_volume pv) (λ _ s', reclaimed all s s') (λ _ _, False).
Proof.
  intros Hin Hr. unfold sweep_volume. destruct (provisionedByUs pv) eqn:Ho; [|by apply runs_ret].
  case_decide as Hph; [by apply runs_ret|]. case_decide as Hpol; [by apply runs_ret|].
  cbv zeta. case_decide as Hid; [by apply runs_ret|]. simpl.
  assert (condemned pv) as Hc.
  { split; [done| | |done].
    - destruct (decide (pv_Phase pv = VolumeReleased)); [by left|right].
      destruct (decide (pv_Phase pv = VolumeFailed)); [done|tauto].
    - destruct (decide (pv_ReclaimPolicy pv = "Delete")); [done|tauto]. }
  eapply runs_try_bind; [apply (Backend_Delete_runs view)| |]; cbv beta.
  - intros u s2 ->. fold (storage_of pv).1. fold (storage_of pv).2.
    eapply (runs_try_bind _ _ _ _ (λ _ s', reclaimed all s s') (λ _ s', reclaimed all s s'));
      [|intros ? ? ?; by apply runs_ret..].
    assert (reclaimed all s (removed (storage_of pv).1 (storage_of pv).2 s1)) as H1 by by apply reclaimed_storage.
    assert (reclaimed all s (set_pvs (delete (pv_Name pv)) (removed (storage_of pv).1 (storage_of pv).2 s1))) as H2
      by (apply reclaimed_object; auto using size_of_gone).
    eapply runs_conseq; [apply law_pvs_Delete| |]; cbv beta; [by intros _ s' ->|by intros e s' [->| ->]].
  - intros e s2 [->| ->]; apply runs_ret; [done|]. by apply (reclaimed_storage all pv).
Qed.

Lemma SweepReleased_runs r s :
  runs view s (SweepReleased r)
    (λ _ s', match rc_AllVolumes r with Ok all => reclaimed all s s' | Err _ => s' = s end) (λ _ _, False).
Proof.
  unfold SweepReleased. destruct (rc_AllVolumes r) as [all|]; [|by apply runs_ret].
  apply (runs_for_each view (λ _ s', reclaimed all s s')).
  - split; auto.
  - intros pre pv post s1 -> Hr. apply sweep_volume_runs; [|done]. set_solver.
Qed.

(** *** Mounts *)
(** What the share's own export locations give. *)
Definition listed_export (s : StState) (id export : string) : Prop :=
  ∃ row, st_shares s !! id = Some row ∧ export = choose_export (sr_Exports row).
Lemma mount_of_runs s pv :
  let kind := (storage_of pv).1 in
  let id := (storage_of pv).2 in
  let export := annotation (pv_Annotations pv) ExportAnnotation in
  id ≠ "" → kind ≠ "" →
  runs view s (mount_of pv)
    (λ m s', s' = s ∧ mt_Kind m = kind ∧ mt_ID m = id ∧ (export ≠ "" ∨ kind ≠ Shared → mt_Export m = export) ∧
       (kind = Shared → mt_Export m ≠ "") ∧ (kind = Shared → export = "" → listed_export s id (mt_Export m)))
    (λ _ s', s' = s ∧ kind = Shared ∧ export = "").
Proof.
  intros kind id export Hid Hk. unfold mount_of.
  change (annotation (pv_Annotations pv) KindAnnotation) with kind.
  change (annotation (pv_Annotations pv) IDAnnotation) with id.
  change (annotation (pv_Annotations pv) ExportAnnotation) with export. cbv zeta. assert (match pv_CSI pv with Some csi => if decide (id = "") then csi_VolumeHandle csi else id
    | None => id end = id) as -> by (destruct (pv_CSI pv); [by rewrite decide_False|done]).
  eapply (runs_bind _ _ _ _ (λ x s', s' = s ∧ (export ≠ "" ∨ kind ≠ Shared → x = export) ∧ (kind = Shared → x ≠ "") ∧
      (kind = Shared → export = "" → listed_export s id x))
    _ (λ _ s', s' = s ∧ kind = Shared ∧ export = "")).
  - case_decide as Hx.
    + destruct Hx as [Hsh He]. unfold ExportOf.
      eapply (runs_try_bind _ _ _ _ (λ x s', s' = s ∧ (x = "" ∨ listed_export s id x)) (λ _ s', s' = s)).
      * eapply runs_bind; [apply (law_exports s)|done|]; cbv beta. intros l s' [-> Hl]. apply runs_ret. split; [done|].
        destruct Hl as [->|(row & Hrow & ->)]; [by left|right]. by exists row.
      * intros x s' [-> Hl]. case_decide; [by apply runs_fail|].
        apply runs_ret. split; [done|]. split; [by intros [?|?]|]. split; [done|]. intros _ _. by destruct Hl.
      * intros e s' ->. by apply runs_fail.
    + apply runs_ret. split; [done|]. split; [done|]. split; [intros Hsh He; apply Hx; by split|].
      intros Hsh He. by destruct Hx.
  - done.
  - intros x s' (-> & H1 & H2 & H3). rewrite decide_False by tauto. apply runs_ret. by repeat split.
Qed.
End facts.

(** ** Properties *)

(** A claim it is time to make storage for. *)
Record due {Q : Quantities} (r : Reconciler) (namespace name : string) (claim : Claim) (kind storageType : string) : Prop := {
  du_serves : rc_ServesNamespace r namespace = true;
  du_claim : rc_Claims r namespace name = Ok claim;
  du_ours : Ours r claim = true;
  du_alive : cl_DeletionTimestamp claim = None;
  du_unbound : cl_VolumeName claim = "";
  du_plan : planFor r claim = Ok (kind, storageType);
  du_placed : waitingForConsumer r claim = false;
  du_none : ∃ e, rc_Volumes r (pvName claim) = Err e ∧ claim_not_found e = true }.

(** C6 A claim gets its storage once, and no other claim gets any.  For a claim of
    a class served here that is placed and has no volume, a success has made
    storage of its kind, type and zone, at least as big as it asks for, and put
    its volume beside it -- or found the volume already put by another pass, and
    then the storage is gone again, unless the storage service can fail to delete
    it there.  A failure has left nothing; or storage whose making was not
    answered for; or the volume alone, put by a write that was reported failed,
    its storage given back; or, only where deleting can fail, the storage.  For any
    other claim without a volume -- not served, gone, of another class, being
    deleted, refused, still waiting for its consumer -- nothing changes.
    The request is one whose gibibytes 64 bits hold ([huge_claim_gets_one_gibibyte]
    is one that is not). *)
Theorem Claim_provisioned {Q : Quantities} `{!QuantityLaws Q} {W} {cinder : Cinder W} {manila : Manila W} {clock : Clock W}
    {claims : ClaimsAPI W} {pvs : VolumesAPI W} {capsules : CapsuleVolumes W} {events : EventRecorder W}
    (view : W → StState) `{!CinderLaws cinder view} `{!ManilaLaws manila view} `{!VolumesLaws pvs view}
    (r : Reconciler) (namespace name : string) (s : StState) :
  (∀ claim, rc_Claims r namespace name = Ok claim → cl_VolumeName claim = "") →
  (∀ claim, rc_Claims r namespace name = Ok claim →
     (0 ≤ amount (storage_request claim) ≤ (2 ^ 63 - 1 - 2 ^ 30) * nano)%Z) →
  (∀ claim kind t, due r namespace name claim kind t →
     let made_for p s1 := placed r claim kind t p s s1 ∧
       (amount (storage_request claim) ≤ pr_GiB p * 2 ^ 30 * nano)%Z in
     runs view s (Reconcile r namespace name)
       (λ _ s', ∃ p s1, made_for p s1 ∧ provisioned view r claim kind p s s1 s')
       (λ _ s', s' = s ∨ ∃ p s1, made_for p s1 ∧ unprovisioned view r claim kind t p s s1 s')) ∧
  ((∀ claim kind t, ¬ due r namespace name claim kind t) →
     runs view s (Reconcile r namespace name) (λ _ s', s' = s) (λ _ s', s' = s)).
Proof.
  intros Hun Hsize. unfold Reconcile. split.
  - intros claim kind t [Hs Hc Ho Hd Hv Hp Hw (e & He & Hn)].
    assert (∀ p s1, placed r claim kind t p s s1 →
      placed r claim kind t p s s1 ∧ (amount (storage_request claim) ≤ pr_GiB p * 2 ^ 30 * nano)%Z) as Hm.
    { intros p s1 Hpl. split; [done|]. apply gib_of_enough; [by apply Hsize|].
      destruct Hpl as (_ & _ & _ & Hle & _). lia. }
    rewrite Hs, Hc. simpl. rewrite Ho, Hd, bool_decide_eq_false_2 by (by intros [? ?]). simpl.
    rewrite decide_False by auto. rewrite Hp. unfold wrap, lift_result. 
    eapply (runs_bind view s _ _ (λ plan s', plan = (kind, t) ∧ s' = s) _ (λ _ _, False)); [by intros w <-|done|].
    intros plan s' [-> ->]. simpl. rewrite Hw, He, Hn.
    eapply runs_bind; [by apply (provision_runs view)| |]; cbv beta.
    + intros e' s' [->|(p & s1 & Hpl & H)]; [by left|right]. exists p, s1. split; [by apply Hm|done].
    + intros pv s' (p & s1 & Hpl & H). apply runs_ret. exists p, s1. split; [by apply Hm|done].
  - intros Hnot. destruct (rc_ServesNamespace r namespace) eqn:Hs; simpl; [|by apply runs_ret].
    destruct (rc_Claims r namespace name) as [claim|e] eqn:Hc;
      [|destruct (claim_not_found e); [by apply runs_ret|by apply runs_fail]].
    destruct (Ours r claim) eqn:Ho; simpl; [|by apply runs_ret].
    case_bool_decide as Hd; [by apply runs_ret|]. specialize (Hun claim eq_refl).
    rewrite decide_False by auto. destruct (planFor r claim) as [[kind t]|e] eqn:Hp.
    2:{ eapply (runs_bind view s _ _ (λ _ _, False) _ (λ _ s', s' = s)); [by intros w <-|done|done]. }
    eapply (runs_bind view s _ _ (λ plan s', plan = (kind, t) ∧ s' = s) _ (λ _ s', s' = s)); [by intros w <-|done|].
    intros plan s' [-> ->]. destruct (waitingForConsumer r claim) eqn:Hw; [by apply runs_ret|].
    destruct (rc_Volumes r (pvName claim)) as [pv|e] eqn:He; [by apply runs_ret|].
    destruct (claim_not_found e) eqn:Hn; [|by apply runs_fail].
    exfalso. apply (Hnot claim kind t). split; try done; [by apply eq_None_not_Some|by exists e].
Qed.

(** A capsule is told to mount what was made for the claim.  For a claim bound to
    the volume a pass wrote, the mount names the storage's kind and id and the
    export recorded -- or, for a share that had none yet, one found since -- and
    is refused only where a share has none; asking changes nothing. *)
Theorem MountFor_roundtrip {Q : Quantities} {W} {manila : Manila W} {cinder : Cinder W}
    (view : W → StState) `{!ManilaLaws manila view} (r : Reconciler) (namespace name : string)
    (bound claim : Claim) (p : Provisioned) (export phase : string) (rv : Z) (where_ : Placement) (s : StState) :
  rc_Claims r namespace name = Ok bound → cl_VolumeName bound ≠ "" →
  rc_Volumes r (cl_VolumeName bound) = Ok (pv_written rv phase (new_volume claim p export where_)) →
  pr_ID p ≠ "" → pr_Kind p = Block ∨ pr_Kind p = Shared → (pr_Kind p = Block → export = "") →
  runs view s (MountFor r namespace name)
    (λ m s', s' = s ∧ mt_Kind m = pr_Kind p ∧ mt_ID m = pr_ID p ∧ (export ≠ "" → mt_Export m = export) ∧
       (pr_Kind p = Shared ↔ mt_Export m ≠ ""))
    (λ _ s', s' = s ∧ pr_Kind p = Shared ∧ export = "").
Proof.
  intros Hc Hv Hp Hid Hk Hexp. unfold MountFor. rewrite Hc.
  eapply (runs_bind view s _ _ (λ c s', c = bound ∧ s' = s) _ (λ _ _, False)); [by intros w <-|done|].
  intros c s' [-> ->]. rewrite decide_False, Hp by done.
  set (pv := pv_written rv phase (new_volume claim p export where_)).
  eapply (runs_bind view s _ _ (λ x s', x = pv ∧ s' = s) _ (λ _ _, False)); [by intros w <-|done|].
  intros x s' [-> ->].
  assert (storage_of pv = (pr_Kind p, pr_ID p)) as Hst by done.
  assert (annotation (pv_Annotations pv) ExportAnnotation = export) as Hex by done.
  pose proof (mount_of_runs view s pv) as H. cbv zeta in H. rewrite Hst, Hex in H. cbn [fst snd] in H.
  eapply runs_conseq; [apply H; [done|by destruct Hk as [->| ->]]| |done]; cbv beta.
  intros m s' (-> & Hmk & Hmi & Hme & Hms & _). do 3 (split; [done|]). split; [by auto|].
  split; [done|]. destruct Hk as [Hb|]; [|done]. intros Hne. destruct Hne. rewrite Hme; [by apply Hexp|right].
  by rewrite Hb.
Qed.

(** C28 The sweep removes the storage of released volumes, and nothing else.  Only
    what backs a volume of this provisioner that is Released or Failed and is to
    be deleted may be gone, and a volume object is gone only when its storage
    is.  A volume made for a claim is such a one, once released, exactly when
    the claim did not ask for it to be retained. *)
Theorem SweepReleased_safe {Q : Quantities} {W} {cinder : Cinder W} {manila : Manila W} {pvs : VolumesAPI W}
    (view : W → StState) `{!CinderLaws cinder view} `{!ManilaLaws manila view} `{!VolumesLaws pvs view}
    (r : Reconciler) (all : list PersistentVolume) (s : StState) :
  rc_AllVolumes r = Ok all →
  runs view s (SweepReleased r) (λ _ s', reclaimed all s s') (λ _ _, False) ∧
  ∀ claim p export where_ rv, pr_ID p ≠ "" →
    (condemned (pv_written rv VolumeReleased (new_volume claim p export where_)) ↔
     annotation (cl_Annotations claim) ReclaimAnnotation ≠ "Retain").
Proof.
  intros Hall. split.
  - eapply runs_conseq; [apply (SweepReleased_runs view)| |done]; cbv beta. by rewrite Hall.
  - intros claim p export where_ rv Hid. split.
    + intros [_ _ Hpol _] Hret. simpl in Hpol. by rewrite decide_True in Hpol.
    + intros Hret. split; [|by left|simpl; by rewrite decide_False|done].
      unfold provisionedByUs. simpl. rewrite bool_decide_eq_true. case_decide; auto.
Qed.

(** ** Witnesses *)
Definition ex_class : StorageClass :=
  mkStorageClass "fast" BlockDriver {["type" := "ssd"]} (Some WaitForFirstConsumer).
Definition ex_new_claim (annotations : gmap string string) : Claim (Q:=NanoQuantities) :=
  mkClaim "prod" "data" "u-1" 3 annotations None (Some "fast") "" ["ReadWriteOnce"]
    {[ResourceStorage := ex_gib 3]} ∅ ∅ ∅.
Definition ex_placed : Claim (Q:=NanoQuantities) := ex_new_claim {[selectedNodeAnnotation := "n1"]}.
Definition ex_maker (claim : Claim) (volumes : string → result PersistentVolume) (all : list PersistentVolume)
    : Reconciler (Q:=NanoQuantities) :=
  mkReconciler (mkBackend true true "" "" "" "nova") (λ _ _, Ok claim) volumes (Ok all)
    (Some (λ n, if decide (n = "fast") then Ok ex_class else Err ErrK8sNotFound)) true true None
    (Some (λ n, if decide (n = "n1") then Some (mkPlacement "az1" "nova" "east") else None)) "t1"
    (λ ns, bool_decide (ns = "prod")).
Definition ex_pass (create : VolumesAPI ExWorld) (r : Reconciler) (s : ExState) : result () * ExWorld :=
  @Reconcile NanoQuantities ExWorld RefCinder RefManila RefClockOf RefClaims create RefCapsuleVolumes RefEvents r
    "prod" "data" (mkRef s 0).
Definition ex_empty : ExState := mkStState ∅ ∅ {[("prod", "data") := ex_placed]} ∅ ∅ [].
Definition ex_maker0 : Reconciler (Q:=NanoQuantities) := ex_maker ex_placed (λ _, Err ErrK8sNotFound) [].
Definition ex_provision : result () * ExWorld := ex_pass RefVolumes ex_maker0 ex_empty.

Lemma ex_due : due ex_maker0 "prod" "data" ex_placed Block "ssd".
Proof. split; try reflexivity. exists ErrK8sNotFound. split; reflexivity. Qed.

Lemma Claim_provisioned_witness :
  ex_provision.1 = Ok () ∧ ∃ p s1, placed ex_maker0 ex_placed Block "ssd" p ex_empty s1 ∧
    (ex_gib 3 ≤ pr_GiB p * 2 ^ 30 * nano)%Z ∧ volume_put ex_maker0 ex_placed p s1 (rw_state ex_provision.2).
Proof.
  assert (∀ claim, rc_Claims ex_maker0 "prod" "data" = Ok claim → cl_VolumeName claim = "") as H1
    by (intros claim [= <-]; reflexivity).
  assert (∀ claim, rc_Claims ex_maker0 "prod" "data" = Ok claim →
    (0 ≤ @amount _ NanoQuantities_laws (storage_request claim) ≤ (2 ^ 63 - 1 - 2 ^ 30) * nano)%Z) as H2
    by (intros claim [= <-]; split; vm_compute; discriminate).
  destruct (@Claim_provisioned NanoQuantities NanoQuantities_laws ExWorld RefCinder RefManila RefClockOf RefClaims RefVolumes
    RefCapsuleVolumes RefEvents rw_state RefCinder_laws RefManila_laws RefVolumes_laws ex_maker0 "prod" "data" ex_empty
    H1 H2) as [H _].
  specialize (H ex_placed Block "ssd" ex_due (mkRef ex_empty 0) eq_refl).
  fold (ex_pass RefVolumes ex_maker0 ex_empty) in H. fold ex_provision in H.
  assert (is_ok ex_provision.1 = true) as Hok by (vm_compute; reflexivity).
  revert Hok H. generalize ex_provision. intros [[[]|e] w] Hok H; [|discriminate Hok].
  split; [reflexivity|]. destruct H as (p & s1 & [Hp Hs] & [Hv|[Hn _]]); [|by destruct Hn].
  exists p, s1. split; [exact Hp|]. split; [exact Hs|exact Hv].
Defined.

Definition ex_made : Provisioned := mkProvisioned Block "vol-1" 3.
Definition ex_written : PersistentVolume (Q:=NanoQuantities) :=
  pv_written 1 "Bound" (new_volume ex_placed ex_made "" (mkPlacement "az1" "nova" "east")).
Definition ex_bound : Reconciler (Q:=NanoQuantities) := ex_maker ex_claim (λ _, Ok ex_written) [].
Definition ex_mount : result Mount * ExWorld :=
  @MountFor NanoQuantities ExWorld RefManila ex_bound "prod" "data" (mkRef ex_empty 0).
Lemma MountFor_roundtrip_witness :
  is_ok ex_mount.1 = true ∧ ∃ m, ex_mount.1 = Ok m ∧ mt_Kind m = Block ∧ mt_ID m = "vol-1".
Proof.
  pose proof (@MountFor_roundtrip NanoQuantities ExWorld RefManila RefCinder rw_state RefManila_laws ex_bound "prod" "data"
    ex_claim ex_placed ex_made "" "Bound" 1 (mkPlacement "az1" "nova" "east") ex_empty eq_refl ltac:(discriminate)
    eq_refl ltac:(discriminate) (or_introl eq_refl) (λ _, eq_refl) (mkRef ex_empty 0) eq_refl) as H.
  fold ex_mount in H. assert (is_ok ex_mount.1 = true) as Hok by (vm_compute; reflexivity).
  revert Hok H. generalize ex_mount. intros [[m|e] w] Hok H; [|discriminate Hok].
  split; [reflexivity|]. exists m. destruct H as (_ & Hk & Hi & _). split; [reflexivity|]. split; [exact Hk|exact Hi].
Defined.

Definition ex_released : PersistentVolume (Q:=NanoQuantities) :=
  pv_written 2 VolumeReleased (new_volume ex_placed ex_made "" (mkPlacement "az1" "nova" "east")).
Definition ex_sweeper : Reconciler (Q:=NanoQuantities) :=
  ex_maker ex_placed (λ _, Err ErrK8sNotFound) [ex_released; ex_pv].
Definition ex_unswept : ExState :=
  mkStState {["vol-1" := mkVolumeRow "kubezun_t1_pvc_prod_data" 3 None false "ssd" "nova" "";
              "vol-2" := mkVolumeRow "other" 3 None false "ssd" "nova" ""]} ∅ ∅ {["pvc-u-1" := ex_released]} ∅ [].
Definition ex_swept : result () * ExWorld :=
  @SweepReleased NanoQuantities ExWorld RefCinder RefManila RefVolumes ex_sweeper (mkRef ex_unswept 0).
Lemma SweepReleased_safe_witness :
  size_of Block "vol-1" (rw_state ex_swept.2) = None ∧ reclaimed [ex_released; ex_pv] ex_unswept (rw_state ex_swept.2).
Proof.
  destruct (@SweepReleased_safe NanoQuantities ExWorld RefCinder RefManila RefVolumes rw_state RefCinder_laws
    RefManila_laws RefVolumes_laws ex_sweeper [ex_released; ex_pv] ex_unswept eq_refl) as [H _].
  specialize (H (mkRef ex_unswept 0) eq_refl). fold ex_swept in H. split; [vm_compute; reflexivity|].
  assert (is_ok ex_swept.1 = true) as Hok by (vm_compute; reflexivity).
  revert Hok H. generalize ex_swept. intros [[[]|e] w] Hok H; [exact H|discriminate Hok].
Defined.

(** ** What modelling showed *)

(** An answer that is lost after the volume object was written is taken for a
    failure to write it: the storage is given back, and the volume stays, naming
    storage that is gone -- which the next pass finds and is content with. *)
Definition ex_lost_reply : VolumesAPI ExWorld := {|
  pvs_Get := @pvs_Get _ _ RefVolumes;
  pvs_Create pv w := (Err (ErrResponse 504 "timeout"), (@pvs_Create _ _ RefVolumes pv w).2);
  pvs_Update := @pvs_Update _ _ RefVolumes;
  pvs_Delete := @pvs_Delete _ _ RefVolumes |}.
Theorem lost_reply_leaves_volume_without_storage :
  let s := rw_state (ex_pass ex_lost_reply ex_maker0 ex_empty).2 in
  match st_pvs s !! "pvc-u-1" with
  | Some pv =>
      let next := ex_pass RefVolumes (ex_maker ex_placed (λ _, Ok pv) []) s in
      (storage_of pv).1 = Block ∧ size_of Block (storage_of pv).2 s = None ∧
      next.1 = Ok () ∧ size_of Block (storage_of pv).2 (rw_state next.2) = None
  | None => False
  end.
Proof. vm_compute. repeat split. Qed.

(** A claim within a gibibyte of the largest size there is gets one gibibyte. *)
Definition ex_huge : Claim (Q:=NanoQuantities) :=
  mkClaim "prod" "data" "u-1" 3 {[selectedNodeAnnotation := "n1"]} None (Some "fast") "" ["ReadWriteOnce"]
    {[ResourceStorage := ((2 ^ 63 - 1) * nano)%Z : @Quantity NanoQuantities]} ∅ ∅ ∅.
Theorem huge_claim_gets_one_gibibyte :
  let run := ex_pass RefVolumes (ex_maker ex_huge (λ _, Err ErrK8sNotFound) []) ex_empty in
  run.1 = Ok () ∧ map (λ kv, vr_Size kv.2) (map_to_list (st_volumes (rw_state run.2))) = [1%Z].
Proof. vm_compute. split; reflexivity. Qed.
