(* ===== verification/NodeRun.v ===== *)
(** * pkg/vknode/vknode.go: the life of a set of virtual nodes

    A node's run starts its kubelet API, its pod controller and its node
    controller in that order and takes them down in the other, whatever stops
    first; a set's run starts every node and ends with the first that ends.  The
    goroutines interleave, the controllers become ready and stop when they like,
    and a select takes any channel that is closed: each is a step of a relation. *)

From S2P Require Import Prelude.
From stdpp Require Import relations.
From Stdlib Require Import Lia.

Local Open Scope string_scope.
Local Open Scope list_scope.

(** ** A node *)

(** What serves the kubelet API: a handler that was given, the standard pod
    routes, or one of them behind the authorizer. *)
Inductive Handler := Given (name : string) | PodRoutes | WithAuth (h : Handler).

Record Node := mkNode {
  nd_name : string;
  nd_handler : option Handler;
  nd_auth : bool;                  (* an authorizer is configured *)
  nd_tlsConfig : bool;
  nd_listenAddr : string;
  nd_workers : nat }.

(** The address and handler a listener serves.  [l] is how listening went. *)
Definition runHTTP (n : Node) (l : result ()) : result (option (string * Handler)) :=
  if negb (nd_tlsConfig n) then Ok None
  else
    let handler := opt_or PodRoutes (nd_handler n) in
    if nd_auth n then
      match l with
      | Err e => Err (ErrWrap ("node " +:+ nd_name n +:+ ": kubelet API listener") e)
      | Ok _ => Ok (Some (nd_listenAddr n, WithAuth handler))
      end
    else Err (ErrMsg ("node " +:+ nd_name n +:+ ": TLS is configured but no authorizer; refusing to serve the " +:+
           "kubelet API, which would expose logs and exec to any caller")).

(** A controller: whether [Run] was called, and its two channels; a closed [Done]
    comes with what [Err] says. *)
Record Controller := mkController { ct_started : bool; ct_ready : bool; ct_done : option (option gerror) }.
Definition fresh : Controller := mkController false false None.
Definition started (c : Controller) : Controller := mkController true (ct_ready c) (ct_done c).
Definition now_ready (c : Controller) : Controller := mkController (ct_started c) true (ct_done c).
Definition now_done (e : option gerror) (c : Controller) : Controller :=
  mkController (ct_started c) (ct_ready c) (Some e).

(** ** The run of a node *)
Inductive Deferred := CloseNode | StopHTTP | StopPC | StopNC.
#[export] Instance Deferred_eq_dec : EqDecision Deferred.
Proof. solve_decision. Defined.

Inductive Loc :=
  | Begin
  | AwaitPC                  (* the first select *)
  | AwaitNC                  (* the second *)
  | Serving                  (* the third, after [close(n.ready)] *)
  | Unwinding                (* returning: what was deferred runs *)
  | Returned
  | Reported.                (* and what it returned is on [errs] *)
#[export] Instance Loc_eq_dec : EqDecision Loc.
Proof. solve_decision. Defined.

Record NodeRun := mkNodeRun {
  nr_at : Loc;
  nr_defers : list Deferred;
  nr_ret : option gerror;                     (* [retErr] *)
  nr_cancelled : bool;                        (* its own [cancel] was called *)
  nr_http : option (string * Handler);        (* what is listening *)
  nr_pc : Controller; nr_nc : Controller;
  nr_ready : bool; nr_done : bool; nr_err : option gerror }.

(** Deferred at once: closing [done]. *)
Definition node_begin : NodeRun := mkNodeRun Begin [CloseNode] None false None fresh fresh false false None.

Definition ErrCanceled : gerror := ErrMsg "context canceled".

Definition return_ (e : option gerror) (s : NodeRun) : NodeRun :=
  mkNodeRun Unwinding (nr_defers s) e (nr_cancelled s) (nr_http s) (nr_pc s) (nr_nc s) (nr_ready s) (nr_done s) (nr_err s).
Definition await_pc (h : option (string * Handler)) (s : NodeRun) : NodeRun :=
  mkNodeRun AwaitPC (StopPC :: StopHTTP :: nr_defers s) (nr_ret s) (nr_cancelled s) h
    (started (nr_pc s)) (nr_nc s) (nr_ready s) (nr_done s) (nr_err s).
Definition await_nc (s : NodeRun) : NodeRun :=
  mkNodeRun AwaitNC (StopNC :: nr_defers s) (nr_ret s) (nr_cancelled s) (nr_http s)
    (nr_pc s) (started (nr_nc s)) (nr_ready s) (nr_done s) (nr_err s).
Definition close_ready (s : NodeRun) : NodeRun :=
  mkNodeRun Serving (nr_defers s) (nr_ret s) (nr_cancelled s) (nr_http s) (nr_pc s) (nr_nc s) true (nr_done s) (nr_err s).
Definition cancel (s : NodeRun) : NodeRun :=
  mkNodeRun (nr_at s) (nr_defers s) (nr_ret s) true (nr_http s) (nr_pc s) (nr_nc s) (nr_ready s) (nr_done s) (nr_err s).
Definition pop (ds : list Deferred) (s : NodeRun) : NodeRun :=
  mkNodeRun (nr_at s) ds (nr_ret s) (nr_cancelled s) (nr_http s) (nr_pc s) (nr_nc s) (nr_ready s) (nr_done s) (nr_err s).
Definition stop_http (ds : list Deferred) (s : NodeRun) : NodeRun :=
  mkNodeRun (nr_at s) ds (nr_ret s) (nr_cancelled s) None (nr_pc s) (nr_nc s) (nr_ready s) (nr_done s) (nr_err s).
Definition close_done (ds : list Deferred) (s : NodeRun) : NodeRun :=
  mkNodeRun (nr_at s) ds (nr_ret s) (nr_cancelled s) (nr_http s) (nr_pc s) (nr_nc s) (nr_ready s) true (nr_ret s).
Definition goto (l : Loc) (s : NodeRun) : NodeRun :=
  mkNodeRun l (nr_defers s) (nr_ret s) (nr_cancelled s) (nr_http s) (nr_pc s) (nr_nc s) (nr_ready s) (nr_done s) (nr_err s).
Definition with_pc (c : Controller) (s : NodeRun) : NodeRun :=
  mkNodeRun (nr_at s) (nr_defers s) (nr_ret s) (nr_cancelled s) (nr_http s) c (nr_nc s) (nr_ready s) (nr_done s) (nr_err s).
Definition with_nc (c : Controller) (s : NodeRun) : NodeRun :=
  mkNodeRun (nr_at s) (nr_defers s) (nr_ret s) (nr_cancelled s) (nr_http s) (nr_pc s) c (nr_ready s) (nr_done s) (nr_err s).

(** The node's context: its parent's or its own. *)
Definition ctx_done (parent : bool) (s : NodeRun) : bool := parent || nr_cancelled s.

(** What the run itself does next. *)
Inductive own_step (parent : bool) (n : Node) (s : NodeRun) : NodeRun → Prop :=
  | own_http_failed l e :
      nr_at s = Begin → runHTTP n l = Err e → own_step parent n s (return_ (Some e) s)
  | own_http l h :
      nr_at s = Begin → runHTTP n l = Ok h → own_step parent n s (await_pc h s)
  | own_ctx :
      nr_at s = AwaitPC ∨ nr_at s = AwaitNC → ctx_done parent s = true →
      own_step parent n s (return_ (Some ErrCanceled) s)
  | own_pc_ready :
      nr_at s = AwaitPC → ct_ready (nr_pc s) = true → own_step parent n s (await_nc s)
  | own_pc_done e :
      nr_at s = AwaitPC ∨ nr_at s = Serving → ct_done (nr_pc s) = Some e → own_step parent n s (return_ e s)
  | own_nc_ready :
      nr_at s = AwaitNC → ct_ready (nr_nc s) = true → own_step parent n s (close_ready s)
  | own_nc_done e :
      nr_at s = AwaitNC ∨ nr_at s = Serving → ct_done (nr_nc s) = Some e → own_step parent n s (return_ e s)
  | own_cancel d ds :
      nr_at s = Unwinding → nr_defers s = d :: ds → d ≠ StopHTTP → nr_cancelled s = false →
      own_step parent n s (cancel s)
  | own_join_nc ds e :
      nr_at s = Unwinding → nr_defers s = StopNC :: ds → nr_cancelled s = true → ct_done (nr_nc s) = Some e →
      own_step parent n s (pop ds s)
  | own_join_pc ds e :
      nr_at s = Unwinding → nr_defers s = StopPC :: ds → nr_cancelled s = true → ct_done (nr_pc s) = Some e →
      own_step parent n s (pop ds s)
  | own_stop_http ds :
      nr_at s = Unwinding → nr_defers s = StopHTTP :: ds → own_step parent n s (stop_http ds s)
  | own_close ds :
      nr_at s = Unwinding → nr_defers s = CloseNode :: ds → nr_cancelled s = true →
      own_step parent n s (close_done ds s)
  | own_return :
      nr_at s = Unwinding → nr_defers s = [] → own_step parent n s (goto Returned s).

(** What the controllers do: each may become ready and stop once it runs. *)
Inductive env (s : NodeRun) : NodeRun → Prop :=
  | env_pc_ready :
      ct_started (nr_pc s) = true → ct_ready (nr_pc s) = false → ct_done (nr_pc s) = None →
      env s (with_pc (now_ready (nr_pc s)) s)
  | env_pc_done e :
      ct_started (nr_pc s) = true → ct_done (nr_pc s) = None → env s (with_pc (now_done e (nr_pc s)) s)
  | env_nc_ready :
      ct_started (nr_nc s) = true → ct_ready (nr_nc s) = false → ct_done (nr_nc s) = None →
      env s (with_nc (now_ready (nr_nc s)) s)
  | env_nc_done e :
      ct_started (nr_nc s) = true → ct_done (nr_nc s) = None → env s (with_nc (now_done e (nr_nc s)) s).

(** ** The run of a set *)
Inductive RunLoc := Selecting | SetReturned (e : option gerror).
(** [WaitReady] waits for the nodes in turn. *)
Inductive WaitLoc := WaitingFor (i : nat) | WaitOver (e : option gerror).

Record SetRun := mkSetRun {
  sr_nodes : list NodeRun;
  sr_cancelled : bool;                        (* the context of [Run] is done *)
  sr_errs : list (option gerror);
  sr_run : RunLoc;
  sr_wait : WaitLoc }.

(** [Run], up to the goroutines it starts: whether the served namespaces could
    be read does not matter to it. *)
Definition Run (nodes : list Node) (namespaces : result ()) : result SetRun :=
  match nodes with
  | [] => Err (ErrMsg "no nodes were registered")
  | _ => Ok (mkSetRun (map (λ _, node_begin) nodes) false [] Selecting (WaitingFor 0))
  end.

Definition put_node (i : nat) (x : NodeRun) (s : SetRun) : SetRun :=
  mkSetRun (<[i := x]> (sr_nodes s)) (sr_cancelled s) (sr_errs s) (sr_run s) (sr_wait s).
Definition send (e : option gerror) (s : SetRun) : SetRun :=
  mkSetRun (sr_nodes s) (sr_cancelled s) (sr_errs s ++ [e]) (sr_run s) (sr_wait s).
(** [Run] returns: its deferred [cancel] runs. *)
Definition run_returns (e : option gerror) (errs : list (option gerror)) (s : SetRun) : SetRun :=
  mkSetRun (sr_nodes s) true errs (SetReturned e) (sr_wait s).
Definition cancel_set (s : SetRun) : SetRun :=
  mkSetRun (sr_nodes s) true (sr_errs s) (sr_run s) (sr_wait s).
Definition wait_at (w : WaitLoc) (s : SetRun) : SetRun :=
  mkSetRun (sr_nodes s) (sr_cancelled s) (sr_errs s) (sr_run s) w.

Section set.
Context (nodes : list Node).

(** What the program does. *)
Inductive set_own (s : SetRun) : SetRun → Prop :=
  | set_node i n x x' :
      nodes !! i = Some n → sr_nodes s !! i = Some x → own_step (sr_cancelled s) n x x' → set_own s (put_node i x' s)
  | set_send i x :
      sr_nodes s !! i = Some x → nr_at x = Returned →
      set_own s (send (nr_ret x) (put_node i (goto Reported x) s))
  | set_run_ctx :
      sr_run s = Selecting → sr_cancelled s = true → set_own s (run_returns (Some ErrCanceled) (sr_errs s) s)
  | set_run_err e errs :
      sr_run s = Selecting → sr_errs s = e :: errs → set_own s (run_returns e errs s)
  | set_wait_ready i x :
      sr_wait s = WaitingFor i → sr_nodes s !! i = Some x → nr_ready x = true →
      set_own s (wait_at (WaitingFor (S i)) s)
  | set_wait_done i n x :
      sr_wait s = WaitingFor i → nodes !! i = Some n → sr_nodes s !! i = Some x → nr_done x = true →
      set_own s (wait_at (WaitOver (Some (ErrWrap ("node " +:+ nd_name n +:+ " stopped before becoming ready")
        (opt_or (ErrMsg "%!w(<nil>)") (nr_err x))))) s)
  | set_wait_all i :
      sr_wait s = WaitingFor i → sr_nodes s !! i = None → set_own s (wait_at (WaitOver None) s).

(** What it does not decide: the controllers, and the callers' contexts. *)
Inductive set_env (s : SetRun) : SetRun → Prop :=
  | set_controllers i x x' : sr_nodes s !! i = Some x → env x x' → set_env s (put_node i x' s)
  | set_cancel : sr_cancelled s = false → sr_run s = Selecting → set_env s (cancel_set s)
  | set_wait_ctx i : sr_wait s = WaitingFor i → set_env s (wait_at (WaitOver (Some ErrCanceled)) s).

Definition set_step (s s' : SetRun) : Prop := set_own s s' ∨ set_env s s'.
End set.

(** ** The invariant of a node's run *)
Definition all_defers : list Deferred := [StopNC; StopPC; StopHTTP; CloseNode].

(** What is deferred wherever the run is. *)
Definition defers_at (l : Loc) (ds : list Deferred) : Prop :=
  match l with
  | Begin => ds = [CloseNode]
  | AwaitPC => ds = [StopPC; StopHTTP; CloseNode]
  | AwaitNC | Serving => ds = all_defers
  | Unwinding => ds `suffix_of` all_defers
  | Returned | Reported => ds = []
  end.

(** A controller that was started is stopped by what is deferred, or has. *)
Definition joined (d : Deferred) (ds : list Deferred) (c : Controller) : Prop :=
  (ct_started c = true → d ∈ ds ∨ is_Some (ct_done c)) ∧ (ct_ready c = true ∨ d ∈ ds → ct_started c = true).

Record node_ok (n : Node) (s : NodeRun) : Prop := {
  ok_defers : defers_at (nr_at s) (nr_defers s);
  ok_pc : joined StopPC (nr_defers s) (nr_pc s);
  ok_nc : joined StopNC (nr_defers s) (nr_nc s);
  (* the API, while it is up: as configured, and behind the authorizer *)
  ok_http : match nr_http s with
    | Some (a, h) => StopHTTP ∈ nr_defers s ∧ nd_tlsConfig n = true ∧ nd_auth n = true ∧ a = nd_listenAddr n ∧
                     h = WithAuth (opt_or PodRoutes (nd_handler n))
    | None => StopHTTP ∈ nr_defers s → nd_tlsConfig n = false end;
  (* the order in which they come up *)
  ok_order : (ct_started (nr_nc s) = true → ct_ready (nr_pc s) = true) ∧
             (nr_ready s = true → ct_ready (nr_nc s) = true) ∧ (nr_at s = Serving → nr_ready s = true);
  ok_done : (nr_done s = true ↔ CloseNode ∉ nr_defers s) ∧
            (nr_done s = true → nr_err s = nr_ret s ∧ nr_cancelled s = true);
  ok_begin : nr_at s = Begin → nr_pc s = fresh ∧ nr_nc s = fresh ∧ nr_http s = None;
  ok_await : nr_at s = AwaitPC → nr_nc s = fresh }.

Lemma node_begin_ok n : node_ok n node_begin.
Proof.
  split; simpl; try done; try (split; [done|]; simpl; intros [?|H]; [done|]; by apply list_elem_of_singleton in H).
  - intros H. by apply list_elem_of_singleton in H.
  - split; [|done]. split; [done|]. intros H. destruct H. by left.
Qed.

Lemma suffix_tail {A} (l m : list A) x : x :: l `suffix_of` m → l `suffix_of` m.
Proof. intros [k ->]. exists (k ++ [x]). by rewrite <-app_assoc. Qed.

(** Which stops are still deferred behind a given one. *)
Lemma suffix_defers d ds :
  d :: ds `suffix_of` all_defers →
  (d = StopNC ∧ ds = [StopPC; StopHTTP; CloseNode]) ∨ (d = StopPC ∧ ds = [StopHTTP; CloseNode]) ∨
  (d = StopHTTP ∧ ds = [CloseNode]) ∨ (d = CloseNode ∧ ds = []).
Proof.
  intros [k H]. unfold all_defers in H.
  destruct k as [|a [|b [|c [|e k]]]]; simpl in H; simplify_eq; auto.
  by destruct k.
Qed.

Lemma runHTTP_ok n l h :
  runHTTP n l = Ok h →
  match h with
  | Some (a, h) => nd_tlsConfig n = true ∧ nd_auth n = true ∧ a = nd_listenAddr n ∧
                   h = WithAuth (opt_or PodRoutes (nd_handler n))
  | None => nd_tlsConfig n = false end.
Proof.
  unfold runHTTP. destruct (nd_tlsConfig n); simpl; [|by intros [= <-]].
  destruct (nd_auth n); [|done]. destruct l; [|done]. by intros [= <-].
Qed.

(** While it runs the node is not done, and what is deferred is a suffix. *)
Lemma running_defers n s :
  node_ok n s → nr_at s ≠ Unwinding → nr_at s ≠ Returned → nr_at s ≠ Reported →
  nr_defers s `suffix_of` all_defers ∧ nr_done s = false.
Proof.
  intros [Hds _ _ _ _ [Hd _] _ _] H1 H2 H3.
  assert (∃ pre, all_defers = pre ++ nr_defers s ∧ CloseNode ∈ nr_defers s) as (pre & Hs & Hin).
  { unfold defers_at in Hds. destruct (nr_at s); try done; rewrite Hds; unfold all_defers.
    - exists [StopNC; StopPC; StopHTTP]. split; [done|by left].
    - exists [StopNC]. split; [done|by do 2 right; left].
    - exists []. split; [done|by do 3 right; left].
    - exists []. split; [done|by do 3 right; left]. }
  split; [by exists pre|]. destruct (nr_done s); [|done]. by destruct (proj1 Hd eq_refl).
Qed.

(** A run that returns has deferred what it had. *)
Lemma return_ok n e s :
  nr_at s ≠ Unwinding → nr_at s ≠ Returned → nr_at s ≠ Reported → node_ok n s → node_ok n (return_ e s).
Proof.
  intros Hu Hr Hp Hok. destruct (running_defers n s Hok Hu Hr Hp) as [Hs Hd].
  destruct Hok as [H1 H2 H3 H4 (H5 & H6 & H7) [H8 H9] H10 H11]. split; simpl; try done.
  split; [done|]. intros H. by rewrite Hd in H.
Qed.

Lemma joined_pop d d' ds c :
  joined d (d' :: ds) c → (d = d' → is_Some (ct_done c)) → joined d ds c.
Proof.
  intros [H1 H2] Hd. split.
  - intros H. destruct (H1 H) as [[->|Hin]%elem_of_cons|?]; auto.
  - intros [H|H]; apply H2; [by left|right; by right].
Qed.

Lemma own_ok parent n s s' : own_step parent n s s' → node_ok n s → node_ok n s'.
Proof.
  intros Hstep Hok.
  destruct Hstep as [l e Hat Hh|l h Hat Hh|Hat _|Hat Hr|e Hat Hd|Hat Hr|e Hat Hd|d ds Hat Hds Hne Hc
    |ds e Hat Hds Hc Hd|ds e Hat Hds Hc Hd|ds Hat Hds|ds Hat Hds Hc|Hat Hds];
    try (apply return_ok; [..|done]; by (rewrite Hat || destruct Hat as [-> | ->]));
    destruct Hok as [H1 H2 H3 H4 (H5 & H6 & H7) [H8 H9] H10 H11]; rewrite Hat in *; simpl in H1.
  - destruct (H10 eq_refl) as (Hpc & Hnc & Hht). apply runHTTP_ok in Hh. rewrite H1, Hpc, Hnc in *.
    split; simpl; rewrite ?Hnc, ?Hpc, ?H1; try done.
    + split; simpl; [left; set_solver|done].
    + split; simpl; [done|]. intros [H|H]; [done|set_solver].
    + destruct h as [[a h]|]; [split; [set_solver|done]|done].
    + split; [|done]. rewrite H8. set_solver.
  - rewrite H1 in *. pose proof (H11 eq_refl) as Hnc. rewrite Hnc in *.
    split; simpl; rewrite ?H1; try done.
    + destruct H2 as [H2 H2']. split; [intros H; destruct (H2 H); [left; set_solver|by right]|].
      intros [H|H]; apply H2'; [by left|right; set_solver].
    + split; simpl; [left; set_solver|done].
    + destruct (nr_http s) as [[a h]|]; [|intros H; apply H4; set_solver]. destruct H4. split; [set_solver|done].
    + rewrite Hnc. by split.
    + split; [|done]. rewrite H8. set_solver.
  - rewrite H1 in *. split; simpl; rewrite ?H1; try done.
  - split; simpl; rewrite ?Hat; try done. split; [done|]. intros H. by split; [apply H9|].
  - rewrite Hds in *. apply suffix_tail in H1 as H1'.
    split; simpl; rewrite ?Hat; try done.
    + by eapply joined_pop; [exact H2|].
    + by eapply joined_pop; [exact H3|].
    + destruct (nr_http s) as [[a h]|]; [|intros H; apply H4; by right]. destruct H4 as [H4 ?]. split; [set_solver|done].
    + split; [|done]. rewrite H8. set_solver.
  - rewrite Hds in *. apply suffix_tail in H1 as H1'.
    split; simpl; rewrite ?Hat; try done.
    + by eapply joined_pop; [exact H2|].
    + by eapply joined_pop; [exact H3|].
    + destruct (nr_http s) as [[a h]|]; [|intros H; apply H4; by right]. destruct H4 as [H4 ?]. split; [set_solver|done].
    + split; [|done]. rewrite H8. set_solver.
  - rewrite Hds in *. apply suffix_defers in H1 as Hsh. destruct Hsh as [[? _]|[[? _]|[[_ ->]|[? _]]]]; try done.
    apply suffix_tail in H1 as H1'. split; simpl; rewrite ?Hat; try done.
    + by eapply joined_pop; [exact H2|].
    + by eapply joined_pop; [exact H3|].
    + by intros H%list_elem_of_singleton.
    + split; [|done]. rewrite H8. set_solver.
  - rewrite Hds in *. apply suffix_defers in H1 as Hsh. destruct Hsh as [[? _]|[[? _]|[[? _]|[_ ->]]]]; try done.
    apply suffix_tail in H1 as H1'. split; simpl; rewrite ?Hat; try done.
    + by eapply joined_pop; [exact H2|].
    + by eapply joined_pop; [exact H3|].
    + destruct (nr_http s) as [[a h]|]; [|by intros ?%elem_of_nil]. destruct H4 as [H4 _]. set_solver.
    + split; [|done]. split; [by intros _ ?%elem_of_nil|done].
  - rewrite Hds in *. split; simpl; rewrite ?Hds; try done.
Qed.

Lemma env_ok n s s' : env s s' → node_ok n s → node_ok n s'.
Proof.
  intros Hstep [H1 [H2 H2'] [H3 H3'] H4 (H5 & H6 & H7) H8 H9 H10].
  destruct Hstep as [Hs Hr Hd|e Hs Hd|Hs Hr Hd|e Hs Hd]; split; simpl; try done; try (split; simpl; [|done]); auto.
  all: try (intros Hat; destruct (H9 Hat) as (Hp & Hn & _); rewrite ?Hp, ?Hn in Hs; done).
  all: intros Hat; rewrite (H10 Hat) in Hs; done.
Qed.

(** *** What a step keeps of a node *)
Lemma own_keeps parent n s s' :
  own_step parent n s s' → nr_at s ≠ Reported ∧ nr_at s ≠ Returned ∧ (nr_ready s = true → nr_ready s' = true).
Proof. by destruct 1 as [? ? Hat|? ? Hat|[Hat|Hat]|Hat|? [Hat|Hat]|Hat|? [Hat|Hat]|? ? Hat|? ? Hat|? ? Hat|? Hat|? Hat|Hat]; rewrite Hat. Qed.
Lemma env_keeps s s' : env s s' → nr_at s' = nr_at s ∧ nr_ret s' = nr_ret s ∧ nr_ready s' = nr_ready s.
Proof. by destruct 1. Qed.
Lemma goto_reported_ok n s : nr_at s = Returned → node_ok n s → node_ok n (goto Reported s).
Proof.
  intros Hat [H1 H2 H3 H4 (H5 & H6 & H7) H8 H9 H10]. rewrite Hat in H1. by split.
Qed.

(** *** Where a run waits *)

(** A controller that was started and has not stopped. *)
Definition still_runs (c : Controller) : Prop := ct_started c = true ∧ ct_done c = None.
Definition waits (s : NodeRun) : Prop := still_runs (nr_pc s) ∨ still_runs (nr_nc s).

Lemma blocked_waits n s :
  node_ok n s → (∀ s', ¬ own_step true n s s') → nr_at s = Returned ∨ nr_at s = Reported ∨ waits s.
Proof.
  intros [H1 [H2 H2'] [H3 H3'] H4 (H5 & H6 & H7) H8 H9 H10] Hno.
  destruct (nr_at s) eqn:Hat; [| | | | |by left|by right; left].
  - exfalso. destruct (runHTTP n (Ok ())) as [h|e] eqn:Hh.
    + eapply Hno. by eapply own_http.
    + eapply Hno. by eapply own_http_failed.
  - exfalso. eapply Hno, own_ctx; [by left|done].
  - exfalso. eapply Hno, own_ctx; [by right|done].
  - right; right. right. rewrite H1 in H3'. split; [apply H3'; right; by left|]. destruct (ct_done (nr_nc s)) as [e|] eqn:Hd; [|done].
    exfalso. eapply Hno, (own_nc_done _ _ _ e); [by right|done].
  - destruct (nr_defers s) as [|d ds] eqn:Hds; [exfalso; by eapply Hno, own_return|].
    destruct (decide (d = StopHTTP)) as [->|Hne]; [exfalso; by eapply Hno, own_stop_http|].
    destruct (nr_cancelled s) eqn:Hc; [|exfalso; by eapply Hno, own_cancel].
    destruct d; [exfalso; by eapply Hno, own_close|done| |].
    + right; right. left. split; [apply H2'; right; by left|].
      destruct (ct_done (nr_pc s)) as [e|] eqn:Hd; [|done]. exfalso. by eapply Hno, own_join_pc.
    + right; right. right. split; [apply H3'; right; by left|].
      destruct (ct_done (nr_nc s)) as [e|] eqn:Hd; [|done]. exfalso. by eapply Hno, own_join_nc.
Qed.

(** *** Every run ends *)
Definition loc_rank (l : Loc) : nat :=
  match l with
  | Begin => 9 | AwaitPC => 6 | AwaitNC => 4 | Serving => 3 | Unwinding => 2 | Returned => 1 | Reported => 0 end.
Definition pending (c : Controller) : nat :=
  (if ct_ready c then 0 else 1) + match ct_done c with Some _ => 0 | None => 1 end.
Definition node_measure (s : NodeRun) : nat :=
  loc_rank (nr_at s) + length (nr_defers s) + (if nr_cancelled s then 0 else 1) + pending (nr_pc s) + pending (nr_nc s).

Lemma own_decreases parent n s s' : own_step parent n s s' → node_measure s' < node_measure s.
Proof.
  unfold node_measure, pending.
  destruct 1 as [? ? Hat|? ? Hat|[Hat|Hat]|Hat|? [Hat|Hat]|Hat|? [Hat|Hat]|? ? Hat Hds ? Hc|? ? Hat Hds
    |? ? Hat Hds|? Hat Hds|? Hat Hds|Hat Hds]; simpl; rewrite ?Hat, ?Hds, ?Hc; simpl; lia.
Qed.
Lemma env_decreases s s' : env s s' → node_measure s' < node_measure s.
Proof.
  unfold node_measure, pending.
  destruct 1 as [_ Hr Hd|e _ Hd|_ Hr Hd|e _ Hd]; simpl; rewrite ?Hr, ?Hd; simpl; destruct (ct_ready _); simpl; lia.
Qed.

Lemma sum_list_insert {A} (f : A → nat) (l : list A) i x x' :
  l !! i = Some x → sum_list_with f (<[i := x']> l) + f x = sum_list_with f l + f x'.
Proof.
  revert i. induction l as [|y l IH]; intros [|i]; simpl; try done; [intros [= ->]; lia|].
  intros H. apply IH in H. lia.
Qed.

Definition set_measure (s : SetRun) : nat :=
  sum_list_with node_measure (sr_nodes s) + (if sr_cancelled s then 0 else 1) +
  match sr_run s with Selecting => 1 | _ => 0 end +
  match sr_wait s with WaitingFor i => S (length (sr_nodes s) - i) | _ => 0 end.

Lemma put_node_measure i x x' s :
  sr_nodes s !! i = Some x → node_measure x' < node_measure x → set_measure (put_node i x' s) < set_measure s.
Proof.
  intros Hi Hx. unfold set_measure. simpl. rewrite length_insert.
  pose proof (sum_list_insert node_measure _ _ _ x' Hi). lia.
Qed.
Lemma set_step_decreases nodes s s' : set_step nodes s s' → set_measure s' < set_measure s.
Proof.
  intros [H|H].
  - destruct H as [i n x x' _ Hi Hx|i x Hi Hat|Hr Hc|e errs Hr He|i x Hw Hi _|i n x Hw _ _ _|i Hw _].
    + eapply put_node_measure; [done|by eapply own_decreases].
    + assert (set_measure (put_node i (goto Reported x) s) < set_measure s); [|done].
      eapply put_node_measure; [done|]. unfold node_measure. simpl. rewrite Hat. simpl. lia.
    + unfold set_measure. simpl. rewrite Hr, Hc. lia.
    + unfold set_measure. simpl. rewrite Hr. destruct (sr_cancelled s); lia.
    + unfold set_measure. simpl. rewrite Hw. apply lookup_lt_Some in Hi. lia.
    + unfold set_measure. simpl. rewrite Hw. lia.
    + unfold set_measure. simpl. rewrite Hw. lia.
  - destruct H as [i x x' Hi Hx|Hc Hr|i Hw].
    + eapply put_node_measure; [done|by apply env_decreases].
    + unfold set_measure. simpl. rewrite Hc. lia.
    + unfold set_measure. simpl. rewrite Hw. lia.
Qed.

(** ** The invariant of a set's run *)
Section set_facts.
Context (nodes : list Node).

(** A node whose run ended with [e], and has said so. *)
Definition reported (s : SetRun) (e : option gerror) : Prop :=
  ∃ i x, sr_nodes s !! i = Some x ∧ nr_at x = Reported ∧ nr_ret x = e.

Record set_ok (s : SetRun) : Prop := {
  so_length : length (sr_nodes s) = length nodes;
  so_nodes : ∀ i n x, nodes !! i = Some n → sr_nodes s !! i = Some x → node_ok n x;
  so_errs : ∀ e, e ∈ sr_errs s → reported s e;
  so_run : ∀ e, sr_run s = SetReturned e →
    sr_cancelled s = true ∧ (e = Some ErrCanceled ∨ reported s e);
  so_heard : sr_run s = Selecting → ∀ e, reported s e → sr_errs s ≠ [];
  so_wait : match sr_wait s with
    | WaitingFor i => ∀ j x, j < i → sr_nodes s !! j = Some x → nr_ready x = true
    | WaitOver None => ∀ j x, sr_nodes s !! j = Some x → nr_ready x = true
    | WaitOver (Some _) => True end }.

Lemma Run_ok namespaces s : Run nodes namespaces = Ok s → set_ok s.
Proof.
  unfold Run. destruct nodes as [|n l] eqn:Hn; [done|]. rewrite <-Hn in *. intros [= <-].
  assert (∀ i x, map (λ _, node_begin) nodes !! i = Some x → x = node_begin) as Hx.
  { intros i x H. apply list_lookup_fmap_Some in H as (n' & -> & _). done. }
  split; simpl.
  - by rewrite length_map.
  - intros i n' x _ H. rewrite (Hx i x H). apply node_begin_ok.
  - by intros e ?%elem_of_nil.
  - done.
  - intros _ e (i & x & H & Hat & _). by rewrite (Hx i x H) in Hat.
  - intros j x H. lia.
Qed.

(** A node that moves without reporting keeps what was said. *)
Lemma reported_put i x x' s e :
  sr_nodes s !! i = Some x → nr_at x' = nr_at x ∧ nr_ret x' = nr_ret x ∨ nr_at x ≠ Reported ∧ nr_at x' ≠ Reported →
  reported (put_node i x' s) e ↔ reported s e.
Proof.
  intros Hi Hx. assert (i < length (sr_nodes s)) as Hl by by eapply lookup_lt_Some. split.
  - intros (j & y & Hj & Hat & Hret). simpl in Hj. destruct (decide (j = i)) as [->|Hne].
    + rewrite list_lookup_insert_eq in Hj by done. injection Hj as <-.
      destruct Hx as [[H1 H2]|[_ Hx]]; [|done]. exists i, x. split; [done|]. split; congruence.
    + rewrite list_lookup_insert_ne in Hj by done. by exists j, y.
  - intros (j & y & Hj & Hat & Hret). destruct (decide (j = i)) as [->|Hne].
    + rewrite Hi in Hj. injection Hj as <-. destruct Hx as [[H1 H2]|[Hx _]]; [|done].
      exists i, x'. simpl. rewrite list_lookup_insert_eq by done. split; [done|]. split; congruence.
    + exists j, y. simpl. by rewrite list_lookup_insert_ne.
Qed.

(** What a node that moves leaves of the rest. *)
Lemma put_node_core i n x x' s :
  nodes !! i = Some n → sr_nodes s !! i = Some x → node_ok n x' → (nr_ready x = true → nr_ready x' = true) →
  set_ok s →
  length (<[i := x']> (sr_nodes s)) = length nodes ∧
  (∀ j m y, nodes !! j = Some m → <[i := x']> (sr_nodes s) !! j = Some y → node_ok m y) ∧
  match sr_wait s with
  | WaitingFor k => ∀ j y, j < k → <[i := x']> (sr_nodes s) !! j = Some y → nr_ready y = true
  | WaitOver None => ∀ j y, <[i := x']> (sr_nodes s) !! j = Some y → nr_ready y = true
  | WaitOver (Some _) => True end.
Proof.
  intros Hn Hi Hok Hready [H1 H2 H3 H4 H5 H6].
  assert (i < length (sr_nodes s)) as Hl by by eapply lookup_lt_Some.
  assert (∀ j y, <[i := x']> (sr_nodes s) !! j = Some y → j = i ∧ y = x' ∨ sr_nodes s !! j = Some y) as Hlook.
  { intros j y Hj. destruct (decide (j = i)) as [->|Hne]; [left|right; by rewrite list_lookup_insert_ne in Hj].
    rewrite list_lookup_insert_eq in Hj by done. by simplify_eq. }
  split; [by rewrite length_insert|]. split.
  - intros j m y Hm Hj. destruct (Hlook j y Hj) as [[-> ->]|Hy]; [|by eapply H2]. by rewrite Hn in Hm; simplify_eq.
  - destruct (sr_wait s) as [k|[e|]]; [|done|].
    + intros j y Hj Hy. destruct (Hlook j y Hy) as [[-> ->]|?]; [|by eapply H6]. by eapply Hready, H6.
    + intros j y Hy. destruct (Hlook j y Hy) as [[-> ->]|?]; [|by eapply H6]. by eapply Hready, H6.
Qed.

Lemma put_node_ok i n x x' s :
  nodes !! i = Some n → sr_nodes s !! i = Some x → node_ok n x' →
  nr_at x' = nr_at x ∧ nr_ret x' = nr_ret x ∨ nr_at x ≠ Reported ∧ nr_at x' ≠ Reported →
  (nr_ready x = true → nr_ready x' = true) → set_ok s → set_ok (put_node i x' s).
Proof.
  intros Hn Hi Hok Hx Hready Hs. destruct (put_node_core i n x x' s Hn Hi Hok Hready Hs) as (Hc1 & Hc2 & Hc3).
  pose proof (λ e, reported_put i x x' s e Hi Hx) as Hrep. destruct Hs as [H1 H2 H3 H4 H5 H6].
  split; simpl; [done|done| | | |done].
  - intros e He. by apply Hrep, H3.
  - intros e He. destruct (H4 e He) as [? [?|?]]; (split; [done|]); [by left|right; by apply Hrep].
  - intros Hr e He. by eapply H5, Hrep.
Qed.

Lemma send_ok i n x s :
  nodes !! i = Some n → sr_nodes s !! i = Some x → nr_at x = Returned → set_ok s →
  set_ok (send (nr_ret x) (put_node i (goto Reported x) s)).
Proof.
  intros Hn Hi Hat Hs.
  destruct (put_node_core i n x (goto Reported x) s Hn Hi) as (Hc1 & Hc2 & Hc3); [|done|done|].
  { apply goto_reported_ok; [done|]. by eapply so_nodes. }
  destruct Hs as [H1 H2 H3 H4 H5 H6].
  assert (∀ e, reported s e → reported (put_node i (goto Reported x) s) e) as Hrep.
  { intros e (j & y & Hj & Hy & He). exists j, y. simpl.
    rewrite list_lookup_insert_ne; [done|]. intros ->. congruence. }
  split; simpl; [done|done| | | |done].
  - intros e [He| ->%list_elem_of_singleton]%elem_of_app; [by apply Hrep, H3|].
    exists i, (goto Reported x). simpl. rewrite list_lookup_insert_eq; [done|]. by eapply lookup_lt_Some.
  - intros e He. destruct (H4 e He) as [? [?|?]]; (split; [done|]); [by left|right; by apply Hrep].
  - intros _ e _ Hnil. by destruct (sr_errs s).
Qed.

Lemma set_step_ok s s' : set_step nodes s s' → set_ok s → set_ok s'.
Proof.
  intros Hstep Hok. pose proof Hok as [H1 H2 H3 H4 H5 H6].
  assert (∀ i x, sr_nodes s !! i = Some x → is_Some (nodes !! i)) as Hnode.
  { intros i x Hi. apply lookup_lt_is_Some. rewrite <-H1. by eapply lookup_lt_Some. }
  destruct Hstep as [Hstep|Hstep]; [destruct Hstep as [i n x x' Hn Hi Hx|i x Hi Hat|Hr Hc|e errs Hr He
    |i x Hw Hi Hrd|i n x Hw Hn Hi Hd|i Hw Hi]|destruct Hstep as [i x x' Hi Hx|Hc Hr|i Hw]].
  - destruct (own_keeps _ _ _ _ Hx) as (Hk1 & Hk2 & Hk3).
    assert (node_ok n x') as Hx' by (eapply own_ok; [done|by eapply H2]).
    eapply put_node_ok; try done. right. split; [done|]. by destruct Hx; simpl; try congruence; try (destruct H; congruence).
  - destruct (Hnode i x Hi) as [n Hn]. by eapply send_ok.
  - split; simpl; try done. intros e [= <-]. split; [done|by left].
  - split; simpl; try done.
    + intros e' Hin. apply H3. rewrite He. by right.
    + intros e' [= <-]. split; [done|]. right. apply H3. rewrite He. by left.
  - split; simpl; try done. rewrite Hw in H6. intros j y Hj Hy.
    destruct (decide (j = i)) as [->|]; [by simplify_eq|]. eapply H6; [|done]. lia.
  - by split.
  - split; simpl; try done. rewrite Hw in H6. intros j y Hy. eapply H6; [|done].
    apply lookup_ge_None in Hi. apply lookup_lt_Some in Hy. lia.
  - destruct (Hnode i x Hi) as [n Hn]. destruct (env_keeps _ _ Hx) as (Hk1 & Hk2 & Hk3).
    eapply put_node_ok; try done; [eapply env_ok; [done|by eapply H2]|by left|by rewrite Hk3].
  - split; simpl; try done. intros e He. by rewrite Hr in He.
  - by split.
Qed.

Lemma set_steps_ok s s' : rtc (set_step nodes) s s' → set_ok s → set_ok s'.
Proof. induction 1 as [|s1 s2 s3 H12 _ IH]; [done|]. intros H. by eapply IH, set_step_ok. Qed.

Lemma set_steps_bounded m s s' : nsteps (set_step nodes) m s s' → (m + set_measure s' ≤ set_measure s)%nat.
Proof. induction 1 as [|m s1 s2 s3 H12 _ IH]; [done|]. apply set_step_decreases in H12. lia. Qed.

(** *** Where a set waits *)
Lemma set_blocked s :
  set_ok s → (∀ s', ¬ set_own nodes s s') → sr_cancelled s = true →
  (∃ e, sr_run s = SetReturned e) ∧ ∀ i x, sr_nodes s !! i = Some x → nr_at x = Reported ∨ waits x.
Proof.
  intros Hok Hno Hc. split.
  - destruct (sr_run s) as [|e] eqn:Hr; [|by exists e]. exfalso. by eapply Hno, set_run_ctx.
  - intros i x Hi. assert (is_Some (nodes !! i)) as [n Hn].
    { apply lookup_lt_is_Some. rewrite <-(so_length _ Hok). by eapply lookup_lt_Some. }
    destruct (blocked_waits n x) as [Hat|[Hat|Hw]]; [by eapply so_nodes| | |by left|by right].
    + intros x' Hx. eapply Hno, set_node; [done|done|by rewrite Hc].
    + exfalso. by eapply Hno, set_send.
Qed.

(** A node that has ended ends the set. *)
Lemma set_ends s i x :
  set_ok s → (∀ s', ¬ set_own nodes s s') → sr_nodes s !! i = Some x → nr_done x = true → ∃ e, sr_run s = SetReturned e.
Proof.
  intros Hok Hno Hi Hd. destruct (sr_run s) as [|e] eqn:Hr; [|by exists e]. exfalso.
  assert (is_Some (nodes !! i)) as [n Hn].
  { apply lookup_lt_is_Some. rewrite <-(so_length _ Hok). by eapply lookup_lt_Some. }
  pose proof (so_nodes _ Hok i n x Hn Hi) as Hx.
  destruct (decide (nr_at x = Reported)) as [Hat|Hat].
  - destruct (sr_errs s) as [|e errs] eqn:He; [|by eapply Hno, set_run_err].
    eapply (so_heard _ Hok Hr); [by exists i, x|done].
  - destruct (decide (nr_at x = Returned)) as [Hret|Hret]; [by eapply Hno, set_send|].
    destruct (decide (nr_at x = Unwinding)) as [Hu|Hu].
    2:{ destruct (running_defers n x Hx Hu Hret Hat) as [_ H]. congruence. }
    destruct Hx as [H1 _ _ _ _ [Hcl _] _ _]. rewrite Hu in H1. simpl in H1. apply Hcl in Hd.
    destruct (nr_defers x) as [|d ds] eqn:Hds.
    + eapply Hno, set_node; [done|done|by apply own_return].
    + apply Hd. clear -H1. apply suffix_defers in H1.
      destruct H1 as [[-> ->]|[[-> ->]|[[-> ->]|[-> ->]]]]; rewrite !elem_of_cons; tauto.
Qed.
End set_facts.

Lemma defers_suffix l ds : defers_at l ds → ds `suffix_of` all_defers.
Proof.
  destruct l; simpl; try intros ->; try done.
  - by exists [StopNC; StopPC; StopHTTP].
  - by exists [StopNC].
  - by exists all_defers.
  - by exists all_defers.
Qed.
Lemma defers_stop_nc ds : ds `suffix_of` all_defers → StopNC ∈ ds → StopHTTP ∈ ds.
Proof.
  intros H Hin. destruct ds as [|d ds]; [by apply elem_of_nil in Hin|].
  apply suffix_defers in H as [[-> ->]|[[-> ->]|[[-> ->]|[-> ->]]]]; set_solver.
Qed.
Lemma defers_closed ds : ds `suffix_of` all_defers → CloseNode ∉ ds → ds = [].
Proof.
  intros H Hin. destruct ds as [|d ds]; [done|]. exfalso. apply Hin.
  apply suffix_defers in H as [[-> ->]|[[-> ->]|[[-> ->]|[-> ->]]]]; rewrite !elem_of_cons; tauto.
Qed.

(** What holds of a node wherever its run is. *)
Definition node_safe (n : Node) (x : NodeRun) : Prop :=
  (∀ a h, nr_http x = Some (a, h) → nd_tlsConfig n = true ∧ nd_auth n = true ∧ a = nd_listenAddr n ∧
     h = WithAuth (opt_or PodRoutes (nd_handler n))) ∧
  (still_runs (nr_nc x) → ct_ready (nr_pc x) = true ∧ (nd_tlsConfig n = true → is_Some (nr_http x))) ∧
  (nr_ready x = true → ct_ready (nr_pc x) = true ∧ ct_ready (nr_nc x) = true) ∧
  (nr_done x = true → nr_http x = None ∧ ¬ waits x ∧ nr_err x = nr_ret x).

Lemma node_ok_safe n x : node_ok n x → node_safe n x.
Proof.
  intros [H1 [H2 H2'] [H3 H3'] H4 (H5 & H6 & H7) [H8 H8'] H9 H10]. apply defers_suffix in H1. split; [|split; [|split]].
  - intros a h Hh. rewrite Hh in H4. tauto.
  - intros [Hs Hd]. split; [by apply H5|]. intros Ht. destruct (nr_http x); [by eexists|].
    destruct (H3 Hs) as [Hin|[e He]]; [|congruence]. rewrite H4 in Ht; [done|]. by apply defers_stop_nc.
  - intros Hr. split; [apply H5, H3'; left|]; by apply H6.
  - intros Hd. pose proof (defers_closed _ H1 (proj1 H8 Hd)) as Hds. rewrite Hds in *. split; [|split; [|by apply H8']].
    + destruct (nr_http x) as [[a h]|]; [|done]. destruct H4 as [Hin _]. by apply elem_of_nil in Hin.
    + intros [[Hs Hn]|[Hs Hn]]; [destruct (H2 Hs) as [Hin|[e He]]|destruct (H3 Hs) as [Hin|[e He]]]; try congruence;
        by apply elem_of_nil in Hin.
Qed.

(** ** Properties *)

(** C8 What is up of a node is up in its order, and what has ended left nothing.
    However the goroutines interleave: a kubelet API only ever listens where TLS
    and an authorizer are configured, and behind the authorizer; a node is kept
    registered only once its pod controller was ready, and while its API is
    served where it is to be; a node is ready when both controllers were, and
    done when nothing it started still runs.  [Run] ends with its context or
    with what a node ended with, [WaitReady] when every node is ready. *)
Theorem virtual_nodes_safe (nodes : list Node) (namespaces : result ()) (s0 s : SetRun) :
  Run nodes namespaces = Ok s0 → rtc (set_step nodes) s0 s →
  (∀ i n x, nodes !! i = Some n → sr_nodes s !! i = Some x → node_safe n x) ∧
  (∀ e, sr_run s = SetReturned e → sr_cancelled s = true ∧
     (e = Some ErrCanceled ∨ ∃ i x, sr_nodes s !! i = Some x ∧ nr_done x = true ∧ nr_err x = e)) ∧
  (sr_wait s = WaitOver None → ∀ i x, sr_nodes s !! i = Some x → nr_ready x = true).
Proof.
  intros H0 Hsteps. assert (set_ok nodes s) as Hok by (eapply set_steps_ok; [done|by eapply Run_ok]).
  split; [|split].
  - intros i n x Hn Hx. by eapply node_ok_safe, so_nodes.
  - intros e He. destruct (so_run _ _ Hok e He) as [Hc [?|(i & x & Hx & Hat & Hret)]]; (split; [done|]); [by left|].
    right. exists i, x. split; [done|].
    assert (is_Some (nodes !! i)) as [n Hn].
    { apply lookup_lt_is_Some. rewrite <-(so_length _ _ Hok). by eapply lookup_lt_Some. }
    destruct (so_nodes _ _ Hok i n x Hn Hx) as [H1 _ _ _ _ [H8 H8'] _ _]. rewrite Hat in H1. simpl in H1.
    assert (nr_done x = true) as Hd. { apply H8. rewrite H1. by intros ?%elem_of_nil. }
    split; [done|]. by rewrite (proj1 (H8' Hd)).
  - intros Hw. pose proof (so_wait _ _ Hok) as H. by rewrite Hw in H.
Qed.

(** C15 A set comes to its end.  No interleaving takes more than sixteen steps a
    node and three more; and where the program can go no further once its
    context is done or any node has ended, [Run] has returned and every node has
    reported its end or waits for a controller it has told to stop -- so it
    never waits for anything else, and ends when they do. *)
Theorem virtual_nodes_end (nodes : list Node) (namespaces : result ()) (s0 s : SetRun) :
  Run nodes namespaces = Ok s0 → rtc (set_step nodes) s0 s →
  (∀ m s', nsteps (set_step nodes) m s0 s' → m ≤ 16 * length nodes + 3)%nat ∧
  ((∀ s', ¬ set_own nodes s s') →
   sr_cancelled s = true ∨ (∃ i x, sr_nodes s !! i = Some x ∧ nr_done x = true) →
   (∃ e, sr_run s = SetReturned e) ∧ sr_cancelled s = true ∧
   ∀ i x, sr_nodes s !! i = Some x → nr_at x = Reported ∨ waits x).
Proof.
  intros H0 Hsteps. assert (set_ok nodes s) as Hok by (eapply set_steps_ok; [done|by eapply Run_ok]). split.
  - intros m s' Hm. apply set_steps_bounded in Hm. enough (set_measure s0 = 16 * length nodes + 3)%nat by lia.
    unfold Run in H0. destruct nodes as [|n l] eqn:Hn; [done|]. rewrite <-Hn in *. injection H0 as <-.
    unfold set_measure. simpl. rewrite length_map.
    assert (∀ k : list Node, sum_list_with node_measure (map (λ _, node_begin) k) = 15 * length k)%nat as ->; [|lia].
    induction k as [|y k IH]; [done|]. simpl in *. lia.
  - intros Hno Hwhy. assert (sr_cancelled s = true) as Hc.
    { destruct Hwhy as [?|(i & x & Hi & Hd)]; [done|]. destruct (set_ends nodes s i x Hok Hno Hi Hd) as [e He].
      by apply (so_run _ _ Hok e He). }
    destruct (set_blocked nodes s Hok Hno Hc) as [Hr Hw]. by split.
Qed.

(** ** Witnesses *)
Definition ex_node : Node := mkNode "n1" None true true ":10250" 1.
Definition ex_start : SetRun := mkSetRun [node_begin] false [] Selecting (WaitingFor 0).
Definition ex_up (pc_ready nc_started nc_ready : bool) (l : Loc) (ready : bool) : NodeRun :=
  mkNodeRun l (if nc_started then all_defers else [StopPC; StopHTTP; CloseNode]) None false
    (Some (":10250", WithAuth PodRoutes)) (mkController true pc_ready None) (mkController nc_started nc_ready None)
    ready false None.
Definition ex_up1 : NodeRun := ex_up false false false AwaitPC false.
Definition ex_up2 : NodeRun := ex_up true false false AwaitPC false.
Definition ex_up3 : NodeRun := ex_up true true false AwaitNC false.
Definition ex_up4 : NodeRun := ex_up true true true AwaitNC false.
Definition ex_up5 : NodeRun := ex_up true true true Serving true.
Definition ex_at (x : NodeRun) (w : WaitLoc) : SetRun := mkSetRun [x] false [] Selecting w.
Definition ex_ready : SetRun := ex_at ex_up5 (WaitOver None).

(** One node comes up, and [WaitReady] with it. *)
Lemma ex_comes_up : rtc (set_step [ex_node]) ex_start ex_ready.
Proof.
  eapply (rtc_l _ _ (ex_at ex_up1 (WaitingFor 0))).
  { left. apply (set_node [ex_node] ex_start 0 ex_node node_begin ex_up1); [done|done|]. by apply (own_http _ _ node_begin (Ok ())). }
  eapply (rtc_l _ _ (ex_at ex_up2 (WaitingFor 0))).
  { right. apply (set_controllers (ex_at ex_up1 (WaitingFor 0)) 0 ex_up1 ex_up2); [done|]. by apply env_pc_ready. }
  eapply (rtc_l _ _ (ex_at ex_up3 (WaitingFor 0))).
  { left. apply (set_node [ex_node] (ex_at ex_up2 (WaitingFor 0)) 0 ex_node ex_up2 ex_up3); [done|done|]. by apply own_pc_ready. }
  eapply (rtc_l _ _ (ex_at ex_up4 (WaitingFor 0))).
  { right. apply (set_controllers (ex_at ex_up3 (WaitingFor 0)) 0 ex_up3 ex_up4); [done|]. by apply env_nc_ready. }
  eapply (rtc_l _ _ (ex_at ex_up5 (WaitingFor 0))).
  { left. apply (set_node [ex_node] (ex_at ex_up4 (WaitingFor 0)) 0 ex_node ex_up4 ex_up5); [done|done|]. by apply own_nc_ready. }
  eapply (rtc_l _ _ (ex_at ex_up5 (WaitingFor 1))).
  { left. by apply (set_wait_ready [ex_node] (ex_at ex_up5 (WaitingFor 0)) 0 ex_up5). }
  eapply rtc_l; [|apply rtc_refl]. left. by apply (set_wait_all [ex_node] (ex_at ex_up5 (WaitingFor 1)) 1).
Qed.

Lemma virtual_nodes_safe_witness :
  rtc (set_step [ex_node]) ex_start ex_ready ∧ node_safe ex_node ex_up5.
Proof.
  destruct (virtual_nodes_safe [ex_node] (Ok ()) ex_start ex_ready eq_refl ex_comes_up) as (H & _).
  split; [exact ex_comes_up|]. by apply (H 0 ex_node).
Defined.

Lemma virtual_nodes_end_witness :
  rtc (set_step [ex_node]) ex_start ex_ready ∧
  ∀ m s', nsteps (set_step [ex_node]) m ex_start s' → (m ≤ 19)%nat.
Proof.
  destruct (virtual_nodes_end [ex_node] (Ok ()) ex_start ex_ready eq_refl ex_comes_up) as (H & _).
  split; [exact ex_comes_up|exact H].
Defined.
