(* ===== verification/NodeSet.v ===== *)
(** * pkg/vknode: what the virtual nodes of a process share

    The set (vknode.go): the informers, one per node for pods, the nodes added to
    it and the namespaces it serves; the listers that read on demand
    (listers.go, objects.go); the certificate that is read again (certs.go).
    How a set runs is NodeRun.v. *)

From S2P Require Import Prelude GoStd K8s Vknode NodeRun.
From Stdlib Require Import Lia.

Local Open Scope string_scope.
Local Open Scope list_scope.

(** ** vknode.go *)
Definition minute : Z := 60 * 1000 * 1000 * 1000.
(** [int32(n)] *)
Definition int32_of (n : Z) : Z := (n + 2 ^ 31) `mod` 2 ^ 32 - 2 ^ 31.

Record SetOptions := mkSetOptions {
  op_Client : bool;                       (* a client is given *)
  op_Namespaces : list string;
  op_NamespaceWatcher : bool;             (* the served set is watched *)
  op_ResyncPeriod : Z; op_Workers : Z; op_LeaseDurationSeconds : Z }.

(** What a pod watch asks for. *)
Inductive Selector := NodeNameIs (name : string).
Definition selects (sel : Selector) (pod : Pod) : bool :=
  match sel with NodeNameIs name => bool_decide (NodeName (Spec pod) = name) end.

(** What a pod controller is given: its provider, its pods, by factory, and the
    filter on what it receives. *)
Record PodControllerConfig := mkPodControllerConfig {
  pcc_Provider : nat; pcc_PodInformer : nat; pcc_PodEventFilter : Pod → bool }.

Record VNode := mkVNode {
  vn_node : Node;
  vn_leaseSeconds : Z;
  vn_pc : PodControllerConfig;
  vn_pods : nat }.

Record NodeSet := mkNodeSet {
  st_fixed : list string;
  st_watched : bool;
  st_resync : Z; st_workers : Z; st_leaseDuration : Z;
  st_broadcaster : bool;
  st_podsByNode : gmap string nat;        (* by the index of its factory *)
  st_podFactories : list Selector;
  st_nodes : list VNode }.

Definition NewSet (opts : SetOptions) : result NodeSet :=
  if negb (op_Client opts) then Err (ErrMsg "a Kubernetes client is required")
  else if decide (op_Namespaces opts = [] ∧ op_NamespaceWatcher opts = false) then
    Err (ErrMsg "a namespace list or a namespace watcher is required")
  else
    Ok (mkNodeSet (op_Namespaces opts) (op_NamespaceWatcher opts)
      (if decide (op_ResyncPeriod opts = 0%Z) then minute else op_ResyncPeriod opts)
      (if decide (op_Workers opts <= 0)%Z then 1%Z else op_Workers opts)
      (op_LeaseDurationSeconds opts) false ∅ [] []).

(** [current] is what the namespace watch knows. *)
Definition servedNamespaces (s : NodeSet) (current : gmap string string) : list string :=
  if st_watched s then Namespaces.List_ current else st_fixed s.
Definition Serves (s : NodeSet) (current : gmap string string) (namespace : string) : bool :=
  if st_watched s then Namespaces.Serves current namespace
  else existsb (String.eqb namespace) (st_fixed s).

(** The broadcaster is made when it is first asked for. *)
Definition EventRecorder (s : NodeSet) : NodeSet :=
  mkNodeSet (st_fixed s) (st_watched s) (st_resync s) (st_workers s) (st_leaseDuration s) true
    (st_podsByNode s) (st_podFactories s) (st_nodes s).

Definition PodsForNode (name : string) (s : NodeSet) : nat * NodeSet :=
  match st_podsByNode s !! name with
  | Some inf => (inf, s)
  | None =>
      let inf := length (st_podFactories s) in
      (inf, mkNodeSet (st_fixed s) (st_watched s) (st_resync s) (st_workers s) (st_leaseDuration s) (st_broadcaster s)
              (<[name := inf]> (st_podsByNode s)) (st_podFactories s ++ [NodeNameIs name]) (st_nodes s))
  end.

Record AddOptions := mkAddOptions {
  ao_Spec : option string;                (* the name of the node object *)
  ao_Provider : option nat;
  ao_NodeProvider : bool;
  ao_ListenAddr : string; ao_TLSConfig : bool; ao_Handler : option Handler; ao_Auth : bool }.

Definition append_node (n : VNode) (s : NodeSet) : NodeSet :=
  mkNodeSet (st_fixed s) (st_watched s) (st_resync s) (st_workers s) (st_leaseDuration s) (st_broadcaster s)
    (st_podsByNode s) (st_podFactories s) (st_nodes s ++ [n]).

Section adding.
(** The controllers of the virtual-kubelet library, and its default lease. *)
Variable NewNodeController : string → Z → result ().
Variable NewPodController : PodControllerConfig → result ().
Variable DefaultLeaseDuration : Z.

Definition AddNode (opts : AddOptions) : M NodeSet VNode := λ s,
  match ao_Spec opts with
  | None | Some "" => (Err (ErrMsg "a node spec with a name is required"), s)
  | Some name =>
      match ao_Provider opts with
      | None => (Err (ErrMsg ("node " +:+ name +:+ ": a provider is required")), s)
      | Some p =>
          if negb (ao_NodeProvider opts) then
            (Err (ErrMsg ("node " +:+ name +:+ ": a node provider is required")), s)
          else
            let asked := int32_of (st_leaseDuration s) in
            let leaseSeconds := if decide (asked <= 0)%Z then DefaultLeaseDuration else asked in
            let s := EventRecorder s in
            match NewNodeController name leaseSeconds with
            | Err e => (Err (ErrWrap ("node " +:+ name +:+ ": node controller") e), s)
            | Ok _ =>
                let '(pods, s) := PodsForNode name s in
                let config := mkPodControllerConfig p pods (λ pod, bool_decide (NodeName (Spec pod) = name)) in
                match NewPodController config with
                | Err e => (Err (ErrWrap ("node " +:+ name +:+ ": pod controller") e), s)
                | Ok _ =>
                    let '(lister, s) := PodsForNode name s in
                    let n := mkVNode (mkNode name (ao_Handler opts) (ao_Auth opts) (ao_TLSConfig opts)
                               (ao_ListenAddr opts) (Z.to_nat (st_workers s))) leaseSeconds config lister in
                    (Ok n, append_node n s)
                end
            end
      end
  end.

(** What main.go does for each node: its provider reads the node's pods before
    the node is added. *)
Record NodePlan := mkNodePlan { pl_name : string; pl_listen : string }.
Variable newProvider : string → nat → result nat.
Variable webhookAuth : string → result ().
Definition add_node (tls : bool) (p : NodePlan) : M NodeSet () := λ s,
  let '(pods, s) := PodsForNode (pl_name p) s in
  (provider ← lift_result (newProvider (pl_name p) pods);
   auth ← (if tls then wrap ("node " +:+ pl_name p +:+ ": kubelet API auth") (lift_result (webhookAuth (pl_name p))) ≫= λ _,
             mret true
           else mret false);
   _ ← AddNode (mkAddOptions (Some (pl_name p)) (Some provider) true (pl_listen p) tls None auth);
   mret ()) (EventRecorder s).
Definition add_nodes (tls : bool) (plans : list NodePlan) : M NodeSet () := for_each plans (add_node tls).
End adding.

(** The pods a node's controller acts on: what its watch delivers and its filter
    lets through. *)
Definition acts_on (s : NodeSet) (n : VNode) (pod : Pod) : bool :=
  match st_podFactories s !! pcc_PodInformer (vn_pc n) with
  | Some sel => selects sel pod && pcc_PodEventFilter (vn_pc n) pod
  | None => false
  end.

(** ** listers.go, objects.go *)

(** Reading one kind of object from the API server. *)
Class ObjectsAPI (W Obj : Type) := {
  obj_Get : string → string → M W Obj;
  obj_List : string → string → M W (list Obj) }.
Section listers.
Context {W Obj : Type} `{!ObjectsAPI W Obj}.
(** Of a Secret, a ConfigMap or, in objects.go, a Service. *)
Definition lister_Get (namespace name : string) : M W Obj := obj_Get namespace name.
Definition namespace_List (namespace selector : string) : M W (list Obj) := obj_List namespace selector.
Definition lister_List (namespaces : list string) (selector : string) : M W (list Obj) :=
  fold_each (λ out ns, got ← namespace_List ns selector; mret (out ++ got)) [] namespaces.
End listers.

(** ** certs.go *)
Section certs.
(** A certificate with its key, and when it stops being valid, where its leaf is
    known; [load] is how reading the pair from disk goes. *)
Context {Cert : Type} (leafNotAfter : Cert → Time).
Record CertReloader := mkCertReloader { cr_certPath : string; cr_current : option Cert }.

Definition reload (load : result Cert) (r : CertReloader) : result () * CertReloader :=
  match load with
  | Err e => (Err (ErrWrap ("load serving certificate " +:+ cr_certPath r) e), r)
  | Ok cert => (Ok (), mkCertReloader (cr_certPath r) (Some cert))
  end.
Definition NewCertReloader (path : string) (load : result Cert) : result CertReloader :=
  match reload load (mkCertReloader path None) with
  | (Err e, _) => Err e
  | (Ok _, r) => Ok r
  end.
Definition GetCertificate (r : CertReloader) : option Cert := cr_current r.
Definition expiry (r : CertReloader) : Time :=
  match cr_current r with None => None | Some c => leafNotAfter c end.
(** One tick of [Run]: the expiry it reports, if it does. *)
Definition reload_tick (load : result Cert) (r : CertReloader) : option Time * CertReloader :=
  match reload load r with
  | (Err _, r') => (None, r')
  | (Ok _, r') => (if decide (expiry r' = expiry r) then None else Some (expiry r'), r')
  end.
Definition reload_run (loads : list (result Cert)) (r : CertReloader) : CertReloader :=
  fold_left (λ r load, (reload_tick load r).2) loads r.
End certs.
Arguments CertReloader : clear implicits.

(** ** Lemmas *)

(** A node of the set is fed by the watch of its name. *)
Definition fed (s : NodeSet) (n : VNode) : Prop :=
  st_podsByNode s !! nd_name (vn_node n) = Some (pcc_PodInformer (vn_pc n)) ∧ vn_pods n = pcc_PodInformer (vn_pc n) ∧
  ∀ pod, pcc_PodEventFilter (vn_pc n) pod = bool_decide (NodeName (Spec pod) = nd_name (vn_node n)).
Record set_wf (s : NodeSet) : Prop := {
  wf_index : ∀ name k, st_podsByNode s !! name = Some k ↔ st_podFactories s !! k = Some (NodeNameIs name);
  wf_nodes : ∀ n, n ∈ st_nodes s → fed s n }.

Lemma NewSet_wf opts s : NewSet opts = Ok s → set_wf s ∧ st_nodes s = [].
Proof.
  unfold NewSet. destruct (op_Client opts); simpl; [|done]. case_decide; [done|]. intros [= <-].
  split; [|done]. split; [done|]. by intros n ?%elem_of_nil.
Qed.

Lemma PodsForNode_wf name s :
  set_wf s →
  let '(inf, s') := PodsForNode name s in
  set_wf s' ∧ st_podsByNode s' !! name = Some inf ∧ st_nodes s' = st_nodes s ∧ st_workers s' = st_workers s.
Proof.
  intros [Hi Hn]. unfold PodsForNode. destruct (st_podsByNode s !! name) as [inf|] eqn:Hl; [by split; [split|]|].
  assert (∀ nm k, st_podsByNode s !! nm = Some k → k < length (st_podFactories s)) as Hlt.
  { intros nm k Hk. apply Hi in Hk. by eapply lookup_lt_Some. }
  split; [|simpl; by rewrite lookup_insert_eq]. split; simpl.
  - intros nm k. destruct (decide (nm = name)) as [->|Hne].
    + rewrite lookup_insert_eq. split.
      * intros [= <-]. rewrite lookup_app_r by lia. by rewrite Nat.sub_diag.
      * intros Hk. apply lookup_app_Some in Hk as [Hk|[Hge Hk]].
        -- apply Hi in Hk. congruence.
        -- apply list_lookup_singleton_Some in Hk as [? _]. f_equal. lia.
    + rewrite lookup_insert_ne by done. rewrite Hi. split.
      * intros Hk. by apply lookup_app_l_Some.
      * intros Hk. apply lookup_app_Some in Hk as [Hk|[_ Hk]]; [done|].
        apply list_lookup_singleton_Some in Hk as [_ [= ?]]. congruence.
  - intros n Hin. destruct (Hn n Hin) as (H1 & H2 & H3). split; [|done]. simpl.
    rewrite lookup_insert_ne; [done|]. intros Heq. congruence.
Qed.

Lemma recorder_wf s : set_wf s → set_wf (EventRecorder s).
Proof. by intros [H1 H2]; split. Qed.

Section add_facts.
Context (NewNodeController : string → Z → result ()) (NewPodController : PodControllerConfig → result ())
  (DefaultLeaseDuration : Z).

(** Adding keeps the set in order; what is added is what was asked for. *)
Lemma AddNode_wf opts s :
  set_wf s →
  let '(r, s') := AddNode NewNodeController NewPodController DefaultLeaseDuration opts s in
  set_wf s' ∧
  match r with
  | Ok n => st_nodes s' = st_nodes s ++ [n] ∧ ao_Spec opts = Some (nd_name (vn_node n)) ∧
      nd_auth (vn_node n) = ao_Auth opts ∧ nd_tlsConfig (vn_node n) = ao_TLSConfig opts ∧
      nd_listenAddr (vn_node n) = ao_ListenAddr opts ∧ nd_handler (vn_node n) = ao_Handler opts
  | Err _ => st_nodes s' = st_nodes s
  end.
Proof.
  intros Hwf. unfold AddNode. destruct (ao_Spec opts) as [[|c name]|]; [done| |done].
  set (nm := String c name). destruct (ao_Provider opts) as [p|]; [|done].
  destruct (ao_NodeProvider opts); [|done]. simpl negb. cbv iota.
  set (lease := if decide _ then _ else _).
  destruct (NewNodeController nm lease) as [u|e]; [|split; [by apply recorder_wf|done]].
  pose proof (PodsForNode_wf nm (EventRecorder s) (recorder_wf s Hwf)) as H1.
  destruct (PodsForNode nm (EventRecorder s)) as [pods s1]. destruct H1 as (Hw1 & Hl1 & Hn1 & _).
  destruct (NewPodController _) as [u'|e]; [|by split].
  pose proof (PodsForNode_wf nm s1 Hw1) as H2. destruct (PodsForNode nm s1) as [lister s2] eqn:E.
  destruct H2 as (Hw2 & Hl2 & Hn2 & _).
  assert (lister = pods ∧ s2 = s1) as [-> ->]. { unfold PodsForNode in E. rewrite Hl1 in E. by injection E as <- <-. }
  split.
  - split; [apply Hw2|]. simpl. intros n [Hin| ->%list_elem_of_singleton]%elem_of_app; [by apply Hw2|].
    by repeat split.
  - simpl. by rewrite Hn1.
Qed.

Context (newProvider : string → nat → result nat) (webhookAuth : string → result ()).

(** A node of the set is what its plan says. *)
Definition as_planned (tls : bool) (n : VNode) (p : NodePlan) : Prop :=
  nd_name (vn_node n) = pl_name p ∧ nd_listenAddr (vn_node n) = pl_listen p ∧ nd_handler (vn_node n) = None ∧
  nd_tlsConfig (vn_node n) = tls ∧ nd_auth (vn_node n) = tls.

Lemma add_node_wf tls p s :
  set_wf s →
  let '(r, s') := add_node NewNodeController NewPodController DefaultLeaseDuration newProvider webhookAuth tls p s in
  set_wf s' ∧
  match r with
  | Ok _ => ∃ n, st_nodes s' = st_nodes s ++ [n] ∧ as_planned tls n p
  | Err _ => st_nodes s' = st_nodes s
  end.
Proof.
  intros Hwf. unfold add_node. pose proof (PodsForNode_wf (pl_name p) s Hwf) as H1.
  destruct (PodsForNode (pl_name p) s) as [pods s1]. destruct H1 as (Hw1 & _ & Hn1 & _).
  apply recorder_wf in Hw1. assert (st_nodes (EventRecorder s1) = st_nodes s) as He by done.
  revert Hw1 He. generalize (EventRecorder s1). clear s1 Hn1. intros s1 Hw1 Hn1.
  unfold mbind, M_bind, lift_result. destruct (newProvider (pl_name p) pods) as [pr|e]; [|done].
  assert (∃ r, (if tls then wrap ("node " +:+ pl_name p +:+ ": kubelet API auth") (λ w, (webhookAuth (pl_name p), w)) ≫= λ _,
             mret true else mret false) s1 = (r, s1) ∧ (∀ a, r = Ok a → a = tls)) as (r & Hr & Ha).
  { destruct tls; [|by eexists; split; [done|]; intros x [= <-]].
    unfold wrap, mbind, M_bind. destruct (webhookAuth (pl_name p)); eexists; (split; [done|]); intros x [= <-]; done. }
  unfold mbind, M_bind in Hr. rewrite Hr. destruct r as [auth|e]; [|done]. rewrite (Ha auth eq_refl).
  set (opts := mkAddOptions _ _ _ _ _ _ _). pose proof (AddNode_wf opts s1 Hw1) as H2.
  destruct (AddNode _ _ _ opts s1) as [[n|e] s2]; destruct H2 as (Hw2 & H2).
  - destruct H2 as (Hn & Hs & Hau & Ht & Hli & Hh). split; [done|]. exists n. split; [by rewrite Hn, Hn1|].
    injection Hs as Hs. by repeat split.
  - split; [done|]. by rewrite H2.
Qed.

Lemma add_nodes_wf tls plans : ∀ s,
  set_wf s →
  let '(r, s') := add_nodes NewNodeController NewPodController DefaultLeaseDuration newProvider webhookAuth tls plans s in
  set_wf s' ∧ ∃ added, st_nodes s' = st_nodes s ++ added ∧ Forall2 (as_planned tls) added (take (length added) plans) ∧
    (is_ok r = true → length added = length plans).
Proof.
  induction plans as [|p plans IH]; intros s Hwf.
  - simpl. split; [done|]. exists []. rewrite app_nil_r. split; [done|]. split; [constructor|done].
  - unfold add_nodes. cbn [for_each]. unfold mbind, M_bind. pose proof (add_node_wf tls p s Hwf) as H1.
    destruct (add_node _ _ _ _ _ tls p s) as [[u|e] s1]; destruct H1 as (Hw1 & H1).
    + destruct H1 as (n & Hn & Hp). pose proof (IH s1 Hw1) as H2. unfold add_nodes in H2.
      destruct (for_each plans _ s1) as [r s2]. destruct H2 as (Hw2 & added & Ha & Hf & Hl).
      split; [done|]. exists (n :: added). split; [by rewrite Ha, Hn, <-app_assoc|]. simpl.
      split; [by constructor|]. intros Hok. f_equal. by apply Hl.
    + split; [done|]. exists []. rewrite app_nil_r. split; [done|]. split; [constructor|done].
Qed.
End add_facts.

Lemma acts_on_spec s n pod :
  set_wf s → n ∈ st_nodes s → acts_on s n pod = true ↔ NodeName (Spec pod) = nd_name (vn_node n).
Proof.
  intros Hwf Hin. destruct (wf_nodes _ Hwf n Hin) as (Hi & _ & Hf). unfold acts_on.
  apply (wf_index _ Hwf) in Hi. rewrite Hi, Hf. simpl. rewrite andb_true_iff, !bool_decide_eq_true. tauto.
Qed.
Lemma factories_nodup s : set_wf s → NoDup (st_podFactories s).
Proof.
  intros Hwf. apply NoDup_alt. intros i j [name] Hi Hj. apply (wf_index _ Hwf) in Hi, Hj. congruence.
Qed.

Lemma Serves_served s current namespace :
  Serves s current namespace = true ↔ namespace ∈ servedNamespaces s current.
Proof.
  unfold Serves, servedNamespaces. destruct (st_watched s).
  - unfold Namespaces.Serves, Namespaces.List_. rewrite bool_decide_eq_true, list_elem_of_fmap. split.
    + intros [t Ht]. exists (namespace, t). split; [done|]. by apply elem_of_map_to_list.
    + intros ([k t] & -> & Ht). apply elem_of_map_to_list in Ht. by exists t.
  - rewrite existsb_exists. split.
    + intros (x & Hx & ->%String.eqb_eq). by apply list_elem_of_In.
    + intros Hx. exists namespace. split; [by apply list_elem_of_In|]. by apply String.eqb_eq.
Qed.

(** What reading objects is relied on for: a read changes nothing, and lists what
    the namespace has that the selector selects. *)
Class ObjectsLaws {W Obj} (api : ObjectsAPI W Obj) (matches : string → Obj → bool)
    (view : W → gmap (string * string) Obj) : Prop := {
  law_obj_List s ns sel :
    runs view s (obj_List ns sel)
      (λ l s', s' = s ∧ ∀ x, x ∈ l ↔ ∃ name, s !! (ns, name) = Some x ∧ matches sel x = true) (λ _ s', s' = s) }.

(** A process that serves its objects from memory. *)
Definition RefObjects {Obj} (matches : string → Obj → bool) : ObjectsAPI (gmap (string * string) Obj) Obj := {|
  obj_Get ns name := λ w, (match w !! (ns, name) with Some x => Ok x | None => Err ErrK8sNotFound end, w);
  obj_List ns sel := λ w, (Ok (map snd (filter (λ e : string * string * Obj, e.1.1 = ns ∧ matches sel e.2 = true)
                                 (map_to_list w))), w) |}.
Lemma RefObjects_laws {Obj} (matches : string → Obj → bool) : ObjectsLaws (RefObjects matches) matches id.
Proof.
  split. intros s ns sel w <-. simpl. split; [done|]. intros x. rewrite list_elem_of_fmap. split.
  - intros ([[n name] y] & -> & Hin). apply list_elem_of_filter in Hin as [[Hn Hm] Hin]. simpl in *. subst.
    exists name. split; [by apply elem_of_map_to_list|done].
  - intros (name & Hx & Hm). exists (ns, name, x). split; [done|]. apply list_elem_of_filter.
    split; [done|]. by apply elem_of_map_to_list.
Qed.

(** ** Properties *)

(** A process reads the objects of the namespaces it serves and of no other.
    What a lister lists is what the served namespaces have, however the served
    set is known; an error of any of them gives nothing. *)
Theorem listers_serve_only {W Obj} (api : ObjectsAPI W Obj) (matches : string → Obj → bool)
    (view : W → gmap (string * string) Obj) `{!ObjectsLaws api matches view} (set : NodeSet)
    (current : gmap string string) (selector : string) (s : gmap (string * string) Obj) :
  runs view s (lister_List (servedNamespaces set current) selector)
    (λ l s', s' = s ∧ ∀ x, x ∈ l ↔
       ∃ ns name, Serves set current ns = true ∧ s !! (ns, name) = Some x ∧ matches selector x = true)
    (λ _ s', s' = s).
Proof.
  eapply runs_conseq with (Q' := λ l s', s' = s ∧ ∀ x, x ∈ l ↔ ∃ ns name, ns ∈ servedNamespaces set current ∧
    s !! (ns, name) = Some x ∧ matches selector x = true) (E' := λ _ s', s' = s); [| |done].
  - unfold lister_List. apply (runs_fold_each view (λ pre out s', s' = s ∧ ∀ x, x ∈ out ↔ ∃ ns name, ns ∈ pre ∧
      s !! (ns, name) = Some x ∧ matches selector x = true)).
    { split; [done|]. intros x. split; [by intros ?%elem_of_nil|]. by intros (? & ? & ?%elem_of_nil & _). }
    intros pre ns post out s1 _ [-> Hout]. unfold namespace_List. step_law law_obj_List; [done|].
    intros got s1 [-> Hgot]. apply runs_ret. split; [done|]. intros x. rewrite elem_of_app, Hout, Hgot. split.
    + intros [(n & name & Hn & H)|(name & H)]; [exists n, name|exists ns, name]; (split; [|done]); set_solver.
    + intros (n & name & [Hn| ->%list_elem_of_singleton]%elem_of_app & H); [left; by exists n, name|right; by exists name].
  - intros l s' [-> H]. split; [done|]. intros x. rewrite H. by setoid_rewrite Serves_served.
Qed.

(** The certificate in use is the last that could be read.  Whatever the file
    holds at each tick -- a renewed pair, half of one, nothing -- once a reloader
    was made there is a certificate to serve, and it is the latest pair that
    loaded; a tick reports exactly a change of its expiry. *)
Theorem certificate_in_use {Cert} (leafNotAfter : Cert → Time) (path : string) (load : result Cert)
    (loads : list (result Cert)) (r : CertReloader Cert) :
  NewCertReloader path load = Ok r →
  let ok := λ l : result Cert, match l with Ok c => Some c | Err _ => None end in
  let r' := reload_run leafNotAfter loads r in
  is_Some (GetCertificate r') ∧ GetCertificate r' = last (omap ok (load :: loads)) ∧
  ∀ l t, (reload_tick leafNotAfter l r').1 = Some t ↔ ∃ c, l = Ok c ∧ t = leafNotAfter c ∧ t ≠ expiry leafNotAfter r'.
Proof.
  intros Hnew ok r'. unfold NewCertReloader, reload in Hnew. destruct load as [c0|e]; [|done]. injection Hnew as <-.
  assert (∀ ls r c, cr_current r = Some c →
    cr_current (reload_run leafNotAfter ls r) = last (c :: omap ok ls)) as Hrun.
  { induction ls as [|l ls IH]; intros q c Hc; [done|]. unfold reload_run. simpl fold_left.
    destruct l as [d|e]; unfold reload_tick, reload; simpl; by eapply IH. }
  pose proof (Hrun loads (mkCertReloader path (Some c0)) c0 eq_refl) as Hl. split; [|split; [done|]].
  - unfold GetCertificate. subst r'. rewrite Hl. apply last_is_Some. done.
  - intros l t. unfold reload_tick, reload. destruct l as [c|e]; simpl.
    + case_decide as He; split; [done| | |].
      * intros (x & [= <-] & -> & Hne). done.
      * intros [= <-]. by exists c.
      * by intros (x & [= <-] & -> & _).
    + split; [done|]. by intros (c & ? & _).
Qed.

(** ** Witnesses *)
Definition ex_matches (sel : string) (x : nat) : bool := bool_decide (sel = "" ∨ x = 7).
Definition ex_objects : gmap (string * string) nat := {[("prod", "a") := 7; ("other", "b") := 9]}.
Definition ex_set : NodeSet := mkNodeSet ["prod"] false minute 1 40 false ∅ [] [].
Lemma listers_serve_only_witness :
  ∃ l, (@lister_List _ _ (RefObjects ex_matches) (servedNamespaces ex_set ∅) "" ex_objects).1 = Ok l ∧
    7 ∈ l ∧ 9 ∉ l.
Proof.
  pose proof (@listers_serve_only _ _ (RefObjects ex_matches) ex_matches id (RefObjects_laws ex_matches) ex_set ∅ ""
    ex_objects ex_objects eq_refl) as H.
  exists [7]. split; [vm_compute; reflexivity|]. set (res := lister_List _ _ ex_objects) in H.
  assert (res.1 = Ok [7]) as Hok by (vm_compute; reflexivity). destruct res as [[l|e] w]; [|discriminate Hok].
  injection Hok as ->. destruct H as [_ H]. split; [by left|].
  intros H9. apply H in H9 as (ns & name & Hs & Hx & _).
  apply Serves_served in Hs. apply list_elem_of_singleton in Hs as ->.
  unfold ex_objects in Hx. apply lookup_insert_Some in Hx as [[_ Hx]|[_ Hx]]; [discriminate|].
  apply lookup_singleton_Some in Hx as [Hx _]. discriminate.
Defined.

Lemma certificate_in_use_witness :
  let r := mkCertReloader "tls.crt" (Some 1) in
  GetCertificate (reload_run (λ _, None) [Ok 2; Err ErrNotFound] r) = Some 2.
Proof.
  cbv zeta. destruct (certificate_in_use (λ _, None) "tls.crt" (Ok 1) [Ok 2; Err ErrNotFound]
    (mkCertReloader "tls.crt" (Some 1)) eq_refl) as (_ & H & _). exact H.
Defined.
