(* ===== verification/ControllerLoop.v ===== *)
(** * The loop the controllers share

    Informers change caches and leave notes; handlers turn a note into keys; a
    work queue hands out the keys; workers make a pass over each, put it back
    where the pass failed, and say when they are done (pkg/service, pkg/ingress,
    pkg/volume and pkg/netpol, controller.go: the handlers that are registered,
    Run and processNext, or work and workPolicies).  Here it is as a step relation
    over what a controller supplies, with what it then promises. *)

From S2P Require Import Prelude K8s.
From stdpp Require Import relations.

Local Open Scope string_scope.
Local Open Scope list_scope.

(** ** The work queue of client-go

    What the queue will hand out again, now or after a delay, is [pending]; what
    it has handed out and was not told is done is [processing].  A key that is
    added is pending until it is handed out; one that is being processed is not
    handed out again before it is done; forgetting one resets its delay. *)
Class WorkQueue (Q : Type) := {
  q_Add : string → Q → Q;
  q_AddAfter : string → Q → Q;
  q_AddRateLimited : string → Q → Q;
  q_Forget : string → Q → Q;
  q_Done : string → Q → Q;
  q_Get : Q → option (string * Q);           (* [None] where it would wait *)
  q_elapse : Q → Q }.
Class WorkQueueLaws {Q} (wq : WorkQueue Q) (pending processing : Q → gset string) : Prop := {
  law_q_Add k q : pending (q_Add k q) = {[k]} ∪ pending q ∧ processing (q_Add k q) = processing q;
  law_q_AddAfter k q : pending (q_AddAfter k q) = {[k]} ∪ pending q ∧ processing (q_AddAfter k q) = processing q;
  law_q_AddRateLimited k q :
    pending (q_AddRateLimited k q) = {[k]} ∪ pending q ∧ processing (q_AddRateLimited k q) = processing q;
  law_q_Forget k q : pending (q_Forget k q) = pending q ∧ processing (q_Forget k q) = processing q;
  law_q_Done k q : pending (q_Done k q) = pending q ∧ processing (q_Done k q) = processing q ∖ {[k]};
  law_q_Get k q q' : q_Get q = Some (k, q') →
    pending q ∖ {[k]} ⊆ pending q' ∧ (k ∉ processing q) ∧ processing q' = {[k]} ∪ processing q;
  law_q_elapse q : pending (q_elapse q) = pending q ∧ processing (q_elapse q) = processing q }.

(** ** What a controller supplies

    Its caches, how they change and with which note, the keys its handlers make of
    a note over the caches of that moment, and what of the caches a pass over a
    key reads.  Where [delayed], handlers let a key wait ([AddAfter]).  [valid]
    caches hold each object under its own key; [ignored] is what a pass would do
    nothing about, or what no handler was told of, as the source says. *)
Class EventSource (Cache Note Input : Type) := {
  valid : Cache → Prop;
  change : Cache → Note → Cache → Prop;
  handle : Cache → Note → list string;
  delayed : bool;
  input : Cache → string → Input;
  ignored : Input → Prop }.
Class EventSourceLaws {Cache Note Input} (src : EventSource Cache Note Input) : Prop := {
  law_valid c n c' : change c n c' → valid c → valid c';
  (* what changes for a key is noted under it *)
  law_change c n c' key : change c n c' → valid c → key ∉ handle c' n → input c' key = input c key ∨ ignored (input c' key);
  (* and a note that named a key still does, or the change that kept it from that does, or there is nothing to do *)
  law_handle c n c' m key : change c n c' → valid c → key ∈ handle c m → key ∈ handle c' m ∨ key ∈ handle c' n ∨ ignored (input c' key) }.

(** ** The loop *)
Inductive Worker (Cache : Type) :=
  | Idle
  | Handed (key : string)                    (* out of [Get] *)
  | Passing (key : string) (c : Cache)       (* in the pass, over what it reads *)
  | Passed (key : string).                   (* before [Done] *)
Arguments Idle {Cache}.
Arguments Handed {Cache} key.
Arguments Passing {Cache} key c.
Arguments Passed {Cache} key.

Definition worker_key {Cache} (w : Worker Cache) : option string :=
  match w with Idle => None | Handed key | Passing key _ | Passed key => Some key end.

Record LoopState (Cache Note W Q : Type) := mkLoop {
  lp_cache : Cache;
  lp_notes : list Note;                      (* not delivered yet *)
  lp_queue : Q;
  lp_workers : list (Worker Cache);
  lp_world : W;
  (* for the proofs: what the last content pass read, and every key a change was noted under *)
  lp_seen : gmap string Cache;
  lp_named : gset string }.
Arguments mkLoop {Cache Note W Q}.
Arguments lp_cache {Cache Note W Q}.
Arguments lp_notes {Cache Note W Q}.
Arguments lp_queue {Cache Note W Q}.
Arguments lp_workers {Cache Note W Q}.
Arguments lp_world {Cache Note W Q}.
Arguments lp_seen {Cache Note W Q}.
Arguments lp_named {Cache Note W Q}.

Section loop.
Context {Cache Note Input W Q : Type} {wq : WorkQueue Q} {src : EventSource Cache Note Input}.
(** A pass over a key, reading these caches. *)
Variable pass : Cache → string → M W Verdict.
Implicit Types s : LoopState Cache Note W Q.

Definition enqueue_key (q : Q) (k : string) : Q := if delayed then q_AddAfter k q else q_Add k q.
Definition enqueue_all (keys : list string) (q : Q) : Q := fold_left enqueue_key keys q.
Definition settle_key (v : Verdict) (key : string) (q : Q) : Q :=
  match v with Forgotten => q_Forget key q | Requeued => q_AddRateLimited key q end.
(** The queue and one of the workers moved on. *)
Definition moved s (q : Q) (i : nat) (w : Worker Cache) : LoopState Cache Note W Q :=
  mkLoop (lp_cache s) (lp_notes s) q (<[i := w]> (lp_workers s)) (lp_world s) (lp_seen s) (lp_named s).
Definition requeued s (q : Q) : LoopState Cache Note W Q :=
  mkLoop (lp_cache s) (lp_notes s) q (lp_workers s) (lp_world s) (lp_seen s) (lp_named s).
Definition after_change s (n : Note) (c : Cache) : LoopState Cache Note W Q :=
  mkLoop c (lp_notes s ++ [n]) (lp_queue s) (lp_workers s) (lp_world s) (lp_seen s)
    (list_to_set (handle c n) ∪ lp_named s).
Definition after_pass s (i : nat) (key : string) (c : Cache) (v : Verdict) (w : W) : LoopState Cache Note W Q :=
  mkLoop (lp_cache s) (lp_notes s) (settle_key v key (lp_queue s)) (<[i := Passed key]> (lp_workers s)) w
    (match v with Forgotten => <[key := c]> (lp_seen s) | Requeued => lp_seen s end) (lp_named s).

Inductive loop_step s : LoopState Cache Note W Q → Prop :=
  | st_change n c : change (lp_cache s) n c → loop_step s (after_change s n c)
  | st_deliver pre n post :
      lp_notes s = pre ++ n :: post →
      loop_step s (mkLoop (lp_cache s) (pre ++ post) (enqueue_all (handle (lp_cache s) n) (lp_queue s)) (lp_workers s)
                     (lp_world s) (lp_seen s) (lp_named s))
  | st_get i key q :
      lp_workers s !! i = Some Idle → q_Get (lp_queue s) = Some (key, q) → loop_step s (moved s q i (Handed key))
  | st_start i key :
      lp_workers s !! i = Some (Handed key) → loop_step s (moved s (lp_queue s) i (Passing key (lp_cache s)))
  | st_pass i key c v w :
      lp_workers s !! i = Some (Passing key c) → pass c key (lp_world s) = (Ok v, w) →
      loop_step s (after_pass s i key c v w)
  | st_done i key :
      lp_workers s !! i = Some (Passed key) → loop_step s (moved s (q_Done key (lp_queue s)) i Idle)
  | st_elapse : loop_step s (requeued s (q_elapse (lp_queue s)))
  (* what others do: add a key, as a resync and a worker of another queue may, and change the world *)
  | st_add key : loop_step s (requeued s (enqueue_key (lp_queue s) key))
  | st_world w :
      loop_step s (mkLoop (lp_cache s) (lp_notes s) (lp_queue s) (lp_workers s) w (lp_seen s) (lp_named s)).

(** [Run] with its workers, over a queue no key of which is being processed. *)
Definition loop_start (workers : nat) (c : Cache) (q : Q) (w : W) : LoopState Cache Note W Q :=
  mkLoop c [] q (replicate workers Idle) w ∅ ∅.
End loop.

(** ** What it promises *)
Section promises.
Context {Cache Note Input W Q : Type} {wq : WorkQueue Q} {src : EventSource Cache Note Input}
  (pending processing : Q → gset string) `{!WorkQueueLaws wq pending processing} `{!EventSourceLaws src}
  (pass : Cache → string → M W Verdict) (c0 : Cache) (c0_valid : valid c0).
Implicit Types (s : LoopState Cache Note W Q) (c : Cache).

Definition quiet s : Prop :=
  lp_notes s = [] ∧ pending (lp_queue s) = ∅ ∧ ∀ i w, lp_workers s !! i = Some w → w = Idle.

(** A key the controller will hear of, or take up. *)
Definition noticed s (key : string) : Prop :=
  (∃ n, n ∈ lp_notes s ∧ key ∈ handle (lp_cache s) n) ∨ key ∈ pending (lp_queue s).
(** The caches the last content pass over the key read; none before the first. *)
Definition seen_of s (key : string) : Cache := default c0 (lp_seen s !! key).
(** Read in one of the caches, a key is as it is now, or there is nothing to do. *)
Definition current s c (key : string) : Prop :=
  input c key = input (lp_cache s) key ∨ ignored (input (lp_cache s) key).
(** What is, was passed; and a key a change was ever noted under had a pass, or
    needs none. *)
Definition settled s (key : string) : Prop :=
  current s (seen_of s key) key ∧
  (key ∈ lp_named s → is_Some (lp_seen s !! key) ∨ ignored (input (lp_cache s) key)).
(** A worker has the key, and what it reads, or will read, is as it is now. *)
Definition in_hand s (key : string) : Prop :=
  ∃ i, lp_workers s !! i = Some (Handed key) ∨ ∃ c, lp_workers s !! i = Some (Passing key c) ∧ current s c key.

Record tracked s : Prop := {
  tk_key key : noticed s key ∨ settled s key ∨ in_hand s key;
  tk_passing i key c : lp_workers s !! i = Some (Passing key c) → noticed s key ∨ current s c key;
  tk_busy i w key : lp_workers s !! i = Some w → worker_key w = Some key → key ∈ processing (lp_queue s);
  tk_apart i j v w key : lp_workers s !! i = Some v → lp_workers s !! j = Some w →
    worker_key v = Some key → worker_key w = Some key → i = j;
  tk_valid : valid (lp_cache s);
  tk_seen key c : lp_seen s !! key = Some c → ∃ w w', pass c key w = (Ok Forgotten, w') }.

Lemma loop_start_tracked n q w : tracked (loop_start n c0 q w).
Proof using c0_valid.
  split; simpl; [| | | |exact c0_valid|done].
  - intros key. right; left. split; [by left|by intros []%elem_of_empty].
  - intros i key c Hi. apply lookup_replicate in Hi as [[=] _].
  - intros i v key Hi. apply lookup_replicate in Hi as [-> _]. done.
  - intros i j v v' key Hi. apply lookup_replicate in Hi as [-> _]. done.
Qed.

Lemma enqueue_key_laws q k :
  pending (enqueue_key q k) = {[k]} ∪ pending q ∧ processing (enqueue_key q k) = processing q.
Proof. unfold enqueue_key. destruct delayed; [apply law_q_AddAfter|apply law_q_Add]. Qed.
Lemma enqueue_all_laws keys : ∀ q,
  pending (enqueue_all keys q) = list_to_set keys ∪ pending q ∧ processing (enqueue_all keys q) = processing q.
Proof.
  induction keys as [|k keys IH]; intros q; simpl; [set_solver|].
  destruct (IH (enqueue_key q k)) as [H1 H2], (enqueue_key_laws q k) as [H3 H4].
  unfold enqueue_all in *. simpl. rewrite H1, H2, H3, H4. set_solver.
Qed.
Lemma settle_key_laws v key q :
  pending (settle_key v key q) = match v with Forgotten => pending q | Requeued => {[key]} ∪ pending q end ∧
  processing (settle_key v key q) = processing q.
Proof. destruct v; simpl; [apply law_q_Forget|apply law_q_AddRateLimited]. Qed.

(** A step that keeps what is noticed, the caches, the workers and what was seen. *)
Lemma tracked_same s s' :
  lp_cache s' = lp_cache s → lp_workers s' = lp_workers s → lp_seen s' = lp_seen s → lp_named s' = lp_named s →
  processing (lp_queue s') = processing (lp_queue s) → (∀ key, noticed s key → noticed s' key) →
  tracked s → tracked s'.
Proof.
  intros Hc Hw Hs Hm Hp Hn [H1 H2 H3 H4 Hv H5]. unfold in_hand, settled, current, seen_of in *.
  split; unfold in_hand, settled, current, seen_of; rewrite ?Hc, ?Hw, ?Hs, ?Hm, ?Hp; try done.
  - intros key. destruct (H1 key) as [?|H]; [left; by apply Hn|by right].
  - intros i key c H. destruct (H2 i key c H) as [?|?]; [left; by apply Hn|by right].
Qed.

Lemma change_tracked s n c : change (lp_cache s) n c → tracked s → tracked (after_change s n c).
Proof.
  intros Hc [H1 H2 H3 H4 Hv H5]. set (s' := after_change s n c).
  assert (∀ key, noticed s' key ∨ key ∉ handle c n) as Hnew.
  { intros key. destruct (decide (key ∈ handle c n)) as [Hk|Hk]; [|by right]. left. left. exists n.
    split; [apply elem_of_app; right; by left|done]. }
  assert (∀ key, noticed s key → noticed s' key ∨ ignored (input c key)) as Hold.
  { intros key [(m & Hm & Hk)|Hk]; [|left; by right].
    destruct (law_handle _ _ _ m key Hc Hv Hk) as [Hk'|[Hk'|?]]; [left; left; exists m|left; left; exists n|by right];
      (split; [|done]); apply elem_of_app; [by left|right; by left]. }
  assert (∀ key x, key ∉ handle c n → current s x key → current s' x key) as Hcur.
  { intros key x Hk [Hx|Hx]; destruct (law_change _ _ _ key Hc Hv Hk) as [He|He]; unfold current; simpl;
      rewrite ?He; auto. }
  split; [| |done|done|by eapply law_valid|done].
  - intros key. destruct (Hnew key) as [?|Hk]; [by left|].
    destruct (H1 key) as [Hno|[[? Hp]|(i & [?|(x & ? & ?)])]].
    + destruct (Hold key Hno) as [?|?]; [by left|]. right; left. split; [by right|]. intros _. by right.
    + right; left. split; [by apply Hcur|]. simpl. intros [Hin|Hin]%elem_of_union.
      * by apply elem_of_list_to_set in Hin.
      * destruct (Hp Hin) as [?|Hi]; [by left|right]. destruct (law_change _ _ _ key Hc Hv Hk) as [->|?]; done.
    + right; right. exists i. by left.
    + right; right. exists i. right. exists x. split; [done|by apply Hcur].
  - intros i key x Hw. destruct (Hnew key) as [?|Hk]; [by left|].
    destruct (H2 i key x Hw) as [Hno|?]; [|right; by apply Hcur].
    destruct (Hold key Hno) as [?|?]; [by left|right; by right].
Qed.

(** *** The workers *)
Lemma get_tracked s i key q :
  lp_workers s !! i = Some Idle → q_Get (lp_queue s) = Some (key, q) → tracked s → tracked (moved s q i (Handed key)).
Proof.
  intros Hi Hg [H1 H2 H3 H4 Hv H5]. apply law_q_Get in Hg as (Hpen & Hfree & Hpro).
  set (s' := moved s q i (Handed key)).
  assert (∀ k, k ≠ key → noticed s k → noticed s' k) as Hold.
  { intros k Hne [Hk|Hk]; [by left|right]. apply Hpen. set_solver. }
  assert (lp_workers s' !! i = Some (Handed key)) as Hnew.
  { simpl. apply list_lookup_insert_eq. by eapply lookup_lt_Some. }
  assert (∀ j w, lp_workers s' !! j = Some w → (j = i ∧ w = Handed key) ∨ (j ≠ i ∧ lp_workers s !! j = Some w)) as Hinv.
  { intros j w Hj. destruct (decide (j = i)) as [->|Hne]; [left; split; congruence|right; split; [done|]].
    simpl in Hj. by rewrite list_lookup_insert_ne in Hj. }
  split; [| | | |done|done].
  - intros k. destruct (decide (k = key)) as [->|Hne]; [right; right; exists i; by left|].
    destruct (H1 k) as [?|[?|(j & Hj)]]; [left; auto|right; by left|right; right; exists j].
    assert (lp_workers s' !! j = lp_workers s !! j) as ->; [|done]. simpl. apply list_lookup_insert_ne.
    intros ->. destruct Hj as [Hj|(c & Hj & _)]; congruence.
  - intros j k c Hj. destruct (Hinv _ _ Hj) as [[_ [=]]|[Hne Hj']].
    destruct (H2 j k c Hj') as [Hn|?]; [left|by right]. apply Hold; [|done].
    intros ->. apply Hfree. by eapply H3.
  - intros j w k Hj Hk. simpl. rewrite Hpro. destruct (Hinv _ _ Hj) as [[-> ->]|[Hne Hj']]; [|apply elem_of_union_r; by eapply H3].
    simpl in Hk. set_solver.
  - intros j j' v w k Hj Hj' Hk Hk'. destruct (Hinv _ _ Hj) as [[-> ->]|[Hne Hjs]], (Hinv _ _ Hj') as [[-> ->]|[Hne' Hjs']].
    + done.
    + simpl in Hk. injection Hk as <-. destruct Hfree. by eapply H3.
    + simpl in Hk'. injection Hk' as <-. destruct Hfree. by eapply H3.
    + by eapply H4.
Qed.

(** A worker that goes on with its key, or puts it down: the others stay as they
    are, and what holds of every key is for the step to say. *)
Lemma moved_tracked s s' i w w' :
  tracked s → lp_workers s !! i = Some w → lp_workers s' = <[i := w']> (lp_workers s) → lp_cache s' = lp_cache s →
  (∀ key c, w' = Passing key c → c = lp_cache s) →
  (∀ key, worker_key w' = Some key → worker_key w = Some key) →
  (∀ key, key ∈ processing (lp_queue s) → key ∈ processing (lp_queue s') ∨ worker_key w' = None ∧ worker_key w = Some key) →
  (∀ key, noticed s key → noticed s' key) →
  (∀ key, settled s key → noticed s' key ∨ settled s' key) →
  (∀ key, worker_key w = Some key → noticed s' key ∨ settled s' key ∨ w' = Passing key (lp_cache s) ∨
     (noticed s key ∨ settled s key)) →
  (∀ key c, lp_seen s' !! key = Some c → ∃ v v', pass c key v = (Ok Forgotten, v')) →
  tracked s'.
Proof.
  intros [H1 H2 H3 H4 Hv H5] Hi Hw Hc Hpass Hkey Hpro Hold Hset Hown Hseen.
  assert (lp_workers s' !! i = Some w') as Hnew.
  { rewrite Hw. apply list_lookup_insert_eq. by eapply lookup_lt_Some. }
  assert (∀ j x, lp_workers s' !! j = Some x → (j = i ∧ x = w') ∨ (j ≠ i ∧ lp_workers s !! j = Some x)) as Hinv.
  { intros j x Hj. destruct (decide (j = i)) as [->|Hne]; [left; split; congruence|right; split; [done|]].
    rewrite Hw in Hj. by rewrite list_lookup_insert_ne in Hj. }
  assert (∀ c key, current s' c key ↔ current s c key) as Hcur by (intros; unfold current; by rewrite Hc).
  split; [| | | |by rewrite Hc|done].
  - intros key. destruct (decide (worker_key w = Some key)) as [Hk|Hk].
    + destruct (Hown key Hk) as [?|[?|[->|[?|?]]]]; [by left|right; by left| |left; auto|].
      * right; right. exists i. right. exists (lp_cache s). split; [done|]. apply Hcur. by left.
      * destruct (Hset key) as [?|?]; [done|by left|right; by left].
    + destruct (H1 key) as [?|[?|(j & Hj)]]; [left; auto| |].
      { destruct (Hset key) as [?|?]; [done|by left|right; by left]. }
      right; right. exists j. rewrite Hw. rewrite list_lookup_insert_ne.
      * destruct Hj as [?|(c & ? & ?)]; [by left|right]. exists c. split; [done|by apply Hcur].
      * intros ->. rewrite Hi in Hj. destruct Hj as [[= ->]|(c & [= ->] & _)]; by destruct Hk.
  - intros j key c Hj. destruct (Hinv _ _ Hj) as [[-> Hx]|[_ Hj']].
    + symmetry in Hx. apply Hpass in Hx as ->. right. apply Hcur. by left.
    + destruct (H2 j key c Hj') as [?|?]; [left; auto|right; by apply Hcur].
  - intros j x key Hj Hk. destruct (Hinv _ _ Hj) as [[-> ->]|[Hne Hj']].
    + destruct (Hpro key) as [?|[Hno _]]; [eapply H3; [exact Hi|by apply Hkey]|done|congruence].
    + destruct (Hpro key) as [?|[_ Hk']]; [by eapply H3|done|]. destruct Hne. by eapply H4.
  - intros j j' x y key Hj Hj' Hk Hk'. destruct (Hinv _ _ Hj) as [[-> ->]|[Hne Hjs]], (Hinv _ _ Hj') as [[-> ->]|[Hne' Hjs']].
    + done.
    + eapply H4; [exact Hi|exact Hjs'|by apply Hkey|done].
    + eapply H4; [exact Hjs|exact Hi|done|by apply Hkey].
    + by eapply H4.
Qed.

Lemma pass_tracked s i key c v w :
  lp_workers s !! i = Some (Passing key c) → pass c key (lp_world s) = (Ok v, w) → tracked s →
  tracked (after_pass s i key c v w).
Proof.
  intros Hi Hp Ht. pose proof Ht as [_ H2 _ _ _ H5]. destruct (settle_key_laws v key (lp_queue s)) as [Hpen Hpro].
  assert (∀ k, noticed s k → noticed (after_pass s i key c v w) k) as Hold.
  { intros k [Hk|Hk]; [by left|right]. change (k ∈ pending (settle_key v key (lp_queue s))).
    rewrite Hpen. destruct v; set_solver. }
  assert (noticed (after_pass s i key c v w) key ∨ settled (after_pass s i key c v w) key) as Hown.
  { destruct v; [|left; right; change (key ∈ pending (settle_key Requeued key (lp_queue s))); rewrite Hpen; set_solver].
    destruct (H2 i key c Hi) as [?|He]; [left; auto|right]. unfold settled, seen_of. simpl.
    rewrite lookup_insert_eq. split; [done|by left]. }
  eapply (moved_tracked s _ i _ (Passed key)); [done|exact Hi|done|done|done|done| |done| | |].
  - intros k Hk. left. change (k ∈ processing (settle_key v key (lp_queue s))). by rewrite Hpro.
  - intros k Hk. destruct (decide (k = key)) as [->|Hne]; [done|right].
    unfold settled, seen_of in *. simpl. destruct v; [by rewrite lookup_insert_ne|done].
  - intros k [= <-]. destruct Hown; [by left|right; by left].
  - intros k x. simpl. destruct v; [|apply H5]. destruct (decide (k = key)) as [->|Hne].
    + rewrite lookup_insert_eq. intros [= <-]. by exists (lp_world s), w.
    + rewrite lookup_insert_ne by done. apply H5.
Qed.

Lemma start_tracked s i key :
  lp_workers s !! i = Some (Handed key) → tracked s → tracked (moved s (lp_queue s) i (Passing key (lp_cache s))).
Proof.
  intros Hi Ht. pose proof Ht as [_ _ _ _ _ H5].
  eapply (moved_tracked s _ i _ (Passing key (lp_cache s))); [done|exact Hi|done|done| |done|by left|done|by right| |done].
  - by intros k c [= _ <-].
  - intros k [= <-]. auto.
Qed.

(** What a worker that has passed its key leaves is noticed or was seen. *)
Lemma done_tracked s i key :
  lp_workers s !! i = Some (Passed key) → tracked s → tracked (moved s (q_Done key (lp_queue s)) i Idle).
Proof.
  intros Hi Ht. pose proof Ht as [H1 _ _ H4 _ H5]. destruct (law_q_Done key (lp_queue s)) as [Hpen Hpro].
  eapply (moved_tracked s _ i _ Idle); [done|exact Hi|done|done|done|done| | |by right| |done].
  - intros k Hk. simpl. rewrite Hpro. destruct (decide (k = key)) as [->|Hne]; [by right|left; set_solver].
  - intros k [Hk|Hk]; [by left|right]. simpl. by rewrite Hpen.
  - intros k [= <-]. right; right; right. destruct (H1 key) as [?|[?|(j & Hj)]]; [by left|by right|].
    exfalso. assert (j = i) as ->.
    { destruct Hj as [Hj|(c & Hj & _)]; eapply H4; [exact Hj|exact Hi|done|done|exact Hj|exact Hi|done|done]. }
    destruct Hj as [Hj|(c & Hj & _)]; congruence.
Qed.

Lemma loop_step_tracked s s' : loop_step pass s s' → tracked s → tracked s'.
Proof.
  intros Hstep Ht.
  destruct Hstep as [n c Hc|pre n post Hn|i key q Hi Hg|i key Hi|i key c v w Hi Hp|i key Hi| |key|w].
  - by apply change_tracked.
  - destruct (enqueue_all_laws (handle (lp_cache s) n) (lp_queue s)) as [Hpen Hpro].
    eapply tracked_same; [..|exact Ht]; try done.
    intros key [(m & Hm & Hk)|Hk]; unfold noticed; simpl; rewrite Hpen; [|right; set_solver].
    rewrite Hn, elem_of_app, elem_of_cons in Hm. destruct Hm as [Hm|[->|Hm]]; [left|right|left]; [..|set_solver|].
    + exists m. split; [apply elem_of_app; by left|done].
    + exists m. split; [apply elem_of_app; by right|done].
  - by apply get_tracked.
  - by apply start_tracked.
  - by apply pass_tracked.
  - by apply done_tracked.
  - destruct (law_q_elapse (lp_queue s)) as [Hpen Hpro]. eapply tracked_same; [..|exact Ht]; try done.
    intros k. unfold noticed. simpl. by rewrite Hpen.
  - destruct (enqueue_key_laws (lp_queue s) key) as [Hpen Hpro]. eapply tracked_same; [..|exact Ht]; try done.
    intros k [Hk|Hk]; [by left|right]. simpl. rewrite Hpen. set_solver.
  - eapply tracked_same; [..|exact Ht]; done.
Qed.

(** In any state that is reached, what is not current is on its way to a pass; and
    in a quiet one what is there was last passed as it is now. *)
Lemma loop_tracked n q w s : rtc (loop_step pass) (loop_start n c0 q w) s → tracked s.
Proof.
  intros H. remember (loop_start n c0 q w) as s0 eqn:H0.
  assert (tracked s0) as Hs by (subst; apply loop_start_tracked).
  clear H0. induction H as [|s1 s2 s3 H12 _ IH]; [done|]. by eapply IH, loop_step_tracked.
Qed.
Lemma loop_notices n q w s key :
  rtc (loop_step pass) (loop_start n c0 q w) s → current s (seen_of s key) key ∨ noticed s key ∨ in_hand s key.
Proof.
  intros H. destruct (tk_key _ (loop_tracked n q w s H) key) as [?|[[? _]|?]]; [right; by left|by left|right; by right].
Qed.
Lemma loop_quiet n q w s key :
  rtc (loop_step pass) (loop_start n c0 q w) s → quiet s →
  ((key ∉ lp_named s ∨ ignored (input (lp_cache s) key)) ∧ current s c0 key) ∨
  ∃ c w1 w2, current s c key ∧ pass c key w1 = (Ok Forgotten, w2).
Proof.
  intros H (Hn & Hp & Hw). pose proof (loop_tracked n q w s H) as Ht.
  destruct (tk_key _ Ht key) as [Hno|[[Hseen Hin]|(i & Hi)]].
  - exfalso. destruct Hno as [(m & Hin & _)|Hin]; [rewrite Hn in Hin; by apply elem_of_nil in Hin|].
    rewrite Hp in Hin. set_solver.
  - unfold seen_of in Hseen. destruct (lp_seen s !! key) as [c|] eqn:Hi.
    + right. destruct (tk_seen _ Ht key c Hi) as (w1 & w2 & Hpass). by exists c, w1, w2.
    + left. split; [|done]. destruct (decide (key ∈ lp_named s)) as [Hk|]; [|by left].
      destruct (Hin Hk) as [[? [=]]|?]; by right.
  - exfalso. by destruct Hi as [Hi|(c & Hi & _)]; apply Hw in Hi.
Qed.

(** For a key with something to do about, that is that it is as it was read. *)
Lemma loop_keeps n q w s key :
  rtc (loop_step pass) (loop_start n c0 q w) s → ¬ ignored (input (lp_cache s) key) →
  (input (seen_of s key) key = input (lp_cache s) key ∨ noticed s key ∨ in_hand s key) ∧
  (quiet s → input c0 key = input (lp_cache s) key ∨
     ∃ c w1 w2, input c key = input (lp_cache s) key ∧ pass c key w1 = (Ok Forgotten, w2)).
Proof.
  intros H Hi. split.
  - destruct (loop_notices n q w s key H) as [[?|?]|?]; auto. done.
  - intros Hq. destruct (loop_quiet n q w s key H Hq) as [[_ [?|?]]|(c & w1 & w2 & [?|?] & Hp)]; [by left|done| |done].
    right. by exists c, w1, w2.
Qed.

(** No two workers ever have the same key. *)
Lemma loop_apart n q w s i j key vi vj :
  rtc (loop_step pass) (loop_start n c0 q w) s → lp_workers s !! i = Some vi → lp_workers s !! j = Some vj →
  worker_key vi = Some key → worker_key vj = Some key → i = j.
Proof. intros H. by eapply tk_apart, loop_tracked. Qed.
End promises.

(** ** A queue that keeps its promises *)
Record RefQ := mkRefQ { rq_ready : list string; rq_delayed : gset string; rq_processing : gset string }.
Definition ref_pending (q : RefQ) : gset string := list_to_set (rq_ready q) ∪ rq_delayed q.
Definition ref_add (k : string) (l : list string) : list string := if decide (k ∈ l) then l else l ++ [k].
(** The first that is ready and not in anyone's hands. *)
Definition ref_get (q : RefQ) : option (string * RefQ) :=
  match filter (λ k, k ∉ rq_processing q) (rq_ready q) with
  | [] => None
  | k :: _ => Some (k, mkRefQ (filter (λ x, x ≠ k) (rq_ready q)) (rq_delayed q) ({[k]} ∪ rq_processing q))
  end.
#[export] Instance RefQueue : WorkQueue RefQ := {|
  q_Add k q := mkRefQ (ref_add k (rq_ready q)) (rq_delayed q) (rq_processing q);
  q_AddAfter k q := mkRefQ (rq_ready q) ({[k]} ∪ rq_delayed q) (rq_processing q);
  q_AddRateLimited k q := mkRefQ (rq_ready q) ({[k]} ∪ rq_delayed q) (rq_processing q);
  q_Forget k q := q;
  q_Done k q := mkRefQ (rq_ready q) (rq_delayed q) (rq_processing q ∖ {[k]});
  q_Get := ref_get;
  q_elapse q := mkRefQ (fold_left (λ l k, ref_add k l) (elements (rq_delayed q)) (rq_ready q)) ∅ (rq_processing q) |}.
Definition ref_empty : RefQ := mkRefQ [] ∅ ∅.
Lemma list_to_set_ref_add k l : list_to_set (C := gset string) (ref_add k l) = {[k]} ∪ list_to_set l.
Proof. unfold ref_add. case_decide; [|rewrite list_to_set_app_L]; set_solver. Qed.
Lemma RefQueue_laws : WorkQueueLaws RefQueue ref_pending rq_processing.
Proof.
  split; unfold ref_pending; simpl.
  - intros k q. rewrite list_to_set_ref_add. set_solver.
  - set_solver.
  - set_solver.
  - done.
  - done.
  - intros k q q'. unfold ref_get. destruct (filter _ _) as [|k' l] eqn:Hf; [done|]. intros [= -> <-]. simpl.
    split; [|split; [|done]].
    + intros x. rewrite !elem_of_difference, !elem_of_union, !elem_of_list_to_set, list_elem_of_filter. set_solver.
    + assert (k ∈ filter (λ x, x ∉ rq_processing q) (rq_ready q)) as Hk by (rewrite Hf; by left).
      by apply list_elem_of_filter in Hk as [].
  - intros q. split; [|done].
    assert (∀ ks l, list_to_set (C := gset string) (fold_left (λ l k, ref_add k l) ks l) = list_to_set ks ∪ list_to_set l) as Hf.
    { induction ks as [|k ks IH]; intros l; simpl; [set_solver|]. rewrite IH, list_to_set_ref_add. set_solver. }
    rewrite Hf, list_to_set_elements_L. set_solver.
Qed.
Lemma ref_quiet {Cache Note W} n c w seen named :
  quiet ref_pending (mkLoop c [] ref_empty (replicate n Idle) w seen named : LoopState Cache Note W RefQ).
Proof. repeat split. by intros i v [-> _]%lookup_replicate. Qed.
