(* ===== verification/ServiceEvents.v ===== *)
(** * pkg/service/controller.go: from an event to a pass

    What the Service controller supplies to the loop: the caches of Services and
    slices, the handlers NewController registers, and its pass. *)

From S2P Require Import Prelude GoStd K8s LoadBalancing ServiceMembers ServiceReconciler ServiceGC ControllerLoop.
From stdpp Require Import relations.
From Stdlib Require Import Ascii.

Local Open Scope string_scope.
Local Open Scope list_scope.

(** ** The caches and what changes them *)
Record Cache := mkCache {
  ca_services : gmap string Service;
  ca_slices : gmap string EndpointSlice;
  (* for the proofs: the Services a slice was relabelled away from, not heard of since *)
  ca_left : gset string }.
(** What a handler is called with: the object added, the new one of an update, the
    last one known of a deletion, out of its tombstone where it is in one. *)
Inductive Note := ServiceNote (svc : Service) | SliceNote (slice : EndpointSlice).
Definition service_keys (n : Note) : list string :=
  match n with ServiceNote svc => enqueueService svc | SliceNote slice => enqueueSlice slice end.
Definition service_key (svc : Service) : string := sv_Namespace svc +:+ "/" +:+ sv_Name svc.

(** A slice may be relabelled: UpdateFunc is given the old one too, and looks at
    the new one only, so the Service the old one was of is not named. *)
Definition left_by (c : Cache) (id : string) (slice : EndpointSlice) : gset string :=
  match ca_slices c !! id with
  | Some old => list_to_set (enqueueSlice old) ∖ list_to_set (enqueueSlice slice)
  | None => ∅
  end.
(** A change of the caches and the note about it. *)
Inductive service_change (c : Cache) : Note → Cache → Prop :=
  | change_service svc :
      service_change c (ServiceNote svc)
        (mkCache (<[service_key svc := svc]> (ca_services c)) (ca_slices c) (ca_left c ∖ {[service_key svc]}))
  | drop_service svc :
      service_change c (ServiceNote svc)
        (mkCache (delete (service_key svc) (ca_services c)) (ca_slices c) (ca_left c ∖ {[service_key svc]}))
  | change_slice id slice :
      service_change c (SliceNote slice)
        (mkCache (ca_services c) (<[id := slice]> (ca_slices c))
           ((ca_left c ∖ list_to_set (enqueueSlice slice)) ∪ left_by c id slice))
  | drop_slice id slice :
      service_change c (SliceNote slice)
        (mkCache (ca_services c) (delete id (ca_slices c))
           ((ca_left c ∖ list_to_set (enqueueSlice slice)) ∪ left_by c id slice)).

(** What a pass over a key reads: its Service, and the slices of its namespace
    that carry its name. *)
Definition ServiceInput : Type := option Service * gmap string EndpointSlice.
Definition slice_of (key : string) (slice : EndpointSlice) : bool :=
  match es_Labels slice !! LabelServiceName with
  | Some name => bool_decide (name ≠ "" ∧ key = es_Namespace slice +:+ "/" +:+ name)
  | None => false
  end.
Definition service_input (c : Cache) (key : string) : ServiceInput :=
  (ca_services c !! key, filter (λ e : string * EndpointSlice, slice_of key e.2 = true) (ca_slices c)).

#[export] Instance ServiceSource : EventSource Cache Note (ServiceInput * bool) := {|
  valid _ := True; change := service_change; handle _ := service_keys; delayed := false;
  input c key := (service_input c key, bool_decide (key ∈ ca_left c)); ignored i := i.2 = true |}.

(** ** The pass *)
Section controller.
Context {W : Type} `{!Octavia W} `{!Clock W} `{!FloatingIPs W} `{!ServicesAPI W} `{!SubnetResolver W}.
Variable ServesNamespace : option (string → bool).
Variable has_events : bool.
(** Whose work a namespace is; the reconciler's listers read the caches. *)
Variable reconcilerOf : Cache → string → M W Reconciler.

Definition own_service (c : Cache) (namespace name : string) : result Service :=
  match ca_services c !! (namespace +:+ "/" +:+ name) with Some svc => Ok svc | None => Err ErrK8sNotFound end.
Definition pass (c : Cache) (key : string) : M W Verdict :=
  v ← reconcile ServesNamespace (own_service c) has_events (reconcilerOf c) key; mret v.1.
End controller.

(** ** Lemmas *)
Lemma slice_of_enqueued key slice : slice_of key slice = true ↔ key ∈ enqueueSlice slice.
Proof.
  unfold slice_of, enqueueSlice. destruct (es_Labels slice !! LabelServiceName) as [name|]; simpl.
  - rewrite bool_decide_eq_true. case_decide as Hn; [subst; split; [by intros []|by intros ?%elem_of_nil]|].
    rewrite list_elem_of_singleton. tauto.
  - split; [done|by intros ?%elem_of_nil].
Qed.
Lemma filter_slices_same key (m m' : gmap string EndpointSlice) id :
  (∀ j, j ≠ id → m' !! j = m !! j) →
  (∀ x, m !! id = Some x → slice_of key x = false) → (∀ x, m' !! id = Some x → slice_of key x = false) →
  filter (λ e : string * EndpointSlice, slice_of key e.2 = true) m' =
  filter (λ e : string * EndpointSlice, slice_of key e.2 = true) m.
Proof.
  intros Hne Hm Hm'. apply map_eq. intros j. apply option_eq. intros x. rewrite !map_lookup_filter_Some. simpl.
  destruct (decide (j = id)) as [->|Hj]; [|by rewrite Hne].
  split; intros [Hx Hs]; [rewrite (Hm' x Hx) in Hs|rewrite (Hm x Hx) in Hs]; done.
Qed.
(** A slice none of whose Services, old or new, has the key. *)
Lemma left_by_spec c id slice key :
  key ∉ enqueueSlice slice → key ∉ left_by c id slice → ∀ x, ca_slices c !! id = Some x → slice_of key x = false.
Proof.
  intros Hs Hl x Hx. apply not_true_iff_false. intros Hk%slice_of_enqueued. apply Hl. unfold left_by. rewrite Hx.
  apply elem_of_difference. by rewrite !elem_of_list_to_set.
Qed.
Lemma not_slice_of key slice : key ∉ enqueueSlice slice → slice_of key slice = false.
Proof. intros H. apply not_true_iff_false. by intros ?%slice_of_enqueued. Qed.

Lemma service_change_named c n c' key :
  service_change c n c' → key ∉ service_keys n → key ∉ ca_left c' →
  service_input c' key = service_input c key ∧ key ∉ ca_left c.
Proof.
  intros Hc Hn Hl. unfold service_input. destruct Hc as [svc|svc|id slice|id slice]; simpl in *.
  1,2: apply not_elem_of_cons in Hn as [Hn _]; change (key ≠ service_key svc) in Hn;
    (split; [|set_solver]); by rewrite ?lookup_insert_ne, ?lookup_delete_ne.
  all: apply not_elem_of_union in Hl as [Hl Hb]; (split; [f_equal|]).
  2,4: intros H; apply Hl, elem_of_difference; by rewrite elem_of_list_to_set.
  all: apply (filter_slices_same key _ _ id); [|by eapply left_by_spec|].
  - intros j Hj. by rewrite lookup_insert_ne.
  - intros x. rewrite lookup_insert_eq. intros [= <-]. by apply not_slice_of.
  - intros j Hj. by rewrite lookup_delete_ne.
  - intros x. by rewrite lookup_delete_eq.
Qed.
#[export] Instance ServiceSource_laws : EventSourceLaws ServiceSource.
Proof.
  split.
  - done.
  - intros c n c' key Hc _ Hn. simpl. destruct (decide (key ∈ ca_left c')) as [Hl|Hl]; [right; by apply bool_decide_eq_true|].
    left. destruct (service_change_named c n c' key Hc Hn Hl) as [-> H]. by rewrite !bool_decide_eq_false_2.
  - intros c n c' m key _ _ Hk. by left.
Qed.

(** A pass that is content was over a key of no Service here, or it succeeded. *)
Lemma pass_content {W} {api : Octavia W} {clock : Clock W} {fips : FloatingIPs W} {services : ServicesAPI W}
    {subnets : SubnetResolver W} ServesNamespace has_events (reconcilerOf : Cache → string → M W Reconciler)
    c key namespace name w w' :
  SplitMetaNamespaceKey key = Some (namespace, name) → serves ServesNamespace namespace = true →
  pass ServesNamespace has_events reconcilerOf c key w = (Ok Forgotten, w') →
  ∃ r w1, reconcilerOf c namespace w = (Ok r, w1) ∧ Reconcile r namespace name w1 = (Ok (), w').
Proof.
  intros Hk Hs. unfold pass, reconcile. rewrite Hk, Hs. unfold mbind, M_bind, try.
  destruct (reconcilerOf c namespace w) as [[r|e] w1]; [|by intros [=]].
  destruct (Reconcile r namespace name w1) as [[[]|e] w2] eqn:Hr; [|by intros [=]].
  intros [= <-]. by exists r, w1.
Qed.

Lemma current_heard {W Q : Type} (s : LoopState Cache Note W Q) c key :
  key ∉ ca_left (lp_cache s) → current s c key → service_input c key = service_input (lp_cache s) key.
Proof.
  intros Hl [Hc|Hc]; [by apply (f_equal fst) in Hc|]. by apply bool_decide_eq_true in Hc.
Qed.

(** ** Properties *)
Definition no_events : Cache := mkCache ∅ ∅ ∅.
Lemma no_events_valid : valid no_events.
Proof. exact I. Qed.

(** C23 No change of a Service or of its endpoints is lost, but for a slice taken
    from it.  Whatever the order in which events are delivered, keys handed out
    and passes made, a Service whose state or endpoints are not what the last
    content pass read is on its way to another one; and once the controller is
    quiet, every Service of a served namespace that was ever heard of, the deleted
    ones included, had a successful pass over exactly what the caches now hold, and
    nothing is there of any other.  It is not so of a Service a slice was relabelled
    away from, until an event names that Service again. *)
Theorem service_events_not_lost {W Q : Type} {api : Octavia W} {clock : Clock W} {fips : FloatingIPs W}
    {services : ServicesAPI W} {subnets : SubnetResolver W} {wq : WorkQueue Q} (pending processing : Q → gset string)
    `{!WorkQueueLaws wq pending processing} (ServesNamespace : option (string → bool)) (has_events : bool)
    (reconcilerOf : Cache → string → M W Reconciler) (q : Q) (w : W) (s : LoopState Cache Note W Q) (key : string) :
  rtc (loop_step (pass ServesNamespace has_events reconcilerOf)) (loop_start 1 no_events q w) s →
  key ∉ ca_left (lp_cache s) →
  (service_input (seen_of no_events s key) key = service_input (lp_cache s) key ∨
   noticed pending s key ∨ in_hand s key) ∧
  (quiet pending s → ∀ namespace name, SplitMetaNamespaceKey key = Some (namespace, name) →
     serves ServesNamespace namespace = true →
     ((key ∉ lp_named s) ∧ service_input (lp_cache s) key = (None, ∅)) ∨
     ∃ c r w1 w2 w3, service_input c key = service_input (lp_cache s) key ∧
       reconcilerOf c namespace w1 = (Ok r, w2) ∧ Reconcile r namespace name w2 = (Ok (), w3)).
Proof.
  intros H Hl. split.
  - destruct (loop_notices pending processing _ no_events no_events_valid 1 q w s key H) as [Hc|[?|?]]; [left|auto..].
    by apply current_heard.
  - intros Hq namespace name Hk Hs.
    destruct (loop_quiet pending processing _ no_events no_events_valid 1 q w s key H Hq) as [[Hk' Hn]|(c & w1 & w3 & Hc & Hp)].
    + left. split; [destruct Hk' as [?|Hk']; [done|]|].
      { by apply bool_decide_eq_true in Hk'. }
      apply current_heard in Hn as <-; [|done]. unfold service_input. simpl. by rewrite map_filter_empty.
    + right. destruct (pass_content _ _ _ _ _ _ _ _ _ Hk Hs Hp) as (r & w2 & H1 & H2). apply current_heard in Hc; [|done].
      by exists c, r, w1, w2, w3.
Qed.

(** ** Witness *)
Definition ex_reading (c : Cache) (namespace : string) : M RefWorld Reconciler :=
  mret (mkReconciler "t1" (Some ["prod"]) (own_service c) (λ _, Ok ex_slices) "vip-subnet" true "public-net" false).
Definition ex_serves : option (string → bool) := Some (λ ns, bool_decide (ns = "prod")).
Definition ex_cache : Cache := mkCache (<[service_key ex_svc2 := ex_svc2]> ∅) ∅ (∅ ∖ {[service_key ex_svc2]}).
Definition ex_loop_pass : Cache → string → M RefWorld Verdict :=
  @pass RefWorld RefOctavia RefClock RefFloating RefServices RefSubnets ex_serves false ex_reading.
Definition ex_passed : result Verdict * RefWorld := ex_loop_pass ex_cache "prod/web" ex_second.
Lemma ex_key : service_key ex_svc2 = "prod/web".
Proof. vm_compute. reflexivity. Qed.

(** The Service comes, its key is queued and handed out, and the pass succeeds. *)
Lemma ex_goes_quiet w :
  ex_passed = (Ok Forgotten, w) →
  rtc (loop_step ex_loop_pass) (loop_start 1 no_events ref_empty ex_second)
    (mkLoop ex_cache [] ref_empty [Idle] w {["prod/web" := ex_cache]} {["prod/web"]}).
Proof.
  intros Hp. pose proof ex_key as Hk.
  eapply rtc_l; [apply (st_change _ (loop_start 1 no_events _ ex_second) (ServiceNote ex_svc2) ex_cache), change_service|].
  simpl. eapply rtc_l; [by apply (st_deliver _ _ [] (ServiceNote ex_svc2) [])|].
  change (handle _ (ServiceNote ex_svc2)) with [service_key ex_svc2]. rewrite Hk. simpl.
  eapply rtc_l; [eapply (st_get _ _ 0 "prod/web"); reflexivity|]. simpl.
  eapply rtc_l; [eapply (st_start _ _ 0); reflexivity|]. simpl.
  eapply rtc_l; [eapply (st_pass _ _ 0); [reflexivity|exact Hp]|]. simpl.
  eapply rtc_l; [eapply (st_done _ _ 0); reflexivity|]. apply rtc_refl.
Qed.

Lemma service_events_not_lost_witness :
  is_ok ex_passed.1 = true ∧ ∃ c r w1 w2 w3, service_input c "prod/web" = service_input ex_cache "prod/web" ∧
    ex_reading c "prod" w1 = (Ok r, w2) ∧
    @Reconcile RefWorld RefOctavia RefClock RefFloating RefServices RefSubnets r "prod" "web" w2 = (Ok (), w3).
Proof.
  assert (match ex_passed.1 with Ok Forgotten => true | _ => false end = true) as Hok by (vm_compute; reflexivity).
  pose proof ex_goes_quiet as Hgo. pose proof ex_key as Hkey. revert Hok Hgo. generalize ex_passed.
  intros [[[]|e] w] Hok Hgo; try discriminate Hok. split; [reflexivity|].
  destruct (@service_events_not_lost RefWorld RefQ RefOctavia RefClock RefFloating RefServices RefSubnets RefQueue
    ref_pending rq_processing RefQueue_laws ex_serves false ex_reading ref_empty ex_second _ "prod/web" (Hgo w eq_refl)
    ltac:(intros Hin; apply elem_of_difference in Hin as [Hin _]; by apply elem_of_empty in Hin)) as [_ H].
  destruct (H (ref_quiet 1 _ _ _ _) "prod" "web" eq_refl eq_refl) as [[Hnone _]|Hsome].
  - destruct Hnone. apply elem_of_singleton. reflexivity.
  - exact Hsome.
Defined.

(** ** What modelling showed *)

(** A slice that moves to another Service is told of under the new one only: the
    Service it left keeps its members until something else is heard of it. *)
Theorem relabelled_slice_unheard :
  let old := mkSlice "prod" {[LabelServiceName := "web"]} "IPv4" [] [] in
  let new := mkSlice "prod" {[LabelServiceName := "api"]} "IPv4" [] [] in
  let c := mkCache ∅ {["s1" := old]} ∅ in
  let c' := mkCache ∅ (<["s1" := new]> (ca_slices c)) ((∅ ∖ list_to_set (enqueueSlice new)) ∪ left_by c "s1" new) in
  service_change c (SliceNote new) c' ∧ ("prod/web" ∉ service_keys (SliceNote new)) ∧
  size (service_input c "prod/web").2 = 1 ∧ size (service_input c' "prod/web").2 = 0.
Proof.
  cbv zeta. split; [apply change_slice|]. split; [|split; vm_compute; reflexivity].
  assert (service_keys (SliceNote (mkSlice "prod" {[LabelServiceName := "api"]} "IPv4" [] [])) = ["prod/api"]) as ->
    by (vm_compute; reflexivity).
  intros H. apply list_elem_of_singleton in H. discriminate H.
Qed.
