(* ===== verification/IngressEvents.v ===== *)
(** * pkg/ingress/controller.go: from an event to a pass

    What the Ingress controller supplies to the loop: the caches of Ingresses and
    slices, the handlers NewController registers -- that of a slice looks the
    Ingresses behind it up in the cache of the moment -- and its pass. *)

From S2P Require Import Prelude GoStd K8s ZunCapsule LoadBalancing ServiceOctavia ServiceMembers ServiceReconciler ServiceGC.
From S2P Require Import IngressPlan IngressOctavia IngressFIP IngressBarbican IngressReconciler IngressController ControllerLoop.
From stdpp Require Import relations.
From Stdlib Require Import Ascii.

Local Open Scope string_scope.
Local Open Scope list_scope.

(** ** The caches and what changes them *)
Record IngressCache := mkIngressCache {
  ci_ingresses : gmap string Ingress;
  ci_slices : gmap string EndpointSlice;
  (* for the proofs: the Ingresses a slice behind them was relabelled away from, not heard of since *)
  ci_left : gset string }.
Inductive IngressNote := IngressHeard (ing : Ingress) | BackendHeard (slice : EndpointSlice).
Definition ingress_key (ing : Ingress) : string := in_Namespace ing +:+ "/" +:+ in_Name ing.

Section source.
(** The controller's own reconciler: its class, tenant and served namespaces. *)
Variable own : Reconciler.

(** What its listers answer. *)
Definition listed_in (c : IngressCache) (namespace : string) : result (list Ingress) :=
  Ok (filter (λ ing, in_Namespace ing = namespace) (map_to_list (ci_ingresses c)).*2).
Definition own_ingress (c : IngressCache) (namespace name : string) : result Ingress :=
  match ci_ingresses c !! (namespace +:+ "/" +:+ name) with Some ing => Ok ing | None => Err ErrK8sNotFound end.
Definition ingress_keys (c : IngressCache) (n : IngressNote) : list string :=
  match n with IngressHeard ing => enqueueIngress ing | BackendHeard slice => enqueueSlice own (listed_in c) slice end.

(** What a pass over a key reads of the caches: its Ingress, and the slices of the
    Services behind it. *)
Definition behind (ing : Ingress) (slice : EndpointSlice) : bool :=
  bool_decide (es_Namespace slice = in_Namespace ing) &&
  match es_Labels slice !! LabelServiceName with
  | Some svc => bool_decide (svc ≠ "") && existsb (λ b, bool_decide (br_Service b = svc)) (collectBackends ing).2
  | None => false
  end.
Definition IngressInput : Type := option Ingress * gmap string EndpointSlice.
Definition ingress_input (c : IngressCache) (key : string) : IngressInput :=
  (ci_ingresses c !! key,
   match ci_ingresses c !! key with
   | Some ing => filter (λ e : string * EndpointSlice, behind ing e.2 = true) (ci_slices c)
   | None => ∅
   end).
(** The Ingresses whose slices the handler looks out for. *)
Definition to_serve (ing : Ingress) : bool := Ours own ing && serves own (in_Namespace ing).

(** A slice may be relabelled: UpdateFunc is given the old one too, and looks at
    the new one only, so an Ingress only the old one was behind is not named. *)
Definition left_behind (c : IngressCache) (id : string) (slice : EndpointSlice) : gset string :=
  match ci_slices c !! id with
  | Some old => dom (filter (λ e : string * Ingress, behind e.2 old = true ∧ behind e.2 slice = false) (ci_ingresses c))
  | None => ∅
  end.
Definition left_after (c : IngressCache) (id : string) (slice : EndpointSlice) : gset string :=
  (ci_left c ∖ list_to_set (ingress_keys c (BackendHeard slice))) ∪ left_behind c id slice.
(** A change of the caches and the note about it. *)
Inductive ingress_change (c : IngressCache) : IngressNote → IngressCache → Prop :=
  | change_ingress ing :
      ingress_change c (IngressHeard ing)
        (mkIngressCache (<[ingress_key ing := ing]> (ci_ingresses c)) (ci_slices c) (ci_left c ∖ {[ingress_key ing]}))
  | drop_ingress ing :
      ingress_change c (IngressHeard ing)
        (mkIngressCache (delete (ingress_key ing) (ci_ingresses c)) (ci_slices c) (ci_left c ∖ {[ingress_key ing]}))
  | change_backend id slice :
      ingress_change c (BackendHeard slice)
        (mkIngressCache (ci_ingresses c) (<[id := slice]> (ci_slices c)) (left_after c id slice))
  | drop_backend id slice :
      ingress_change c (BackendHeard slice)
        (mkIngressCache (ci_ingresses c) (delete id (ci_slices c)) (left_after c id slice)).
(** What no handler was told of: what a slice was relabelled away from, and the
    slices of an Ingress the handler does not look out for. *)
Definition unheard (c : IngressCache) (key : string) : Prop :=
  key ∈ ci_left c ∨ ∃ ing, ci_ingresses c !! key = Some ing ∧ to_serve ing = false.
Definition ingresses_keyed (c : IngressCache) : Prop := map_Forall (λ key ing, key = ingress_key ing) (ci_ingresses c).

Definition IngressSource : EventSource IngressCache IngressNote (IngressInput * bool) := {|
  valid := ingresses_keyed; change := ingress_change; handle := ingress_keys; delayed := false;
  input c key := (ingress_input c key, bool_decide (key ∈ ci_left c));
  ignored i := i.2 = true ∨ ∃ ing, i.1.1 = Some ing ∧ to_serve ing = false |}.
End source.

(** ** The pass *)
Section pass.
Variable own : Reconciler.
Context `{!Bundles} {W : Type} `{!Octavia W} `{!Clock W} `{!OctaviaL7 W} `{!FloatingIPs W}
  `{!IngressesAPI W} `{!KeyManager W} `{!SubnetResolver W}.
Variable has_events : bool.
(** Whose work a namespace is; the reconciler's listers read the caches. *)
Variable reconcilerOf : IngressCache → string → M W Reconciler.

Definition ingress_reading (c : IngressCache) : Reconciler :=
  mkReconciler (ig_KeyManager own) (own_ingress c) (ig_Services own) (ig_Slices own) (ig_Secrets own) (ig_VIPSubnetID own)
    (ig_FloatingNetworkID own) (ig_Provider own) (ig_ClassName own) (ig_Tenant own) (ig_ServesNamespace own)
    (ig_Namespaces own).
Definition ingress_pass (c : IngressCache) (key : string) : M W Verdict :=
  v ← reconcile (ingress_reading c) has_events (reconcilerOf c) key; mret v.1.
End pass.

(** ** Lemmas *)
Section lemmas.
Variable own : Reconciler.
Lemma enqueueSlice_iff c slice key :
  ingresses_keyed c →
  key ∈ enqueueSlice own (listed_in c) slice ↔
    ∃ ing, ci_ingresses c !! key = Some ing ∧ to_serve own ing = true ∧ behind ing slice = true.
Proof.
  intros Hk. unfold enqueueSlice, listed_in, to_serve, behind.
  destruct (es_Labels slice !! LabelServiceName) as [svc|]; simpl.
  2: { split; [by intros ?%elem_of_nil|intros (? & _ & _ & Hf)]. by rewrite andb_false_r in Hf. }
  case_decide as Hsvc.
  { split; [by intros ?%elem_of_nil|intros (? & _ & _ & Hf)]. rewrite (bool_decide_eq_false_2 (svc ≠ "")) in Hf by tauto.
    by rewrite andb_false_r in Hf. }
  rewrite (bool_decide_eq_true_2 (svc ≠ "")) by done. simpl.
  destruct (serves own (es_Namespace slice)) eqn:Hs; simpl.
  2: { split; [by intros ?%elem_of_nil|intros (ing & _ & Ha & Hc)].
       apply andb_true_iff in Ha as [_ Ha]. apply andb_true_iff in Hc as [Hc _]. apply bool_decide_eq_true in Hc.
       congruence. }
  rewrite list_elem_of_In, in_flat_map. setoid_rewrite <-list_elem_of_In. split.
  - intros (ing & Hin & Hq). apply list_elem_of_filter in Hin as [Hns Hin].
    apply list_elem_of_fmap in Hin as ([k ing'] & -> & Hin). apply elem_of_map_to_list in Hin. simpl in *.
    pose proof (map_Forall_lookup_1 _ _ _ _ Hk Hin) as ->.
    destruct (_ && _) eqn:Hb; [|by apply elem_of_nil in Hq]. apply list_elem_of_singleton in Hq as ->.
    apply andb_true_iff in Hb as [Ho Hb]. exists ing'. split; [done|].
    rewrite Ho, Hns, Hs, Hb. split; [done|]. by rewrite bool_decide_eq_true_2.
  - intros (ing & Hin & Ho & Hb). apply andb_true_iff in Ho as [Ho _]. apply andb_true_iff in Hb as [Hns Hb].
    apply bool_decide_eq_true in Hns. exists ing. rewrite Ho, Hb. simpl.
    split; [|apply list_elem_of_singleton; by apply (map_Forall_lookup_1 _ _ _ _ Hk Hin)].
    apply list_elem_of_filter. split; [done|]. apply list_elem_of_fmap. exists (key, ing). split; [done|].
    by apply elem_of_map_to_list.
Qed.

(** Slices that are not behind it come and go without an Ingress's slices changing. *)
Lemma filter_behind_same ing (m m' : gmap string EndpointSlice) id :
  (∀ j, j ≠ id → m' !! j = m !! j) →
  (∀ x, m !! id = Some x → behind ing x = false) → (∀ x, m' !! id = Some x → behind ing x = false) →
  filter (λ e : string * EndpointSlice, behind ing e.2 = true) m' =
  filter (λ e : string * EndpointSlice, behind ing e.2 = true) m.
Proof.
  intros Hne Hm Hm'. apply map_eq. intros j. apply option_eq. intros x. rewrite !map_lookup_filter_Some. simpl.
  destruct (decide (j = id)) as [->|Hj]; [|by rewrite Hne].
  split; intros [Hx Hs]; [rewrite (Hm' x Hx) in Hs|rewrite (Hm x Hx) in Hs]; done.
Qed.
Lemma left_behind_spec c id slice key ing :
  ci_ingresses c !! key = Some ing → key ∉ left_behind c id slice → behind ing slice = false →
  ∀ x, ci_slices c !! id = Some x → behind ing x = false.
Proof.
  intros Hi Hl Hb x Hx. apply not_true_iff_false. intros Hk. apply Hl. unfold left_behind. rewrite Hx.
  apply elem_of_dom. exists ing. by apply map_lookup_filter_Some.
Qed.

Lemma ingress_change_named c n c' key :
  ingress_change own c n c' → ingresses_keyed c → key ∉ ingress_keys own c' n →
  (∀ ing, ci_ingresses c' !! key = Some ing → to_serve own ing = true) → key ∉ ci_left c' →
  ingress_input c' key = ingress_input c key ∧ key ∉ ci_left c.
Proof.
  intros Hc Hv Hn Hs Hl. unfold ingress_input. destruct Hc as [ing|ing|id slice|id slice]; simpl in *.
  1,2: apply not_elem_of_cons in Hn as [Hn _]; change (key ≠ ingress_key ing) in Hn;
    (split; [|set_solver]); by rewrite ?lookup_insert_ne, ?lookup_delete_ne.
  all: rewrite enqueueSlice_iff in Hn by done; simpl in Hn;
    unfold left_after in Hl; apply not_elem_of_union in Hl as [Hl Hb]; (split; [f_equal; destruct (ci_ingresses c !! key) as [ing|] eqn:Hi; [|done]|]).
  2,4: intros H; apply Hl, elem_of_difference; split; [done|]; rewrite elem_of_list_to_set; simpl;
    rewrite enqueueSlice_iff by done; exact Hn.
  all: assert (behind ing slice = false) as Hnb
    by (apply not_true_iff_false; intros ?; apply Hn; exists ing; auto).
  all: apply (filter_behind_same ing _ _ id); [|by eapply left_behind_spec|].
  - intros j Hj. by rewrite lookup_insert_ne.
  - intros x. rewrite lookup_insert_eq. by intros [= <-].
  - intros j Hj. by rewrite lookup_delete_ne.
  - intros x. by rewrite lookup_delete_eq.
Qed.

(** A note that named an Ingress names it still, or its own change does. *)
Lemma ingress_change_handled c n c' m key :
  ingress_change own c n c' → ingresses_keyed c → ingresses_keyed c' →
  key ∈ ingress_keys own c m → key ∈ ingress_keys own c' m ∨ key ∈ ingress_keys own c' n.
Proof.
  intros Hc Hv Hv' Hk. destruct m as [ing|slice]; [by left|]. simpl in *.
  rewrite enqueueSlice_iff in Hk by done. rewrite (enqueueSlice_iff c') by done. destruct Hk as (ing & Hi & Hrest).
  destruct Hc as [ing'|ing'|id s'|id s']; simpl in *; [| |left; by exists ing..].
  - destruct (decide (ingress_key ing' = key)) as [<-|Hne]; [right; by left|]. left. exists ing.
    by rewrite lookup_insert_ne.
  - destruct (decide (ingress_key ing' = key)) as [<-|Hne]; [right; by left|]. left. exists ing.
    by rewrite lookup_delete_ne.
Qed.
Lemma ingress_change_keyed c n c' : ingress_change own c n c' → ingresses_keyed c → ingresses_keyed c'.
Proof.
  intros Hc Hv. destruct Hc; unfold ingresses_keyed; simpl; [by apply map_Forall_insert_2|by apply map_Forall_delete|done..].
Qed.
Lemma IngressSource_laws : EventSourceLaws (IngressSource own).
Proof.
  split.
  - apply ingress_change_keyed.
  - intros c n c' key Hc Hv Hn. simpl.
    destruct (decide (key ∈ ci_left c')) as [Hl|Hl]; [right; left; by apply bool_decide_eq_true|].
    destruct (ci_ingresses c' !! key) as [ing|] eqn:Hi; [destruct (to_serve own ing) eqn:Ht|].
    2: { right; right. by exists ing. }
    all: left; destruct (ingress_change_named c n c' key Hc Hv Hn) as [-> H]; [|done|by rewrite !bool_decide_eq_false_2].
    + intros x. rewrite Hi. by intros [= <-].
    + intros x. by rewrite Hi.
  - intros c n c' m key Hc Hv Hk. destruct (ingress_change_handled _ _ _ m key Hc Hv) as [?|?]; [|done|by left|right; by left].
    by eapply ingress_change_keyed.
Qed.

End lemmas.

(** A pass that is content was over a key of no Ingress here, or it succeeded. *)
Lemma ingress_pass_content {bundles : Bundles} {W} {api : Octavia W} {clock : Clock W} {api7 : OctaviaL7 W}
    {fips : FloatingIPs W} {ings : IngressesAPI W} {km : KeyManager W} {subnets : SubnetResolver W}
    own has_events (reconcilerOf : IngressCache → string → M W Reconciler) c key namespace name w w' :
  SplitMetaNamespaceKey key = Some (namespace, name) → serves own namespace = true →
  ingress_pass own has_events reconcilerOf c key w = (Ok Forgotten, w') →
  ∃ r w1, reconcilerOf c namespace w = (Ok r, w1) ∧ Reconcile r namespace name w1 = (Ok (), w').
Proof.
  intros Hk Hs. unfold ingress_pass, reconcile. rewrite Hk. change (serves (ingress_reading own c) namespace) with (serves own namespace).
  rewrite Hs. unfold mbind, M_bind, try. destruct (reconcilerOf c namespace w) as [[r|e] w1]; [|by intros [=]].
  destruct (Reconcile r namespace name w1) as [[[]|e] w2] eqn:Hr; [|by intros [=]].
  intros [= <-]. by exists r, w1.
Qed.

Lemma ingress_current {W Q : Type} own (s : LoopState IngressCache IngressNote W Q) c key :
  ¬ unheard own (lp_cache s) key → current (src := IngressSource own) s c key →
  ingress_input c key = ingress_input (lp_cache s) key.
Proof.
  intros Hl [Hc|[Hc|Hc]]; [by apply (f_equal fst) in Hc|..]; destruct Hl; [|by right].
  left. by apply bool_decide_eq_true in Hc.
Qed.

(** ** Properties *)
Definition no_ingress_events : IngressCache := mkIngressCache ∅ ∅ ∅.
Lemma no_ingress_events_valid own : @valid _ _ _ (IngressSource own) no_ingress_events.
Proof. apply map_Forall_empty. Qed.

(** C25 No change of an Ingress or of the endpoints behind it is lost, but for what
    no handler is told of.  However events, keys and passes interleave -- a slice is
    looked up in the cache of the moment it is told of -- an Ingress that is not as
    the last content pass read it, its endpoints included, is on its way to another
    one; and once the controller is quiet, every Ingress of a served namespace that
    was ever heard of, the deleted ones included, had a successful pass over exactly
    what the caches now hold, and nothing is there of any other.  It is not so of an
    Ingress a slice behind it was relabelled away from, until an event names that
    Ingress again, nor of one the process's own reconciler does not take for its
    own or whose namespace it does not serve: the handler of slices passes it over. *)
Theorem ingress_events_not_lost {bundles : Bundles} {W Q : Type} {api : Octavia W} {clock : Clock W} {api7 : OctaviaL7 W}
    {fips : FloatingIPs W} {ings : IngressesAPI W} {km : KeyManager W} {subnets : SubnetResolver W} {wq : WorkQueue Q}
    (pending processing : Q → gset string) `{!WorkQueueLaws wq pending processing} (own : Reconciler) (has_events : bool)
    (reconcilerOf : IngressCache → string → M W Reconciler) (q : Q) (w : W) (s : LoopState IngressCache IngressNote W Q)
    (key : string) :
  rtc (loop_step (src := IngressSource own) (ingress_pass own has_events reconcilerOf)) (loop_start 1 no_ingress_events q w) s →
  ¬ unheard own (lp_cache s) key →
  (ingress_input (seen_of no_ingress_events s key) key = ingress_input (lp_cache s) key ∨
   noticed (src := IngressSource own) pending s key ∨ in_hand (src := IngressSource own) s key) ∧
  (quiet pending s → ∀ namespace name, SplitMetaNamespaceKey key = Some (namespace, name) →
     serves own namespace = true →
     ((key ∉ lp_named s) ∧ ingress_input (lp_cache s) key = (None, ∅)) ∨
     ∃ c r w1 w2 w3, ingress_input c key = ingress_input (lp_cache s) key ∧
       reconcilerOf c namespace w1 = (Ok r, w2) ∧ Reconcile r namespace name w2 = (Ok (), w3)).
Proof.
  intros H Hl. pose proof (IngressSource_laws own) as Hlaws. split.
  - destruct (loop_notices pending processing _ no_ingress_events (no_ingress_events_valid own) 1 q w s key H)
      as [Hc|[?|?]]; [left; by eapply ingress_current|auto..].
  - intros Hq namespace name Hk Hs.
    destruct (loop_quiet pending processing _ no_ingress_events (no_ingress_events_valid own) 1 q w s key H Hq)
      as [[Hk' Hn]|(c & w1 & w3 & Hc & Hp)].
    + apply ingress_current in Hn; [|done]. left. split; [|by rewrite <-Hn].
      destruct Hk' as [?|[Hi|Hi]]; [done|destruct Hl; left; by apply bool_decide_eq_true in Hi|destruct Hl; by right].
    + right. apply ingress_current in Hc; [|done].
      destruct (ingress_pass_content _ _ _ _ _ _ _ _ _ Hk Hs Hp) as (r & w2 & H1 & H2). by exists c, r, w1, w2, w3.
Qed.

(** ** Witness *)
Definition ex_ing_cache : IngressCache := mkIngressCache (<[ingress_key ex_shop := ex_shop]> ∅) ∅ (∅ ∖ {[ingress_key ex_shop]}).
Definition ex_ing_reading (c : IngressCache) (namespace : string) : M RefWorld Reconciler := mret (ingress_reading ex_ig c).
Definition ex_ing_pass : IngressCache → string → M RefWorld Verdict :=
  @ingress_pass ex_ig RefBundles RefWorld RefOctavia RefClock RefOctaviaL7 RefFloating RefIngresses RefKeyManager RefSubnets
    false ex_ing_reading.
Definition ex_ing_world : RefWorld := mkRef ex_shop_state 0.
Definition ex_ing_passed : result Verdict * RefWorld := ex_ing_pass ex_ing_cache "prod/shop" ex_ing_world.

(** The Ingress comes, its key is queued and handed out, and the pass succeeds. *)
Lemma ex_ing_goes_quiet w :
  ex_ing_passed = (Ok Forgotten, w) →
  rtc (loop_step (src := IngressSource ex_ig) ex_ing_pass)
    (loop_start 1 no_ingress_events ref_empty ex_ing_world)
    (mkLoop ex_ing_cache [] ref_empty [Idle] w {["prod/shop" := ex_ing_cache]} {["prod/shop"]}).
Proof.
  intros Hp.
  eapply rtc_l; [apply (st_change (src := IngressSource ex_ig) _ (loop_start 1 no_ingress_events _ ex_ing_world)
    (IngressHeard ex_shop) ex_ing_cache), change_ingress|].
  simpl. eapply rtc_l; [by apply (st_deliver (src := IngressSource ex_ig) _ _ [] (IngressHeard ex_shop) [])|].
  change (handle _ (IngressHeard ex_shop)) with ["prod/shop"]. simpl.
  eapply rtc_l; [eapply (st_get _ _ 0 "prod/shop"); reflexivity|]. simpl.
  eapply rtc_l; [eapply (st_start _ _ 0); reflexivity|]. simpl.
  eapply rtc_l; [eapply (st_pass _ _ 0); [reflexivity|exact Hp]|]. simpl.
  eapply rtc_l; [eapply (st_done _ _ 0); reflexivity|]. apply rtc_refl.
Qed.

Lemma ex_ing_heard : ¬ unheard ex_ig ex_ing_cache "prod/shop".
Proof.
  intros [H|(ing & Hi & Ht)].
  - apply elem_of_difference in H as [H _]. by apply elem_of_empty in H.
  - change ((<[ingress_key ex_shop := ex_shop]> ∅ : gmap string Ingress) !! ingress_key ex_shop = Some ing) in Hi.
    rewrite lookup_insert_eq in Hi. injection Hi as <-. vm_compute in Ht. discriminate Ht.
Qed.

Lemma ingress_events_not_lost_witness :
  is_ok ex_ing_passed.1 = true ∧ ∃ c r w1 w2 w3, ingress_input c "prod/shop" = ingress_input ex_ing_cache "prod/shop" ∧
    ex_ing_reading c "prod" w1 = (Ok r, w2) ∧
    @Reconcile RefBundles RefWorld RefOctavia RefClock RefOctaviaL7 RefFloating RefIngresses RefKeyManager RefSubnets
      r "prod" "shop" w2 = (Ok (), w3).
Proof.
  assert (match ex_ing_passed.1 with Ok Forgotten => true | _ => false end = true) as Hok by (vm_compute; reflexivity).
  pose proof ex_ing_goes_quiet as Hgo. revert Hok Hgo. generalize ex_ing_passed.
  intros [[[]|e] w] Hok Hgo; try discriminate Hok. split; [reflexivity|].
  destruct (@ingress_events_not_lost RefBundles RefWorld RefQ RefOctavia RefClock RefOctaviaL7 RefFloating RefIngresses
    RefKeyManager RefSubnets RefQueue ref_pending rq_processing RefQueue_laws ex_ig false ex_ing_reading ref_empty ex_ing_world _ "prod/shop"
    (Hgo w eq_refl) ex_ing_heard) as [_ H].
  destruct (H (ref_quiet 1 _ _ _ _) "prod" "shop" eq_refl eq_refl) as [[Hnone _]|Hsome].
  - destruct Hnone. apply elem_of_singleton. reflexivity.
  - exact Hsome.
Defined.

(** ** What modelling showed *)

(** The handler of a slice asks the process's own reconciler whether an Ingress is
    ours, which in multi-tenant mode has no tenant; the pass asks the tenant's.  An
    Ingress of the class behind the tenant's prefix is served, and no change of its
    endpoints is ever heard. *)
Theorem prefixed_ingress_unheard :
  let template := mkReconciler true (λ _ _, Err ErrK8sNotFound) (λ _ _, Err ErrK8sNotFound) (λ _, Ok []) ex_tls
    "vip-subnet" "public-net" "amphora" "knaas" "" (Some (λ _, true)) (Some ["prod"]) in
  let shop := mkIngress "prod" "shop" 4 ∅ None (Some "t1-knaas") None (in_Rules ex_shop) [] [] in
  let slice := mkSlice "prod" {[LabelServiceName := "web"]} "IPv4" [] [] in
  let c := mkIngressCache {[ingress_key shop := shop]} {["s1" := slice]} ∅ in
  Ours ex_ig shop = true ∧ behind shop slice = true ∧ ingress_keys template c (BackendHeard slice) = [].
Proof. split; [reflexivity|]. split; vm_compute; reflexivity. Qed.
