(* ===== verification/VolumeEvents.v ===== *)
(** * pkg/volume/controller.go: from an event to a pass

    What the claims' controller supplies to the loop: the cache of claims, the
    handlers NewController registers -- none for a deletion -- and its pass.
    Volumes are read, but no event of one makes a pass. *)

From S2P Require Import Prelude GoStd K8s ZunCapsule Storage VolumeBackend VolumePlan VolumeExpand VolumeReconciler ControllerLoop.
From stdpp Require Import relations.
From Stdlib Require Import Ascii.

Local Open Scope string_scope.
Local Open Scope list_scope.

Abbreviation ClaimCache := (gmap string Claim).

Section source.
Context {Q : Quantities}.

(** ** The cache and what changes it *)
Inductive ClaimNote := ClaimHeard (claim : Claim) | ClaimDeleted (claim : Claim).
Definition claim_keys (n : ClaimNote) : list string :=
  match n with ClaimHeard claim => [enqueue claim] | ClaimDeleted _ => [] end.

Inductive claim_change (c : ClaimCache) : ClaimNote → ClaimCache → Prop :=
  | change_claim claim : claim_change c (ClaimHeard claim) (<[claim_text claim := claim]> c)
  | drop_claim claim : claim_change c (ClaimDeleted claim) (delete (claim_text claim) c).

(** What a pass over a key reads: its claim; without one there is nothing to do. *)
#[export] Instance ClaimSource : EventSource ClaimCache ClaimNote (option Claim) := {|
  valid _ := True; change := claim_change; handle _ := claim_keys; input c key := c !! key;
  delayed := false; ignored claim := claim = None |}.
End source.

(** ** The pass *)
Section pass.
Context {Q : Quantities} {W : Type} {cinder : Cinder W} {manila : Manila W} {clock : Clock W}.
Context {claims : ClaimsAPI W} {pvs : VolumesAPI W} {capsules : CapsuleVolumes W} {events : EventRecorder W}.
(** Whose work a namespace is; the reconciler's lister reads the cache. *)
Variable reconcilerOf : ClaimCache → string → M W Reconciler.
Definition claim_pass (c : ClaimCache) : string → M W Verdict := processNext (reconcilerOf c).

(** A pass that is content succeeded. *)
Lemma claim_pass_content c key namespace name w w' :
  SplitMetaNamespaceKey key = Some (namespace, name) → claim_pass c key w = (Ok Forgotten, w') →
  ∃ r w1, reconcilerOf c namespace w = (Ok r, w1) ∧ Reconcile r namespace name w1 = (Ok (), w').
Proof.
  intros Hk. unfold claim_pass, processNext. rewrite Hk. unfold mbind, M_bind, try.
  destruct (reconcilerOf c namespace w) as [[r|e] w1]; [|by intros [=]].
  destruct (Reconcile r namespace name w1) as [[[]|e] w2] eqn:Hr; [|by intros [=]].
  intros [= <-]. by exists r, w1.
Qed.
End pass.

#[export] Instance ClaimSource_laws {Q : Quantities} : EventSourceLaws ClaimSource.
Proof.
  split; [done| |by left].
  intros c n c' key Hc _ Hn. destruct Hc as [claim|claim]; simpl in *.
  - left. change (<[claim_text claim := claim]> c !! key = c !! key).
    rewrite lookup_insert_ne; [done|]. intros <-. apply Hn. by left.
  - destruct (decide (claim_text claim = key)) as [<-|Hne]; [right; apply lookup_delete_eq|left].
    change (delete (claim_text claim) c !! key = c !! key). by rewrite lookup_delete_ne.
Qed.

(** ** Properties *)
Definition no_claims {Q : Quantities} : ClaimCache := ∅.
Lemma no_claims_valid {Q : Quantities} : valid no_claims.
Proof. exact I. Qed.

(** No claim is left waiting.  However events, keys and passes interleave, a
    claim that is there and is not as the last content pass read it is on its way
    to another one; and once the controller is quiet every claim that is there had a
    successful pass over it as it now is. *)
Theorem claim_events_not_lost {Qs : Quantities} {W Q : Type} {cinder : Cinder W} {manila : Manila W} {clock : Clock W}
    {claims : ClaimsAPI W} {pvs : VolumesAPI W} {capsules : CapsuleVolumes W} {events : EventRecorder W} {wq : WorkQueue Q}
    (pending processing : Q → gset string) `{!WorkQueueLaws wq pending processing} (reconcilerOf : ClaimCache → string → M W Reconciler)
    (q : Q) (w : W) (s : LoopState ClaimCache ClaimNote W Q) (key : string) (claim : Claim) :
  rtc (loop_step (claim_pass reconcilerOf)) (loop_start 1 no_claims q w) s → lp_cache s !! key = Some claim →
  (seen_of no_claims s key !! key = Some claim ∨ noticed pending s key ∨ in_hand s key) ∧
  (quiet pending s → ∀ namespace name, SplitMetaNamespaceKey key = Some (namespace, name) →
     ∃ c r w1 w2 w3, c !! key = Some claim ∧
       reconcilerOf c namespace w1 = (Ok r, w2) ∧ Reconcile r namespace name w2 = (Ok (), w3)).
Proof.
  intros H Hc.
  assert (∀ c, current s c key → c !! key = Some claim) as Hcur.
  { intros c [He|He]; [change (c !! key = lp_cache s !! key) in He|change (lp_cache s !! key = None) in He]; congruence. }
  split.
  - destruct (loop_notices pending processing _ no_claims no_claims_valid 1 q w s key H) as [?|[?|?]]; auto.
  - intros Hq namespace name Hk.
    destruct (loop_quiet pending processing _ no_claims no_claims_valid 1 q w s key H Hq) as [[_ Hn]|(c & w1 & w3 & Hn & Hp)].
    + apply Hcur in Hn. discriminate Hn.
    + destruct (claim_pass_content _ _ _ _ _ _ _ Hk Hp) as (r & w2 & H1 & H2). exists c, r, w1, w2, w3. auto.
Qed.

(** ** Witness *)
Definition ex_claims : gmap string (Claim (Q:=NanoQuantities)) := <[claim_text ex_placed := ex_placed]> ∅.
Definition ex_claim_reading (c : ClaimCache) (namespace : string) : M ExWorld (Reconciler (Q:=NanoQuantities)) :=
  mret (mkReconciler (rc_Backend ex_maker0)
    (λ ns name, match c !! (ns +:+ "/" +:+ name) with Some claim => Ok claim | None => Err ErrK8sNotFound end)
    (rc_Volumes ex_maker0) (rc_AllVolumes ex_maker0) (rc_Classes ex_maker0) true true None (rc_PlacementOf ex_maker0) "t1"
    (rc_ServesNamespace ex_maker0)).
Definition ex_claim_pass : ClaimCache → string → M ExWorld Verdict :=
  @claim_pass NanoQuantities ExWorld RefCinder RefManila RefClockOf RefClaims RefVolumes RefCapsuleVolumes RefEvents
    ex_claim_reading.
Definition ex_claim_world : ExWorld := mkRef ex_empty 0.
Definition ex_claim_passed : result Verdict * ExWorld := ex_claim_pass ex_claims "prod/data" ex_claim_world.

Lemma ex_claim_goes_quiet w :
  ex_claim_passed = (Ok Forgotten, w) →
  rtc (loop_step ex_claim_pass) (loop_start 1 no_claims ref_empty ex_claim_world)
    (mkLoop ex_claims [] ref_empty [Idle] w {["prod/data" := ex_claims]} {["prod/data"]}).
Proof.
  intros Hp.
  eapply rtc_l; [apply (st_change _ (loop_start 1 no_claims _ ex_claim_world) (ClaimHeard ex_placed) ex_claims), change_claim|].
  simpl. eapply rtc_l; [by apply (st_deliver _ _ [] (ClaimHeard ex_placed) [])|].
  change (handle _ (ClaimHeard ex_placed)) with ["prod/data"]. simpl.
  eapply rtc_l; [eapply (st_get _ _ 0 "prod/data"); reflexivity|]. simpl.
  eapply rtc_l; [eapply (st_start _ _ 0); reflexivity|]. simpl.
  eapply rtc_l; [eapply (st_pass _ _ 0); [reflexivity|exact Hp]|]. simpl.
  eapply rtc_l; [eapply (st_done _ _ 0); reflexivity|]. apply rtc_refl.
Qed.

Lemma claim_events_not_lost_witness :
  is_ok ex_claim_passed.1 = true ∧ ∃ c r w1 w2 w3, c !! "prod/data" = Some ex_placed ∧
    ex_claim_reading c "prod" w1 = (Ok r, w2) ∧
    @Reconcile NanoQuantities ExWorld RefCinder RefManila RefClockOf RefClaims RefVolumes RefCapsuleVolumes RefEvents r
      "prod" "data" w2 = (Ok (), w3).
Proof.
  assert (match ex_claim_passed.1 with Ok Forgotten => true | _ => false end = true) as Hok by (vm_compute; reflexivity).
  pose proof ex_claim_goes_quiet as Hgo. revert Hok Hgo. generalize ex_claim_passed.
  intros [[[]|e] w] Hok Hgo; try discriminate Hok. split; [reflexivity|].
  destruct (@claim_events_not_lost NanoQuantities ExWorld RefQ RefCinder RefManila RefClockOf RefClaims RefVolumes
    RefCapsuleVolumes RefEvents RefQueue ref_pending rq_processing RefQueue_laws ex_claim_reading ref_empty ex_claim_world _ "prod/data"
    ex_placed (Hgo w eq_refl) eq_refl) as [_ H].
  exact (H (ref_quiet 1 _ _ _ _) "prod" "data" eq_refl).
Defined.
