(* ===== verification/NetpolEvents.v ===== *)
(** * pkg/netpol/controller.go: from an event to a pass

    The caches of pods and policies, what each of the two queues hears of them,
    and the passes of their workers: [work] aligns a pod's port, [workPolicies]
    brings a policy's groups and peer sets up to date.  The reconciler is the
    process's own or, in multi-tenant mode, the copy of it that netpolFor keeps for
    a tenant; [Run] prepares the baseline of those there are when it starts. *)

From S2P Require Import Prelude GoStd K8s NetpolTranslate NetpolRuleSet NetpolNeutron NetpolReconciler ControllerLoop.
From stdpp Require Import relations.
From Stdlib Require Import Ascii.

Local Open Scope string_scope.
Local Open Scope list_scope.

Section caches.
Context {L : LabelsAPI}.

(** ** The caches and what changes them *)
Record NetpolCache := mkNetpolCache { nc_pods : gmap string Pod; nc_policies : gmap string NetworkPolicy }.
Inductive NetpolNote := PodNote (e : Event Pod) | PolicyNote (e : Event NetworkPolicy).
Definition with_pods (c : NetpolCache) (pods : gmap string Pod) : NetpolCache := mkNetpolCache pods (nc_policies c).
Definition with_policies (c : NetpolCache) (policies : gmap string NetworkPolicy) : NetpolCache :=
  mkNetpolCache (nc_pods c) policies.
Definition same_pod (a b : Pod) : Prop := Namespace a = Namespace b ∧ Name a = Name b.
Definition same_policy (a b : NetworkPolicy) : Prop := pol_Namespace a = pol_Namespace b ∧ pol_Name a = pol_Name b.

(** A change of the caches and the note about it: an update comes with the object
    the cache had, a deletion with the last one known. *)
Inductive netpol_change (c : NetpolCache) : NetpolNote → NetpolCache → Prop :=
  | add_pod p :
      nc_pods c !! podKey p = None →
      netpol_change c (PodNote (EvAdd p)) (with_pods c (<[podKey p := p]> (nc_pods c)))
  | update_pod a b :
      nc_pods c !! podKey b = Some a → same_pod a b →
      netpol_change c (PodNote (EvUpdate a b)) (with_pods c (<[podKey b := b]> (nc_pods c)))
  | delete_pod a last :
      nc_pods c !! podKey a = Some a → same_pod a last →
      netpol_change c (PodNote (EvDelete last)) (with_pods c (delete (podKey a) (nc_pods c)))
  | add_policy p :
      nc_policies c !! policyKey p = None →
      netpol_change c (PolicyNote (EvAdd p)) (with_policies c (<[policyKey p := p]> (nc_policies c)))
  | update_policy a b :
      nc_policies c !! policyKey b = Some a → same_policy a b →
      netpol_change c (PolicyNote (EvUpdate a b)) (with_policies c (<[policyKey b := b]> (nc_policies c)))
  | delete_policy a last :
      nc_policies c !! policyKey a = Some a → same_policy a last →
      netpol_change c (PolicyNote (EvDelete last)) (with_policies c (delete (policyKey a) (nc_policies c))).

Definition netpol_keyed (c : NetpolCache) : Prop :=
  map_Forall (λ key p, key = podKey p) (nc_pods c) ∧ map_Forall (λ key p, key = policyKey p) (nc_policies c).

(** The listers over them; that of namespaces is the caller's. *)
Variable namespaces : option (Selector → result (list (string * gmap string string))).
Definition listers (c : NetpolCache) : Listers := mkListers
  (λ ns sel, Ok (filter (λ p, Namespace p = ns ∧ Matches sel (Labels p) = true) (map_to_list (nc_pods c)).*2))
  (λ ns name, nc_pods c !! (ns +:+ "/" +:+ name))
  (Some (λ ns, Ok (filter (λ p, pol_Namespace p = ns) (map_to_list (nc_policies c)).*2)))
  (Ok (map_to_list (nc_policies c)).*2)
  (λ ns name, nc_policies c !! (ns +:+ "/" +:+ name))
  namespaces.

(** ** What the queues hear, and what a pass reads *)
Variable ServesNamespace : string → bool.
Definition heard (c : NetpolCache) (n : NetpolNote) : Enqueued :=
  match n with
  | PodNote e => podHandler (listers c) ServesNamespace e
  | PolicyNote e => policyHandler (listers c) ServesNamespace e
  end.

(** What peer sets are made of: the pods that are served. *)
Definition peer_view (p : Pod) : option (string * gmap string string * string) :=
  if ServesNamespace (Namespace p) then Some (Namespace p, Labels p, PodIP (Status p)) else None.
Definition PolicyInput : Type := option (NetworkPolicy * gmap string (string * gmap string string * string)).
Definition policy_input (c : NetpolCache) (key : string) : PolicyInput :=
  p ← nc_policies c !! key;
  if ServesNamespace (pol_Namespace p) then Some (p, omap peer_view (nc_pods c)) else None.
Definition PolicyQueue : EventSource NetpolCache NetpolNote PolicyInput := {|
  valid := netpol_keyed; change := netpol_change; handle c n := q_policies (heard c n); delayed := true;
  input := policy_input; ignored i := i = None |}.

(** A pod's groups are decided by its labels and the policies of its namespace. *)
Definition PodInput : Type := option (gmap string string * string * gmap string NetworkPolicy).
Definition pod_input (c : NetpolCache) (key : string) : PodInput :=
  p ← nc_pods c !! key;
  if ServesNamespace (Namespace p) then
    Some (Labels p, PodIP (Status p),
          filter (λ e : string * NetworkPolicy, pol_Namespace e.2 = Namespace p) (nc_policies c))
  else None.
Definition PodQueue : EventSource NetpolCache NetpolNote PodInput := {|
  valid := netpol_keyed; change := netpol_change; handle c n := q_pods (heard c n); delayed := false;
  input := pod_input; ignored i := i = None |}.
End caches.

(** ** The passes *)
Section passes.
Context {L : LabelsAPI} {W : Type} `{!NeutronAPI W}.
Variable sha256_hex : string → string.
Variable namespaces : option (Selector → result (list (string * gmap string string))).
Variable ServesNamespace : string → bool.
Variable PortOf : option (Pod → string).
Variable Split : string → result (string * string).
(** [ReconcilerFor], where it is set: the tenant whose reconciler answers for a
    namespace, and the namespaces that one serves. *)
Variable ReconcilerFor : option (string → result string).
Variable servesTenant : string → string → bool.

Record NetpolWorld := mkNetpolWorld { nw_own : Reconciler; nw_tenants : gmap string Reconciler; nw_world : W }.

(** netpolFor answers with the tenant's, and copies the process's own for one it
    has not seen; [PortOf] is taken to have been set by then. *)
Definition with_tenant {A} (t : string) (m : (string → bool) → M (RW (W:=W)) A) : M NetpolWorld A := λ w,
  let '(a, (r, w')) := m (servesTenant t) (opt_or (nw_own w) (nw_tenants w !! t), nw_world w) in
  (a, mkNetpolWorld (nw_own w) (<[t := r]> (nw_tenants w)) w').
Definition with_own {A} (m : (string → bool) → M (RW (W:=W)) A) : M NetpolWorld A := λ w,
  let '(a, (r, w')) := m ServesNamespace (nw_own w, nw_world w) in
  (a, mkNetpolWorld r (nw_tenants w) w').
Definition reconcilerOf {A} (namespace : string) (m : (string → bool) → M (RW (W:=W)) A) : M NetpolWorld A :=
  match ReconcilerFor with
  | None => with_own m
  | Some f => t ← lift_result (f namespace); with_tenant t m
  end.

Definition verdict {A} (m : M NetpolWorld A) : M NetpolWorld Verdict :=
  res ← try m; mret (match res with Ok _ => Forgotten | Err _ => Requeued end).

(** [workPolicies] over one key: [syncPolicy]. *)
Definition sync_policy (c : NetpolCache) (key : string) : M NetpolWorld () :=
  '(namespace, name) ← lift_result (Split key);
  if negb (ServesNamespace namespace) then mret ()
  else match policies_Get (listers namespaces c) namespace name with
       | None => with_own (λ _, modify_rec (λ r, ForgetPolicy r key))
       | Some p => reconcilerOf namespace (λ serves, SyncPolicyPeers (listers namespaces c) serves sha256_hex p)
       end.
Definition policy_pass (c : NetpolCache) (key : string) : M NetpolWorld Verdict := verdict (sync_policy c key).

(** [work] over one key.  A policy that is still to be built is put on the other
    queue, which for that queue is a key someone adds. *)
Definition reconcile_pod (c : NetpolCache) (key : string) : M NetpolWorld () :=
  '(namespace, _) ← lift_result (Split key);
  reconcilerOf namespace (λ serves, ReconcilePod (listers namespaces c) serves PortOf Split key).
Definition pod_pass (c : NetpolCache) (key : string) : M NetpolWorld Verdict := verdict (reconcile_pod c key).

(** [Run], before the workers start: the baseline of each reconciler there is.  A
    tenant is asked for by its first namespace, and passed over where that does
    not resolve. *)
Definition eachReconciler (firsts : list string) (m : M (RW (W:=W)) ()) : M NetpolWorld () :=
  match ReconcilerFor with
  | None => with_own (λ _, m)
  | Some f =>
      for_each firsts (λ namespace, match f namespace with Err _ => mret () | Ok t => with_tenant t (λ _, m) end)
  end.
Definition Run_baseline (firsts : list string) : M NetpolWorld () := eachReconciler firsts Reconciler_EnsureBaseline.
End passes.

(** ** Lemmas *)
Lemma omap_insert_same {A B} (f : A → option B) (m : gmap string A) k x :
  (m !! k ≫= f) = f x → omap f (<[k := x]> m) = omap f m.
Proof.
  intros H. apply map_eq. intros j. rewrite !lookup_omap. destruct (decide (j = k)) as [->|Hne].
  - by rewrite lookup_insert_eq, H.
  - by rewrite lookup_insert_ne.
Qed.
Lemma omap_delete_same {A B} (f : A → option B) (m : gmap string A) k :
  (m !! k ≫= f) = None → omap f (delete k m) = omap f m.
Proof.
  intros H. apply map_eq. intros j. rewrite !lookup_omap. destruct (decide (j = k)) as [->|Hne].
  - by rewrite lookup_delete_eq, H.
  - by rewrite lookup_delete_ne.
Qed.
Lemma filter_insert_none {A} (P : string * A → Prop) `{!∀ x, Decision (P x)} (m : gmap string A) k x :
  (∀ y, m !! k = Some y → ¬ P (k, y)) → ¬ P (k, x) → filter P (<[k := x]> m) = filter P m.
Proof.
  intros Hm Hx. apply map_eq. intros j. apply option_eq. intros y. rewrite !map_lookup_filter_Some.
  destruct (decide (j = k)) as [->|Hne]; [|by rewrite lookup_insert_ne].
  rewrite lookup_insert_eq. split; [intros [[= <-] ?]; done|intros [Hy ?]; by destruct (Hm y)].
Qed.
Lemma filter_delete_none {A} (P : string * A → Prop) `{!∀ x, Decision (P x)} (m : gmap string A) k :
  (∀ y, m !! k = Some y → ¬ P (k, y)) → filter P (delete k m) = filter P m.
Proof.
  intros Hm. apply map_eq. intros j. apply option_eq. intros y. rewrite !map_lookup_filter_Some.
  destruct (decide (j = k)) as [->|Hne]; [|by rewrite lookup_delete_ne].
  rewrite lookup_delete_eq. split; [by intros []|intros [Hy ?]; by destruct (Hm y)].
Qed.

Section lemmas.
Context {L : LabelsAPI} `{!LabelsLaws L}.
Variable namespaces : option (Selector → result (list (string * gmap string string))).
Variable serves : string → bool.
Abbreviation lists := (listers namespaces).
Abbreviation hears := (heard namespaces serves).

(** The policies an event of a pod queues, and the pods an event of a policy does. *)
Lemma served_policies_iff c key :
  netpol_keyed c →
  key ∈ served_policies (lists c) serves ↔ ∃ p, nc_policies c !! key = Some p ∧ serves (pol_Namespace p) = true.
Proof.
  intros [_ Hk]. unfold served_policies. simpl. rewrite list_elem_of_fmap. split.
  - intros (p & -> & [Hs Hin]%list_elem_of_filter). apply list_elem_of_fmap in Hin as ([k p'] & -> & Hin).
    apply elem_of_map_to_list in Hin. simpl in *. pose proof (map_Forall_lookup_1 _ _ _ _ Hk Hin) as ->. by exists p'.
  - intros (p & Hin & Hs). exists p. split; [by apply (map_Forall_lookup_1 _ _ _ _ Hk Hin)|].
    apply list_elem_of_filter. split; [done|]. apply list_elem_of_fmap. exists (key, p). split; [done|].
    by apply elem_of_map_to_list.
Qed.
Lemma namespace_pods_iff c (p : NetworkPolicy) key :
  netpol_keyed c → serves (pol_Namespace p) = true →
  key ∈ q_pods (enqueueNamespaceOf (lists c) serves p) ↔
    ∃ pod, nc_pods c !! key = Some pod ∧ Namespace pod = pol_Namespace p.
Proof.
  intros [Hk _] Hs. unfold enqueueNamespaceOf. rewrite Hs. simpl. rewrite list_elem_of_fmap. split.
  - intros (pod & -> & [[Hns _] Hin]%list_elem_of_filter). apply list_elem_of_fmap in Hin as ([k pod'] & -> & Hin).
    apply elem_of_map_to_list in Hin. simpl in *. pose proof (map_Forall_lookup_1 _ _ _ _ Hk Hin) as ->. by exists pod'.
  - intros (pod & Hin & Hns). exists pod. split; [by apply (map_Forall_lookup_1 _ _ _ _ Hk Hin)|].
    apply list_elem_of_filter. split; [split; [done|apply Everything_matches]|].
    apply list_elem_of_fmap. exists (key, pod). split; [done|]. by apply elem_of_map_to_list.
Qed.

Lemma netpol_change_keyed c n c' : netpol_change c n c' → netpol_keyed c → netpol_keyed c'.
Proof.
  intros Hc [H1 H2]. destruct Hc; split; simpl; try done;
    [by apply map_Forall_insert_2|by apply map_Forall_insert_2|by apply map_Forall_delete|
     by apply map_Forall_insert_2|by apply map_Forall_insert_2|by apply map_Forall_delete].
Qed.
Lemma same_pod_key a b : same_pod a b → podKey a = podKey b.
Proof. unfold podKey. by intros [-> ->]. Qed.
Lemma same_policy_key a b : same_policy a b → policyKey a = policyKey b.
Proof. unfold policyKey. by intros [-> ->]. Qed.

Lemma samePolicyInputs_true a b :
  samePolicyInputs a b = true ↔ Labels a = Labels b ∧ PodIP (Status a) = PodIP (Status b).
Proof. unfold samePolicyInputs. by rewrite andb_true_iff, !bool_decide_eq_true. Qed.

(** *** The policies' queue *)

(** What a pod's event does not queue every policy for, no peer set is made of. *)
Lemma pod_event_near c e key :
  netpol_keyed c → (key ∉ q_policies (hears c (PodNote e))) →
  is_Some (policy_input serves c key) →
  match e with
  | EvAdd p | EvDelete p => serves (Namespace p) = false
  | EvUpdate a b => samePolicyInputs a b = true ∨ serves (Namespace b) = false
  end.
Proof.
  intros Hk Hn [x Hx]. unfold policy_input in Hx.
  destruct (nc_policies c !! key) as [p|] eqn:Hp; [|done]. simpl in Hx.
  destruct (serves (pol_Namespace p)) eqn:Hs; [|done].
  assert (∀ pod, serves (Namespace pod) = true → key ∈ q_policies (enqueuePoliciesNear (lists c) serves pod)) as Hnear.
  { intros pod Hsp. unfold enqueuePoliciesNear. rewrite Hsp. simpl. apply served_policies_iff; [done|]. by exists p. }
  destruct e as [q|a b|q]; simpl in Hn.
  - apply not_true_iff_false. intros Hsq. apply Hn, elem_of_app. right. by apply Hnear.
  - destruct (samePolicyInputs a b) eqn:Hsame; [by left|right]. apply not_true_iff_false. intros Hsq.
    apply Hn. simpl. apply elem_of_app. right. by apply Hnear.
  - apply not_true_iff_false. intros Hsq. apply Hn. by apply Hnear.
Qed.

Lemma policy_input_pods c c' key :
  nc_policies c' = nc_policies c →
  (is_Some (policy_input serves c' key) → omap (peer_view serves) (nc_pods c') = omap (peer_view serves) (nc_pods c)) →
  policy_input serves c' key = policy_input serves c key.
Proof.
  unfold policy_input. intros -> H. destruct (nc_policies c !! key) as [p|]; [|done]. simpl in *.
  destruct (serves (pol_Namespace p)); [|done]. by rewrite H.
Qed.
Lemma policy_input_other c (p : NetworkPolicy) policies key :
  policies !! key = nc_policies c !! key → policy_input serves (with_policies c policies) key = policy_input serves c key.
Proof. unfold policy_input. simpl. by intros ->. Qed.
Lemma policy_named p key :
  serves (pol_Namespace p) = true → key = policyKey p →
  key ∈ q_policies (enqueuePolicy serves p).
Proof. unfold enqueuePolicy. intros -> ->. by left. Qed.

Lemma PolicyQueue_change c n c' key :
  netpol_change c n c' → netpol_keyed c → (key ∉ q_policies (hears c' n)) →
  policy_input serves c' key = policy_input serves c key ∨ policy_input serves c' key = None.
Proof.
  intros Hc Hk Hn. pose proof (netpol_change_keyed _ _ _ Hc Hk) as Hk'.
  destruct Hc as [p Hp|a b Ha Hab|a last Ha Hab|p Hp|a b Ha Hab|a last Ha Hab].
  - left. apply policy_input_pods; [done|]. intros His. apply pod_event_near in Hn; [|done..].
    apply omap_insert_same. rewrite Hp. simpl. unfold peer_view. by rewrite Hn.
  - left. apply policy_input_pods; [done|]. intros His. apply pod_event_near in Hn; [|done..].
    apply omap_insert_same. rewrite Ha. simpl. unfold peer_view. destruct Hab as [-> _].
    destruct Hn as [[-> ->]%samePolicyInputs_true| ->]; done.
  - left. apply policy_input_pods; [done|]. intros His. apply pod_event_near in Hn; [|done..].
    apply omap_delete_same. rewrite Ha. simpl. unfold peer_view. destruct Hab as [-> _]. by rewrite Hn.
  - destruct (decide (policyKey p = key)) as [<-|Hne]; [right|left; apply policy_input_other; [done|by apply lookup_insert_ne]].
    unfold policy_input. simpl. rewrite lookup_insert_eq. simpl. destruct (serves _) eqn:Hs; [|done].
    destruct Hn. simpl. apply elem_of_app. right. by apply policy_named.
  - destruct (decide (policyKey b = key)) as [<-|Hne]; [right|left; apply policy_input_other; [done|by apply lookup_insert_ne]].
    unfold policy_input. simpl. rewrite lookup_insert_eq. simpl. destruct (serves _) eqn:Hs; [|done].
    destruct Hn. simpl. apply elem_of_app. right. by apply policy_named.
  - destruct (decide (policyKey a = key)) as [<-|Hne]; [right|left; apply policy_input_other; [done|by apply lookup_delete_ne]].
    unfold policy_input. simpl. by rewrite lookup_delete_eq.
Qed.

(** What is queued of a pod's event, and of a policy's, apart. *)
Definition near (e : Event Pod) : bool :=
  match e with
  | EvAdd p | EvDelete p => serves (Namespace p)
  | EvUpdate a b => negb (samePolicyInputs a b) && serves (Namespace b)
  end.
Lemma pod_heard_policies c e :
  q_policies (hears c (PodNote e)) = if near e then served_policies (lists c) serves else [].
Proof.
  destruct e as [p|a b|p]; simpl; unfold enqueuePod, enqueuePoliciesNear; [|destruct (samePolicyInputs a b); simpl; [done|]|];
    by destruct (serves _).
Qed.
Lemma policy_heard_policies c c' e : q_policies (hears c (PolicyNote e)) = q_policies (hears c' (PolicyNote e)).
Proof. destruct e as [p|a p|p]; simpl; unfold enqueueNamespaceOf; by destruct (serves (pol_Namespace p)). Qed.
Lemma pod_heard_pods c c' e : q_pods (hears c (PodNote e)) = q_pods (hears c' (PodNote e)).
Proof.
  destruct e as [p|a b|p]; simpl; unfold enqueuePod, enqueuePoliciesNear; [|destruct (samePolicyInputs a b); simpl; [done|]|];
    by destruct (serves _).
Qed.
Definition about (e : Event NetworkPolicy) : NetworkPolicy := match e with EvAdd p | EvUpdate _ p | EvDelete p => p end.
Lemma policy_heard_pods c e : q_pods (hears c (PolicyNote e)) = q_pods (enqueueNamespaceOf (lists c) serves (about e)).
Proof. destruct e as [p|a p|p]; simpl; unfold enqueuePolicy; [..|done]; destruct (serves _); simpl; by rewrite app_nil_r. Qed.

Lemma PolicyQueue_handle c n c' m key :
  netpol_change c n c' → netpol_keyed c → key ∈ q_policies (hears c m) →
  key ∈ q_policies (hears c' m) ∨ key ∈ q_policies (hears c' n) ∨ policy_input serves c' key = None.
Proof.
  intros Hc Hk Hin. pose proof (netpol_change_keyed _ _ _ Hc Hk) as Hk'.
  destruct (policy_input serves c' key) as [x|] eqn:Hx; [left|right; by right].
  destruct m as [e|e]; [|by rewrite (policy_heard_policies c' c)].
  rewrite pod_heard_policies in *. destruct (near e); [|by apply elem_of_nil in Hin].
  apply served_policies_iff; [done|]. unfold policy_input in Hx.
  destruct (nc_policies c' !! key) as [p|]; [|done]. simpl in Hx. exists p. split; [done|].
  by destruct (serves (pol_Namespace p)).
Qed.
Lemma PolicyQueue_laws : EventSourceLaws (PolicyQueue namespaces serves).
Proof using LabelsLaws0.
  split; [apply netpol_change_keyed|apply PolicyQueue_change|apply PolicyQueue_handle].
Qed.

(** *** The pods' queue *)
Lemma pod_input_other c pods key :
  pods !! key = nc_pods c !! key → pod_input serves (with_pods c pods) key = pod_input serves c key.
Proof. unfold pod_input. simpl. by intros ->. Qed.
Lemma pod_input_policies c policies key :
  (∀ pod, nc_pods c !! key = Some pod → serves (Namespace pod) = true →
     filter (λ e : string * NetworkPolicy, pol_Namespace e.2 = Namespace pod) policies =
     filter (λ e : string * NetworkPolicy, pol_Namespace e.2 = Namespace pod) (nc_policies c)) →
  pod_input serves (with_policies c policies) key = pod_input serves c key.
Proof.
  unfold pod_input. simpl. intros Hf. destruct (nc_pods c !! key) as [pod|]; [|done]. simpl.
  destruct (serves (Namespace pod)) eqn:Hs; [|done]. by rewrite Hf.
Qed.
(** A pod a policy's event does not queue is of another namespace. *)
Lemma policy_event_elsewhere c e key pod :
  netpol_keyed c → (key ∉ q_pods (hears c (PolicyNote e))) → nc_pods c !! key = Some pod → serves (Namespace pod) = true →
  pol_Namespace (about e) ≠ Namespace pod.
Proof.
  intros Hk Hn Hp Hs Heq. apply Hn. rewrite policy_heard_pods. apply namespace_pods_iff; [done|by rewrite Heq|].
  by exists pod.
Qed.

Lemma PodQueue_change c n c' key :
  netpol_change c n c' → netpol_keyed c → (key ∉ q_pods (hears c' n)) →
  pod_input serves c' key = pod_input serves c key ∨ pod_input serves c' key = None.
Proof.
  intros Hc Hk Hn. pose proof (netpol_change_keyed _ _ _ Hc Hk) as Hk'.
  destruct Hc as [p Hp|a b Ha Hab|a last Ha Hab|p Hp|a b Ha Hab|a last Ha Hab].
  - destruct (decide (podKey p = key)) as [<-|Hne]; [right|left; apply pod_input_other; by apply lookup_insert_ne].
    unfold pod_input. simpl. rewrite lookup_insert_eq. simpl. destruct (serves _) eqn:Hs; [|done].
    destruct Hn. simpl. unfold enqueuePod. rewrite Hs. by left.
  - destruct (decide (podKey b = key)) as [<-|Hne]; [|left; apply pod_input_other; by apply lookup_insert_ne].
    simpl in Hn. unfold pod_input. simpl. rewrite lookup_insert_eq, Ha. simpl. destruct Hab as [-> _].
    destruct (serves (Namespace b)) eqn:Hs; [|by right].
    destruct (samePolicyInputs a b) eqn:Hsame; [apply samePolicyInputs_true in Hsame as [-> ->]; by left|].
    destruct Hn. simpl. unfold enqueuePod. rewrite Hs. by left.
  - destruct (decide (podKey a = key)) as [<-|Hne]; [right|left; apply pod_input_other; by apply lookup_delete_ne].
    unfold pod_input. simpl. by rewrite lookup_delete_eq.
  - left. apply pod_input_policies. intros pod Hpod Hs. eapply policy_event_elsewhere in Hn; [|done..].
    apply filter_insert_none; [by rewrite Hp|done].
  - left. apply pod_input_policies. intros pod Hpod Hs. eapply policy_event_elsewhere in Hn; [|done..].
    destruct Hab as [Hns _]. apply filter_insert_none; [|done]. rewrite Ha. intros y [= <-]. simpl. by rewrite Hns.
  - left. apply pod_input_policies. intros pod Hpod Hs. eapply policy_event_elsewhere in Hn; [|done..].
    destruct Hab as [Hns _]. apply filter_delete_none. rewrite Ha. intros y [= <-]. simpl. by rewrite Hns.
Qed.

(** A pod that is there was there in the same namespace, or has just come. *)
Lemma pod_stays c n c' key pod pod' :
  netpol_change c n c' → nc_pods c !! key = Some pod → nc_pods c' !! key = Some pod' → Namespace pod' = Namespace pod.
Proof.
  intros Hc Hp Hp'. destruct Hc as [p Hnone|a b Ha Hab|a last Ha Hab|p ?|a b ? ?|a last ? ?]; simpl in Hp'; [| | |congruence..].
  - destruct (decide (podKey p = key)) as [<-|Hne]; [congruence|]. rewrite lookup_insert_ne in Hp' by done. congruence.
  - destruct (decide (podKey b = key)) as [<-|Hne]; [|rewrite lookup_insert_ne in Hp' by done; congruence].
    rewrite lookup_insert_eq in Hp'. injection Hp' as <-. rewrite Ha in Hp. injection Hp as <-. by destruct Hab.
  - apply lookup_delete_Some in Hp' as [_ Hp']. congruence.
Qed.
Lemma PodQueue_handle c n c' m key :
  netpol_change c n c' → netpol_keyed c → key ∈ q_pods (hears c m) →
  key ∈ q_pods (hears c' m) ∨ key ∈ q_pods (hears c' n) ∨ pod_input serves c' key = None.
Proof.
  intros Hc Hk Hin. pose proof (netpol_change_keyed _ _ _ Hc Hk) as Hk'.
  destruct (pod_input serves c' key) as [x|] eqn:Hx; [left|right; by right].
  destruct m as [e|e]; [by rewrite (pod_heard_pods c' c)|].
  rewrite policy_heard_pods in *. unfold pod_input in Hx.
  destruct (nc_pods c' !! key) as [pod'|] eqn:Hp'; [|done].
  destruct (serves (pol_Namespace (about e))) eqn:Hs.
  2: { unfold enqueueNamespaceOf in Hin. rewrite Hs in Hin. by apply elem_of_nil in Hin. }
  apply namespace_pods_iff in Hin as (pod & Hp & Hns); [|done..]. apply namespace_pods_iff; [done..|].
  exists pod'. split; [done|]. rewrite <-Hns. by eapply pod_stays.
Qed.
Lemma PodQueue_laws : EventSourceLaws (PodQueue namespaces serves).
Proof using LabelsLaws0.
  split; [apply netpol_change_keyed|apply PodQueue_change|apply PodQueue_handle].
Qed.
End lemmas.

(** A pass that is content succeeded. *)
Lemma verdict_forgotten {W} (m : M (NetpolWorld (W:=W)) ()) w w' : verdict m w = (Ok Forgotten, w') → m w = (Ok (), w').
Proof. unfold verdict, mbind, M_bind, try. destruct (m w) as [[[]|e] w1]; [by intros [= <-]|by intros [=]]. Qed.

(** ** Properties *)
Definition no_netpol_events {L : LabelsAPI} : NetpolCache := mkNetpolCache ∅ ∅.
Lemma no_netpol_events_keyed {L : LabelsAPI} : netpol_keyed no_netpol_events.
Proof. split; apply map_Forall_empty. Qed.

(** C24 No change that a policy's groups or peer sets depend on is lost.  Whatever
    the interleaving of events, resyncs and any number of workers, a served policy
    whose rules or whose peers -- the served pods, their labels and addresses --
    are not what the last successful pass read is waiting for another one or in a
    worker's hands; once the queue is quiet each had a successful pass over exactly
    what the caches hold; and no two workers ever have the same policy. *)
Theorem policy_events_not_lost {L : LabelsAPI} `{!LabelsLaws L} {W Q : Type} {api : NeutronAPI W} {wq : WorkQueue Q}
    (pending processing : Q → gset string) `{!WorkQueueLaws wq pending processing}
    (sha256_hex : string → string) (namespaces : option (Selector → result (list (string * gmap string string))))
    (serves : string → bool) (Split : string → result (string * string)) (ReconcilerFor : option (string → result string))
    (servesTenant : string → string → bool) (workers : nat) (q : Q) (w : NetpolWorld (W:=W))
    (s : LoopState NetpolCache NetpolNote NetpolWorld Q) :
  rtc (loop_step (src := PolicyQueue namespaces serves)
         (policy_pass sha256_hex namespaces serves Split ReconcilerFor servesTenant))
    (loop_start workers no_netpol_events q w) s →
  (∀ key p, nc_policies (lp_cache s) !! key = Some p → serves (pol_Namespace p) = true →
     (policy_input serves (seen_of no_netpol_events s key) key = policy_input serves (lp_cache s) key ∨
      noticed (src := PolicyQueue namespaces serves) pending s key ∨
      in_hand (src := PolicyQueue namespaces serves) s key) ∧
     (quiet pending s → ∃ c w1 w2, policy_input serves c key = policy_input serves (lp_cache s) key ∧
        sync_policy sha256_hex namespaces serves Split ReconcilerFor servesTenant c key w1 = (Ok (), w2))) ∧
  ∀ i j vi vj key, lp_workers s !! i = Some vi → lp_workers s !! j = Some vj →
    worker_key vi = Some key → worker_key vj = Some key → i = j.
Proof.
  intros H. pose proof (PolicyQueue_laws namespaces serves) as Hlaws.
  pose proof (no_netpol_events_keyed : @valid _ _ _ (PolicyQueue namespaces serves) _) as Hv. split.
  2: { intros i j vi vj key. by apply (loop_apart pending processing _ no_netpol_events Hv workers q w s i j key vi vj H). }
  intros key p Hp Hs.
  assert (policy_input serves (lp_cache s) key ≠ None) as Hsome.
  { unfold policy_input. rewrite Hp. simpl. by rewrite Hs. }
  destruct (loop_keeps pending processing _ no_netpol_events Hv workers q w s key H Hsome) as [H1 H2]. split; [done|].
  intros [Hn|(c & w1 & w2 & Hn & Hpass)]%H2; [by destruct Hsome; symmetry|]. exists c, w1, w2. split; [done|].
  by apply verdict_forgotten.
Qed.

(** No change of what decides a pod's groups in the caches is lost: its labels, its
    address and the policies of its namespace.  Whatever the interleaving, a served
    pod for which they are not what the last successful pass read is waiting for
    another one or in a worker's hands; once the queue is quiet each had a successful
    pass over exactly what the caches hold; and no two workers have the same pod. *)
Theorem pod_events_not_lost {L : LabelsAPI} `{!LabelsLaws L} {W Q : Type} {api : NeutronAPI W} {wq : WorkQueue Q}
    (pending processing : Q → gset string) `{!WorkQueueLaws wq pending processing}
    (namespaces : option (Selector → result (list (string * gmap string string)))) (serves : string → bool)
    (PortOf : option (Pod → string)) (Split : string → result (string * string))
    (ReconcilerFor : option (string → result string)) (servesTenant : string → string → bool)
    (workers : nat) (q : Q) (w : NetpolWorld (W:=W)) (s : LoopState NetpolCache NetpolNote NetpolWorld Q) :
  rtc (loop_step (src := PodQueue namespaces serves) (pod_pass namespaces serves PortOf Split ReconcilerFor servesTenant))
    (loop_start workers no_netpol_events q w) s →
  (∀ key pod, nc_pods (lp_cache s) !! key = Some pod → serves (Namespace pod) = true →
     (pod_input serves (seen_of no_netpol_events s key) key = pod_input serves (lp_cache s) key ∨
      noticed (src := PodQueue namespaces serves) pending s key ∨ in_hand (src := PodQueue namespaces serves) s key) ∧
     (quiet pending s → ∃ c w1 w2, pod_input serves c key = pod_input serves (lp_cache s) key ∧
        reconcile_pod namespaces serves PortOf Split ReconcilerFor servesTenant c key w1 = (Ok (), w2))) ∧
  ∀ i j vi vj key, lp_workers s !! i = Some vi → lp_workers s !! j = Some vj →
    worker_key vi = Some key → worker_key vj = Some key → i = j.
Proof.
  intros H. pose proof (PodQueue_laws namespaces serves) as Hlaws.
  pose proof (no_netpol_events_keyed : @valid _ _ _ (PodQueue namespaces serves) _) as Hv. split.
  2: { intros i j vi vj key. by apply (loop_apart pending processing _ no_netpol_events Hv workers q w s i j key vi vj H). }
  intros key pod Hp Hs.
  assert (pod_input serves (lp_cache s) key ≠ None) as Hsome.
  { unfold pod_input. rewrite Hp. simpl. by rewrite Hs. }
  destruct (loop_keeps pending processing _ no_netpol_events Hv workers q w s key H Hsome) as [H1 H2]. split; [done|].
  intros [Hn|(c & w1 & w2 & Hn & Hpass)]%H2; [by destruct Hsome; symmetry|]. exists c, w1, w2. split; [done|].
  by apply verdict_forgotten.
Qed.

(** ** Witnesses *)
Definition ex_serves_all : string → bool := λ _, true.
Definition ex_of_tenant : string → string → bool := λ _ _, true.
Definition ex_pol_cache : NetpolCache (L:=ExistsLabels) := mkNetpolCache ∅ (<[policyKey rs_policy := rs_policy]> ∅).
Definition ex_pol_world : NetpolWorld (W:=NeutronState) := mkNetpolWorld ex_rec ∅ ns_empty.
Definition ex_pol_pass : NetpolCache → string → M NetpolWorld Verdict :=
  @policy_pass ExistsLabels NeutronState RefNeutron ex_hash None ex_serves_all ex_split None ex_of_tenant.
Definition ex_pol_passed : result Verdict * NetpolWorld := ex_pol_pass ex_pol_cache "prod/allow-web" ex_pol_world.
Abbreviation ex_pol_queue := (PolicyQueue (L:=ExistsLabels) None ex_serves_all).

(** The policy comes, waits with the queue, and one of the two workers syncs it. *)
Lemma ex_pol_goes_quiet w :
  ex_pol_passed = (Ok Forgotten, w) →
  rtc (loop_step (src := ex_pol_queue) ex_pol_pass) (loop_start 2 no_netpol_events ref_empty ex_pol_world)
    (mkLoop ex_pol_cache [] ref_empty [Idle; Idle] w {["prod/allow-web" := ex_pol_cache]} {["prod/allow-web"]}).
Proof.
  intros Hp.
  eapply rtc_l; [apply (st_change (src := ex_pol_queue) _ (loop_start 2 no_netpol_events _ ex_pol_world)
    (PolicyNote (EvAdd rs_policy)) ex_pol_cache), add_policy; reflexivity|].
  unfold after_change. simpl.
  eapply rtc_l; [by apply (st_deliver (src := ex_pol_queue) _ _ [] (PolicyNote (EvAdd rs_policy)) [])|]. simpl.
  eapply rtc_l; [apply (st_elapse (src := ex_pol_queue))|]. simpl.
  eapply rtc_l; [eapply (st_get _ _ 1 "prod/allow-web"); reflexivity|]. simpl.
  eapply rtc_l; [eapply (st_start _ _ 1); reflexivity|]. simpl.
  eapply rtc_l; [eapply (st_pass _ _ 1); [reflexivity|exact Hp]|]. simpl.
  eapply rtc_l; [eapply (st_done _ _ 1); reflexivity|]. apply rtc_refl.
Qed.

Lemma policy_events_not_lost_witness :
  is_ok ex_pol_passed.1 = true ∧ ∃ c w1 w2, policy_input ex_serves_all c "prod/allow-web" = Some (rs_policy, ∅) ∧
    @sync_policy ExistsLabels NeutronState RefNeutron ex_hash None ex_serves_all ex_split None ex_of_tenant c
      "prod/allow-web" w1 = (Ok (), w2).
Proof.
  assert (match ex_pol_passed.1 with Ok Forgotten => true | _ => false end = true) as Hok by (vm_compute; reflexivity).
  pose proof ex_pol_goes_quiet as Hgo. revert Hok Hgo. generalize ex_pol_passed.
  intros [[[]|e] w] Hok Hgo; try discriminate Hok. split; [reflexivity|].
  destruct (@policy_events_not_lost ExistsLabels ExistsLabels_laws NeutronState RefQ RefNeutron RefQueue ref_pending
    rq_processing RefQueue_laws ex_hash None ex_serves_all ex_split None ex_of_tenant 2 ref_empty ex_pol_world _
    (Hgo w eq_refl)) as [H _].
  destruct (H "prod/allow-web" rs_policy eq_refl eq_refl) as [_ Hq].
  exact (Hq (ref_quiet 2 _ _ _ _)).
Defined.

Definition ex_pod_cache : NetpolCache (L:=ExistsLabels) := mkNetpolCache (<[podKey ex_pod := ex_pod]> ∅) ∅.
Definition ex_pod_world : NetpolWorld (W:=NeutronState) := mkNetpolWorld ex_rec ∅ ex_ports.
Definition ex_pod_pass : NetpolCache → string → M NetpolWorld Verdict :=
  @pod_pass ExistsLabels NeutronState RefNeutron None ex_serves_all (Some (λ _, "port1")) ex_split None ex_of_tenant.
Definition ex_pod_passed : result Verdict * NetpolWorld := ex_pod_pass ex_pod_cache "prod/api-0" ex_pod_world.
Abbreviation ex_pod_queue := (PodQueue (L:=ExistsLabels) None ex_serves_all).

Lemma ex_pod_goes_quiet w :
  ex_pod_passed = (Ok Forgotten, w) →
  rtc (loop_step (src := ex_pod_queue) ex_pod_pass) (loop_start 2 no_netpol_events ref_empty ex_pod_world)
    (mkLoop ex_pod_cache [] ref_empty [Idle; Idle] w {["prod/api-0" := ex_pod_cache]} {["prod/api-0"]}).
Proof.
  intros Hp.
  eapply rtc_l; [apply (st_change (src := ex_pod_queue) _ (loop_start 2 no_netpol_events _ ex_pod_world)
    (PodNote (EvAdd ex_pod)) ex_pod_cache), add_pod; reflexivity|].
  unfold after_change. simpl.
  eapply rtc_l; [by apply (st_deliver (src := ex_pod_queue) _ _ [] (PodNote (EvAdd ex_pod)) [])|]. simpl.
  eapply rtc_l; [eapply (st_get _ _ 0 "prod/api-0"); reflexivity|]. simpl.
  eapply rtc_l; [eapply (st_start _ _ 0); reflexivity|]. simpl.
  eapply rtc_l; [eapply (st_pass _ _ 0); [reflexivity|exact Hp]|]. simpl.
  eapply rtc_l; [eapply (st_done _ _ 0); reflexivity|]. apply rtc_refl.
Qed.

Lemma pod_events_not_lost_witness :
  is_ok ex_pod_passed.1 = true ∧ ∃ c w1 w2,
    pod_input ex_serves_all c "prod/api-0" = Some (Labels ex_pod, PodIP (Status ex_pod), ∅) ∧
    @reconcile_pod ExistsLabels NeutronState RefNeutron None ex_serves_all (Some (λ _, "port1")) ex_split None ex_of_tenant c
      "prod/api-0" w1 = (Ok (), w2).
Proof.
  assert (match ex_pod_passed.1 with Ok Forgotten => true | _ => false end = true) as Hok by (vm_compute; reflexivity).
  pose proof ex_pod_goes_quiet as Hgo. revert Hok Hgo. generalize ex_pod_passed.
  intros [[[]|e] w] Hok Hgo; try discriminate Hok. split; [reflexivity|].
  destruct (@pod_events_not_lost ExistsLabels ExistsLabels_laws NeutronState RefQ RefNeutron RefQueue ref_pending
    rq_processing RefQueue_laws None ex_serves_all (Some (λ _, "port1")) ex_split None ex_of_tenant 2 ref_empty ex_pod_world _
    (Hgo w eq_refl)) as [H _].
  destruct (H "prod/api-0" ex_pod eq_refl eq_refl) as [_ Hq].
  exact (Hq (ref_quiet 2 _ _ _ _)).
Defined.

(** ** What modelling showed *)

(** A policy that is given its first rules is built after its pods were aligned:
    they were, successfully, with the empty group remembered of it, and nothing
    queues them when the group is there -- the policy's worker tells its own queue
    only. *)
Theorem filled_policy_unheard :
  let before := @rememberRuleGroup ex_rec "prod/allow-web" "" in
  ∃ old new, @GroupsFor ExistsLabels ex_listers before ex_pod = Ok old ∧
    @GroupsFor ExistsLabels ex_listers (rememberRuleGroup before "prod/allow-web" "g1") ex_pod = Ok new ∧
    ("g1" ∉ old) ∧ "g1" ∈ new ∧ workPolicies_step "prod/allow-web" (Ok ()) = [Forget "prod/allow-web"; Done "prod/allow-web"].
Proof.
  eexists _, _. split; [reflexivity|]. split; [reflexivity|].
  split; [apply (bool_decide_eq_true_1 _); vm_compute; reflexivity|].
  split; [apply (bool_decide_eq_true_1 _); vm_compute; reflexivity|reflexivity].
Qed.

(** A deletion of a policy queues no policy: the branch of [syncPolicy] that forgets
    one that is gone is reached only where its key was queued before. *)
Theorem deleted_policy_unheard {L : LabelsAPI} ls serves (p : NetworkPolicy) :
  q_policies (policyHandler ls serves (EvDelete p)) = [].
Proof. simpl. unfold enqueueNamespaceOf. destruct (serves _); [|done]. by destruct (pods_List _ _ _). Qed.

(** In multi-tenant mode [Run] prepares the tenants' copies and never the template
    they are made of: the provider, which is given the template, decides no pod's
    groups, and a tenant that comes later starts from a template without a baseline
    -- no pass over one of its pods that is placed succeeds. *)
Theorem template_never_prepared {L : LabelsAPI} {W} {api : NeutronAPI W} serves servesTenant f firsts
    (w : NetpolWorld (W:=W)) :
  baseline_ingress (nw_own w) = "" →
  let '(_, w') := Run_baseline serves (Some f) servesTenant firsts w in
  nw_own w' = nw_own w ∧
  (∀ ls pod, is_ok (GroupsFor ls (nw_own w') pod) = false) ∧
  ∀ namespaces PortOf Split c key ns name t pod,
    Split key = Ok (ns, name) → f ns = Ok t → nw_tenants w' !! t = None → servesTenant t ns = true →
    nc_pods c !! (ns +:+ "/" +:+ name) = Some pod → DeletionTimestamp pod = None → PortOf pod ≠ "" →
    (pod_pass namespaces serves (Some PortOf) Split (Some f) servesTenant c key w').1 = Ok Requeued.
Proof.
  intros Hb. assert (nw_own (Run_baseline serves (Some f) servesTenant firsts w).2 = nw_own w) as Hown.
  { clear Hb. unfold Run_baseline, eachReconciler. revert w.
    induction firsts as [|ns firsts IH]; intros w; [done|]. simpl. unfold mbind, M_bind.
    destruct (f ns) as [t|e]; [|apply IH]. unfold with_tenant.
    destruct (Reconciler_EnsureBaseline _) as [[[]|e] [r w']]; [|done]. by rewrite IH. }
  destruct (Run_baseline serves (Some f) servesTenant firsts w) as [res w']. simpl in Hown. rewrite Hown.
  assert (∀ ls pod, is_ok (GroupsFor ls (nw_own w) pod) = false) as Hno.
  { intros ls pod. unfold GroupsFor. by rewrite Hb. }
  split; [done|]. split; [done|].
  intros namespaces PortOf Split c key ns name t pod Hk Ht Hnew Hs Hp Hdel Hport.
  unfold pod_pass, verdict, reconcile_pod, reconcilerOf, mbind, M_bind, try, lift_result. rewrite Hk, Ht. unfold with_tenant.
  rewrite Hnew, Hown. simpl. unfold ReconcilePod, mbind, M_bind, lift_result, get_rec. rewrite Hk, Hs. simpl.
  rewrite Hp, decide_False by (by rewrite Hdel; intros []). rewrite decide_False by done.
  pose proof (Hno (listers namespaces c) pod) as Hg. by destruct (GroupsFor _ _ _).
Qed.
