(* ===== verification/ProbeCommand.v ===== *)
(** * cmd/probe: the check that runs inside a container

    A network probe of a pod becomes an exec of this command (pkg/zun/probe.go,
    in ZunTemplate); here are its command line, its two checks and its exit
    code, the kubelet's own check as Kubernetes documents it, and where the two
    agree. *)

From S2P Require Import Prelude GoStd K8s ZunTemplate.
From Stdlib Require Import Ascii Lia.

Local Open Scope string_scope.
Local Open Scope list_scope.

(** ** The standard library *)

(** [time.ParseDuration] in nanoseconds, for whole numbers with their units; a
    fraction is not read. *)
Definition unit_ns (u : string) : option Z :=
  if decide (u = "ns") then Some 1%Z
  else if decide (u = "us") then Some 1000%Z
  else if decide (u = "ms") then Some 1000000%Z
  else if decide (u = "s") then Some 1000000000%Z
  else if decide (u = "m") then Some 60000000000%Z
  else if decide (u = "h") then Some 3600000000000%Z
  else None.
Inductive dur_at := AtStart | InNumber (n : Z) | InUnit (n : Z) (u : string).
(** A number with its unit is added, unless 64 bits do not hold it. *)
Definition dur_add (total n : Z) (u : string) : option Z :=
  match unit_ns u with
  | Some ns => let t := (total + n * ns)%Z in if decide (t < 2 ^ 63)%Z then Some t else None
  | None => None
  end.
Fixpoint dur_go (total : Z) (at_ : dur_at) (s : string) : option Z :=
  match s with
  | EmptyString => match at_ with InUnit n u => dur_add total n u | _ => None end
  | String c s' =>
      match digit_val c, at_ with
      | Some d, AtStart => dur_go total (InNumber d) s'
      | Some d, InNumber n => dur_go total (InNumber (10 * n + d)) s'
      | Some d, InUnit n u =>
          match dur_add total n u with Some t => dur_go t (InNumber d) s' | None => None end
      | None, AtStart => None
      | None, InNumber n => if decide (c = "."%char) then None else dur_go total (InUnit n (String c "")) s'
      | None, InUnit n u =>
          if decide (c = "."%char) then None else dur_go total (InUnit n (u +:+ String c "")) s'
      end
  end.
Definition ParseDuration (s : string) : option Z :=
  let unsigned s := if decide (s = "0") then Some 0%Z else dur_go 0 AtStart s in
  match s with
  | String "-" s' => Z.opp <$> unsigned s'
  | String "+" s' => unsigned s'
  | _ => unsigned s
  end.

(** One step of [flag.Parse]: the flag at the front, its value and what is left;
    [None] where the flags end. *)
Inductive flag_step :=
  | FlagsEnd
  | Flag (name : string) (value : option string) (rest : list string)
  | BadSyntax.
(** Where the value is in the same argument; the first [=] after the name. *)
Definition flag_name (name : string) (rest : list string) : flag_step :=
  match name with
  | EmptyString | String "-" _ | String "=" _ => BadSyntax
  | _ => match cut name "=" with
         | Some (n, v) => Flag n (Some v) rest
         | None => match rest with [] => Flag name None [] | v :: rest' => Flag name (Some v) rest' end
         end
  end.
Definition next_flag (args : list string) : flag_step :=
  match args with
  | [] => FlagsEnd
  | s :: rest =>
      match s with
      | String "-" EmptyString => FlagsEnd
      | String "-" (String "-" EmptyString) => FlagsEnd
      | String "-" (String "-" name) => flag_name name rest
      | String "-" name => flag_name name rest
      | _ => FlagsEnd
      end
  end.

(** ** main.go *)
Record flags := mkFlags { fl_http : string; fl_tcp : string; fl_timeout : Z }.
Definition second : Z := 1000000000.
Definition default_flags : flags := mkFlags "" "" second.

(** The flags, or the code [flag.Parse] exits with: 0 for help, 2 for what it
    cannot read.  Every step uses an argument, so their number is enough. *)
Fixpoint parse_flags (fuel : nat) (f : flags) (args : list string) : flags + Z :=
  match fuel with
  | O => inl f
  | S fuel =>
      match next_flag args with
      | FlagsEnd => inl f
      | BadSyntax => inr 2%Z
      | Flag name value rest =>
          if decide (name = "http") then
            match value with
            | Some v => parse_flags fuel (mkFlags v (fl_tcp f) (fl_timeout f)) rest
            | None => inr 2%Z
            end
          else if decide (name = "tcp") then
            match value with
            | Some v => parse_flags fuel (mkFlags (fl_http f) v (fl_timeout f)) rest
            | None => inr 2%Z
            end
          else if decide (name = "timeout") then
            match value with
            | Some v => match ParseDuration v with
                        | Some d => parse_flags fuel (mkFlags (fl_http f) (fl_tcp f) d) rest
                        | None => inr 2%Z
                        end
            | None => inr 2%Z
            end
          else if decide (name = "help" ∨ name = "h") then inr 0%Z
          else inr 2%Z
      end
  end.

(** What answers a request: a status with its text, and where it redirects to, as
    the absolute URL the Location header comes to. *)
Record Answer := mkAnswer { an_code : Z; an_status : string; an_redirect : option string }.

Section checks.
(** What a GET of a URL with these headers is answered within a time, and whether a
    connection is accepted. *)
Variable server : string → list (string * string) → Z → result Answer.
Variable dial : string → Z → result ().
(** What net/http sends of itself. *)
Variable go_headers : list (string * string).

(** [client.Get]: CheckRedirect returns ErrUseLastResponse, so the first answer is it. *)
Definition get (url : string) (timeout : Z) : result Answer := server url go_headers timeout.
Definition httpProbe (url : string) (timeout : Z) : result () :=
  match get url timeout with
  | Err e => Err (ErrWrap ("GET " +:+ url) e)
  | Ok resp =>
      if decide (an_code resp < 200 ∨ 399 < an_code resp)%Z
      then Err (ErrMsg ("GET " +:+ url +:+ ": " +:+ an_status resp)) else Ok ()
  end.
Definition tcpProbe (addr : string) (timeout : Z) : result () :=
  match dial addr timeout with
  | Err e => Err (ErrWrap ("connect " +:+ addr) e)
  | Ok _ => Ok ()
  end.
(** The exit code, and the error that is printed. *)
Definition main (args : list string) : Z * option gerror :=
  match parse_flags (length args) default_flags args with
  | inr code => (code, None)
  | inl f =>
      if decide (fl_http f = "" ∧ fl_tcp f = "") then (2%Z, Some (ErrMsg "one of -http or -tcp is required"))
      else
        match (if decide (fl_http f ≠ "") then httpProbe (fl_http f) (fl_timeout f)
               else tcpProbe (fl_tcp f) (fl_timeout f)) with
        | Err e => (1%Z, Some e)
        | Ok _ => (0%Z, None)
        end
  end.

End checks.

(** ** The kubelet

    Its own check of a container, as Kubernetes documents it and its source has it
    (pkg/probe/http, not under src/): a request to the pod's address with the
    probe's headers and kube-probe's own, following redirects to the same host, up
    to ten of them, and taking one to another host for the answer; what is between
    200 and 399 passes. *)
Section kubelet.
Variable server : string → list (string * string) → Z → result Answer.
Variable dial : string → Z → result ().
Variable kube_headers : list (string * string).
(** Whether two URLs have one host, and what becomes of an eleventh redirect. *)
Variable same_host : string → string → bool.
Variable too_many : result Answer.
Variable pod_ip : string.

Fixpoint kubelet_get (redirects : nat) (first url : string) (headers : list (string * string)) (timeout : Z) : result Answer :=
  match server url (headers ++ kube_headers) timeout with
  | Err e => Err e
  | Ok answer =>
      match an_redirect answer with
      | Some target =>
          if same_host first target then
            match redirects with
            | O => too_many
            | S redirects => kubelet_get redirects first target headers timeout
            end
          else Ok answer
      | None => Ok answer
      end
  end.

Definition kubelet_host (host : string) : string := if decide (host = "") then pod_ip else host.
Definition kubelet_path (path : string) : string :=
  match path with String "/" _ => path | _ => String "/" path end.
Definition scheme_of (h : HTTPGetAction) : string := if decide (hg_Scheme h = "HTTPS") then "https" else "http".
(** A timeout of no seconds is one of a second. *)
Definition kubelet_timeout (p : Probe) : Z :=
  ((if decide (0 < p_TimeoutSeconds p)%Z then p_TimeoutSeconds p else 1) * second)%Z.
Definition probe_url (scheme host : string) (port : Z) (path : string) : string :=
  scheme +:+ "://" +:+ host +:+ ":" +:+ pretty port +:+ path.
Definition kubelet_passes (p : Probe) (c : Container) : Prop :=
  match p_HTTPGet p, p_TCPSocket p with
  | Some h, _ => ∃ n answer, port_of (hg_Port h) c = Some n ∧
      (let url := probe_url (scheme_of h) (kubelet_host (hg_Host h)) n (kubelet_path (hg_Path h)) in
       kubelet_get 10 url url (hg_HTTPHeaders h) (kubelet_timeout p) = Ok answer) ∧ (200 <= an_code answer < 400)%Z
  | None, Some t => ∃ n, port_of (ts_Port t) c = Some n ∧
      dial (kubelet_host (ts_Host t) +:+ ":" +:+ pretty n) (kubelet_timeout p) = Ok ()
  | None, None => False
  end.

(** What is asked of the container, of a probe that names no host or a local one:
    it answers on the loopback address as on the one the kubelet would use (a local
    host is read as the container's own), and one client as the other. *)
Record answers_alike (go_headers : list (string * string)) : Prop := {
  aa_get scheme host port path timeout : local_host host = true →
    server (probe_url scheme (kubelet_host host) port path) kube_headers timeout =
    server (probe_url scheme "127.0.0.1" port path) go_headers timeout;
  aa_dial host (port : Z) timeout : local_host host = true →
    dial (kubelet_host host +:+ ":" +:+ pretty port) timeout = dial ("127.0.0.1" +:+ ":" +:+ pretty port) timeout }.

(** What is asked of an HTTP probe: no headers, an absolute path or none, and no
    redirect to the same host for an answer. *)
Record plain_http (p : Probe) (c : Container) (h : HTTPGetAction) : Prop := {
  ph_headers : hg_HTTPHeaders h = [];
  ph_path : hg_Path h = "" ∨ ∃ rest, hg_Path h = String "/" rest;
  ph_redirect n answer target : port_of (hg_Port h) c = Some n →
    let url := probe_url (scheme_of h) (kubelet_host (hg_Host h)) n (kubelet_path (hg_Path h)) in
    server url kube_headers (kubelet_timeout p) = Ok answer → an_redirect answer = Some target →
    same_host url target = false }.
End kubelet.

(** ** Lemmas *)
Lemma dur_go_number total acc s m r :
  parse_digits acc s = Some m → dur_go total (InNumber acc) (s +:+ r) = dur_go total (InNumber m) r.
Proof.
  revert acc. induction s as [|c s IH]; intros acc; simpl; [by intros [= <-]|].
  destruct (digit_val c) as [d|] eqn:Hd; [|done]. intros H. by apply IH.
Qed.

Lemma ParseDuration_seconds n :
  (0 < n < 2 ^ 31)%Z → ParseDuration (seconds n) = Some (n * second)%Z.
Proof.
  intros [H1 H2]. destruct n as [|p|p]; [lia| |lia]. unfold seconds.
  change (pretty (Z.pos p)) with (pretty (N.pos p)). pose proof (parse_nat_pretty (N.pos p)) as Hp.
  destruct (pretty (N.pos p) : string) as [|c s]; [done|]. simpl in Hp.
  destruct (digit_val c) as [d|] eqn:Hd; [|done].
  assert (dur_go 0 AtStart (String c s +:+ "s") = Some (Z.pos p * second)%Z) as Hgo.
  { change (String c s +:+ "s") with (String c (s +:+ "s")). cbn [dur_go]. rewrite Hd. rewrite (dur_go_number 0 d s _ "s" Hp). simpl.
    unfold dur_add. simpl. rewrite decide_True; [done|]. lia. }
  assert (String c s +:+ "s" ≠ "0") as Hne.
  { intros [= -> Hs]. destruct s; discriminate. }
  unfold ParseDuration. rewrite Hgo, (decide_False (P := String c s +:+ "s" = "0")) by done.
  destruct c as [[] [] [] [] [] [] [] []]; try reflexivity; discriminate.
Qed.

(** *** The command line that is written is the one that is read *)
Lemma flag_value name v rest :
  name ∈ ["http"; "tcp"; "timeout"] → next_flag (String "-" name :: v :: rest) = Flag name (Some v) rest.
Proof. intros H. by repeat (apply elem_of_cons in H as [->|H]; [reflexivity|]); apply elem_of_nil in H. Qed.

Lemma parse_probe name v n :
  name = "http" ∨ name = "tcp" → (0 < n < 2 ^ 31)%Z →
  parse_flags 4 default_flags [String "-" name; v; "-timeout"; seconds n] =
    inl (if decide (name = "http") then mkFlags v "" (n * second) else mkFlags "" v (n * second)).
Proof.
  intros Hn Hs. cbn [parse_flags]. rewrite flag_value by (destruct Hn as [-> | ->]; set_solver).
  destruct Hn as [-> | ->]; simpl; by rewrite ParseDuration_seconds.
Qed.

Lemma http_probe_url_kubelet h n :
  hg_Path h = "" ∨ (∃ rest, hg_Path h = String "/" rest) →
  http_probe_url h n = probe_url (scheme_of h) "127.0.0.1" n (kubelet_path (hg_Path h)).
Proof. unfold http_probe_url, probe_url. intros [-> | [rest ->]]; done. Qed.
(** A first answer that does not redirect to the same host is the kubelet's. *)
Lemma kubelet_get_first server kube_headers same_host too_many k first url headers timeout :
  (∀ answer target, server url (headers ++ kube_headers) timeout = Ok answer → an_redirect answer = Some target →
     same_host first target = false) →
  kubelet_get server kube_headers same_host too_many k first url headers timeout = server url (headers ++ kube_headers) timeout.
Proof.
  intros H. destruct k; simpl; destruct (server _ _ _) as [answer|e] eqn:Hs; try done;
    (destruct (an_redirect answer) as [target|] eqn:Hr; [|done]); by rewrite (H answer target).
Qed.
#[local] Arguments kubelet_get : simpl never.
Lemma http_probe_url_given h n : http_probe_url h n ≠ "".
Proof. unfold http_probe_url. by case_decide. Qed.

(** ** Properties *)

(** C26 A network probe means in the capsule what it means to a kubelet.  The
    command a valid probe of a container is rewritten to is the helper with a command
    line it reads, and the helper exits 0 exactly where the kubelet's own check of
    the pod would pass; otherwise it exits 1 and says why.  So it is for a TCP probe
    and for an HTTP one without headers whose path is absolute or empty and whose
    first answer does not redirect to the same host (the kubelet follows that one),
    with one handler, which is neither exec nor gRPC, and a timeout of 32 bits, of a
    container that answers the loopback address as it does the pod's, and Go's
    client as it does the kubelet's. *)
Theorem probe_means_the_same (server : string → list (string * string) → Z → result Answer)
    (dial : string → Z → result ()) (go_headers kube_headers : list (string * string)) (same_host : string → string → bool)
    (too_many : result Answer) (pod_ip : string) (p q : Probe) (c : Container) :
  answers_alike server dial kube_headers pod_ip go_headers →
  validateProbe (Some p) = Ok () → RewriteProbe (Some p) c = Ok (Some q) → one_handler p → p_Exec p = None → p_GRPC p = None →
  (p_TimeoutSeconds p < 2 ^ 31)%Z →
  (∀ h, p_HTTPGet p = Some h → plain_http server kube_headers same_host pod_ip p c h) →
  let passes := kubelet_passes server dial kube_headers same_host too_many pod_ip p c in
  ∃ args, p_Exec q = Some (ProbeHelper :: args) ∧
    ((main server dial go_headers args).1 = 0%Z ↔ passes) ∧
    (¬ passes → (main server dial go_headers args).1 = 1%Z ∧ is_Some (main server dial go_headers args).2).
Proof.
  intros Halike Hv Hq Hone Hex Hg Ht Hh passes.
  assert (0 < probeTimeout p < 2 ^ 31)%Z as Hto by (unfold probeTimeout; case_decide; lia).
  assert (kubelet_timeout p = probeTimeout p * second)%Z as Hkt by done.
  unfold validateProbe in Hv. unfold RewriteProbe, mbind, result_bind in Hq. rewrite Hex, Hg in Hq. rewrite Hex, Hg in Hv.
  subst passes. unfold kubelet_passes. rewrite Hkt.
  destruct (p_HTTPGet p) as [h|] eqn:Eh; [|destruct (p_TCPSocket p) as [t|] eqn:Et; [|done]].
  - destruct (Hh h eq_refl) as [Hhd Hpath Hred].
    destruct (resolveProbePort (hg_Port h) c) as [n|] eqn:Hp; [|done]. apply resolveProbePort_ok in Hp.
    injection Hq as <-. eexists. split; [reflexivity|]. destruct (local_host (hg_Host h)) eqn:Hl; [|done].
    rewrite Hhd, Hp. unfold main. cbn [length]. rewrite parse_probe by auto. simpl.
    rewrite decide_False by (pose proof (http_probe_url_given h n); tauto).
    rewrite (decide_True (P := http_probe_url h n ≠ "")) by apply http_probe_url_given.
    rewrite (http_probe_url_kubelet h n Hpath). set (url := probe_url _ _ _ _). unfold httpProbe, get.
    specialize (Hred n). cbv zeta in Hred. rewrite Hkt in Hred.
    assert (∀ m, Some n = Some m →
      kubelet_get server kube_headers same_host too_many 10
        (probe_url (scheme_of h) (kubelet_host pod_ip (hg_Host h)) m (kubelet_path (hg_Path h)))
        (probe_url (scheme_of h) (kubelet_host pod_ip (hg_Host h)) m (kubelet_path (hg_Path h))) [] (probeTimeout p * second) =
      server url go_headers (probeTimeout p * second)%Z) as Hget.
    { intros m [= <-]. rewrite kubelet_get_first; [by apply (aa_get _ _ _ _ _ Halike)|].
      intros answer target. by apply Hred. }
    destruct (server url go_headers (probeTimeout p * second)%Z) as [answer|e] eqn:Hs.
    + case_decide as Hc; simpl.
      * split; [|by eauto]. split; [done|]. intros (m & answer' & Hm & Hr & Hb).
        rewrite (Hget m Hm) in Hr. simplify_eq. lia.
      * split; [|intros []; exists n, answer; rewrite (Hget n eq_refl); repeat split; lia].
        split; [|done]. intros _. exists n, answer. rewrite (Hget n eq_refl). repeat split; lia.
    + simpl. split; [|by eauto]. split; [done|]. intros (m & answer & Hm & Hr & _). by rewrite (Hget m Hm) in Hr.
  - destruct (resolveProbePort (ts_Port t) c) as [n|] eqn:Hp; [|done]. apply resolveProbePort_ok in Hp.
    injection Hq as <-. eexists. split; [reflexivity|]. destruct (local_host (ts_Host t)) eqn:Hl; [|done]. rewrite Hp.
    unfold main. cbn [length]. rewrite parse_probe by auto. simpl. unfold tcpProbe.
    pose proof (λ m, aa_dial _ _ _ _ _ Halike (ts_Host t) m (probeTimeout p * second)%Z Hl) as Hd.
    change ("127.0.0.1:" +:+ pretty n) with ("127.0.0.1" +:+ ":" +:+ pretty n). rewrite <-(Hd n).
    destruct (dial _ _) as [[]|e] eqn:He; simpl.
    + split; [|intros []; by exists n]. split; [|done]. intros _. by exists n.
    + split; [|by eauto]. split; [done|]. intros (m & [= <-] & Hr). by rewrite He in Hr.
Qed.

(** The command only ever exits with 0, 1 or 2, and with 1 or 2 for its own checks
    and usage. *)
Theorem main_exits server dial go_headers args :
  (main server dial go_headers args).1 ∈ [0%Z; 1%Z; 2%Z].
Proof.
  unfold main.
  assert (∀ fuel f as_, match parse_flags fuel f as_ with inl _ => True | inr z => z = 0%Z ∨ z = 2%Z end) as Hp.
  { induction fuel as [|fuel IH]; intros f as_; simpl; [done|].
    destruct (next_flag as_) as [|name value rest|]; [done| |by right].
    repeat case_decide; try (by left); try (by right); destruct value as [v|]; try (by right); try apply IH.
    destruct (ParseDuration v); [apply IH|by right]. }
  pose proof (Hp (length args) default_flags args) as H. destruct (parse_flags _ _ args) as [f|z].
  - case_decide; [simpl; set_solver|]. destruct (if decide _ then _ else _); simpl; set_solver.
  - simpl. destruct H as [-> | ->]; set_solver.
Qed.

(** ** Witness *)
(** Wherever it is asked, it answers in a second. *)
Definition ex_server (url : string) (headers : list (string * string)) (timeout : Z) : result Answer :=
  if decide (timeout < second)%Z then Err (ErrMsg "timeout") else Ok (mkAnswer 204 "204 No Content" None).
Definition ex_probe : Probe :=
  mkProbe None (Some (mkHTTPGet "/healthz" (mkIntOrString TypeString 0 "http") "" "HTTP" [])) None None 5 0 10 1 3.
Definition ex_accepts (addr : string) (timeout : Z) : result () := Ok ().
Definition ex_agents : list (string * string) := [("User-Agent", "kube-probe/1.30"); ("Accept", "*/*")].
Lemma ex_alike : answers_alike ex_server ex_accepts ex_agents "10.0.0.7" [("User-Agent", "Go-http-client/1.1")].
Proof. done. Qed.
Lemma probe_means_the_same_witness :
  ∃ q args, RewriteProbe (Some ex_probe) web_container = Ok (Some q) ∧ p_Exec q = Some (ProbeHelper :: args) ∧
    (main ex_server ex_accepts [("User-Agent", "Go-http-client/1.1")] args).1 = 0%Z.
Proof.
  destruct (probe_means_the_same ex_server ex_accepts [("User-Agent", "Go-http-client/1.1")] ex_agents (λ _ _, true)
    (Err (ErrMsg "stopped after 10 redirects")) "10.0.0.7" ex_probe
    (with_handlers ex_probe (Some [ProbeHelper; "-http"; "http://127.0.0.1:8080/healthz"; "-timeout"; "1s"]) None None None)
    web_container ex_alike) as (args & Ha & Hm & _); [reflexivity|reflexivity|exact I|reflexivity|reflexivity|reflexivity| |].
  - intros h [= <-]. split; [reflexivity|right; eexists; reflexivity|].
    intros n answer target _. cbv zeta. intros [= <-]. discriminate.
  - eexists _, args. split; [reflexivity|]. split; [exact Ha|]. apply Hm.
    exists 8080%Z, (mkAnswer 204 "204 No Content" None). split; [reflexivity|]. split; [reflexivity|simpl; lia].
Defined.

(** ** What modelling showed *)

(** A redirect to the same host is a pass for the helper, wherever it leads; the
    kubelet follows it, and fails where it leads to an error. *)
Theorem redirect_passes_unfollowed :
  let broken := "http://10.0.0.7:8080/broken" in
  let server url (headers : list (string * string)) (timeout : Z) :=
    if bool_decide (url = broken) then Ok (mkAnswer 500 "500 Internal Server Error" None)
    else Ok (mkAnswer 302 "302 Found" (Some broken)) in
  (∀ q args, RewriteProbe (Some ex_probe) web_container = Ok (Some q) → p_Exec q = Some (ProbeHelper :: args) →
     (main server ex_accepts [] args).1 = 0%Z) ∧
  ¬ kubelet_passes server ex_accepts [] (λ _ _, true) (Err (ErrMsg "stopped after 10 redirects")) "10.0.0.7"
      ex_probe web_container.
Proof.
  split.
  - intros q args H1 H2. vm_compute in H1. injection H1 as <-. simpl in H2. injection H2 as <-. vm_compute. reflexivity.
  - intros (n & answer & Hn & Hget & H1 & H2). vm_compute in Hn. injection Hn as <-. vm_compute in Hget.
    injection Hget as <-. simpl in H2. lia.
Qed.

(** The headers a probe asks for are neither refused nor sent: the command is the
    same for any. *)
Theorem probe_headers_dropped (h : HTTPGetAction) (headers : list (string * string)) (t1 t2 t3 t4 t5 : Z) (c : Container) :
  let with_headers l := mkHTTPGet (hg_Path h) (hg_Port h) (hg_Host h) (hg_Scheme h) l in
  let probe l := Some (mkProbe None (Some (with_headers l)) None None t1 t2 t3 t4 t5) in
  validateProbe (probe headers) = validateProbe (probe []) ∧ RewriteProbe (probe headers) c = RewriteProbe (probe []) c.
Proof. done. Qed.
