(* ===== verification/CommandLine.v ===== *)
(** * cmd/virtual-kubelet/main.go: what the flags come to, and how the parts meet

    The nodes a process runs, the node objects it registers, where a node's
    volumes are placed, what a claim's mount is for the capsule template, the
    options that are refused, and the conversion of a tenant -- the places where
    one component is handed to another. *)

From S2P Require Import Prelude GoStd GoNet K8s NetpolTranslate NetpolRuleSet NetpolNeutron NetpolReconciler NetpolMigrate.
From S2P Require Import NodeRun NodeSet.
From S2P Require Import ZunTemplate VirtualNode Storage VolumeBackend VolumePlan VolumeExpand VolumeReconciler.
From Stdlib Require Import Ascii.

Local Open Scope string_scope.
Local Open Scope list_scope.

(** The flags the definitions below read. *)
Record options := mkOptions {
  o_nodeName : string; o_tenant : string; o_namespaces : string; o_zone : string; o_zunAZ : string;
  o_arch : string; o_listenAddr : string; o_internalIP : string;
  o_capacity : Capacity; o_nsSelector : string; o_nodes : list string;
  o_tlsCert : string; o_tlsKey : string; o_clientCA : string;
  o_platformNamespace : string; o_shard : string; o_ingressProvider : string; o_vipSubnet : string }.

(** ** Nodes *)
Definition default_spec (o : options) : nodeSpec :=
  mkNodeSpec (o_nodeName o) (o_arch o) (o_zone o) (o_zunAZ o) (o_listenAddr o).
(** One round of the loop that checks them, over the names and addresses seen. *)
Definition check_spec (seen : gset string * gset string) (spec : nodeSpec) : result (gset string * gset string) :=
  match ValidateArchitecture (ns_arch spec) with
  | Err e => Err (ErrWrap ("node " +:+ ns_name spec) e)
  | Ok _ =>
      if decide (ns_name spec ∈ seen.1) then Err (ErrMsg ("node " +:+ ns_name spec +:+ " is named twice"))
      else if decide (ns_listen spec ≠ "" ∧ ns_listen spec ∈ seen.2) then
        Err (ErrMsg ("node " +:+ ns_name spec +:+ " listens on " +:+ ns_listen spec +:+
          ", which another node already uses; give each node its own listen address"))
      else Ok ({[ns_name spec]} ∪ seen.1, {[ns_listen spec]} ∪ seen.2)
  end.
Definition nodeSpecs (o : options) : result (list nodeSpec) :=
  let first := if decide (o_nodeName o ≠ "") then [default_spec o] else [] in
  rest ← map_result (λ raw, parseNodeSpec raw (default_spec o)) (o_nodes o);
  let specs := first ++ rest in
  if decide (specs = []) then Err (ErrMsg "no nodes: give --nodename or at least one --node")
  else _ ← fold_result check_spec (∅, ∅) specs; Ok specs.

Definition splitAndTrim (s : string) : list string :=
  filter (λ p, p ≠ "") (map TrimSpace (split_char "," s)).

(** Zero lets the node's default stand. *)
Definition kubeletPortOf (listen : string) : Z :=
  match SplitHostPort listen with
  | None => 0
  | Some (_, port) => opt_or 0%Z (ParseInt 32 port)
  end.

(** A shared node advertises a large capacity where none was given. *)
Definition capacity_or (v d : string) : string := if decide (v = "0") then d else v.
Definition shared_capacity (o : options) : Capacity :=
  if decide (o_platformNamespace o ≠ "") then
    let c := o_capacity o in
    mkCapacity (capacity_or (cap_CPU c) "1000") (capacity_or (cap_Memory c) "4Ti") (capacity_or (cap_Pods c) "10000")
      (cap_EphemeralStorage c)
  else o_capacity o.

(** The node a spec is registered as. *)
Definition node_options (o : options) (region version : string) (spec : nodeSpec) : NodeOptions :=
  mkNodeOptions (ns_name spec) (o_tenant o) (ns_zone spec) region (o_shard o) version "" (ns_arch spec)
    (shared_capacity o) (o_internalIP o) (kubeletPortOf (ns_listen spec)).

(** Where a node puts what it runs. *)
Definition placementOf (specs : list nodeSpec) (region : string) : string → option Placement :=
  let where_ := fold_left (λ m spec, <[ns_name spec := mkPlacement (ns_zone spec) (ns_zunAZ spec) region]> m) specs
                  (∅ : gmap string Placement) in
  λ node, where_ !! node.

(** What is added to the set for each spec. *)
Definition plan_of (spec : nodeSpec) : NodePlan := mkNodePlan (ns_name spec) (ns_listen spec).

(** ** What a claim is mounted as *)
Definition claim_mount (m : Mount) : ClaimMount :=
  mkClaimMount (if decide (mt_Kind m = Block) then "cinder" else if decide (mt_Kind m = Shared) then "nfs" else "")
    (mt_ID m) (mt_Export m).
(** [ResolveClaim]: [None] where claims are not enabled. *)
Definition resolve_claim {Q : Quantities} {W : Type} {manila : Manila W} (volRec : option Reconciler)
    (namespace claim : string) : M W ClaimMount :=
  match volRec with
  | None => fail (ErrMsg "persistent volumes are not enabled on this deployment")
  | Some r => m ← MountFor r namespace claim; mret (claim_mount m)
  end.

(** ** Options that are refused *)
Definition check_namespaces (o : options) : result (list string) :=
  let namespaces := splitAndTrim (o_namespaces o) in
  if decide (namespaces = [] ∧ o_nsSelector o = "") then
    Err (ErrMsg "one of --namespace-selector or --namespaces is required: a node must state which namespaces it serves")
  else Ok namespaces.
(** Whether tenants are told apart by the tenant label of the namespaces. *)
Definition check_platform (o : options) : result bool :=
  if decide (o_platformNamespace o = "") then Ok false
  else if decide (o_nsSelector o = "") then
    Err (ErrMsg ("--platform-namespace needs --namespace-selector: " +:+
      "per-tenant credentials are resolved through the namespaces' tenant label"))
  else Ok true.
(** Whether the kubelet API serves TLS. *)
Definition check_tls (o : options) : result bool :=
  if decide (o_tlsCert o = "" ∧ o_tlsKey o = "") then Ok false
  else if decide (o_tlsCert o = "" ∨ o_tlsKey o = "") then
    Err (ErrMsg "--tls-cert-file and --tls-private-key-file must be given together")
  else if decide (o_clientCA o = "") then
    Err (ErrMsg ("--client-ca-file is required with a serving certificate: without it the " +:+
      "kubelet API cannot verify who is calling"))
  else Ok true.
(** Whether Ingresses are served. *)
Definition check_ingress (o : options) : result bool :=
  if decide (o_ingressProvider o ≠ "" ∧ o_vipSubnet o ≠ "") then
    if decide (o_ingressProvider o = "ovn") then
      Err (ErrMsg ("--ingress-provider=ovn cannot work: the OVN provider is L4-only and refuses every L7 object; " +:+
        "use amphora, or incus where its driver serves L7"))
    else Ok true
  else Ok false.

(** ** The conversion of a tenant *)
Definition phase_of (phase : string) : option MigratePhase :=
  if decide (phase = "attach") then Some PhaseAttach
  else if decide (phase = "detach") then Some PhaseDetach else None.
Definition convertTenant {W : Type} `{!NeutronAPI W} (phase : string) (confirm : bool) : M W (nat * nat) :=
  match phase_of phase with
  | None => fail (ErrMsg ("the conversion phase must be " +:+ go_quote "attach" +:+ " or " +:+ go_quote "detach" +:+
                    ", not " +:+ go_quote phase))
  | Some phase =>
      '(ingress, egress) ← wrap "preparing the baseline groups" EnsureBaseline;
      denyAll ← EnsureDenyAll;
      Convert phase [denyAll; ingress; egress] (negb confirm)
  end.

(** ** Lemmas *)
Definition known_arch (spec : nodeSpec) : Prop := ns_arch spec = "" ∨ ns_arch spec ∈ knownArchitectures.
Lemma ValidateArchitecture_ok spec : is_ok (ValidateArchitecture (ns_arch spec)) = true ↔ known_arch spec.
Proof. unfold ValidateArchitecture, known_arch. repeat case_decide; simpl; naive_solver. Qed.

(** The addresses that are given. *)
Definition listens (specs : list nodeSpec) : list string := filter (λ l, l ≠ "") (map ns_listen specs).

Lemma listens_cons spec specs :
  listens (spec :: specs) = if decide (ns_listen spec ≠ "") then ns_listen spec :: listens specs else listens specs.
Proof. unfold listens. simpl. by rewrite filter_cons. Qed.

Lemma check_specs_ok specs : ∀ N A,
  is_ok (fold_result check_spec (N, A) specs) = true ↔
    Forall known_arch specs ∧
    (NoDup (map ns_name specs) ∧ ∀ x, x ∈ map ns_name specs → x ∉ N) ∧
    (NoDup (listens specs) ∧ ∀ x, x ∈ listens specs → x ∉ A).
Proof.
  induction specs as [|spec specs IH]; intros N A.
  - simpl. split; [|done]. intros _. repeat split; try constructor; by intros x ?%elem_of_nil.
  - cbn [fold_result]. unfold mbind, result_bind. rewrite listens_cons. unfold check_spec at 1.
    pose proof (ValidateArchitecture_ok spec) as Ha.
    destruct (ValidateArchitecture (ns_arch spec)) as [u|e]; simpl in Ha.
    2:{ split; [done|]. intros (Hf & _). apply Forall_cons in Hf as [Hf _]. by apply Ha in Hf. }
    assert (known_arch spec) as Hk by by apply Ha. cbn [fst snd map].
    destruct (decide (ns_name spec ∈ N)) as [Hn|Hn].
    { split; [done|]. intros (_ & [_ H] & _). exfalso. by apply (H (ns_name spec)); [left|]. }
    case_decide as Hl.
    { split; [done|]. intros (_ & _ & [_ H]). rewrite decide_True in H by tauto.
      exfalso. destruct Hl as [_ Hl]. by apply (H (ns_listen spec)); [left|]. }
    rewrite IH. split.
    + intros (Hf & [Hnd Hd] & [Hnl Hdl]). split; [by constructor|]. split.
      * split; [constructor; [|done]|].
        -- intros Hin. apply Hd in Hin. set_solver.
        -- intros x [->|Hx]%elem_of_cons; [done|]. apply Hd in Hx. set_solver.
      * case_decide as He.
        -- split; [constructor; [|done]|].
           ++ intros Hin. apply Hdl in Hin. set_solver.
           ++ intros x [->|Hx]%elem_of_cons; [tauto|]. apply Hdl in Hx. set_solver.
        -- split; [done|]. intros x Hx. apply Hdl in Hx. set_solver.
    + intros (Hf & [Hnd Hd] & [Hnl Hdl]). apply Forall_cons in Hf as [_ Hf]. split; [done|].
      apply NoDup_cons in Hnd as [Hnn Hnd]. split; [split; [done|]|].
      * intros x Hx. apply not_elem_of_union. split; [rewrite not_elem_of_singleton; by intros ->|].
        apply Hd. by right.
      * case_decide as He.
        -- apply NoDup_cons in Hnl as [Hnn' Hnl]. split; [done|]. intros x Hx. apply not_elem_of_union.
           split; [rewrite not_elem_of_singleton; by intros ->|]. apply Hdl. by right.
        -- split; [done|]. intros x Hx. apply not_elem_of_union. split; [|by apply Hdl].
           rewrite not_elem_of_singleton. intros ->. apply list_elem_of_filter in Hx as [Hx _]. done.
Qed.

Lemma nodeSpecs_checked o specs :
  nodeSpecs o = Ok specs → specs ≠ [] ∧ NoDup (map ns_name specs) ∧ NoDup (listens specs).
Proof.
  unfold nodeSpecs, mbind, result_bind. intros H. destruct (map_result _ _) as [rest|e]; [|done].
  case_decide; [done|]. destruct (fold_result _ _ _) as [u|e] eqn:Hf; [|done]. injection H as <-. split; [done|].
  assert (is_ok (fold_result check_spec (∅, ∅) ((if decide (o_nodeName o ≠ "") then [default_spec o] else []) ++ rest))
    = true) as Hok by by rewrite Hf.
  apply check_specs_ok in Hok. tauto.
Qed.

(** Nodes added as planned are the specs, in order. *)
Lemma as_planned_names tls added plans :
  Forall2 (as_planned tls) added plans → map (λ n, nd_name (vn_node n)) added = map pl_name plans.
Proof. by induction 1 as [|n p ns ps [Hn _] _ IH]; simpl; [|rewrite Hn, IH]. Qed.

Lemma fold_placement specs region : ∀ m node,
  fold_left (λ m spec, <[ns_name spec := mkPlacement (ns_zone spec) (ns_zunAZ spec) region]> m) specs
    (m : gmap string Placement) !! node =
  match find (λ spec, bool_decide (ns_name spec = node)) (reverse specs) with
  | Some spec => Some (mkPlacement (ns_zone spec) (ns_zunAZ spec) region)
  | None => m !! node end.
Proof.
  induction specs as [|spec specs IH]; intros m node; [done|]. cbn [fold_left]. rewrite IH.
  rewrite reverse_cons. generalize (reverse specs) as l. clear. intros l.
  induction l as [|x l IH]; simpl.
  - case_bool_decide as H; [by rewrite H, lookup_insert_eq|by rewrite lookup_insert_ne].
  - by case_bool_decide.
Qed.

Lemma placementOf_own specs region spec :
  NoDup (map ns_name specs) → spec ∈ specs →
  placementOf specs region (ns_name spec) = Some (mkPlacement (ns_zone spec) (ns_zunAZ spec) region).
Proof.
  intros Hnd Hin. unfold placementOf. rewrite fold_placement.
  destruct (find _ _) as [x|] eqn:Hf.
  - apply find_some in Hf as [Hx Hn]. apply bool_decide_eq_true in Hn.
    rewrite <-list_elem_of_In, elem_of_reverse in Hx.
    enough (x = spec) as -> by done. clear -Hnd Hin Hx Hn.
    induction specs as [|y l IH]; [by apply elem_of_nil in Hin|]. simpl in Hnd. apply NoDup_cons in Hnd as [Hny Hnd].
    assert (∀ z, z ∈ l → ns_name z ≠ ns_name y) as Hne.
    { intros z Hz Heq. apply Hny. rewrite <-Heq. apply list_elem_of_fmap. by exists z. }
    apply elem_of_cons in Hin as [->|Hin]; apply elem_of_cons in Hx as [->|Hx]; try done.
    + by destruct (Hne x Hx).
    + by destruct (Hne spec Hin).
    + by apply IH.
  - eapply find_none in Hf; [|by apply list_elem_of_In, elem_of_reverse]. simpl in Hf.
    by rewrite bool_decide_eq_true_2 in Hf.
Qed.

Lemma node_labels_topology o :
  node_labels o !! LabelTopologyZone = (if decide (no_Zone o ≠ "") then Some (no_Zone o) else None) ∧
  node_labels o !! LabelTopologyRegion = (if decide (no_Region o ≠ "") then Some (no_Region o) else None).
Proof.
  unfold node_labels, insert_unless_empty, LabelTopologyZone, LabelTopologyRegion, LabelZone, LabelRegion.
  split; repeat case_decide; simplify_map_eq; done.
Qed.

(** *** The baseline moves no port *)
Section conversion.
Context {W : Type} `{!NeutronAPI W} (view : W → NeutronState) `{!NeutronLaws W view}.

Lemma ensureGroup_ports s name description :
  runs view s (ensureGroup name description) (λ _ s', ns_ports s' = ns_ports s) (λ _ s', ns_ports s' = ns_ports s).
Proof.
  eapply runs_conseq; [apply (ensureGroup_runs view)| |]; cbv beta.
  - by intros id s' (_ & (_ & _ & Hp) & _).
  - by intros e s' (_ & _ & Hp).
Qed.
Lemma EnsureDenyAll_ports s :
  runs view s EnsureDenyAll
    (λ id s', ns_ports s' = ns_ports s ∧ only_touches DenyAll s s' ∧ ∃ d, ns_groups s' !! id = Some (DenyAll, d))
    (λ _ s', ns_ports s' = ns_ports s).
Proof.
  eapply runs_conseq; [apply (EnsureDenyAll_runs view)| |]; cbv beta.
  - intros id s' (Ht & Hd & _). split; [apply Ht|by split].
  - by intros e s' (_ & _ & Hp).
Qed.
Lemma ensureBaselineRules_ports s gid direction :
  runs view s (ensureBaselineRules gid direction) (λ _ s', ns_ports s' = ns_ports s) (λ _ s', ns_ports s' = ns_ports s).
Proof.
  eapply runs_conseq; [apply (ensureBaselineRules_runs view)| |]; cbv beta.
  - by intros u s' ((_ & _ & _ & Hp) & _).
  - by intros e s' (_ & _ & _ & Hp).
Qed.
Lemma EnsureBaseline_ports s :
  runs view s EnsureBaseline (λ _ s', ns_ports s' = ns_ports s) (λ _ s', ns_ports s' = ns_ports s).
Proof.
  unfold EnsureBaseline. step_law EnsureDenyAll_ports; [done|]. intros d s1 (H1 & _).
  step_law ensureGroup_ports; [intros e s' Hs; congruence|]. intros i s2 H2.
  step_law ensureGroup_ports; [intros e s' Hs; congruence|]. intros g s3 H3.
  step_law ensureBaselineRules_ports; [intros e s' Hs; congruence|]. intros _ s4 H4.
  step_law ensureBaselineRules_ports; [intros e s' Hs; congruence|]. intros _ s5 H5.
  apply runs_ret. congruence.
Qed.
End conversion.

Lemma phase_of_detach phase ph : phase_of phase = Some ph → ph = PhaseDetach ↔ phase = "detach".
Proof. unfold phase_of. repeat case_decide; intros ?; simplify_eq; naive_solver. Qed.

(** What only moves ports leaves the baseline groups as they are. *)
Lemma ports_only_groups phase baseline d s s' :
  ports_only phase baseline d s s' →
  (∀ id, (∃ x, ns_groups s !! id = Some (DenyAll, x)) ∧ (∀ f, ¬ group_has s id f) → denyall_ready id s') ∧
  (∀ name direction id, baseline_ready name direction id s → baseline_ready name direction id s').
Proof.
  intros (Hg & Hr & _). unfold denyall_ready, baseline_ready, covered, group_has. by rewrite Hg, Hr.
Qed.

(** ** Properties *)

(** The nodes a process runs are told apart.  What is accepted is exactly the
    node of the single-node flags, where they name one, and the nodes given, in
    order -- at least one, each of an architecture there is, no two of one name
    and no two on one address -- and anything else is refused. *)
Theorem nodeSpecs_distinct (o : options) (specs : list nodeSpec) :
  nodeSpecs o = Ok specs ↔
    ∃ rest, Forall2 (λ raw spec, parseNodeSpec raw (default_spec o) = Ok spec) (o_nodes o) rest ∧
      specs = (if decide (o_nodeName o ≠ "") then [default_spec o] else []) ++ rest ∧
      specs ≠ [] ∧ Forall known_arch specs ∧ NoDup (map ns_name specs) ∧ NoDup (listens specs).
Proof.
  unfold nodeSpecs. set (first := if decide (o_nodeName o ≠ "") then _ else _).
  unfold mbind, result_bind.
  assert (∀ l : list nodeSpec, is_ok (fold_result check_spec (∅, ∅) l) = true ↔
    Forall known_arch l ∧ NoDup (map ns_name l) ∧ NoDup (listens l)) as Hok.
  { intros l. rewrite check_specs_ok. split; [tauto|]. intros (? & ? & ?). set_solver. }
  split.
  - intros H. destruct (map_result _ _) as [rest|e] eqn:Hr; [|done]. apply map_result_Forall2 in Hr.
    case_decide as Hne; [done|]. destruct (fold_result _ _ _) as [u|e] eqn:Hf; [|done].
    injection H as <-. exists rest. split; [done|]. split; [done|]. split; [done|].
    apply Hok. by rewrite Hf.
  - intros (rest & Hr & -> & Hne & Hconds). apply Forall2_map_result in Hr. rewrite Hr, decide_False by done.
    apply Hok in Hconds. by destruct (fold_result _ _ _).
Qed.

(** C14 Every pod has one node.  When the nodes a process was given are all added to
    its set, each pod is acted on by the node it names and by no other, a pod
    that names none of them by none; one watch is asked for each node; a node
    that serves TLS has its authorizer; and there is something to run. *)
Theorem one_node_per_pod (o : options) (specs : list nodeSpec) (opts : SetOptions) (tls : bool) (set0 set : NodeSet)
    (newNC : string → Z → result ()) (newPC : PodControllerConfig → result ()) (lease : Z)
    (newProvider : string → nat → result nat) (webhookAuth : string → result ()) (namespaces : result ()) :
  nodeSpecs o = Ok specs → NewSet opts = Ok set0 →
  add_nodes newNC newPC lease newProvider webhookAuth tls (map plan_of specs) set0 = (Ok (), set) →
  (∀ pod i j n m, st_nodes set !! i = Some n → st_nodes set !! j = Some m →
     acts_on set n pod = true → acts_on set m pod = true → i = j) ∧
  (∀ pod, (∃ n, n ∈ st_nodes set ∧ acts_on set n pod = true) ↔ NodeName (Spec pod) ∈ map ns_name specs) ∧
  NoDup (st_podFactories set) ∧
  Forall2 (λ n spec, nd_name (vn_node n) = ns_name spec ∧ nd_listenAddr (vn_node n) = ns_listen spec ∧
                     nd_auth (vn_node n) = nd_tlsConfig (vn_node n)) (st_nodes set) specs ∧
  is_ok (Run (map vn_node (st_nodes set)) namespaces) = true.
Proof.
  intros Hspecs Hset Hadd. apply nodeSpecs_checked in Hspecs as (Hne & Hnd & _). apply NewSet_wf in Hset as [Hwf H0].
  pose proof (add_nodes_wf newNC newPC lease newProvider webhookAuth tls (map plan_of specs) set0 Hwf) as H.
  rewrite Hadd in H. destruct H as (Hw & added & Ha & Hp & Hl). specialize (Hl eq_refl). rewrite H0 in Ha. simpl in Ha.
  rewrite Hl, take_ge in Hp by done. rewrite <-Ha in Hp.
  assert (map (λ n, nd_name (vn_node n)) (st_nodes set) = map ns_name specs) as Hnames.
  { rewrite (as_planned_names _ _ _ Hp), map_map. done. }
  split; [|split; [|split; [|split]]].
  - intros pod i j n m Hi Hj Hn Hm. apply acts_on_spec in Hn, Hm; try done; try by eapply list_elem_of_lookup_2.
    eapply (NoDup_lookup _ _ _ (NodeName (Spec pod)) Hnd); rewrite <-Hnames, list_lookup_fmap.
    + by rewrite Hi, Hn.
    + by rewrite Hj, Hm.
  - intros pod. rewrite <-Hnames, list_elem_of_fmap. split; intros (n & H1 & H2).
    + exists n. split; [|done]. by apply acts_on_spec in H2.
    + exists n. split; [done|]. by apply acts_on_spec.
  - by apply factories_nodup.
  - clear -Hp. change (map plan_of specs) with (plan_of <$> specs) in Hp.
    rewrite Forall2_fmap_r in Hp. eapply Forall2_impl; [exact Hp|].
    intros n spec (H1 & H2 & _ & H3 & H4). by rewrite H3, H4.
  - apply Forall2_length in Hp. destruct (st_nodes set); [by destruct specs|done].
Qed.

(** C31 A volume can be attached where its pod was put.  For a claim the scheduler
    placed on a node this process runs, the volume admits that very node object,
    and another node exactly when it is in the same region and zone, where the
    process and the node name one. *)
Theorem volume_reaches_its_node {Q : Quantities} (o : options) (region version : string) (specs : list nodeSpec)
    (spec : nodeSpec) (r : Reconciler) (claim : Claim) (now : Time) :
  nodeSpecs o = Ok specs → spec ∈ specs → ns_name spec ≠ "" →
  rc_PlacementOf r = Some (placementOf specs region) →
  annotation (cl_Annotations claim) selectedNodeAnnotation = ns_name spec →
  let affinity := nodeAffinityFor (placementFor r claim) in
  admits affinity (n_Labels (Build (node_options o region version spec) now)) ∧
  ∀ labels, admits affinity labels ↔
    (region = "" ∨ labels !! LabelTopologyRegion = Some region) ∧
    (ns_zone spec = "" ∨ labels !! LabelTopologyZone = Some (ns_zone spec)).
Proof.
  intros Hspecs Hin Hname Hpl Hsel affinity.
  assert (placementFor r claim = mkPlacement (ns_zone spec) (be_AvailabilityZone (rc_Backend r)) region) as Hp.
  { unfold placementFor. rewrite Hpl, Hsel, decide_False by done. rewrite placementOf_own; [done| |done].
    by apply nodeSpecs_checked in Hspecs as (_ & ? & _). }
  assert (∀ labels, admits affinity labels ↔
    (region = "" ∨ labels !! LabelTopologyRegion = Some region) ∧
    (ns_zone spec = "" ∨ labels !! LabelTopologyZone = Some (ns_zone spec))) as Ha.
  { intros labels. unfold affinity. by rewrite nodeAffinityFor_admits, Hp. }
  split; [|done]. apply Ha. simpl. destruct (node_labels_topology (node_options o region version spec)) as [Hz Hr].
  simpl in Hz, Hr. rewrite Hz, Hr. split.
  - destruct (decide (region = "")); [by left|right; by rewrite decide_True].
  - destruct (decide (ns_zone spec = "")); [by left|right; by rewrite decide_True].
Qed.

(** C33 What was made for a claim is what the capsule's template mounts.  The volume
    data of a pod's claim is the Cinder volume, or the share's export and id,
    that was made for the claim it is bound to.  The export is the one the volume
    object records, and where it records none the one that share's own export
    locations give; a pod is refused only for a share with no export recorded.
    Asking changes nothing. *)
Theorem claim_reaches_template {Q : Quantities} {W} {manila : Manila W} {cinder : Cinder W}
    (view : W → StState) `{!ManilaLaws manila view} (r : Reconciler) (pod : Pod) (volume name : string)
    (bound claim : Claim) (p : Provisioned) (export phase : string) (rv : Z) (where_ : Placement) (s : StState) :
  rc_Claims r (Namespace pod) name = Ok bound → cl_VolumeName bound ≠ "" →
  rc_Volumes r (cl_VolumeName bound) = Ok (pv_written rv phase (new_volume claim p export where_)) →
  pr_ID p ≠ "" → pr_Kind p = Block ∨ pr_Kind p = Shared →
  runs view s (m ← resolve_claim (Some r) (Namespace pod) name; lift_result (claim_data pod volume name m))
    (λ d s', s' = s ∧
       ((pr_Kind p = Block ∧ d = CinderData (pr_ID p) (fsGroupOf pod)) ∨
        (pr_Kind p = Shared ∧ ∃ e, e ≠ "" ∧ (export ≠ "" → e = export) ∧
           (export = "" → listed_export s (pr_ID p) e) ∧ d = NFSData e (pr_ID p) (fsGroupOf pod))))
    (λ _ s', s' = s ∧ pr_Kind p = Shared ∧ export = "").
Proof.
  intros Hc Hv Hp Hid Hk. unfold resolve_claim, MountFor. rewrite Hc.
  set (pv := pv_written rv phase (new_volume claim p export where_)) in *.
  assert (storage_of pv = (pr_Kind p, pr_ID p)) as Hst by done.
  assert (annotation (pv_Annotations pv) ExportAnnotation = export) as Hex by done.
  pose proof (mount_of_runs view s pv) as H. cbv zeta in H. rewrite Hst, Hex in H. cbn [fst snd] in H.
  eapply (runs_bind view s _ _ (λ m s', s' = s ∧ ∃ x, m = claim_mount (mkMount (pr_Kind p) (pr_ID p) x) ∧
    (export ≠ "" ∨ pr_Kind p ≠ Shared → x = export) ∧ (pr_Kind p = Shared → x ≠ "") ∧
    (pr_Kind p = Shared → export = "" → listed_export s (pr_ID p) x))
    _ (λ _ s', s' = s ∧ pr_Kind p = Shared ∧ export = "")); [|done|].
  - eapply runs_bind; [|exact (λ _ _ H, H)|].
    + eapply (runs_bind view s _ _ (λ c s', c = bound ∧ s' = s) _ (λ _ _, False)); [by intros w <-|done|].
      intros c s' [-> ->]. rewrite decide_False, Hp by done.
      eapply (runs_bind view s _ _ (λ x s', x = pv ∧ s' = s) _ (λ _ _, False)); [by intros w <-|done|].
      intros x s' [-> ->]. apply H; [done|by destruct Hk as [->| ->]].
    + intros [k i x] s' (-> & Hmk & Hmi & Hme & Hms & Hml). simpl in *. subst. apply runs_ret. split; [done|]. by exists x.
  - intros m s' (-> & x & -> & Hx & Hsh & Hl). apply runs_lift. unfold claim_mount, claim_data. simpl.
    destruct Hk as [Hk|Hk]; rewrite Hk; simpl.
    + split; [done|]. by left.
    + split; [done|]. right. split; [done|]. exists x. split; [by apply Hsh|]. split; [auto|]. by split; [apply Hl|].
Qed.

(** C32 Converting a tenant takes no port's groups away before it is told to.  A run
    that is not confirmed leaves every port as it is; a confirmed one that
    succeeds leaves every capsule port with what it had and the three baseline
    groups -- which then do what they are for --, less the project's default
    group when detaching, and no other port touched.  However an attach ends, no
    port carries less than it did. *)
Theorem convertTenant_correct {W : Type} `{!NeutronAPI W} (view : W → NeutronState) `{!NeutronLaws W view}
    (phase : string) (confirm : bool) (s : NeutronState) :
  runs view s (convertTenant phase confirm)
    (λ _ s', (confirm = false → ns_ports s' = ns_ports s) ∧
       (∀ id o l, ns_ports s !! id = Some (o, l) → o ≠ DeviceOwnerCapsule → ns_ports s' !! id = Some (o, l)) ∧
       ∃ denyAll ingress egress,
         denyall_ready denyAll s' ∧ baseline_ready AllowIngress "ingress" ingress s' ∧
         baseline_ready AllowEgress "egress" egress s' ∧
         (confirm = true → ∃ d, (phase = "detach" → ∃ x, ns_groups s' !! d = Some ("default", x)) ∧
            ∀ id l, ns_ports s !! id = Some (DeviceOwnerCapsule, l) →
            ∃ l', ns_ports s' !! id = Some (DeviceOwnerCapsule, l') ∧
              ∀ g, g ∈ l' ↔ (g ∈ l ∧ (phase = "detach" → g ≠ d)) ∨ g ∈ [denyAll; ingress; egress]))
    (λ _ s', phase ≠ "detach" → ∀ id o l, ns_ports s !! id = Some (o, l) →
       ∃ l', ns_ports s' !! id = Some (o, l') ∧ ∀ g, g ∈ l → g ∈ l').
Proof.
  assert (∀ s', ns_ports s' = ns_ports s → ∀ id o l, ns_ports s !! id = Some (o, l) →
    ∃ l', ns_ports s' !! id = Some (o, l') ∧ ∀ g, g ∈ l → g ∈ l') as Hsame.
  { intros s' -> id o l Hl. by exists l. }
  unfold convertTenant. destruct (phase_of phase) as [ph|] eqn:Hph.
  2:{ apply runs_fail. intros _. by apply Hsame. }
  assert (ph = PhaseDetach ↔ phase = "detach") as Hdet by by apply phase_of_detach.
  eapply (runs_bind_wrap view);
    [apply (runs_and view); [apply (EnsureBaseline_ports view)|apply (EnsureBaseline_runs view)]| |]; cbv beta.
  { intros e s' [Hp _] _. by apply Hsame. }
  intros [ingress egress] s1 (H1 & Hin & Heg & _).
  eapply (runs_bind view); [apply (runs_and view); [apply (EnsureDenyAll_ports view)|apply (EnsureDenyAll_runs view)]| |]; cbv beta.
  { intros e s' [Hp _] _. apply Hsame. congruence. }
  intros denyAll s2 ((H2 & _) & Ht & Hdeny). eapply runs_conseq; [apply (Convert_runs view)| |]; cbv beta.
  - intros n s' (d & Hports & Hdry & Hconv & Hd & Hdn). assert (ns_ports s2 = ns_ports s) as H0 by congruence.
    pose proof (ports_only_groups _ _ _ _ _ Hports) as Hg. destruct Hports as (Hgr & _ & _ & Ho).
    split; [intros ->; rewrite <-H0; by rewrite Hdry|]. split.
    + intros id o l Hl Hne. rewrite <-H0 in Hl. destruct (Ho id) as [->|[[x Hx] _]]; [done|congruence].
    + exists denyAll, ingress, egress. split; [by apply Hg|].
      split; [by apply Hg; eapply baseline_ready_touches; [|exact Ht|]|].
      split; [by apply Hg; eapply baseline_ready_touches; [|exact Ht|]|].
      intros ->. exists d. split.
      { intros Hph'. rewrite Hgr. apply Hdet in Hph'. by rewrite decide_False in Hd by auto. }
      intros id l Hl. rewrite <-H0 in Hl.
      destruct (Hconv eq_refl id l Hl) as (o & m & l' & Hm & Hl' & Hgs). rewrite Hl in Hm. injection Hm as <- <-.
      exists l'. split; [done|]. intros g. rewrite Hgs, elem_of_desiredGroups. by rewrite Hdet.
  - intros e s' (d & _ & _ & _ & Ho) Hne id o l Hl. assert (ns_ports s2 = ns_ports s) as H0 by congruence.
    rewrite <-H0 in Hl. destruct (Ho id) as [->|[_ (o' & m & l' & Hm & Hl' & Hg)]]; [by exists l|].
    rewrite Hl in Hm. injection Hm as <- <-. exists l'. split; [done|]. intros g Hgl.
    apply Hg, elem_of_desiredGroups. left. split; [done|]. intros Hd. by apply Hdet in Hd.
Qed.

(** ** Witnesses *)
Definition ex_options : options :=
  mkOptions "" "t1" "prod" "az1" "nova" "amd64" ":10250" "" (mkCapacity "0" "0" "0" "") ""
    ["name=n1"; "name=n2,arch=arm64,zone=az2,listen=:10251"] "" "" "" "" "" "" "".
Definition ex_n1 : nodeSpec := mkNodeSpec "n1" "amd64" "az1" "nova" ":10250".
Definition ex_n2 : nodeSpec := mkNodeSpec "n2" "arm64" "az2" "nova" ":10251".
Definition ex_placing : Reconciler (Q:=NanoQuantities) :=
  mkReconciler (mkBackend true true "" "" "" "nova") (λ _ _, Ok ex_placed) (λ _, Err ErrK8sNotFound) (Ok [])
    None true true None (Some (placementOf [ex_n1; ex_n2] "east")) "t1" (λ _, true).

Lemma volume_reaches_its_node_witness :
  let affinity := nodeAffinityFor (placementFor ex_placing ex_placed) in
  admits affinity (n_Labels (Build (node_options ex_options "east" "v1" ex_n1) None)) ∧
  ¬ admits affinity (n_Labels (Build (node_options ex_options "east" "v1" ex_n2) None)).
Proof.
  destruct (@volume_reaches_its_node NanoQuantities ex_options "east" "v1" [ex_n1; ex_n2] ex_n1 ex_placing ex_placed None)
    as [H1 H2]; [by vm_compute|by left|discriminate|reflexivity|reflexivity|].
  split; [exact H1|]. intros H. apply H2 in H as [_ [H|H]]; [discriminate|]. vm_compute in H. discriminate H.
Defined.

Definition ex_two : result () * NodeSet :=
  add_nodes (λ _ _, Ok ()) (λ _, Ok ()) 40 (λ _ inf, Ok inf) (λ _, Ok ()) true (map plan_of [ex_n1; ex_n2]) ex_set.
Lemma one_node_per_pod_witness :
  map (λ n, nd_name (vn_node n)) (st_nodes ex_two.2) = ["n1"; "n2"] ∧
  ∀ pod, (∃ n, n ∈ st_nodes ex_two.2 ∧ acts_on ex_two.2 n pod = true) ↔ NodeName (Spec pod) ∈ ["n1"; "n2"].
Proof.
  split; [vm_compute; reflexivity|].
  apply (one_node_per_pod ex_options [ex_n1; ex_n2] (mkSetOptions true ["prod"] false 0 0 40) true ex_set ex_two.2
    (λ _ _, Ok ()) (λ _, Ok ()) 40 (λ _ inf, Ok inf) (λ _, Ok ()) (Ok ())).
  - vm_compute. reflexivity.
  - reflexivity.
  - fold ex_two. assert (ex_two.1 = Ok ()) as Hok by (vm_compute; reflexivity).
    revert Hok. generalize ex_two. intros [r s] Hok. simpl in Hok. by rewrite Hok.
Defined.

Definition ex_told_pod : Pod := empty_pod "prod" "db-0" "u-9".
Definition ex_told : result volumeData * ExWorld :=
  (m ← @resolve_claim NanoQuantities ExWorld RefManila (Some ex_bound) "prod" "data";
   lift_result (claim_data ex_told_pod "vol" "data" m)) (mkRef ex_empty 0).
Lemma claim_reaches_template_witness : ex_told.1 = Ok (CinderData "vol-1" 0).
Proof.
  pose proof (@claim_reaches_template NanoQuantities ExWorld RefManila RefCinder rw_state RefManila_laws ex_bound
    ex_told_pod "vol" "data" ex_claim ex_placed ex_made "" "Bound" 1 (mkPlacement "az1" "nova" "east") ex_empty eq_refl
    ltac:(discriminate) eq_refl ltac:(discriminate) (or_introl eq_refl) (mkRef ex_empty 0) eq_refl) as H.
  change (match ex_told with
    | (Ok d, w') => rw_state w' = ex_empty ∧ (pr_Kind ex_made = Block ∧ d = CinderData "vol-1" 0 ∨
        pr_Kind ex_made = Shared ∧ ∃ e, e ≠ "" ∧ ("" ≠ "" → e = "") ∧
          ("" = "" → listed_export ex_empty "vol-1" e) ∧ d = NFSData e "vol-1" 0)
    | (Err e, w') => rw_state w' = ex_empty ∧ pr_Kind ex_made = Shared ∧ "" = "" end) in H.
  revert H. generalize ex_told. intros [[d|e] w] (_ & H); simpl.
  - by destruct H as [[_ ->]|[H _]].
  - by destruct H as [H _].
Defined.

Definition ex_converted : result (nat * nat) * NeutronState := @convertTenant _ RefNeutron "attach" true ex_ports.
Lemma convertTenant_correct_witness :
  is_ok ex_converted.1 = true ∧ ∃ denyAll ingress egress l,
    ns_ports (ref_clean ex_converted.2) !! "port1" = Some (DeviceOwnerCapsule, l) ∧
    "default" ∈ l ∧ denyAll ∈ l ∧ ingress ∈ l ∧ egress ∈ l.
Proof.
  pose proof (@convertTenant_correct _ RefNeutron ref_clean RefNeutron_laws "attach" true ex_ports ex_ports eq_refl) as H.
  fold ex_converted in H. assert (is_ok ex_converted.1 = true) as Hok by (vm_compute; reflexivity).
  revert Hok H. generalize ex_converted. intros [[n|e] w] Hok H; [|discriminate Hok].
  split; [reflexivity|]. destruct H as (_ & _ & d & i & g & _ & _ & _ & H).
  destruct (H eq_refl) as (x & _ & Hp). destruct (Hp "port1" ["default"] eq_refl) as (l & Hl & Hin).
  exists d, i, g, l. split; [exact Hl|]. split; [apply Hin; left; split; [by left|discriminate]|].
  split; [|split]; apply Hin; right; set_solver.
Defined.

(** ** What modelling showed *)

(** A run that is not confirmed says nothing was written, and has made the
    baseline groups where the project had none. *)
Definition ex_dry : result (nat * nat) * NeutronState := @convertTenant _ RefNeutron "attach" false ex_ports.
Theorem dry_run_writes_groups :
  ex_dry.1 = Ok (1, 1) ∧ size (ns_groups ex_ports) = 0 ∧ size (ns_groups ex_dry.2) = 3.
Proof. split; [|split]; vm_compute; reflexivity. Qed.
